(* ===== verification/_CoqProject ===== *)
-Q . S2P
Prelude.v
Ids.v
Events.v
GoLib.v
Json.v
JsonText.v
Writer.v
WriterSystem.v
WriterLiveness.v
WriterExamples.v
Wire.v
Payload.v
Storage.v
Archive.v
Trace.v
Retention.v
RetentionProofs.v
Ingestor.v
IngestorProofs.v
FileStore.v
FileStoreProofs.v
Spool.v
TrailHttp.v
Sinks.v
Pipeline.v
Query.v
GoText.v
GoTime.v
Base64.v
LinkJson.v
ArchiveJson.v
ArchiveRestore.v
ExplorerApi.v
ExplorerApiProofs.v
ApiStores.v
PgQuery.v
PgSql.v
Keyset.v
PgSqlProofs.v
PgWrite.v
PgEvents.v
PgPages.v
PgWriteProofs.v
PgInjection.v
Catalogue.v
PgRetention.v
PgScan.v
PgRetentionProofs.v
Explore.v
ChQuery.v
ChWrite.v
ChWriteProofs.v
ChSql.v
ChEvents.v
ChRetention.v
ChRetentionProofs.v
GoRand.v
Generator.v
GeneratorSystem.v
GeneratorStories.v
GeneratorProofs.v
GeneratorExamples.v
S3Store.v
S3StoreProofs.v
PayloadStores.v
S3Contract.v
Schema.v
PgSchema.v
ChSchema.v
GoDuration.v
GoFloat.v
StdoutSink.v
Programs.v
GoFlag.v
CmdStores.v
CmdRetention.v
CmdIngestor.v
CmdExplorer.v
CmdGenerator.v
