(* ===== verification/Prelude.v ===== *)
(** * Verification of Trail

    Trail (src/) is a Go library and a set of services for journalling operational
    events.  An application calls [trail.Log]; a background writer batches events
    into a sink; the NATS sink publishes wire envelopes; an ingestor moves them into
    a database; large bodies live in payload stores and are linked by reference;
    a retention engine archives and deletes what has expired; archives can be read
    and restored.  This library models those parts as executable definitions that
    follow the source function by function, and proves what makes them correct.

    ** Files, in dependency order

    - [Prelude]: outcomes of Go calls ([result]: value, error, panic), machine
      integers with their wrap-around ([u64], [i64]), record update, the monad [M] of
      stateful fallible code with its triples, bytes and arrays, counting and sums,
      reachability of transition systems, and the tactics of the development.
    - [Ids] (src/id.go): identifier generation and Crockford base-32 text.
    - [Events] (src/event.go, field.go, level.go, execution.go, scope.go, config.go,
      stats.go, convention/convention.go and the event construction of [Log] in
      trail.go): data, options, accessors, configuration, counters.
    - [GoLib], [Json], [JsonText]: what is used of Go's strings, hex, time and JSON
      packages; the JSON printer and parser work on bytes and have a round trip.
    - [Writer], [WriterSystem], [WriterLiveness], [WriterExamples] (src/trail.go,
      sink.go): the concurrent logger as a transition system.  A state holds the
      global mutex and pointer, every writer ever created and every goroutine inside
      [Init], [Log] or [Close]; each atomic operation, channel operation and sink
      call is one action, and any interleaving is a schedule of actions.
    - [Wire] (src/wire/wire.go): envelopes, validation, JSON encoding.
    - [Payload] (src/payload/payload.go): references and the fields that carry them.
    - [Storage] (src/storage/normalize.go and the ingest records of storage.go).
    - [Archive] (src/archive/archive.go): writing, reading and restoring archives
      over the interface [PayloadStore]; the class [StoreContract] says what the archive
      relies on, and that what is not deleted stays.
    - [Trace]: the monad of components that drive external services.  Each call and
      its answer is an entry of a history; answers are functions of the history, so
      a theorem about all environments covers every behaviour of the services.
    - [Retention], [RetentionProofs] (src/retention/retention.go): the engine.
    - [Ingestor], [IngestorProofs] (src/ingestor/ingestor.go).
    - [FileStore], [FileStoreProofs] (src/payload/filesystem/filesystem.go): over a
      file system in which every system call can be made to fail.
    - [Spool] (src/trailhttp/spool.go) and [TrailHttp] (src/trailhttp/trailhttp.go):
      the payload spooler and the journalling HTTP transport.
    - [Sinks] (src/sink/memory/memory.go, src/sink/nats/nats.go).
    - [Pipeline]: the components composed, from a logged event to a stored record.
    - [Query] (src/storage/storage.go): filters, pages and summaries of the readers.
    - [GoText], [GoTime], [Base64]: more of Go's strings, strconv, RFC 3339 times and
      base64, with their round trips.
    - [LinkJson], [ArchiveJson]: the JSON of payload links, references, records and
      manifests down to bytes; archives read back through it.  [ArchiveRestore]: what a
      successful [Restore] has done, for all stores with the contract.
    - [ExplorerApi], [ExplorerApiProofs] (src/explorerapi/server.go): routing, every
      handler, scopes, cursors, archive access, CORS and recovery.  [ApiStores]: what
      serving a request does to the payload stores.
    - [PgQuery] (src/storage/postgres/query.go): the SQL builders, scans and pages;
      [PgWrite] (store.go): the insert transaction; [PgRetention] (retention.go):
      scans, deletion, the archive catalogue, payload candidates.
    - [Keyset]: orders by time and identifier, listings, cursors and pages, for both
      databases.  [PgSql], [PgSqlProofs]: a reader and a reference semantics of the event
      statements over a table of rows; [PgEvents], [PgPages], [PgScan]: what listings
      and scans select and that their pages cover it; [PgWriteProofs]: the insert
      transaction; [PgRetentionProofs]: the catalogue and deletion; [PgInjection]: the
      SQL texts are fixed.
    - [Catalogue]: what it means that a count covers a batch, for both databases.
    - [Explore]: a client of the API over PostgreSQL, across all layers.
    - [ChQuery], [ChWrite], [ChRetention] (src/storage/clickhouse/query.go, store.go,
      retention.go): the ClickHouse store; [ChWriteProofs], [ChRetentionProofs].
      [ChSql], [ChEvents]: a reader and a reference semantics of its event lists, what
      they select and that their pages cover it.
    - [GoRand]: the interface of a random source and the PCG generator that
      implements it.  [Generator], [GeneratorSystem] (src/generator/generator.go): the
      stories, and [Generate] as a transition system of the caller and its publishing
      workers; [GeneratorStories], [GeneratorProofs], [GeneratorExamples].
    - [S3Store], [S3StoreProofs] (src/payload/s3/s3.go): the S3 payload store over the
      class [S3Client], what the client library documents.  [PayloadStores] and
      [S3Contract]: the filesystem store and the S3 store are instances of
      [StoreContract], so that archives kept in them are restored.
    - [Schema], [PgSchema], [ChSchema] (src/storage/*/migrations.go): the schema texts
      word for word, a reader of them, a server that carries them out, [Migrate], and
      the types of the columns against the rows the stores insert.
    - [GoDuration], [GoFloat], [StdoutSink] (src/sink/stdout/stdout.go): durations and
      floats as texts, and the sink that prints JSON lines to an [io_Writer].
      [Programs] (src/examples): the writer with that sink behind it, and the two
      example programs.
    - [GoFlag]: command lines.  [CmdStores], [CmdRetention], [CmdIngestor],
      [CmdExplorer], [CmdGenerator] (src/cmd): settings, the stores the commands open,
      the policy file, the runs of the commands composed with the engines, the API,
      the payload stores and [Generate], the JetStream topology over the class
      [JetStreamAPI].

    ** What is shown

    - Logger: events are conserved in order, [Close] drains them, closes the sink
      once and reports the first error; counters account for every event; at most
      one writer lives; no deadlock, bounded work.
    - Wire, storage, pipeline: round trips down to bytes; what was logged, published
      and delivered is what the ingestor stores; payload references survive their
      event; map iteration order has no influence.
    - Ingestor: acknowledgement only after a durable write or dead-lettering, every
      delivered message settled exactly once, bounded groups, exact statistics, stop
      on cancellation.
    - Archive and retention: archives read back exactly, and from files or S3 objects
      events are restored with their payloads whatever was deleted from the active
      stores meanwhile; nothing is deleted that was
      not expired, loaded, archived and recorded just before; payloads are deleted
      only when unreferenced, archived and past the grace period; dry runs change
      nothing; every run ends.
    - Filesystem store: objects appear only complete, under their checksum, whatever
      fails; references cannot leave the root, except for two keys that can (see
      [filestore_path]).
    - HTTP: one journal entry per exchange, bounded captures, no sensitive header or
      query value in journal or spool; no accepted capture is lost.
    - Explorer API: outside the archive routes, which ignore it, a scoped request sees
      its scope only; one answer per request whatever fails; bounds; a client that
      follows the cursors over HTTP gets every record its filter describes exactly
      once, in order.
    - PostgreSQL: generated statements mean what the filters say, pages are complete,
      writes are atomic and idempotent, written records are listed; retention scans
      visit every event once, only events the catalogue holds under the request's
      archive are deleted, recorded receipts are found again and a recording that
      fails leaves nothing or, when a COMMIT's answer was lost, all of it; no value of
      a request reaches a SQL text.
    - ClickHouse: rows round trip; generated event lists mean what the filters say;
      their pages repeat nothing and miss only events whose time the driver rounds to
      that of another, so none when it sends times exactly; redelivered batches, with
      their own delivery stamps and in other groups, are stored once in the view the
      table's engine merges, although sends can fail after they were carried out and
      the server need not drop repeated tokens; events are deleted only when catalogued
      and with rebuild tasks and payload candidates stored; tasks are forgotten last.
    - Schemas: an insert names every column but the one the server's clock fills, and a
      row fits its table exactly when its values fit the columns' types; migrations can
      be interrupted and repeated.
    - Generator: a successful run published exactly the requested events, each batch
      once, valid and in order per service; every run ends, without deadlock even when
      the caller's context never does.
    - S3 store and stdout sink: what was put is what is read, unless the prefix has two
      dots in a row and the store refuses its own references; objects are complete or
      absent; one well-formed line per event, whole lines before a failure; a program
      whose [Close] returned no error has a line on its output for every queued event.
    - Commands: the retention engine runs only with checked rules and on an archive
      apart from the active payloads; what a command opened it gives up; streams and
      consumers that exist are never changed; the explorer answers every request it
      finishes before it is shut down and, unless restoring is enabled, changes no
      payload, while a handler that is still running then loses its event store; the
      generator reports a manifest only for events it has delivered as requested.
    - Identifiers and configuration: texts round trip and are canonical, identifiers
      are unique and non-zero, accepted configurations are valid.

    ** Bounds and fuel

    Loops over data are structural.  [Retention.event_loop] and [collect_loop] take
    fuel, [MaxEvents + 1] and [MaxPayloads + 1], which [retention_terminates] proves
    sufficient for every configuration [New] accepts.  [Ingestor.Engine_Run] is
    unrolled by rounds, since [Run] ends only by its context or an error; its theorems
    hold for every number of rounds.  Clients that follow cursors
    ([PgPages.follow_pages], [PgScan.follow_scan], [ChEvents.ch_follow],
    [Explore.browse]) take a number of
    requests, and their theorems say how many are enough: the number of records plus
    one.  The JSON parser's fuel is the length of its
    input, as is that of [ParseDuration]'s loop.  Lemire's rejection loop in [GoRand]
    draws at most 64 times.  An execution of [Generate] has at most
    [9 * Events + max 1 workers + 21] actions ([generate_returns]).  The shortest
    decimal of a double is searched up to 17 digits, which identify every double.
    Logger theorems assume fewer than [2^63] calls, below which the 64-bit in-flight
    counter is exact; other counters are stated modulo [2^64].

    ** What is not modelled

    SHA-256, gzip, the databases, the NATS and S3 clients and net/http are parameters
    or environments.  What a SQL statement means is a reference semantics for the
    statements on events and on the archive catalogue; the aggregating statements
    (flows, executions, entities, overview) are modelled as texts with arguments, and
    their rows are answers of the environment.  A float64 is its bit pattern; times
    are nanoseconds since the epoch.  Letter case is ASCII where Go folds Unicode
    (JSON member names, header and query names).  Of the commands, signal handling,
    HTTP server timeouts and the printing of results are left out; a slice that a
    policy file names twice is replaced, where Go decodes into its old elements.
    The explorer serves requests one after the other; the order, and what the event
    store answers during each, are free, and a handler that the end of the process cuts
    off is modelled as having made all its calls.  A payload reader is the bytes it
    gives before its end or first error; a panic in the middle of a copy is left out.
    The commands compare locations as texts: S3 endpoints by their spelling, file roots
    without resolving links, so two spellings of one place count as two.  How the ClickHouse driver binds a time is a
    parameter, since the driver is not part of the repository: [ch_seconds_lose_records]
    shows what a driver that sends whole seconds would do to cursors.  Whether the
    ClickHouse server drops a block whose token it knows is left open; when its tables
    are merged is, too: [ch_stored_once] speaks of the merged view, and listings are of
    tables with distinct identifiers. *)

From stdpp Require Export base tactics strings gmap list sorting pretty.
From Stdlib Require Export ZArith Lia Ascii.
From Stdlib Require String.
From Stdlib Require Import Eqdep_dec.

#[global] Set Default Goal Selector "!".
#[global] Open Scope Z_scope.

(** ** Hint databases and tactics of the development *)

Create HintDb trail_arith.
Create Rewrite HintDb trail_wrap.

(** [bool_cases] turns the boolean connectives of the hypotheses into
    propositions. *)
Ltac bool_cases :=
  repeat match goal with
  | H : _ && _ = true |- _ => apply andb_true_iff in H as [? ?]
  | H : _ || _ = false |- _ => apply orb_false_iff in H as [? ?]
  | H : negb _ = true |- _ => apply negb_true_iff in H
  | H : negb _ = false |- _ => apply negb_false_iff in H
  | H : bool_decide _ = true |- _ => apply bool_decide_eq_true in H
  | H : bool_decide _ = false |- _ => apply bool_decide_eq_false in H
  | H : (_ =? _) = true |- _ => apply Z.eqb_eq in H
  | H : (_ =? _) = false |- _ => apply Z.eqb_neq in H
  | H : (_ <=? _) = true |- _ => apply Z.leb_le in H
  | H : (_ <=? _) = false |- _ => apply Z.leb_gt in H
  | H : (_ <? _) = true |- _ => apply Z.ltb_lt in H
  | H : (_ <? _) = false |- _ => apply Z.ltb_ge in H
  end.

(** ** Record update

    [r <| f := v |>] is the record [r] with field [f] replaced by [v]: the Go
    assignment [r.f = v].  An [Eta] instance rebuilds a record from its fields;
    the setter of a field is that expression with the field replaced. *)

Class Eta (R : Type) := eta_expand : R -> R.
Class Setter {R E : Type} (field : R -> E) := set_field : E -> R -> R.
#[global] Typeclasses Opaque Eta Setter.
Arguments set_field {R E} field {_} _ _.

Ltac derive_setter :=
  match goal with |- @Setter ?R ?E ?field =>
    let inst := constr:(ltac:(typeclasses eauto) : Eta R) in
    let rebuild := eval red in inst in
    exact (fun (v : E) (r : R) => ltac:(
      let whole := eval cbv beta in (rebuild r) in
      match whole with context C[field r] => let new := context C[v] in exact new end))
  end.

#[global] Hint Extern 1 (Setter _) => derive_setter : typeclass_instances.

Declare Scope trail_scope.
Delimit Scope trail_scope with trail.
#[global] Open Scope trail_scope.

Notation "r <| f := v |>" := (set_field f v r)
  (at level 1, f at level 9, v at level 200, left associativity,
   format "r  <|  f  :=  v  |>") : trail_scope.

(** ** Outcomes of a Go call

    A call returns a value, returns an error, or panics. *)

(** A Go [error].  [err_text] is [Error()]; [err_chain] names the sentinel
    values [errors.Is] finds by unwrapping. *)
Record error := Err { err_chain : list string; err_text : string }.

#[global] Instance error_eq_dec : EqDecision error.
Proof. solve_decision. Defined.

(** [errors.New] used inline: a fresh value no sentinel is equal to. *)
Definition errors_New (text : string) : error := Err [] text.
(** A package-level [var ErrX = errors.New(text)]. *)
Definition sentinel (text : string) : error := Err [text] text.
(** [fmt.Errorf("%w" + suffix, e)]. *)
Definition errorf_w (e : error) (suffix : string) : error :=
  Err (err_chain e) (err_text e +:+ suffix).
(** [errors.Is(e, target)] for a sentinel target. *)
Definition errors_Is (e target : error) : bool :=
  existsb (fun s => bool_decide (s ∈ err_chain e)) (err_chain target).
(** [errors.Join(a, b)]: nil when both are nil. *)
Definition errors_Join (a b : option error) : option error :=
  match a, b with
  | None, None => None
  | Some e, None | None, Some e => Some e
  | Some e, Some e' =>
      Some (Err (err_chain e ++ err_chain e')
              (err_text e +:+ String "010"%char EmptyString +:+ err_text e'))
  end.

Inductive result (A : Type) : Type :=
| Ok (a : A)
| Fail (e : error)
| Panic (msg : string).
Arguments Ok {A} _.
Arguments Fail {A} _.
Arguments Panic {A} _.

#[global] Instance result_ret : MRet result := fun A a => Ok a.
#[global] Instance result_bind : MBind result := fun A B f m =>
  match m with Ok a => f a | Fail e => Fail e | Panic p => Panic p end.
#[global] Instance result_fmap : FMap result := fun A B f m =>
  match m with Ok a => Ok (f a) | Fail e => Fail e | Panic p => Panic p end.

Definition is_ok {A} (r : result A) : bool :=
  match r with Ok _ => true | _ => false end.

Lemma Ok_inj {A} (a b : A) : Ok a = Ok b -> a = b.
Proof. by intros [= ->]. Qed.

Lemma is_ok_true {A} (r : result A) : is_ok r = true <-> exists a, r = Ok a.
Proof. destruct r; naive_solver. Qed.

Lemma bind_Ok {A B} (f : A -> result B) (m : result A) b :
  (m ≫= f) = Ok b <-> exists a, m = Ok a /\ f a = Ok b.
Proof. destruct m; naive_solver. Qed.

(** [go_range f l]: the loop [for i := range l { x, err := f(i, l[i]); if err
    != nil { return err }; out[i] = x }], the index starting at [i]. *)
Fixpoint go_range_from {A B} (f : nat -> A -> result B) (i : nat) (l : list A)
    : result (list B) :=
  match l with
  | [] => Ok []
  | a :: l' => b ← f i a; bs ← go_range_from f (S i) l'; Ok (b :: bs)
  end.
Definition go_range {A B} (f : nat -> A -> result B) := go_range_from f 0.

Lemma go_range_from_Forall2 {A B} (f : nat -> A -> result B) l bs i :
  go_range_from f i l = Ok bs -> Forall2 (fun a b => exists j, f j a = Ok b) l bs.
Proof.
  revert i bs; induction l as [|a l IH]; intros i bs H; simpl in H; simplify_eq; [done|].
  apply bind_Ok in H as (b & Hb & H). apply bind_Ok in H as (bs' & Hbs & H).
  simplify_eq. constructor; eauto.
Qed.

Lemma go_range_from_all_ok {A B} (f : nat -> A -> result B) (g : A -> B) l i :
  (forall j a, a ∈ l -> f j a = Ok (g a)) -> go_range_from f i l = Ok (g <$> l).
Proof.
  revert i; induction l as [|a l IH]; intros i H; simpl; [done|].
  rewrite (H i a) by set_solver. simpl. rewrite IH by set_solver. done.
Qed.

(** ** Machine integers

    A Go integer of width [w] is a [Z]; conversions wrap around explicitly. *)

Definition wrapu (w z : Z) : Z := z mod 2 ^ w.
Definition wraps (w z : Z) : Z := (z + 2 ^ (w - 1)) mod 2 ^ w - 2 ^ (w - 1).

Arguments wrapu : simpl never.
Arguments wraps : simpl never.

Abbreviation u8 := (wrapu 8).
Abbreviation u16 := (wrapu 16).
Abbreviation u32 := (wrapu 32).
Abbreviation u64 := (wrapu 64).
Abbreviation i64 := (wraps 64).

Definition in_u (w z : Z) : Prop := 0 <= z < 2 ^ w.
Definition in_s (w z : Z) : Prop := - 2 ^ (w - 1) <= z < 2 ^ (w - 1).

Lemma wrapu_in w z : 0 <= w -> in_u w (wrapu w z).
Proof. intros. apply Z.mod_pos_bound. lia. Qed.

Lemma wraps_in w z : 0 < w -> in_s w (wraps w z).
Proof.
  intros. unfold in_s, wraps.
  pose proof (Z.mod_pos_bound (z + 2 ^ (w - 1)) (2 ^ w)).
  replace (2 ^ w) with (2 * 2 ^ (w - 1)) in *
    by (rewrite <- Z.pow_succ_r by lia; f_equal; lia).
  lia.
Qed.

Lemma wrapu_id w z : in_u w z -> wrapu w z = z.
Proof. apply Z.mod_small. Qed.

Lemma wraps_wrapu w z : 0 < w -> in_s w z -> wraps w (wrapu w z) = z.
Proof.
  unfold in_s, wraps, wrapu. intros Hw H.
  rewrite Zplus_mod_idemp_l, Z.mod_small; [lia|].
  replace (2 ^ w) with (2 * 2 ^ (w - 1)); [lia|].
  rewrite <- Z.pow_succ_r by lia. f_equal; lia.
Qed.

Lemma wrapu_wraps w z : in_u w z -> wrapu w (wraps w z) = z.
Proof.
  unfold in_u, wraps, wrapu. intros H.
  rewrite Zminus_mod_idemp_l, Z.add_simpl_r. by apply Z.mod_small.
Qed.

Lemma wrapu_add_l w a b : wrapu w (wrapu w a + b) = wrapu w (a + b).
Proof. apply Zplus_mod_idemp_l. Qed.

Lemma wrapu_add_r w a b : wrapu w (a + wrapu w b) = wrapu w (a + b).
Proof. apply Zplus_mod_idemp_r. Qed.

Lemma wraps_add_l w a b : wraps w (wraps w a + b) = wraps w (a + b).
Proof.
  unfold wraps. f_equal.
  replace ((a + 2 ^ (w - 1)) mod 2 ^ w - 2 ^ (w - 1) + b + 2 ^ (w - 1))
    with ((a + 2 ^ (w - 1)) mod 2 ^ w + b) by lia.
  rewrite Zplus_mod_idemp_l. f_equal. lia.
Qed.

Lemma wraps_idemp w a : wraps w (wraps w a) = wraps w a.
Proof. pose proof (wraps_add_l w a 0) as H. by rewrite !Z.add_0_r in H. Qed.

#[export] Hint Resolve wrapu_in wraps_in wrapu_id : trail_arith.
#[export] Hint Rewrite wrapu_add_l wrapu_add_r wraps_add_l : trail_wrap.

(** ** Absence of panics *)

Definition safe {A} (r : result A) : Prop := match r with Panic _ => False | _ => True end.

Lemma safe_bind {A B} (r : result A) (f : A -> result B) :
  safe r -> (forall a, safe (f a)) -> safe (r ≫= f).
Proof. destruct r; simpl; auto. Qed.

Lemma safe_go_range_from {A B} (f : nat -> A -> result B) i l :
  (forall i a, safe (f i a)) -> safe (go_range_from f i l).
Proof.
  intros Hf. revert i; induction l as [|a l IH]; intros i; [done|]. cbn [go_range_from].
  apply safe_bind; [apply Hf|]. intros b. by apply safe_bind.
Qed.

(** [safe_auto] follows binds and conditionals down to values and errors. *)
Ltac safe_auto :=
  repeat first
    [ exact I
    | assumption
    | apply safe_bind; [|intros]
    | match goal with |- safe (if ?b then _ else _) => destruct b end
    | match goal with |- safe (match ?x with _ => _ end) => destruct x end ].

(** ** Effects

    A computation over a world [W]: it may change the world and it returns, fails
    or panics.  A failure keeps the changes made before it. *)

Definition M (W A : Type) : Type := W -> W * result A.

#[global] Instance M_ret {W} : MRet (M W) := fun A a w => (w, Ok a).
#[global] Instance M_bind {W} : MBind (M W) := fun A B f m w =>
  match m w with
  | (w', Ok a) => f a w'
  | (w', Fail e) => (w', Fail e)
  | (w', Panic msg) => (w', Panic msg)
  end.

Definition fail {W A} (e : error) : M W A := fun w => (w, Fail e).
(** A pure outcome as a computation. *)
Definition lift {W A} (r : result A) : M W A := fun w => (w, r).
(** A computation that only looks at the world. *)
Definition reads {W A} (f : W -> result A) : M W A := fun w => (w, f w).

Lemma M_bind_Ok {W A B} (f : A -> M W B) (m : M W A) w w2 b :
  (m ≫= f) w = (w2, Ok b) -> exists w1 a, m w = (w1, Ok a) /\ f a w1 = (w2, Ok b).
Proof. unfold mbind, M_bind. destruct (m w) as [w1 [a|e|msg]]; [eauto|done|done]. Qed.

Lemma M_bind_run {W A B} (f : A -> M W B) (m : M W A) w w1 a :
  m w = (w1, Ok a) -> (m ≫= f) w = f a w1.
Proof. unfold mbind, M_bind. by intros ->. Qed.

(** [mret_inv H]: [H] says that a [mret] or [lift] ended somewhere. *)
Ltac mret_inv H := cbn in H; unfold mret, M_ret, lift in H; cbn in H; simplify_eq.

(** Triples: started where [P] holds, [m] ends with [Q] of its outcome and world. *)
Definition mspec {W A} (P : W -> Prop) (m : M W A) (Q : result A -> W -> Prop) : Prop :=
  forall w, P w -> Q (m w).2 (m w).1.

Lemma mspec_bind {W A B} P (m : M W A) (f : A -> M W B) R (Q : result B -> W -> Prop) :
  mspec P m (fun r w => match r with Ok a => R a w | Fail e => Q (Fail e) w | Panic s => Q (Panic s) w end) ->
  (forall a, mspec (R a) (f a) Q) -> mspec P (m ≫= f) Q.
Proof.
  intros Hm Hf w Hw. specialize (Hm w Hw). unfold mbind, M_bind.
  destruct (m w) as [w1 [a|e|s]]; [by apply Hf|done|done].
Qed.

Lemma mspec_ret {W A} (P : W -> Prop) (a : A) Q : (forall w, P w -> Q (Ok a) w) -> mspec P (mret a) Q.
Proof. done. Qed.
Lemma mspec_fail {W A} (P : W -> Prop) e (Q : result A -> W -> Prop) :
  (forall w, P w -> Q (Fail e) w) -> mspec P (fail e) Q.
Proof. done. Qed.
Lemma mspec_lift {W A} (P : W -> Prop) (r : result A) Q : (forall w, P w -> Q r w) -> mspec P (lift r) Q.
Proof. done. Qed.
Lemma mspec_post {W A} P (m : M W A) (Q Q' : result A -> W -> Prop) :
  mspec P m Q' -> (forall r w, Q' r w -> Q r w) -> mspec P m Q.
Proof. intros Hm HQ w Hw. auto. Qed.
Lemma mspec_pre {W A} (P P' : W -> Prop) (m : M W A) Q : mspec P' m Q -> (forall w, P w -> P' w) -> mspec P m Q.
Proof. intros Hm HP w Hw. auto. Qed.

(** [for _, x := range l { body }] threading an accumulator. *)
Fixpoint foldM {W A B} (body : A -> B -> M W A) (l : list B) (a : A) : M W A :=
  match l with
  | [] => mret a
  | b :: l => a' ← body a b; foldM body l a'
  end.

(** ** Bytes, strings and arrays

    A Go byte is an [ascii] (eight bits), a Go string is a [string] of bytes, a
    [[]byte] is a [bytes] and a [[n]byte] an [array n]. *)

Abbreviation byte := ascii.
Abbreviation bytes := (list ascii).

Definition byte_Z (b : byte) : Z := Z.of_N (N_of_ascii b).
Definition Z_byte (z : Z) : byte := ascii_of_N (Z.to_N (u8 z)).

Lemma byte_Z_range b : in_u 8 (byte_Z b).
Proof.
  unfold byte_Z, in_u. pose proof (N_ascii_bounded b).
  change (2 ^ 8) with (Z.of_N 256). lia.
Qed.

Lemma Z_byte_Z b : Z_byte (byte_Z b) = b.
Proof.
  unfold Z_byte. rewrite wrapu_id by apply byte_Z_range.
  unfold byte_Z. rewrite N2Z.id. apply ascii_N_embedding.
Qed.

Lemma byte_Z_byte z : byte_Z (Z_byte z) = u8 z.
Proof.
  unfold byte_Z, Z_byte.
  pose proof (wrapu_in 8 z ltac:(lia)) as [H1 H2]. change (2 ^ 8) with 256 in H2.
  rewrite N_ascii_embedding by lia. by rewrite Z2N.id.
Qed.

Lemma byte_Z_inj a b : byte_Z a = byte_Z b -> a = b.
Proof. intros H. by rewrite <- (Z_byte_Z a), H, Z_byte_Z. Qed.

(** A property of bytes checked on all 256 of them. *)
Lemma byte_forall (P : byte -> bool) :
  forallb P (ascii_of_nat <$> seq 0 256) = true -> forall b, P b = true.
Proof.
  intros H b. rewrite forallb_forall in H. apply H.
  rewrite <- list_elem_of_In, <- (ascii_nat_embedding b). apply list_elem_of_fmap_2.
  apply elem_of_seq. pose proof (nat_ascii_bounded b). lia.
Qed.

Abbreviation string_bytes := String.list_ascii_of_string.
Abbreviation bytes_string := String.string_of_list_ascii.

(** [len(s)] of a string. *)
Definition slen (s : string) : nat := String.length s.

Lemma length_string_bytes s : length (string_bytes s) = slen s.
Proof. induction s as [|? ? IH]; cbn; [done|]. by rewrite IH. Qed.

Lemma string_bytes_inj s t : string_bytes s = string_bytes t -> s = t.
Proof.
  intros H. rewrite <- (String.string_of_list_ascii_of_string s), H.
  apply String.string_of_list_ascii_of_string.
Qed.

Lemma string_app_cons c s t : String c s +:+ t = String c (s +:+ t).
Proof. done. Qed.

Lemma string_app_nil_l s : EmptyString +:+ s = s.
Proof. done. Qed.

Lemma string_app_assoc a b c : (a +:+ b) +:+ c = a +:+ (b +:+ c).
Proof. induction a as [|x a IH]; [by rewrite !string_app_nil_l|]. by rewrite !string_app_cons, IH. Qed.

Lemma string_app_empty s : s +:+ EmptyString = s.
Proof. induction s as [|c s IH]; [done|]. by rewrite string_app_cons, IH. Qed.

Lemma string_bytes_app s t : string_bytes (s +:+ t) = string_bytes s ++ string_bytes t.
Proof. induction s as [|c s IH]; [done|]. rewrite string_app_cons. cbn. by rewrite IH. Qed.

Lemma bytes_string_app s t : bytes_string (s ++ t) = bytes_string s +:+ bytes_string t.
Proof. induction s as [|c s IH]; [done|]. cbn. by rewrite IH. Qed.

(** A Go array [[n]byte]. *)
Record array (n : nat) := Array {
  array_bytes :> bytes;
  array_length : Nat.eqb (length array_bytes) n = true
}.
Arguments Array {n} _ _.
Arguments array_bytes {n} _.

Lemma array_eq {n} (a b : array n) : array_bytes a = array_bytes b -> a = b.
Proof.
  destruct a as [l Hl], b as [l' Hl']; simpl. intros ->.
  f_equal. apply UIP_dec, Bool.bool_dec.
Qed.

Lemma length_array {n} (a : array n) : length a = n.
Proof. apply Nat.eqb_eq, array_length. Qed.

#[global] Instance array_eq_dec n : EqDecision (array n).
Proof.
  intros a b. destruct (decide (array_bytes a = array_bytes b)) as [H|H].
  - left. by apply array_eq.
  - right. by intros ->.
Defined.

(** The array with the bytes of [l], when [l] has [n] of them. *)
Definition to_array (n : nat) (l : bytes) : option (array n) :=
  match Bool.bool_dec (Nat.eqb (length l) n) true with
  | left H => Some (Array l H)
  | right _ => None
  end.

Lemma to_array_Some n l a : to_array n l = Some a -> array_bytes a = l.
Proof. unfold to_array. case_match; naive_solver. Qed.

Lemma to_array_length n l : length l = n -> exists a, to_array n l = Some a.
Proof.
  intros H%Nat.eqb_eq. unfold to_array. case_match; [by eauto|congruence].
Qed.

Lemma to_array_self {n} (a : array n) : to_array n a = Some a.
Proof.
  destruct (to_array_length n a (length_array a)) as [b Hb].
  rewrite Hb. f_equal. apply array_eq. by eapply to_array_Some.
Qed.

#[global] Instance array_countable n : Countable (array n).
Proof.
  apply (inj_countable array_bytes (to_array n)). apply to_array_self.
Defined.

Definition zero_byte : byte := "000"%char.

Lemma replicate_length_eqb n : Nat.eqb (length (replicate n zero_byte)) n = true.
Proof. apply Nat.eqb_eq, length_replicate. Qed.

(** The zero value of [[n]byte]. *)
Definition zero_array (n : nat) : array n := Array (replicate n zero_byte) (replicate_length_eqb n).

(** ** Lists *)

(** Number of elements of [l] that satisfy [f]. *)
Fixpoint countb {A} (f : A -> bool) (l : list A) : nat :=
  match l with
  | [] => 0
  | a :: l' => (if f a then 1 else 0) + countb f l'
  end.

Lemma countb_app {A} (f : A -> bool) l l' : countb f (l ++ l') = (countb f l + countb f l')%nat.
Proof. induction l; simpl; lia. Qed.

(** Updating one element changes the count by the difference at that index. *)
Lemma countb_insert {A} (f : A -> bool) l i a b :
  l !! i = Some a ->
  (countb f (<[i := b]> l) + (if f a then 1 else 0) =
   countb f l + (if f b then 1 else 0))%nat.
Proof.
  revert i; induction l as [|c l IH]; intros [|i] H; simplify_eq/=; [lia|].
  specialize (IH _ H). lia.
Qed.

Lemma countb_zero {A} (f : A -> bool) l : countb f l = 0%nat <-> Forall (fun a => f a = false) l.
Proof.
  induction l as [|a l IH]; simpl; [naive_solver|].
  rewrite Forall_cons. destruct (f a); naive_solver lia.
Qed.

Lemma countb_lookup_false {A} (f : A -> bool) l i a :
  countb f l = 0%nat -> l !! i = Some a -> f a = false.
Proof. intros H%countb_zero Hi. by eapply Forall_lookup in H. Qed.

Lemma countb_pos {A} (f : A -> bool) l : (0 < countb f l)%nat -> exists i a, l !! i = Some a /\ f a = true.
Proof.
  induction l as [|a l IH]; simpl; [lia|]. destruct (f a) eqn:E.
  - intros _. exists 0%nat, a. done.
  - intros H. destruct (IH H) as (i & b & ? & ?). by exists (S i), b.
Qed.

(** [sumZ f l]: the sum of [f] over [l]. *)
Definition sumZ {A} (f : A -> Z) (l : list A) : Z := fold_right (fun a s => f a + s) 0 l.

Lemma sumZ_app {A} (f : A -> Z) l l' : sumZ f (l ++ l') = sumZ f l + sumZ f l'.
Proof. induction l; simpl; lia. Qed.

Lemma sumZ_perm {A} (f : A -> Z) l l' : l ≡ₚ l' -> sumZ f l = sumZ f l'.
Proof. induction 1; simpl; lia. Qed.

Lemma sumZ_nonneg {A} (f : A -> Z) l : (forall a, a ∈ l -> 0 <= f a) -> 0 <= sumZ f l.
Proof.
  induction l as [|a l IH]; simpl; [lia|]. intros H.
  pose proof (H a ltac:(set_solver)). assert (0 <= sumZ f l); [|lia]. apply IH. set_solver.
Qed.

Lemma sumZ_insert {A} (f : A -> Z) l i a b :
  l !! i = Some a -> sumZ f (<[i := b]> l) = sumZ f l - f a + f b.
Proof.
  revert i; induction l as [|c l IH]; intros [|i] H; simplify_eq/=; [lia|].
  rewrite (IH _ H). lia.
Qed.

Lemma sumZ_ext {A} (f g : A -> Z) l : (forall a, a ∈ l -> f a = g a) -> sumZ f l = sumZ g l.
Proof.
  induction l as [|a l IH]; simpl; [done|]. intros H.
  rewrite (H a) by set_solver. rewrite IH; [done|]. set_solver.
Qed.

Lemma sumZ_zero {A} (f : A -> Z) l : (forall a, a ∈ l -> f a = 0) -> sumZ f l = 0.
Proof.
  induction l as [|a l IH]; simpl; [done|]. intros H.
  rewrite (H a) by set_solver. rewrite IH; [done|]. set_solver.
Qed.

Lemma sumZ_plus {A} (f g : A -> Z) l : sumZ (fun a => f a + g a) l = sumZ f l + sumZ g l.
Proof. induction l; simpl; lia. Qed.

Lemma StronglySorted_sublist {A} (R : relation A) l k :
  sublist l k -> StronglySorted R k -> StronglySorted R l.
Proof.
  intros Hs. induction Hs as [|a l k Hs IH|a l k Hs IH]; intros Hk; [done| |].
  - apply StronglySorted_inv in Hk as [Hk Ha]. constructor; [auto|].
    apply Forall_forall. intros b Hb. rewrite Forall_forall in Ha. apply Ha.
    eapply elem_of_submseteq; [exact Hb|]. by apply sublist_submseteq.
  - apply StronglySorted_inv in Hk as [Hk _]. auto.
Qed.

(** ** Transition sequences *)

Section Invariants.
Context {S : Type} (step : S -> S -> Prop) (init : S -> Prop).

(** [reachable s]: some sequence of steps leads from an initial state to [s]. *)
Inductive reachable : S -> Prop :=
| reachable_init s : init s -> reachable s
| reachable_step s s' : reachable s -> step s s' -> reachable s'.

Lemma reachable_invariant (I : S -> Prop) :
  (forall s, init s -> I s) ->
  (forall s s', I s -> step s s' -> I s') ->
  forall s, reachable s -> I s.
Proof. intros Hinit Hstep s. induction 1; eauto. Qed.

Lemma reachable_steps s s' : reachable s -> rtc step s s' -> reachable s'.
Proof. intros Hr. induction 1; eauto using reachable_step. Qed.
End Invariants.
