(* ===== verification/Ids.v ===== *)
(** * Identifiers (src/id.go)

    Event, flow and execution identifiers: generation from a process-random
    prefix and a shared counter, and their 26-character Crockford Base32 text.

    The generator state is [idState]; [nextID] is one call, atomic because the
    only shared write after initialisation is the atomic counter increment.
    [math/big] values are [Z]. *)

From S2P Require Import Prelude.

(** Go's distinct named types over [[16]byte]. *)
Abbreviation id16 := (array 16).
Abbreviation EventID := id16 (only parsing).
Abbreviation FlowID := id16 (only parsing).
Abbreviation ExecutionID := id16 (only parsing).

Definition crockfordAlphabet : string := "0123456789abcdefghjkmnpqrstvwxyz".

Definition ErrInvalidID : error := sentinel "trail: invalid ID".

(** ** Generation *)

(** The package variables [idOnce], [idPrefix] and [idCounter]. *)
Record idState := IdState {
  idOnce : bool;
  idPrefix : array 10;
  idCounter : Z
}.

#[global] Instance eta_idState : Eta idState :=
  fun r => IdState (idOnce r) (idPrefix r) (idCounter r).

Definition idState0 : idState := IdState false (zero_array 10) 0.

Definition id_of_counter (prefix : array 10) (n : Z) : bytes :=
  array_bytes prefix ++
  [Z_byte (Z.shiftr n 40); Z_byte (Z.shiftr n 32); Z_byte (Z.shiftr n 24);
   Z_byte (Z.shiftr n 16); Z_byte (Z.shiftr n 8); Z_byte n].

Lemma id_of_counter_length prefix n : Nat.eqb (length (id_of_counter prefix n)) 16 = true.
Proof. apply Nat.eqb_eq. unfold id_of_counter. by rewrite length_app, length_array. Qed.

(** [nextID rnd g]: one call in generator state [g], where [rnd] is what
    [rand.Read] returns for the ten bytes of the prefix.  [sync.Once] counts
    as done also when its function panics. *)
Definition nextID (rnd : result (array 10)) (g : idState) : idState * result id16 :=
  let '(g, failed) :=
    if idOnce g then (g, None)
    else match rnd with
         | Ok p => (g <| idOnce := true |> <| idPrefix := p |>, None)
         | Fail e => (g <| idOnce := true |>,
                      Some ("trail: cannot initialize ID generator: " +:+ err_text e))
         | Panic m => (g <| idOnce := true |>, Some m)
         end in
  match failed with
  | Some m => (g, Panic m)
  | None =>
      let n := u64 (idCounter g + 1) in
      let g := g <| idCounter := n |> in
      if 2 ^ 48 <=? n then (g, Panic "trail: ID counter exhausted")
      else (g, Ok (Array (id_of_counter (idPrefix g) n) (id_of_counter_length _ _)))
  end.

Definition NewFlow := nextID.
Definition NewExecution := nextID.
Definition newEventID := nextID.

(** The identifiers a sequence of calls returns. *)
Fixpoint nextIDs (rnds : list (result (array 10))) (g : idState) : list id16 :=
  match rnds with
  | [] => []
  | rnd :: rnds =>
      match nextID rnd g with
      | (g, Ok id) => id :: nextIDs rnds g
      | (g, _) => nextIDs rnds g
      end
  end.

(** ** Text encoding *)

(** [new(big.Int).SetBytes]: big-endian. *)
Definition big_SetBytes (l : bytes) : Z := fold_left (fun x b => x * 256 + byte_Z b) l 0.

(** The last [n] big-endian bytes of [x], in front of [acc]. *)
Fixpoint be_bytes (n : nat) (x : Z) (acc : bytes) : bytes :=
  match n with
  | O => acc
  | S n => be_bytes n (x / 256) (Z_byte x :: acc)
  end.

(** [x.Bytes()]: big-endian without leading zero bytes. *)
Definition big_Bytes (x : Z) : bytes :=
  be_bytes (if x =? 0 then 0 else Z.to_nat (Z.log2 x / 8) + 1) x [].

Definition crockford_char (d : Z) : byte :=
  default zero_byte (string_bytes crockfordAlphabet !! Z.to_nat d).

(** The loop of [encodeID], filling [out] from its end. *)
Fixpoint encode_loop (n : nat) (x : Z) (out : bytes) : bytes :=
  match n with
  | O => out
  | S n => encode_loop n (Z.shiftr x 5) (crockford_char (Z.land x 31) :: out)
  end.

Definition encodeID (id : id16) : string :=
  bytes_string (encode_loop 26 (big_SetBytes id) []).

(** The loop of [crockfordValue] over the letters of the alphabet, from
    index [i] on. *)
Fixpoint crockford_find (letters : bytes) (i : Z) (c : byte) : Z * bool :=
  match letters with
  | [] => (0, false)
  | l :: letters => if bool_decide (l = c) then (i, true) else crockford_find letters (i + 1) c
  end.

Definition crockfordValue (c : byte) : Z * bool :=
  let c := if (byte_Z "A" <=? byte_Z c) && (byte_Z c <=? byte_Z "Z")
           then Z_byte (byte_Z c + (byte_Z "a" - byte_Z "A")) else c in
  if (byte_Z "0" <=? byte_Z c) && (byte_Z c <=? byte_Z "9") then (byte_Z c - byte_Z "0", true)
  else crockford_find (drop 10 (string_bytes crockfordAlphabet)) 10 c.

(** The loop of [decodeID] from index [i] on, [x] accumulating. *)
Fixpoint decode_loop (i : nat) (x : Z) (text : bytes) : result Z :=
  match text with
  | [] => Ok x
  | c :: text =>
      let '(v, ok) := crockfordValue c in
      if negb ok || (Nat.eqb i 0 && (7 <? v)) then Fail ErrInvalidID
      else decode_loop (S i) (Z.lor (Z.shiftl x 5) v) text
  end.

Definition decodeID (text : string) : result id16 :=
  if negb (Nat.eqb (slen text) 26) then Fail ErrInvalidID
  else
    x ← decode_loop 0 0 (string_bytes text);
    let b := big_Bytes x in
    (* copy(id[len(id)-len(b):], b): the slice is out of range when b is longer *)
    match to_array 16 (replicate (16 - length b) zero_byte ++ b) with
    | Some id => Ok id
    | None => Panic "slice bounds out of range"
    end.

Definition String_ (id : id16) : string := encodeID id.
Definition IsZero (id : id16) : bool := bool_decide (id = zero_array 16).

Definition ParseEventID (s : string) : result EventID := decodeID s.
Definition ParseFlowID (s : string) : result FlowID := decodeID s.
Definition ParseExecutionID (s : string) : result ExecutionID := decodeID s.

Definition MarshalText (id : id16) : bytes := string_bytes (String_ id).

(** [UnmarshalText] on a receiver holding [id]: the new receiver and the error. *)
Definition UnmarshalText (id : id16) (text : bytes) : id16 * option error :=
  match decodeID (bytes_string text) with
  | Ok v => (v, None)
  | Fail e => (id, Some e)
  | Panic m => (id, Some (errors_New m))
  end.

(** ** Lemmas: digits and bytes *)

Lemma crockfordValue_char d :
  0 <= d < 32 -> crockfordValue (crockford_char d) = (d, true).
Proof.
  intros H.
  assert (Hall : forallb (fun n => bool_decide
     (crockfordValue (crockford_char (Z.of_nat n)) = (Z.of_nat n, true))) (seq 0 32) = true)
    by (vm_compute; reflexivity).
  rewrite forallb_forall in Hall. specialize (Hall (Z.to_nat d)).
  rewrite Z2Nat.id in Hall by lia. eapply bool_decide_eq_true_1, Hall, in_seq. lia.
Qed.

(** ASCII lower case of a byte ([strings.ToLower] on the alphabet's letters). *)
Definition lower_byte (c : byte) : byte :=
  if (byte_Z "A" <=? byte_Z c) && (byte_Z c <=? byte_Z "Z") then Z_byte (byte_Z c + 32) else c.

Lemma crockfordValue_spec c v :
  crockfordValue c = (v, true) -> 0 <= v < 32 /\ crockford_char v = lower_byte c.
Proof.
  assert (Hall : forall c, (fun c => let '(v, ok) := crockfordValue c in
     negb ok || ((0 <=? v) && (v <? 32) && bool_decide (crockford_char v = lower_byte c))) c = true)
    by (apply byte_forall; vm_compute; reflexivity).
  intros H. specialize (Hall c). simpl in Hall. rewrite H in Hall. simpl in Hall.
  bool_cases. done.
Qed.

Lemma lor_shiftl w x v : 0 <= w -> 0 <= v < 2 ^ w -> Z.lor (Z.shiftl x w) v = x * 2 ^ w + v.
Proof.
  intros Hw Hv. pose proof (Z.add_lor_land (Z.shiftl x w) v) as H.
  assert (Z.land (Z.shiftl x w) v = 0) as Hl.
  { apply Z.bits_inj'. intros n Hn. rewrite Z.land_spec, Z.bits_0.
    destruct (decide (n < w)).
    - by rewrite Z.shiftl_spec_low.
    - rewrite <- (Z.mod_small v (2 ^ w)) by lia.
      rewrite Z.mod_pow2_bits_high by lia. by rewrite andb_false_r. }
  rewrite Hl in H. rewrite Z.shiftl_mul_pow2 in * by lia. lia.
Qed.

Lemma lor_shiftl_5 x v : 0 <= v < 32 -> Z.lor (Z.shiftl x 5) v = x * 32 + v.
Proof. intros Hv. by apply lor_shiftl. Qed.

Lemma land_31 x : Z.land x 31 = x mod 32.
Proof. apply (Z.land_ones x 5). lia. Qed.

Lemma shiftr_5 x : Z.shiftr x 5 = x / 32.
Proof. apply (Z.shiftr_div_pow2 x 5). lia. Qed.

Lemma pow32_S n : 32 ^ Z.of_nat (S n) = 32 * 32 ^ Z.of_nat n.
Proof. rewrite Nat2Z.inj_succ, Z.pow_succ_r; lia. Qed.

Lemma encode_loop_app n x out : encode_loop n x out = encode_loop n x [] ++ out.
Proof.
  revert x out; induction n as [|n IH]; intros x out; simpl; [done|].
  rewrite IH, (IH _ [_]). by rewrite <- app_assoc.
Qed.

Lemma encode_loop_last n x :
  encode_loop (S n) x [] = encode_loop n (x / 32) [] ++ [crockford_char (x mod 32)].
Proof. simpl. by rewrite encode_loop_app, shiftr_5, land_31. Qed.

Lemma length_encode_loop n x : length (encode_loop n x []) = n.
Proof.
  revert x; induction n as [|n IH]; intros x; [done|].
  rewrite encode_loop_last, length_app, IH. simpl. lia.
Qed.

(** The most significant digit of [n + 1] digits is the first character. *)
Lemma encode_loop_first n v r :
  0 <= v < 32 -> 0 <= r < 32 ^ Z.of_nat n ->
  encode_loop (S n) (v * 32 ^ Z.of_nat n + r) [] = crockford_char v :: encode_loop n r [].
Proof.
  intros Hv. revert r; induction n as [|n IH]; intros r Hr.
  - simpl in *. rewrite Z.mul_1_r, land_31, Z.mod_small by lia. do 2 f_equal. lia.
  - rewrite pow32_S in Hr. rewrite encode_loop_last, (encode_loop_last n r).
    replace (v * 32 ^ Z.of_nat (S n) + r) with (r + (v * 32 ^ Z.of_nat n) * 32)
      by (rewrite pow32_S; lia).
    rewrite Z.div_add, Z.mod_add by lia.
    rewrite Z.add_comm, IH; [done|]. split; [apply Z.div_pos; lia|].
    apply Z.div_lt_upper_bound; lia.
Qed.

Lemma decode_loop_app i x l l' :
  decode_loop i x (l ++ l') = (y ← decode_loop i x l; decode_loop (i + length l) y l').
Proof.
  revert i x; induction l as [|c l IH]; intros i x; simpl.
  - by rewrite Nat.add_0_r.
  - destruct (crockfordValue c) as [v ok]. destruct (_ || _); [done|].
    rewrite IH. by rewrite Nat.add_succ_r.
Qed.

(** Decoding [n] encoded digits appends their value. *)
Lemma decode_encode_loop n i y x :
  0 <= x < 32 ^ Z.of_nat n ->
  (i = 0%nat -> n <> 0%nat -> x < 8 * 32 ^ (Z.of_nat n - 1)) ->
  decode_loop i y (encode_loop n x []) = Ok (y * 32 ^ Z.of_nat n + x).
Proof.
  revert x; induction n as [|n IH]; intros x Hx Htop.
  - simpl in *. f_equal. lia.
  - rewrite pow32_S in *. rewrite encode_loop_last, decode_loop_app.
    assert (0 <= x / 32 < 32 ^ Z.of_nat n) as Hd.
    { split; [apply Z.div_pos; lia|]. apply Z.div_lt_upper_bound; lia. }
    pose proof (Z.mod_pos_bound x 32 ltac:(lia)) as Hm.
    pose proof (Z.div_mod x 32 ltac:(lia)) as Hdm.
    rewrite IH; [|done|].
    + simpl. rewrite crockfordValue_char, length_encode_loop by lia. simpl.
      replace (_ && _) with false.
      2: { symmetry. apply andb_false_iff. destruct (decide (i + n = 0)%nat) as [H0|].
           - right. assert (i = 0%nat /\ n = 0%nat) as [-> ->] by lia.
             apply Z.ltb_ge. specialize (Htop eq_refl ltac:(lia)).
             change (8 * _) with 8 in Htop. rewrite Z.mod_small; lia.
           - left. by apply Nat.eqb_neq. }
      rewrite lor_shiftl_5 by lia. f_equal. lia.
    + intros Hi Hn. specialize (Htop Hi ltac:(lia)).
      replace (Z.of_nat (S n) - 1) with (Z.succ (Z.of_nat n - 1)) in Htop by lia.
      rewrite Z.pow_succ_r in Htop by lia. apply Z.div_lt_upper_bound; lia.
Qed.

(** What a successful decoding read. *)
Lemma decode_loop_Ok i x text y :
  decode_loop i x text = Ok y ->
  exists r, y = x * 32 ^ Z.of_nat (length text) + r /\
    0 <= r < 32 ^ Z.of_nat (length text) /\
    encode_loop (length text) r [] = lower_byte <$> text /\
    (i = 0%nat -> text <> [] -> r < 8 * 32 ^ (Z.of_nat (length text) - 1)).
Proof.
  revert i x; induction text as [|c text IH]; intros i x H; cbn [decode_loop] in H.
  { simplify_eq. exists 0. simpl. split_and!; [lia|lia|lia|done|done]. }
  destruct (crockfordValue c) as [v ok] eqn:Hc. destruct ok; simpl in H; [|done].
  apply crockfordValue_spec in Hc as [Hv Hch].
  destruct (Nat.eqb i 0 && (7 <? v)) eqn:Htop; [done|].
  rewrite lor_shiftl_5 in H by done.
  apply IH in H as (r & -> & Hr & Henc & _). cbn [length].
  exists (v * 32 ^ Z.of_nat (length text) + r). rewrite pow32_S. split_and!; [lia|nia|nia| |].
  - rewrite encode_loop_first by done. rewrite fmap_cons, Hch. by f_equal.
  - intros -> _. apply andb_false_iff in Htop as [?|?%Z.ltb_ge]; [done|].
    replace (Z.of_nat (S (length text)) - 1) with (Z.of_nat (length text)) by lia. nia.
Qed.

Lemma decode_loop_no_panic i x text m : decode_loop i x text <> Panic m.
Proof.
  revert i x; induction text as [|c text IH]; intros i x; simpl; [done|].
  destruct (crockfordValue c). case_match; [done|apply IH].
Qed.

(** ** Lemmas: big-endian bytes *)

Lemma pow256_S n : 256 ^ Z.of_nat (S n) = 256 * 256 ^ Z.of_nat n.
Proof. rewrite Nat2Z.inj_succ, Z.pow_succ_r; lia. Qed.

Lemma be_bytes_app n x acc : be_bytes n x acc = be_bytes n x [] ++ acc.
Proof.
  revert x acc; induction n as [|n IH]; intros x acc; simpl; [done|].
  rewrite IH, (IH _ [_]). by rewrite <- app_assoc.
Qed.

Lemma be_bytes_last n x : be_bytes (S n) x [] = be_bytes n (x / 256) [] ++ [Z_byte x].
Proof. simpl. apply be_bytes_app. Qed.

Lemma length_be_bytes n x : length (be_bytes n x []) = n.
Proof.
  revert x; induction n as [|n IH]; intros x; [done|].
  rewrite be_bytes_last, length_app, IH. simpl. lia.
Qed.

Lemma big_SetBytes_snoc l b : big_SetBytes (l ++ [b]) = big_SetBytes l * 256 + byte_Z b.
Proof. unfold big_SetBytes. by rewrite fold_left_app. Qed.

Lemma big_SetBytes_bound l : 0 <= big_SetBytes l < 256 ^ Z.of_nat (length l).
Proof.
  induction l as [|b l IH] using rev_ind; [done|].
  rewrite big_SetBytes_snoc, length_app. simpl. rewrite Nat.add_1_r, pow256_S.
  pose proof (byte_Z_range b) as Hb. unfold in_u in Hb. change (2 ^ 8) with 256 in Hb. lia.
Qed.

Lemma be_bytes_SetBytes l : be_bytes (length l) (big_SetBytes l) [] = l.
Proof.
  induction l as [|b l IH] using rev_ind; [done|].
  pose proof (byte_Z_range b) as Hb. unfold in_u in Hb. change (2 ^ 8) with 256 in Hb.
  rewrite length_app. simpl. rewrite Nat.add_1_r, be_bytes_last, big_SetBytes_snoc.
  rewrite Z.div_add_l, Z.div_small, Z.add_0_r, IH by lia. do 2 f_equal.
  rewrite <- (Z_byte_Z b) at 2. unfold Z_byte, wrapu. do 2 f_equal.
  rewrite Z.add_comm, Z.mul_comm, (Z.mul_comm 256). apply Z.mod_add. lia.
Qed.

Lemma SetBytes_be_bytes n x :
  0 <= x < 256 ^ Z.of_nat n -> big_SetBytes (be_bytes n x []) = x.
Proof.
  revert x; induction n as [|n IH]; intros x Hx; [simpl in *; unfold big_SetBytes; simpl; lia|].
  rewrite pow256_S in Hx. rewrite be_bytes_last, big_SetBytes_snoc, IH, byte_Z_byte.
  - unfold wrapu. pose proof (Z.div_mod x (2 ^ 8) ltac:(lia)). change (2 ^ 8) with 256 in *. lia.
  - split; [apply Z.div_pos; lia|]. apply Z.div_lt_upper_bound; lia.
Qed.

Lemma be_bytes_pad k n x :
  0 <= x < 256 ^ Z.of_nat n -> be_bytes (k + n) x [] = replicate k zero_byte ++ be_bytes n x [].
Proof.
  revert x; induction n as [|n IH]; intros x Hx.
  - assert (x = 0) as -> by (simpl in Hx; lia). rewrite Nat.add_0_r. simpl.
    rewrite app_nil_r. induction k as [|k IH]; [done|].
    rewrite be_bytes_last, Z.div_0_l, IH by lia. change (Z_byte 0) with zero_byte.
    rewrite <- replicate_cons_app. done.
  - rewrite pow256_S in Hx. rewrite Nat.add_succ_r, !be_bytes_last, IH, app_assoc; [done|].
    split; [apply Z.div_pos; lia|]. apply Z.div_lt_upper_bound; lia.
Qed.

(** [x.Bytes()] of a value below [256 ^ n] has at most [n] bytes. *)
Lemma big_Bytes_length x n : 0 <= x < 256 ^ Z.of_nat n -> (length (big_Bytes x) <= n)%nat.
Proof.
  intros Hx. unfold big_Bytes. rewrite length_be_bytes. destruct (Z.eqb_spec x 0); [lia|].
  assert (Z.log2 x < 8 * Z.of_nat n) as Hl.
  { apply Z.log2_lt_pow2; [lia|]. rewrite Z.pow_mul_r by lia. apply Hx. }
  pose proof (Z.div_lt_upper_bound (Z.log2 x) 8 (Z.of_nat n)).
  pose proof (Z.log2_nonneg x). pose proof (Z.div_pos (Z.log2 x) 8). lia.
Qed.

Lemma big_Bytes_pad x n :
  0 <= x < 256 ^ Z.of_nat n ->
  replicate (n - length (big_Bytes x)) zero_byte ++ big_Bytes x = be_bytes n x [].
Proof.
  intros Hx. pose proof (big_Bytes_length x n Hx) as Hlen. revert Hlen.
  unfold big_Bytes. rewrite length_be_bytes. intros Hlen.
  rewrite <- be_bytes_pad; [f_equal; lia|].
  destruct (Z.eqb_spec x 0) as [->|]; [simpl; lia|]. split; [lia|].
  rewrite Nat2Z.inj_add, Z2Nat.id by (apply Z.div_pos; [apply Z.log2_nonneg|lia]).
  change 256 with (2 ^ 8). rewrite <- Z.pow_mul_r by (pose proof (Z.log2_nonneg x);
    pose proof (Z.div_pos (Z.log2 x) 8); lia).
  apply Z.log2_lt_pow2; [lia|]. pose proof (Z.mod_pos_bound (Z.log2 x) 8).
  pose proof (Z.div_mod (Z.log2 x) 8). lia.
Qed.

Lemma encodeID_value_bound (id : id16) : 0 <= big_SetBytes id < 8 * 32 ^ 25.
Proof.
  pose proof (big_SetBytes_bound id) as H. rewrite length_array in H.
  change (256 ^ Z.of_nat 16) with (8 * 32 ^ 25) in H. done.
Qed.

(** The tail of [decodeID] after the loop. *)
Lemma decode_tail x :
  0 <= x < 8 * 32 ^ 25 ->
  exists id : id16, array_bytes id = be_bytes 16 x [] /\
    to_array 16 (replicate (16 - length (big_Bytes x)) zero_byte ++ big_Bytes x) = Some id.
Proof.
  intros Hx. rewrite big_Bytes_pad by done.
  destruct (to_array_length 16 (be_bytes 16 x [])) as [id Hid]; [apply length_be_bytes|].
  exists id. split; [by eapply to_array_Some|done].
Qed.

Lemma slen_encodeID id : slen (encodeID id) = 26%nat.
Proof.
  unfold encodeID. rewrite <- length_string_bytes, String.list_ascii_of_string_of_list_ascii.
  apply length_encode_loop.
Qed.

(** ** Lemmas: generation *)

Lemma id_of_counter_be prefix n :
  id_of_counter prefix n = array_bytes prefix ++ be_bytes 6 n [].
Proof.
  unfold id_of_counter, be_bytes. rewrite !Z.shiftr_div_pow2, !Z.div_div by lia. done.
Qed.

(** The counter value stored in the last six bytes of an identifier. *)
Definition id_counter (id : id16) : Z := big_SetBytes (drop 10 id).

Lemma id_counter_of prefix n H :
  0 <= n < 2 ^ 48 -> id_counter (Array (id_of_counter prefix n) H) = n.
Proof.
  intros Hn. unfold id_counter. simpl. rewrite id_of_counter_be, drop_app_length'.
  - by apply SetBytes_be_bytes.
  - symmetry; apply length_array.
Qed.

(** One call advances the counter and stores the new value in the identifier. *)
Lemma nextID_Ok rnd g g' id :
  nextID rnd g = (g', Ok id) -> 0 <= idCounter g ->
  idCounter g + 1 < 2 ^ 64 -> idCounter g' = idCounter g + 1 /\ id_counter id = idCounter g + 1.
Proof.
  unfold nextID. intros H H0 H1.
  assert (forall p, (2 ^ 48 <=? u64 (idCounter g + 1)) = false ->
    forall Hl, u64 (idCounter g + 1) = idCounter g + 1 /\
      id_counter (Array (id_of_counter p (u64 (idCounter g + 1))) Hl) = idCounter g + 1) as Hgen.
  { intros p Hlt Hl. bool_cases. assert (in_u 64 (idCounter g + 1)) by (unfold in_u; lia).
    rewrite id_counter_of; rewrite wrapu_id in *; try done; lia. }
  destruct g as [once prefix n]; simpl in *.
  destruct once, rnd; simplify_eq/=;
    destruct (2 ^ 48 <=? u64 (n + 1)) eqn:Hlt; simplify_eq/=; by apply Hgen.
Qed.

Lemma nextID_counter rnd g :
  0 <= idCounter g -> idCounter g + 1 < 2 ^ 64 ->
  idCounter g <= idCounter (nextID rnd g).1 <= idCounter g + 1.
Proof.
  unfold nextID. intros H0 H1. destruct g as [once prefix n]; simpl in *.
  destruct once, rnd; simpl; try lia;
    destruct (2 ^ 48 <=? u64 (n + 1)); simpl; rewrite wrapu_id by (unfold in_u; lia); lia.
Qed.

Lemma nextIDs_counter rnds g id :
  0 <= idCounter g -> idCounter g + Z.of_nat (length rnds) < 2 ^ 64 ->
  id ∈ nextIDs rnds g -> idCounter g < id_counter id.
Proof.
  revert g; induction rnds as [|rnd rnds IH]; intros g H0 H1 Hin; simpl in *.
  { by apply not_elem_of_nil in Hin. }
  pose proof (nextID_counter rnd g H0 ltac:(lia)) as Hc.
  destruct (nextID rnd g) as [g' r] eqn:E. simpl in Hc.
  destruct r as [id'|e|m].
  - apply nextID_Ok in E as [Hg' Hid']; [|lia..].
    apply elem_of_cons in Hin as [->|Hin]; [lia|]. apply IH in Hin; lia.
  - apply IH in Hin; lia.
  - apply IH in Hin; lia.
Qed.

Lemma decode_encode id : decodeID (encodeID id) = Ok id.
Proof.
  unfold decodeID. rewrite slen_encodeID. simpl negb. cbn iota. unfold encodeID.
  rewrite String.list_ascii_of_string_of_list_ascii.
  pose proof (encodeID_value_bound id) as Hb.
  rewrite decode_encode_loop; [|split; [lia|]; etrans; [apply Hb|done]|by intros; apply Hb].
  rewrite Z.mul_0_l, Z.add_0_l. cbn [mbind result_bind].
  destruct (decode_tail (big_SetBytes id) Hb) as (id' & Hbytes & ->). f_equal.
  apply array_eq. rewrite Hbytes. pose proof (be_bytes_SetBytes id) as Hid.
  by rewrite length_array in Hid.
Qed.

(** ** Properties *)

(** An identifier survives every textual form, for all 2^128 values: the
    text has 26 characters, [ParseEventID], [ParseFlowID] and [ParseExecutionID]
    read back what [String] wrote, [UnmarshalText] what [MarshalText] wrote (over
    any previous receiver), and different identifiers have different texts. *)
Lemma identifier_text (id other : id16) :
  slen (String_ id) = 26%nat /\
  ParseEventID (String_ id) = Ok id /\ ParseFlowID (String_ id) = Ok id /\
  ParseExecutionID (String_ id) = Ok id /\
  UnmarshalText other (MarshalText id) = (id, None) /\
  (String_ id = String_ other <-> id = other).
Proof.
  unfold String_, ParseEventID, ParseFlowID, ParseExecutionID, UnmarshalText, MarshalText, String_.
  rewrite String.string_of_list_ascii_of_string, !decode_encode.
  do 5 (split; [by rewrite ?slen_encodeID|]). split; [|by intros ->].
  intros H. pose proof (decode_encode id) as H1. rewrite H, decode_encode in H1. by simplify_eq.
Qed.

(** [decodeID] never panics (the slice expression [id[len(id)-len(b):]]
    is always in range), and a text it accepts is, up to ASCII letter case, the
    canonical text of the identifier it returns. *)
Lemma decodeID_canonical (text : string) :
  (exists id, decodeID text = Ok id /\
     encodeID id = bytes_string (lower_byte <$> string_bytes text)) \/
  decodeID text = Fail ErrInvalidID.
Proof.
  unfold decodeID. destruct (Nat.eqb_spec (slen text) 26) as [Hlen|]; [|by right].
  simpl negb. cbn iota.
  assert (HF : forall i x l e, decode_loop i x l = Fail e -> e = ErrInvalidID).
  { intros i x l; revert i x; induction l as [|c l IH]; intros i x e; simpl; [done|].
    destruct (crockfordValue c). case_match; [by intros [= <-]|apply IH]. }
  destruct (decode_loop 0 0 (string_bytes text)) as [x|e|m] eqn:Hd.
  - left. apply decode_loop_Ok in Hd as (r & -> & Hr & Henc & Htop).
    rewrite length_string_bytes, Hlen in *. rewrite Z.mul_0_l, Z.add_0_l.
    cbn [mbind result_bind].
    assert (0 <= r < 8 * 32 ^ 25) as Hb.
    { split; [lia|]. apply Htop; [done|]. intros Hnil.
      rewrite <- length_string_bytes, Hnil in Hlen. done. }
    destruct (decode_tail r Hb) as (id & Hbytes & ->). exists id. split; [done|].
    unfold encodeID. rewrite Hbytes, SetBytes_be_bytes by apply Hb. by rewrite Henc.
  - right. simpl. f_equal. eauto.
  - by apply decode_loop_no_panic in Hd.
Qed.

(** C40.  The text of identifiers.  For all 2^128 values the text has 26 characters,
    [ParseEventID], [ParseFlowID] and [ParseExecutionID] read back what [String]
    wrote, [UnmarshalText] what [MarshalText] wrote (over any previous receiver), and
    different identifiers have different texts.  Conversely any text at all is either
    refused with [ErrInvalidID], without a panic, or is up to ASCII letter case the
    canonical text of the identifier it is read as. *)
Theorem decodeID_encodeID :
  (forall id other : id16,
     slen (String_ id) = 26%nat /\
     ParseEventID (String_ id) = Ok id /\ ParseFlowID (String_ id) = Ok id /\ ParseExecutionID (String_ id) = Ok id /\
     UnmarshalText other (MarshalText id) = (id, None) /\ (String_ id = String_ other <-> id = other)) /\
  (forall text,
     (exists id, decodeID text = Ok id /\ encodeID id = bytes_string (lower_byte <$> string_bytes text)) \/
     decodeID text = Fail ErrInvalidID).
Proof. split; [apply identifier_text|apply decodeID_canonical]. Qed.

(** Identifiers handed out by any sequence of [NewFlow], [NewExecution]
    and [newEventID] calls of one process are pairwise different and none is the
    zero identifier, which the wire format reads as absent; this holds until the
    counter has been incremented [2^64] times, whatever [rand.Read] returned. *)
Lemma nextIDs_unique (rnds : list (result (array 10))) (g : idState) :
  0 <= idCounter g -> idCounter g + Z.of_nat (length rnds) < 2 ^ 64 ->
  NoDup (nextIDs rnds g) /\ Forall (fun id => IsZero id = false) (nextIDs rnds g).
Proof.
  intros H0 H1. split.
  - revert g H0 H1; induction rnds as [|rnd rnds IH]; intros g H0 H1; simpl in *; [constructor|].
    pose proof (nextID_counter rnd g H0 ltac:(lia)) as Hc.
    destruct (nextID rnd g) as [g' r] eqn:E. simpl in Hc. destruct r as [id|e|m];
      [|apply IH; lia..].
    apply nextID_Ok in E as [Hg' Hid]; [|lia..]. constructor; [|apply IH; lia].
    intros Hin%nextIDs_counter; lia.
  - apply Forall_forall. intros id Hin%nextIDs_counter; [|done..].
    apply bool_decide_eq_false. intros ->. change (id_counter (zero_array 16)) with 0 in Hin. lia.
Qed.

Example nextIDs_unique_witness :
  nextIDs (replicate 3 (Ok (zero_array 10))) idState0 !! 2%nat <> None /\
  NoDup (nextIDs (replicate 3 (Ok (zero_array 10))) idState0).
Proof.
  split; [vm_compute; discriminate|]. apply (nextIDs_unique _ idState0); simpl; lia.
Defined.

Example encodeID_example :
  encodeID (zero_array 16) = "00000000000000000000000000" /\
  UnmarshalText (zero_array 16) (string_bytes "8zzzzzzzzzzzzzzzzzzzzzzzzz") =
    (zero_array 16, Some ErrInvalidID) /\
  is_ok (ParseFlowID "7ZZZZZZZZZZZZZZZZZZZZZZZZZ") = true.
Proof. vm_compute. done. Qed.
