(* ===== verification/Events.v ===== *)
(** * Core event model (src/event.go, field.go, level.go, scope.go,
      execution.go, config.go, stats.go, src/convention/convention.go)

    The records handed to a sink, the typed fields and options that build
    them, the writer configuration and the process counters.

    [uint8] enumerations that Go leaves open ([Level], [FieldKind],
    [FullPolicy]) are integers with the source's constants.  A [float64] is its
    IEEE-754 bit pattern: [math.Float64bits] and [math.Float64frombits] are the
    identity on it.  A [time.Duration] is a signed 64-bit count of nanoseconds. *)

From S2P Require Import Prelude Ids.

(** ** Levels, sources, scopes *)

Definition Level := Z.
Definition LevelDebug : Level := 0.
Definition LevelInfo : Level := 1.
Definition LevelWarn : Level := 2.
Definition LevelError : Level := 3.

Definition Level_String (l : Level) : string :=
  if l =? LevelDebug then "debug"
  else if l =? LevelInfo then "info"
  else if l =? LevelWarn then "warn"
  else if l =? LevelError then "error"
  else "unknown".

Abbreviation ExecutionSource := string (only parsing).
Definition SourceCron : ExecutionSource := "cron".
Definition SourceManual : ExecutionSource := "manual".
Definition SourceQueue : ExecutionSource := "queue".
Definition SourceAPI : ExecutionSource := "api".
Definition SourceRetry : ExecutionSource := "retry".
Definition SourceWebhook : ExecutionSource := "webhook".
Definition SourceMigration : ExecutionSource := "migration".

Record Scope := mkScope { sc_Type : string; sc_ID : string }.

#[global] Instance Scope_eq_dec : EqDecision Scope.
Proof. solve_decision. Defined.

Definition str_eqb (a b : string) : bool := bool_decide (a = b).
Definition Scope_IsZero (s : Scope) : bool := str_eqb (sc_Type s) "" && str_eqb (sc_ID s) "".

(** ** Fields *)

Definition FieldKind := Z.
Definition FieldString : FieldKind := 1.
Definition FieldInt : FieldKind := 2.
Definition FieldInt64 : FieldKind := 3.
Definition FieldBool : FieldKind := 4.
Definition FieldFloat64 : FieldKind := 5.
Definition FieldDuration : FieldKind := 6.
Definition FieldError : FieldKind := 7.

Record Field := mkField { f_key : string; f_kind : FieldKind; f_text : string; f_num : Z }.

#[global] Instance Field_eq_dec : EqDecision Field.
Proof. solve_decision. Defined.

Definition Key (f : Field) : string := f_key f.
Definition Kind (f : Field) : FieldKind := f_kind f.
Definition Text (f : Field) : string := f_text f.
Definition Int64_ (f : Field) : Z := i64 (f_num f).
Definition Bool_ (f : Field) : bool := negb (f_num f =? 0).
Definition Float64_ (f : Field) : Z := f_num f.
Definition Duration_ (f : Field) : Z := i64 (f_num f).

(** ** Options *)

Definition optionKind := Z.
Definition optionField : optionKind := 1.
Definition optionFlow : optionKind := 2.
Definition optionExecution : optionKind := 3.
Definition optionScope : optionKind := 4.
Definition optionEntity : optionKind := 5.
Definition optionParent : optionKind := 6.
Definition optionLevel : optionKind := 7.
Definition optionParentExecution : optionKind := 8.
Definition optionRetryOfExecution : optionKind := 9.
Definition optionExecutionAttempt : optionKind := 10.
Definition optionExecutionSource : optionKind := 11.

Record Option := mkOption {
  o_kind : optionKind;
  o_field : Field;
  o_id : id16;
  o_entityType : string;
  o_entityID : string;
  o_level : Level;
  o_attempt : Z;
  o_source : ExecutionSource
}.

#[global] Instance eta_Option : Eta Option :=
  fun r => mkOption (o_kind r) (o_field r) (o_id r) (o_entityType r) (o_entityID r) (o_level r)
  (o_attempt r) (o_source r).

Definition Field0 : Field := mkField "" 0 "" 0.
(** The zero [Option]; the options below set some of its fields. *)
Definition Option0 : Option := mkOption 0 Field0 (zero_array 16) "" "" 0 0 "".

Definition field_option (f : Field) : Option := Option0 <| o_kind := optionField |> <| o_field := f |>.

Definition String_opt (key value : string) : Option := field_option (mkField key FieldString value 0).
Definition Int_opt (key : string) (value : Z) : Option := field_option (mkField key FieldInt "" (u64 (i64 value))).
Definition Int64_opt (key : string) (value : Z) : Option := field_option (mkField key FieldInt64 "" (u64 value)).
Definition Bool_opt (key : string) (value : bool) : Option :=
  field_option (mkField key FieldBool "" (if value then 1 else 0)).
Definition Float64_opt (key : string) (bits : Z) : Option := field_option (mkField key FieldFloat64 "" bits).
Definition Duration_opt (key : string) (value : Z) : Option := field_option (mkField key FieldDuration "" (u64 value)).
Definition Error_opt (err : option error) : Option :=
  field_option (mkField "error" FieldError (match err with Some e => err_text e | None => "<nil>" end) 0).

Definition Flow (id : FlowID) : Option := Option0 <| o_kind := optionFlow |> <| o_id := id |>.
Definition Execution (id : ExecutionID) : Option := Option0 <| o_kind := optionExecution |> <| o_id := id |>.
Definition Parent (id : EventID) : Option := Option0 <| o_kind := optionParent |> <| o_id := id |>.
Definition WithScope (scopeType scopeID : string) : Option :=
  Option0 <| o_kind := optionScope |> <| o_entityType := scopeType |> <| o_entityID := scopeID |>.
Definition Entity (entityType entityID : string) : Option :=
  Option0 <| o_kind := optionEntity |> <| o_entityType := entityType |> <| o_entityID := entityID |>.
Definition WithLevel (level : Level) : Option := Option0 <| o_kind := optionLevel |> <| o_level := level |>.
Definition ParentExecution (id : ExecutionID) : Option :=
  Option0 <| o_kind := optionParentExecution |> <| o_id := id |>.
Definition RetryOfExecution (id : ExecutionID) : Option :=
  Option0 <| o_kind := optionRetryOfExecution |> <| o_id := id |>.
Definition ExecutionAttempt (attempt : Z) : Option :=
  Option0 <| o_kind := optionExecutionAttempt |> <| o_attempt := attempt |>.
Definition WithExecutionSource (source : ExecutionSource) : Option :=
  Option0 <| o_kind := optionExecutionSource |> <| o_source := source |>.

(** ** Conventions (src/convention/convention.go) *)

Definition FieldFlowStatus : string := "trail.flow.status".
Definition FieldExecutionStatus : string := "trail.execution.status".
Definition FieldExecutionKind : string := "trail.execution.kind".
Definition FieldRetentionClass : string := "trail.retention.class".

Definition StatusRunning : string := "running".
Definition StatusSucceeded : string := "succeeded".
Definition StatusFailed : string := "failed".
Definition StatusCancelled : string := "cancelled".

Definition FlowStatus (status : string) : Option := String_opt FieldFlowStatus status.
Definition ExecutionStatus (status : string) : Option := String_opt FieldExecutionStatus status.
Definition ExecutionKind (kind : string) : Option := String_opt FieldExecutionKind kind.
Definition RetentionClass (class : string) : Option := String_opt FieldRetentionClass class.

Definition IsCanonicalStatus (status : string) : bool :=
  str_eqb status StatusRunning || str_eqb status StatusSucceeded ||
  str_eqb status StatusFailed || str_eqb status StatusCancelled.

(** ** Events and batches *)

Record Event := mkEvent {
  ev_ID : EventID;
  ev_Timestamp : Z;
  ev_Kind : string;
  ev_Level : Level;
  ev_FlowID : FlowID;
  ev_ExecutionID : ExecutionID;
  ev_ParentExecutionID : ExecutionID;
  ev_RetryOfExecutionID : ExecutionID;
  ev_ExecutionAttempt : Z;
  ev_ExecutionSource : ExecutionSource;
  ev_ScopeType : string;
  ev_ScopeID : string;
  ev_EntityType : string;
  ev_EntityID : string;
  ev_ParentID : EventID;
  ev_Fields : list Field
}.

#[global] Instance eta_Event : Eta Event :=
  fun r => mkEvent (ev_ID r) (ev_Timestamp r) (ev_Kind r) (ev_Level r) (ev_FlowID r)
  (ev_ExecutionID r) (ev_ParentExecutionID r) (ev_RetryOfExecutionID r) (ev_ExecutionAttempt r)
  (ev_ExecutionSource r) (ev_ScopeType r) (ev_ScopeID r) (ev_EntityType r) (ev_EntityID r)
  (ev_ParentID r) (ev_Fields r).

#[global] Instance Event_eq_dec : EqDecision Event.
Proof. solve_decision. Defined.

Record Metadata := mkMetadata { md_Service : string; md_Environment : string; md_Version : string }.

#[global] Instance Metadata_eq_dec : EqDecision Metadata.
Proof. solve_decision. Defined.

Record Batch := mkBatch { b_Metadata : Metadata; b_Events : list Event }.

(** The event [Log] starts from, before its options. *)
Definition new_event (id : EventID) (now : Z) (kind : string) : Event :=
  mkEvent id now kind LevelInfo (zero_array 16) (zero_array 16) (zero_array 16) (zero_array 16)
    0 "" "" "" "" "" (zero_array 16) [].

(** One iteration of the option loop of [Log] (the [switch option.kind]). *)
Definition apply_option (event : Event) (option : Option) : Event :=
  let kind := o_kind option in
  if kind =? optionField then event <| ev_Fields := ev_Fields event ++ [o_field option] |>
  else if kind =? optionFlow then event <| ev_FlowID := o_id option |>
  else if kind =? optionExecution then event <| ev_ExecutionID := o_id option |>
  else if kind =? optionScope then
    event <| ev_ScopeType := o_entityType option |> <| ev_ScopeID := o_entityID option |>
  else if kind =? optionEntity then
    event <| ev_EntityType := o_entityType option |> <| ev_EntityID := o_entityID option |>
  else if kind =? optionParent then event <| ev_ParentID := o_id option |>
  else if kind =? optionLevel then event <| ev_Level := o_level option |>
  else if kind =? optionParentExecution then event <| ev_ParentExecutionID := o_id option |>
  else if kind =? optionRetryOfExecution then event <| ev_RetryOfExecutionID := o_id option |>
  else if kind =? optionExecutionAttempt then event <| ev_ExecutionAttempt := o_attempt option |>
  else if kind =? optionExecutionSource then event <| ev_ExecutionSource := o_source option |>
  else event.

(** The event [Log(kind, options...)] builds. *)
Definition build_event (id : EventID) (now : Z) (kind : string) (options : list Option) : Event :=
  fold_left apply_option options (new_event id now kind).

(** ** Configuration *)

Definition defaultBufferCapacity : Z := 4096.
Definition defaultBatchSize : Z := 64.
Definition defaultFlushInterval : Z := 100 * 1000000.

Definition ErrAlreadyInitialized : error := sentinel "trail: already initialized".
Definition ErrInvalidConfig : error := sentinel "trail: invalid config".

Definition FullPolicy := Z.
Definition Drop : FullPolicy := 0.
Definition Block : FullPolicy := 1.

(** [cfg_Sink] records only whether the interface value is nil: the sink is
    reached through the calls the writer makes on it. *)
Record Config := mkConfig {
  cfg_Service : string;
  cfg_Environment : string;
  cfg_Version : string;
  cfg_Sink : bool;
  cfg_BufferCapacity : Z;
  cfg_BatchSize : Z;
  cfg_FlushInterval : Z;
  cfg_FullPolicy : FullPolicy
}.

#[global] Instance eta_Config : Eta Config :=
  fun r => mkConfig (cfg_Service r) (cfg_Environment r) (cfg_Version r) (cfg_Sink r)
  (cfg_BufferCapacity r) (cfg_BatchSize r) (cfg_FlushInterval r) (cfg_FullPolicy r).

Definition normalizeConfig (cfg : Config) : result Config :=
  if str_eqb (cfg_Service cfg) "" then Fail (errorf_w ErrInvalidConfig ": Service is required")
  else if negb (cfg_Sink cfg) then Fail (errorf_w ErrInvalidConfig ": Sink is required")
  else if (cfg_BufferCapacity cfg <? 0) || (cfg_BatchSize cfg <? 0) || (cfg_FlushInterval cfg <? 0)
  then Fail (errorf_w ErrInvalidConfig ": writer sizes and interval cannot be negative")
  else if negb (cfg_FullPolicy cfg =? Drop) && negb (cfg_FullPolicy cfg =? Block)
  then Fail (errorf_w ErrInvalidConfig ": unknown full-buffer policy")
  else
    let cfg := if cfg_BufferCapacity cfg =? 0
               then cfg <| cfg_BufferCapacity := defaultBufferCapacity |> else cfg in
    let cfg := if cfg_BatchSize cfg =? 0
               then cfg <| cfg_BatchSize := defaultBatchSize |> else cfg in
    let cfg := if cfg_FlushInterval cfg =? 0
               then cfg <| cfg_FlushInterval := defaultFlushInterval |> else cfg in
    Ok cfg.

(** ** Counters *)

(** The process counters of [stats.go], each an [atomic.Uint64]. *)
Record counters := mkCounters {
  c_written : Z;
  c_dropped : Z;
  c_buffered : Z;
  c_publishErrors : Z
}.

#[global] Instance eta_counters : Eta counters :=
  fun r => mkCounters (c_written r) (c_dropped r) (c_buffered r) (c_publishErrors r).

Definition counters0 : counters := mkCounters 0 0 0 0.

Record Statistics := mkStatistics { Written : Z; Dropped : Z; Buffered : Z; PublishErrors : Z }.

Definition Stats (c : counters) : Statistics :=
  mkStatistics (c_written c) (c_dropped c) (c_buffered c) (c_publishErrors c).

(** ** Lemmas *)

(** The last value an option of kind [k] gives, else [d]. *)
Definition last_option {A} (k : optionKind) (get : Option -> A) (d : A) (options : list Option) : A :=
  fold_left (fun acc o => if o_kind o =? k then get o else acc) options d.

Definition field_options (options : list Option) : list Field :=
  o_field <$> filter (fun o => o_kind o = optionField) options.

Ltac option_kinds :=
  unfold apply_option, optionField, optionFlow, optionExecution, optionScope, optionEntity,
    optionParent, optionLevel, optionParentExecution, optionRetryOfExecution,
    optionExecutionAttempt, optionExecutionSource in *.

Lemma str_eqb_true a b : str_eqb a b = true <-> a = b.
Proof. apply bool_decide_eq_true. Qed.

Lemma str_eqb_refl s : str_eqb s s = true.
Proof. by apply str_eqb_true. Qed.

(** Options commute with reading a component: each component of the event
    depends only on the options of its own kind. *)
Lemma fold_apply_option_get {A} (get : Event -> A) (k : optionKind) (f : Option -> A) options e :
  (forall e o, get (apply_option e o) = if o_kind o =? k then f o else get e) ->
  get (fold_left apply_option options e) = last_option k f (get e) options.
Proof.
  intros Hget. unfold last_option. revert e; induction options as [|o os IH]; intros e; simpl; [done|].
  by rewrite IH, Hget.
Qed.

Lemma fold_apply_option_fields options e :
  ev_Fields (fold_left apply_option options e) = ev_Fields e ++ field_options options.
Proof.
  unfold field_options. revert e; induction options as [|o os IH]; intros e; simpl.
  - by rewrite app_nil_r.
  - rewrite IH. destruct (decide (o_kind o = optionField)) as [Hk|Hk].
    + rewrite filter_cons_True by done. unfold apply_option. rewrite Hk. simpl.
      by rewrite <- app_assoc.
    + rewrite filter_cons_False by done. f_equal. option_kinds. destruct e.
      repeat (case_match; bool_cases; simpl; try done).
Qed.

Ltac solve_option_get :=
  let e := fresh "e" in let o := fresh "o" in
  intros e o; destruct e; option_kinds;
  repeat (case_match; bool_cases; simpl; try lia; try done).

Lemma u64_i64_kinds v : in_s 64 v -> i64 (u64 v) = v.
Proof. apply wraps_wrapu. lia. Qed.

Lemma i64_id v : in_s 64 v -> i64 v = v.
Proof.
  unfold in_s, wraps. change (64 - 1) with 63. intros H. rewrite Z.mod_small; lia.
Qed.

(** ** Properties *)

(** [Log] builds the event its options describe: the fields are the field
    options' fields in call order with duplicates kept, every correlation
    attribute is the one of the last option of its kind (its zero value when
    there is none), the level defaults to info, and identity, timestamp and kind
    are untouched by options. *)
Lemma build_event_spec (id : EventID) (now : Z) (kind : string) (options : list Option) :
  let e := build_event id now kind options in
  ev_Fields e = field_options options /\
  ev_ID e = id /\ ev_Timestamp e = now /\ ev_Kind e = kind /\
  ev_Level e = last_option optionLevel o_level LevelInfo options /\
  ev_FlowID e = last_option optionFlow o_id (zero_array 16) options /\
  ev_ExecutionID e = last_option optionExecution o_id (zero_array 16) options /\
  ev_ParentExecutionID e = last_option optionParentExecution o_id (zero_array 16) options /\
  ev_RetryOfExecutionID e = last_option optionRetryOfExecution o_id (zero_array 16) options /\
  ev_ExecutionAttempt e = last_option optionExecutionAttempt o_attempt 0 options /\
  ev_ExecutionSource e = last_option optionExecutionSource o_source EmptyString options /\
  (ev_ScopeType e, ev_ScopeID e) =
    last_option optionScope (fun o => (o_entityType o, o_entityID o)) (EmptyString, EmptyString) options /\
  (ev_EntityType e, ev_EntityID e) =
    last_option optionEntity (fun o => (o_entityType o, o_entityID o)) (EmptyString, EmptyString) options /\
  ev_ParentID e = last_option optionParent o_id (zero_array 16) options.
Proof.
  assert (Hconst : forall A (get : Event -> A), (forall e o, get (apply_option e o) = get e) ->
    forall os e, get (fold_left apply_option os e) = get e).
  { intros A get H os. induction os as [|o os IH]; intros e; simpl; [done|]. by rewrite IH, H. }
  intros e. unfold e, build_event.
  split; [apply fold_apply_option_fields|].
  do 3 (split; [by rewrite Hconst by solve_option_get|]).
  repeat split.
  - apply (fold_apply_option_get ev_Level). solve_option_get.
  - apply (fold_apply_option_get ev_FlowID). solve_option_get.
  - apply (fold_apply_option_get ev_ExecutionID). solve_option_get.
  - apply (fold_apply_option_get ev_ParentExecutionID). solve_option_get.
  - apply (fold_apply_option_get ev_RetryOfExecutionID). solve_option_get.
  - apply (fold_apply_option_get ev_ExecutionAttempt). solve_option_get.
  - apply (fold_apply_option_get ev_ExecutionSource). solve_option_get.
  - apply (fold_apply_option_get (fun e => (ev_ScopeType e, ev_ScopeID e))). solve_option_get.
  - apply (fold_apply_option_get (fun e => (ev_EntityType e, ev_EntityID e))). solve_option_get.
  - apply (fold_apply_option_get ev_ParentID). solve_option_get.
Qed.

(** A typed value survives its storage in the 64-bit payload of a field:
    the accessor of the kind reads back the value the option was given, for
    every value of the Go type (negative integers and durations included). *)
Lemma field_value_roundtrip (key : string) (v : Z) (b : bool) (bits : Z) :
  in_s 64 v -> in_u 64 bits ->
  Int64_ (o_field (Int_opt key v)) = v /\
  Int64_ (o_field (Int64_opt key v)) = v /\
  Duration_ (o_field (Duration_opt key v)) = v /\
  Bool_ (o_field (Bool_opt key b)) = b /\
  Float64_ (o_field (Float64_opt key bits)) = bits /\
  Forall (fun o => in_u 64 (f_num (o_field o)) /\ 1 <= f_kind (o_field o) <= 7 /\ f_key (o_field o) = key)
    [Int_opt key v; Int64_opt key v; Duration_opt key v; Bool_opt key b; Float64_opt key bits].
Proof.
  intros Hv Hbits. unfold Int64_, Duration_. simpl. rewrite (i64_id v) by done.
  rewrite u64_i64_kinds by done.
  assert (in_u 64 (u64 v)) by auto with trail_arith zarith.
  split_and!; try done; [by destruct b|].
  rewrite !Forall_cons, Forall_nil. simpl.
  assert (in_u 64 (if b then 1 else 0)) by (unfold in_u; destruct b; lia).
  unfold FieldInt, FieldInt64, FieldDuration, FieldBool, FieldFloat64.
  rewrite i64_id by done. unfold in_u in *. split_and!; try done; lia.
Qed.

Example field_value_roundtrip_witness :
  Duration_ (o_field (Duration_opt "elapsed" (-5))) = -5 /\ in_s 64 (-5) /\ in_u 64 7.
Proof.
  assert (in_s 64 (-5)) by (unfold in_s; lia). assert (in_u 64 7) by (unfold in_u; lia).
  split; [|done]. apply (field_value_roundtrip "elapsed" (-5) true 7); done.
Defined.

(** The configurations [normalizeConfig] returns. *)
Definition Config_valid (cfg : Config) : Prop :=
  cfg_Service cfg <> EmptyString /\ cfg_Sink cfg = true /\
  0 < cfg_BufferCapacity cfg /\ 0 < cfg_BatchSize cfg /\ 0 < cfg_FlushInterval cfg /\
  (cfg_FullPolicy cfg = Drop \/ cfg_FullPolicy cfg = Block).

Lemma normalizeConfig_valid cfg : Config_valid cfg -> normalizeConfig cfg = Ok cfg.
Proof.
  intros (Hs & Hk & Hc & Hb & Hf & Hp). unfold normalizeConfig, str_eqb.
  rewrite bool_decide_eq_false_2, Hk by done. simpl.
  replace (_ || _) with false by lia.
  replace (negb _ && _) with false by (by destruct Hp as [-> | ->]).
  destruct cfg as [svc env ver sink cap size iv pol]; simpl in *.
  replace (cap =? 0) with false by lia. simpl. replace (size =? 0) with false by lia. simpl.
  by replace (iv =? 0) with false by lia.
Qed.

Lemma normalizeConfig_accepts cfg cfg' :
  normalizeConfig cfg = Ok cfg' ->
  Config_valid cfg' /\ cfg_Service cfg' = cfg_Service cfg /\
  cfg_FullPolicy cfg' = cfg_FullPolicy cfg /\
  (cfg_BufferCapacity cfg <> 0 -> cfg_BufferCapacity cfg' = cfg_BufferCapacity cfg) /\
  (cfg_BatchSize cfg <> 0 -> cfg_BatchSize cfg' = cfg_BatchSize cfg) /\
  (cfg_FlushInterval cfg <> 0 -> cfg_FlushInterval cfg' = cfg_FlushInterval cfg).
Proof.
  intros E. unfold normalizeConfig, str_eqb in E.
  destruct cfg as [svc env ver sink cap size iv pol]; simpl in *.
  unfold Config_valid, defaultBufferCapacity, defaultBatchSize, defaultFlushInterval in *.
  destruct (bool_decide (svc = EmptyString)) eqn:?; [done|]. destruct sink; [|done].
  simpl in E. destruct (_ || _) eqn:?; [done|]. destruct (negb _ && _) eqn:Hpol; [done|].
  rewrite andb_false_iff, !negb_false_iff, !Z.eqb_eq in Hpol.
  destruct (Z.eqb_spec cap 0); simpl in E; destruct (Z.eqb_spec size 0); simpl in E;
    destruct (Z.eqb_spec iv 0); simpl in E; simplify_eq; bool_cases; simpl.
  all: split_and!; first [done | lia].
Qed.

(** A configuration accepted by [normalizeConfig] has a service, a sink, a
    positive queue capacity, batch size and flush interval and one of the two
    overflow policies, keeps every value that was set, and is a fixed point; a
    rejected one is reported as [ErrInvalidConfig]. *)
Lemma normalizeConfig_spec (cfg : Config) :
  match normalizeConfig cfg with
  | Ok cfg' =>
      Config_valid cfg' /\ cfg_Service cfg' = cfg_Service cfg /\
      cfg_FullPolicy cfg' = cfg_FullPolicy cfg /\
      (cfg_BufferCapacity cfg <> 0 -> cfg_BufferCapacity cfg' = cfg_BufferCapacity cfg) /\
      (cfg_BatchSize cfg <> 0 -> cfg_BatchSize cfg' = cfg_BatchSize cfg) /\
      (cfg_FlushInterval cfg <> 0 -> cfg_FlushInterval cfg' = cfg_FlushInterval cfg) /\
      normalizeConfig cfg' = Ok cfg'
  | Fail e => errors_Is e ErrInvalidConfig = true
  | Panic _ => False
  end.
Proof.
  destruct (normalizeConfig cfg) as [cfg'|e|m] eqn:E.
  - pose proof (normalizeConfig_accepts cfg cfg' E). destruct_and!.
    split_and!; try done. by apply normalizeConfig_valid.
  - unfold normalizeConfig in E. repeat case_match; by simplify_eq.
  - unfold normalizeConfig in E. repeat case_match; by simplify_eq.
Qed.
