(* ===== verification/GoLib.v ===== *)
(** * What the program uses of Go's standard library

    [strings], [encoding/hex], [unicode/utf8] and [time], as executable
    functions on byte strings, with the facts about them that the components
    share.  A [time.Time] in UTC is its number of nanoseconds since the Unix
    epoch; the zero time (January 1, year 1) is the constant [time_zero]. *)

From S2P Require Import Prelude.

(** ** strings *)

Definition HasPrefix (s prefix : string) : bool := String.prefix prefix s.

(** [strings.TrimPrefix]. *)
Definition TrimPrefix (s prefix : string) : string :=
  if HasPrefix s prefix then String.substring (slen prefix) (slen s - slen prefix) s else s.

(** The parts of [s] before and after the first byte [sep], if there is one. *)
Fixpoint cut_byte (sep : byte) (s : string) : option (string * string) :=
  match s with
  | EmptyString => None
  | String c s' =>
      if Ascii.eqb c sep then Some (EmptyString, s')
      else match cut_byte sep s' with
           | Some (before, after) => Some (String c before, after)
           | None => None
           end
  end.

(** [strings.SplitN(s, sep, 2)] for a one-byte separator. *)
Definition SplitN2 (s : string) (sep : byte) : list string :=
  match cut_byte sep s with Some (before, after) => [before; after] | None => [s] end.

(** [strings.Split(s, sep)] for a one-byte separator. *)
Fixpoint Split (s : string) (sep : byte) : list string :=
  match s with
  | EmptyString => [EmptyString]
  | String c s' =>
      if Ascii.eqb c sep then EmptyString :: Split s' sep
      else match Split s' sep with
           | part :: parts => String c part :: parts
           | [] => [String c EmptyString]
           end
  end.

Fixpoint string_forallb (f : byte -> bool) (s : string) : bool :=
  match s with EmptyString => true | String c s' => f c && string_forallb f s' end.

(** [strings.Contains(s, sep)] and [strings.ContainsAny] for byte sets. *)
Definition ContainsByte (s : string) (c : byte) : bool := negb (string_forallb (fun d => negb (Ascii.eqb d c)) s).

(** Lower case of the bytes 65 to 90: bit 5 is set. *)
Definition lower_ascii (c : byte) : byte :=
  let '(Ascii b0 b1 b2 b3 b4 b5 b6 b7) := c in
  if negb b7 && b6 && negb b5 && (b0 || b1 || b2 || b3 || b4) && negb (b4 && b3 && (b2 || (b1 && b0)))
  then Ascii b0 b1 b2 b3 b4 true b6 b7 else c.
Fixpoint map_string (f : byte -> byte) (s : string) : string :=
  match s with EmptyString => EmptyString | String c s' => String (f c) (map_string f s') end.

Lemma lower_ascii_spec c :
  lower_ascii c = if (65 <=? byte_Z c) && (byte_Z c <=? 90) then Z_byte (byte_Z c + 32) else c.
Proof. destruct c as [[] [] [] [] [] [] [] []]; vm_compute; reflexivity. Qed.

Lemma string_forallb_app f s t : string_forallb f (s +:+ t) = string_forallb f s && string_forallb f t.
Proof.
  induction s as [|c s IH]; [done|]. rewrite string_app_cons. simpl. by rewrite IH, andb_assoc.
Qed.

Lemma substring_drop n s t : slen s = n -> String.substring n (slen (s +:+ t) - n) (s +:+ t) = t.
Proof.
  revert n; induction s as [|c s IH]; intros n <-.
  - rewrite string_app_nil_l. unfold slen. rewrite Nat.sub_0_r. simpl.
    induction t as [|d t IHt]; [done|]. simpl. by rewrite IHt.
  - rewrite string_app_cons. simpl. by apply IH.
Qed.

Lemma HasPrefix_app s t : HasPrefix (s +:+ t) s = true.
Proof.
  unfold HasPrefix. induction s as [|c s IH]; [by rewrite string_app_nil_l; destruct t|].
  rewrite string_app_cons. simpl. by destruct (Ascii.ascii_dec c c).
Qed.

Lemma TrimPrefix_app s t : TrimPrefix (s +:+ t) s = t.
Proof. unfold TrimPrefix. rewrite HasPrefix_app. by apply substring_drop. Qed.

Lemma cut_byte_app sep s t :
  ContainsByte s sep = false -> cut_byte sep (s +:+ String sep t) = Some (s, t).
Proof.
  unfold ContainsByte. rewrite negb_false_iff. induction s as [|c s IH].
  - intros _. rewrite string_app_nil_l. simpl. by rewrite Ascii.eqb_refl.
  - rewrite string_app_cons. simpl. intros [Hc Hs]%andb_true_iff.
    apply negb_true_iff in Hc. by rewrite Hc, (IH Hs).
Qed.

(** ** encoding/hex *)

(** The value of a hexadecimal digit, either case. *)
Definition fromHexChar (c : byte) : option Z :=
  let z := byte_Z c in
  if (48 <=? z) && (z <=? 57) then Some (z - 48)
  else if (97 <=? z) && (z <=? 102) then Some (z - 87)
  else if (65 <=? z) && (z <=? 70) then Some (z - 55)
  else None.

(** [hex.DecodeString]. *)
Fixpoint hex_DecodeString (s : string) : result bytes :=
  match s with
  | EmptyString => Ok []
  | String a (String b s') =>
      match fromHexChar a, fromHexChar b with
      | Some x, Some y => rest ← hex_DecodeString s'; Ok (Z_byte (Z.lor (Z.shiftl x 4) y) :: rest)
      | _, _ => Fail (errors_New "encoding/hex: invalid byte")
      end
  | String _ EmptyString => Fail (errors_New "encoding/hex: odd length hex string")
  end.

Definition hex_digits : bytes := string_bytes "0123456789abcdef".
Definition hex_digit (d : Z) : byte := nth (Z.to_nat d) hex_digits zero_byte.

(** [hex.EncodeToString]. *)
Fixpoint hex_Encode (l : bytes) : string :=
  match l with
  | [] => EmptyString
  | b :: l' =>
      let v := byte_Z b in
      String (hex_digit (Z.shiftr v 4)) (String (hex_digit (Z.land v 15)) (hex_Encode l'))
  end.

Lemma hex_byte_roundtrip b :
  match fromHexChar (hex_digit (Z.shiftr (byte_Z b) 4)), fromHexChar (hex_digit (Z.land (byte_Z b) 15)) with
  | Some x, Some y => Z_byte (Z.lor (Z.shiftl x 4) y) = b
  | _, _ => False
  end.
Proof. revert b. intros [[] [] [] [] [] [] [] []]; vm_compute; reflexivity. Qed.

Lemma hex_decode_encode l : hex_DecodeString (hex_Encode l) = Ok l.
Proof.
  induction l as [|b l IH]; [done|]. pose proof (hex_byte_roundtrip b) as H.
  cbn [hex_Encode hex_DecodeString].
  destruct (fromHexChar (hex_digit (Z.shiftr _ _))); [|done].
  destruct (fromHexChar (hex_digit (Z.land _ _))); [|done]. rewrite IH. simpl. by rewrite H.
Qed.

(** ** time *)

Definition time_zero : Z := -62135596800 * 1000000000.
Definition time_IsZero (t : Z) : bool := t =? time_zero.
(** [t.UnixNano()]: the low 64 bits, as documented for times out of range. *)
Definition UnixNano (t : Z) : Z := i64 t.
(** [time.Unix(0, ns).UTC()]. *)
Definition time_Unix0 (ns : Z) : Z := ns.
