(* ===== verification/Json.v ===== *)
(** * encoding/json, as the program uses it

    Go values are encoded through a JSON tree.  [dec_*] follow the rules of
    [json.Unmarshal] for a destination that already holds a value: [null] leaves
    scalars and structs alone and empties a slice, an unknown member is ignored,
    member names match their tag without regard to ASCII case, a later member
    overwrites an earlier one, and a value of the wrong type or out of the
    integer's range is an error.  [omit] is the [omitempty] rule of
    [json.Marshal]. *)

From S2P Require Import Prelude GoLib.

(** [JOther] stands for number literals that are not integers. *)
Inductive json :=
| JNull
| JBool (b : bool)
| JInt (z : Z)
| JOther (literal : string)
| JString (s : string)
| JArray (items : list json)
| JObject (members : list (string * json)).

Definition type_error : error := errors_New "json: cannot unmarshal value into Go value".

(** ** Decoding *)

Definition dec_string (j : json) (old : string) : result string :=
  match j with JNull => Ok old | JString s => Ok s | _ => Fail type_error end.

Definition dec_bool (j : json) (old : bool) : result bool :=
  match j with JNull => Ok old | JBool b => Ok b | _ => Fail type_error end.

(** An integer destination accepting [lo <= z < hi]. *)
Definition dec_int (lo hi : Z) (j : json) (old : Z) : result Z :=
  match j with
  | JNull => Ok old
  | JInt z => if (lo <=? z) && (z <? hi) then Ok z else Fail type_error
  | _ => Fail type_error
  end.
Definition dec_i64 := dec_int (- 2 ^ 63) (2 ^ 63).
Definition dec_u64 := dec_int 0 (2 ^ 64).
Definition dec_u32 := dec_int 0 (2 ^ 32).

Definition dec_slice {A} (dec : json -> A -> result A) (zero : A) (j : json) (old : list A)
    : result (list A) :=
  match j with
  | JNull => Ok []
  | JArray items => go_range (fun _ item => dec item zero) items
  | _ => Fail type_error
  end.

(** [assign key value s] stores one member into the struct [s]. *)
Fixpoint dec_members {S} (assign : string -> json -> S -> result S) (members : list (string * json))
    (s : S) : result S :=
  match members with
  | [] => Ok s
  | (key, value) :: members => s' ← assign key value s; dec_members assign members s'
  end.

Definition dec_struct {S} (assign : string -> json -> S -> result S) (j : json) (old : S) : result S :=
  match j with
  | JNull => Ok old
  | JObject members => dec_members assign members old
  | _ => Fail type_error
  end.

(** A member name selects the field tagged [tag]. *)
Definition tagged (key tag : string) : bool :=
  String.eqb (map_string lower_ascii key) (map_string lower_ascii tag).

(** ** Encoding *)

Definition omit (empty : bool) (key : string) (value : json) : list (string * json) :=
  if empty then [] else [(key, value)].
Definition omit_string (key s : string) := omit (bool_decide (s = EmptyString)) key (JString s).
Definition omit_int (key : string) (z : Z) := omit (z =? 0) key (JInt z).
Definition omit_list {A} (enc : A -> json) (key : string) (l : list A) :=
  omit (match l with [] => true | _ => false end) key (JArray (enc <$> l)).

(** ** Round trips *)

Section Members.
Context {S : Type} (assign : string -> json -> S -> result S).

Lemma dec_struct_object members s : dec_struct assign (JObject members) s = dec_members assign members s.
Proof. done. Qed.

Lemma dec_members_cons key value rest s s' :
  assign key value s = Ok s' ->
  dec_members assign ((key, value) :: rest) s = dec_members assign rest s'.
Proof. simpl. by intros ->. Qed.

(** Decoding the members of one encoded field, omitted or not. *)
Lemma dec_members_omit empty key value rest s s' :
  assign key value s = Ok s' -> (empty = true -> s' = s) ->
  dec_members assign (omit empty key value ++ rest) s = dec_members assign rest s'.
Proof.
  intros Ha He. unfold omit. destruct empty; simpl; [by rewrite He|]. by rewrite Ha.
Qed.
End Members.

Lemma dec_i64_ok z old : in_s 64 z -> dec_i64 (JInt z) old = Ok z.
Proof.
  unfold in_s, dec_i64, dec_int. change (64 - 1) with 63. intros [H1 H2].
  by rewrite (proj2 (Z.leb_le _ _) H1), (proj2 (Z.ltb_lt _ _) H2).
Qed.

Lemma dec_u_ok w z old : in_u w z -> dec_int 0 (2 ^ w) (JInt z) old = Ok z.
Proof.
  unfold in_u, dec_int. intros [H1 H2].
  by rewrite (proj2 (Z.leb_le _ _) H1), (proj2 (Z.ltb_lt _ _) H2).
Qed.

Lemma dec_slice_ok {A} (dec : json -> A -> result A) (enc : A -> json) zero l old :
  Forall (fun a => dec (enc a) zero = Ok a) l -> dec_slice dec zero (JArray (enc <$> l)) old = Ok l.
Proof.
  intros H. unfold dec_slice, go_range. generalize 0%nat.
  induction H as [|a l Ha _ IH]; intros i; [done|]. csimpl. rewrite Ha. simpl. by rewrite IH.
Qed.

(** [decode_members] decodes the encoded fields of a struct one after the other;
    integers need their range among the hypotheses. *)
Ltac decode_field :=
  first
    [ reflexivity
    | cbv -[dec_int dec_i64 dec_u64 dec_u32 dec_slice Z.pow Z.opp Z.sub fmap list_fmap];
      first [ rewrite dec_i64_ok by assumption | unfold dec_u64, dec_u32; rewrite dec_u_ok by assumption
            | rewrite dec_slice_ok by assumption ];
      reflexivity ].

Ltac decode_member :=
  match goal with
  | |- dec_members _ ((_, _) :: _) _ = _ => etransitivity; [eapply dec_members_cons; decode_field|]
  | |- dec_members _ (omit_string _ _ ++ _) _ = _ =>
      unfold omit_string at 1; etransitivity;
      [eapply dec_members_omit; [decode_field|intros ?%bool_decide_eq_true; subst; reflexivity]|]
  | |- dec_members _ (omit_int _ _ ++ _) _ = _ =>
      unfold omit_int at 1; etransitivity;
      [eapply dec_members_omit; [decode_field|intros ?%Z.eqb_eq; subst; reflexivity]|]
  | |- dec_members _ (omit_list _ _ ?l ++ _) _ = _ =>
      unfold omit_list at 1; etransitivity;
      [eapply dec_members_omit; [decode_field|destruct l; [reflexivity|discriminate]]|]
  end.
