(* ===== verification/JsonText.v ===== *)
(** * The text of JSON

    What [json.Marshal] prints for a tree and what [json.Unmarshal] reads from
    bytes: compact output with HTML-safe string escapes, and a recursive descent
    over UTF-8 input.  [json_parse_print] is the round trip for trees whose
    strings are valid UTF-8 (other bytes are replaced by U+FFFD, as in Go). *)

From S2P Require Import Prelude GoLib Json.

(** ** UTF-8 *)

Definition cont (b : byte) : bool := (128 <=? byte_Z b) && (byte_Z b <? 192).
Definition between (lo hi : Z) (b : byte) : bool := (lo <=? byte_Z b) && (byte_Z b <=? hi).

(** The length of the well-formed UTF-8 sequence at the head of [l], 0 if none
    ([utf8.DecodeRune]). *)
Definition utf8_len (l : bytes) : nat :=
  match l with
  | [] => 0
  | a :: l1 =>
      if between 0 127 a then 1
      else match l1 with
      | [] => 0
      | b :: l2 =>
          if between 194 223 a && cont b then 2
          else match l2 with
          | [] => 0
          | c :: l3 =>
              if cont c &&
                 ((between 224 224 a && between 160 191 b) || (between 225 236 a && cont b) ||
                  (between 237 237 a && between 128 159 b) || (between 238 239 a && cont b)) then 3
              else match l3 with
              | [] => 0
              | d :: _ =>
                  if cont c && cont d &&
                     ((between 240 240 a && between 144 191 b) || (between 241 243 a && cont b) ||
                      (between 244 244 a && between 128 143 b)) then 4
                  else 0
              end
          end
      end
  end.

(** [utf8.Valid]. *)
Fixpoint utf8_valid_fuel (fuel : nat) (l : bytes) : bool :=
  match l, fuel with
  | [], _ => true
  | _, O => false
  | _, S fuel =>
      match utf8_len l with O => false | n => utf8_valid_fuel fuel (drop n l) end
  end.
Definition utf8_valid (l : bytes) : bool := utf8_valid_fuel (length l) l.

(** [utf8.AppendRune]: the encoding of a code point of the basic plane or above. *)
Definition utf8_encode (r : Z) : bytes :=
  if r <? 128 then [Z_byte r]
  else if r <? 2048 then [Z_byte (192 + r / 64); Z_byte (128 + r mod 64)]
  else if r <? 65536 then
    [Z_byte (224 + r / 4096); Z_byte (128 + r / 64 mod 64); Z_byte (128 + r mod 64)]
  else [Z_byte (240 + r / 262144); Z_byte (128 + r / 4096 mod 64); Z_byte (128 + r / 64 mod 64);
        Z_byte (128 + r mod 64)].

Definition replacement : bytes := utf8_encode 65533.

(** ** Printing *)

(** The escape of one ASCII byte inside a string literal. *)
Definition escape_ascii (c : byte) : bytes :=
  let z := byte_Z c in
  if (z =? 34) || (z =? 92) then ["\"; c]%char
  else if z =? 8 then ["\"; "b"]%char else if z =? 12 then ["\"; "f"]%char
  else if z =? 10 then ["\"; "n"]%char else if z =? 13 then ["\"; "r"]%char
  else if z =? 9 then ["\"; "t"]%char
  else if (z <? 32) || (z =? 60) || (z =? 62) || (z =? 38) then
    ["\"; "u"; "0"; "0"]%char ++ [hex_digit (z / 16); hex_digit (z mod 16)]
  else [c].

(** The escape of the UTF-8 sequence [rune]. *)
Definition escape_rune (rune : bytes) : bytes :=
  match rune with
  | [c] => escape_ascii c
  | _ =>
      if bool_decide (rune = utf8_encode 8232) then ["\"; "u"; "2"; "0"; "2"; "8"]%char
      else if bool_decide (rune = utf8_encode 8233) then ["\"; "u"; "2"; "0"; "2"; "9"]%char
      else rune
  end.

Fixpoint escape_fuel (fuel : nat) (l : bytes) : bytes :=
  match l, fuel with
  | [], _ | _, O => []
  | _ :: l', S fuel =>
      match utf8_len l with
      | O => ["\"; "u"; "f"; "f"; "f"; "d"]%char ++ escape_fuel fuel l'
      | n => escape_rune (take n l) ++ escape_fuel fuel (drop n l)
      end
  end.
Definition print_string (l : bytes) : bytes := ["034"]%char ++ escape_fuel (length l) l ++ ["034"]%char.

(** Decimal digits of a natural number, most significant first. *)
Fixpoint digits_fuel (fuel : nat) (n : Z) (acc : bytes) : bytes :=
  match fuel with
  | O => acc
  | S fuel =>
      let acc := Z_byte (48 + n mod 10) :: acc in
      if n <? 10 then acc else digits_fuel fuel (n / 10) acc
  end.
Definition print_nat (n : Z) : bytes := digits_fuel (S (Z.to_nat (Z.log2 n))) n [].
Definition print_int (z : Z) : bytes := if z <? 0 then "-"%char :: print_nat (- z) else print_nat z.

Fixpoint join_comma (parts : list bytes) : bytes :=
  match parts with
  | [] => []
  | [p] => p
  | p :: parts => p ++ ","%char :: join_comma parts
  end.

Fixpoint json_print (j : json) : bytes :=
  match j with
  | JNull => ["n"; "u"; "l"; "l"]%char
  | JBool true => ["t"; "r"; "u"; "e"]%char
  | JBool false => ["f"; "a"; "l"; "s"; "e"]%char
  | JInt z => print_int z
  | JOther literal => string_bytes literal
  | JString s => print_string (string_bytes s)
  | JArray items => ["["]%char ++ join_comma (json_print <$> items) ++ ["]"]%char
  | JObject members =>
      ["{"]%char ++ join_comma ((fun '(k, v) => print_string (string_bytes k) ++ ":"%char :: json_print v) <$> members)
      ++ ["}"]%char
  end.

(** ** Parsing *)

Definition is_space (c : byte) : bool := between 32 32 c || between 9 10 c || between 13 13 c.
Fixpoint skip_space (l : bytes) : bytes :=
  match l with c :: l' => if is_space c then skip_space l' else l | [] => [] end.

Definition hex4 (a b c d : byte) : option Z :=
  match fromHexChar a, fromHexChar b, fromHexChar c, fromHexChar d with
  | Some w, Some x, Some y, Some z => Some (((w * 16 + x) * 16 + y) * 16 + z)
  | _, _, _, _ => None
  end.

Definition unescape (c : byte) : option byte :=
  let z := byte_Z c in
  if (z =? 34) || (z =? 92) || (z =? 47) then Some c
  else if z =? 98 then Some "008"%char else if z =? 102 then Some "012"%char
  else if z =? 110 then Some "010"%char else if z =? 114 then Some "013"%char
  else if z =? 116 then Some "009"%char else None.

Definition surrogate_high (r : Z) : bool := (55296 <=? r) && (r <? 56320).
Definition surrogate_low (r : Z) : bool := (56320 <=? r) && (r <? 57344).

(** The low half of a surrogate pair at the head of [l], with what follows it. *)
Definition low_half (l : bytes) : option (Z * bytes) :=
  match l with
  | x :: y :: a :: b :: c :: d :: l' =>
      if (byte_Z x =? 92) && (byte_Z y =? 117) then
        match hex4 a b c d with
        | Some r => if surrogate_low r then Some (r, l') else None
        | None => None
        end
      else None
  | _ => None
  end.

(** The rest of a string literal, after its opening quote. *)
Fixpoint parse_string (fuel : nat) (l : bytes) : option (bytes * bytes) :=
  match fuel, l with
  | O, _ | _, [] => None
  | S fuel, c :: l1 =>
      let emit out rest := '(s, rest') ← parse_string fuel rest; Some (out ++ s, rest') in
      if byte_Z c =? 34 then Some ([], l1)
      else if byte_Z c =? 92 then
        match l1 with
        | [] => None
        | e :: l2 =>
            if byte_Z e =? 117 then
              match l2 with
              | a :: b :: c :: d :: l3 =>
                  match hex4 a b c d with
                  | None => None
                  | Some r =>
                      if surrogate_high r then
                        match low_half l3 with
                        | Some (r2, l4) =>
                            emit (utf8_encode ((r - 55296) * 1024 + (r2 - 56320) + 65536)) l4
                        | None => emit replacement l3
                        end
                      else if surrogate_low r then emit replacement l3
                      else emit (utf8_encode r) l3
                  end
              | _ => None
              end
            else match unescape e with Some u => emit [u] l2 | None => None end
        end
      else if byte_Z c <? 32 then None
      else match utf8_len l with
           | O => emit replacement l1
           | n => emit (take n l) (drop n l)
           end
  end.

Definition is_digit (c : byte) : bool := between 48 57 c.

Fixpoint take_while (f : byte -> bool) (l : bytes) : bytes * bytes :=
  match l with
  | c :: l' => if f c then let '(a, b) := take_while f l' in (c :: a, b) else ([], l)
  | [] => ([], [])
  end.

Definition digits_value (l : bytes) : Z := fold_left (fun n c => n * 10 + (byte_Z c - 48)) l 0.

(** A fraction or an exponent at the head of [l]. *)
Definition float_tail (l : bytes) : option (bytes * bytes) :=
  let '(frac, l1) :=
    match l with
    | c :: l' => if byte_Z c =? 46 then let '(ds, r) := take_while is_digit l' in (c :: ds, r) else ([], l)
    | [] => ([], l)
    end in
  let '(exp, l2) :=
    match l1 with
    | c :: l' =>
        if (byte_Z c =? 101) || (byte_Z c =? 69) then
          let '(sign, l'') := match l' with
            | s :: r => if (byte_Z s =? 43) || (byte_Z s =? 45) then ([s], r) else ([], l')
            | [] => ([], l')
            end in
          let '(ds, r) := take_while is_digit l'' in (c :: sign ++ ds, r)
        else ([], l1)
    | [] => ([], l1)
    end in
  if Nat.eqb (length frac) 1 || (Nat.ltb 0 (length exp) &&
       negb (match rev exp with d :: _ => is_digit d | [] => false end)) then None
  else Some (frac ++ exp, l2).

(** A number literal: digits without a leading zero, then fraction and exponent. *)
Definition parse_number (neg : bool) (l : bytes) : option (json * bytes) :=
  let '(ds, l1) := take_while is_digit l in
  match ds with
  | [] => None
  | d :: more =>
      if (byte_Z d =? 48) && negb (Nat.eqb (length more) 0) then None
      else '(tail, rest) ← float_tail l1;
           let v := digits_value ds in
           Some (match tail with
                 | [] => JInt (if neg then - v else v)
                 | _ => JOther (bytes_string ((if neg then ["-"]%char else []) ++ ds ++ tail))
                 end, rest)
  end.

Section Containers.
Context (parse_value : bytes -> option (json * bytes)).

(** The items of an array after its first bracket, at least one. *)
Fixpoint parse_items (fuel : nat) (l : bytes) : option (list json * bytes) :=
  match fuel with
  | O => None
  | S fuel =>
      '(v, l1) ← parse_value l;
      match skip_space l1 with
      | c :: l2 =>
          if byte_Z c =? 44 then '(vs, l3) ← parse_items fuel l2; Some (v :: vs, l3)
          else if byte_Z c =? 93 then Some ([v], l2) else None
      | [] => None
      end
  end.

(** The members of an object after its first brace, at least one. *)
Fixpoint parse_members (fuel : nat) (l : bytes) : option (list (string * json) * bytes) :=
  match fuel, skip_space l with
  | O, _ | _, [] => None
  | S fuel, q :: l0 =>
      if byte_Z q =? 34 then
        '(k, l1) ← parse_string (length l0) l0;
        match skip_space l1 with
        | c :: l2 =>
            if byte_Z c =? 58 then
              '(v, l3) ← parse_value l2;
              match skip_space l3 with
              | c :: l4 =>
                  if byte_Z c =? 44 then
                    '(ms, l5) ← parse_members fuel l4; Some ((bytes_string k, v) :: ms, l5)
                  else if byte_Z c =? 125 then Some ([(bytes_string k, v)], l4) else None
              | [] => None
              end
            else None
        | [] => None
        end
      else None
  end.
End Containers.

Definition parse_literal (word : bytes) (j : json) (l : bytes) : option (json * bytes) :=
  if bool_decide (take (length word) l = word) then Some (j, drop (length word) l) else None.

Fixpoint parse_value (fuel : nat) (l : bytes) : option (json * bytes) :=
  match fuel, skip_space l with
  | O, _ | _, [] => None
  | S fuel, c :: l1 =>
      let z := byte_Z c in
      if z =? 34 then '(s, rest) ← parse_string (length l1) l1; Some (JString (bytes_string s), rest)
      else if z =? 91 then
        match skip_space l1 with
        | d :: l2 =>
            if byte_Z d =? 93 then Some (JArray [], l2)
            else '(vs, rest) ← parse_items (parse_value fuel) (length l1) (d :: l2); Some (JArray vs, rest)
        | [] => None
        end
      else if z =? 123 then
        match skip_space l1 with
        | d :: l2 =>
            if byte_Z d =? 125 then Some (JObject [], l2)
            else '(ms, rest) ← parse_members (parse_value fuel) (length l1) (d :: l2); Some (JObject ms, rest)
        | [] => None
        end
      else if z =? 110 then parse_literal ["n"; "u"; "l"; "l"]%char JNull (c :: l1)
      else if z =? 116 then parse_literal ["t"; "r"; "u"; "e"]%char (JBool true) (c :: l1)
      else if z =? 102 then parse_literal ["f"; "a"; "l"; "s"; "e"]%char (JBool false) (c :: l1)
      else if z =? 45 then parse_number true l1
      else parse_number false (c :: l1)
  end.

Definition syntax_error : error := errors_New "json: invalid character".

(** One JSON value and nothing else but white space. *)
Definition json_parse (data : bytes) : result json :=
  match parse_value (S (length data)) data with
  | Some (j, rest) => match skip_space rest with [] => Ok j | _ => Fail syntax_error end
  | None => Fail syntax_error
  end.

Example json_parse_example :
  json_parse (string_bytes "{ 'a' : [1, -2, 3.5e1, null], 'b': true }") = Fail syntax_error /\
  json_parse (json_print (JObject [("k<", JArray [JInt (-120); JString "x"; JNull]); ("b", JBool true)])) =
    Ok (JObject [("k<", JArray [JInt (-120); JString "x"; JNull]); ("b", JBool true)]).
Proof. vm_compute. split; reflexivity. Qed.

(** ** Round trip: strings *)

Lemma utf8_len_take l rest :
  utf8_len l <> 0%nat ->
  utf8_len (take (utf8_len l) l ++ rest) = utf8_len l /\ (utf8_len l <= length l)%nat.
Proof.
  destruct l as [|a [|b [|c [|d l]]]]; unfold utf8_len; intros H;
    repeat (match goal with
            | H : context [if ?x then _ else _] |- _ => let E := fresh in destruct x eqn:E; try done
            end);
    simpl; repeat (match goal with E : _ = _ |- _ => rewrite E end); split; try done; lia.
Qed.

Lemma parse_chunk_ascii f c X :
  between 0 127 c = true ->
  parse_string (S f) (escape_ascii c ++ X) = '(s, r) ← parse_string f X; Some ([c] ++ s, r).
Proof.
  destruct c as [b0 b1 b2 b3 b4 b5 b6 b7]. destruct b7; [by destruct b0, b1, b2, b3, b4, b5, b6|].
  intros _. destruct b0, b1, b2, b3, b4, b5, b6; reflexivity.
Qed.

Lemma utf8_len_ascii l : utf8_len l = 1%nat -> exists c l', l = c :: l' /\ between 0 127 c = true.
Proof.
  unfold utf8_len. intros H. destruct l as [|c l]; [done|]. exists c, l. split; [done|].
  destruct (between 0 127 c); [done|]. repeat (case_match; simplify_eq; try done).
Qed.

(** A multi-byte sequence starts with a byte above 127. *)
Lemma utf8_len_multi l n : utf8_len l = S (S n) -> exists c l', l = c :: l' /\ between 0 127 c = false.
Proof.
  unfold utf8_len. intros H. destruct l as [|c l]; [done|]. exists c, l. split; [done|].
  by destruct (between 0 127 c).
Qed.

Lemma parse_chunk f l X :
  utf8_len l <> 0%nat ->
  parse_string (S f) (escape_rune (take (utf8_len l) l) ++ X) =
    '(s, r) ← parse_string f X; Some (take (utf8_len l) l ++ s, r).
Proof.
  intros H. destruct (utf8_len_take l X H) as [Htake Hlen].
  destruct (utf8_len l) as [|[|n]] eqn:En; [done| |].
  - destruct (utf8_len_ascii l En) as (c & l' & -> & Hc). simpl. by apply parse_chunk_ascii.
  - destruct (utf8_len_multi l n En) as (c & l' & -> & Hc).
    destruct l' as [|d l']; [simpl in Hlen; lia|]. cbn [take] in *.
    unfold escape_rune. case_bool_decide as H1; [|case_bool_decide as H2].
    + rewrite H1. reflexivity.
    + rewrite H2. reflexivity.
    + cbn [app parse_string]. unfold between in Hc.
      pose proof (byte_Z_range c) as Hr. unfold in_u in Hr.
      assert (128 <= byte_Z c) by lia.
      replace (byte_Z c =? 34) with false by lia. replace (byte_Z c =? 92) with false by lia.
      replace (byte_Z c <? 32) with false by lia.
      cbn [app] in Htake. rewrite Htake. cbn [take drop].
      assert (length (take n l') = n) as Hn by (rewrite length_take; simpl in Hlen; lia).
      rewrite take_app_length', drop_app_length' by done. done.
Qed.

Lemma parse_escape fuel l f rest :
  utf8_valid_fuel fuel l = true -> (length (escape_fuel fuel l) < f)%nat ->
  parse_string f (escape_fuel fuel l ++ "034"%char :: rest) = Some (l, rest).
Proof.
  revert l f; induction fuel as [|fuel IH]; intros l f Hv Hf.
  - destruct l; [|done]. by destruct f; [simpl in Hf; lia|].
  - destruct l as [|c l']; [by destruct f; [simpl in Hf; lia|]|].
    cbn [utf8_valid_fuel escape_fuel] in *.
    destruct (utf8_len (c :: l')) as [|n] eqn:En; [done|].
    assert (utf8_len (c :: l') <> 0%nat) as Hn by lia. rewrite <- app_assoc.
    destruct f as [|f]; [lia|].
    pose proof (parse_chunk f (c :: l')) as Hp. rewrite En in Hp. rewrite Hp by done.
    rewrite (IH (drop (S n) (c :: l')) f Hv); simpl; [by rewrite take_drop|].
    rewrite length_app in Hf.
    assert (escape_rune (take (S n) (c :: l')) <> []) as He.
    { cbn [take]. unfold escape_rune, escape_ascii. repeat case_match; done. }
    destruct (escape_rune (take (S n) (c :: l'))); [done|]. simpl in Hf. lia.
Qed.

Lemma parse_print_string l rest :
  utf8_valid l = true ->
  exists body, print_string l ++ rest = "034"%char :: body /\
    parse_string (length body) body = Some (l, rest).
Proof.
  intros Hv. unfold print_string. exists (escape_fuel (length l) l ++ "034"%char :: rest).
  split; [simpl; by rewrite <- app_assoc|]. apply parse_escape; [done|]. rewrite length_app. simpl. lia.
Qed.

(** ** Round trip: numbers *)

Lemma is_digit_digit d : 0 <= d < 10 -> is_digit (Z_byte (48 + d)) = true /\ byte_Z (Z_byte (48 + d)) = 48 + d.
Proof.
  intros Hd. assert (byte_Z (Z_byte (48 + d)) = 48 + d) as Hb.
  { rewrite byte_Z_byte. apply wrapu_id. unfold in_u. lia. }
  split; [|done]. unfold is_digit, between. rewrite Hb. lia.
Qed.

Lemma digits_fuel_app fuel n acc : digits_fuel fuel n acc = digits_fuel fuel n [] ++ acc.
Proof.
  revert n acc; induction fuel as [|fuel IH]; intros n acc; simpl; [done|].
  destruct (n <? 10); [done|]. rewrite IH, (IH _ [_]), <- app_assoc. done.
Qed.

(** The digits of [n]: all decimal, of value [n], without a leading zero. *)
Lemma digits_fuel_spec fuel n :
  0 <= n < 2 ^ Z.of_nat fuel ->
  Forall (fun c => is_digit c = true) (digits_fuel fuel n []) /\
  digits_value (digits_fuel fuel n []) = n /\
  (fuel <> 0%nat -> exists d more, digits_fuel fuel n [] = d :: more /\ (byte_Z d = 48 -> more = [])).
Proof.
  revert n; induction fuel as [|fuel IH]; intros n Hn.
  - simpl in Hn. assert (n = 0) as -> by lia. by split_and!.
  - cbn [digits_fuel]. pose proof (Z.mod_pos_bound n 10 ltac:(lia)) as Hm.
    destruct (is_digit_digit (n mod 10) Hm) as [Hd Hv].
    destruct (Z.ltb_spec n 10) as [Hlt|Hge].
    + split_and!; [by repeat constructor| |intros _; by eexists _, []].
      unfold digits_value. simpl. rewrite Hv, Z.mod_small by lia. lia.
    + assert (0 <= n / 10 < 2 ^ Z.of_nat fuel) as Hq.
      { rewrite Nat2Z.inj_succ, Z.pow_succ_r in Hn by lia. split; [apply Z.div_pos; lia|].
        apply Z.div_lt_upper_bound; lia. }
      destruct (IH (n / 10) Hq) as (HF & HV & HL). rewrite digits_fuel_app. split_and!.
      * apply Forall_app. by split; [|repeat constructor].
      * unfold digits_value in *. rewrite fold_left_app, HV. simpl. rewrite Hv.
        pose proof (Z.div_mod n 10 ltac:(lia)). lia.
      * intros _. destruct HL as (d & more & Hdm & Hz).
        { intros ->. simpl in Hq. assert (1 <= n / 10) by (apply Z.div_le_lower_bound; lia). lia. }
        exists d, (more ++ [Z_byte (48 + n mod 10)]). split; [by rewrite Hdm|]. intros Hd0.
        rewrite Hdm, (Hz Hd0) in HV. unfold digits_value in HV. simpl in HV.
        assert (1 <= n / 10) by (apply Z.div_le_lower_bound; lia). lia.
Qed.

Definition ends_number (rest : bytes) : Prop :=
  match rest with
  | [] => True
  | c :: _ => is_digit c = false /\ byte_Z c <> 46 /\ byte_Z c <> 101 /\ byte_Z c <> 69
  end.

Lemma take_while_app f l rest :
  Forall (fun c => f c = true) l -> match rest with c :: _ => f c = false | [] => True end ->
  take_while f (l ++ rest) = (l, rest).
Proof.
  intros H Hr. induction H as [|c l Hc _ IH]; simpl.
  - destruct rest as [|c r]; [done|]. simpl. by rewrite Hr.
  - by rewrite Hc, IH.
Qed.

Lemma print_nat_spec n : 0 <= n ->
  Forall (fun c => is_digit c = true) (print_nat n) /\ digits_value (print_nat n) = n /\
  exists d more, print_nat n = d :: more /\ (byte_Z d = 48 -> more = []).
Proof.
  intros Hn. unfold print_nat.
  destruct (digits_fuel_spec (S (Z.to_nat (Z.log2 n))) n) as (H1 & H2 & H3).
  - split; [done|]. rewrite Nat2Z.inj_succ, Z2Nat.id by apply Z.log2_nonneg.
    destruct (Z.eq_dec n 0) as [->|]; [done|]. apply Z.log2_spec. lia.
  - split_and!; [done|done|]. by apply H3.
Qed.

Lemma parse_print_nat neg n rest :
  0 <= n -> ends_number rest ->
  parse_number neg (print_nat n ++ rest) = Some (JInt (if neg then - n else n), rest).
Proof.
  intros Hn Hr. destruct (print_nat_spec n Hn) as (HF & HV & d & more & Heq & Hz).
  unfold parse_number. rewrite take_while_app; [|done|by destruct rest; [|apply Hr]].
  rewrite Heq. replace (_ && _) with false.
  2: { symmetry. destruct (Z.eqb_spec (byte_Z d) 48) as [H0|]; [|done]. by rewrite (Hz H0). }
  rewrite <- Heq, HV.
  assert (float_tail rest = Some ([], rest)) as ->.
  { unfold float_tail. destruct rest as [|c r]; [done|]. destruct Hr as (_ & H1 & H2 & H3).
    replace (byte_Z c =? 46) with false by lia. simpl.
    by replace ((byte_Z c =? 101) || (byte_Z c =? 69)) with false by lia. }
  done.
Qed.

(** ** Round trip: values *)

(** Strings are valid UTF-8 and numbers are integers. *)
Fixpoint json_ok (j : json) : bool :=
  match j with
  | JNull | JBool _ | JInt _ => true
  | JOther _ => false
  | JString s => utf8_valid (string_bytes s)
  | JArray items => forallb json_ok items
  | JObject members => forallb (fun '(k, v) => utf8_valid (string_bytes k) && json_ok v) members
  end.

Fixpoint depth (j : json) : nat :=
  match j with
  | JArray items => S (list_max (depth <$> items))
  | JObject members => S (list_max ((fun '(_, v) => depth v) <$> members))
  | _ => 0
  end.

Definition print_member (m : string * json) : bytes :=
  print_string (string_bytes m.1) ++ ":"%char :: json_print m.2.

Definition ends_value (rest : bytes) : Prop :=
  match rest with [] => True | c :: _ => byte_Z c = 44 \/ byte_Z c = 93 \/ byte_Z c = 125 end.

Lemma ends_value_number rest : ends_value rest -> ends_number rest.
Proof.
  destruct rest as [|c r]; [done|]. simpl. unfold is_digit, between. lia.
Qed.

Lemma skip_space_id c l : is_space c = false -> skip_space (c :: l) = c :: l.
Proof. simpl. by intros ->. Qed.

Lemma byte_space c : byte_Z c <> 32 -> byte_Z c <> 9 -> byte_Z c <> 10 -> byte_Z c <> 13 -> is_space c = false.
Proof. unfold is_space, between. lia. Qed.

Lemma ends_value_space rest : ends_value rest -> skip_space rest = rest.
Proof.
  destruct rest as [|c r]; [done|]. intros H. apply skip_space_id. simpl in H. apply byte_space; lia.
Qed.

Lemma json_print_object ms :
  json_print (JObject ms) = ["{"]%char ++ join_comma (print_member <$> ms) ++ ["}"]%char.
Proof. simpl. f_equal. f_equal. f_equal. apply list_fmap_ext. by intros ? [? ?] ?. Qed.

(** The first byte of a printed value. *)
Lemma print_head j : json_ok j = true ->
  exists c l, json_print j = c :: l /\ is_space c = false /\ byte_Z c <> 93 /\ byte_Z c <> 125.
Proof.
  destruct j as [|[]|z| |s|items|ms]; intros Hok; try done; try (eexists _, _; by split_and!).
  simpl. unfold print_int. destruct (Z.ltb_spec z 0); [by eexists _, _; split_and!|].
  destruct (print_nat_spec z) as (HF & _ & d & more & Heq & _); [lia|].
  rewrite Heq in *. apply Forall_cons in HF as [Hd _]. unfold is_digit, between in Hd.
  exists d, more. split_and!; [done|apply byte_space| |]; lia.
Qed.

Lemma parse_items_print pv items rest f :
  items <> [] -> (length items <= f)%nat ->
  Forall (fun v => forall r, ends_value r -> pv (json_print v ++ r) = Some (v, r)) items ->
  parse_items pv f (join_comma (json_print <$> items) ++ "]"%char :: rest) = Some (items, rest).
Proof.
  revert f; induction items as [|v items IH]; intros f Hne Hf HF; [done|].
  apply Forall_cons in HF as [Hv HF]. destruct f as [|f]; [simpl in Hf; lia|].
  destruct items as [|v' items].
  - csimpl. rewrite Hv by (simpl; auto). done.
  - change (join_comma (json_print <$> v :: v' :: items))
      with (json_print v ++ ","%char :: join_comma (json_print <$> v' :: items)).
    rewrite <- app_assoc. cbn [parse_items app]. rewrite Hv by (simpl; auto). cbn [mbind option_bind].
    rewrite skip_space_id by done. simpl. csimpl in IH. rewrite IH; try done. simpl in *. lia.
Qed.

Lemma parse_members_print pv ms rest f :
  ms <> [] -> (length ms <= f)%nat ->
  Forall (fun '(k, v) => utf8_valid (string_bytes k) = true /\
    forall r, ends_value r -> pv (json_print v ++ r) = Some (v, r)) ms ->
  parse_members pv f (join_comma (print_member <$> ms) ++ "}"%char :: rest) = Some (ms, rest).
Proof.
  revert f; induction ms as [|[k v] ms IH]; intros f Hne Hf HF; [done|].
  apply Forall_cons in HF as [[Hk Hv] HF]. destruct f as [|f]; [simpl in Hf; lia|].
  assert (Hone : forall r, ends_value r -> forall X,
    (match skip_space r with
     | c :: l4 =>
         if byte_Z c =? 44 then '(ms, l5) ← parse_members pv f l4; Some ((k, v) :: ms, l5)
         else if byte_Z c =? 125 then Some ([(k, v)], l4) else None
     | [] => None
     end) = X -> parse_members pv (S f) (print_member (k, v) ++ r) = X).
  { intros r Hr X HX. unfold print_member. cbn [fst snd]. rewrite <- app_assoc.
    destruct (parse_print_string (string_bytes k) ((":"%char :: json_print v) ++ r) Hk) as (body & Hb & Hp).
    rewrite Hb. cbn [parse_members]. rewrite skip_space_id by done.
    change (byte_Z "034" =? 34) with true. cbn iota. rewrite Hp. cbn [mbind option_bind].
    cbn [app]. rewrite skip_space_id by done. change (byte_Z ":" =? 58) with true. cbn iota.
    rewrite Hv by done. cbn [mbind option_bind]. rewrite String.string_of_list_ascii_of_string. done. }
  destruct ms as [|m ms].
  - csimpl. apply Hone; [simpl; auto|]. done.
  - change (join_comma (print_member <$> (k, v) :: m :: ms))
      with (print_member (k, v) ++ ","%char :: join_comma (print_member <$> m :: ms)).
    rewrite <- app_assoc. apply Hone; [simpl; auto|]. cbn [app]. rewrite skip_space_id by done.
    change (byte_Z "," =? 44) with true. cbn iota. rewrite IH; try done. simpl in *. lia.
Qed.

Lemma length_join_comma parts : Forall (fun p : bytes => p <> []) parts ->
  (length parts <= length (join_comma parts))%nat.
Proof.
  induction 1 as [|p parts Hp _ IH]; [done|]. destruct p as [|c p]; [done|].
  destruct parts as [|q parts]; [simpl; lia|].
  change (join_comma ((c :: p) :: q :: parts)) with ((c :: p) ++ ","%char :: join_comma (q :: parts)).
  rewrite length_app. simpl in *. lia.
Qed.

Lemma length_join_elem parts p : p ∈ parts -> (length p <= length (join_comma parts))%nat.
Proof.
  induction parts as [|q parts IH]; [by intros ?%elem_of_nil|]. intros H.
  destruct parts as [|r parts].
  - apply list_elem_of_singleton in H as ->. done.
  - change (join_comma (q :: r :: parts)) with (q ++ ","%char :: join_comma (r :: parts)).
    rewrite length_app. cbn [length]. apply elem_of_cons in H as [->|H]; [lia|]. specialize (IH H). lia.
Qed.

Lemma list_max_elem l n : n ∈ l -> (n <= list_max l)%nat.
Proof.
  intros H. pose proof (proj1 (list_max_le l (list_max l)) (le_n _)) as Hf.
  rewrite List.Forall_forall in Hf. by apply Hf, list_elem_of_In.
Qed.

Lemma list_max_bound l b : (forall n, n ∈ l -> n <= b)%nat -> (list_max l <= b)%nat.
Proof. intros H. apply list_max_le, List.Forall_forall. intros n Hn. by apply H, list_elem_of_In. Qed.

Section Induction.
Context (P : json -> Prop)
  (Hleaf : forall j, match j with JArray _ | JObject _ => False | _ => True end -> P j)
  (Harr : forall items, Forall P items -> P (JArray items))
  (Hobj : forall ms, Forall (fun m => P m.2) ms -> P (JObject ms)).

(** Structural induction through the lists of a tree. *)
Fixpoint json_induction (j : json) : P j :=
  match j with
  | JArray items => Harr items ((fix go l : Forall P l :=
      match l with [] => Forall_nil_2 P | j :: l => Forall_cons_2 P j l (json_induction j) (go l) end) items)
  | JObject ms => Hobj ms ((fix go l : Forall (fun m => P m.2) l :=
      match l with
      | [] => Forall_nil_2 (fun m : string * json => P m.2)
      | m :: l => Forall_cons_2 (fun m : string * json => P m.2) m l
                    (match m with (k, j) => json_induction j end) (go l)
      end) ms)
  | j => Hleaf j I
  end.
End Induction.

Lemma depth_print j : (depth j <= length (json_print j))%nat.
Proof.
  induction j as [j Hj|items IH|ms IH] using json_induction; [destruct j; try done; simpl; lia| |].
  - change (json_print (JArray items)) with ("["%char :: join_comma (json_print <$> items) ++ ["]"%char]).
    change (depth (JArray items)) with (S (list_max (depth <$> items))).
    cbn [length]. rewrite length_app.
    assert (list_max (depth <$> items) <= length (join_comma (json_print <$> items)))%nat; [|lia].
    apply list_max_bound. intros n (j & -> & Hj)%list_elem_of_fmap.
    rewrite Forall_forall in IH. specialize (IH j Hj).
    pose proof (length_join_elem (json_print <$> items) (json_print j) (list_elem_of_fmap_2 _ _ _ Hj)). lia.
  - rewrite json_print_object.
    change (depth (JObject ms)) with (S (list_max ((fun '(_, v) => depth v) <$> ms))).
    rewrite !length_app. cbn [length].
    assert (list_max ((fun '(_, v) => depth v) <$> ms) <= length (join_comma (print_member <$> ms)))%nat; [|lia].
    apply list_max_bound. intros n ([k v] & -> & Hm)%list_elem_of_fmap.
    rewrite Forall_forall in IH. specialize (IH _ Hm). simpl in IH.
    pose proof (length_join_elem (print_member <$> ms) _ (list_elem_of_fmap_2 _ _ _ Hm)) as Hl.
    unfold print_member in Hl at 1. rewrite length_app in Hl. simpl in Hl. lia.
Qed.

Lemma print_member_nonempty m : print_member m <> [].
Proof. done. Qed.

Lemma depth_item j items : j ∈ items -> (depth j < depth (JArray items))%nat.
Proof.
  intros H. change (depth (JArray items)) with (S (list_max (depth <$> items))).
  pose proof (list_max_elem (depth <$> items) (depth j) (list_elem_of_fmap_2 _ _ _ H)). lia.
Qed.

Lemma depth_member k j ms : (k, j) ∈ ms -> (depth j < depth (JObject ms))%nat.
Proof.
  intros H. change (depth (JObject ms)) with (S (list_max ((fun '(_, v) => depth v) <$> ms))).
  pose proof (list_max_elem _ (depth j) (list_elem_of_fmap_2 (fun '(_, v) => depth v) _ _ H)). lia.
Qed.

Lemma parse_int_print fuel z rest : ends_value rest -> parse_value (S fuel) (json_print (JInt z) ++ rest) = Some (JInt z, rest).
Proof.
  intros Hr.
  pose proof (print_head (JInt z) eq_refl) as (c & l & Hp & Hsp & Hn1 & Hn2).
  destruct (print_nat_spec (Z.abs z)) as (HF & _ & d & more & Heq & _); [lia|].
  rewrite Heq in HF. apply Forall_cons in HF as [Hdig _]. unfold is_digit, between in Hdig.
  rewrite Hp. cbn [app parse_value]. rewrite skip_space_id by done. simpl in Hp. unfold print_int in Hp.
  destruct (Z.ltb_spec z 0).
  - injection Hp as <- <-. change (parse_number true (print_nat (- z) ++ rest) = Some (JInt z, rest)).
    rewrite parse_print_nat by (lia || by apply ends_value_number). f_equal. f_equal. f_equal. lia.
  - rewrite Z.abs_eq in Heq by done. assert (c = d) as -> by congruence.
    repeat match goal with |- context [byte_Z d =? ?n] => replace (byte_Z d =? n) with false by lia end.
    change (d :: l ++ rest) with ((d :: l) ++ rest). rewrite <- Hp.
    rewrite parse_print_nat by (done || by apply ends_value_number). done.
Qed.

Lemma array_items_ok items : json_ok (JArray items) = true -> Forall (fun v => json_ok v = true) items.
Proof.
  intros Hok. change (forallb json_ok items = true) in Hok. rewrite forallb_forall in Hok.
  apply Forall_forall. intros u Hu. by apply Hok, list_elem_of_In.
Qed.

Lemma object_members_ok ms : json_ok (JObject ms) = true ->
  Forall (fun m => utf8_valid (string_bytes m.1) = true /\ json_ok m.2 = true) ms.
Proof.
  intros Hok. change (forallb (fun '(k, v) => utf8_valid (string_bytes k) && json_ok v) ms = true) in Hok.
  rewrite forallb_forall in Hok. apply Forall_forall. intros [k v] Hu%list_elem_of_In. by apply Hok, andb_true_iff in Hu.
Qed.

(** A value is read back whatever comes behind it. *)
#[local] Abbreviation reads_back fuel v := (forall rest, ends_value rest -> parse_value fuel (json_print v ++ rest) = Some (v, rest)).

Lemma parse_array_print fuel items rest : json_ok (JArray items) = true -> Forall (fun v => reads_back fuel v) items ->
  parse_value (S fuel) (json_print (JArray items) ++ rest) = Some (JArray items, rest).
Proof.
  intros Hok IH.
  change (json_print (JArray items)) with ("["%char :: join_comma (json_print <$> items) ++ ["]"%char]).
  cbn [app]. rewrite <- app_assoc. cbn [parse_value]. rewrite skip_space_id by done.
  change (byte_Z "[" =? 34) with false. change (byte_Z "[" =? 91) with true. cbn iota.
  destruct items as [|v items]; [done|].
  pose proof (array_items_ok _ Hok) as HF.
  pose proof (parse_items_print (parse_value fuel) (v :: items) rest
    (length (join_comma (json_print <$> v :: items) ++ ["]"%char] ++ rest))) as Hp.
  cbn [app] in Hp |- *.
  assert (exists c l, join_comma (json_print <$> v :: items) ++ "]"%char :: rest = c :: l /\
    is_space c = false /\ byte_Z c <> 93) as (c & l & Hcl & Hsp & Hn).
  { apply Forall_cons in HF as [Hv _]. destruct (print_head v Hv) as (c & l & Hpv & ? & ? & ?).
    exists c. csimpl. rewrite Hpv. destruct (json_print <$> items); eexists; by split_and!. }
  rewrite Hcl in Hp |- *. rewrite skip_space_id by done.
  replace (byte_Z c =? 93) with false by lia. rewrite Hp; [done|done| |].
  - rewrite <- Hcl, length_app.
    pose proof (length_join_comma (json_print <$> v :: items)) as Hl. rewrite length_fmap in Hl.
    etransitivity; [apply Hl|lia]. apply Forall_fmap. eapply Forall_impl; [exact HF|].
    intros u Hu. destruct (print_head u Hu) as (? & ? & Hpu & _). simpl. by rewrite Hpu.
  - exact IH.
Qed.

Lemma parse_object_print fuel ms rest : json_ok (JObject ms) = true -> Forall (fun m => reads_back fuel m.2) ms ->
  parse_value (S fuel) (json_print (JObject ms) ++ rest) = Some (JObject ms, rest).
Proof.
  intros Hok IH.
  rewrite json_print_object. cbn [app]. rewrite <- app_assoc. cbn [parse_value].
  rewrite skip_space_id by done.
  change (byte_Z "{" =? 34) with false. change (byte_Z "{" =? 91) with false.
  change (byte_Z "{" =? 123) with true. cbn iota. destruct ms as [|m ms]; [done|].
  pose proof (parse_members_print (parse_value fuel) (m :: ms) rest
    (length (join_comma (print_member <$> m :: ms) ++ ["}"%char] ++ rest))) as Hp.
  cbn [app] in Hp |- *.
  assert (exists l, join_comma (print_member <$> m :: ms) ++ "}"%char :: rest = "034"%char :: l)
    as (l & Hcl).
  { csimpl. destruct (print_member <$> ms); unfold print_member, print_string; by eexists. }
  rewrite Hcl in Hp |- *. rewrite skip_space_id by done.
  change (byte_Z "034" =? 125) with false. cbn iota. rewrite Hp; [done|done| |].
  - rewrite <- Hcl, length_app.
    pose proof (length_join_comma (print_member <$> m :: ms)) as Hl. rewrite length_fmap in Hl.
    etransitivity; [apply Hl|lia]. apply Forall_fmap, Forall_forall. intros u _. apply print_member_nonempty.
  - apply object_members_ok in Hok. rewrite Forall_forall in Hok, IH |- *. intros [k u] Hu. split; [apply (Hok _ Hu)|].
    exact (IH _ Hu).
Qed.

Lemma parse_value_print fuel j rest :
  json_ok j = true -> (depth j < fuel)%nat -> ends_value rest ->
  parse_value fuel (json_print j ++ rest) = Some (j, rest).
Proof.
  revert j rest; induction fuel as [|fuel IH]; intros j rest Hok Hd Hr; [lia|].
  destruct j as [|[]|z|lit|s|items|ms]; try done.
  - by apply parse_int_print.
  - simpl in Hok. destruct (parse_print_string _ rest Hok) as (body & Hb & Hp).
    change (json_print (JString s)) with (print_string (string_bytes s)). rewrite Hb.
    cbn [parse_value]. rewrite skip_space_id by done. change (byte_Z "034" =? 34) with true. cbn iota.
    rewrite Hp. simpl. by rewrite String.string_of_list_ascii_of_string.
  - apply parse_array_print; [done|]. apply array_items_ok in Hok. rewrite Forall_forall in Hok |- *. intros u Hu r Hr'.
    apply IH; [by apply Hok| |done]. pose proof (depth_item _ _ Hu). lia.
  - apply parse_object_print; [done|]. apply object_members_ok in Hok. rewrite Forall_forall in Hok |- *. intros [k u] Hu r Hr'.
    apply IH; [by apply (Hok (k, u))| |done]. pose proof (depth_member _ _ _ Hu). cbn [snd]. lia.
Qed.

(** The printer's text is read back as the same tree. *)
Lemma json_parse_print j : json_ok j = true -> json_parse (json_print j) = Ok j.
Proof.
  intros Hok. unfold json_parse. rewrite <- (app_nil_r (json_print j)) at 2.
  rewrite parse_value_print; [done|done| |done]. pose proof (depth_print j). lia.
Qed.
