(* ===== verification/Writer.v ===== *)
(** * The asynchronous writer (src/trail.go)

    [Init], [Log], [enqueue], [Close] and the writer goroutine [run], as an
    interleaving machine.  A [world] holds what the goroutines share: the
    mutex and pointer of [global], every writer ever installed, the counters
    and the identifier generator, and the list of goroutines that called the
    package.  [step_fn] performs one atomic action of one goroutine; the
    constructors of [thread], [log_pc] and [run_pc] are the points between two
    atomic actions in the source.  Everything a schedule, the clock, the
    random source or a sink may do is an argument of the action, so a theorem
    about every action sequence covers every scheduler and every sink.

    Modelling choices:
    - [sync/atomic] operations are sequentially consistent (Go memory model),
      so interleaving their effects is faithful.
    - a channel of capacity [n >= 1] is a bounded list; [chan struct{}] that is
      only closed is a flag; [wake], of capacity one, is a flag.
    - the effect of a [WriteBatch] call together with the counter additions
      that follow it is one action: the counters are only ever added to.
    - [w_calls] records the calls made on the sink and [w_sent] the events put
      into the queue, in order; no code reads them. *)

From S2P Require Import Prelude Ids Events.

(** ** State *)

(** A call the writer made on its sink, with what it returned. *)
Inductive sinkCall :=
| SinkWrite (batch : Batch) (err : option error)
| SinkClose (err : option error).

(** Where the writer goroutine stands in [run], with its local [batch]. *)
Inductive run_pc :=
| RSelect (batch : list Event)   (** at the select of the main loop *)
| RWait (batch : list Event)     (** in [waitForProducers], before [inflight.Load()] *)
| RBlock (batch : list Event)    (** in [waitForProducers], receiving from [wake] *)
| RDrain (batch : list Event)    (** at the select of the draining loop *)
| RClose                         (** before [sink.Close()] *)
| RExit                          (** returning: before the deferred [close(w.done)] *)
| RDone.

Record writer := mkWriter {
  w_metadata : Metadata;
  w_policy : FullPolicy;
  w_capacity : nat;
  w_batchSize : nat;
  w_queue : list Event;
  w_stop : bool;
  w_done : bool;
  w_wake : bool;
  w_accepting : bool;
  w_inflight : Z;
  w_publishErr : option error;
  w_closeErr : option error;
  w_run : run_pc;
  w_calls : list sinkCall;
  w_sent : list Event
}.

#[global] Instance eta_writer : Eta writer :=
  fun r => mkWriter (w_metadata r) (w_policy r) (w_capacity r) (w_batchSize r) (w_queue r) (w_stop
  r) (w_done r) (w_wake r) (w_accepting r) (w_inflight r) (w_publishErr r) (w_closeErr r) (w_run
  r) (w_calls r) (w_sent r).

(** Where a goroutine stands inside [w.enqueue(event)]; [queued] tells whether
    the event went into the queue. *)
Inductive log_pc :=
| LEnter (event : Event)         (** before [inflight.Add(1)] *)
| LCheck (event : Event)         (** before [accepting.Load()] *)
| LBuffer (event : Event)        (** before [buffered.Add(1)] *)
| LSelect (event : Event)        (** at the select of the policy *)
| LUnbuffer                      (** before [buffered.Add(^uint64(0))] *)
| LDrop                          (** before [dropped.Add(1)] *)
| LRelease (queued : bool)       (** deferred: before [inflight.Add(-1)] *)
| LWake (queued : bool).         (** deferred: at the select on [wake] *)

(** A goroutine calling [Log], [Init] or [Close]. *)
Inductive thread :=
| LogCall (kind : string) (options : list Option)
| LogLoaded (w : option nat) (kind : string) (options : list Option)
| LogBuild (w : nat) (kind : string) (options : list Option)
| LogRefused                     (** before [dropped.Add(1)] in [Log] *)
| LogIn (w : nat) (pc : log_pc)
| LogReturned (queued : bool)
| LogPanicked (msg : string)
| InitCall (cfg : Config)
| InitReturned (err : option error)
| CloseCall
| CloseSwapped (w : nat)         (** before [accepting.Store(false)] *)
| CloseRefusing (w : nat)        (** before [close(w.stop)] *)
| CloseWaiting (w : nat)         (** receiving from [w.done] *)
| CloseReturned (err : option error).

Record world := mkWorld {
  g_mu : bool;
  g_current : option nat;
  g_writers : list writer;
  g_threads : list thread;
  g_counters : counters;
  g_ids : idState
}.

#[global] Instance eta_world : Eta world :=
  fun r => mkWorld (g_mu r) (g_current r) (g_writers r) (g_threads r) (g_counters r) (g_ids r).

Definition world0 : world := mkWorld false None [] [] counters0 idState0.

(** ** The writer *)

Definition newWriter (cfg : Config) : writer :=
  mkWriter (mkMetadata (cfg_Service cfg) (cfg_Environment cfg) (cfg_Version cfg))
    (cfg_FullPolicy cfg) (Z.to_nat (cfg_BufferCapacity cfg)) (Z.to_nat (cfg_BatchSize cfg))
    [] false false false true 0 None None (RSelect []) [] [].

(** Bitwise complement at 64 bits, Go's [^x] on [uint64]. *)
Definition not64 (x : Z) : Z := 2 ^ 64 - 1 - u64 x.

(** [w.publish(events)], the sink answering [err]. *)
Definition publish (w : writer) (c : counters) (events : list Event) (err : option error)
    : writer * counters :=
  let w := w <| w_calls := w_calls w ++ [SinkWrite (mkBatch (w_metadata w) events) err] |> in
  let count := u64 (Z.of_nat (length events)) in
  let '(w, c) :=
    match err with
    | Some e =>
        (match w_publishErr w with None => w <| w_publishErr := Some e |> | Some _ => w end,
         c <| c_publishErrors := u64 (c_publishErrors c + 1) |>
           <| c_dropped := u64 (c_dropped c + count) |>)
    | None => (w, c <| c_written := u64 (c_written c + count) |>)
    end in
  (w, c <| c_buffered := u64 (c_buffered c + not64 (u64 (count - 1))) |>).

(** [batch = append(batch, event)] and the flush of a full batch. *)
Definition run_receive (w : writer) (c : counters) (batch : list Event) (event : Event)
    (queue : list Event) (err : option error) (next : list Event -> run_pc) : writer * counters :=
  let w := w <| w_queue := queue |> in
  let batch := batch ++ [event] in
  if Nat.eqb (length batch) (w_batchSize w) then
    let '(w, c) := publish w c batch err in (w <| w_run := next [] |>, c)
  else (w <| w_run := next batch |>, c).

(** The ready case a [select] of the main loop takes. *)
Inductive run_case := CaseQueue | CaseTick | CaseStop.

(** One action of the writer goroutine; [None] when it is blocked there. *)
Definition run_step (w : writer) (c : counters) (case : run_case) (err : option error)
    : option (writer * counters) :=
  match w_run w with
  | RSelect batch =>
      match case with
      | CaseQueue =>
          match w_queue w with
          | event :: queue => Some (run_receive w c batch event queue err RSelect)
          | [] => None
          end
      | CaseTick =>
          if Nat.eqb (length batch) 0 then Some (w, c)
          else let '(w, c) := publish w c batch err in Some (w <| w_run := RSelect [] |>, c)
      | CaseStop => if w_stop w then Some (w <| w_run := RWait batch |>, c) else None
      end
  | RWait batch =>
      if w_inflight w =? 0 then Some (w <| w_run := RDrain batch |>, c)
      else Some (w <| w_run := RBlock batch |>, c)
  | RBlock batch =>
      if w_wake w then Some (w <| w_wake := false |> <| w_run := RWait batch |>, c) else None
  | RDrain batch =>
      match w_queue w with
      | event :: queue => Some (run_receive w c batch event queue err RDrain)
      | [] =>
          if Nat.eqb (length batch) 0 then Some (w <| w_run := RClose |>, c)
          else let '(w, c) := publish w c batch err in Some (w <| w_run := RClose |>, c)
      end
  | RClose =>
      let w := w <| w_calls := w_calls w ++ [SinkClose err] |> in
      let w := match err with Some e => w <| w_closeErr := Some e |> | None => w end in
      Some (w <| w_run := RExit |>, c)
  | RExit => Some (w <| w_done := true |> <| w_run := RDone |>, c)
  | RDone => None
  end.

(** One action of a goroutine inside [w.enqueue]: the thread it becomes. *)
Definition enqueue_step (w : writer) (c : counters) (pc : log_pc) (send : bool)
    : option (writer * counters * (log_pc + bool)) :=
  match pc with
  | LEnter event => Some (w <| w_inflight := i64 (w_inflight w + 1) |>, c, inl (LCheck event))
  | LCheck event =>
      if w_accepting w then Some (w, c, inl (LBuffer event)) else Some (w, c, inl LDrop)
  | LBuffer event => Some (w, c <| c_buffered := u64 (c_buffered c + 1) |>, inl (LSelect event))
  | LSelect event =>
      let ready := Nat.ltb (length (w_queue w)) (w_capacity w) in
      if send then
        if ready then
          Some (w <| w_queue := w_queue w ++ [event] |> <| w_sent := w_sent w ++ [event] |>, c,
                inl (LRelease true))
        else None
      else if w_policy w =? Block then
        (* case <-w.stop *)
        if w_stop w then Some (w, c, inl LUnbuffer) else None
      else
        (* default *)
        if ready then None else Some (w, c, inl LUnbuffer)
  | LUnbuffer => Some (w, c <| c_buffered := u64 (c_buffered c + not64 0) |>, inl LDrop)
  | LDrop => Some (w, c <| c_dropped := u64 (c_dropped c + 1) |>, inl (LRelease false))
  | LRelease queued => Some (w <| w_inflight := i64 (w_inflight w - 1) |>, c, inl (LWake queued))
  | LWake queued => Some (w <| w_wake := true |>, c, inr queued)
  end.

(** ** The machine *)

(** What the environment decides in one action of a calling goroutine. *)
Record thread_choice := mkChoice {
  tc_send : bool;                  (** take the send case of a select *)
  tc_rnd : result (array 10);      (** what [rand.Read] returns, if called *)
  tc_now : Z                       (** [time.Now().UnixNano()] *)
}.

Inductive action :=
| ASpawn (t : thread)
| AThread (i : nat) (choice : thread_choice)
| ARun (k : nat) (case : run_case) (err : option error).

Definition is_call (t : thread) : bool :=
  match t with LogCall _ _ | InitCall _ | CloseCall => true | _ => false end.

Definition set_thread (s : world) (i : nat) (t : thread) : world :=
  s <| g_threads := <[i := t]> (g_threads s) |>.
Definition set_writer (s : world) (k : nat) (w : writer) : world :=
  s <| g_writers := <[k := w]> (g_writers s) |>.

(** One action of goroutine [i], which stands at [t]. *)
Definition thread_step (s : world) (i : nat) (t : thread) (choice : thread_choice) : option world :=
  match t with
  | LogCall kind options => Some (set_thread s i (LogLoaded (g_current s) kind options))
  | LogLoaded None kind options => Some (set_thread s i LogRefused)
  | LogLoaded (Some k) kind options =>
      w ← g_writers s !! k;
      Some (set_thread s i (if w_accepting w then LogBuild k kind options else LogRefused))
  | LogBuild k kind options =>
      let '(ids, r) := newEventID (tc_rnd choice) (g_ids s) in
      let s := s <| g_ids := ids |> in
      Some (set_thread s i
        match r with
        | Ok id => LogIn k (LEnter (build_event id (tc_now choice) kind options))
        | Fail e => LogPanicked (err_text e)
        | Panic m => LogPanicked m
        end)
  | LogRefused =>
      let c := g_counters s in
      Some (set_thread (s <| g_counters := c <| c_dropped := u64 (c_dropped c + 1) |> |>) i
              (LogReturned false))
  | LogIn k pc =>
      w ← g_writers s !! k;
      '(w', c', next) ← enqueue_step w (g_counters s) pc (tc_send choice);
      Some (set_thread (set_writer (s <| g_counters := c' |>) k w') i
              match next with inl pc' => LogIn k pc' | inr queued => LogReturned queued end)
  | InitCall cfg =>
      (* global.mu.Lock() ... Unlock(): the only shared write is current.Store *)
      if g_mu s then None
      else match g_current s with
      | Some _ => Some (set_thread s i (InitReturned (Some ErrAlreadyInitialized)))
      | None =>
          match normalizeConfig cfg with
          | Ok cfg =>
              Some (set_thread (s <| g_current := Some (length (g_writers s)) |>
                                  <| g_writers := g_writers s ++ [newWriter cfg] |>) i
                      (InitReturned None))
          | Fail e => Some (set_thread s i (InitReturned (Some e)))
          | Panic m => Some (set_thread s i (LogPanicked m))
          end
      end
  | CloseCall =>
      if g_mu s then None
      else match g_current s with
      | None => Some (set_thread s i (CloseReturned None))
      | Some k =>
          Some (set_thread (s <| g_mu := true |> <| g_current := None |>) i (CloseSwapped k))
      end
  | CloseSwapped k =>
      w ← g_writers s !! k;
      Some (set_thread (set_writer s k (w <| w_accepting := false |>)) i (CloseRefusing k))
  | CloseRefusing k =>
      w ← g_writers s !! k;
      if w_stop w then Some (set_thread s i (LogPanicked "close of closed channel"))
      else Some (set_thread (set_writer s k (w <| w_stop := true |>)) i (CloseWaiting k))
  | CloseWaiting k =>
      w ← g_writers s !! k;
      if w_done w then
        Some (set_thread (s <| g_mu := false |>) i
                (CloseReturned (errors_Join (w_publishErr w) (w_closeErr w))))
      else None
  | LogReturned _ | LogPanicked _ | InitReturned _ | CloseReturned _ => None
  end.

Definition step_fn (a : action) (s : world) : option world :=
  match a with
  | ASpawn t => if is_call t then Some (s <| g_threads := g_threads s ++ [t] |>) else None
  | AThread i choice => t ← g_threads s !! i; thread_step s i t choice
  | ARun k case err =>
      w ← g_writers s !! k;
      '(w', c') ← run_step w (g_counters s) case err;
      Some (set_writer (s <| g_counters := c' |>) k w')
  end.

(** A schedule, run from a state. *)
Fixpoint exec (sched : list action) (s : world) : option world :=
  match sched with
  | [] => Some s
  | a :: sched => s' ← step_fn a s; exec sched s'
  end.

Definition step (s s' : world) : Prop := exists a, step_fn a s = Some s'.
Definition reach : world -> Prop := reachable step (fun s => s = world0).

Lemma exec_reach sched s s' : reach s -> exec sched s = Some s' -> reach s'.
Proof.
  revert s; induction sched as [|a sched IH]; intros s Hr H; simpl in H; simplify_eq; [done|].
  destruct (step_fn a s) as [s1|] eqn:E; [|done].
  apply (IH s1); [|done]. eapply reachable_step; [done|]. by exists a.
Qed.

(** ** The writer invariant *)

Definition run_batch (r : run_pc) : list Event :=
  match r with RSelect b | RWait b | RBlock b | RDrain b => b | _ => [] end.

Definition call_events (call : sinkCall) : list Event :=
  match call with SinkWrite b _ => b_Events b | SinkClose _ => [] end.
(** Every event a [WriteBatch] call received, in order. *)
Definition published (calls : list sinkCall) : list Event := concat (call_events <$> calls).

Definition call_failed (call : sinkCall) : bool :=
  match call with SinkWrite _ (Some _) => true | _ => false end.
Definition is_write (call : sinkCall) : bool :=
  match call with SinkWrite _ _ => true | _ => false end.

(** Events of the successful, and of the failed, publications. *)
Definition written_events (calls : list sinkCall) : Z :=
  sumZ (fun call => if call_failed call then 0 else Z.of_nat (length (call_events call))) calls.
Definition failed_events (calls : list sinkCall) : Z :=
  sumZ (fun call => if call_failed call then Z.of_nat (length (call_events call)) else 0) calls.

(** The first error a publication returned. *)
Definition first_error (calls : list sinkCall) : option error :=
  fold_left (fun acc call => match acc, call with None, SinkWrite _ err => err | _, _ => acc end)
    calls None.

(** [t] is between [inflight.Add(1)] and [inflight.Add(-1)] of writer [k]. *)
Definition in_region (k : nat) (t : thread) : bool :=
  match t with
  | LogIn k' (LCheck _ | LBuffer _ | LSelect _ | LUnbuffer | LDrop | LRelease _) => Nat.eqb k k'
  | _ => false
  end.
(** [t] saw [accepting] set and has not left the select: it may still send. *)
Definition may_send (k : nat) (t : thread) : bool :=
  match t with LogIn k' (LBuffer _ | LSelect _) => Nat.eqb k k' | _ => false end.
(** [t] will still signal [wake] of writer [k]. *)
Definition will_wake (k : nat) (t : thread) : bool :=
  in_region k t || match t with LogIn k' (LWake _) => Nat.eqb k k' | _ => false end.

Definition stopping (r : run_pc) : bool := match r with RSelect _ => false | _ => true end.
Definition draining (r : run_pc) : bool :=
  match r with RDrain _ | RClose | RExit | RDone => true | _ => false end.
Definition drained (r : run_pc) : bool := match r with RClose | RExit | RDone => true | _ => false end.
Definition sink_closed (r : run_pc) : bool := match r with RExit | RDone => true | _ => false end.

(** Every publication carries the writer's metadata and between one and
    [batchSize] events. *)
Definition call_ok (w : writer) (call : sinkCall) : Prop :=
  match call with
  | SinkWrite b _ => b_Metadata b = w_metadata w /\ (0 < length (b_Events b) <= w_batchSize w)%nat
  | SinkClose _ => True
  end.

Record winv (k : nat) (w : writer) (ths : list thread) : Prop := {
  wi_sizes : (0 < w_capacity w)%nat /\ (0 < w_batchSize w)%nat;
  wi_sent : w_sent w = published (w_calls w) ++ run_batch (w_run w) ++ w_queue w;
  wi_queue : (length (w_queue w) <= w_capacity w)%nat;
  wi_batch : (length (run_batch (w_run w)) < w_batchSize w)%nat;
  wi_calls : Forall (call_ok w) (w_calls w);
  wi_inflight : w_inflight w = i64 (Z.of_nat (countb (in_region k) ths));
  wi_stop : w_stop w = true -> w_accepting w = false;
  wi_stopping : stopping (w_run w) = true -> w_stop w = true;
  wi_draining : draining (w_run w) = true -> countb (may_send k) ths = 0%nat;
  wi_drained : drained (w_run w) = true -> w_queue w = [];
  wi_close : exists ws, Forall (fun c => is_write c = true) ws /\
    if sink_closed (w_run w) then w_calls w = ws ++ [SinkClose (w_closeErr w)]
    else w_calls w = ws /\ w_closeErr w = None;
  wi_done : w_done w = match w_run w with RDone => true | _ => false end;
  wi_block : (exists b, w_run w = RBlock b) -> w_wake w = true \/ (0 < countb (will_wake k) ths)%nat;
  wi_err : w_publishErr w = first_error (w_calls w)
}.

(** ** Lemmas on the history *)

Lemma published_app calls calls' : published (calls ++ calls') = published calls ++ published calls'.
Proof. unfold published. by rewrite fmap_app, concat_app. Qed.

Lemma published_write b err : published [SinkWrite b err] = b_Events b.
Proof. unfold published. csimpl. apply app_nil_r. Qed.

Lemma first_error_app calls call :
  first_error (calls ++ [call]) =
    match first_error calls with
    | None => match call with SinkWrite _ err => err | _ => None end
    | Some e => Some e
    end.
Proof. unfold first_error. rewrite fold_left_app. simpl. by destruct (fold_left _ _ _), call. Qed.

Lemma published_written_failed calls :
  Z.of_nat (length (published calls)) = written_events calls + failed_events calls.
Proof.
  unfold written_events, failed_events, published.
  induction calls as [|call calls IH]; csimpl; [done|].
  rewrite length_app, Nat2Z.inj_add, IH. destruct (call_failed call); lia.
Qed.

(** ** Preservation: a goroutine moves without touching the writer *)

Lemma countb_insert_eq {A} (f : A -> bool) l i a b :
  l !! i = Some a -> f b = f a -> countb f (<[i := b]> l) = countb f l.
Proof. intros Hi Hf. pose proof (countb_insert f l i a b Hi). rewrite Hf in *. lia. Qed.

Lemma winv_thread k w ths i t t' :
  winv k w ths -> ths !! i = Some t ->
  in_region k t' = in_region k t ->
  (may_send k t' = true -> may_send k t = true \/ w_accepting w = true) ->
  (will_wake k t = true -> will_wake k t' = true) ->
  winv k w (<[i := t']> ths).
Proof.
  intros [] Hi Hr Hs Hw. split; try done.
  - by rewrite (countb_insert_eq _ _ _ t).
  - intros Hd. specialize (wi_draining0 Hd).
    assert (w_accepting w = false) by (apply wi_stop0, wi_stopping0; by destruct (w_run w)).
    pose proof (countb_insert (may_send k) ths i t t' Hi).
    destruct (may_send k t) eqn:?, (may_send k t') eqn:?; try lia.
    destruct (Hs eq_refl); congruence.
  - intros Hb. destruct (wi_block0 Hb) as [?|Hc]; [by left|right].
    pose proof (countb_insert (will_wake k) ths i t t' Hi).
    destruct (will_wake k t) eqn:?, (will_wake k t') eqn:?; try lia; naive_solver.
Qed.

(** A goroutine that is not inside [enqueue] of [k] does not concern [k]. *)
Lemma winv_other k w ths i t t' :
  winv k w ths -> ths !! i = Some t ->
  in_region k t = false -> in_region k t' = false -> may_send k t' = false ->
  will_wake k t = false -> winv k w (<[i := t']> ths).
Proof.
  intros HI Hi H1 H2 H3 H4. eapply winv_thread; [done|done| | |]; congruence.
Qed.

Lemma winv_spawn k w ths t : is_call t = true -> winv k w ths -> winv k w (ths ++ [t]).
Proof.
  intros Hc []. split; try done.
  - by rewrite countb_app; destruct t; simplify_eq/=; rewrite Nat.add_0_r.
  - intros Hd. rewrite countb_app. by destruct t; simplify_eq/=; rewrite Nat.add_0_r; apply wi_draining0.
  - intros Hb. rewrite countb_app. destruct (wi_block0 Hb); [by left|right; lia].
Qed.

Lemma winv_new k cfg ths :
  Config_valid cfg -> Forall (fun t => in_region k t = false) ths -> winv k (newWriter cfg) ths.
Proof.
  intros (_ & _ & Hc & Hb & _) Hths. split; simpl; try done; try lia.
  - by rewrite (proj2 (countb_zero _ _)).
  - by exists [].
  - by intros [? ?].
Qed.

(** ** Preservation: actions of the writer goroutine *)

Lemma publish_winv_fields w c events err :
  let w' := (publish w c events err).1 in
  w_metadata w' = w_metadata w /\ w_policy w' = w_policy w /\ w_capacity w' = w_capacity w /\
  w_batchSize w' = w_batchSize w /\ w_queue w' = w_queue w /\ w_stop w' = w_stop w /\
  w_done w' = w_done w /\ w_wake w' = w_wake w /\ w_accepting w' = w_accepting w /\
  w_inflight w' = w_inflight w /\ w_closeErr w' = w_closeErr w /\ w_run w' = w_run w /\
  w_sent w' = w_sent w /\
  w_calls w' = w_calls w ++ [SinkWrite (mkBatch (w_metadata w) events) err] /\
  w_publishErr w' = match w_publishErr w with Some e => Some e | None => err end.
Proof.
  destruct w as [], err as [e|]; unfold publish; simpl; [destruct w_publishErr0; simpl|];
    split_and!; try done. by destruct w_publishErr0.
Qed.

(** The writer after [publish w events] and a jump to [r], in terms of what the
    invariant reads. *)
Lemma winv_publish k w c ths events err queue r :
  winv k w ths -> w_sent w = published (w_calls w) ++ events ++ queue ->
  (0 < length events <= w_batchSize w)%nat -> (length queue <= w_capacity w)%nat ->
  run_batch r = [] -> sink_closed (w_run w) = false -> sink_closed r = false ->
  (stopping r = true -> w_stop w = true) ->
  (draining r = true -> draining (w_run w) = true) ->
  (drained r = true -> queue = []) -> (forall b, r <> RBlock b) ->
  winv k ((publish (w <| w_queue := queue |>) c events err).1 <| w_run := r |>) ths.
Proof.
  intros [] Hsent Hev Hq Hb Hsc Hsr Hst Hdr Hdn Hnb.
  pose proof (publish_winv_fields (w <| w_queue := queue |>) c events err) as Hf.
  destruct (publish _ _ _ _) as [w' c']. destruct w as [], w' as []; simpl in *. destruct_and! Hf.
  simplify_eq. rewrite Hsc in *. destruct wi_close0 as (ws & Hws & -> & ->).
  split; simpl; try done.
  - rewrite published_app, published_write, Hb, <- app_assoc. simpl. congruence.
  - rewrite Hb. simpl. lia.
  - apply Forall_app. split; [done|]. constructor; [by split|constructor].
  - auto.
  - eexists. rewrite Hsr. split; [|by split]. apply Forall_app. by split; [|repeat constructor].
  - by destruct w_run0, r.
  - intros [b ->]. by destruct (Hnb b).
  - rewrite first_error_app. by destruct (first_error ws).
Qed.

(** A jump of the writer goroutine that keeps its batch. *)
Lemma winv_jump k w ths r wake :
  winv k w ths -> run_batch r = run_batch (w_run w) ->
  sink_closed (w_run w) = false -> sink_closed r = false ->
  (stopping r = true -> w_stop w = true) ->
  (draining r = true -> countb (may_send k) ths = 0%nat) ->
  (drained r = true -> w_queue w = []) ->
  (forall b, r = RBlock b -> wake = true \/ (0 < countb (will_wake k) ths)%nat) ->
  winv k (w <| w_wake := wake |> <| w_run := r |>) ths.
Proof.
  intros [] Hb Hsc Hsr Hst Hdr Hdn Hwk. destruct w as []; simpl in *. rewrite Hsc in *.
  destruct wi_close0 as (ws & Hws & -> & ->). split; simpl; try done.
  - by rewrite Hb.
  - by rewrite Hb.
  - by exists ws; rewrite Hsr.
  - by destruct w_run0, r.
  - intros [b ->]. eauto.
Qed.

Lemma winv_receive k w c ths batch ev q err next :
  (next = RSelect \/ next = RDrain) ->
  winv k w ths -> w_run w = next batch -> w_queue w = ev :: q ->
  winv k (run_receive w c batch ev q err next).1 ths.
Proof.
  intros Hnext HI Hrun Hq. unfold run_receive.
  assert (Hs : w_sent w = published (w_calls w) ++ (batch ++ [ev]) ++ q).
  { rewrite (wi_sent _ _ _ HI), Hrun, Hq, <- app_assoc. by destruct Hnext as [-> | ->]. }
  pose proof (wi_batch _ _ _ HI) as Hb. pose proof (wi_queue _ _ _ HI) as Hcap.
  rewrite Hq in Hcap. simpl in Hcap. rewrite Hrun in Hb.
  assert (run_batch (next batch) = batch) as Hnb by by destruct Hnext as [-> | ->].
  rewrite Hnb in Hb. 
  simpl. destruct (Nat.eqb_spec (length (batch ++ [ev])) (w_batchSize w)) as [Hfull|Hpart];
    rewrite length_app in *; simpl in *.
  - pose proof (winv_publish k w c ths (batch ++ [ev]) err q (next [])) as Hp.
    destruct (publish _ _ _ _) as [[] c'] eqn:Ep. simpl. simpl in Hp. rewrite Hrun in Hp.
    apply Hp; try done; try lia; try (by destruct Hnext as [-> | ->]).
    + rewrite length_app. simpl. lia.
    + intros Hst. apply (wi_stopping _ _ _ HI). rewrite Hrun. by destruct Hnext as [-> | ->].
  - destruct HI, w as []; simpl in *. subst. split; simpl; try done; try lia;
      destruct Hnext as [-> | ->]; simpl in *; try done.
    1,2: rewrite length_app; simpl; lia.
    all: by intros [? ?].
Qed.

Lemma setter_id w : w <| w_queue := w_queue w |> = w.
Proof. by destruct w. Qed.
Lemma setter_wake_id w : w <| w_wake := w_wake w |> = w.
Proof. by destruct w. Qed.
Lemma setter_inflight_id w : w <| w_inflight := w_inflight w |> = w.
Proof. by destruct w. Qed.
Lemma setter_wake w r : w <| w_run := r |> = w <| w_wake := w_wake w |> <| w_run := r |>.
Proof. by destruct w. Qed.

Lemma countb_mono {A} (f g : A -> bool) l :
  (forall a, f a = true -> g a = true) -> (countb f l <= countb g l)%nat.
Proof.
  intros H. induction l as [|a l IH]; simpl; [lia|].
  destruct (f a) eqn:E; [rewrite (H a E); lia|]. destruct (g a); lia.
Qed.

Lemma countb_length {A} (f : A -> bool) l : (countb f l <= length l)%nat.
Proof. induction l as [|a l IH]; simpl; [lia|]. destruct (f a); lia. Qed.

Lemma countb_may_send k ths : countb (in_region k) ths = 0%nat -> countb (may_send k) ths = 0%nat.
Proof.
  intros H. pose proof (countb_mono (may_send k) (in_region k) ths) as Hm.
  rewrite H in Hm. apply Nat.le_0_r, Hm. by intros [| | | |? []| | | | | | | | |].
Qed.

Lemma inflight_value k w ths :
  winv k w ths -> Z.of_nat (length ths) < 2 ^ 63 ->
  w_inflight w = Z.of_nat (countb (in_region k) ths).
Proof.
  intros HI Hlen. rewrite (wi_inflight _ _ _ HI). apply i64_id.
  pose proof (countb_length (in_region k) ths). unfold in_s. lia.
Qed.

Lemma inflight_zero k w ths :
  winv k w ths -> Z.of_nat (length ths) < 2 ^ 63 -> w_inflight w = 0 ->
  countb (in_region k) ths = 0%nat.
Proof. intros HI Hlen H0. rewrite (inflight_value k w ths) in H0 by done. lia. Qed.

Lemma inflight_nonzero k w ths :
  winv k w ths -> Z.of_nat (length ths) < 2 ^ 63 -> w_inflight w <> 0 ->
  (0 < countb (will_wake k) ths)%nat.
Proof.
  intros HI Hlen H0. rewrite (inflight_value k w ths) in H0 by done.
  pose proof (countb_mono (in_region k) (will_wake k) ths) as Hm.
  enough (countb (in_region k) ths <= countb (will_wake k) ths)%nat by lia.
  apply Hm. intros t Ht. unfold will_wake. by rewrite Ht.
Qed.

(** The writer goroutine preserves the invariant; [2^63] calls are the bound
    below which the 64-bit [inflight] counter is exact. *)
Lemma run_step_winv k w c ths case err w' c' :
  winv k w ths -> Z.of_nat (length ths) < 2 ^ 63 ->
  run_step w c case err = Some (w', c') -> winv k w' ths.
Proof.
  intros HI Hlen H. unfold run_step in H. pose proof (wi_batch _ _ _ HI) as Hb.
  pose proof (wi_stopping _ _ _ HI) as Hst. pose proof (wi_sent _ _ _ HI) as Hs.
  pose proof (wi_queue _ _ _ HI) as Hcap. pose proof (wi_draining _ _ _ HI) as Hdr.
  destruct (w_run w) as [batch|batch|batch|batch| | |] eqn:Hrun; simpl in *.
  - destruct case.
    + destruct (w_queue w) as [|ev q] eqn:Hq; [done|]. injection H as H.
      pose proof (winv_receive k w c ths batch ev q err RSelect) as Hr.
      rewrite H in Hr. apply Hr; auto.
    + destruct (Nat.eqb_spec (length batch) 0); [by simplify_eq|].
      pose proof (winv_publish k w c ths batch err (w_queue w) (RSelect [])) as Hp.
      rewrite (setter_id w) in Hp.
      destruct (publish w c batch err) as [w1 c1] eqn:Ep. simplify_eq.
      apply Hp; rewrite ?Hrun; try done; lia.
    + destruct (w_stop w) eqn:?; simplify_eq. rewrite (setter_wake w).
      apply winv_jump; rewrite ?Hrun; try done.
  - destruct (Z.eqb_spec (w_inflight w) 0) as [H0|H0]; simplify_eq; rewrite (setter_wake w);
      apply winv_jump; rewrite ?Hrun; try done; intros; simplify_eq.
    + apply (countb_may_send k), (inflight_zero k w ths); auto.
    + right. by apply (inflight_nonzero k w ths).
  - destruct (w_wake w) eqn:?; simplify_eq. apply winv_jump; rewrite ?Hrun; try done.
  - destruct (w_queue w) as [|ev q] eqn:Hq.
    + destruct (Nat.eqb_spec (length batch) 0) as [Hb0|Hb0].
      * simplify_eq. rewrite (setter_wake w). apply winv_jump; rewrite ?Hrun; try done.
        by destruct batch.
      * pose proof (winv_publish k w c ths batch err (w_queue w) RClose) as Hp.
        rewrite (setter_id w) in Hp.
        destruct (publish w c batch err) as [w1 c1] eqn:Ep. simplify_eq.
        rewrite Hq in Hp. apply Hp; rewrite ?Hrun; try done; simpl; lia.
    + injection H as H. pose proof (winv_receive k w c ths batch ev q err RDrain) as Hr.
      rewrite H in Hr. apply Hr; auto.
  - pose proof (wi_drained _ _ _ HI) as Hdn. rewrite Hrun in Hdn.
    destruct HI, w as []; simpl in *; simplify_eq. simpl in *.
    destruct wi_close0 as (ws & Hws & -> & ->).
    split; destruct err; simpl in *; try done; try lia.
    1,2: by rewrite published_app; unfold published at 3; simpl; rewrite app_nil_r.
    1,2: apply Forall_app; split; [done|by repeat constructor].
    1,2: by exists ws.
    1,2: by intros [? ?].
    all: rewrite first_error_app; by destruct (first_error ws).
  - destruct HI, w as []; simpl in *; simplify_eq. simpl in *. split; simpl; try done.
    by intros [? ?].
  - done.
Qed.

(** ** Preservation: actions inside [enqueue] *)

Abbreviation b2n b := (if b then 1%nat else 0%nat).

(** A goroutine moves from [t] to [t'], changing [inflight] by the difference
    it makes and possibly signalling [wake]. *)
Lemma winv_move k w ths i t t' n wake :
  winv k w ths -> ths !! i = Some t ->
  n = i64 (w_inflight w + Z.of_nat (b2n (in_region k t')) - Z.of_nat (b2n (in_region k t))) ->
  (may_send k t' = true -> may_send k t = true \/ w_accepting w = true) ->
  (w_wake w = true -> wake = true) ->
  (will_wake k t = true -> will_wake k t' = true \/ wake = true) ->
  winv k (w <| w_inflight := n |> <| w_wake := wake |>) (<[i := t']> ths).
Proof.
  intros HI Hi -> Hs Hwk Hw.
  pose proof (countb_insert (in_region k) ths i t t' Hi) as Hr.
  pose proof (countb_insert (may_send k) ths i t t' Hi) as Hm.
  pose proof (countb_insert (will_wake k) ths i t t' Hi) as Hv.
  destruct HI, w as []; simpl in *. split; simpl; try done.
  - rewrite wi_inflight0, <- Z.add_sub_assoc, wraps_add_l. f_equal. lia.
  - intros Hd. specialize (wi_draining0 Hd).
    assert (w_accepting0 = false) by (apply wi_stop0, wi_stopping0; by destruct w_run0).
    destruct (may_send k t) eqn:?, (may_send k t') eqn:?; try lia.
    destruct (Hs eq_refl); congruence.
  - intros Hb. destruct (wi_block0 Hb) as [?|Hc]; [by left; apply Hwk|].
    destruct (will_wake k t) eqn:?, (will_wake k t') eqn:?; try (right; lia).
    destruct (Hw eq_refl); [congruence|by left].
Qed.

(** A goroutine sends its event to the queue. *)
Lemma winv_send k w ths i event :
  winv k w ths -> ths !! i = Some (LogIn k (LSelect event)) ->
  (length (w_queue w) < w_capacity w)%nat ->
  winv k (w <| w_queue := w_queue w ++ [event] |> <| w_sent := w_sent w ++ [event] |>)
    (<[i := LogIn k (LRelease true)]> ths).
Proof.
  intros HI Hi Hlt.
  assert (winv k w (<[i := LogIn k (LRelease true)]> ths)) as HI'.
  { eapply winv_thread; [done|done|done| |]; simpl; [done|]. unfold will_wake; simpl. by intros ->. }
  assert (draining (w_run w) = true -> False) as Hnd.
  { intros Hd. pose proof (countb_lookup_false _ _ _ _ (wi_draining _ _ _ HI Hd) Hi) as Hf.
    simpl in Hf. by rewrite Nat.eqb_refl in Hf. }
  destruct HI', w as []; simpl in *. split; simpl; try done.
  - rewrite wi_sent0. by rewrite <- !app_assoc.
  - rewrite length_app. simpl. lia.
  - intros Hd. destruct Hnd. by destruct w_run0.
Qed.

Lemma enqueue_step_winv k w c ths i pc send w' c' next :
  winv k w ths -> ths !! i = Some (LogIn k pc) ->
  enqueue_step w c pc send = Some (w', c', next) ->
  winv k w' (<[i := match next with inl pc' => LogIn k pc' | inr q => LogReturned q end]> ths).
Proof.
  intros HI Hi H. pose proof (Nat.eqb_refl k) as Hk. destruct pc; simpl in H.
  - simplify_eq. rewrite <- (setter_wake_id (w <| w_inflight := _ |>)).
    eapply winv_move; [done|done|..]; unfold will_wake; simpl; rewrite ?Hk; try done.
    f_equal. simpl. lia.
  - destruct (w_accepting w) eqn:?; simplify_eq; eapply winv_thread; [done|done|..]; eauto.
  - simplify_eq. eapply winv_thread; [done|done|..]; eauto.
  - destruct send.
    + destruct (Nat.ltb_spec (length (w_queue w)) (w_capacity w)); simplify_eq. by apply winv_send.
    + repeat case_match; simplify_eq; eapply winv_thread; try done; eauto.
  - simplify_eq. eapply winv_thread; [done|done|..]; eauto.
  - simplify_eq. eapply winv_thread; [done|done|..]; eauto.
  - simplify_eq. rewrite <- (setter_wake_id (w <| w_inflight := _ |>)).
    eapply winv_move; [done|done|..]; unfold will_wake; simpl; rewrite ?Hk; try done; eauto.
    f_equal. simpl. lia.
  - simplify_eq. rewrite <- (setter_inflight_id w).
    eapply winv_move; [done|done|..]; unfold will_wake; simpl; rewrite ?Hk; try done; eauto.
    rewrite Z.add_0_r, Z.sub_0_r, (wi_inflight _ _ _ HI). symmetry. apply wraps_idemp.
Qed.
