(* ===== verification/WriterSystem.v ===== *)
(** * The writers and their callers together (src/trail.go)

    The invariant of the whole package state: which writer is current, which
    goroutine closes which writer, and what the process counters count.  From
    it follow the guarantees of [Log] and [Close]: events reach the sink in the
    order they entered the queue and none is lost, [Close] returns after the
    sink was closed exactly once, the counters account for every call, and no
    schedule deadlocks or runs forever. *)

From S2P Require Import Prelude Ids Events Writer.

(** ** Goroutines and writers *)

(** The goroutine holds [global.mu] inside [Close]. *)
Definition closing (t : thread) : bool :=
  match t with CloseSwapped _ | CloseRefusing _ | CloseWaiting _ => true | _ => false end.

(** What a goroutine relies on at the point where it stands. *)
Definition thread_ok (ws : list writer) (t : thread) : Prop :=
  match t with
  | LogLoaded (Some k) _ _ | LogBuild k _ _ | LogIn k _ => is_Some (ws !! k)
  | CloseSwapped k => exists w, ws !! k = Some w /\ w_stop w = false
  | CloseRefusing k => exists w, ws !! k = Some w /\ w_stop w = false /\ w_accepting w = false
  | CloseWaiting k => exists w, ws !! k = Some w /\ w_stop w = true
  | _ => True
  end.

(** The writer [k] belongs to the goroutine [t], which is closing it. *)
Definition closes (k : nat) (t : thread) : bool :=
  match t with
  | CloseSwapped k' | CloseRefusing k' | CloseWaiting k' => Nat.eqb k k'
  | _ => false
  end.

Record ginv (s : world) : Prop := {
  gi_writers : forall k w, g_writers s !! k = Some w -> winv k w (g_threads s);
  gi_threads : forall i t, g_threads s !! i = Some t -> thread_ok (g_writers s) t;
  gi_current : forall k, g_current s = Some k ->
    exists w, g_writers s !! k = Some w /\ w_stop w = false /\ w_accepting w = true;
  gi_mu : countb closing (g_threads s) = if g_mu s then 1%nat else 0%nat;
  gi_held : g_mu s = true -> g_current s = None;
  gi_live : forall k w, g_writers s !! k = Some w ->
    g_current s = Some k \/ (0 < countb (closes k) (g_threads s))%nat \/ w_done w = true
}.

(** ** Frame lemmas *)

(** The writer's fields that other goroutines rely on. *)
Definition flags_kept (w w' : writer) : Prop :=
  w_stop w' = w_stop w /\ w_accepting w' = w_accepting w /\ (w_done w = true -> w_done w' = true).

Lemma publish_flags w c events err : flags_kept w (publish w c events err).1.
Proof.
  destruct (publish_winv_fields w c events err) as (_ & _ & _ & _ & _ & Hs & Hd & _ & Ha & _).
  split_and!; [done|done|congruence].
Qed.

Lemma run_step_flags w c case err w' c' : run_step w c case err = Some (w', c') -> flags_kept w w'.
Proof.
  unfold run_step, run_receive. intros H.
  pose proof (publish_flags w c) as Hp.
  repeat (case_match; simplify_eq/=; try done);
    match goal with
    | E : publish ?w0 ?c0 ?b ?e = (_, _) |- _ =>
        pose proof (publish_flags w0 c0 b e) as Hf; rewrite E in Hf;
        destruct Hf as (? & ? & ?); split_and!; simpl in *; auto
    | |- _ => idtac
    end.
Qed.

Lemma enqueue_step_flags w c pc send w' c' next :
  enqueue_step w c pc send = Some (w', c', next) -> flags_kept w w'.
Proof. intros H. destruct pc; simpl in H; repeat case_match; by simplify_eq/=. Qed.

#[local] Instance flags_kept_refl : Reflexive flags_kept.
Proof. by intros w; split_and!. Qed.

Lemma flags_insert ws k w w' :
  ws !! k = Some w -> flags_kept w w' -> Forall2 flags_kept ws (<[k := w']> ws).
Proof.
  intros Hk Hf. rewrite <- (list_insert_id ws k w) at 1 by done.
  apply Forall2_insert; [|done]. reflexivity.
Qed.

Lemma thread_ok_flags ws ws' t : Forall2 flags_kept ws ws' -> thread_ok ws t -> thread_ok ws' t.
Proof.
  intros Hf. assert (forall k w, ws !! k = Some w -> exists w', ws' !! k = Some w' /\ flags_kept w w').
  { intros k w Hk. eapply Forall2_lookup_l in Hf as (w' & ? & ?); eauto. }
  destruct t as [|[] | | | | | | | | |k|k|k|]; simpl; try done; unfold flags_kept in *.
  1-3: intros [v Hv]; destruct (H _ _ Hv) as (? & -> & _); eauto.
  all: intros (v & Hv & ?); destruct (H _ _ Hv) as (v' & ? & ? & ? & ?); exists v'; intuition congruence.
Qed.

(** An action that keeps the flags of the writers and who is closing what. *)
Lemma ginv_frame s ws' ths' c ids :
  ginv s -> Forall2 flags_kept (g_writers s) ws' ->
  (forall k w', ws' !! k = Some w' -> winv k w' ths') ->
  (forall i t', ths' !! i = Some t' -> thread_ok (g_writers s) t') ->
  countb closing ths' = countb closing (g_threads s) ->
  (forall k, countb (closes k) ths' = countb (closes k) (g_threads s)) ->
  ginv (mkWorld (g_mu s) (g_current s) ws' ths' c ids).
Proof.
  intros [] Hf Hw Ht Hc Hk. split; simpl; try done.
  - intros i t Hi. eapply thread_ok_flags; eauto.
  - intros k Hcur. destruct (gi_current0 k Hcur) as (w & Hkw & Hs & Ha).
    destruct (Forall2_lookup_l _ _ _ _ _ Hf Hkw) as (w' & ? & Hs' & Ha' & _).
    exists w'. split_and!; congruence.
  - congruence.
  - intros k w' Hkw. destruct (Forall2_lookup_r _ _ _ _ _ Hf Hkw) as (w & Hw0 & _ & _ & Hd).
    rewrite Hk. destruct (gi_live0 k w Hw0) as [|[|]]; auto.
Qed.

(** A goroutine that is not closing moves on. *)
Lemma ginv_thread s i t t' ws' c ids :
  ginv s -> g_threads s !! i = Some t -> closing t = false -> closing t' = false ->
  Forall2 flags_kept (g_writers s) ws' -> thread_ok (g_writers s) t' ->
  (forall k w', ws' !! k = Some w' -> winv k w' (<[i := t']> (g_threads s))) ->
  ginv (mkWorld (g_mu s) (g_current s) ws' (<[i := t']> (g_threads s)) c ids).
Proof.
  intros HI Hi Hc Hc' Hf Hok Hw. apply ginv_frame; try done.
  - intros j t0 Hj. destruct (decide (i = j)) as [<-|].
    + rewrite list_lookup_insert_eq in Hj by (eapply lookup_lt_Some; eauto). by simplify_eq.
    + rewrite list_lookup_insert_ne in Hj by done. by eapply gi_threads.
  - eapply countb_insert_eq; [done|congruence].
  - intros k. eapply countb_insert_eq; [done|]. destruct t, t'; simplify_eq/=; done.
Qed.

(** ... and only touches goroutine state. *)
Lemma ginv_move s i t t' c ids :
  ginv s -> g_threads s !! i = Some t -> closing t = false -> closing t' = false ->
  thread_ok (g_writers s) t' ->
  (forall k, in_region k t = false /\ will_wake k t = false /\ in_region k t' = false /\
             may_send k t' = false) ->
  ginv (mkWorld (g_mu s) (g_current s) (g_writers s) (<[i := t']> (g_threads s)) c ids).
Proof.
  intros HI Hi Hc Hc' Hok Hr. eapply ginv_thread; try done.
  intros k w Hk. destruct (Hr k) as (? & ? & ? & ?). eapply winv_other; eauto. by apply gi_writers.
Qed.

(** ** Preservation *)

Lemma world_eta s :
  s = mkWorld (g_mu s) (g_current s) (g_writers s) (g_threads s) (g_counters s) (g_ids s).
Proof. by destruct s. Qed.

Lemma ginv_spawn s t : is_call t = true -> ginv s -> ginv (s <| g_threads := g_threads s ++ [t] |>).
Proof.
  intros Hc HI. rewrite (world_eta s). apply (ginv_frame s); try done; simpl.
  - intros k w Hk. by apply winv_spawn, gi_writers.
  - intros i t' [Hi|(_ & Hi)]%lookup_app_Some; [by eapply gi_threads|].
    apply list_lookup_singleton_Some in Hi as [_ <-]. by destruct t.
  - rewrite countb_app. by destruct t; simplify_eq/=; rewrite Nat.add_0_r.
  - intros k. rewrite countb_app. by destruct t; simplify_eq/=; rewrite Nat.add_0_r.
Qed.

Lemma ginv_run s k case err s' :
  ginv s -> Z.of_nat (length (g_threads s)) < 2 ^ 63 ->
  step_fn (ARun k case err) s = Some s' -> ginv s'.
Proof.
  intros HI Hlen H. simpl in H.
  destruct (g_writers s !! k) as [w|] eqn:Hk; simplify_eq/=.
  destruct (run_step w (g_counters s) case err) as [[w' c']|] eqn:Hr; simplify_eq/=.
  rewrite (world_eta s). apply (ginv_frame s); try done; simpl.
  - eapply flags_insert, run_step_flags; eauto.
  - intros j v Hj. destruct (decide (k = j)) as [<-|].
    + rewrite list_lookup_insert_eq in Hj by (eapply lookup_lt_Some; eauto). simplify_eq.
      eapply run_step_winv; eauto. by apply gi_writers.
    + rewrite list_lookup_insert_ne in Hj by done. by apply gi_writers.
  - intros i t. by apply gi_threads.
Qed.

Lemma ginv_enqueue s i k pc w send w' c' next :
  ginv s -> g_threads s !! i = Some (LogIn k pc) -> g_writers s !! k = Some w ->
  enqueue_step w (g_counters s) pc send = Some (w', c', next) ->
  ginv (set_thread (set_writer (s <| g_counters := c' |>) k w') i
          match next with inl pc' => LogIn k pc' | inr queued => LogReturned queued end).
Proof.
  intros HI Hi Hk He. rewrite (world_eta s). unfold set_thread, set_writer. simpl.
  eapply (ginv_thread s i (LogIn k pc)); try done; simpl.
  - by destruct next.
  - eapply flags_insert, enqueue_step_flags; eauto.
  - by destruct next; simpl; [rewrite Hk; eauto|].
  - intros j v Hj. destruct (decide (k = j)) as [<-|Hne].
    + rewrite list_lookup_insert_eq in Hj by (eapply lookup_lt_Some; eauto). simplify_eq.
      eapply enqueue_step_winv; eauto. by apply gi_writers.
    + rewrite list_lookup_insert_ne in Hj by done.
      assert ((j =? k)%nat = false) as Hjk by (apply Nat.eqb_neq; congruence).
      eapply winv_other; try done; [by apply gi_writers| | | |]; unfold will_wake;
        destruct pc, next as [[]|]; simpl; rewrite ?Hjk; done.
Qed.

(** At most one goroutine is inside the critical section of [Close]. *)
Lemma closing_unique s i j t u :
  ginv s -> g_threads s !! i = Some t -> g_threads s !! j = Some u -> i <> j ->
  closing t = true -> closing u = false.
Proof.
  intros HI Hi Hj Hne Ht. pose proof (gi_mu s HI) as Hmu.
  pose proof (countb_insert closing _ i t (CloseReturned None) Hi) as Hc.
  rewrite Ht in Hc. simpl in Hc.
  assert (countb closing (<[i := CloseReturned None]> (g_threads s)) = 0%nat) as H0
    by (destruct (g_mu s); lia).
  eapply countb_lookup_false; [exact H0|]. by rewrite list_lookup_insert_ne.
Qed.

Lemma closing_held s i t :
  ginv s -> g_threads s !! i = Some t -> closing t = true -> g_mu s = true /\ g_current s = None.
Proof.
  intros HI Hi Ht. assert (g_mu s = true) as Hmu.
  { pose proof (gi_mu s HI) as Hc. destruct (g_mu s); [done|].
    by rewrite (countb_lookup_false _ _ _ _ Hc Hi) in Ht. }
  split; [done|]. by apply gi_held.
Qed.

Lemma thread_ok_closing ws ws' t : closing t = false -> thread_ok ws t ->
  (forall k, is_Some (ws !! k) -> is_Some (ws' !! k)) -> thread_ok ws' t.
Proof. intros Hc Hok H. destruct t as [|[] | | | | | | | | | | | |]; simplify_eq/=; auto. Qed.

Lemma closes_closing k t : closes k t = true -> closing t = true.
Proof. by destruct t. Qed.

Lemma closes_region k t : closes k t = true ->
  forall j, in_region j t = false /\ will_wake j t = false /\ may_send j t = false.
Proof. by destruct t. Qed.

Lemma lookup_inserted {A} (l : list A) i a b : l !! i = Some a -> <[i := b]> l !! i = Some b.
Proof. intros H. apply list_lookup_insert_eq. by eapply lookup_lt_Some. Qed.

(** The goroutine inside [Close] of [k] moves on, updating the writer. *)
Lemma ginv_closing s i t t' k w w' :
  ginv s -> g_threads s !! i = Some t -> closes k t = true -> closes k t' = true ->
  g_writers s !! k = Some w -> w_done w' = w_done w -> winv k w' (g_threads s) ->
  thread_ok (<[k := w']> (g_writers s)) t' ->
  ginv (set_thread (set_writer s k w') i t').
Proof.
  intros HI Hi Hc Hc' Hk Hd Hw Hok.
  pose proof (closes_closing _ _ Hc) as Hcl. pose proof (closes_closing _ _ Hc') as Hcl'.
  destruct (closing_held s i t HI Hi Hcl) as [Hmu Hcur].
  split; simpl.
  - intros j v Hj. assert (winv j v (g_threads s)) as Hv.
    { destruct (decide (k = j)) as [<-|]; [by rewrite (lookup_inserted _ _ w) in Hj; simplify_eq|].
      rewrite list_lookup_insert_ne in Hj by done. by apply gi_writers. }
    destruct (closes_region k t Hc j) as (? & ? & ?), (closes_region k t' Hc' j) as (? & ? & ?).
    by eapply winv_other.
  - intros j u Hj. destruct (decide (i = j)) as [<-|Hne].
    { rewrite (lookup_inserted _ _ t) in Hj by done. by simplify_eq. }
    rewrite list_lookup_insert_ne in Hj by done.
    apply (thread_ok_closing (g_writers s)); [by apply (closing_unique s i j t u)|by eapply gi_threads|].
    intros l [v Hl]. rewrite lookup_lt_is_Some, length_insert.
    by eapply lookup_lt_Some.
  - by rewrite Hcur.
  - rewrite (countb_insert_eq closing _ i t t' Hi) by congruence. by apply gi_mu.
  - by intros _.
  - intros j v Hj. destruct (decide (k = j)) as [<-|Hne].
    + right; left. pose proof (countb_insert (closes k) _ i t t' Hi) as Hn. rewrite Hc, Hc' in Hn.
      destruct (countb (closes k) (g_threads s)) eqn:H0; [|lia].
      by rewrite (countb_lookup_false _ _ _ _ H0 Hi) in Hc.
    + rewrite list_lookup_insert_ne in Hj by done.
      rewrite (countb_insert_eq _ _ _ t); [by apply gi_live|done|].
      destruct t, t'; simpl in *; try done; apply Nat.eqb_eq in Hc, Hc'; by subst.
Qed.

Lemma winv_refuse k w ths : winv k w ths -> winv k (w <| w_accepting := false |>) ths.
Proof. intros []. destruct w as []; simpl in *. by split. Qed.

Lemma winv_stop k w ths :
  winv k w ths -> w_accepting w = false -> winv k (w <| w_stop := true |>) ths.
Proof. intros [] ?. destruct w as []; simpl in *. by split. Qed.

(** [Close] takes the mutex and the current writer. *)
Lemma ginv_swap s i k :
  ginv s -> g_threads s !! i = Some CloseCall -> g_mu s = false -> g_current s = Some k ->
  ginv (set_thread (s <| g_mu := true |> <| g_current := None |>) i (CloseSwapped k)).
Proof.
  intros HI Hi Hmu Hcur. destruct (gi_current s HI k Hcur) as (w & Hk & Hs & Ha).
  split; simpl; try done.
  - intros j v Hj. eapply winv_other; try done. by apply gi_writers.
  - intros j u Hj. destruct (decide (i = j)) as [<-|].
    + rewrite (lookup_inserted _ _ CloseCall) in Hj by done. simplify_eq. by exists w.
    + rewrite list_lookup_insert_ne in Hj by done. by eapply gi_threads.
  - pose proof (gi_mu s HI) as Hc. rewrite Hmu in Hc.
    pose proof (countb_insert closing _ i _ (CloseSwapped k) Hi) as Hn. simpl in Hn. lia.
  - intros j v Hj. right. pose proof (countb_insert (closes j) _ i _ (CloseSwapped k) Hi) as Hn.
    simpl in Hn. destruct (gi_live s HI j v Hj) as [Hc|[Hc|Hc]]; [left|left|by right].
    + simplify_eq. rewrite Nat.eqb_refl in Hn. lia.
    + lia.
Qed.

(** [Close] returns and releases the mutex. *)
Lemma ginv_release s i k w err :
  ginv s -> g_threads s !! i = Some (CloseWaiting k) -> g_writers s !! k = Some w ->
  w_done w = true -> ginv (set_thread (s <| g_mu := false |>) i (CloseReturned err)).
Proof.
  intros HI Hi Hk Hd. destruct (closing_held s i _ HI Hi eq_refl) as [Hmu Hcur].
  split; simpl; try done.
  - intros j v Hj. eapply winv_other; try done. by apply gi_writers.
  - intros j u Hj. destruct (decide (i = j)) as [<-|].
    + rewrite (lookup_inserted _ _ (CloseWaiting k)) in Hj by done. by simplify_eq.
    + rewrite list_lookup_insert_ne in Hj by done. by eapply gi_threads.
  - by apply gi_current.
  - pose proof (gi_mu s HI) as Hc. rewrite Hmu in Hc.
    pose proof (countb_insert closing _ i _ (CloseReturned err) Hi) as Hn. simpl in Hn. lia.
  - intros j v Hj. pose proof (countb_insert (closes j) _ i _ (CloseReturned err) Hi) as Hn.
    simpl in Hn. destruct (Nat.eqb_spec j k) as [->|].
    + right; right. congruence.
    + destruct (gi_live s HI j v Hj) as [?|[Hc|?]]; [by left| |by right; right].
      right; left. lia.
Qed.

(** [Init] installs a new writer. *)
Lemma ginv_init s i cfg cfg' :
  ginv s -> g_threads s !! i = Some (InitCall cfg) -> g_mu s = false -> g_current s = None ->
  normalizeConfig cfg = Ok cfg' ->
  ginv (set_thread (s <| g_current := Some (length (g_writers s)) |>
                      <| g_writers := g_writers s ++ [newWriter cfg'] |>) i (InitReturned None)).
Proof.
  intros HI Hi Hmu Hcur Hcfg. split; simpl.
  - intros j v [Hj|(Hlt & Hj)]%lookup_app_Some.
    + eapply winv_other; try done. by apply gi_writers.
    + apply list_lookup_singleton_Some in Hj as [Hj <-].
      eapply winv_other; [|done..]. apply winv_new; [by apply (normalizeConfig_accepts cfg)|].
      apply Forall_lookup. intros l t Hl. pose proof (gi_threads s HI l t Hl) as Hok.
      destruct t as [| | | |k pc| | | | | | | | |]; try done. simpl in Hok.
      apply lookup_lt_is_Some in Hok. destruct pc; simpl; try done; apply Nat.eqb_neq; lia.
  - intros j u Hj. destruct (decide (i = j)) as [<-|].
    + rewrite (lookup_inserted _ _ (InitCall cfg)) in Hj by done. by simplify_eq.
    + rewrite list_lookup_insert_ne in Hj by done.
      apply (thread_ok_closing (g_writers s)); [|by eapply gi_threads|].
      * pose proof (gi_mu s HI) as Hc. rewrite Hmu in Hc. by eapply countb_lookup_false.
      * intros k [v Hv]. exists v. by apply lookup_app_l_Some.
  - intros k [= <-]. exists (newWriter cfg'). split_and!; try done. apply list_lookup_middle. lia.
  - rewrite (countb_insert_eq closing _ i _ _ Hi) by done. by apply gi_mu.
  - by rewrite Hmu.
  - intros j v [Hj|(Hlt & Hj)]%lookup_app_Some.
    + right. rewrite (countb_insert_eq (closes j) _ i _ _ Hi) by done.
      destruct (gi_live s HI j v Hj) as [Hc|?]; [congruence|done].
    + left. apply list_lookup_singleton_Some in Hj as [Hj _]. f_equal. lia.
Qed.

Ltac solve_move := 
  match goal with
  | HI : ginv ?s, Hi : g_threads ?s !! ?i = Some ?t |- _ =>
      eapply (ginv_move s i t); try done
  end.

Lemma ginv_call s i t choice s' :
  ginv s -> g_threads s !! i = Some t -> thread_step s i t choice = Some s' -> ginv s'.
Proof.
  intros HI Hi H. pose proof (gi_threads s HI i t Hi) as Hok. rewrite (world_eta s) in H.
  destruct t as [kind opts|[k|] kind opts|k kind opts| |k pc|q|m|cfg|err| |k|k|k|err];
    simpl in H; try done.
  - simplify_eq. solve_move. simpl. destruct (g_current s) as [k|] eqn:Hc; [|done].
    destruct (gi_current s HI k Hc) as (w & -> & _). eauto.
  - destruct Hok as [w Hk]. rewrite Hk in H. simpl in H. simplify_eq.
    destruct (w_accepting w); solve_move. simpl. rewrite Hk. eauto.
  - simplify_eq. solve_move.
  - destruct (newEventID _ _) as [ids [id|e|m]]; simplify_eq; solve_move.
  - simplify_eq. solve_move.
  - destruct Hok as [w Hk]. rewrite Hk in H. simpl in H.
    destruct (enqueue_step _ _ _ _) as [[[w' c'] next]|] eqn:He; simplify_eq/=.
    pose proof (ginv_enqueue s i k pc w (tc_send choice) w' c' next HI Hi Hk He) as Hn.
    by rewrite (world_eta s) in Hn.
  - destruct (g_mu s) eqn:Hmu; [done|]. destruct (g_current s) as [k|] eqn:Hcur.
    + simplify_eq. rewrite <- Hmu, <- Hcur. solve_move.
    + destruct (normalizeConfig cfg) as [cfg'|e|m] eqn:Hcfg; simplify_eq.
      * pose proof (ginv_init s i cfg cfg' HI Hi Hmu Hcur Hcfg) as Hn.
        by rewrite (world_eta s), Hmu in Hn.
      * rewrite <- Hmu, <- Hcur. solve_move.
      * rewrite <- Hmu, <- Hcur. solve_move.
  - destruct (g_mu s) eqn:Hmu; [done|]. destruct (g_current s) as [k|] eqn:Hcur; simplify_eq.
    + pose proof (ginv_swap s i k HI Hi Hmu Hcur) as Hn. by rewrite (world_eta s) in Hn.
    + rewrite <- Hmu, <- Hcur. solve_move.
  - destruct Hok as (w & Hk & Hs). rewrite Hk in H. simplify_eq/=. rewrite <- world_eta.
    eapply (ginv_closing s i _ _ k w); eauto; simpl; try apply Nat.eqb_refl; try done.
    + by apply winv_refuse, gi_writers.
    + eexists. by rewrite (lookup_inserted _ _ w).
  - destruct Hok as (w & Hk & Hs & Ha). rewrite Hk in H. simpl in H. rewrite Hs in H.
    simplify_eq/=. rewrite <- world_eta.
    eapply (ginv_closing s i _ _ k w); eauto; simpl; try apply Nat.eqb_refl; try done.
    + apply winv_stop; [by apply gi_writers|done].
    + eexists. by rewrite (lookup_inserted _ _ w).
  - destruct Hok as (w & Hk & Hs). rewrite Hk in H. simpl in H.
    destruct (w_done w) eqn:Hd; simplify_eq/=. rewrite <- world_eta.
    by eapply ginv_release.
Qed.

(** An action of a goroutine changes that goroutine only. *)
Lemma thread_step_threads s i t choice s' :
  thread_step s i t choice = Some s' -> exists t', g_threads s' = <[i := t']> (g_threads s).
Proof.
  intros H. destruct t as [kind opts|[k|] kind opts|k kind opts| |k pc|q|m|cfg|err| |k|k|k|err];
    simpl in H; try (destruct (g_writers s !! k) as [w|]; simpl in H; [|done]);
    try (destruct (enqueue_step _ _ _ _) as [[[] ?]|]; simpl in H; [|done]);
    repeat case_match; simplify_eq; simpl; eauto.
Qed.

(** Calls are never forgotten, so the bound on their number is inherited. *)
Lemma step_threads a s s' : step_fn a s = Some s' -> (length (g_threads s) <= length (g_threads s'))%nat.
Proof.
  intros H. destruct a as [t|i choice|k case err]; simpl in H.
  - case_match; simplify_eq/=. rewrite length_app. lia.
  - destruct (g_threads s !! i) as [t|]; [|done].
    destruct (thread_step_threads _ _ _ _ _ H) as [t' ->]. by rewrite length_insert.
  - destruct (g_writers s !! k); simplify_eq/=. destruct (run_step _ _ _ _) as [[]|]; by simplify_eq/=.
Qed.

Lemma steps_threads s s' : rtc step s s' -> (length (g_threads s) <= length (g_threads s'))%nat.
Proof. induction 1 as [|x y z [b Hb] _ IHx]; [done|]. pose proof (step_threads b x y Hb). lia. Qed.

Lemma ginv_step a s s' :
  ginv s -> Z.of_nat (length (g_threads s)) < 2 ^ 63 -> step_fn a s = Some s' -> ginv s'.
Proof.
  intros HI Hlen H. destruct a as [t|i choice|k case err].
  - simpl in H. destruct (is_call t) eqn:?; simplify_eq. by apply ginv_spawn.
  - simpl in H. destruct (g_threads s !! i) as [t|] eqn:Hi; [|done]. by eapply ginv_call.
  - by eapply ginv_run.
Qed.

Lemma reach_ginv s : reach s -> Z.of_nat (length (g_threads s)) < 2 ^ 63 -> ginv s.
Proof.
  induction 1 as [s ->|s s' Hr IH [a Ha]]; intros Hlen.
  - split; simpl; try done; intros ? ?; by rewrite lookup_nil.
  - pose proof (step_threads a s s' Ha). eapply ginv_step; [apply IH; lia|lia|done].
Qed.

(** ** The counters

    Each process counter is the sum, modulo [2^64], of what every writer and
    every goroutine contributes to it. *)

Inductive gauge := GBuffered | GWritten | GDropped | GErrors.

Definition gauge_value (g : gauge) (c : counters) : Z :=
  match g with
  | GBuffered => c_buffered c
  | GWritten => c_written c
  | GDropped => c_dropped c
  | GErrors => c_publishErrors c
  end.

(** Events a writer holds in memory. *)
Definition held (w : writer) : Z :=
  Z.of_nat (length (w_queue w)) + Z.of_nat (length (run_batch (w_run w))).

Definition writer_share (g : gauge) (w : writer) : Z :=
  match g with
  | GBuffered => held w
  | GWritten => written_events (w_calls w)
  | GDropped => failed_events (w_calls w)
  | GErrors => Z.of_nat (countb call_failed (w_calls w))
  end.

(** The goroutine counted its event in [buffered] and not yet queued it. *)
Definition buffering (t : thread) : bool :=
  match t with LogIn _ (LSelect _ | LUnbuffer) => true | _ => false end.
(** The goroutine's event was queued, respectively counted as dropped. *)
Definition enqueued (t : thread) : bool :=
  match t with LogIn _ (LRelease true | LWake true) | LogReturned true => true | _ => false end.
Definition refused (t : thread) : bool :=
  match t with LogIn _ (LRelease false | LWake false) | LogReturned false => true | _ => false end.

Definition thread_share (g : gauge) (t : thread) : Z :=
  match g with
  | GBuffered => if buffering t then 1 else 0
  | GDropped => if refused t then 1 else 0
  | GWritten | GErrors => 0
  end.

Definition total (g : gauge) (s : world) : Z :=
  sumZ (writer_share g) (g_writers s) + sumZ (thread_share g) (g_threads s).

Definition sent_balance (s : world) : Z :=
  sumZ (fun w => Z.of_nat (length (w_sent w))) (g_writers s) -
  Z.of_nat (countb enqueued (g_threads s)).

Record cinv (s : world) : Prop := {
  ci_gauge : forall g, gauge_value g (g_counters s) = u64 (total g s);
  ci_sent : sent_balance s = 0
}.

Lemma not64_pred n : u64 (not64 (u64 (n - 1))) = u64 (- n).
Proof.
  unfold not64, wrapu. rewrite Zmod_mod.
  replace (2 ^ 64 - 1 - (n - 1) mod 2 ^ 64) with (-1 - (n - 1) mod 2 ^ 64 + 1 * 2 ^ 64) by lia.
  rewrite Z_mod_plus_full, Zminus_mod_idemp_r. f_equal. lia.
Qed.

Lemma u64_sub B n : u64 (B + not64 (u64 (u64 n - 1))) = u64 (B - n).
Proof.
  replace (u64 (u64 n - 1)) with (u64 (n - 1)) by (symmetry; apply Zminus_mod_idemp_l).
  by rewrite <- wrapu_add_r, not64_pred, wrapu_add_r.
Qed.

Lemma written_events_snoc calls call :
  written_events (calls ++ [call]) =
    written_events calls + if call_failed call then 0 else Z.of_nat (length (call_events call)).
Proof. unfold written_events. rewrite sumZ_app. simpl. lia. Qed.

Lemma failed_events_snoc calls call :
  failed_events (calls ++ [call]) =
    failed_events calls + if call_failed call then Z.of_nat (length (call_events call)) else 0.
Proof. unfold failed_events. rewrite sumZ_app. simpl. lia. Qed.

(** [publish] moves the batch from [buffered] to [written] or [dropped]. *)
Lemma publish_gauge g w c events err w' c' B :
  publish w c events err = (w', c') -> gauge_value g c = u64 B ->
  gauge_value g c' = u64 (B + match g with
    | GBuffered => - Z.of_nat (length events)
    | _ => writer_share g w' - writer_share g w
    end).
Proof.
  intros Hp HB. pose proof (publish_winv_fields w c events err) as Hf. rewrite Hp in Hf. simpl in Hf.
  assert (Hcalls : w_calls w' = w_calls w ++ [SinkWrite (mkBatch (w_metadata w) events) err])
    by apply Hf.
  clear Hf. destruct g; simpl in *;
    rewrite ?Hcalls, ?written_events_snoc, ?failed_events_snoc, ?countb_app;
    unfold publish in Hp; destruct err as [e|]; simplify_eq; simpl in *; rewrite HB.
  all: rewrite ?wrapu_add_l, ?wrapu_add_r, ?u64_sub; f_equal; lia.
Qed.

(** What [run] does after a publication, or without one. *)
Definition accounted (g : gauge) (w : writer) (B : Z) (w' : writer) (c' : counters) : Prop :=
  gauge_value g c' = u64 (B + writer_share g w' - writer_share g w) /\ w_sent w' = w_sent w.

Lemma publish_accounted g w c q events err r w1 c1 B :
  publish (w <| w_queue := q |>) c events err = (w1, c1) -> gauge_value g c = u64 B ->
  run_batch r = [] -> Z.of_nat (length q) + Z.of_nat (length events) = held w ->
  accounted g w B (w1 <| w_run := r |>) c1.
Proof.
  intros Hp HB Hr Hh. pose proof (publish_gauge g _ _ _ _ _ _ B Hp HB) as Hg.
  pose proof (publish_winv_fields (w <| w_queue := q |>) c events err) as Hf. rewrite Hp in Hf.
  destruct_and! Hf. simpl in *. split; [|done]. rewrite Hg. f_equal.
  destruct g; simpl; try lia. unfold held in *. simpl. rewrite Hr.
  match goal with E : w_queue w1 = _ |- _ => rewrite E end. simpl. lia.
Qed.

Lemma same_accounted g w c w' B :
  gauge_value g c = u64 B -> held w' = held w -> w_calls w' = w_calls w -> w_sent w' = w_sent w ->
  accounted g w B w' c.
Proof. intros HB Hh Hc Hs. split; [|done]. rewrite HB. f_equal. destruct g; simpl; rewrite ?Hc; lia. Qed.

Lemma receive_accounted g w c batch ev q err next B :
  gauge_value g c = u64 B -> (forall b, run_batch (next b) = b) ->
  w_queue w = ev :: q -> run_batch (w_run w) = batch ->
  accounted g w B (run_receive w c batch ev q err next).1 (run_receive w c batch ev q err next).2.
Proof.
  intros HB Hn Hq Hb. unfold run_receive.
  assert (Z.of_nat (length q) + Z.of_nat (length (batch ++ [ev])) = held w) as Hh.
  { unfold held. rewrite Hq, Hb, length_app. simpl. lia. }
  case_match.
  - destruct (publish _ _ _ _) as [w1 c1] eqn:Ep. by eapply publish_accounted; eauto.
  - apply same_accounted; try done. rewrite <- Hh. unfold held. simpl. by rewrite Hn.
Qed.

(** One action of the writer goroutine changes every counter by the change of
    the writer's share, and sends nothing. *)
Lemma run_step_gauge g w c case err w' c' B :
  run_step w c case err = Some (w', c') -> gauge_value g c = u64 B -> accounted g w B w' c'.
Proof.
  intros H HB. unfold run_step in H.
  destruct (w_run w) as [b|b|b|b| | |] eqn:Hr; [destruct case| | | | | |]; simpl in H.
  all: try (by repeat case_match; simplify_eq; apply same_accounted; unfold held; simpl; rewrite ?Hr).
  - destruct (w_queue w) as [|ev q] eqn:Hq; [done|]. injection H as H.
    pose proof (receive_accounted g w c b ev q err RSelect B HB) as Ha. rewrite H in Ha.
    apply Ha; try done. by rewrite Hr.
  - case_match; [by simplify_eq; apply same_accounted|].
    rewrite <- (setter_id w) in H. destruct (publish _ _ _ _) as [w1 c1] eqn:Ep. simplify_eq.
    eapply publish_accounted; eauto. unfold held. by rewrite Hr.
  - destruct (w_queue w) as [|ev q] eqn:Hq.
    + destruct (Nat.eqb_spec (length b) 0).
      * simplify_eq. apply same_accounted; try done. unfold held. rewrite Hr. simpl. lia.
      * rewrite <- (setter_id w) in H. destruct (publish _ _ _ _) as [w1 c1] eqn:Ep. simplify_eq.
        eapply publish_accounted; eauto. unfold held. by rewrite Hr.
    + injection H as H. pose proof (receive_accounted g w c b ev q err RDrain B HB) as Ha.
      rewrite H in Ha. apply Ha; try done. by rewrite Hr.
  - simplify_eq. split; [|by destruct err]. rewrite HB. f_equal.
    destruct g; simpl; unfold held; destruct err; simpl; rewrite ?Hr; simpl;
      rewrite ?written_events_snoc, ?failed_events_snoc, ?countb_app; simpl; lia.
Qed.

(** One action inside [enqueue] moves the counters by the change of the
    writer's and the goroutine's shares. *)
Lemma enqueue_step_gauge g k w c pc send w' c' next B :
  let t' := match next with inl pc' => LogIn k pc' | inr q => LogReturned q end in
  enqueue_step w c pc send = Some (w', c', next) -> gauge_value g c = u64 B ->
  gauge_value g c' = u64 (B + (writer_share g w' - writer_share g w) +
                          (thread_share g t' - thread_share g (LogIn k pc))) /\
  Z.of_nat (length (w_sent w')) - Z.of_nat (length (w_sent w)) =
    (if enqueued t' then 1 else 0) - (if enqueued (LogIn k pc) then 1 else 0).
Proof.
  intros t' H HB. subst t'.
  destruct pc; simpl in H; repeat case_match; simplify_eq; destruct g; simpl in *;
    unfold held in *; simpl; rewrite ?HB, ?length_app; simpl; try case_match; simpl;
    (split; [|lia]); rewrite ?wrapu_add_l; try (f_equal; lia).
  all: change (not64 0) with (not64 (u64 (u64 1 - 1))); rewrite u64_sub; f_equal; lia.
Qed.

Lemma countb_sumZ {A} (f : A -> bool) l : Z.of_nat (countb f l) = sumZ (fun a => if f a then 1 else 0) l.
Proof. induction l as [|a l IH]; simpl; [done|]. rewrite <- IH. destruct (f a); lia. Qed.

(** An action that changes the goroutine [i] and the counters. *)
Lemma cinv_thread s i t t' mu cur ids c' :
  cinv s -> g_threads s !! i = Some t -> enqueued t' = enqueued t ->
  (forall g B, gauge_value g (g_counters s) = u64 B ->
     gauge_value g c' = u64 (B + (thread_share g t' - thread_share g t))) ->
  cinv (mkWorld mu cur (g_writers s) (<[i := t']> (g_threads s)) c' ids).
Proof.
  intros [Hg Hs] Hi He Hc. split.
  - intros g. simpl. rewrite (Hc g _ (Hg g)). unfold total. simpl.
    rewrite (sumZ_insert _ _ _ t) by done. f_equal. lia.
  - unfold sent_balance in *. simpl. by rewrite (countb_insert_eq enqueued _ i t t' Hi He).
Qed.

(** ... that leaves the counters alone. *)
Lemma cinv_move s i t t' mu cur ids :
  cinv s -> g_threads s !! i = Some t -> enqueued t' = enqueued t ->
  (forall g, thread_share g t' = thread_share g t) ->
  cinv (mkWorld mu cur (g_writers s) (<[i := t']> (g_threads s)) (g_counters s) ids).
Proof.
  intros HI Hi He Hg. eapply cinv_thread; eauto. intros g B ->. rewrite Hg. f_equal. lia.
Qed.

(** ... that changes a writer in a way the counters do not see. *)
Lemma cinv_writer s k w w' :
  cinv s -> g_writers s !! k = Some w -> (forall g, writer_share g w' = writer_share g w) ->
  w_sent w' = w_sent w -> cinv (set_writer s k w').
Proof.
  intros [Hg Hs] Hk Hw He. split; unfold total, sent_balance in *; simpl.
  - intros g. rewrite (sumZ_insert _ _ _ w), Hw, Hg by done. f_equal. lia.
  - rewrite (sumZ_insert _ _ _ w), He by done. lia.
Qed.

Lemma cinv_run s k case err s' : cinv s -> step_fn (ARun k case err) s = Some s' -> cinv s'.
Proof.
  intros [Hg Hs] H. simpl in H. destruct (g_writers s !! k) as [w|] eqn:Hk; simplify_eq/=.
  destruct (run_step w (g_counters s) case err) as [[w' c']|] eqn:Hr; simplify_eq/=.
  split; unfold total, sent_balance in *; simpl.
  - intros g. destruct (run_step_gauge g _ _ _ _ _ _ _ Hr (Hg g)) as [-> _].
    rewrite (sumZ_insert _ _ _ w) by done. f_equal. lia.
  - destruct (run_step_gauge GErrors _ _ _ _ _ _ _ Hr (Hg GErrors)) as [_ He].
    rewrite (sumZ_insert _ _ _ w), He by done. lia.
Qed.

Lemma cinv_enqueue s i k pc w send w' c' next :
  cinv s -> g_threads s !! i = Some (LogIn k pc) -> g_writers s !! k = Some w ->
  enqueue_step w (g_counters s) pc send = Some (w', c', next) ->
  cinv (set_thread (set_writer (s <| g_counters := c' |>) k w') i
          match next with inl pc' => LogIn k pc' | inr queued => LogReturned queued end).
Proof.
  intros [Hg Hs] Hi Hk He. split; unfold total, sent_balance in *; simpl.
  - intros g. destruct (enqueue_step_gauge g k _ _ _ _ _ _ _ _ He (Hg g)) as [-> _].
    rewrite (sumZ_insert _ _ _ w), (sumZ_insert _ _ _ (LogIn k pc)) by done. f_equal. lia.
  - destruct (enqueue_step_gauge GErrors k _ _ _ _ _ _ _ _ He (Hg GErrors)) as [_ Hq].
    rewrite countb_sumZ in *.
    rewrite (sumZ_insert _ _ _ w), (sumZ_insert _ _ _ (LogIn k pc)) by done.
    cbv beta. lia.
Qed.

Lemma cinv_new s cur cfg :
  cinv s -> cinv (s <| g_current := cur |> <| g_writers := g_writers s ++ [newWriter cfg] |>).
Proof.
  intros [Hg Hs]. split; unfold total, sent_balance in *; simpl.
  - intros g. rewrite sumZ_app, Hg. simpl.
    replace (writer_share g (newWriter cfg)) with 0 by by destruct g. f_equal. lia.
  - rewrite sumZ_app. simpl. lia.
Qed.

Ltac solve_cmove :=
  match goal with
  | HI : cinv ?s, Hi : g_threads ?s !! ?i = Some ?t |- _ =>
      eapply (cinv_move s i t); try done; by intros []
  end.

Lemma cinv_call s i t choice s' :
  cinv s -> g_threads s !! i = Some t -> thread_step s i t choice = Some s' -> cinv s'.
Proof.
  intros HI Hi H. rewrite (world_eta s) in H.
  destruct t as [kind opts|[k|] kind opts|k kind opts| |k pc|q|m|cfg|err| |k|k|k|err];
    simpl in H; try done;
    try (destruct (g_writers s !! k) as [w|] eqn:Hk; simpl in H; [|done]).
  - simplify_eq. solve_cmove.
  - simplify_eq. case_match; solve_cmove.
  - simplify_eq. solve_cmove.
  - destruct (newEventID _ _) as [ids [id|e|m]]; simplify_eq; solve_cmove.
  - simplify_eq. eapply (cinv_thread s i LogRefused); [done|done|done|].
    intros [] B HB; simpl in *; rewrite HB, ?wrapu_add_l; f_equal; lia.
  - destruct (enqueue_step _ _ _ _) as [[[w' c'] next]|] eqn:He; simplify_eq/=.
    pose proof (cinv_enqueue s i k pc w (tc_send choice) w' c' next HI Hi Hk He) as Hn.
    by rewrite (world_eta s) in Hn.
  - destruct (g_mu s) eqn:Hmu; [done|]. destruct (g_current s) as [k|] eqn:Hcur.
    + simplify_eq. solve_cmove.
    + destruct (normalizeConfig cfg) as [cfg'|e|m] eqn:Hcfg; simplify_eq; try solve_cmove.
      exact (cinv_move (s <| g_current := None |> <| g_writers := g_writers s ++ [newWriter cfg'] |>)
        i (InitCall cfg) (InitReturned None) false (Some (length (g_writers s))) (g_ids s)
        (cinv_new s None cfg' HI) Hi eq_refl ltac:(by intros [])).
  - destruct (g_mu s) eqn:Hmu; [done|]. destruct (g_current s); simplify_eq; solve_cmove.
  - simplify_eq/=. assert (cinv (set_writer s k (w <| w_accepting := false |>))) as Hn
      by (eapply cinv_writer; try done; by intros []).
    exact (cinv_move _ i (CloseSwapped k) (CloseRefusing k) (g_mu s) (g_current s) (g_ids s)
      Hn Hi eq_refl ltac:(by intros [])).
  - case_match; simplify_eq/=; [solve_cmove|].
    assert (cinv (set_writer s k (w <| w_stop := true |>))) as Hn
      by (eapply cinv_writer; try done; by intros []).
    exact (cinv_move _ i (CloseRefusing k) (CloseWaiting k) (g_mu s) (g_current s) (g_ids s)
      Hn Hi eq_refl ltac:(by intros [])).
  - case_match; simplify_eq. solve_cmove.
Qed.

Lemma reach_cinv s : reach s -> cinv s.
Proof.
  apply reachable_invariant.
  - intros s0 ->. split; [by intros []|done].
  - intros s0 s1 HI [a Ha]. destruct a as [t|i choice|k case err].
    + simpl in Ha. destruct (is_call t) eqn:Hc; simplify_eq. destruct HI as [Hg Hs].
      split; unfold total, sent_balance in *; simpl.
      * intros g. rewrite sumZ_app, Hg. f_equal. destruct g, t; simplify_eq/=; lia.
      * rewrite countb_app. destruct t; simplify_eq/=; lia.
    + simpl in Ha. destruct (g_threads s0 !! i) as [t|] eqn:Hi; [|done]. by eapply cinv_call.
    + by eapply cinv_run.
Qed.

(** ** Guarantees *)

(** The goroutine counts below are exact while fewer than [2^63] calls were made. *)
Abbreviation few_calls s := (Z.of_nat (length (g_threads s)) < 2 ^ 63).

(** C1.  No event is lost, duplicated or reordered: in every reachable state the
    events that entered a writer's queue are, in order, those handed to the sink,
    then the current batch, then the queue.  The queue never exceeds the
    configured capacity, the batch stays below the batch size, and every call of
    [WriteBatch] carries the writer's metadata and 1 to [BatchSize] events. *)
Theorem writer_conserves_events (s : world) (k : nat) (w : writer) :
  reach s -> few_calls s -> g_writers s !! k = Some w ->
  w_sent w = published (w_calls w) ++ run_batch (w_run w) ++ w_queue w /\
  (length (w_queue w) <= w_capacity w)%nat /\
  (length (run_batch (w_run w)) < w_batchSize w)%nat /\
  Forall (call_ok w) (w_calls w).
Proof.
  intros Hr Hlen Hk. destruct (gi_writers s (reach_ginv s Hr Hlen) k w Hk). by split_and!.
Qed.

(** A finished writer never changes its history again. *)
Lemma done_frozen a s s' k w :
  ginv s -> few_calls s -> g_writers s !! k = Some w -> w_run w = RDone -> step_fn a s = Some s' ->
  exists w', g_writers s' !! k = Some w' /\ w_run w' = RDone /\
    w_calls w' = w_calls w /\ w_sent w' = w_sent w.
Proof.
  intros HI Hlen Hk Hrun H. destruct a as [t|i choice|j case err]; simpl in H.
  - case_match; simplify_eq/=. by exists w.
  - destruct (g_threads s !! i) as [t|] eqn:Hi; [|done].
    destruct t as [kind opts|[j|] kind opts|j kind opts| |j pc|q|m|cfg|err| |j|j|j|err]; simpl in H;
      try (destruct (g_writers s !! j) as [v|] eqn:Hj; simpl in H; [|done]);
      try (repeat case_match; simplify_eq; simpl; rewrite ?lookup_app, ?Hk; by eauto).
    + destruct (enqueue_step _ _ _ _) as [[[v' c'] next]|] eqn:He; simplify_eq/=.
      destruct (decide (j = k)) as [->|].
      2: { rewrite list_lookup_insert_ne by done. by eauto. }
      rewrite (lookup_inserted _ _ v) by done. simplify_eq.
      pose proof (wi_draining _ _ _ (gi_writers s HI k w Hk)) as Hd. rewrite Hrun in Hd.
      pose proof (countb_lookup_false _ _ _ _ (Hd eq_refl) Hi) as Hf.
      exists v'. destruct pc; simpl in He, Hf; rewrite ?Nat.eqb_refl in Hf;
        repeat case_match; simplify_eq/=; done.
    + simplify_eq/=. destruct (decide (j = k)) as [->|].
      * rewrite (lookup_inserted _ _ v) by done. simplify_eq. eauto.
      * rewrite list_lookup_insert_ne by done. eauto.
    + case_match; simplify_eq/=; [by eauto|]. destruct (decide (j = k)) as [->|].
      * rewrite (lookup_inserted _ _ v) by done. simplify_eq. eauto.
      * rewrite list_lookup_insert_ne by done. eauto.
  - destruct (g_writers s !! j) as [v|] eqn:Hj; simpl in H; [|done].
    destruct (run_step _ _ _ _) as [[v' c']|] eqn:Hr; simplify_eq/=.
    destruct (decide (j = k)) as [->|].
    + simplify_eq. unfold run_step in Hr. by rewrite Hrun in Hr.
    + rewrite list_lookup_insert_ne by done. eauto.
Qed.

Lemma done_frozen_steps s s' k w :
  rtc step s s' -> reach s -> few_calls s' -> g_writers s !! k = Some w -> w_run w = RDone ->
  exists w', g_writers s' !! k = Some w' /\ w_calls w' = w_calls w /\ w_sent w' = w_sent w.
Proof.
  intros Hs. revert w. induction Hs as [s|s s1 s' [a Ha] Hs IH]; intros w Hr Hlen Hk Hrun; [by eauto|].
  pose proof (steps_threads _ _ Hs). pose proof (step_threads a s s1 Ha).
  destruct (done_frozen a s s1 k w) as (w1 & Hk1 & Hr1 & Hc1 & Hs1); try done;
    [apply reach_ginv; [done|lia]|lia|].
  destruct (IH w1) as (w' & ? & ? & ?); try done.
  - eapply reachable_step; [done|]. by exists a.
  - exists w'. by rewrite <- Hc1, <- Hs1.
Qed.

(** A writer whose [Close] has returned at goroutine [i]: everything it took has been
    given to its sink, which was closed last; [later] has the same of it. *)
Definition closed_out (s later : world) (i k : nat) : Prop :=
  exists w writes closeErr,
    g_writers s !! k = Some w /\
    published (w_calls w) = w_sent w /\
    w_calls w = writes ++ [SinkClose closeErr] /\ Forall (fun c => is_write c = true) writes /\
    g_threads s !! i = Some (CloseReturned (errors_Join (first_error (w_calls w)) closeErr)) /\
    exists w'', g_writers later !! k = Some w'' /\ w_calls w'' = w_calls w /\ w_sent w'' = w_sent w.

Lemma close_drained (s s' s'' : world) (i k : nat) (choice : thread_choice) :
  reach s -> few_calls s'' -> g_threads s !! i = Some (CloseWaiting k) ->
  step_fn (AThread i choice) s = Some s' -> rtc step s' s'' -> closed_out s' s'' i k.
Proof.
  intros Hr Hlen Hi Hstep Hs. unfold closed_out.
  assert (Hr' : reach s') by (eapply reachable_step; [done|]; by exists (AThread i choice)).
  assert (few_calls s) as Hlen0.
  { pose proof (steps_threads _ _ Hs). pose proof (step_threads _ _ _ Hstep). lia. }
  pose proof (reach_ginv s Hr Hlen0) as HI.
  simpl in Hstep. rewrite Hi in Hstep. simpl in Hstep.
  destruct (g_writers s !! k) as [w|] eqn:Hk; [|done]. simpl in Hstep.
  destruct (w_done w) eqn:Hd; simplify_eq.
  pose proof (gi_writers s HI k w Hk) as Hw. pose proof (wi_done _ _ _ Hw) as Hdone.
  rewrite Hd in Hdone. destruct (w_run w) eqn:Hrun; try done.
  destruct (wi_close _ _ _ Hw) as (ws & Hws & Hcalls).
  pose proof (wi_sent _ _ _ Hw) as Hsent. pose proof (wi_drained _ _ _ Hw) as Hq.
  rewrite Hrun in *. simpl in *. rewrite (Hq eq_refl), app_nil_r in Hsent.
  exists w, ws, (w_closeErr w). split_and!; try done.
  - rewrite (lookup_inserted _ _ (CloseWaiting k)) by done. by rewrite (wi_err _ _ _ Hw).
  - by eapply done_frozen_steps.
Qed.

(** C2.  When [Close] returns, every event that entered the queue has been given
    to the sink in order, the sink has been closed exactly once and last, and the
    result joins the first publication error with the error of [Sink.Close].  No
    later action of any goroutine sends to that writer or calls its sink. *)
Theorem close_drains (s s' s'' : world) (i k : nat) (choice : thread_choice) :
  reach s -> few_calls s'' -> g_threads s !! i = Some (CloseWaiting k) ->
  step_fn (AThread i choice) s = Some s' -> rtc step s' s'' ->
  exists w writes closeErr,
    g_writers s' !! k = Some w /\
    published (w_calls w) = w_sent w /\
    w_calls w = writes ++ [SinkClose closeErr] /\ Forall (fun c => is_write c = true) writes /\
    g_threads s' !! i = Some (CloseReturned (errors_Join (first_error (w_calls w)) closeErr)) /\
    exists w'', g_writers s'' !! k = Some w'' /\ w_calls w'' = w_calls w /\ w_sent w'' = w_sent w.
Proof. apply close_drained. Qed.

(** The counters of [Stats] account for every event: [Buffered] counts the
    events held by the writers and by callers inside [enqueue], [Written] the
    events of successful publications, [PublishErrors] the failed publications,
    and [Dropped] their events plus one per refused call; the calls that
    enqueued are as many as the events sent.  All modulo [2^64]. *)
Lemma counters_account (s : world) :
  reach s ->
  let c := g_counters s in
  c_buffered c =
    u64 (sumZ held (g_writers s) + Z.of_nat (countb buffering (g_threads s))) /\
  c_written c = u64 (sumZ (fun w => written_events (w_calls w)) (g_writers s)) /\
  c_dropped c = u64 (sumZ (fun w => failed_events (w_calls w)) (g_writers s) +
                     Z.of_nat (countb refused (g_threads s))) /\
  c_publishErrors c =
    u64 (sumZ (fun w => Z.of_nat (countb call_failed (w_calls w))) (g_writers s)) /\
  sumZ (fun w => Z.of_nat (length (w_sent w))) (g_writers s) =
    Z.of_nat (countb enqueued (g_threads s)).
Proof.
  intros Hr c. destruct (reach_cinv s Hr) as [Hg Hs]. unfold total in Hg.
  assert (Hz : forall g, g = GWritten \/ g = GErrors -> sumZ (thread_share g) (g_threads s) = 0)
    by by intros g [-> | ->]; apply sumZ_zero.
  split_and!.
  - by rewrite countb_sumZ, (Hg GBuffered : c_buffered c = _).
  - rewrite (Hg GWritten : c_written c = _). rewrite Hz by auto. f_equal. apply Z.add_0_r.
  - by rewrite countb_sumZ, (Hg GDropped : c_dropped c = _).
  - rewrite (Hg GErrors : c_publishErrors c = _). rewrite Hz by auto. f_equal. apply Z.add_0_r.
  - unfold sent_balance in Hs. lia.
Qed.

(** A live writer is the current one or the one being closed. *)
Lemma live_unique s k k' w w' :
  ginv s -> g_writers s !! k = Some w -> g_writers s !! k' = Some w' ->
  w_done w = false -> w_done w' = false -> k = k'.
Proof.
  intros HI Hk Hk' Hd Hd'.
  assert (Hex : forall j v, g_writers s !! j = Some v -> w_done v = false ->
    g_current s = Some j \/ exists i t, g_threads s !! i = Some t /\ closes j t = true).
  { intros j v Hj Hdj. destruct (gi_live s HI j v Hj) as [?|[Hc|?]]; [by left| |congruence].
    right. apply countb_pos in Hc as (i & t & ? & ?). eauto. }
  destruct (Hex k w Hk Hd) as [Hc|(i & t & Hi & Ht)], (Hex k' w' Hk' Hd') as [Hc'|(i' & t' & Hi' & Ht')].
  - congruence.
  - destruct (closing_held s i' t' HI Hi'); [by eapply closes_closing|congruence].
  - destruct (closing_held s i t HI Hi); [by eapply closes_closing|congruence].
  - destruct (decide (i = i')) as [->|Hne].
    + simplify_eq. destruct t; simpl in *; try done; apply Nat.eqb_eq in Ht, Ht'; congruence.
    + pose proof (closing_unique s i i' t t' HI Hi Hi' Hne (closes_closing _ _ Ht)) as Hf.
      by rewrite (closes_closing _ _ Ht') in Hf.
Qed.

(** At most one writer goroutine is alive.  While a writer is current,
    [Init] returns [ErrAlreadyInitialized] and changes nothing else; an [Init]
    that installs a writer finds every earlier one finished; and [close(w.stop)]
    is never reached on a closed channel. *)
Lemma single_writer (s : world) :
  reach s -> few_calls s ->
  (forall k k' w w', g_writers s !! k = Some w -> g_writers s !! k' = Some w' ->
     w_done w = false -> w_done w' = false -> k = k') /\
  (forall i cfg choice s' k, g_threads s !! i = Some (InitCall cfg) ->
     step_fn (AThread i choice) s = Some s' -> g_current s = Some k ->
     s' = set_thread s i (InitReturned (Some ErrAlreadyInitialized))) /\
  (forall i cfg choice s' k w, g_threads s !! i = Some (InitCall cfg) ->
     step_fn (AThread i choice) s = Some s' -> g_threads s' !! i = Some (InitReturned None) ->
     g_writers s !! k = Some w -> w_done w = true) /\
  (forall i k w, g_threads s !! i = Some (CloseRefusing k) -> g_writers s !! k = Some w ->
     w_stop w = false).
Proof.
  intros Hr Hlen. pose proof (reach_ginv s Hr Hlen) as HI. split_and!.
  - intros k k' w w'. by apply live_unique.
  - intros i cfg choice s' k Hi H Hc. simpl in H. rewrite Hi in H. simpl in H.
    destruct (g_mu s); [done|]. rewrite Hc in H. by simplify_eq.
  - intros i cfg choice s' k w Hi H Hret Hk. simpl in H. rewrite Hi in H. simpl in H.
    destruct (g_mu s) eqn:Hmu; [done|]. pose proof (gi_mu s HI) as Hc. rewrite Hmu in Hc.
    destruct (g_current s) eqn:Hcur.
    + simplify_eq/=. by rewrite (lookup_inserted _ _ (InitCall cfg)) in Hret.
    + destruct (gi_live s HI k w Hk) as [?|[(j & t & Hj & Ht)%countb_pos|?]]; [congruence| |done].
      apply closes_closing in Ht. by rewrite (countb_lookup_false _ _ _ _ Hc Hj) in Ht.
  - intros i k w Hi Hk. destruct (gi_threads s HI _ _ Hi) as (v & ? & ? & ?). congruence.
Qed.
