(* ===== verification/WriterLiveness.v ===== *)
(** * Progress of the writer (src/trail.go)

    No schedule of [Log], [Init], [Close] and [run] deadlocks or runs forever:
    a measure decreases with every action except the arrival of a new call and
    the tick of an idle writer, and a state where no other action is possible
    has every call returned and every accepted event delivered.  In particular
    [Close] returns, because some goroutine can always move until it does. *)

From S2P Require Import Prelude Ids Events Writer WriterSystem.

(** ** A measure of the work left *)

Definition log_work (pc : log_pc) : Z :=
  match pc with
  | LEnter _ => 10 | LCheck _ => 9 | LBuffer _ => 8 | LSelect _ => 7
  | LUnbuffer => 6 | LDrop => 5 | LRelease _ => 4 | LWake _ => 3
  end.

Definition thread_work (t : thread) : Z :=
  match t with
  | LogCall _ _ => 13 | LogLoaded _ _ _ => 12 | LogBuild _ _ _ => 11 | LogRefused => 1
  | LogIn _ pc => log_work pc
  | InitCall _ => 7
  | CloseCall => 4 | CloseSwapped _ => 3 | CloseRefusing _ => 2 | CloseWaiting _ => 1
  | LogReturned _ | LogPanicked _ | InitReturned _ | CloseReturned _ => 0
  end.

Definition run_work (r : run_pc) : Z :=
  match r with
  | RSelect _ => 6 | RWait _ => 5 | RBlock _ => 4 | RDrain _ => 3
  | RClose => 2 | RExit => 1 | RDone => 0
  end.

(** An event still to be received counts twice, one still to be published once. *)
Definition writer_work (w : writer) : Z :=
  2 * Z.of_nat (length (w_queue w)) + Z.of_nat (length (run_batch (w_run w))) +
  run_work (w_run w) + if w_wake w then 2 else 0.

Definition work (s : world) : Z :=
  sumZ writer_work (g_writers s) + sumZ thread_work (g_threads s).

(** ** Actions that make progress *)

(** Every action except a new call and the tick of an idle writer. *)
Definition productive (a : action) (s : world) : bool :=
  match a with
  | ASpawn _ => false
  | AThread _ _ => true
  | ARun k CaseTick _ =>
      match g_writers s !! k with
      | Some w => match w_run w with RSelect [] => false | _ => true end
      | None => false
      end
  | ARun _ _ _ => true
  end.

Definition progress (s s' : world) : Prop :=
  exists a, productive a s = true /\ step_fn a s = Some s'.

(** The work left in a writer with queue [q], standing at [r]. *)
Definition work_at (w : writer) (q : list Event) (r : run_pc) : Z :=
  2 * Z.of_nat (length q) + Z.of_nat (length (run_batch r)) + run_work r +
  if w_wake w then 2 else 0.

Lemma publish_work w c q events err r w1 c1 :
  publish (w <| w_queue := q |>) c events err = (w1, c1) ->
  writer_work (w1 <| w_run := r |>) = work_at w q r.
Proof.
  intros Hp. pose proof (publish_winv_fields (w <| w_queue := q |>) c events err) as Hf.
  rewrite Hp in Hf. destruct Hf as (_ & _ & _ & _ & Hq & _ & _ & Hw & _).
  unfold writer_work, work_at. simpl in *. by rewrite Hq, Hw.
Qed.

Lemma receive_work w c batch ev q err next :
  run_batch (w_run w) = batch -> w_queue w = ev :: q ->
  (forall b, run_batch (next b) = b) -> (forall b, run_work (next b) = run_work (w_run w)) ->
  writer_work (run_receive w c batch ev q err next).1 < writer_work w.
Proof.
  intros Hb Hq Hn Hw. unfold run_receive.
  replace (writer_work w) with (work_at w (ev :: q) (w_run w))
    by by (unfold writer_work, work_at; rewrite Hq).
  case_match.
  - destruct (publish _ _ _ _) as [w1 c1] eqn:Ep. simpl.
    rewrite (publish_work _ _ _ _ _ _ _ _ Ep). unfold work_at. rewrite Hn, Hw, Hb. simpl. lia.
  - unfold work_at, writer_work. simpl. rewrite Hn, Hw, Hb, length_app. simpl. lia.
Qed.

Ltac work_lia :=
  unfold writer_work, work_at; cbn -[Z.mul Z.add Z.of_nat];
  repeat match goal with E : w_queue _ = _ |- _ => rewrite E end;
  repeat match goal with E : w_wake _ = _ |- _ => rewrite E end;
  rewrite ?length_app; cbn [length];
  repeat match goal with |- context [if w_wake ?w then _ else _] => destruct (w_wake w) end; lia.

Lemma run_step_work w c case err w' c' :
  run_step w c case err = Some (w', c') ->
  match case, w_run w with CaseTick, RSelect [] => False | _, _ => True end ->
  writer_work w' < writer_work w.
Proof.
  intros H Hidle. unfold run_step in H.
  assert (Hw : writer_work w = work_at w (w_queue w) (w_run w)) by done.
  destruct (w_run w) as [b|b|b|b| | |] eqn:Hr; [destruct case| | | | | |]; simpl in H.
  - destruct (w_queue w) as [|ev q] eqn:Hq; [done|]. injection H as H.
    pose proof (receive_work w c b ev q err RSelect) as Hp. rewrite H in Hp.
    by apply Hp; rewrite ?Hr.
  - destruct b as [|e b]; [done|]. simpl in H. rewrite <- (setter_id w) in H.
    destruct (publish _ _ _ _) as [w1 c1] eqn:Ep. simplify_eq.
    rewrite (publish_work _ _ _ _ _ _ _ _ Ep), Hw. work_lia.
  - case_match; simplify_eq. rewrite Hw. work_lia.
  - destruct (w_inflight w =? 0); simplify_eq; rewrite Hw; work_lia.
  - destruct (w_wake w) eqn:Hwk; simplify_eq. rewrite Hw. work_lia.
  - destruct (w_queue w) as [|ev q] eqn:Hq.
    + destruct (Nat.eqb _ _); [simplify_eq; rewrite Hw; work_lia|].
      rewrite <- (setter_id w) in H. destruct (publish _ _ _ _) as [w1 c1] eqn:Ep. simplify_eq.
      rewrite (publish_work _ _ _ _ _ _ _ _ Ep), Hw. work_lia.
    + injection H as H. pose proof (receive_work w c b ev q err RDrain) as Hp. rewrite H in Hp.
      by apply Hp; rewrite ?Hr.
  - simplify_eq. rewrite Hw. destruct err; work_lia.
  - simplify_eq. rewrite Hw. work_lia.
  - done.
Qed.

Lemma enqueue_step_work k w c pc send w' c' next :
  enqueue_step w c pc send = Some (w', c', next) ->
  writer_work w' + thread_work match next with inl pc' => LogIn k pc' | inr q => LogReturned q end <
  writer_work w + log_work pc.
Proof.
  intros H. destruct pc; cbn -[Z.eqb Z.add] in H;
    repeat match type of H with context [if ?b then _ else _] => destruct b end;
    simplify_eq; cbn -[writer_work Z.add]; work_lia.
Qed.

Lemma thread_step_work s i t choice s' :
  g_threads s !! i = Some t -> thread_step s i t choice = Some s' -> work s' < work s.
Proof.
  intros Hi H. unfold work.
  assert (Hmove : forall t', thread_work t' < thread_work t ->
    sumZ thread_work (<[i := t']> (g_threads s)) < sumZ thread_work (g_threads s)).
  { intros t' Ht. rewrite (sumZ_insert _ _ _ t) by done. lia. }
  assert (Hwr : forall k w w', g_writers s !! k = Some w ->
    sumZ writer_work (<[k := w']> (g_writers s)) =
    sumZ writer_work (g_writers s) - writer_work w + writer_work w').
  { intros k w w' Hk. by rewrite (sumZ_insert _ _ _ w). }
  destruct t as [kind opts|[k|] kind opts|k kind opts| |k pc|q|m|cfg|err| |k|k|k|err];
    simpl in H; try done;
    try (destruct (g_writers s !! k) as [w|] eqn:Hk; simpl in H; [|done]);
    cbn [thread_work] in Hmove.
  - simplify_eq. simpl. pose proof (Hmove (LogLoaded (g_current s) kind opts)). simpl in *. lia.
  - simplify_eq. simpl. destruct (w_accepting w);
      [pose proof (Hmove (LogBuild k kind opts))|pose proof (Hmove LogRefused)]; simpl in *; lia.
  - simplify_eq. simpl. pose proof (Hmove LogRefused). simpl in *. lia.
  - destruct (newEventID _ _) as [ids r]. simplify_eq. simpl. 
    apply Z.add_lt_mono_l, Hmove. by destruct r.
  - simplify_eq. simpl. apply Z.add_lt_mono_l, Hmove. simpl. lia.
  - destruct (enqueue_step _ _ _ _) as [[[w' c'] next]|] eqn:He; simplify_eq/=.
    pose proof (enqueue_step_work k _ _ _ _ _ _ _ He).
    rewrite (Hwr k w) by done. rewrite (sumZ_insert _ _ _ (LogIn k pc)) by done. simpl. lia.
  - destruct (g_mu s); [done|]. destruct (g_current s).
    + simplify_eq. simpl. apply Z.add_lt_mono_l, Hmove. simpl. lia.
    + destruct (normalizeConfig cfg); simplify_eq; simpl;
        try (apply Z.add_lt_mono_l, Hmove; simpl; lia).
      rewrite sumZ_app, (sumZ_insert _ _ _ (InitCall cfg)) by done. 
      cbn -[Z.add Z.sub]. change (writer_work (newWriter a)) with 6. lia.
  - destruct (g_mu s); [done|].
    destruct (g_current s); simplify_eq; simpl; apply Z.add_lt_mono_l, Hmove; simpl; lia.
  - simplify_eq. simpl. rewrite (Hwr k w) by done. pose proof (Hmove (CloseRefusing k)).
    change (writer_work _) with (writer_work w) at 2. simpl in *. lia.
  - destruct (w_stop w); simplify_eq; simpl; [apply Z.add_lt_mono_l, Hmove; simpl; lia|].
    rewrite (Hwr k w) by done. pose proof (Hmove (CloseWaiting k)).
    change (writer_work _) with (writer_work w) at 2. simpl in *. lia.
  - destruct (w_done w); simplify_eq. simpl. apply Z.add_lt_mono_l, Hmove. simpl. lia.
Qed.

Lemma progress_work s s' : progress s s' -> work s' < work s.
Proof.
  intros (a & Hp & H). destruct a as [t|i choice|k case err]; [done| |]; simpl in H.
  - destruct (g_threads s !! i) as [t|] eqn:Hi; [|done]. by eapply thread_step_work.
  - simpl in Hp. destruct (g_writers s !! k) as [w|] eqn:Hk; simpl in H; [|done].
    destruct (run_step _ _ _ _) as [[w' c']|] eqn:Hr; simplify_eq/=.
    unfold work. simpl. rewrite (sumZ_insert _ _ _ w) by done.
    assert (writer_work w' < writer_work w); [|lia]. eapply run_step_work; [done|].
    destruct case; [done| |done]. by destruct (w_run w) as [[]| | | | | |].
Qed.

Lemma work_nonneg s : 0 <= work s.
Proof.
  unfold work. assert (0 <= sumZ writer_work (g_writers s)).
  { apply sumZ_nonneg. intros w _. unfold writer_work.
    assert (0 <= run_work (w_run w)) by (by destruct (w_run w)). destruct (w_wake w); lia. }
  assert (0 <= sumZ thread_work (g_threads s)); [|lia].
  apply sumZ_nonneg. intros t _. destruct t as [| | | |k []| | | | | | | | |]; simpl; lia.
Qed.

(** C29.  The package does a bounded amount of work: from any state, at most
    [work s] actions follow before only new calls or idle ticks are possible. *)
Theorem writer_terminates (s s' : world) (n : nat) :
  nsteps progress n s s' -> Z.of_nat n <= work s.
Proof.
  intros H. induction H as [s|n s s1 s' Hp _ IH].
  - pose proof (work_nonneg s). lia.
  - pose proof (progress_work s s1 Hp). lia.
Qed.

(** ** Quiescence *)

Definition any_choice (send : bool) : thread_choice := mkChoice send (Ok (zero_array 10)) 0.

(** The call has returned. *)
Definition finished (t : thread) : bool :=
  match t with
  | LogReturned _ | LogPanicked _ | InitReturned _ | CloseReturned _ => true
  | _ => false
  end.

(** One action for each way a goroutine can move. *)
Definition candidates (s : world) : list action :=
  concat ((fun i => [AThread i (any_choice true); AThread i (any_choice false)]) <$>
          seq 0 (length (g_threads s))) ++
  concat ((fun k => [ARun k CaseQueue None; ARun k CaseTick None; ARun k CaseStop None]) <$>
          seq 0 (length (g_writers s))).

Definition enabled (s : world) (a : action) : bool :=
  productive a s && match step_fn a s with Some _ => true | None => false end.

Definition quiescent (s : world) : bool := negb (existsb (enabled s) (candidates s)).

Lemma not_quiescent s : quiescent s = false -> exists s', progress s s'.
Proof.
  intros H%negb_false_iff%existsb_exists. destruct H as (a & _ & Ha). unfold enabled in Ha.
  apply andb_true_iff in Ha as [Hp Hs]. destruct (step_fn a s) as [s'|] eqn:E; [|done].
  by exists s', a.
Qed.

Section Quiescent.
Context (s : world) (HI : ginv s) (Hq : quiescent s = true).

Lemma quiescent_candidate a : a ∈ candidates s -> productive a s = true -> step_fn a s = None.
Proof.
  intros Ha Hp. destruct (step_fn a s) as [s'|] eqn:E; [|done].
  unfold quiescent in Hq. apply negb_true_iff in Hq.
  assert (existsb (enabled s) (candidates s) = true); [|congruence].
  apply existsb_exists. exists a. split; [by apply list_elem_of_In|]. unfold enabled. by rewrite Hp, E.
Qed.

Lemma quiescent_thread i t send :
  g_threads s !! i = Some t -> thread_step s i t (any_choice send) = None.
Proof.
  intros Hi. pose proof (quiescent_candidate (AThread i (any_choice send))) as H.
  simpl in H. rewrite Hi in H. apply H; [|done]. apply elem_of_app. left.
  apply list_elem_of_In, in_concat. eexists. split.
  - apply list_elem_of_In, list_elem_of_fmap. exists i. split; [done|]. apply elem_of_seq.
    apply lookup_lt_Some in Hi. lia.
  - destruct send; simpl; auto.
Qed.

Lemma quiescent_run k w case :
  g_writers s !! k = Some w ->
  match case, w_run w with CaseTick, RSelect [] => False | _, _ => True end ->
  run_step w (g_counters s) case None = None.
Proof.
  intros Hk Hidle. pose proof (quiescent_candidate (ARun k case None)) as H.
  simpl in H. rewrite Hk in H. simpl in H.
  destruct (run_step w (g_counters s) case None) as [[w' c']|] eqn:E; [|done].
  simpl in H. discriminate H.
  - apply elem_of_app. right. apply list_elem_of_In, in_concat. eexists. split.
    + apply list_elem_of_In, list_elem_of_fmap. exists k. split; [done|]. apply elem_of_seq.
      apply lookup_lt_Some in Hk. lia.
    + destruct case; simpl; auto.
  - destruct case; try done. by destruct (w_run w) as [[]| | | | | |].
Qed.

(** A goroutine inside [enqueue] can only be waiting for room, with the queue
    full, the policy [Block] and the writer not stopping. *)
Lemma quiescent_enqueue i k pc w :
  g_threads s !! i = Some (LogIn k pc) -> g_writers s !! k = Some w ->
  (w_capacity w <= length (w_queue w))%nat /\ w_stop w = false.
Proof.
  intros Hi Hk.
  pose proof (quiescent_thread i _ true Hi) as H1.
  pose proof (quiescent_thread i _ false Hi) as H2.
  simpl in H1, H2. rewrite Hk in H1, H2. simpl in H1, H2.
  destruct pc; try done; simpl in H1, H2.
  - by destruct (w_accepting w).
  - destruct (Nat.ltb_spec (length (w_queue w)) (w_capacity w)); [done|]. split; [done|].
    destruct (w_policy w =? Block); [|done]. by destruct (w_stop w).
Qed.

(** Every writer is idle with nothing in memory, or finished. *)
Lemma quiescent_writer k w :
  g_writers s !! k = Some w ->
  w_queue w = [] /\ ((w_run w = RSelect [] /\ w_stop w = false) \/ w_run w = RDone).
Proof.
  intros Hk. pose proof (gi_writers s HI k w Hk) as Hw.
  assert (Hn : forall case, match case, w_run w with CaseTick, RSelect [] => False | _, _ => True end ->
    run_step w (g_counters s) case None = None) by (intros; by eapply (quiescent_run k)).
  pose proof (Hn CaseQueue) as H1. pose proof (Hn CaseTick) as H2. pose proof (Hn CaseStop) as H3.
  clear Hn. unfold run_step in *. destruct (w_run w) as [b|b|b|b| | |] eqn:Hr.
  - destruct (w_queue w); [|by specialize (H1 I)]. destruct (w_stop w); [by specialize (H3 I)|].
    destruct b as [|e b]; [by auto|]. by specialize (H2 I).
  - destruct (w_inflight w =? 0); by specialize (H1 I).
  - destruct (w_wake w) eqn:Hwake; [by specialize (H1 I)|].
    destruct (wi_block _ _ _ Hw) as [?|(i & t & Hi & Ht)%countb_pos]; [by eauto|congruence|].
    assert (Hs : w_stop w = true) by (apply (wi_stopping _ _ _ Hw); by rewrite Hr).
    assert (exists pc, t = LogIn k pc) as [pc ->].
    { unfold will_wake, in_region in Ht. destruct t as [| | | |k' pc| | | | | | | | |]; try done.
      exists pc. destruct (Nat.eqb_spec k k') as [->|]; [done|]. by destruct pc. }
    destruct (quiescent_enqueue i k pc w Hi Hk). congruence.
  - specialize (H1 I). destruct (w_queue w); [|done].
    by destruct (Nat.eqb _ _).
  - by specialize (H1 I).
  - by specialize (H1 I).
  - split; [|by right]. apply (wi_drained _ _ _ Hw). by rewrite Hr.
Qed.

Lemma quiescent_closing : g_mu s = false.
Proof.
  destruct (g_mu s) eqn:Hmu; [|done]. pose proof (gi_mu s HI) as Hc. rewrite Hmu in Hc.
  destruct (countb_pos closing (g_threads s)) as (i & t & Hi & Ht); [lia|].
  pose proof (quiescent_thread i t true Hi) as H.
  pose proof (gi_threads s HI i t Hi) as Hok.
  destruct t as [| | | | | | | | | |k|k|k|]; try done; simpl in Hok, H.
  - destruct Hok as (w & Hk & _). by rewrite Hk in H.
  - destruct Hok as (w & Hk & Hs & _). rewrite Hk in H. simpl in H. by rewrite Hs in H.
  - destruct Hok as (w & Hk & Hs). rewrite Hk in H. simpl in H.
    destruct (quiescent_writer k w Hk) as [_ [[_ ?]|Hr]]; [congruence|].
    pose proof (wi_done _ _ _ (gi_writers s HI k w Hk)) as Hd. rewrite Hr in Hd.
    by rewrite Hd in H.
Qed.

Lemma quiescent_finished i t : g_threads s !! i = Some t -> finished t = true.
Proof.
  intros Hi. pose proof (quiescent_thread i t true Hi) as H.
  pose proof (gi_threads s HI i t Hi) as Hok.
  pose proof quiescent_closing as Hmu. pose proof (gi_mu s HI) as Hc. rewrite Hmu in Hc.
  destruct t as [kind opts|[k|] kind opts|k kind opts| |k pc|q|m|cfg|err| |k|k|k|err];
    try done; simpl in H.
  - destruct Hok as [w Hk]. by rewrite Hk in H.
  - by destruct (newEventID _ _).
  - destruct Hok as [w Hk]. destruct (quiescent_enqueue i k pc w Hi Hk) as [Hcap _].
    destruct (quiescent_writer k w Hk) as [Hq0 _]. rewrite Hq0 in Hcap.
    destruct (wi_sizes _ _ _ (gi_writers s HI k w Hk)). simpl in Hcap. lia.
  - rewrite Hmu in H. repeat case_match; done.
  - rewrite Hmu in H. by destruct (g_current s).
  - by pose proof (countb_lookup_false _ _ _ _ Hc Hi).
  - by pose proof (countb_lookup_false _ _ _ _ Hc Hi).
  - by pose proof (countb_lookup_false _ _ _ _ Hc Hi).
Qed.
End Quiescent.

(** ** Completion *)

Definition log_returned (t : thread) : bool := match t with LogReturned _ => true | _ => false end.

(** Every call returned, every event that entered a queue reached its sink, every
    writer is idle or finished, and the counters add up to the calls of [Log]. *)
Record complete (s : world) : Prop := {
  co_finished : Forall (fun t => finished t = true) (g_threads s);
  co_writers : forall k w, g_writers s !! k = Some w ->
    published (w_calls w) = w_sent w /\
    ((w_run w = RSelect [] /\ g_current s = Some k) \/ w_done w = true);
  co_buffered : c_buffered (g_counters s) = 0;
  co_calls : c_written (g_counters s) + c_dropped (g_counters s) =
    Z.of_nat (countb log_returned (g_threads s))
}.

Lemma finished_shares ths : Forall (fun t => finished t = true) ths ->
  countb buffering ths = 0%nat /\
  countb log_returned ths = (countb enqueued ths + countb refused ths)%nat.
Proof.
  induction 1 as [|t ths Ht _ [IH1 IH2]]; simpl; [done|].
  destruct t as [| | | | |[]| | | | | | | |]; simplify_eq/=; lia.
Qed.

Lemma sumZ_lookup {A} (f g : A -> Z) l :
  (forall k a, l !! k = Some a -> f a = g a) -> sumZ f l = sumZ g l.
Proof.
  intros H. apply sumZ_ext. intros a Ha. apply list_elem_of_lookup in Ha as [k Hk]. eauto.
Qed.

Lemma written_events_nonneg calls : 0 <= written_events calls.
Proof. apply sumZ_nonneg. intros c _. destruct (call_failed c); lia. Qed.
Lemma failed_events_nonneg calls : 0 <= failed_events calls.
Proof. apply sumZ_nonneg. intros c _. destruct (call_failed c); lia. Qed.

Lemma quiescent_complete s :
  ginv s -> cinv s -> few_calls s -> quiescent s = true -> complete s.
Proof.
  intros HI [Hg Hs] Hlen Hq.
  assert (Hfin : Forall (fun t => finished t = true) (g_threads s)).
  { apply Forall_lookup. intros i t Hi. by eapply quiescent_finished. }
  assert (Hpub : forall k w, g_writers s !! k = Some w -> held w = 0 /\ published (w_calls w) = w_sent w).
  { intros k w Hk. destruct (quiescent_writer s HI Hq k w Hk) as [Hq0 Hr].
    rewrite (wi_sent _ _ _ (gi_writers s HI k w Hk)), Hq0. unfold held. rewrite Hq0.
    destruct Hr as [[-> _]| ->]; simpl; by rewrite app_nil_r. }
  destruct (finished_shares _ Hfin) as [Hbuf Hret]. unfold total in Hg. split; [done| | |].
  - intros k w Hk. split; [by apply (Hpub k)|].
    destruct (quiescent_writer s HI Hq k w Hk) as [_ [[Hr Hst]|Hr]].
    + left. split; [done|]. destruct (gi_live s HI k w Hk) as [?|[(i & t & Hi & Ht)%countb_pos|Hd]]; [done| |].
      * pose proof (quiescent_finished s HI Hq i t Hi). by destruct t.
      * rewrite (wi_done _ _ _ (gi_writers s HI k w Hk)), Hr in Hd. done.
    + right. by rewrite (wi_done _ _ _ (gi_writers s HI k w Hk)), Hr.
  - rewrite (Hg GBuffered : c_buffered (g_counters s) = _).
    rewrite (sumZ_lookup _ (fun _ => 0)) by (intros; by eapply Hpub).
    change (sumZ (thread_share GBuffered)) with (sumZ (fun t => if buffering t then 1 else 0)).
    by rewrite (sumZ_zero (fun _ => 0)), <- countb_sumZ, Hbuf.
  - rewrite (Hg GWritten : c_written (g_counters s) = _), (Hg GDropped : c_dropped (g_counters s) = _).
    rewrite (sumZ_zero (thread_share GWritten)) by done.
    change (sumZ (thread_share GDropped)) with (sumZ (fun t => if refused t then 1 else 0)).
    rewrite <- countb_sumZ.
    unfold sent_balance in Hs.
    rewrite (sumZ_lookup _ (fun w => written_events (w_calls w) + failed_events (w_calls w))), sumZ_plus
      in Hs.
    2: { intros k w Hk. rewrite <- published_written_failed. by rewrite (proj2 (Hpub k w Hk)). }
    pose proof (countb_length log_returned (g_threads s)).
    assert (0 <= sumZ (fun w => written_events (w_calls w)) (g_writers s))
      by (apply sumZ_nonneg; intros; apply written_events_nonneg).
    assert (0 <= sumZ (fun w => failed_events (w_calls w)) (g_writers s))
      by (apply sumZ_nonneg; intros; apply failed_events_nonneg).
    change (sumZ (writer_share GWritten)) with (sumZ (fun w => written_events (w_calls w))).
    change (sumZ (writer_share GDropped)) with (sumZ (fun w => failed_events (w_calls w))).
    rewrite !wrapu_id; unfold in_u; lia.
Qed.

(** C28.  Nothing deadlocks: in every reachable state either some goroutine can
    take a step that makes progress, or every call of [Log], [Init] and [Close]
    has returned, every event accepted into a queue has been handed to its sink,
    each writer is the idle current one or finished, [Buffered] is zero, and
    [Written + Dropped] is the number of completed [Log] calls. *)
Theorem no_deadlock (s : world) :
  reach s -> few_calls s -> (exists s', progress s s') \/ complete s.
Proof.
  intros Hr Hlen. destruct (quiescent s) eqn:Hq; [right|left; by apply not_quiescent].
  apply quiescent_complete; [by apply reach_ginv|by apply reach_cinv|done|done].
Qed.
