(* ===== verification/WriterExamples.v ===== *)
(** * Concrete executions of the writer

    A schedule with one accepted event, one event dropped on a full queue and a
    [Close] whose sink fails, evaluated by the machine of [Writer], and the
    guarantees of the writer at the states it visits. *)

From S2P Require Import Prelude Ids Events Writer WriterSystem WriterLiveness.

Definition demo_config : Config := mkConfig "svc" "prod" "1.0" true 1 2 1000000 Drop.

Definition go (i : nat) : action := AThread i (any_choice true).

(** Queue capacity 1: the first [Log] is queued, the second dropped. *)
Definition demo_open : list action :=
  [ASpawn (InitCall demo_config); go 0; ASpawn (LogCall "a" [])] ++ replicate 9 (go 1) ++
  [ASpawn (LogCall "b" [])] ++ replicate 6 (go 2) ++ replicate 5 (AThread 2 (any_choice false)).

(** [Close] up to the point where the writer goroutine has finished. *)
Definition demo_close : list action :=
  demo_open ++ [ASpawn CloseCall; go 3; go 3; go 3] ++ replicate 4 (ARun 0 CaseStop None) ++
  [ARun 0 CaseStop (Some (errors_New "close failed")); ARun 0 CaseStop None].

Definition run_sched (sched : list action) : world := default world0 (exec sched world0).

Lemma run_sched_reach sched : reach (run_sched sched).
Proof.
  unfold run_sched. destruct (exec sched world0) as [s|] eqn:E; simpl.
  - eapply exec_reach; [|exact E]. by apply reachable_init.
  - by apply reachable_init.
Qed.

Definition demo_writer (sched : list action) : writer :=
  default (newWriter demo_config) (g_writers (run_sched sched) !! 0%nat).

Example demo_outcome :
  (g_threads (run_sched (demo_close ++ [go 3])), g_counters (run_sched (demo_close ++ [go 3]))) =
  ([InitReturned None; LogReturned true; LogReturned false;
    CloseReturned (Some (errors_New "close failed"))], mkCounters 1 1 0 0).
Proof. vm_compute. reflexivity. Qed.

Lemma writer_conserves_events_witness :
  exists s k w, (w_queue w <> [] /\ g_writers s !! k = Some w) /\
  w_sent w = published (w_calls w) ++ run_batch (w_run w) ++ w_queue w /\
  (length (w_queue w) <= w_capacity w)%nat /\
  (length (run_batch (w_run w)) < w_batchSize w)%nat /\
  Forall (call_ok w) (w_calls w).
Proof.
  exists (run_sched demo_open), 0%nat, (demo_writer demo_open). split.
  - split; [vm_compute; discriminate|vm_compute; reflexivity].
  - apply (writer_conserves_events (run_sched demo_open) 0 (demo_writer demo_open)).
    + apply run_sched_reach.
    + vm_compute. reflexivity.
    + vm_compute. reflexivity.
Defined.

Lemma close_drains_witness :
  exists s s' i k choice, step_fn (AThread i choice) s = Some s' /\
  exists w writes closeErr,
    g_writers s' !! k = Some w /\
    published (w_calls w) = w_sent w /\
    w_calls w = writes ++ [SinkClose closeErr] /\ Forall (fun c => is_write c = true) writes /\
    g_threads s' !! i = Some (CloseReturned (errors_Join (first_error (w_calls w)) closeErr)) /\
    exists w'', g_writers s' !! k = Some w'' /\ w_calls w'' = w_calls w /\ w_sent w'' = w_sent w.
Proof.
  exists (run_sched demo_close), (run_sched (demo_close ++ [go 3])), 3%nat, 0%nat, (any_choice true).
  split; [vm_compute; reflexivity|].
  apply (close_drains (run_sched demo_close) (run_sched (demo_close ++ [go 3]))
           (run_sched (demo_close ++ [go 3])) 3 0 (any_choice true)).
  - apply run_sched_reach.
  - vm_compute. reflexivity.
  - vm_compute. reflexivity.
  - vm_compute. reflexivity.
  - apply rtc_refl.
Defined.

Lemma counters_account_witness :
  let s := run_sched demo_close in
  let c := g_counters s in
  c_buffered c =
    u64 (sumZ held (g_writers s) + Z.of_nat (countb buffering (g_threads s))) /\
  c_written c = u64 (sumZ (fun w => written_events (w_calls w)) (g_writers s)) /\
  c_dropped c = u64 (sumZ (fun w => failed_events (w_calls w)) (g_writers s) +
                     Z.of_nat (countb refused (g_threads s))) /\
  c_publishErrors c =
    u64 (sumZ (fun w => Z.of_nat (countb call_failed (w_calls w))) (g_writers s)) /\
  sumZ (fun w => Z.of_nat (length (w_sent w))) (g_writers s) =
    Z.of_nat (countb enqueued (g_threads s)).
Proof. apply (counters_account (run_sched demo_close)). apply run_sched_reach. Defined.

Definition second_init : world := run_sched (demo_open ++ [ASpawn (InitCall demo_config)]).
Definition second_caller : nat := pred (length (g_threads second_init)).

Lemma single_writer_witness :
  step_fn (AThread second_caller (any_choice true)) second_init =
    Some (set_thread second_init second_caller (InitReturned (Some ErrAlreadyInitialized))).
Proof.
  destruct (step_fn (AThread second_caller (any_choice true)) second_init) as [s'|] eqn:E;
    [|vm_compute in E; discriminate E].
  f_equal. apply (single_writer second_init ltac:(apply run_sched_reach) ltac:(vm_compute; reflexivity))
    with (cfg := demo_config) (choice := any_choice true) (k := 0%nat).
  - vm_compute. reflexivity.
  - exact E.
  - vm_compute. reflexivity.
Defined.

Lemma writer_terminates_witness : 1 <= work (run_sched demo_close).
Proof.
  apply (writer_terminates (run_sched demo_close) (run_sched (demo_close ++ [go 3])) 1).
  apply nsteps_once. exists (go 3). split; [vm_compute; reflexivity|vm_compute; reflexivity].
Defined.

Lemma no_deadlock_witness :
  (exists s', progress (run_sched demo_close) s') \/ complete (run_sched demo_close).
Proof.
  apply (no_deadlock (run_sched demo_close)).
  - apply run_sched_reach.
  - vm_compute. reflexivity.
Defined.
