(* ===== verification/Wire.v ===== *)
(** * The wire envelope (src/wire/wire.go)

    [MarshalBatch], [Marshal], [Validate] and [Unmarshal], with the JSON shape
    the struct tags give.  Records carry the prefix [wire_] because the package's
    [Event] and [Field] share their names with the core package's. *)

From S2P Require Import Prelude Ids Events GoLib Json JsonText.

(** ** Data *)

Definition Version : Z := 1.
Definition ErrInvalidEnvelope : error := sentinel "trail/wire: invalid envelope".
Definition ErrUnsupportedVersion : error := sentinel "trail/wire: unsupported schema version".

Record wire_Field := mkWireField { wf_Key : string; wf_Type : string; wf_Text : string; wf_Num : Z }.

Record wire_Event := mkWireEvent {
  we_EventID : string;
  we_TimestampUnixNano : Z;
  we_Kind : string;
  we_Level : string;
  we_FlowID : string;
  we_ExecutionID : string;
  we_ParentExecutionID : string;
  we_RetryOfExecutionID : string;
  we_ExecutionAttempt : Z;
  we_ExecutionSource : string;
  we_ScopeType : string;
  we_ScopeID : string;
  we_EntityType : string;
  we_EntityID : string;
  we_ParentID : string;
  we_Fields : list wire_Field
}.

Record Envelope := mkEnvelope {
  en_SchemaVersion : Z;
  en_BatchID : string;
  en_Metadata : Metadata;
  en_Events : list wire_Event
}.

#[global] Instance eta_wire_Field : Eta wire_Field :=
  fun r => mkWireField (wf_Key r) (wf_Type r) (wf_Text r) (wf_Num r).
#[global] Instance eta_wire_Event : Eta wire_Event :=
  fun r => mkWireEvent (we_EventID r) (we_TimestampUnixNano r) (we_Kind r) (we_Level r) (we_FlowID r)
    (we_ExecutionID r) (we_ParentExecutionID r) (we_RetryOfExecutionID r) (we_ExecutionAttempt r)
    (we_ExecutionSource r) (we_ScopeType r) (we_ScopeID r) (we_EntityType r) (we_EntityID r)
    (we_ParentID r) (we_Fields r).
#[global] Instance eta_Metadata : Eta Metadata :=
  fun r => mkMetadata (md_Service r) (md_Environment r) (md_Version r).
#[global] Instance eta_Envelope : Eta Envelope :=
  fun r => mkEnvelope (en_SchemaVersion r) (en_BatchID r) (en_Metadata r) (en_Events r).

#[global] Instance wire_Field_eq_dec : EqDecision wire_Field.
Proof. solve_decision. Defined.
#[global] Instance wire_Event_eq_dec : EqDecision wire_Event.
Proof. solve_decision. Defined.
#[global] Instance Envelope_eq_dec : EqDecision Envelope.
Proof. solve_decision. Defined.

(** ** Encoding of an event *)

Definition fieldType (kind : FieldKind) : string :=
  if kind =? FieldString then "string"
  else if kind =? FieldInt then "int"
  else if kind =? FieldInt64 then "int64"
  else if kind =? FieldBool then "bool"
  else if kind =? FieldFloat64 then "float64"
  else if kind =? FieldDuration then "duration"
  else if kind =? FieldError then "error"
  else "unknown".

(** The body of the field loop of [fromEvent]. *)
Definition from_field (field : Field) : wire_Field :=
  let encoded := mkWireField (Key field) (fieldType (Kind field)) "" 0 in
  if (Kind field =? FieldString) || (Kind field =? FieldError)
  then encoded <| wf_Text := Text field |>
  else encoded <| wf_Num := u64 (Int64_ field) |>.

(** An identifier's text, empty when the identifier is zero. *)
Definition id_text (id : id16) : string := if IsZero id then "" else String_ id.

Definition fromEvent (event : Event) : wire_Event :=
  mkWireEvent (String_ (ev_ID event)) (ev_Timestamp event) (ev_Kind event)
    (Level_String (ev_Level event)) (id_text (ev_FlowID event)) (id_text (ev_ExecutionID event))
    (id_text (ev_ParentExecutionID event)) (id_text (ev_RetryOfExecutionID event))
    (ev_ExecutionAttempt event) (ev_ExecutionSource event) (ev_ScopeType event) (ev_ScopeID event)
    (ev_EntityType event) (ev_EntityID event) (id_text (ev_ParentID event))
    (from_field <$> ev_Fields event).

(** ** Validation *)

(** [if s != "" { if _, err := parse(s); err != nil { return errors.New(text) } }]. *)
Definition check_optional_id (parse : string -> result id16) (s text : string) : result unit :=
  if negb (str_eqb s "") && negb (is_ok (parse s)) then Fail (errors_New text) else Ok tt.

Definition known_level (level : string) : bool :=
  str_eqb level "debug" || str_eqb level "info" || str_eqb level "warn" || str_eqb level "error".

Definition known_type (type : string) : bool :=
  str_eqb type "string" || str_eqb type "int" || str_eqb type "int64" || str_eqb type "bool" ||
  str_eqb type "float64" || str_eqb type "duration" || str_eqb type "error".

Fixpoint validate_fields (fields : list wire_Field) : result unit :=
  match fields with
  | [] => Ok tt
  | field :: fields =>
      if str_eqb (wf_Key field) "" then Fail (errors_New "empty field key")
      else if known_type (wf_Type field) then validate_fields fields
      else Fail (errors_New "invalid field type")
  end.

Definition validateEvent (event : wire_Event) : result unit :=
  if str_eqb (we_EventID event) "" || (we_TimestampUnixNano event =? 0) || str_eqb (we_Kind event) ""
  then Fail (errors_New "missing required value")
  else if negb (is_ok (ParseEventID (we_EventID event))) then Fail (errors_New "invalid event_id")
  else
    _ ← check_optional_id ParseFlowID (we_FlowID event) "invalid flow_id";
    _ ← check_optional_id ParseExecutionID (we_ExecutionID event) "invalid execution_id";
    _ ← check_optional_id ParseExecutionID (we_ParentExecutionID event) "invalid parent_execution_id";
    _ ← check_optional_id ParseExecutionID (we_RetryOfExecutionID event) "invalid retry_of_execution_id";
    _ ← check_optional_id ParseEventID (we_ParentID event) "invalid parent_id";
    if xorb (str_eqb (we_ScopeType event) "") (str_eqb (we_ScopeID event) "")
    then Fail (errors_New "scope_type and scope_id must be provided together")
    else if negb (known_level (we_Level event)) then Fail (errors_New "invalid level")
    else validate_fields (we_Fields event).

(** The event loop of [Validate], at index [i]. *)
Fixpoint validate_events (i : nat) (events : list wire_Event) : result unit :=
  match events with
  | [] => Ok tt
  | event :: events =>
      match validateEvent event with
      | Ok _ => validate_events (S i) events
      | Fail err => Fail (errorf_w ErrInvalidEnvelope (": event " +:+ pretty i +:+ ": " +:+ err_text err))
      | Panic m => Panic m
      end
  end.

Definition Validate (envelope : Envelope) : result unit :=
  if negb (en_SchemaVersion envelope =? Version)
  then Fail (errorf_w ErrUnsupportedVersion (": " +:+ pretty (en_SchemaVersion envelope)))
  else if str_eqb (en_BatchID envelope) "" || Nat.eqb (length (en_Events envelope)) 0 ||
          str_eqb (md_Service (en_Metadata envelope)) ""
  then Fail ErrInvalidEnvelope
  else if negb (is_ok (ParseEventID (en_BatchID envelope)))
  then Fail (errorf_w ErrInvalidEnvelope ": batch_id")
  else validate_events 0 (en_Events envelope).

(** ** JSON *)

Definition enc_Field (f : wire_Field) : json :=
  JObject ([("key", JString (wf_Key f)); ("type", JString (wf_Type f))] ++
           omit_string "text" (wf_Text f) ++ omit_int "num" (wf_Num f)).

Definition enc_Event (e : wire_Event) : json :=
  JObject ([("event_id", JString (we_EventID e));
            ("timestamp_unix_nano", JInt (we_TimestampUnixNano e));
            ("kind", JString (we_Kind e)); ("level", JString (we_Level e))] ++
           omit_string "flow_id" (we_FlowID e) ++
           omit_string "execution_id" (we_ExecutionID e) ++
           omit_string "parent_execution_id" (we_ParentExecutionID e) ++
           omit_string "retry_of_execution_id" (we_RetryOfExecutionID e) ++
           omit_int "execution_attempt" (we_ExecutionAttempt e) ++
           omit_string "execution_source" (we_ExecutionSource e) ++
           omit_string "scope_type" (we_ScopeType e) ++
           omit_string "scope_id" (we_ScopeID e) ++
           omit_string "entity_type" (we_EntityType e) ++
           omit_string "entity_id" (we_EntityID e) ++
           omit_string "parent_id" (we_ParentID e) ++
           omit_list enc_Field "fields" (we_Fields e) ++ []).

Definition enc_Metadata (m : Metadata) : json :=
  JObject [("Service", JString (md_Service m)); ("Environment", JString (md_Environment m));
           ("Version", JString (md_Version m))].

Definition enc_Envelope (v : Envelope) : json :=
  JObject [("schema_version", JInt (en_SchemaVersion v)); ("batch_id", JString (en_BatchID v));
           ("metadata", enc_Metadata (en_Metadata v));
           ("events", JArray (enc_Event <$> en_Events v))].

Definition assign_Field (key : string) (v : json) (f : wire_Field) : result wire_Field :=
  if tagged key "key" then x ← dec_string v (wf_Key f); Ok (f <| wf_Key := x |>)
  else if tagged key "type" then x ← dec_string v (wf_Type f); Ok (f <| wf_Type := x |>)
  else if tagged key "text" then x ← dec_string v (wf_Text f); Ok (f <| wf_Text := x |>)
  else if tagged key "num" then x ← dec_u64 v (wf_Num f); Ok (f <| wf_Num := x |>)
  else Ok f.

Definition Field_zero : wire_Field := mkWireField "" "" "" 0.
Definition Event_zero : wire_Event := mkWireEvent "" 0 "" "" "" "" "" "" 0 "" "" "" "" "" "" [].
Definition Metadata_zero : Metadata := mkMetadata "" "" "".
Definition Envelope_zero : Envelope := mkEnvelope 0 "" Metadata_zero [].

Definition assign_Event (key : string) (v : json) (e : wire_Event) : result wire_Event :=
  if tagged key "event_id" then x ← dec_string v (we_EventID e); Ok (e <| we_EventID := x |>)
  else if tagged key "timestamp_unix_nano" then
    x ← dec_i64 v (we_TimestampUnixNano e); Ok (e <| we_TimestampUnixNano := x |>)
  else if tagged key "kind" then x ← dec_string v (we_Kind e); Ok (e <| we_Kind := x |>)
  else if tagged key "level" then x ← dec_string v (we_Level e); Ok (e <| we_Level := x |>)
  else if tagged key "flow_id" then x ← dec_string v (we_FlowID e); Ok (e <| we_FlowID := x |>)
  else if tagged key "execution_id" then
    x ← dec_string v (we_ExecutionID e); Ok (e <| we_ExecutionID := x |>)
  else if tagged key "parent_execution_id" then
    x ← dec_string v (we_ParentExecutionID e); Ok (e <| we_ParentExecutionID := x |>)
  else if tagged key "retry_of_execution_id" then
    x ← dec_string v (we_RetryOfExecutionID e); Ok (e <| we_RetryOfExecutionID := x |>)
  else if tagged key "execution_attempt" then
    x ← dec_u32 v (we_ExecutionAttempt e); Ok (e <| we_ExecutionAttempt := x |>)
  else if tagged key "execution_source" then
    x ← dec_string v (we_ExecutionSource e); Ok (e <| we_ExecutionSource := x |>)
  else if tagged key "scope_type" then x ← dec_string v (we_ScopeType e); Ok (e <| we_ScopeType := x |>)
  else if tagged key "scope_id" then x ← dec_string v (we_ScopeID e); Ok (e <| we_ScopeID := x |>)
  else if tagged key "entity_type" then x ← dec_string v (we_EntityType e); Ok (e <| we_EntityType := x |>)
  else if tagged key "entity_id" then x ← dec_string v (we_EntityID e); Ok (e <| we_EntityID := x |>)
  else if tagged key "parent_id" then x ← dec_string v (we_ParentID e); Ok (e <| we_ParentID := x |>)
  else if tagged key "fields" then
    x ← dec_slice (dec_struct assign_Field) Field_zero v (we_Fields e); Ok (e <| we_Fields := x |>)
  else Ok e.

Definition assign_Metadata (key : string) (v : json) (m : Metadata) : result Metadata :=
  if tagged key "Service" then x ← dec_string v (md_Service m); Ok (m <| md_Service := x |>)
  else if tagged key "Environment" then x ← dec_string v (md_Environment m); Ok (m <| md_Environment := x |>)
  else if tagged key "Version" then x ← dec_string v (md_Version m); Ok (m <| md_Version := x |>)
  else Ok m.

Definition assign_Envelope (key : string) (v : json) (n : Envelope) : result Envelope :=
  if tagged key "schema_version" then
    x ← dec_i64 v (en_SchemaVersion n); Ok (n <| en_SchemaVersion := x |>)
  else if tagged key "batch_id" then x ← dec_string v (en_BatchID n); Ok (n <| en_BatchID := x |>)
  else if tagged key "metadata" then
    x ← dec_struct assign_Metadata v (en_Metadata n); Ok (n <| en_Metadata := x |>)
  else if tagged key "events" then
    x ← dec_slice (dec_struct assign_Event) Event_zero v (en_Events n); Ok (n <| en_Events := x |>)
  else Ok n.

Definition dec_Envelope (j : json) : result Envelope := dec_struct assign_Envelope j Envelope_zero.

(** ** Operations *)

Definition Marshal (envelope : Envelope) : result bytes :=
  _ ← Validate envelope; Ok (json_print (enc_Envelope envelope)).

Definition MarshalBatch (batch : Batch) : result bytes :=
  match b_Events batch with
  | [] => Fail (errorf_w ErrInvalidEnvelope ": empty batch")
  | first :: _ =>
      Marshal (mkEnvelope Version (String_ (ev_ID first)) (b_Metadata batch) (fromEvent <$> b_Events batch))
  end.

Definition Unmarshal (data : bytes) : result Envelope :=
  match (j ← json_parse data; dec_Envelope j) with
  | Ok envelope => _ ← Validate envelope; Ok envelope
  | Fail err => Fail (errorf_w ErrInvalidEnvelope (": " +:+ err_text err))
  | Panic m => Panic m
  end.

(** ** Decoding never panics *)

Lemma dec_members_safe {S} (assign : string -> json -> S -> result S) members s :
  (forall key v s, safe (assign key v s)) -> safe (dec_members assign members s).
Proof.
  intros Ha. revert s; induction members as [|[key v] members IH]; intros s; [done|].
  apply safe_bind; [apply Ha|]. intros s'. apply IH.
Qed.

Lemma dec_struct_safe {S} (assign : string -> json -> S -> result S) j s :
  (forall key v s, safe (assign key v s)) -> safe (dec_struct assign j s).
Proof. intros Ha. destruct j; try exact I. by apply dec_members_safe. Qed.

Lemma dec_slice_safe {A} (dec : json -> A -> result A) zero j old :
  (forall j a, safe (dec j a)) -> safe (dec_slice dec zero j old).
Proof. intros Hd. destruct j; try exact I. apply safe_go_range_from. intros _ item. apply Hd. Qed.

Lemma dec_string_safe j old : safe (dec_string j old).
Proof. by destruct j. Qed.
Lemma dec_int_safe lo hi j old : safe (dec_int lo hi j old).
Proof. unfold dec_int. safe_auto. Qed.

Ltac assign_safe :=
  repeat match goal with
    | |- safe (if ?b then _ else _) => destruct b
    | |- safe (_ ≫= _) => apply safe_bind; [|intros; exact I]
    end;
  first [exact I | apply dec_string_safe | apply dec_int_safe | idtac].

Lemma dec_Envelope_safe j : safe (dec_Envelope j).
Proof.
  apply dec_struct_safe. intros key v n. unfold assign_Envelope. assign_safe.
  - apply dec_struct_safe. intros key' v' m. unfold assign_Metadata. assign_safe.
  - apply dec_slice_safe. intros j' e. apply dec_struct_safe. intros key' v' e'.
    unfold assign_Event. assign_safe. apply dec_slice_safe. intros j2 f. apply dec_struct_safe.
    intros key2 v2 f2. unfold assign_Field. assign_safe.
Qed.

Lemma validate_fields_safe fs : safe (validate_fields fs).
Proof. induction fs as [|f fs IH]; cbn [validate_fields]; safe_auto. Qed.
Lemma validateEvent_safe e : safe (validateEvent e).
Proof. unfold validateEvent, check_optional_id. safe_auto; apply validate_fields_safe. Qed.
Lemma validate_events_safe i events : safe (validate_events i events).
Proof.
  revert i; induction events as [|e events IH]; intros i; cbn [validate_events]; [exact I|].
  pose proof (validateEvent_safe e). destruct (validateEvent e); done.
Qed.
Lemma Validate_safe v : safe (Validate v).
Proof. unfold Validate. safe_auto. apply validate_events_safe. Qed.

Lemma Unmarshal_safe data : safe (Unmarshal data).
Proof.
  unfold Unmarshal. assert (safe (j ← json_parse data; dec_Envelope j)) as H.
  { apply safe_bind; [|apply dec_Envelope_safe]. unfold json_parse. safe_auto. }
  destruct (_ ≫= _) as [v| |]; [|exact I|done]. apply safe_bind; [apply Validate_safe|done].
Qed.

(** ** Round trip *)

(** The values fit their Go types: 64-bit timestamps and payloads, 32-bit
    attempts. *)
Definition field_fits (f : wire_Field) : Prop := in_u 64 (wf_Num f).
Definition event_fits (e : wire_Event) : Prop :=
  in_s 64 (we_TimestampUnixNano e) /\ in_u 32 (we_ExecutionAttempt e) /\ Forall field_fits (we_Fields e).

Lemma dec_enc_Field f : field_fits f -> dec_struct assign_Field (enc_Field f) Field_zero = Ok f.
Proof.
  intros Hf. destruct f as [key type text num]. unfold field_fits in Hf. simpl in Hf.
  etransitivity; [apply dec_struct_object|]. unfold Field_zero. rewrite <- (app_nil_r (omit_int _ _)).
  cbn [app wf_Key wf_Type wf_Text wf_Num]. repeat decode_member. done.
Qed.

Lemma dec_enc_Event e : event_fits e -> dec_struct assign_Event (enc_Event e) Event_zero = Ok e.
Proof.
  destruct e as [id ts kind level flow exe pexe rexe att src st sid et eid par fields].
  intros (Hts & Hatt & Hf). simpl in Hts, Hatt, Hf.
  assert (Forall (fun f => dec_struct assign_Field (enc_Field f) Field_zero = Ok f) fields)
    by (eapply Forall_impl; [exact Hf|]; apply dec_enc_Field).
  etransitivity; [apply dec_struct_object|]. unfold Event_zero.
  cbn [app we_EventID we_TimestampUnixNano we_Kind we_Level we_FlowID we_ExecutionID
    we_ParentExecutionID we_RetryOfExecutionID we_ExecutionAttempt we_ExecutionSource we_ScopeType
    we_ScopeID we_EntityType we_EntityID we_ParentID we_Fields].
  repeat decode_member. done.
Qed.

Lemma dec_enc_Metadata m : dec_struct assign_Metadata (enc_Metadata m) Metadata_zero = Ok m.
Proof. by destruct m. Qed.

Lemma dec_enc_Envelope v :
  in_s 64 (en_SchemaVersion v) -> Forall event_fits (en_Events v) -> dec_Envelope (enc_Envelope v) = Ok v.
Proof.
  destruct v as [version batch meta events]. intros Hv Hf. simpl in Hv, Hf.
  assert (Forall (fun e => dec_struct assign_Event (enc_Event e) Event_zero = Ok e) events)
    by (eapply Forall_impl; [exact Hf|]; apply dec_enc_Event).
  etransitivity; [apply dec_struct_object|]. unfold Envelope_zero.
  cbn [en_SchemaVersion en_BatchID en_Metadata en_Events].
  do 2 decode_member.
  etransitivity; [eapply dec_members_cons|].
  { change (assign_Envelope "metadata" (enc_Metadata meta) ?n) with
      (x ← dec_struct assign_Metadata (enc_Metadata meta) Metadata_zero; Ok (n <| en_Metadata := x |>)).
    rewrite dec_enc_Metadata. reflexivity. }
  decode_member. done.
Qed.

(** ** Which batches can be marshalled *)

(** The events [Log] may build that the envelope contract accepts. *)
Definition field_loggable (f : Field) : bool :=
  negb (str_eqb (f_key f) "") && (1 <=? f_kind f) && (f_kind f <=? 7).
Definition loggable (e : Event) : bool :=
  negb (ev_Timestamp e =? 0) && negb (str_eqb (ev_Kind e) "") &&
  Bool.eqb (str_eqb (ev_ScopeType e) "") (str_eqb (ev_ScopeID e) "") &&
  (0 <=? ev_Level e) && (ev_Level e <=? 3) && forallb field_loggable (ev_Fields e).

Lemma check_id_text parse id text :
  (forall i, parse (String_ i) = Ok i) -> check_optional_id parse (id_text id) text = Ok tt.
Proof.
  intros Hp. unfold check_optional_id, id_text. destruct (IsZero id); [done|].
  rewrite Hp. by destruct (str_eqb _ _).
Qed.

Lemma parse_String i : decodeID (String_ i) = Ok i.
Proof. apply decode_encode. Qed.

Lemma String_nonempty i : str_eqb (String_ i) "" = false.
Proof.
  unfold str_eqb. apply bool_decide_eq_false. intros H. pose proof (slen_encodeID i) as Hl.
  unfold String_ in H. by rewrite H in Hl.
Qed.

Lemma known_level_String l : known_level (Level_String l) = (0 <=? l) && (l <=? 3).
Proof.
  unfold Level_String, LevelDebug, LevelInfo, LevelWarn, LevelError.
  destruct (Z.eqb_spec l 0) as [->|]; [done|]. destruct (Z.eqb_spec l 1) as [->|]; [done|].
  destruct (Z.eqb_spec l 2) as [->|]; [done|]. destruct (Z.eqb_spec l 3) as [->|]; [done|].
  change (known_level "unknown") with false. lia.
Qed.

Lemma known_type_fieldType k : known_type (fieldType k) = (1 <=? k) && (k <=? 7).
Proof.
  unfold fieldType, FieldString, FieldInt, FieldInt64, FieldBool, FieldFloat64, FieldDuration, FieldError.
  destruct (Z.eqb_spec k 1) as [->|]; [done|]. destruct (Z.eqb_spec k 2) as [->|]; [done|].
  destruct (Z.eqb_spec k 3) as [->|]; [done|]. destruct (Z.eqb_spec k 4) as [->|]; [done|].
  destruct (Z.eqb_spec k 5) as [->|]; [done|]. destruct (Z.eqb_spec k 6) as [->|]; [done|].
  destruct (Z.eqb_spec k 7) as [->|]; [done|]. change (known_type "unknown") with false. lia.
Qed.

Lemma from_field_key f : wf_Key (from_field f) = f_key f.
Proof. unfold from_field. by destruct (_ || _). Qed.
Lemma from_field_type f : wf_Type (from_field f) = fieldType (f_kind f).
Proof. unfold from_field. by destruct (_ || _). Qed.

Lemma validate_from_fields fs :
  is_ok (validate_fields (from_field <$> fs)) = forallb field_loggable fs.
Proof.
  induction fs as [|f fs IH]; [done|]. csimpl. rewrite from_field_key, from_field_type, known_type_fieldType.
  unfold field_loggable at 1. destruct (str_eqb (f_key f) ""); [done|]. simpl.
  by destruct ((1 <=? f_kind f) && (f_kind f <=? 7)).
Qed.

Lemma validate_fields_no_panic fs m : validate_fields fs <> Panic m.
Proof. induction fs as [|f fs IH]; [done|]. simpl. by repeat case_match. Qed.

Lemma validateEvent_fromEvent e : is_ok (validateEvent (fromEvent e)) = loggable e.
Proof.
  unfold validateEvent, loggable, fromEvent.
  cbn [we_EventID we_TimestampUnixNano we_Kind we_Level we_FlowID we_ExecutionID
    we_ParentExecutionID we_RetryOfExecutionID we_ScopeType we_ScopeID we_ParentID we_Fields].
  rewrite !(check_id_text _ _ _ parse_String), String_nonempty, known_level_String.
  unfold ParseEventID. rewrite parse_String. cbn [is_ok mbind result_bind orb negb].
  destruct (ev_Timestamp e =? 0); [done|]. destruct (str_eqb (ev_Kind e) ""); [done|]. cbn [orb negb andb].
  rewrite <- validate_from_fields.
  destruct (str_eqb (ev_ScopeType e) ""), (str_eqb (ev_ScopeID e) ""); cbn [xorb Bool.eqb andb]; try done;
    by destruct (0 <=? ev_Level e), (ev_Level e <=? 3).
Qed.

Lemma validateEvent_no_panic e m : validateEvent e <> Panic m.
Proof.
  unfold validateEvent, check_optional_id. repeat case_match; try done. apply validate_fields_no_panic.
Qed.

Lemma validate_events_from i es :
  match validate_events i (fromEvent <$> es) with
  | Ok _ => forallb loggable es = true
  | Fail e => forallb loggable es = false /\ errors_Is e ErrInvalidEnvelope = true
  | Panic _ => False
  end.
Proof.
  revert i; induction es as [|e es IH]; intros i; [done|]. csimpl.
  pose proof (validateEvent_fromEvent e) as Hv. pose proof (validateEvent_no_panic (fromEvent e)) as Hp.
  destruct (validateEvent (fromEvent e)) as [u|err|m]; simpl in Hv; [| |by destruct (Hp m)].
  - rewrite <- Hv. simpl. apply IH.
  - by rewrite <- Hv.
Qed.

Definition batch_loggable (batch : Batch) : bool :=
  match b_Events batch with [] => false | _ => true end &&
  negb (str_eqb (md_Service (b_Metadata batch)) "") && forallb loggable (b_Events batch).

(** The envelope [MarshalBatch] builds for a batch whose first event is [first]. *)
Definition batch_envelope (batch : Batch) (first : Event) : Envelope :=
  mkEnvelope Version (String_ (ev_ID first)) (b_Metadata batch) (fromEvent <$> b_Events batch).

Lemma Validate_batch batch first rest :
  b_Events batch = first :: rest ->
  match Validate (batch_envelope batch first) with
  | Ok _ => batch_loggable batch = true
  | Fail e => batch_loggable batch = false /\ errors_Is e ErrInvalidEnvelope = true
  | Panic _ => False
  end.
Proof.
  intros Hev. unfold Validate, batch_loggable, batch_envelope, ParseEventID. rewrite Hev.
  cbn [en_SchemaVersion en_BatchID en_Metadata en_Events]. rewrite String_nonempty, parse_String. simpl.
  destruct (str_eqb (md_Service (b_Metadata batch)) ""); simpl; [done|].
  apply (validate_events_from 0 (first :: rest)).
Qed.

Lemma Unmarshal_Marshal (v : Envelope) (data : bytes) :
  Marshal v = Ok data -> Forall event_fits (en_Events v) -> json_ok (enc_Envelope v) = true ->
  Unmarshal data = Ok v.
Proof.
  unfold Marshal, Unmarshal. intros Hm Hf Hok.
  destruct (Validate v) as [[]|e|m] eqn:Hv; [|done|done].
  assert (data = json_print (enc_Envelope v)) as -> by (by inversion Hm).
  rewrite json_parse_print by done. cbn [mbind result_bind].
  rewrite dec_enc_Envelope; [by rewrite Hv| |done].
  unfold Validate in Hv. destruct (Z.eqb_spec (en_SchemaVersion v) Version) as [->|]; [|done].
  unfold in_s, Version. lia.
Qed.

(** C30.  Envelopes survive the wire: whatever [Marshal] produced from a valid
    envelope, [Unmarshal] reads back as the same envelope, every event and field
    included, provided its strings are UTF-8 and its integers are in the range of
    their Go types. *)
Theorem wire_roundtrip (v : Envelope) (data : bytes) :
  Marshal v = Ok data -> Forall event_fits (en_Events v) -> json_ok (enc_Envelope v) = true ->
  Unmarshal data = Ok v.
Proof. intros Hm Hf Hok. by apply Unmarshal_Marshal. Qed.

(** [MarshalBatch] accepts exactly the batches the v1 contract allows: at
    least one event, a service name, and every event with a timestamp, a kind, a
    known level, a scope with both or neither part and typed fields with
    non-empty keys.  The result is the envelope of the batch, identified by its
    first event and with one wire event per event in order; anything else is
    [ErrInvalidEnvelope], so a single bad event rejects its whole batch. *)
Lemma MarshalBatch_spec (batch : Batch) :
  match MarshalBatch batch with
  | Ok data => batch_loggable batch = true /\
      exists first, head (b_Events batch) = Some first /\
        data = json_print (enc_Envelope (batch_envelope batch first))
  | Fail e => batch_loggable batch = false /\ errors_Is e ErrInvalidEnvelope = true
  | Panic _ => False
  end.
Proof.
  unfold MarshalBatch, Marshal. destruct (b_Events batch) as [|first rest] eqn:Hev.
  - split; [unfold batch_loggable; by rewrite Hev|done].
  - pose proof (Validate_batch batch first rest Hev) as Hv. unfold batch_envelope in *. rewrite Hev in *.
    destruct (Validate _) as [[]|e|m]; cbn [mbind result_bind]; [|done|done].
    split; [done|]. by exists first.
Qed.

Definition demo_event (kind : string) (options : list Option) : Event :=
  build_event (zero_array 16) 1700000000000000000 kind options.
Definition demo_batch : Batch :=
  mkBatch (mkMetadata "billing" "prod" "2.1")
    [demo_event "order.paid" [Int_opt "amount" (-250); String_opt "note" "<ok>"; WithScope "tenant" "t1"]].
Definition demo_data : bytes := match MarshalBatch demo_batch with Ok d => d | _ => [] end.
Definition demo_envelope : Envelope :=
  batch_envelope demo_batch (demo_event "order.paid"
    [Int_opt "amount" (-250); String_opt "note" "<ok>"; WithScope "tenant" "t1"]).

Example wire_roundtrip_witness : Marshal demo_envelope = Ok demo_data /\ Unmarshal demo_data = Ok demo_envelope.
Proof.
  assert (Marshal demo_envelope = Ok demo_data) as Hm by (vm_compute; reflexivity).
  split; [exact Hm|]. apply (wire_roundtrip demo_envelope demo_data Hm).
  - repeat constructor; vm_compute; congruence.
  - vm_compute. reflexivity.
Defined.
