(* ===== verification/Payload.v ===== *)
(** * Payload references (src/payload/payload.go)

    The reference to externally stored data, the options of [Put], and the
    reserved event fields that carry a reference. *)

From S2P Require Import Prelude Ids Events GoLib.

Definition ErrInvalidRef : error := sentinel "trail/payload: invalid reference".
Definition ErrPayloadNotFound : error := sentinel "trail/payload: not found".

Abbreviation Compression := string (only parsing).
Definition CompressionNone : Compression := "".
Definition CompressionGZIP : Compression := "gzip".

Record Ref := mkRef {
  ref_Store : string;
  ref_Key : string;
  ref_ContentType : string;
  ref_Size : Z;
  ref_StoredSize : Z;
  ref_SHA256 : array 32;
  ref_Compression : Compression;
  ref_RetainUntil : Z;
  ref_RetentionClass : string
}.

#[global] Instance eta_Ref : Eta Ref :=
  fun r => mkRef (ref_Store r) (ref_Key r) (ref_ContentType r) (ref_Size r) (ref_StoredSize r)
    (ref_SHA256 r) (ref_Compression r) (ref_RetainUntil r) (ref_RetentionClass r).

#[global] Instance Ref_eq_dec : EqDecision Ref.
Proof. solve_decision. Defined.

Definition Ref_zero : Ref := mkRef "" "" "" 0 0 (zero_array 32) "" time_zero "".

Record PutOptions := mkPutOptions {
  po_ContentType : string;
  po_Compression : Compression;
  po_RetainUntil : Z;
  po_RetentionClass : string
}.

(** [text[i*2], text[i*2+1] = digits[value>>4], digits[value&15]] over the sum. *)
Definition checksumText (sum : array 32) : string := hex_Encode sum.

(** The role's prefix of the reserved keys. *)
Definition payload_prefix (role : string) : string := "payload." +:+ role +:+ ".".

Definition Fields (r : Ref) (role : string) : list Option :=
  let prefix := payload_prefix role in
  [String_opt (prefix +:+ "store") (ref_Store r);
   String_opt (prefix +:+ "key") (ref_Key r);
   String_opt (prefix +:+ "content_type") (ref_ContentType r);
   Int64_opt (prefix +:+ "size") (ref_Size r);
   Int64_opt (prefix +:+ "stored_size") (ref_StoredSize r);
   String_opt (prefix +:+ "sha256") (checksumText (ref_SHA256 r))] ++
  (if str_eqb (ref_Compression r) CompressionNone then []
   else [String_opt (prefix +:+ "compression") (ref_Compression r)]) ++
  (if time_IsZero (ref_RetainUntil r) then []
   else [Int64_opt (prefix +:+ "retain_until_unix_nano") (UnixNano (ref_RetainUntil r))]) ++
  (if str_eqb (ref_RetentionClass r) "" then []
   else [String_opt (prefix +:+ "retention_class") (ref_RetentionClass r)]).

(** The values fit their Go types and the retention time is representable as
    nanoseconds (the zero time stands for no bound). *)
Definition ref_fits (r : Ref) : Prop :=
  in_s 64 (ref_Size r) /\ in_s 64 (ref_StoredSize r) /\
  (ref_RetainUntil r = time_zero \/ in_s 64 (ref_RetainUntil r)).

Lemma hex_Encode_inj l l' : hex_Encode l = hex_Encode l' -> l = l'.
Proof.
  intros H. pose proof (hex_decode_encode l) as H1. rewrite H, hex_decode_encode in H1. by simplify_eq.
Qed.

Lemma slen_hex_Encode l : slen (hex_Encode l) = (2 * length l)%nat.
Proof. unfold slen. induction l as [|b l IH]; simpl; [done|]. rewrite IH. lia. Qed.

(** *** Bytes a text does not contain *)

Definition no_byte (b : byte) (s : string) : Prop := ContainsByte s b = false.

Lemma no_byte_cons b c s : no_byte b (String c s) <-> c <> b /\ no_byte b s.
Proof.
  unfold no_byte, ContainsByte. simpl. destruct (Ascii.eqb_spec c b) as [->|]; simpl; [|by intuition].
  split; [done|]. by intros [? _].
Qed.

Lemma no_byte_app b s t : no_byte b s -> no_byte b t -> no_byte b (s +:+ t).
Proof.
  unfold no_byte, ContainsByte. rewrite string_forallb_app, negb_andb. by intros -> ->.
Qed.

Lemma no_byte_hex b l : fromHexChar b = None -> no_byte b (hex_Encode l).
Proof.
  intros Hb. induction l as [|c l IH]; [done|]. pose proof (hex_byte_roundtrip c) as H. cbn [hex_Encode].
  apply no_byte_cons. split; [intros E; by rewrite E, Hb in H|].
  apply no_byte_cons. split; [|done]. intros E. rewrite E, Hb in H. by case_match.
Qed.
