(* ===== verification/Storage.v ===== *)
(** * The storage model and normalisation (src/storage/storage.go, normalize.go)

    The records ingestion writes and the Explorer reads, and [Normalize], which
    turns a wire envelope into them: identifiers are parsed, reserved fields
    become typed columns and [payload.<role>.*] fields are folded into links. *)

From S2P Require Import Prelude Ids Events GoLib Json JsonText Wire Payload.

Definition ErrNotFound : error := sentinel "trail/storage: not found".
Definition ErrInvalidCursor : error := sentinel "trail/storage: invalid cursor".

(** ** Data *)

Record Delivery := mkDelivery {
  d_Stream : string;
  d_Consumer : string;
  d_StreamSequence : Z;
  d_ConsumerSequence : Z;
  d_Delivered : Z;
  d_ReceivedAt : Z
}.

Record PayloadLink := mkPayloadLink {
  pl_Role : string;
  pl_Ref : Ref;
  pl_OriginalSize : Z;
  pl_CapturedSize : Z;
  pl_Truncated : bool;
  pl_Error : string
}.

Record HTTPRecord := mkHTTPRecord {
  h_Method : string;
  h_Scheme : string;
  h_Host : string;
  h_Path : string;
  h_StatusCode : Z;
  h_Duration : Z;
  h_Success : bool;
  h_RequestSize : Z;
  h_ResponseSize : Z;
  h_RequestPreview : string;
  h_ResponsePreview : string
}.

Record EventRecord := mkEventRecord {
  er_ID : EventID;
  er_Timestamp : Z;
  er_Kind : string;
  er_Level : Level;
  er_FlowID : FlowID;
  er_ExecutionID : ExecutionID;
  er_ParentExecutionID : ExecutionID;
  er_RetryOfExecutionID : ExecutionID;
  er_ExecutionAttempt : Z;
  er_ExecutionSource : string;
  er_Scope : Scope;
  er_EntityType : string;
  er_EntityID : string;
  er_ParentID : EventID;
  er_Fields : list wire_Field;
  er_FlowStatus : string;
  er_ExecutionStatus : string;
  er_ExecutionKind : string;
  er_RetentionClass : string;
  er_Provider : string;
  er_HasError : bool;
  er_HTTP : HTTPRecord;
  er_Payloads : list PayloadLink;
  er_BatchID : EventID;
  er_Metadata : Metadata;
  er_Delivery : Delivery
}.

Record StorageBatch := mkStorageBatch {
  sb_BatchID : EventID;
  sb_Metadata : Metadata;
  sb_Delivery : Delivery;
  sb_Events : list EventRecord
}.

#[global] Instance eta_PayloadLink : Eta PayloadLink :=
  fun r => mkPayloadLink (pl_Role r) (pl_Ref r) (pl_OriginalSize r) (pl_CapturedSize r)
    (pl_Truncated r) (pl_Error r).
#[global] Instance eta_HTTPRecord : Eta HTTPRecord :=
  fun r => mkHTTPRecord (h_Method r) (h_Scheme r) (h_Host r) (h_Path r) (h_StatusCode r) (h_Duration r)
    (h_Success r) (h_RequestSize r) (h_ResponseSize r) (h_RequestPreview r) (h_ResponsePreview r).
#[global] Instance eta_EventRecord : Eta EventRecord :=
  fun r => mkEventRecord (er_ID r) (er_Timestamp r) (er_Kind r) (er_Level r) (er_FlowID r)
    (er_ExecutionID r) (er_ParentExecutionID r) (er_RetryOfExecutionID r) (er_ExecutionAttempt r)
    (er_ExecutionSource r) (er_Scope r) (er_EntityType r) (er_EntityID r) (er_ParentID r) (er_Fields r)
    (er_FlowStatus r) (er_ExecutionStatus r) (er_ExecutionKind r) (er_RetentionClass r) (er_Provider r)
    (er_HasError r) (er_HTTP r) (er_Payloads r) (er_BatchID r) (er_Metadata r) (er_Delivery r).

#[global] Instance PayloadLink_eq_dec : EqDecision PayloadLink.
Proof. solve_decision. Defined.

(** ** Normalisation *)

Definition parseLevel (level : string) : Level :=
  if str_eqb level "debug" then LevelDebug
  else if str_eqb level "warn" then LevelWarn
  else if str_eqb level "error" then LevelError
  else LevelInfo.

(** [link.Ref.X = ...] for the part of the key after the role. *)
Definition set_link_part (link : PayloadLink) (part : string) (field : wire_Field) : PayloadLink :=
  let text := wf_Text field in
  let num := i64 (wf_Num field) in
  let ref := pl_Ref link in
  if str_eqb part "store" then link <| pl_Ref := ref <| ref_Store := text |> |>
  else if str_eqb part "key" then link <| pl_Ref := ref <| ref_Key := text |> |>
  else if str_eqb part "content_type" then link <| pl_Ref := ref <| ref_ContentType := text |> |>
  else if str_eqb part "size" then link <| pl_Ref := ref <| ref_Size := num |> |>
  else if str_eqb part "stored_size" then link <| pl_Ref := ref <| ref_StoredSize := num |> |>
  else if str_eqb part "sha256" then
    match hex_DecodeString text with
    | Ok decoded =>
        match to_array 32 decoded with
        | Some sum => link <| pl_Ref := ref <| ref_SHA256 := sum |> |>
        | None => link
        end
    | _ => link
    end
  else if str_eqb part "compression" then link <| pl_Ref := ref <| ref_Compression := text |> |>
  else if str_eqb part "retain_until_unix_nano" then
    link <| pl_Ref := ref <| ref_RetainUntil := time_Unix0 num |> |>
  else if str_eqb part "retention_class" then link <| pl_Ref := ref <| ref_RetentionClass := text |> |>
  else if str_eqb part "original_size" then link <| pl_OriginalSize := num |>
  else if str_eqb part "captured_size" then link <| pl_CapturedSize := num |>
  else if str_eqb part "truncated" then link <| pl_Truncated := negb (wf_Num field =? 0) |>
  else if str_eqb part "error" then link <| pl_Error := text |>
  else link.

Definition new_link (role : string) : PayloadLink := mkPayloadLink role Ref_zero 0 0 false "".

(** [links] is a map of pointers each created for one role, so updating through
    the pointer is updating the entry. *)
Definition applyPayloadField (links : gmap string PayloadLink) (field : wire_Field)
    : gmap string PayloadLink :=
  match SplitN2 (TrimPrefix (wf_Key field) "payload.") "."%char with
  | [role; part] =>
      if str_eqb role "" then links
      else <[role := set_link_part (default (new_link role) (links !! role)) part field]> links
  | _ => links
  end.

(** One iteration of the field loop of [normalizeEvent]. *)
Definition apply_field (acc : EventRecord * gmap string PayloadLink) (field : wire_Field)
    : EventRecord * gmap string PayloadLink :=
  let '(record, payloads) := acc in
  let key := wf_Key field in
  let text := wf_Text field in
  let num := i64 (wf_Num field) in
  let http := er_HTTP record in
  if str_eqb key FieldFlowStatus then (record <| er_FlowStatus := text |>, payloads)
  else if str_eqb key FieldExecutionStatus then (record <| er_ExecutionStatus := text |>, payloads)
  else if str_eqb key FieldExecutionKind then (record <| er_ExecutionKind := text |>, payloads)
  else if str_eqb key FieldRetentionClass then (record <| er_RetentionClass := text |>, payloads)
  else if str_eqb key "provider" then (record <| er_Provider := text |>, payloads)
  else if str_eqb key "http.method" then (record <| er_HTTP := http <| h_Method := text |> |>, payloads)
  else if str_eqb key "http.scheme" then (record <| er_HTTP := http <| h_Scheme := text |> |>, payloads)
  else if str_eqb key "http.host" then (record <| er_HTTP := http <| h_Host := text |> |>, payloads)
  else if str_eqb key "http.path" then (record <| er_HTTP := http <| h_Path := text |> |>, payloads)
  else if str_eqb key "http.status_code" then
    (record <| er_HTTP := http <| h_StatusCode := num |> |>, payloads)
  else if str_eqb key "http.duration" then (record <| er_HTTP := http <| h_Duration := num |> |>, payloads)
  else if str_eqb key "http.success" then
    (record <| er_HTTP := http <| h_Success := negb (wf_Num field =? 0) |> |>, payloads)
  else if str_eqb key "http.request_size" then
    (record <| er_HTTP := http <| h_RequestSize := num |> |>, payloads)
  else if str_eqb key "http.response_size" then
    (record <| er_HTTP := http <| h_ResponseSize := num |> |>, payloads)
  else if str_eqb key "http.request_preview" then
    (record <| er_HTTP := http <| h_RequestPreview := text |> |>, payloads)
  else if str_eqb key "http.response_preview" then
    (record <| er_HTTP := http <| h_ResponsePreview := text |> |>, payloads)
  else
    (if str_eqb (wf_Type field) "error" then record <| er_HasError := true |> else record,
     if HasPrefix key "payload." then applyPayloadField payloads field else payloads).

(** The order of [sort.Strings]. *)
Definition string_le (a b : string) : Prop := String.leb a b = true.
#[global] Instance string_le_dec a b : Decision (string_le a b).
Proof. unfold string_le. apply _. Defined.

(** A link worth keeping: it names an object or reports why there is none. *)
Definition link_kept (link : PayloadLink) : bool :=
  negb (str_eqb (ref_Store (pl_Ref link)) "") || negb (str_eqb (ref_Key (pl_Ref link)) "") ||
  negb (str_eqb (pl_Error link) "").

(** The loop over the sorted roles; [roles] is the map's key set in any order. *)
Definition links_of (roles : list string) (payloads : gmap string PayloadLink) : list PayloadLink :=
  filter (fun link => link_kept link = true) (omap (fun role => payloads !! role) (merge_sort string_le roles)).

(** [id, _ = parse(text)]: the zero identifier on error. *)
Definition id_or_zero (r : result id16) : id16 := match r with Ok id => id | _ => zero_array 16 end.
Definition optional_id (text : string) : id16 :=
  if str_eqb text "" then zero_array 16 else id_or_zero (decodeID text).

Definition HTTPRecord_zero : HTTPRecord := mkHTTPRecord "" "" "" "" 0 0 false 0 0 "" "".

(** The record before its fields are interpreted. *)
Definition base_record (event : wire_Event) (metadata : Metadata) (batchID : EventID)
    (delivery : Delivery) : EventRecord :=
  mkEventRecord (id_or_zero (ParseEventID (we_EventID event))) (time_Unix0 (we_TimestampUnixNano event))
    (we_Kind event) (parseLevel (we_Level event)) (optional_id (we_FlowID event))
    (optional_id (we_ExecutionID event)) (optional_id (we_ParentExecutionID event))
    (optional_id (we_RetryOfExecutionID event)) (we_ExecutionAttempt event) (we_ExecutionSource event)
    (mkScope (we_ScopeType event) (we_ScopeID event)) (we_EntityType event) (we_EntityID event)
    (optional_id (we_ParentID event)) (we_Fields event) "" "" "" "" "" false HTTPRecord_zero []
    batchID metadata delivery.

Definition normalizeEvent (event : wire_Event) (metadata : Metadata) (batchID : EventID)
    (delivery : Delivery) : result EventRecord :=
  let '(record, payloads) :=
    fold_left apply_field (we_Fields event) (base_record event metadata batchID delivery, ∅) in
  Ok (record <| er_Payloads := links_of (map_to_list payloads).*1 payloads |>).

Definition Normalize (envelope : Envelope) (delivery : Delivery) : result StorageBatch :=
  _ ← Validate envelope;
  let batchID := id_or_zero (ParseEventID (en_BatchID envelope)) in
  events ← go_range (fun i event =>
      match normalizeEvent event (en_Metadata envelope) batchID delivery with
      | Ok record => Ok record
      | Fail err => Fail (Err (err_chain err) ("event " +:+ pretty i +:+ ": " +:+ err_text err))
      | Panic m => Panic m
      end) (en_Events envelope);
  Ok (mkStorageBatch batchID (en_Metadata envelope) delivery events).

Lemma Normalize_safe envelope delivery : safe (Normalize envelope delivery).
Proof.
  unfold Normalize. apply safe_bind; [apply Validate_safe|]. intros _. apply safe_bind; [|done].
  apply safe_go_range_from. intros i e. unfold normalizeEvent. by destruct (fold_left _ _ _).
Qed.

Definition Float64Value (field : wire_Field) : Z := wf_Num field.

(** ** What the field loop changes *)

(** The record without the columns derived from fields. *)
Definition plain (r : EventRecord) : EventRecord :=
  mkEventRecord (er_ID r) (er_Timestamp r) (er_Kind r) (er_Level r) (er_FlowID r)
    (er_ExecutionID r) (er_ParentExecutionID r) (er_RetryOfExecutionID r) (er_ExecutionAttempt r)
    (er_ExecutionSource r) (er_Scope r) (er_EntityType r) (er_EntityID r) (er_ParentID r) (er_Fields r)
    "" "" "" "" "" false HTTPRecord_zero [] (er_BatchID r) (er_Metadata r) (er_Delivery r).

Lemma apply_field_plain r p f : plain (apply_field (r, p) f).1 = plain r.
Proof.
  destruct r as [????? ????? ????? ????? ????? ?]. unfold apply_field.
  repeat match goal with |- context [if ?b then _ else _] => destruct b; try reflexivity end.
Qed.

Lemma fold_apply_field_plain fs r p : plain (fold_left apply_field fs (r, p)).1 = plain r.
Proof.
  revert r p; induction fs as [|f fs IH]; intros r p; [done|]. cbn [fold_left].
  pose proof (apply_field_plain r p f) as Hp. destruct (apply_field (r, p) f) as [r' p'].
  simpl in Hp. by rewrite IH, Hp.
Qed.

(** The text of the last field with a key, else [d]. *)
Definition last_text (key d : string) (fs : list wire_Field) : string :=
  fold_left (fun acc f => if str_eqb (wf_Key f) key then wf_Text f else acc) fs d.

Lemma fold_apply_field_get (get : EventRecord -> string) key fs r p :
  (forall r p f, get (apply_field (r, p) f).1 = if str_eqb (wf_Key f) key then wf_Text f else get r) ->
  get (fold_left apply_field fs (r, p)).1 = last_text key (get r) fs.
Proof.
  intros Hget. unfold last_text. revert r p; induction fs as [|f fs IH]; intros r p; [done|].
  cbn [fold_left]. rewrite <- (Hget r p f). destruct (apply_field (r, p) f) as [r' p']. apply IH.
Qed.

Lemma str_eqb_spec a b : reflect (a = b) (str_eqb a b).
Proof. unfold str_eqb. apply bool_decide_reflect. Qed.

Ltac solve_field_get :=
  let r := fresh "r" in let p := fresh "p" in let f := fresh "f" in
  intros r p f; destruct r; unfold apply_field;
  repeat (match goal with
    |- context [if str_eqb (wf_Key f) ?k then _ else _] =>
      destruct (str_eqb_spec (wf_Key f) k) as [->|]; try reflexivity
    end);
  repeat match goal with |- context [if ?b then _ else _] => destruct b end; reflexivity.

Lemma apply_field_FlowStatus : forall r p f, er_FlowStatus (apply_field (r, p) f).1 =
  if str_eqb (wf_Key f) FieldFlowStatus then wf_Text f else er_FlowStatus r.
Proof. solve_field_get. Qed.
Lemma apply_field_ExecutionStatus : forall r p f, er_ExecutionStatus (apply_field (r, p) f).1 =
  if str_eqb (wf_Key f) FieldExecutionStatus then wf_Text f else er_ExecutionStatus r.
Proof. solve_field_get. Qed.
Lemma apply_field_ExecutionKind : forall r p f, er_ExecutionKind (apply_field (r, p) f).1 =
  if str_eqb (wf_Key f) FieldExecutionKind then wf_Text f else er_ExecutionKind r.
Proof. solve_field_get. Qed.
Lemma apply_field_RetentionClass : forall r p f, er_RetentionClass (apply_field (r, p) f).1 =
  if str_eqb (wf_Key f) FieldRetentionClass then wf_Text f else er_RetentionClass r.
Proof. solve_field_get. Qed.

(** ** From [Log] to the stored record *)

(** [r] is the stored form of the logged event [e]. *)
Record stored_as (metadata : Metadata) (batchID : EventID) (delivery : Delivery)
    (e : Event) (r : EventRecord) : Prop := {
  sa_plain : plain r = mkEventRecord (ev_ID e) (ev_Timestamp e) (ev_Kind e) (ev_Level e) (ev_FlowID e)
    (ev_ExecutionID e) (ev_ParentExecutionID e) (ev_RetryOfExecutionID e) (ev_ExecutionAttempt e)
    (ev_ExecutionSource e) (mkScope (ev_ScopeType e) (ev_ScopeID e)) (ev_EntityType e) (ev_EntityID e)
    (ev_ParentID e) (from_field <$> ev_Fields e)
    "" "" "" "" "" false HTTPRecord_zero [] batchID metadata delivery;
  sa_flow : er_FlowStatus r = last_text FieldFlowStatus "" (from_field <$> ev_Fields e);
  sa_execution : er_ExecutionStatus r = last_text FieldExecutionStatus "" (from_field <$> ev_Fields e);
  sa_kind : er_ExecutionKind r = last_text FieldExecutionKind "" (from_field <$> ev_Fields e);
  sa_class : er_RetentionClass r = last_text FieldRetentionClass "" (from_field <$> ev_Fields e)
}.

Lemma optional_id_text id : optional_id (id_text id) = id.
Proof.
  unfold optional_id, id_text, IsZero. case_bool_decide as H; [by rewrite H|].
  by rewrite String_nonempty, parse_String.
Qed.

Lemma parseLevel_String l : (0 <=? l) && (l <=? 3) = true -> parseLevel (Level_String l) = l.
Proof.
  intros H. assert (l = 0 \/ l = 1 \/ l = 2 \/ l = 3) as [->|[->|[->| ->]]] by lia; done.
Qed.

Lemma base_record_fromEvent e metadata batchID delivery :
  loggable e = true ->
  base_record (fromEvent e) metadata batchID delivery =
    mkEventRecord (ev_ID e) (ev_Timestamp e) (ev_Kind e) (ev_Level e) (ev_FlowID e)
    (ev_ExecutionID e) (ev_ParentExecutionID e) (ev_RetryOfExecutionID e) (ev_ExecutionAttempt e)
    (ev_ExecutionSource e) (mkScope (ev_ScopeType e) (ev_ScopeID e)) (ev_EntityType e) (ev_EntityID e)
    (ev_ParentID e) (from_field <$> ev_Fields e)
    "" "" "" "" "" false HTTPRecord_zero [] batchID metadata delivery.
Proof.
  intros Hl. unfold loggable in Hl. unfold base_record, fromEvent, ParseEventID.
  cbn [we_EventID we_TimestampUnixNano we_Kind we_Level we_FlowID we_ExecutionID
    we_ParentExecutionID we_RetryOfExecutionID we_ExecutionAttempt we_ExecutionSource we_ScopeType
    we_ScopeID we_EntityType we_EntityID we_ParentID we_Fields].
  rewrite parse_String, !optional_id_text, parseLevel_String; [done|].
  bool_cases. lia.
Qed.

Lemma normalizeEvent_fromEvent e metadata batchID delivery :
  loggable e = true ->
  exists r, normalizeEvent (fromEvent e) metadata batchID delivery = Ok r /\
    stored_as metadata batchID delivery e r.
Proof.
  intros Hl. unfold normalizeEvent.
  pose proof (base_record_fromEvent e metadata batchID delivery Hl) as Hb.
  set (b := base_record _ _ _ _) in *. change (we_Fields (fromEvent e)) with (from_field <$> ev_Fields e).
  set (fs := from_field <$> ev_Fields e) in *.
  pose proof (fold_apply_field_plain fs b ∅) as Hp.
  pose proof (fold_apply_field_get er_FlowStatus _ fs b ∅ apply_field_FlowStatus) as H1.
  pose proof (fold_apply_field_get er_ExecutionStatus _ fs b ∅ apply_field_ExecutionStatus) as H2.
  pose proof (fold_apply_field_get er_ExecutionKind _ fs b ∅ apply_field_ExecutionKind) as H3.
  pose proof (fold_apply_field_get er_RetentionClass _ fs b ∅ apply_field_RetentionClass) as H4.
  destruct (fold_left apply_field fs (b, ∅)) as [r p]. cbn [fst] in *.
  eexists. split; [reflexivity|]. rewrite Hb in Hp, H1, H2, H3, H4. by split.
Qed.

Lemma Normalize_batch (batch : Batch) (first : Event) (delivery : Delivery) :
  batch_loggable batch = true -> head (b_Events batch) = Some first ->
  exists sb, Normalize (batch_envelope batch first) delivery = Ok sb /\
    sb_BatchID sb = ev_ID first /\ sb_Metadata sb = b_Metadata batch /\ sb_Delivery sb = delivery /\
    Forall2 (stored_as (b_Metadata batch) (ev_ID first) delivery) (b_Events batch) (sb_Events sb).
Proof.
  intros Hl Hh. destruct (b_Events batch) as [|first' rest] eqn:Hev; [done|]. simplify_eq/=.
  pose proof (Validate_batch batch first rest Hev) as Hv.
  unfold Normalize. destruct (Validate (batch_envelope batch first)) as [[]|e|m]; [|destruct Hv; congruence|done].
  cbn [mbind result_bind batch_envelope en_BatchID en_Metadata en_Events]. unfold ParseEventID.
  rewrite parse_String. cbn [id_or_zero].
  assert (Hall : Forall (fun e => loggable e = true) (b_Events batch)).
  { unfold batch_loggable in Hl. apply andb_true_iff in Hl as [_ Hl].
    apply Forall_forall. intros e He. rewrite forallb_forall in Hl. by apply Hl, list_elem_of_In. }
  rewrite <- Hev. clear Hv Hl Hev. unfold go_range.
  set (events := b_Events batch) in *.
  enough (forall i, exists rs,
    go_range_from (fun i event => match normalizeEvent event (b_Metadata batch) (ev_ID first) delivery with
      | Ok record => Ok record
      | Fail err => Fail (Err (err_chain err) ("event " +:+ pretty i +:+ ": " +:+ err_text err))
      | Panic m => Panic m
      end) i (fromEvent <$> events) = Ok rs /\
    Forall2 (stored_as (b_Metadata batch) (ev_ID first) delivery) events rs) as H.
  { destruct (H 0%nat) as (rs & -> & HF). eexists. by split. }
  induction Hall as [|e es He _ IH]; intros i; [by exists []|]. csimpl.
  destruct (normalizeEvent_fromEvent e (b_Metadata batch) (ev_ID first) delivery He) as (r & -> & Hr).
  destruct (IH (S i)) as (rs & -> & HF). exists (r :: rs). by split; [|constructor].
Qed.

(** What [Log] builds is what storage receives: the envelope of a batch
    that [MarshalBatch] accepts normalises without error to one record per event,
    in order, with the event's identity, time, level, correlation ids, scope,
    entity and fields, the lifecycle columns taken from the last field of their
    reserved key, and the batch's metadata, identity and delivery. *)
Lemma normalize_logged (batch : Batch) (first : Event) (delivery : Delivery) :
  batch_loggable batch = true -> head (b_Events batch) = Some first ->
  exists sb, Normalize (batch_envelope batch first) delivery = Ok sb /\
    sb_BatchID sb = ev_ID first /\ sb_Metadata sb = b_Metadata batch /\ sb_Delivery sb = delivery /\
    Forall2 (stored_as (b_Metadata batch) (ev_ID first) delivery) (b_Events batch) (sb_Events sb).
Proof. intros Hl Hh. by apply Normalize_batch. Qed.

Example normalize_logged_witness :
  exists sb, Normalize demo_envelope (mkDelivery "s" "c" 1 1 1 0) = Ok sb /\
    length (sb_Events sb) = 1%nat.
Proof.
  destruct (normalize_logged demo_batch _ (mkDelivery "s" "c" 1 1 1 0)
    ltac:(vm_compute; reflexivity) eq_refl) as (sb & Hsb & _ & _ & _ & HF).
  exists sb. split; [exact Hsb|]. apply Forall2_length in HF. rewrite <- HF. reflexivity.
Defined.

(** ** Payload links *)

Definition is_payload_field (f : wire_Field) : bool := HasPrefix (wf_Key f) "payload.".

Lemma apply_field_payloads r p f :
  (apply_field (r, p) f).2 = if is_payload_field f then applyPayloadField p f else p.
Proof.
  unfold apply_field, is_payload_field. destruct f as [key type text num]. cbn [wf_Key wf_Text wf_Num wf_Type].
  repeat (match goal with |- context [if str_eqb key ?k then _ else _] =>
      destruct (str_eqb_spec key k) as [->|]; [reflexivity|] end).
  by destruct (str_eqb type "error").
Qed.

Lemma fold_apply_field_payloads fs r p :
  (fold_left apply_field fs (r, p)).2 =
  fold_left applyPayloadField (filter (fun f => is_payload_field f = true) fs) p.
Proof.
  revert r p; induction fs as [|f fs IH]; intros r p; [done|]. cbn [fold_left].
  pose proof (apply_field_payloads r p f) as Hp. destruct (apply_field (r, p) f) as [r' p'].
  simpl in Hp. rewrite IH. destruct (is_payload_field f) eqn:E.
  - rewrite filter_cons_True by done. simpl. by rewrite Hp.
  - rewrite filter_cons_False by congruence. by rewrite Hp.
Qed.

Lemma applyPayloadField_key links role part type text num :
  role <> EmptyString -> ContainsByte role "."%char = false ->
  let field := mkWireField (payload_prefix role +:+ part) type text num in
  applyPayloadField links field =
    <[role := set_link_part (default (new_link role) (links !! role)) part field]> links.
Proof.
  intros Hne Hdot field. unfold applyPayloadField, SplitN2, payload_prefix.
  change (wf_Key field) with (payload_prefix role +:+ part). unfold payload_prefix.
  rewrite !string_app_assoc, TrimPrefix_app.
  change ("." +:+ part) with (String "."%char EmptyString +:+ part).
  rewrite string_app_cons, string_app_nil_l, cut_byte_app by done.
  by destruct (str_eqb_spec role "").
Qed.

(** Successive fields of one role update one entry. *)
Lemma applyPayloadField_next links role link part type text num :
  role <> EmptyString -> ContainsByte role "."%char = false ->
  let field := mkWireField (payload_prefix role +:+ part) type text num in
  applyPayloadField (<[role := link]> links) field = <[role := set_link_part link part field]> links.
Proof.
  intros Hne Hdot field. unfold field. rewrite applyPayloadField_key by done.
  by rewrite lookup_insert_eq, insert_insert_eq.
Qed.

(** The wire form of the field an option carries. *)
Definition wire_of (o : Option) : wire_Field := from_field (o_field o).

Lemma from_String key text : wire_of (String_opt key text) = mkWireField key "string" text 0.
Proof. done. Qed.
Lemma from_Int64 key v : in_s 64 v -> wire_of (Int64_opt key v) = mkWireField key "int64" "" (u64 v).
Proof.
  intros Hv. unfold wire_of, from_field, Int64_. cbn -[wrapu wraps]. by rewrite u64_i64_kinds.
Qed.

Lemma UnixNano_in t : in_s 64 (UnixNano t).
Proof. apply wraps_in. lia. Qed.

Lemma fold_left_cons {A B} (f : A -> B -> A) b l a : fold_left f (b :: l) a = fold_left f l (f a b).
Proof. done. Qed.

Ltac payload_step :=
  rewrite fold_left_cons; rewrite ?from_String, ?from_Int64 by (done || apply UnixNano_in);
  first [rewrite applyPayloadField_next by done | rewrite applyPayloadField_key by done].

Lemma set_sha256 link sum f : wf_Text f = checksumText sum ->
  set_link_part link "sha256" f = link <| pl_Ref := (pl_Ref link) <| ref_SHA256 := sum |> |>.
Proof.
  intros Hf. change (set_link_part link "sha256" f) with
    (match hex_DecodeString (wf_Text f) with
     | Ok decoded =>
         match to_array 32 decoded with
         | Some sum => link <| pl_Ref := (pl_Ref link) <| ref_SHA256 := sum |> |>
         | None => link
         end
     | _ => link
     end).
  unfold checksumText in Hf. by rewrite Hf, hex_decode_encode, to_array_self.
Qed.

Lemma set_size link v f : wf_Num f = u64 v -> in_s 64 v ->
  set_link_part link "size" f = link <| pl_Ref := (pl_Ref link) <| ref_Size := v |> |>.
Proof. intros Hf Hv. rewrite <- (u64_i64_kinds v Hv), <- Hf. reflexivity. Qed.
Lemma set_stored_size link v f : wf_Num f = u64 v -> in_s 64 v ->
  set_link_part link "stored_size" f = link <| pl_Ref := (pl_Ref link) <| ref_StoredSize := v |> |>.
Proof. intros Hf Hv. rewrite <- (u64_i64_kinds v Hv), <- Hf. reflexivity. Qed.
Lemma set_retain link v f : wf_Num f = u64 v -> in_s 64 v ->
  set_link_part link "retain_until_unix_nano" f = link <| pl_Ref := (pl_Ref link) <| ref_RetainUntil := v |> |>.
Proof. intros Hf Hv. rewrite <- (u64_i64_kinds v Hv), <- Hf. reflexivity. Qed.

(** Folding the fields of a reference rebuilds the reference. *)
Lemma payload_fields_fold r role :
  ref_fits r -> role <> EmptyString -> ContainsByte role "."%char = false ->
  fold_left applyPayloadField (wire_of <$> Fields r role) ∅ =
    {[role := mkPayloadLink role r 0 0 false EmptyString]}.
Proof.
  intros (Hs & Hss & Hr) Hne Hdot.
  destruct r as [store key ctype size stored sha comp retain class]. cbn [ref_Size ref_StoredSize ref_RetainUntil] in *.
  unfold Fields. cbn [ref_Store ref_Key ref_ContentType ref_Size ref_StoredSize ref_SHA256
    ref_Compression ref_RetainUntil ref_RetentionClass].
  rewrite !fmap_app, !fold_left_app, !fmap_cons, fmap_nil.
  do 6 payload_step. rewrite lookup_empty. cbn [fold_left default].
  rewrite (set_sha256 _ sha) by done.
  rewrite (set_stored_size _ stored), (set_size _ size) by done.
  match goal with |- context [<[role := ?l]> ∅] => change l with
    (mkPayloadLink role (mkRef store key ctype size stored sha "" time_zero "") 0 0 false "") end.
  assert (Hcomp : fold_left applyPayloadField
    (wire_of <$> (if str_eqb comp CompressionNone then [] else [String_opt (payload_prefix role +:+ "compression") comp]))
    (<[role := mkPayloadLink role (mkRef store key ctype size stored sha "" time_zero "") 0 0 false ""]> ∅) =
    <[role := mkPayloadLink role (mkRef store key ctype size stored sha comp time_zero "") 0 0 false ""]> ∅).
  { destruct (str_eqb_spec comp CompressionNone) as [->|]; [done|]. rewrite fmap_cons, fmap_nil. by payload_step. }
  rewrite Hcomp. clear Hcomp.
  assert (Hret : fold_left applyPayloadField
    (wire_of <$> (if time_IsZero retain then []
                  else [Int64_opt (payload_prefix role +:+ "retain_until_unix_nano") (UnixNano retain)]))
    (<[role := mkPayloadLink role (mkRef store key ctype size stored sha comp time_zero "") 0 0 false ""]> ∅) =
    <[role := mkPayloadLink role (mkRef store key ctype size stored sha comp retain "") 0 0 false ""]> ∅).
  { unfold time_IsZero. destruct (Z.eqb_spec retain time_zero) as [->|Hnz]; [done|].
    destruct Hr as [?|Hr]; [done|]. rewrite fmap_cons, fmap_nil. payload_step. cbn [fold_left].
    rewrite (set_retain _ retain); [done| |done]. cbn [wf_Num]. unfold UnixNano. by rewrite i64_id. }
  rewrite Hret. clear Hret. destruct (str_eqb_spec class "") as [->|]; [done|].
  rewrite fmap_cons, fmap_nil. by payload_step.
Qed.

(** A record whose payload fields describe one kept link has that link. *)
Lemma normalizeEvent_single_link event metadata batchID delivery role link :
  fold_left applyPayloadField (filter (fun f => is_payload_field f = true) (we_Fields event)) ∅ = {[role := link]} ->
  link_kept link = true ->
  exists record, normalizeEvent event metadata batchID delivery = Ok record /\ er_Payloads record = [link].
Proof.
  intros Hfs Hk. unfold normalizeEvent.
  pose proof (fold_apply_field_payloads (we_Fields event)
    (base_record event metadata batchID delivery) ∅) as Hp. rewrite Hfs in Hp. clear Hfs.
  destruct (fold_left _ _ _) as [record payloads]. cbn [snd] in Hp. subst payloads.
  eexists. split; [reflexivity|]. cbn -[links_of map_to_list].
  rewrite map_to_list_singleton. unfold links_of. cbn [fmap list_fmap fst].
  change (merge_sort string_le [role]) with [role]. cbn [omap list_omap]. rewrite lookup_singleton_eq.
  by rewrite filter_cons_True.
Qed.

(** A payload reference survives its event: when the payload fields of a
    wire event are those of [ref.Fields(role)], the stored record links exactly
    that reference under that role.  The role must be non-empty and free of dots,
    sizes 64-bit, and the retention time zero or representable in nanoseconds. *)
Lemma payload_ref_roundtrip (r : Ref) (role : string) (event : wire_Event) (metadata : Metadata)
    (batchID : EventID) (delivery : Delivery) :
  ref_fits r -> role <> EmptyString -> ContainsByte role "."%char = false ->
  ref_Store r <> EmptyString \/ ref_Key r <> EmptyString ->
  filter (fun f => is_payload_field f = true) (we_Fields event) = wire_of <$> Fields r role ->
  exists record, normalizeEvent event metadata batchID delivery = Ok record /\
    er_Payloads record = [mkPayloadLink role r 0 0 false EmptyString].
Proof.
  intros Hfit Hne Hdot Hkept Hfs. apply (normalizeEvent_single_link _ _ _ _ role).
  - by rewrite Hfs, payload_fields_fold.
  - unfold link_kept. cbn [pl_Ref pl_Error]. destruct (str_eqb_spec (ref_Store r) ""); [|done].
    by destruct (str_eqb_spec (ref_Key r) ""); [destruct Hkept|].
Qed.

Definition demo_ref : Ref :=
  mkRef "s3" "sha256/ab/abcd" "application/json" 120 80 (zero_array 32) "gzip" 1800000000000000000 "audit".
Definition demo_payload_event : wire_Event :=
  fromEvent (demo_event "doc.stored" (String_opt "note" "n" :: Fields demo_ref "request")).

Example payload_ref_roundtrip_witness :
  exists record, normalizeEvent demo_payload_event (mkMetadata "s" "" "") (zero_array 16)
      (mkDelivery "" "" 0 0 0 0) = Ok record /\
    er_Payloads record = [mkPayloadLink "request" demo_ref 0 0 false EmptyString].
Proof.
  apply (payload_ref_roundtrip demo_ref "request").
  - unfold ref_fits, in_s; simpl; lia.
  - discriminate.
  - vm_compute. reflexivity.
  - left. discriminate.
  - vm_compute. reflexivity.
Defined.

(** ** Order of the payload links *)

Lemma ascii_compare_refl a : Ascii.compare a a = Eq.
Proof. unfold Ascii.compare. apply N.compare_refl. Qed.

#[global] Instance string_le_antisym : AntiSymm (=) string_le.
Proof. intros a b. unfold string_le. apply String.leb_antisym. Qed.
#[global] Instance string_le_total : Total string_le.
Proof. intros a b. unfold string_le. destruct (String.leb_total a b); auto. Qed.

Lemma string_compare_trans a b c : String.compare a b <> Gt -> String.compare b c <> Gt -> String.compare a c <> Gt.
Proof.
  revert b c; induction a as [|x a IH]; intros [|y b] [|z c]; simpl; try done.
  unfold Ascii.compare.
  destruct (N.compare_spec (N_of_ascii x) (N_of_ascii y)) as [Hxy|Hxy|Hxy];
    destruct (N.compare_spec (N_of_ascii y) (N_of_ascii z)) as [Hyz|Hyz|Hyz]; try done;
    destruct (N.compare_spec (N_of_ascii x) (N_of_ascii z)) as [Hxz|Hxz|Hxz]; try done; try lia.
  apply IH.
Qed.

#[global] Instance string_le_trans : Transitive string_le.
Proof.
  intros a b c. unfold string_le, String.leb. pose proof (string_compare_trans a b c).
  destruct (String.compare a b), (String.compare b c), (String.compare a c); naive_solver.
Qed.

(** Normalisation is deterministic although it ranges over a Go map: the
    payload links do not depend on the order in which the map's roles are
    visited, they come sorted by role, one per role, and each names an object or
    carries the capture error. *)
Lemma links_deterministic (payloads : gmap string PayloadLink) (roles : list string) :
  roles ≡ₚ (map_to_list payloads).*1 ->
  (forall role link, payloads !! role = Some link -> pl_Role link = role) ->
  links_of roles payloads = links_of (map_to_list payloads).*1 payloads /\
  StronglySorted string_le (pl_Role <$> links_of roles payloads) /\
  NoDup (pl_Role <$> links_of roles payloads) /\
  (forall link, link ∈ links_of roles payloads <->
     payloads !! pl_Role link = Some link /\ link_kept link = true).
Proof.
  intros Hp Hrole. split.
  { unfold links_of. f_equal. f_equal. apply (StronglySorted_unique string_le).
    - apply StronglySorted_merge_sort; apply _.
    - apply StronglySorted_merge_sort; apply _.
    - by rewrite !merge_sort_Permutation. }
  assert (Hin : forall link, link ∈ links_of roles payloads <->
     payloads !! pl_Role link = Some link /\ link_kept link = true).
  { intros link. unfold links_of. rewrite list_elem_of_filter, list_elem_of_omap. split.
    - intros [Hk (role & _ & Hl)]. by rewrite (Hrole role link Hl).
    - intros [Hl Hk]. split; [done|]. exists (pl_Role link). split; [|done].
      rewrite merge_sort_Permutation, Hp. apply list_elem_of_fmap. exists (pl_Role link, link).
      split; [done|]. by apply elem_of_map_to_list. }
  assert (Hsub : sublist (pl_Role <$> links_of roles payloads) (merge_sort string_le roles)).
  { unfold links_of. induction (merge_sort string_le roles) as [|role l IH]; [done|]. csimpl.
    destruct (payloads !! role) as [link|] eqn:Hl; [|by apply sublist_cons].
    destruct (decide (link_kept link = true)); [rewrite filter_cons_True by done|
      rewrite filter_cons_False by done; by apply sublist_cons].
    csimpl. rewrite (Hrole role link Hl). by apply sublist_skip. }
  split_and!; [| |done].
  - eapply StronglySorted_sublist; [exact Hsub|]. apply StronglySorted_merge_sort; apply _.
  - eapply sublist_NoDup; [|exact Hsub]. rewrite merge_sort_Permutation, Hp. apply NoDup_fst_map_to_list.
Qed.

Definition demo_links : gmap string PayloadLink :=
  <["response" := mkPayloadLink "response" demo_ref 0 0 false ""]>
  (<["request" := mkPayloadLink "request" demo_ref 0 0 false ""]> ∅).

Example links_deterministic_witness :
  pl_Role <$> links_of ["response"; "request"] demo_links = ["request"; "response"] /\
  links_of ["response"; "request"] demo_links = links_of (map_to_list demo_links).*1 demo_links.
Proof.
  split; [vm_compute; reflexivity|].
  apply (links_deterministic demo_links ["response"; "request"]).
  - vm_compute. solve [reflexivity | apply perm_swap].
  - intros role link H. unfold demo_links in H.
    apply lookup_insert_Some in H as [[<- <-]|[_ H]]; [reflexivity|].
    apply lookup_insert_Some in H as [[<- <-]|[_ H]]; [reflexivity|]. by rewrite lookup_empty in H.
Defined.
