(* ===== verification/Archive.v ===== *)
(** * Retention archives (src/archive/archive.go)

    [BundleWriter.Write], [ReadManifest], [ReadEvents] and [Restore], over
    payload stores given by the interface [payload.Store].

    A reader is the bytes it will deliver.  SHA-256, gzip and the codecs of records
    and manifests are parameters here; [ArchiveJson] supplies the JSON codecs. *)

From S2P Require Import Prelude Ids Events GoLib Wire Payload Storage.

Definition ArchiveVersion : string := "trail.archive/v1".

Record PayloadEntry := mkPayloadEntry { pe_Source : Ref; pe_Archive : Ref }.

Record Manifest := mkManifest {
  mf_Version : string;
  mf_ID : string;
  mf_CreatedAt : Z;
  mf_EventCount : Z;
  mf_EventIDs : list string;
  mf_Events : Ref;
  mf_Payloads : list PayloadEntry
}.

#[global] Instance eta_Manifest : Eta Manifest :=
  fun r => mkManifest (mf_Version r) (mf_ID r) (mf_CreatedAt r) (mf_EventCount r) (mf_EventIDs r)
    (mf_Events r) (mf_Payloads r).

Record Receipt := mkReceipt { rc_Manifest : Manifest; rc_ManifestRef : Ref }.

Record RestoreResult := mkRestoreResult {
  rr_ArchiveID : string;
  rr_Restored : Z;
  rr_Next : Z;
  rr_Complete : bool
}.

#[global] Instance eta_RestoreResult : Eta RestoreResult :=
  fun r => mkRestoreResult (rr_ArchiveID r) (rr_Restored r) (rr_Next r) (rr_Complete r).

(** The interface [payload.Store] over a world [W]. *)
Record PayloadStore (W : Type) := mkPayloadStore {
  ps_Put : bytes -> PutOptions -> M W Ref;
  ps_Open : Ref -> M W bytes;
  ps_Delete : Ref -> M W unit
}.
Arguments ps_Put {W} _ _ _.
Arguments ps_Open {W} _ _.
Arguments ps_Delete {W} _ _.

(** [ref.Store + "\x00" + ref.Key]. *)
Definition payloadKey (r : Ref) : string := ref_Store r +:+ String zero_byte (ref_Key r).

Definition newline : byte := "010"%char.

(** Lines as [bufio.ScanLines] delivers them: separated by a line feed, a
    carriage return before it dropped, no empty line after the last separator. *)
Fixpoint split_lines (data : bytes) : list bytes :=
  match data with
  | [] => [[]]
  | c :: rest =>
      if Ascii.eqb c newline then [] :: split_lines rest
      else match split_lines rest with
           | l :: ls => (c :: l) :: ls
           | [] => [[c]]
           end
  end.
Definition drop_cr (l : bytes) : bytes :=
  match rev l with
  | c :: r => if Ascii.eqb c "013"%char then rev r else l
  | [] => l
  end.
Definition scan_lines (data : bytes) : list bytes :=
  let ls := split_lines data in
  drop_cr <$> match last ls with Some [] => removelast ls | _ => ls end.

Definition max_token : Z := 16 * 2 ^ 20.
Definition manifest_limit : Z := 16 * 2 ^ 20.
Definition ErrTooLong : error := sentinel "bufio.Scanner: token too long".

Section Archive.
Context {W : Type}.
Context (sha256 : bytes -> array 32).
Context (gzip : bytes -> bytes) (gunzip : bytes -> result bytes).
Context (enc_record : EventRecord -> result bytes) (dec_record : bytes -> result EventRecord).
Context (enc_manifest : Manifest -> result bytes) (dec_manifest : bytes -> result Manifest).

(** The bytes of an opened object before its compression. *)
Definition logical (ref : Ref) (stored : bytes) : result bytes :=
  if str_eqb (ref_Compression ref) CompressionGZIP then gunzip stored else Ok stored.

(** [enc.Encode(events[i])] for every event. *)
Definition event_data (events : list EventRecord) : result bytes :=
  lines ← go_range (fun _ e => enc_record e) events;
  Ok (concat ((fun line => line ++ [newline]) <$> lines)).

(** ** Writing *)

(** The body of the payload loop of [Write] for a link not seen before. *)
Definition archive_payload (archive : PayloadStore W) (sources : gmap string (PayloadStore W))
    (link : PayloadLink) : M W PayloadEntry :=
  let ref := pl_Ref link in
  match sources !! ref_Store ref with
  | None => fail (errors_New "trail/archive: source payload store is not configured")
  | Some source =>
      reader ← ps_Open source ref;
      data ← lift (logical ref reader);
      archived ← ps_Put archive data
        (mkPutOptions (ref_ContentType ref) (ref_Compression ref) (ref_RetainUntil ref) (ref_RetentionClass ref));
      if negb (bool_decide (ref_SHA256 archived = ref_SHA256 ref)) ||
         negb (ref_Size archived =? ref_Size ref)
      then fail (errors_New "trail/archive: payload verification failed")
      else mret (mkPayloadEntry ref archived)
  end.

(** One iteration of that loop: [seen] and the entries so far. *)
Definition archive_step (archive : PayloadStore W) (sources : gmap string (PayloadStore W))
    (acc : gset string * list PayloadEntry) (link : PayloadLink) : M W (gset string * list PayloadEntry) :=
  let '(seen, entries) := acc in
  let k := payloadKey (pl_Ref link) in
  if decide (k ∈ seen) then mret (seen, entries)
  else entry ← archive_payload archive sources link; mret ({[k]} ∪ seen, entries ++ [entry]).

Definition Write (archive : PayloadStore W) (sources : gmap string (PayloadStore W))
    (now : Z) (events : list EventRecord) : M W Receipt :=
  if Nat.eqb (length events) 0 then fail (errors_New "trail/archive: empty event batch")
  else
    data ← lift (event_data events);
    eventRef ← ps_Put archive data
      (mkPutOptions "application/x-ndjson" CompressionGZIP time_zero "");
    '(_, entries) ← foldM (archive_step archive sources)
      (concat (er_Payloads <$> events)) (∅ : gset string, []);
    let manifest := mkManifest ArchiveVersion (hex_Encode (sha256 data)) now
      (Z.of_nat (length events)) ((fun e => String_ (er_ID e)) <$> events) eventRef entries in
    mdata ← lift (enc_manifest manifest);
    manifestRef ← ps_Put archive mdata
      (mkPutOptions "application/vnd.trail.archive-manifest+json" CompressionNone time_zero "");
    opened ← ps_Open archive manifestRef;
    let verified := take (S (length mdata)) opened in
    if bool_decide (verified = mdata) then mret (mkReceipt manifest manifestRef)
    else fail (errors_New "trail/archive: manifest verification failed").

(** ** Reading *)

Definition ReadManifest (store : PayloadStore W) (ref : Ref) : M W Manifest :=
  r ← ps_Open store ref;
  let data := take (Z.to_nat manifest_limit) r in
  if negb (bool_decide (sha256 data = ref_SHA256 ref))
  then fail (errors_New "trail/archive: manifest checksum verification failed")
  else
    manifest ← lift (dec_manifest data);
    if negb (str_eqb (mf_Version manifest) ArchiveVersion) || str_eqb (mf_ID manifest) "" ||
       (mf_EventCount manifest <? 1) ||
       negb (Z.of_nat (length (mf_EventIDs manifest)) =? mf_EventCount manifest)
    then fail (errors_New "trail/archive: invalid manifest")
    else mret manifest.

(** The scan loop of [ReadEvents] from line [index]; [ctx i] is what
    [ctx.Err()] returns at line [i]. *)
Fixpoint read_loop (ctx : nat -> option error) (offset limit : Z) (lines : list bytes)
    (index : nat) (out : list EventRecord) : result (nat * list EventRecord) :=
  match lines with
  | [] => Ok (index, out)
  | line :: lines =>
      if max_token <=? Z.of_nat (length line) then Fail ErrTooLong
      else match ctx index with
      | Some err => Fail err
      | None =>
          if (offset <=? Z.of_nat index) && (Z.of_nat (length out) <? limit) then
            event ← dec_record line; read_loop ctx offset limit lines (S index) (out ++ [event])
          else read_loop ctx offset limit lines (S index) out
      end
  end.

Definition ReadEvents (ctx : nat -> option error) (store : PayloadStore W) (manifest : Manifest)
    (offset limit : Z) : M W (list EventRecord * bool) :=
  if (offset <? 0) || (limit <? 1) || (10000 <? limit)
  then fail (errors_New "trail/archive: invalid bounded read")
  else
    r ← ps_Open store (mf_Events manifest);
    data ← lift (logical (mf_Events manifest) r);
    '(index, result) ← lift (read_loop ctx offset limit (scan_lines data) 0 []);
    if negb (Z.of_nat index =? mf_EventCount manifest)
    then fail (errors_New "trail/archive: event count verification failed")
    else if negb (bool_decide (sha256 data = ref_SHA256 (mf_Events manifest)))
    then fail (errors_New "trail/archive: event checksum verification failed")
    else mret (result, mf_EventCount manifest <=? offset + Z.of_nat (length result)).

(** ** Restoring *)

(** The body of the payload loop of [Restore]. *)
Definition restore_payload (archiveStore : PayloadStore W) (activeStores : gmap string (PayloadStore W))
    (needed : gset string) (_ : unit) (entry : PayloadEntry) : M W unit :=
  let source := pe_Source entry in
  if negb (bool_decide (payloadKey source ∈ needed)) then mret tt
  else match activeStores !! ref_Store source with
  | None => fail (errors_New "trail/archive: destination payload store is not configured")
  | Some destination =>
      reader ← ps_Open archiveStore (pe_Archive entry);
      data ← lift (logical (pe_Archive entry) reader);
      restored ← ps_Put destination data
        (mkPutOptions (ref_ContentType source) (ref_Compression source) (ref_RetainUntil source)
           (ref_RetentionClass source));
      if negb (bool_decide (ref_SHA256 restored = ref_SHA256 source)) ||
         negb (ref_Size restored =? ref_Size source)
      then fail (errors_New "trail/archive: restored payload verification failed")
      else mret tt
  end.

(** [target.RestoreArchiveEvents] is [restore_events]. *)
Definition Restore (ctx : nat -> option error) (archiveStore : PayloadStore W)
    (activeStores : gmap string (PayloadStore W))
    (restore_events : string -> list EventRecord -> M W Z) (receipt : Receipt) (offset limit : Z)
    : M W RestoreResult :=
  let result := mkRestoreResult (mf_ID (rc_Manifest receipt)) 0 0 false in
  manifest ← ReadManifest archiveStore (rc_ManifestRef receipt);
  if negb (str_eqb (mf_ID manifest) (mf_ID (rc_Manifest receipt)))
  then fail (errors_New "trail/archive: manifest identity mismatch")
  else
    '(events, complete) ← ReadEvents ctx archiveStore manifest offset limit;
    let needed : gset string :=
      list_to_set ((fun link => payloadKey (pl_Ref link)) <$> concat (er_Payloads <$> events)) in
    _ ← foldM (restore_payload archiveStore activeStores needed) (mf_Payloads manifest) tt;
    restored ← restore_events (mf_ID manifest) events;
    let result := result <| rr_Restored := restored |> <| rr_Complete := complete |> in
    mret (if complete then result
          else result <| rr_Next := offset + Z.of_nat (length events) |>).
End Archive.

(** ** Contracts of the parameters *)

(** [m] keeps the world usable and every object in place. *)
Definition undisturbed {W A} (ok : W -> Prop) (holds : Ref -> W -> Prop) (m : M W A) : Prop :=
  forall w w' r, ok w -> m w = (w', r) -> ok w' /\ forall ref, holds ref w -> holds ref w'.

(** What the archive relies on in a payload store, whatever of its calls fail.  The
    references a store issues name an object by the checksum of its content: [Put]
    reports checksum, size and compression of what it stored, the object is then
    there for every issued reference with that checksum, no call but a deletion takes
    it away, and what [Open] reads has the checksum of the reference. *)
Class StoreContract {W} (sha256 : bytes -> array 32) (gunzip : bytes -> result bytes)
    (store : PayloadStore W) := {
  sc_ok : W -> Prop;
  sc_issued : Ref -> Prop;
  sc_present : Ref -> W -> Prop;
  sc_put data opts w w' ref : sc_ok w -> ps_Put store data opts w = (w', Ok ref) ->
    ref_SHA256 ref = sha256 data /\ ref_Size ref = Z.of_nat (length data) /\
    ref_Compression ref = po_Compression opts /\ sc_issued ref;
  sc_stored data opts w w' ref ref0 : sc_ok w -> ps_Put store data opts w = (w', Ok ref) -> sc_issued ref0 ->
    ref_SHA256 ref0 = sha256 data -> ref_Compression ref0 = po_Compression opts -> sc_present ref0 w';
  sc_put_keeps data opts :
    undisturbed sc_ok (fun ref w => sc_issued ref /\ sc_present ref w) (ps_Put store data opts);
  sc_open_keeps ref0 :
    undisturbed sc_ok (fun ref w => sc_issued ref /\ sc_present ref w) (ps_Open store ref0);
  sc_open ref w w' stored : sc_ok w -> sc_issued ref -> sc_present ref w ->
    ps_Open store ref w = (w', Ok stored) ->
    exists data, logical gunzip ref stored = Ok data /\ sha256 data = ref_SHA256 ref;
  (* an issued key is a plain text that alone determines the object *)
  sc_plain ref : sc_issued ref -> no_byte zero_byte (ref_Key ref);
  sc_by_key ref ref0 w : sc_issued ref -> sc_issued ref0 -> ref_Key ref = ref_Key ref0 ->
    sc_present ref w -> sc_present ref0 w
}.
Arguments sc_ok {W sha256 gunzip} store {_} _.
Arguments sc_issued {W sha256 gunzip} store {_} _.
Arguments sc_present {W sha256 gunzip} store {_} _ _.

(** The object of an issued reference is in the store. *)
Definition holds {W} {sha256 gunzip} (store : PayloadStore W) `{!StoreContract sha256 gunzip store}
    (ref : Ref) (w : W) : Prop := sc_issued store ref /\ sc_present store ref w.

(** [m] disturbs nothing of [store]. *)
Abbreviation spares store m := (undisturbed (sc_ok store) (holds store) m).

(** A world in which everything the store held is still there. *)
Definition later {W} {sha256 gunzip} (store : PayloadStore W) `{!StoreContract sha256 gunzip store} (w w' : W) : Prop :=
  sc_ok store w' /\ forall ref, holds store ref w -> holds store ref w'.

(** Encoded records are lines: no line feed inside, no carriage return at the end. *)
Definition line_safe (l : bytes) : Prop := (newline ∉ l) /\ drop_cr l = l.

(** ** Lines *)

Lemma split_lines_app l rest :
  newline ∉ l -> split_lines (l ++ newline :: rest) = l :: split_lines rest.
Proof.
  induction l as [|c l IH]; intros Hn; simpl; [done|].
  destruct (Ascii.eqb_spec c newline) as [->|]; [set_solver|].
  rewrite IH by set_solver. done.
Qed.

Lemma split_lines_data (ls : list bytes) :
  Forall (fun l => newline ∉ l) ls -> split_lines (concat ((fun l => l ++ [newline]) <$> ls)) = ls ++ [[]].
Proof.
  induction 1 as [|l ls Hl _ IH]; [done|]. csimpl. rewrite <- app_assoc. simpl.
  by rewrite split_lines_app, IH.
Qed.

Lemma scan_lines_data ls : Forall line_safe ls -> scan_lines (concat ((fun l => l ++ [newline]) <$> ls)) = ls.
Proof.
  intros H. unfold scan_lines.
  rewrite split_lines_data by (eapply Forall_impl; [exact H|]; by intros ? []).
  rewrite last_snoc, removelast_last. clear -H. induction H as [|l ls [_ Hl] _ IH]; [done|].
  csimpl. by rewrite Hl, IH.
Qed.

(** Plain keys can be told from the names of their stores. *)
Lemma payloadKey_inj r1 r2 :
  no_byte zero_byte (ref_Key r1) -> no_byte zero_byte (ref_Key r2) -> payloadKey r1 = payloadKey r2 ->
  ref_Store r1 = ref_Store r2 /\ ref_Key r1 = ref_Key r2.
Proof.
  unfold payloadKey. generalize (ref_Store r1), (ref_Key r1), (ref_Store r2), (ref_Key r2).
  assert (forall c k, no_byte zero_byte (c +:+ String zero_byte k) -> False) as Hno.
  { intros c k H. induction c as [|d c IH]; [rewrite string_app_nil_l in H|rewrite string_app_cons in H];
      apply no_byte_cons in H as [? ?]; auto. }
  intros s1 k1 s2 k2 H1 H2. revert s2. induction s1 as [|c s1 IH]; intros [|d s2] H; rewrite ?string_app_nil_l, ?string_app_cons in H.
  - by injection H as ->.
  - injection H as <- ->. exfalso. by apply (Hno s2 k2).
  - injection H as -> <-. exfalso. by apply (Hno s1 k1).
  - injection H as -> H. destruct (IH s2 H) as [-> ->]. done.
Qed.

(** Only the empty reference has the empty key. *)
Lemma payload_key_empty store key : store +:+ String zero_byte key = "" +:+ String zero_byte "" -> store = "".
Proof.
  intros H%(f_equal (fun s => length (string_bytes s))). destruct store as [|c store]; [done|]. exfalso.
  rewrite string_bytes_app, length_app in H. simpl in H. lia.
Qed.

Section Theory.
Context {W : Type} (sha256 : bytes -> array 32) (gunzip : bytes -> result bytes).
Context (enc_record : EventRecord -> result bytes) (enc_manifest : Manifest -> result bytes).
Context (archive : PayloadStore W) (sources : gmap string (PayloadStore W)).
Context `{!StoreContract sha256 gunzip archive}.
Context (Hsources : forall name source ref, sources !! name = Some source -> spares archive (ps_Open source ref)).

Lemma later_trans w1 w2 w3 : later archive w1 w2 -> later archive w2 w3 -> later archive w1 w3.
Proof. unfold later. naive_solver. Qed.
Lemma put_later data opts w w' r : sc_ok archive w -> ps_Put archive data opts w = (w', r) -> later archive w w'.
Proof. apply sc_put_keeps. Qed.
Lemma put_holds data opts w w' ref : sc_ok archive w -> ps_Put archive data opts w = (w', Ok ref) -> holds archive ref w'.
Proof.
  intros Hok H. destruct (sc_put _ _ _ _ _ Hok H) as (Hs & _ & Hc & Hi). split; [done|]. by eapply sc_stored.
Qed.

(** The source store of an entry is configured, and the archive holds a copy of what
    its source reference describes. *)
Definition entry_ok (w : W) (entry : PayloadEntry) : Prop :=
  is_Some (sources !! ref_Store (pe_Source entry)) /\ holds archive (pe_Archive entry) w /\
  ref_SHA256 (pe_Archive entry) = ref_SHA256 (pe_Source entry) /\
  ref_Size (pe_Archive entry) = ref_Size (pe_Source entry) /\
  ref_Compression (pe_Archive entry) = ref_Compression (pe_Source entry).

Lemma entry_ok_later w w' entry : later archive w w' -> entry_ok w entry -> entry_ok w' entry.
Proof. intros [_ Hk] (Hs & Hh & H). split; [done|]. split; [by apply Hk|done]. Qed.

Lemma archive_payload_ok link w w' entry :
  sc_ok archive w -> archive_payload gunzip archive sources link w = (w', Ok entry) ->
  later archive w w' /\ pe_Source entry = pl_Ref link /\ entry_ok w' entry.
Proof.
  unfold archive_payload. destruct (sources !! _) as [source|] eqn:Hs; [|done].
  intros Hok H. apply M_bind_Ok in H as (w1 & reader & Hopen & H).
  destruct (Hsources _ _ _ Hs _ _ _ Hok Hopen) as [Hok1 Hk1].
  apply M_bind_Ok in H as (w2 & data & Hl & H). mret_inv Hl.
  apply M_bind_Ok in H as (w3 & archived & Hput & H).
  case_bool_decide as Hsha; simpl in H; [|done].
  destruct (Z.eqb_spec (ref_Size archived) (ref_Size (pl_Ref link))) as [Hsize|]; [|done].
  mret_inv H. split_and!; [eapply later_trans; [done|by eapply put_later]|done|].
  destruct (sc_put _ _ _ _ _ Hok1 Hput) as (Hh & Hn & Hc & _).
  split; [by exists source|]. split; [by eapply put_holds|]. done.
Qed.

(** The loop keeps one verified entry per key it has seen. *)
Definition entries_ok (w : W) (acc : gset string * list PayloadEntry) : Prop :=
  Forall (entry_ok w) acc.2 /\ NoDup ((fun e => payloadKey (pe_Source e)) <$> acc.2) /\
  forall k, k ∈ acc.1 <-> k ∈ (fun e => payloadKey (pe_Source e)) <$> acc.2.

Lemma archive_step_ok acc link w w' acc' :
  archive_step gunzip archive sources acc link w = (w', Ok acc') -> sc_ok archive w -> entries_ok w acc ->
  later archive w w' /\ entries_ok w' acc' /\ acc.1 ⊆ acc'.1 /\ payloadKey (pl_Ref link) ∈ acc'.1.
Proof.
  unfold archive_step. destruct acc as [seen entries]. intros H Hw (HF & Hnd & Hiff).
  destruct (decide _) as [Hin|Hnin]; [mret_inv H; by split_and!|].
  apply M_bind_Ok in H as (w2 & entry & Hp & H). mret_inv H.
  apply archive_payload_ok in Hp as (Hk & Hsrc & Hok); [|done]. cbn [fst snd] in *.
  split_and!; [done| |set_solver|set_solver]. unfold entries_ok. cbn [fst snd]. rewrite fmap_app.
  cbn [fmap list_fmap]. rewrite Hsrc. split_and!.
  - apply Forall_app. split; [|by constructor].
    eapply Forall_impl; [exact HF|]. intros e. by apply entry_ok_later.
  - apply NoDup_app. split_and!; [done| |apply NoDup_singleton].
    intros k Hk1%Hiff ->%list_elem_of_singleton. done.
  - intros k. rewrite elem_of_app, list_elem_of_singleton, elem_of_union, elem_of_singleton, Hiff. tauto.
Qed.

Lemma archive_fold_ok links acc w w' acc' :
  foldM (archive_step gunzip archive sources) links acc w = (w', Ok acc') -> sc_ok archive w -> entries_ok w acc ->
  later archive w w' /\ entries_ok w' acc' /\ acc.1 ⊆ acc'.1 /\
  forall link, link ∈ links -> payloadKey (pl_Ref link) ∈ acc'.1.
Proof.
  revert acc w; induction links as [|link links IH]; intros acc w H Hw Hok; simpl in H.
  - mret_inv H. split_and!; try done. by intros ? ?%elem_of_nil.
  - apply M_bind_Ok in H as (w1 & acc1 & Hstep & H).
    apply archive_step_ok in Hstep as (Hk1 & Hok1 & Hs1 & Hl1); [|done|done].
    apply IH in H as (Hk2 & Hok2 & Hs2 & Hl2); [|apply Hk1|done].
    split_and!; [by eapply later_trans|done|set_solver|].
    intros l [->|Hl]%elem_of_cons; [set_solver|auto].
Qed.

(** What a successful [Write] leaves in the archive store. *)
Lemma Write_stored now events w w' receipt :
  sc_ok archive w ->
  Write sha256 gunzip enc_record enc_manifest archive sources now events w = (w', Ok receipt) ->
  let m := rc_Manifest receipt in
  later archive w w' /\
  exists data mdata, event_data enc_record events = Ok data /\ enc_manifest m = Ok mdata /\
  events <> [] /\
  mf_Version m = ArchiveVersion /\ mf_ID m = hex_Encode (sha256 data) /\
  mf_EventCount m = Z.of_nat (length events) /\
  mf_EventIDs m = (fun e => String_ (er_ID e)) <$> events /\
  ref_SHA256 (mf_Events m) = sha256 data /\ holds archive (mf_Events m) w' /\
  ref_SHA256 (rc_ManifestRef receipt) = sha256 mdata /\
  ref_Compression (rc_ManifestRef receipt) = CompressionNone /\ holds archive (rc_ManifestRef receipt) w' /\
  Forall (entry_ok w') (mf_Payloads m) /\
  NoDup ((fun e => payloadKey (pe_Source e)) <$> mf_Payloads m) /\
  (forall e link, e ∈ events -> link ∈ er_Payloads e ->
     payloadKey (pl_Ref link) ∈ (fun e => payloadKey (pe_Source e)) <$> mf_Payloads m).
Proof.
  unfold Write. intros Hw H. destruct events as [|e events]; [done|].
  cbn [length Nat.eqb] in H.
  apply M_bind_Ok in H as (w0 & data & Hdata & H). mret_inv Hdata.
  apply M_bind_Ok in H as (w1 & eventRef & Hput & H).
  apply M_bind_Ok in H as (w2 & [seen entries] & Hfold & H).
  apply M_bind_Ok in H as (w2' & mdata & Hmdata & H). mret_inv Hmdata.
  apply M_bind_Ok in H as (w3 & manifestRef & Hmput & H).
  apply M_bind_Ok in H as (w4 & opened & Hopen & H).
  case_bool_decide as Hver; [|done]. mret_inv H. cbn [rc_Manifest rc_ManifestRef].
  pose proof (put_later _ _ _ _ _ Hw Hput) as Hk1. pose proof (put_holds _ _ _ _ _ Hw Hput) as Hev.
  destruct (archive_fold_ok _ _ _ _ _ Hfold) as (Hk2 & (HF & Hnd & Hiff) & _ & Hall).
  { apply Hk1. }
  { split_and!; [constructor|constructor|]. intros k. cbn [fst snd fmap list_fmap]. set_solver. }
  pose proof (put_later _ _ _ _ _ (proj1 Hk2) Hmput) as Hk3. pose proof (put_holds _ _ _ _ _ (proj1 Hk2) Hmput) as Hmf.
  assert (later archive w3 w') as Hk4 by exact (sc_open_keeps _ _ _ _ (proj1 Hk3) Hopen).
  destruct (sc_put _ _ _ _ _ Hw Hput) as (Hsha & _). destruct (sc_put _ _ _ _ _ (proj1 Hk2) Hmput) as (Hmsha & _ & Hcomp & _).
  pose proof (later_trans _ _ _ Hk3 Hk4) as Hk34. cbn [mf_Payloads fst snd] in *. split.
  { eapply later_trans; [exact Hk1|]. by eapply later_trans. }
  eexists _, _. split_and!; try done.
  - by apply Hk34, Hk2.
  - by apply Hk4.
  - eapply Forall_impl; [exact HF|]. intros en. by apply entry_ok_later.
  - intros ev link Hev' Hlink. apply Hiff, Hall. apply list_elem_of_In, in_concat.
    exists (er_Payloads ev). split; [|by apply list_elem_of_In].
    apply list_elem_of_In, list_elem_of_fmap. eauto.
Qed.

(** *** Where the entries come from *)

Lemma archive_payload_source link w w' entry :
  archive_payload gunzip archive sources link w = (w', Ok entry) -> pe_Source entry = pl_Ref link.
Proof.
  unfold archive_payload. destruct (sources !! _) as [source|]; [|done]. intros H.
  apply M_bind_Ok in H as (w1 & reader & _ & H). apply M_bind_Ok in H as (w2 & data & _ & H).
  apply M_bind_Ok in H as (w3 & archived & _ & H). destruct (_ || _); [done|]. by mret_inv H.
Qed.

Lemma archive_fold_sources (P : Ref -> Prop) links acc w w' acc' :
  foldM (archive_step gunzip archive sources) links acc w = (w', Ok acc') ->
  (forall link, link ∈ links -> P (pl_Ref link)) -> Forall (fun e => P (pe_Source e)) acc.2 ->
  Forall (fun e => P (pe_Source e)) acc'.2.
Proof.
  revert acc w; induction links as [|link links IH]; intros [seen entries] w H Hl Hacc; simpl in H; [by mret_inv H|].
  apply M_bind_Ok in H as (w1 & acc1 & Hstep & H). apply (IH _ _ H).
  { intros l Hin. apply Hl. by apply list_elem_of_further. }
  unfold archive_step in Hstep. destruct (decide _); [by mret_inv Hstep|].
  apply M_bind_Ok in Hstep as (w2 & entry & Hp & Hstep). mret_inv Hstep. cbn [snd] in *.
  apply Forall_app. split; [done|]. constructor; [|constructor]. rewrite (archive_payload_source _ _ _ _ Hp).
  apply Hl, list_elem_of_here.
Qed.

(** What holds of the archived events' links holds of the sources of the manifest. *)
Lemma Write_sources (P : Ref -> Prop) now events w w' receipt :
  Write sha256 gunzip enc_record enc_manifest archive sources now events w = (w', Ok receipt) ->
  (forall e link, e ∈ events -> link ∈ er_Payloads e -> P (pl_Ref link)) ->
  Forall (fun entry => P (pe_Source entry)) (mf_Payloads (rc_Manifest receipt)).
Proof.
  unfold Write. intros H HP. destruct (Nat.eqb _ _); [done|].
  apply M_bind_Ok in H as (w0 & data & _ & H). apply M_bind_Ok in H as (w1 & eventRef & _ & H).
  apply M_bind_Ok in H as (w2 & [seen entries] & Hfold & H). apply M_bind_Ok in H as (w2' & mdata & _ & H).
  apply M_bind_Ok in H as (w3 & manifestRef & _ & H). apply M_bind_Ok in H as (w4 & opened & _ & H).
  destruct (bool_decide _); [|done]. mret_inv H. cbn [rc_Manifest mf_Payloads].
  apply (archive_fold_sources P _ _ _ _ _ Hfold); [|constructor].
  intros link Hin%list_elem_of_In. apply in_concat in Hin as (l & Hl & Hlink).
  apply list_elem_of_In, list_elem_of_fmap in Hl as (e & -> & He). apply (HP e); [done|by apply list_elem_of_In].
Qed.

(** ** Reading back *)

Context (dec_record : bytes -> result EventRecord).
Context (ctx : nat -> option error) (Hctx : forall i, ctx i = None).

Lemma read_loop_data offset limit events lines i out :
  Forall2 (fun e line => Z.of_nat (length line) < max_token /\ dec_record line = Ok e) events lines ->
  0 <= offset -> 0 <= limit -> Z.of_nat (length out) <= limit ->
  read_loop dec_record ctx offset limit lines i out =
    Ok ((i + length events)%nat,
        out ++ take (Z.to_nat limit - length out) (drop (Z.to_nat offset - i) events)).
Proof.
  intros HF. revert i out. induction HF as [|e line events lines [Hlen Hdec] _ IH]; intros i out Ho Hl Hout.
  - cbn [read_loop]. rewrite drop_nil, take_nil, app_nil_r, Nat.add_0_r. done.
  - cbn [read_loop length]. rewrite (proj2 (Z.leb_gt _ _)) by done. rewrite Hctx.
    destruct (Z.leb_spec offset (Z.of_nat i)) as [Hi|Hi]; cbn [andb].
    + replace (Z.to_nat offset - i)%nat with 0%nat by lia. rewrite drop_0.
      destruct (Z.ltb_spec (Z.of_nat (length out)) limit) as [Hlt|Hge].
      * rewrite Hdec. cbn [mbind result_bind]. rewrite IH by (rewrite ?length_app; simpl; lia).
        replace (Z.to_nat offset - S i)%nat with 0%nat by lia. rewrite drop_0, length_app. simpl.
        replace (Z.to_nat limit - length out)%nat with (S (Z.to_nat limit - (length out + 1)))%nat by lia.
        simpl. rewrite <- app_assoc. f_equal. f_equal. lia.
      * rewrite IH by lia. replace (Z.to_nat limit - length out)%nat with 0%nat by lia. simpl.
        f_equal. f_equal. lia.
    + rewrite IH by lia. replace (Z.to_nat offset - i)%nat with (S (Z.to_nat offset - S i))%nat by lia.
      simpl. f_equal. f_equal. lia.
Qed.
End Theory.

(** ** Properties *)

Section Properties.
Context {W : Type} (sha256 : bytes -> array 32) (gunzip : bytes -> result bytes).
Context (enc_record : EventRecord -> result bytes) (dec_record : bytes -> result EventRecord).
Context (enc_manifest : Manifest -> result bytes) (dec_manifest : bytes -> result Manifest).
Context (archive : PayloadStore W) (sources : gmap string (PayloadStore W)).

(** A record whose encoding is a line short enough for the scanner and decodes to it. *)
Definition line_of (e : EventRecord) (line : bytes) : Prop :=
  enc_record e = Ok line /\ line_safe line /\ Z.of_nat (length line) < max_token /\ dec_record line = Ok e.

Lemma event_data_lines events lines :
  Forall2 line_of events lines -> event_data enc_record events = Ok (concat ((fun line => line ++ [newline]) <$> lines)).
Proof.
  intros H. unfold event_data, go_range.
  assert (forall i, go_range_from (fun _ e => enc_record e) i events = Ok lines) as ->; [|done].
  induction H as [|e line events lines (He & _) _ IH]; intros i; [done|].
  cbn [go_range_from]. rewrite He. cbn [mbind result_bind]. by rewrite IH.
Qed.

(** No other content has the checksum of this one. *)
Definition only_content (data : bytes) : Prop := forall other, sha256 other = sha256 data -> other = data.

(** The outcome of a read that succeeds with [a] whenever its object can be opened. *)
Definition when_opened {A} (opened : W * result bytes) (a : A) : W * result A :=
  (opened.1, match opened.2 with Ok _ => Ok a | Fail e => Fail e | Panic m => Panic m end).

Lemma when_opened_run {A} (m : M W bytes) (f : bytes -> M W A) (a : A) w :
  (forall w' stored, m w = (w', Ok stored) -> f stored w' = (w', Ok a)) -> (m ≫= f) w = when_opened (m w) a.
Proof.
  intros H. unfold mbind, M_bind, when_opened. destruct (m w) as [w' [stored|e|p]]; [|done|done]. by apply H.
Qed.

Context `{!StoreContract sha256 gunzip archive}.
Context (Hsources : forall name source ref, sources !! name = Some source -> spares archive (ps_Open source ref)).

(** What was written is read back, for codecs that decode what they encode. *)
Lemma Write_readback (ctx : nat -> option error) (now : Z) (events : list EventRecord) (lines : list bytes)
    (w w1 w' : W) (receipt : Receipt) (mdata : bytes) (offset limit : Z) :
  (forall i, ctx i = None) -> sc_ok archive w ->
  Write sha256 gunzip enc_record enc_manifest archive sources now events w = (w1, Ok receipt) -> later archive w1 w' ->
  enc_manifest (rc_Manifest receipt) = Ok mdata -> dec_manifest mdata = Ok (rc_Manifest receipt) ->
  Z.of_nat (length mdata) <= manifest_limit -> Forall2 line_of events lines ->
  only_content mdata -> (forall data, event_data enc_record events = Ok data -> only_content data) ->
  0 <= offset -> 1 <= limit <= 10000 ->
  let chunk := take (Z.to_nat limit) (drop (Z.to_nat offset) events) in
  ReadManifest sha256 dec_manifest archive (rc_ManifestRef receipt) w' =
    when_opened (ps_Open archive (rc_ManifestRef receipt) w') (rc_Manifest receipt) /\
  ReadEvents sha256 gunzip dec_record ctx archive (rc_Manifest receipt) offset limit w' =
    when_opened (ps_Open archive (mf_Events (rc_Manifest receipt)) w')
      (chunk, Z.of_nat (length events) <=? offset + Z.of_nat (length chunk)).
Proof.
  intros Hctx Hw Hwrite [Hok Hlater] Henc Hdec Hlim Hrec Hum Hue Hoff Hl chunk.
  destruct (Write_stored sha256 gunzip enc_record enc_manifest archive sources Hsources _ _ _ _ _ Hw Hwrite)
    as (_ & data & md & Hdata & Hmd & Hne & Hv & Hid & Hcount & Hids & Hsha & Hev & Hmsha & Hcomp & Hmf & _).
  apply Hlater in Hev as [Hei Hep], Hmf as [Hmi Hmp]. specialize (Hue data Hdata).
  rewrite Henc in Hmd. injection Hmd as <-. rewrite (event_data_lines _ _ Hrec) in Hdata. apply Ok_inj in Hdata.
  split.
  - unfold ReadManifest. apply when_opened_run. intros w2 stored Ho.
    destruct (sc_open _ _ _ _ Hok Hmi Hmp Ho) as (d & Hd & Hds). unfold logical in Hd. rewrite Hcomp in Hd. simpl in Hd.
    apply Ok_inj in Hd as ->. rewrite Hmsha in Hds. apply Hum in Hds as ->. cbv zeta.
    rewrite take_ge by lia. rewrite bool_decide_eq_true_2 by done. cbn [negb].
    erewrite M_bind_run by (unfold lift; by rewrite Hdec). cbv zeta.
    replace (_ || _) with false; [done|]. symmetry. rewrite Hv, Hid, Hcount, Hids, length_fmap, Z.eqb_refl.
    destruct (str_eqb_spec (hex_Encode (sha256 data)) "") as [He|].
    { pose proof (slen_hex_Encode (sha256 data)) as Hlen. by rewrite He, length_array in Hlen. }
    change (str_eqb ArchiveVersion ArchiveVersion) with true. cbn [negb orb]. rewrite orb_false_r.
    apply Z.ltb_ge. destruct events; [done|]. cbn [length]. lia.
  - unfold ReadEvents. replace ((offset <? 0) || (limit <? 1) || (10000 <? limit)) with false by lia.
    apply when_opened_run. intros w2 stored Ho.
    destruct (sc_open _ _ _ _ Hok Hei Hep Ho) as (d & Hlog & Hds). rewrite Hsha in Hds. apply Hue in Hds as ->.
    erewrite M_bind_run by (unfold lift; by rewrite Hlog).
    assert (scan_lines data = lines) as ->.
    { rewrite <- Hdata. apply scan_lines_data. clear -Hrec. induction Hrec as [|e l es ls (_ & Hl & _) _ IH]; by constructor. }
    erewrite M_bind_run.
    2: { unfold lift. rewrite (read_loop_data dec_record ctx Hctx offset limit events lines);
           [reflexivity| |lia|lia|simpl; lia].
         eapply Forall2_impl; [exact Hrec|]. by intros e l (_ & _ & ? & ?). }
    cbn [length app]. rewrite Nat.sub_0_r, Nat.sub_0_r, Nat.add_0_l, Hcount, Z.eqb_refl. cbn [negb].
    rewrite bool_decide_eq_true_2 by done. done.
Qed.

(** C32.  An archive loses no payload: after a successful [Write] every payload
    linked by an archived event has exactly one entry in the manifest under its
    store and key, the reference to the archived copy has the checksum and size its
    source reference promises, and from then on, as long as nothing is deleted from
    the archive, opening the copy only ever reads content with that checksum.  The
    price: a link without a store and a key, which is what an event has that only
    reports why its payload is missing, makes every [Write] fail unless a store is
    configured under the empty name. *)
Theorem archive_keeps_payloads (now : Z) (events : list EventRecord) (w w' : W) (receipt : Receipt) :
  sc_ok archive w ->
  Write sha256 gunzip enc_record enc_manifest archive sources now events w = (w', Ok receipt) ->
  let entries := mf_Payloads (rc_Manifest receipt) in
  (forall e link, e ∈ events -> link ∈ er_Payloads e ->
     exists entry, entry ∈ entries /\ payloadKey (pe_Source entry) = payloadKey (pl_Ref link)) /\
  NoDup ((fun e => payloadKey (pe_Source e)) <$> entries) /\
  Forall (fun entry =>
    ref_SHA256 (pe_Archive entry) = ref_SHA256 (pe_Source entry) /\
    ref_Size (pe_Archive entry) = ref_Size (pe_Source entry) /\
    forall w1 w2 stored, later archive w' w1 -> ps_Open archive (pe_Archive entry) w1 = (w2, Ok stored) ->
      exists data, logical gunzip (pe_Archive entry) stored = Ok data /\ sha256 data = ref_SHA256 (pe_Source entry))
    entries /\
  (forall e link, e ∈ events -> link ∈ er_Payloads e -> ref_Store (pl_Ref link) = "" -> ref_Key (pl_Ref link) = "" ->
     is_Some (sources !! "")).
Proof.
  intros Hw Hwrite entries.
  destruct (Write_stored sha256 gunzip enc_record enc_manifest archive sources Hsources _ _ _ _ _ Hw Hwrite)
    as (_ & ? & ? & _ & _ & _ & _ & _ & _ & _ & _ & _ & _ & _ & _ & HF & Hnd & Hall).
  assert (forall e link, e ∈ events -> link ∈ er_Payloads e ->
    exists entry, entry ∈ entries /\ payloadKey (pe_Source entry) = payloadKey (pl_Ref link)) as Hentry.
  { intros e link He Hl. destruct (proj1 (list_elem_of_fmap _ _ _) (Hall e link He Hl)) as (entry & ? & ?). eauto. }
  split_and!; [done|done| |].
  - eapply Forall_impl; [exact HF|]. intros entry (_ & Hh & Hsha & Hsize & _). split_and!; [done|done|].
    intros w1 w2 stored [Hok Hl] Ho. destruct (Hl _ Hh) as [Hi Hp]. rewrite <- Hsha. by eapply sc_open.
  - intros e link He Hl Hst Hkey. destruct (Hentry e link He Hl) as (entry & Hin & Hk).
    rewrite Forall_forall in HF. destruct (HF entry Hin) as [Hs' _]. unfold payloadKey in Hk. rewrite Hst, Hkey in Hk.
    by rewrite (payload_key_empty _ _ Hk) in Hs'.
Qed.
End Properties.

(** ** A concrete archive *)

(** A store in memory: an object is found by its checksum. *)
Definition list_store (sum : bytes -> array 32) : PayloadStore (list bytes) :=
  mkPayloadStore _
    (fun data opts w =>
       (data :: w,
        Ok (mkRef "list" (hex_Encode (sum data)) (po_ContentType opts) (Z.of_nat (length data)) (Z.of_nat (length data))
              (sum data) (po_Compression opts) (po_RetainUntil opts) (po_RetentionClass opts))))
    (fun ref w => (w, match List.find (fun data => bool_decide (sum data = ref_SHA256 ref)) w with
                      | Some data => Ok data
                      | None => Fail ErrPayloadNotFound
                      end))
    (fun ref w => (List.filter (fun data => negb (bool_decide (sum data = ref_SHA256 ref))) w, Ok tt)).

#[global] Instance list_store_contract sum : StoreContract sum Ok (list_store sum).
Proof.
  refine {| sc_ok := fun _ => True; sc_issued := fun ref => ref_Key ref = hex_Encode (ref_SHA256 ref);
            sc_present := fun ref w => exists data, data ∈ w /\ sum data = ref_SHA256 ref |}.
  - intros data opts w w' ref _ H. cbn in H. by simplify_eq.
  - intros data opts w w' ref ref0 _ H _ Hs _. cbn in H. simplify_eq. exists data. split; [apply list_elem_of_here|done].
  - intros data opts w w' r _ H. cbn in H. simplify_eq. split; [done|]. intros ref (Hi & d & Hd & Hs). split; [done|].
    exists d. split; [by apply list_elem_of_further|done].
  - intros ref0 w w' r _ H. cbn in H. by simplify_eq.
  - intros ref w w' stored _ _ _ H. cbn in H. destruct (List.find _ w) as [d|] eqn:E; [|done]. simplify_eq.
    apply List.find_some in E as [_ E%bool_decide_eq_true]. exists stored. split; [|done].
    unfold logical. by destruct (str_eqb _ _).
  - intros ref ->. by apply no_byte_hex.
  - intros ref ref0 w Hi Hi0 Hk (data & Hd & Hs). exists data. split; [done|]. rewrite Hs. apply array_eq, hex_Encode_inj.
    by rewrite <- Hi, <- Hi0.
Defined.

Definition demo_record (n : Z) (links : list PayloadLink) : EventRecord :=
  (base_record (fromEvent (demo_event "k" [])) (mkMetadata "s" "" "") (zero_array 16)
    (mkDelivery "" "" 0 0 0 0)) <| er_ExecutionAttempt := n |> <| er_Payloads := links |>.

(** A checksum that tells the contents of a list apart. *)
Definition sum_of (n : nat) : array 32 :=
  default (zero_array 32) (to_array 32 (ascii_of_nat n :: replicate 31 zero_byte)).
Fixpoint sum_among (known : list bytes) (data : bytes) : nat :=
  match known with
  | [] => 0
  | k :: known => if bool_decide (data = k) then S (length known) else sum_among known data
  end.
Definition known_sum (known : list bytes) (data : bytes) : array 32 := sum_of (sum_among known data).

Definition demo_link : PayloadLink :=
  mkPayloadLink "request" (mkRef "list" (hex_Encode (sum_of 1)) "" 2 2 (sum_of 1) "" time_zero "") 0 0 false "".
(** An encoder for the two demonstration records. *)
Definition demo_enc (r : EventRecord) : result bytes :=
  Ok (if er_ExecutionAttempt r =? 1 then string_bytes "one" else string_bytes "two").
Definition demo_events : list EventRecord := [demo_record 1 [demo_link]; demo_record 2 []].
Definition demo_world : list bytes := [string_bytes "{}"].
Definition demo_sum : bytes -> array 32 := known_sum [string_bytes "m"; string_bytes "{}"].
Definition demo_write : list bytes * result Receipt :=
  Write demo_sum Ok demo_enc (fun _ => Ok (string_bytes "m")) (list_store demo_sum)
    {["list" := list_store demo_sum]} 7 demo_events demo_world.
Definition demo_receipt : Receipt :=
  match demo_write.2 with Ok r => r | _ => mkReceipt (mkManifest "" "" 0 0 [] Ref_zero []) Ref_zero end.

Lemma demo_write_ok : demo_write = (demo_write.1, Ok demo_receipt).
Proof. vm_compute. reflexivity. Qed.

Lemma demo_sources sum name source ref :
  ({["list" := list_store sum]} : gmap string _) !! name = Some source -> spares (list_store sum) (ps_Open source ref).
Proof. intros H%lookup_singleton_Some. destruct H as [_ <-]. apply sc_open_keeps. Qed.

Example archive_keeps_payloads_witness :
  exists entry, entry ∈ mf_Payloads (rc_Manifest demo_receipt) /\
    payloadKey (pe_Source entry) = payloadKey (pl_Ref demo_link).
Proof.
  apply (proj1 (archive_keeps_payloads demo_sum Ok demo_enc (fun _ => Ok (string_bytes "m")) (list_store demo_sum)
    {["list" := list_store demo_sum]} (demo_sources demo_sum) 7 demo_events demo_world demo_write.1 demo_receipt
    I demo_write_ok)
    (demo_record 1 [demo_link]) demo_link).
  - apply list_elem_of_here.
  - apply list_elem_of_here.
Defined.
