(* ===== verification/Trace.v ===== *)
(** * Computations that interact with their environment

    A component that drives services it does not own (a store, a broker, a clock,
    a context) is modelled as a computation that appends every interaction, with
    its answer, to a history.  The answers are functions of the history, so a
    theorem about all environments covers every behaviour of those services.  The
    file holds the monad and the rules to reason about histories: triples,
    invariants, justification of each call by what came before it, and the calls a
    computation can make at all. *)

From S2P Require Import Prelude.

(** A computation extends the history. *)
Definition E (C A : Type) : Type := list C -> list C * A.

#[global] Instance E_ret {C} : MRet (E C) := fun A a h => (h, a).
#[global] Instance E_bind {C} : MBind (E C) := fun A B f m h => let '(h', a) := m h in f a h'.

Section Trace.
Context {call : Type}.
#[local] Abbreviation history := (list call).
#[local] Abbreviation E := (E call).

(** Perform one interaction. *)
Definition ask {A} (f : history -> A) (log : A -> call) : E A :=
  fun h => let a := f h in (h ++ [log a], a).
Definition ask2 {A} (f : history -> A * option error) (log : A -> option error -> call)
    : E (A * option error) :=
  ask f (fun '(a, err) => log a err).

Definition triple {A} (P : history -> Prop) (m : E A) (Q : A -> history -> Prop) : Prop :=
  forall h, P h -> Q (m h).2 (m h).1.

Lemma triple_ret {A} (P : history -> Prop) (a : A) (Q : A -> history -> Prop) :
  (forall h, P h -> Q a h) -> triple P (mret a) Q.
Proof. done. Qed.

Lemma triple_bind {A B} P (m : E A) (f : A -> E B) R Q :
  triple P m R -> (forall a, triple (R a) (f a) Q) -> triple P (m ≫= f) Q.
Proof.
  intros Hm Hf h Hh. specialize (Hm h Hh). unfold mbind, E_bind. destruct (m h) as [h' a]. by apply Hf.
Qed.

Lemma triple_ask {A} P (f : history -> A) log (Q : A -> history -> Prop) :
  (forall h, P h -> Q (f h) (h ++ [log (f h)])) -> triple P (ask f log) Q.
Proof. done. Qed.

Lemma triple_ask2 {A} P (f : history -> A * option error) log (Q : A * option error -> history -> Prop) :
  (forall h a err, f h = (a, err) -> P h -> Q (a, err) (h ++ [log a err])) -> triple P (ask2 f log) Q.
Proof. intros H h Hh. unfold ask2, ask. simpl. destruct (f h) as [a err] eqn:E. by apply H. Qed.

Lemma triple_pre {A} (P P' : history -> Prop) (m : E A) Q :
  triple P' m Q -> (forall h, P h -> P' h) -> triple P m Q.
Proof. intros H HP h Hh. auto. Qed.

Lemma triple_post {A} P (m : E A) (Q Q' : A -> history -> Prop) :
  triple P m Q' -> (forall a h, Q' a h -> Q a h) -> triple P m Q.
Proof. intros H HQ h Hh. auto. Qed.

(** The invariant survives a computation. *)
Definition keeps_inv {A} (I : history -> Prop) (m : E A) : Prop := triple I m (fun _ => I).

Lemma keeps_ret {A} I (a : A) : keeps_inv I (mret a).
Proof. by intros h Hh. Qed.
Lemma keeps_bind {A B} I (m : E A) (f : A -> E B) :
  keeps_inv I m -> (forall a, keeps_inv I (f a)) -> keeps_inv I (m ≫= f).
Proof. intros Hm Hf. eapply triple_bind; [exact Hm|]. intros a. apply Hf. Qed.

(** A history all of whose calls of interest are justified by what came before. *)
Definition justified_calls (ok : history -> call -> Prop) (h : history) : Prop :=
  forall h1 c h2, h = h1 ++ c :: h2 -> ok h1 c.

Lemma justified_nil ok : justified_calls ok [].
Proof. by intros [] ? ?. Qed.

Lemma justified_snoc ok h c : justified_calls ok h -> ok h c -> justified_calls ok (h ++ [c]).
Proof.
  intros Hh Hc h1 d h2 Heq. destruct h2 as [|e h2 _] using rev_ind.
  - apply app_inj_tail in Heq as [-> ->]. done.
  - rewrite app_comm_cons, app_assoc in Heq. apply app_inj_tail in Heq as [-> _]. by eapply Hh.
Qed.

Lemma keeps_ask {A} ok (f : history -> A) log :
  (forall h, ok h (log (f h))) -> keeps_inv (justified_calls ok) (ask f log).
Proof. intros H. apply triple_ask. intros h Hh. by apply justified_snoc. Qed.

Lemma keeps_ask2 {A} ok (f : history -> A * option error) log :
  (forall h a err, ok h (log a err)) -> keeps_inv (justified_calls ok) (ask2 f log).
Proof. intros H. apply triple_ask2. intros h a err _ Hh. by apply justified_snoc. Qed.

(** The calls of [m] only extend the history. *)
Definition extends {A} (m : E A) : Prop := forall h, exists h', (m h).1 = h ++ h'.

Lemma extends_ret {A} (a : A) : extends (mret a).
Proof. intros h. exists []. by rewrite app_nil_r. Qed.
Lemma extends_bind {A B} (m : E A) (f : A -> E B) : extends m -> (forall a, extends (f a)) -> extends (m ≫= f).
Proof.
  intros Hm Hf h. destruct (Hm h) as [h1 H1]. unfold mbind, E_bind. destruct (m h) as [h' a].
  simpl in H1. subst h'. destruct (Hf a (h ++ h1)) as [h2 H2]. exists (h1 ++ h2). by rewrite H2, app_assoc.
Qed.
Lemma extends_ask {A} (f : history -> A) log : extends (ask f log).
Proof. intros h. by eexists. Qed.

(** Every call of [m] satisfies [P]. *)
Definition only {A} (P : call -> Prop) (m : E A) : Prop :=
  forall h, exists h', (m h).1 = h ++ h' /\ Forall P h'.

Lemma only_ret {A} P (a : A) : only P (mret a).
Proof. intros h. exists []. by rewrite app_nil_r. Qed.
Lemma only_bind {A B} P (m : E A) (f : A -> E B) : only P m -> (forall a, only P (f a)) -> only P (m ≫= f).
Proof.
  intros Hm Hf h. destruct (Hm h) as (h1 & H1 & F1). unfold mbind, E_bind. destruct (m h) as [h' a].
  simpl in H1. subst h'. destruct (Hf a (h ++ h1)) as (h2 & H2 & F2). exists (h1 ++ h2).
  rewrite H2, app_assoc. split; [done|]. by apply Forall_app.
Qed.
Lemma only_ask {A} P (f : history -> A) log : (forall a, P (log a)) -> only P (ask f log).
Proof. intros HP h. eexists. split; [done|]. by repeat constructor. Qed.
Lemma only_ask2 {A} P (f : history -> A * option error) log :
  (forall a err, P (log a err)) -> only P (ask2 f log).
Proof. intros HP. apply only_ask. by intros [a err]. Qed.

Lemma only_keeps {A} P ok (m : E A) :
  only P m -> (forall h c, P c -> ok h c) -> keeps_inv (justified_calls ok) m.
Proof.
  intros Hm HP h Hh. destruct (Hm h) as (h' & -> & HF). clear Hm. revert h Hh.
  induction HF as [|c h' Hc _ IH]; intros h Hh; [by rewrite app_nil_r|].
  rewrite (app_assoc h [c] h' : h ++ c :: h' = _). apply IH, justified_snoc; auto.
Qed.

(** [m] returns and appends to any history calls related to its result by [R]. *)
Definition emits {A} (m : E A) (R : A -> history -> Prop) : Prop :=
  forall h, exists new, (m h).1 = h ++ new /\ R (m h).2 new.

Lemma emits_ret {A} (a : A) (R : A -> history -> Prop) : R a [] -> emits (mret a) R.
Proof. intros HR h. exists []. by rewrite app_nil_r. Qed.

Lemma emits_bind {A B} (m : E A) (f : A -> E B) R1 R2 (R : B -> history -> Prop) :
  emits m R1 -> (forall a, emits (f a) (R2 a)) ->
  (forall a b n1 n2, R1 a n1 -> R2 a b n2 -> R b (n1 ++ n2)) -> emits (m ≫= f) R.
Proof.
  intros Hm Hf HR h. destruct (Hm h) as (n1 & H1 & F1). unfold mbind, E_bind. destruct (m h) as [h' a].
  simpl in H1, F1. subst h'. destruct (Hf a (h ++ n1)) as (n2 & H2 & F2). exists (n1 ++ n2).
  rewrite H2, app_assoc. split; [done|]. by eapply HR.
Qed.

(** The continuation is specified together with the calls made before it. *)
Lemma emits_seq {A B} (m : E A) (f : A -> E B) R1 (R : B -> history -> Prop) :
  emits m R1 -> (forall a n1, R1 a n1 -> emits (f a) (fun b n2 => R b (n1 ++ n2))) -> emits (m ≫= f) R.
Proof.
  intros Hm Hf h. destruct (Hm h) as (n1 & H1 & F1). unfold mbind, E_bind. destruct (m h) as [h' a].
  simpl in H1, F1. subst h'. destruct (Hf a n1 F1 (h ++ n1)) as (n2 & H2 & F2). exists (n1 ++ n2).
  by rewrite H2, app_assoc.
Qed.

Lemma emits_ask {A} (f : history -> A) log (R : A -> history -> Prop) :
  (forall a, R a [log a]) -> emits (ask f log) R.
Proof. intros HR h. eexists. split; [done|]. apply HR. Qed.

Lemma emits_ask2 {A} (f : history -> A * option error) log (R : A * option error -> history -> Prop) :
  (forall a err, R (a, err) [log a err]) -> emits (ask2 f log) R.
Proof. intros HR. apply emits_ask. intros [a err]. apply HR. Qed.

Lemma emits_ask_seq {A B} (f : history -> A) log (k : A -> E B) (R : B -> history -> Prop) :
  (forall a, emits (k a) (fun b n => R b (log a :: n))) -> emits (ask f log ≫= k) R.
Proof.
  intros Hk. apply emits_seq with (R1 := fun a n => n = [log a]); [by apply emits_ask|].
  intros a n1 ->. apply Hk.
Qed.

(** The answer is that of the environment to some history. *)
Lemma emits_ask_seq_at {A B} (f : history -> A) log (k : A -> E B) (R : B -> history -> Prop) :
  (forall h, emits (k (f h)) (fun b n => R b (log (f h) :: n))) -> emits (ask f log ≫= k) R.
Proof.
  intros Hk. apply emits_seq with (R1 := fun a n => exists h, a = f h /\ n = [log a]).
  - intros h. eexists. split; [done|]. by exists h.
  - intros a n1 (h & -> & ->). apply Hk.
Qed.

Lemma emits_ask2_seq {A B} (f : history -> A * option error) log (k : A * option error -> E B)
    (R : B -> history -> Prop) :
  (forall a err, emits (k (a, err)) (fun b n => R b (log a err :: n))) -> emits (ask2 f log ≫= k) R.
Proof. intros Hk. apply emits_ask_seq. intros [a err]. apply Hk. Qed.

Lemma emits_mono {A} (m : E A) (R R' : A -> history -> Prop) :
  emits m R -> (forall a n, R a n -> R' a n) -> emits m R'.
Proof. intros Hm HR h. destruct (Hm h) as (n & H & F). eauto. Qed.

(** The same from one history: the answers are those of the environment to it. *)
Definition emits_from {A} (h : history) (m : E A) (R : A -> history -> Prop) : Prop :=
  exists new, (m h).1 = h ++ new /\ R (m h).2 new.

Lemma emits_from_ret {A} h (a : A) (R : A -> history -> Prop) : R a [] -> emits_from h (mret a) R.
Proof. intros HR. exists []. by rewrite app_nil_r. Qed.

Lemma emits_from_ask {A B} h (f : history -> A) log (k : A -> E B) (R : B -> history -> Prop) :
  emits_from (h ++ [log (f h)]) (k (f h)) (fun b n => R b (log (f h) :: n)) -> emits_from h (ask f log ≫= k) R.
Proof. intros (new & H1 & H2). exists (log (f h) :: new). split; [|exact H2]. by rewrite <- app_assoc in H1. Qed.

Lemma emits_from_seq {A B} h (m : E A) (f : A -> E B) R1 (R : B -> history -> Prop) :
  emits_from h m R1 -> (forall a n1, R1 a n1 -> emits_from (h ++ n1) (f a) (fun b n2 => R b (n1 ++ n2))) ->
  emits_from h (m ≫= f) R.
Proof.
  intros (n1 & H1 & F1) Hf. unfold emits_from, mbind, E_bind. destruct (m h) as [h' a]. simpl in H1, F1. subst h'.
  destruct (Hf a n1 F1) as (n2 & H2 & F2). exists (n1 ++ n2). by rewrite H2, app_assoc.
Qed.

Lemma emits_at {A} h (m : E A) (R : A -> history -> Prop) : emits m R -> emits_from h m R.
Proof. intros Hm. apply Hm. Qed.

Lemma emits_from_mono {A} h (m : E A) (R R' : A -> history -> Prop) :
  emits_from h m R -> (forall a n, R a n -> R' a n) -> emits_from h m R'.
Proof. intros (n & H & F) HR. exists n. auto. Qed.

(** Justification within consecutive stretches of calls. *)
Lemma justified_app (ok : history -> call -> Prop) h1 h2 :
  (forall p h c, ok h c -> ok (p ++ h) c) ->
  justified_calls ok h1 -> justified_calls ok h2 -> justified_calls ok (h1 ++ h2).
Proof.
  intros Hmono H1 H2. induction h2 as [|c h2 IH] using rev_ind; [by rewrite app_nil_r|].
  rewrite app_assoc. apply justified_snoc.
  - apply IH. intros a d b ->. eapply H2. by rewrite <- app_assoc, <- app_comm_cons.
  - apply Hmono. by eapply H2.
Qed.

Lemma justified_single (ok : history -> call -> Prop) c : ok [] c -> justified_calls ok [c].
Proof. intros Hc. apply (justified_snoc ok [] c (justified_nil ok) Hc). Qed.
End Trace.
