(* ===== verification/Retention.v ===== *)
(** * The retention engine (src/retention/retention.go)

    [New], [Run], [collectPayloads] and everything they call.  The engine talks
    to a retention store, an archiver, payload stores, the clock and its context;
    what each of them answers is given by an [Env] as a function of everything
    that happened before, so it may change over time and fail at any point.  The
    engine threads the history of its calls, which is also what the theorems
    about ordering speak of.

    The worker pool of [collectPayloads] hands every candidate of a page to
    exactly one worker; [env_schedule] chooses the order in which they are
    processed, each candidate's calls being taken together. *)

From S2P Require Import Prelude Ids Events GoLib JsonText Wire Payload Storage Archive Trace.

(** ** Configuration and data *)

Record EventMatch := mkEventMatch {
  em_Kind : string;
  em_Service : string;
  em_Environment : string;
  em_Level : option Level;
  em_FlowStatus : string;
  em_ExecutionStatus : string;
  em_HTTPStatusClass : Z;
  em_HTTPSuccess : option bool
}.

Record EventPolicy := mkEventPolicy { ep_Name : string; ep_Match : EventMatch; ep_TTL : Z }.

Record PayloadMatch := mkPayloadMatch {
  pm_EventMatch : EventMatch;
  pm_Role : string;
  pm_ContentType : string;
  pm_RetentionClass : string
}.

Record PayloadPolicy := mkPayloadPolicy { pp_Name : string; pp_Match : PayloadMatch; pp_TTL : Z }.

(** [Now] and [Archiver] are reached through the environment; [rc_Archiver]
    records whether an archiver was given. *)
Record RetentionConfig := mkRetentionConfig {
  rcf_EventPolicies : list EventPolicy;
  rcf_EventClasses : gmap string Z;
  rcf_DefaultEventTTL : Z;
  rcf_PayloadPolicies : list PayloadPolicy;
  rcf_PayloadClasses : gmap string Z;
  rcf_DefaultPayloadTTL : Z;
  rcf_EventBatchSize : Z;
  rcf_PayloadBatchSize : Z;
  rcf_PayloadConcurrency : Z;
  rcf_MaxEvents : Z;
  rcf_MaxPayloads : Z;
  rcf_MaxRuntime : Z;
  rcf_PayloadGracePeriod : Z;
  rcf_Archiver : bool
}.

#[global] Instance eta_RetentionConfig : Eta RetentionConfig :=
  fun r => mkRetentionConfig (rcf_EventPolicies r) (rcf_EventClasses r) (rcf_DefaultEventTTL r)
    (rcf_PayloadPolicies r) (rcf_PayloadClasses r) (rcf_DefaultPayloadTTL r) (rcf_EventBatchSize r)
    (rcf_PayloadBatchSize r) (rcf_PayloadConcurrency r) (rcf_MaxEvents r) (rcf_MaxPayloads r)
    (rcf_MaxRuntime r) (rcf_PayloadGracePeriod r) (rcf_Archiver r).

Record RPayload := mkRPayload { rp_Role : string; rp_Ref : Ref }.

Record REvent := mkREvent {
  re_ID : string;
  re_Cursor : string;
  re_FlowID : string;
  re_ExecutionID : string;
  re_Timestamp : Z;
  re_Kind : string;
  re_Service : string;
  re_Environment : string;
  re_Level : Level;
  re_FlowStatus : string;
  re_ExecutionStatus : string;
  re_RetentionClass : string;
  re_HTTPStatusCode : Z;
  re_HTTPSuccess : bool;
  re_Payloads : list RPayload
}.

Record ScanRequest := mkScanRequest { sr_Cursor : string; sr_Limit : Z }.
Record EventPage := mkEventPage { evp_Events : list REvent; evp_NextCursor : string; evp_HasMore : bool }.
Record DeleteRequest := mkDeleteRequest {
  dq_Events : list REvent;
  dq_PayloadEligibleAt : gmap string Z;
  dq_ArchiveID : string;
  dq_DryRun : bool
}.
Record DeleteResult := mkDeleteResult { dr_EventsDeleted : Z; dr_PayloadCandidates : Z }.
Record Candidate := mkCandidate {
  ca_Ref : Ref;
  ca_ArchiveID : string;
  ca_EligibleAt : Z;
  ca_CandidateAt : Z;
  ca_Attempts : Z;
  ca_LastError : string
}.

Record Result := mkResult {
  rs_StartedAt : Z;
  rs_FinishedAt : Z;
  rs_Duration : Z;
  rs_EventsScanned : Z;
  rs_EventsMatched : Z;
  rs_EventsEligible : Z;
  rs_EventsDeleted : Z;
  rs_PayloadCandidates : Z;
  rs_PayloadsReferenced : Z;
  rs_PayloadsOrphaned : Z;
  rs_PayloadsUnknown : Z;
  rs_PayloadsDeleted : Z;
  rs_PayloadBytesReclaimed : Z;
  rs_Errors : Z;
  rs_ArchivesCreated : Z;
  rs_EventsArchived : Z;
  rs_PayloadsArchived : Z;
  rs_ArchiveBytesWritten : Z;
  rs_ArchiveFailures : Z
}.

#[global] Instance eta_Result : Eta Result :=
  fun r => mkResult (rs_StartedAt r) (rs_FinishedAt r) (rs_Duration r) (rs_EventsScanned r)
    (rs_EventsMatched r) (rs_EventsEligible r) (rs_EventsDeleted r) (rs_PayloadCandidates r)
    (rs_PayloadsReferenced r) (rs_PayloadsOrphaned r) (rs_PayloadsUnknown r) (rs_PayloadsDeleted r)
    (rs_PayloadBytesReclaimed r) (rs_Errors r) (rs_ArchivesCreated r) (rs_EventsArchived r)
    (rs_PayloadsArchived r) (rs_ArchiveBytesWritten r) (rs_ArchiveFailures r).

(** [Result{StartedAt: now}]. *)
Definition Result0 (now : Z) : Result :=
  mkResult now time_zero 0 0 0 0 0 0 0 0 0 0 0 0 0 0 0 0 0.

(** ** Construction *)

Definition minute : Z := 60 * 1000000000.
Definition hour : Z := 60 * minute.

(** [strings.TrimSpace(s) == ""]: only white space. *)
Fixpoint blank_fuel (fuel : nat) (l : bytes) : bool :=
  match l, fuel with
  | [], _ => true
  | _, O => false
  | c :: l', S fuel =>
      if between 9 13 c || between 32 32 c then blank_fuel fuel l'
      else existsb (fun r =>
             let e := utf8_encode r in bool_decide (take (length e) l = e) && blank_fuel fuel (drop (length e) l))
             [133; 160; 5760; 8192; 8193; 8194; 8195; 8196; 8197; 8198; 8199; 8200; 8201; 8202;
              8232; 8233; 8239; 8287; 12288]
  end.
Definition blank (s : string) : bool := blank_fuel (slen s) (string_bytes s).

(** The two policy loops of [validate]. *)
Definition quote : byte := "034"%char.
Definition policy_error (what name problem : string) : error :=
  errors_New ("trail/retention: " +:+ what +:+ " policy " +:+ String quote (name +:+ String quote (" " +:+ problem))).

Fixpoint validate_policies (what : string) (policies : list (string * EventMatch * Z)) : result unit :=
  match policies with
  | [] => Ok tt
  | (name, m, ttl) :: policies =>
      if ttl <=? 0 then Fail (policy_error what name "needs positive TTL")
      else if (em_HTTPStatusClass m <? 0) || (5 <? em_HTTPStatusClass m)
      then Fail (policy_error what name "has invalid HTTP status class")
      else validate_policies what policies
  end.

(** A class map with a blank name or a non-positive duration. *)
Definition bad_classes (classes : gmap string Z) : bool :=
  existsb (fun '(n, ttl) => blank n || (ttl <=? 0)) (map_to_list classes).

Definition validate (c : RetentionConfig) : result unit :=
  _ ← validate_policies "event"
        ((fun p => (ep_Name p, ep_Match p, ep_TTL p)) <$> rcf_EventPolicies c);
  _ ← validate_policies "payload"
        ((fun p => (pp_Name p, pm_EventMatch (pp_Match p), pp_TTL p)) <$> rcf_PayloadPolicies c);
  if bad_classes (rcf_EventClasses c) then Fail (errors_New "trail/retention: invalid event class")
  else if bad_classes (rcf_PayloadClasses c) then Fail (errors_New "trail/retention: invalid payload class")
  else if (rcf_DefaultEventTTL c <? 0) || (rcf_DefaultPayloadTTL c <? 0)
  then Fail (errors_New "trail/retention: default TTL cannot be negative")
  else Ok tt.

(** [New]; [has_store] tells whether the store is non-nil.  The engine is its
    configuration. *)
Definition New (cfg : RetentionConfig) (has_store : bool) : result RetentionConfig :=
  if negb has_store then Fail (errors_New "trail/retention: store is required")
  else if negb (rcf_Archiver cfg) then Fail (errors_New "trail/retention: archiver is required")
  else
    let cfg := if rcf_EventBatchSize cfg <=? 0 then cfg <| rcf_EventBatchSize := 1000 |> else cfg in
    let cfg := if rcf_PayloadBatchSize cfg <=? 0 then cfg <| rcf_PayloadBatchSize := 100 |> else cfg in
    let cfg := if rcf_PayloadConcurrency cfg <=? 0 then cfg <| rcf_PayloadConcurrency := 1 |> else cfg in
    if 32 <? rcf_PayloadConcurrency cfg
    then Fail (errors_New "trail/retention: payload concurrency exceeds 32")
    else
      let cfg := if rcf_MaxEvents cfg <=? 0 then cfg <| rcf_MaxEvents := 100000 |> else cfg in
      let cfg := if rcf_MaxPayloads cfg <=? 0 then cfg <| rcf_MaxPayloads := 10000 |> else cfg in
      let cfg := if rcf_MaxRuntime cfg <=? 0 then cfg <| rcf_MaxRuntime := 10 * minute |> else cfg in
      let cfg := if rcf_PayloadGracePeriod cfg <=? 0
                 then cfg <| rcf_PayloadGracePeriod := 24 * hour |> else cfg in
      if (100000 <? rcf_EventBatchSize cfg) || (10000 <? rcf_PayloadBatchSize cfg) ||
         (10000000 <? rcf_MaxEvents cfg) || (1000000 <? rcf_MaxPayloads cfg) ||
         (24 * hour <? rcf_MaxRuntime cfg)
      then Fail (errors_New "trail/retention: configured work bound exceeds safety limit")
      else _ ← validate cfg; Ok cfg.

(** ** The environment *)

(** One interaction of the engine, with what came back. *)
Inductive call :=
| CallNow (now : Z)
| CallCtx (err : option error)
| CallReconcile (err : option error)
| CallScan (req : ScanRequest) (page : EventPage) (err : option error)
| CallLoad (events : list REvent) (records : list EventRecord) (err : option error)
| CallArchive (records : list EventRecord) (receipt : Receipt) (err : option error)
| CallRecord (receipt : Receipt) (err : option error)
| CallDelete (req : DeleteRequest) (res : DeleteResult) (err : option error)
| CallCandidates (before limit : Z) (page : list Candidate) (err : option error)
| CallReferenced (refs : list Ref) (live : gmap string bool) (err : option error)
| CallComplete (ref : Ref) (outcome : string) (err : option error)
| CallPayloadDelete (ref : Ref) (err : option error).

Abbreviation history := (list call).

Record Env := mkEnv {
  env_now : history -> Z;
  env_ctx : history -> option error;
  env_reconcile : history -> option error;
  env_scan : history -> ScanRequest -> EventPage * option error;
  env_load : history -> list REvent -> list EventRecord * option error;
  env_archive : history -> list EventRecord -> Receipt * option error;
  env_record : history -> Receipt -> option error;
  env_delete : history -> DeleteRequest -> DeleteResult * option error;
  env_candidates : history -> Z -> Z -> list Candidate * option error;
  env_referenced : history -> list Ref -> gmap string bool * option error;
  env_complete : history -> Ref -> string -> option error;
  env_payload_stores : gset string;       (** the keys of the [payloads] map *)
  env_payload_delete : history -> Ref -> option error;
  env_schedule : history -> list nat
}.

Section Engine.
Context (env : Env) (cfg : RetentionConfig).

Definition Now : E call Z := ask (env_now env) CallNow.
Definition ctx_Err : E call (option error) := ask (env_ctx env) CallCtx.
Definition ReconcileRetention : E call (option error) := ask (env_reconcile env) CallReconcile.
Definition ScanRetentionEvents (req : ScanRequest) :=
  ask2 (fun h => env_scan env h req) (CallScan req).
Definition LoadArchiveEvents (events : list REvent) :=
  ask2 (fun h => env_load env h events) (CallLoad events).
Definition Archiver_Write (records : list EventRecord) :=
  ask2 (fun h => env_archive env h records) (CallArchive records).
Definition RecordArchive (receipt : Receipt) : E call (option error) :=
  ask (fun h => env_record env h receipt) (CallRecord receipt).
Definition DeleteRetentionEvents (req : DeleteRequest) :=
  ask2 (fun h => env_delete env h req) (CallDelete req).
Definition ListPayloadCandidates (before limit : Z) :=
  ask2 (fun h => env_candidates env h before limit) (CallCandidates before limit).
Definition ReferencedPayloads (refs : list Ref) :=
  ask2 (fun h => env_referenced env h refs) (CallReferenced refs).
Definition CompletePayloadCandidate (ref : Ref) (outcome : string) : E call (option error) :=
  ask (fun h => env_complete env h ref outcome) (CallComplete ref outcome).
Definition payload_Delete (ref : Ref) : E call (option error) :=
  ask (fun h => env_payload_delete env h ref) (CallPayloadDelete ref).

(** ** Policies *)

(** A match field that is empty matches everything. *)
Definition matches (want got : string) : bool := str_eqb want "" || str_eqb want got.

Definition matchEvent (m : EventMatch) (v : REvent) : bool :=
  matches (em_Kind m) (re_Kind v) && matches (em_Service m) (re_Service v) &&
  matches (em_Environment m) (re_Environment v) &&
  match em_Level m with None => true | Some l => l =? re_Level v end &&
  matches (em_FlowStatus m) (re_FlowStatus v) &&
  matches (em_ExecutionStatus m) (re_ExecutionStatus v) &&
  ((em_HTTPStatusClass m =? 0) || (Z.quot (re_HTTPStatusCode v) 100 =? em_HTTPStatusClass m)) &&
  match em_HTTPSuccess m with None => true | Some b => Bool.eqb b (re_HTTPSuccess v) end.

(** [None] is [(time.Time{}, false)]. *)
Definition eventExpiry (v : REvent) : option Z :=
  if negb (str_eqb (re_RetentionClass v) "") then
    ttl ← rcf_EventClasses cfg !! re_RetentionClass v; Some (re_Timestamp v + ttl)
  else match find (fun p => matchEvent (ep_Match p) v) (rcf_EventPolicies cfg) with
  | Some p => Some (re_Timestamp v + ep_TTL p)
  | None => if 0 <? rcf_DefaultEventTTL cfg then Some (re_Timestamp v + rcf_DefaultEventTTL cfg) else None
  end.

Definition payload_policy_matches (v : REvent) (p : RPayload) (x : PayloadPolicy) : bool :=
  let m := pp_Match x in
  matchEvent (pm_EventMatch m) v && matches (pm_Role m) (rp_Role p) &&
  (str_eqb (pm_ContentType m) "" || HasPrefix (ref_ContentType (rp_Ref p)) (pm_ContentType m)).

Definition payloadExpiry (v : REvent) (p : RPayload) : option Z :=
  let ref := rp_Ref p in
  if negb (time_IsZero (ref_RetainUntil ref)) then Some (ref_RetainUntil ref)
  else if negb (str_eqb (ref_RetentionClass ref) "") then
    ttl ← rcf_PayloadClasses cfg !! ref_RetentionClass ref; Some (re_Timestamp v + ttl)
  else match find (payload_policy_matches v p) (rcf_PayloadPolicies cfg) with
  | Some x => Some (re_Timestamp v + pp_TTL x)
  | None =>
      if 0 <? rcf_DefaultPayloadTTL cfg then Some (re_Timestamp v + rcf_DefaultPayloadTTL cfg) else None
  end.

(** ** One page of events *)

(** [times[k] = at] when [at] is after the time recorded so far. *)
Definition note_payload (v : REvent) (times : gmap string Z) (p : RPayload) : gmap string Z :=
  match payloadExpiry v p with
  | Some at_ =>
      let k := payloadKey (rp_Ref p) in
      if default time_zero (times !! k) <? at_ then <[k := at_]> times else times
  | None => times
  end.

(** The body of the loop over a page: counters, eligible events, payload times. *)
Definition scan_event (now : Z) (acc : Result * list REvent * gmap string Z) (event : REvent)
    : Result * list REvent * gmap string Z :=
  let '(result, eligible, times) := acc in
  let result := result <| rs_EventsScanned := u64 (rs_EventsScanned result + 1) |> in
  match eventExpiry event with
  | None => (result, eligible, times)
  | Some expiry =>
      let result := result <| rs_EventsMatched := u64 (rs_EventsMatched result + 1) |> in
      if expiry <=? now then
        (result <| rs_EventsEligible := u64 (rs_EventsEligible result + 1) |>,
         eligible ++ [event], fold_left (note_payload event) (re_Payloads event) times)
      else (result, eligible, times)
  end.

Definition scan_page (now : Z) (result : Result) (events : list REvent) :=
  fold_left (scan_event now) events (result, [], ∅).

(** [strings.Repeat("0", 32-len(id)) + id] for a short id. *)
Definition pad_id (id : string) : string :=
  if Nat.ltb (slen id) 32 then bytes_string (replicate (32 - slen id) "0"%char) +:+ id else id.

(** The loop over the records of [sameArchiveEvents]. *)
Fixpoint same_records (want : gset string) (records : list EventRecord) : bool :=
  match records with
  | [] => bool_decide (want = ∅)
  | r :: records =>
      let id := hex_Encode (er_ID r) in
      if decide (id ∈ want) then same_records (want ∖ {[id]}) records else false
  end.

Definition sameArchiveEvents (records : list EventRecord) (eligible : list REvent) : bool :=
  if negb (Nat.eqb (length records) (length eligible)) then false
  else same_records (list_to_set ((fun e => pad_id (re_ID e)) <$> eligible)) records.

Definition finish (r : Result) (now : Z) : Result :=
  let d := now - rs_StartedAt r in
  let d := Z.max (- 2 ^ 63) (Z.min (2 ^ 63 - 1) d) in
  r <| rs_FinishedAt := now |> <| rs_Duration := d |>.

(** [return finish(result, e.cfg.Now()), err]. *)
Definition return_with (result : Result) (err : option error) : E call (Result * option error) :=
  now ← Now; mret (finish result now, err).

(** [result.Errors++] and [result.ArchiveFailures++]. *)
Definition count_error (r : Result) : Result := r <| rs_Errors := u64 (rs_Errors r + 1) |>.
Definition count_archive_failure (r : Result) : Result :=
  (count_error r) <| rs_ArchiveFailures := u64 (rs_ArchiveFailures r + 1) |>.

(** The counters after an archive was recorded. *)
Definition count_archive (r : Result) (receipt : Receipt) : Result :=
  let m := rc_Manifest receipt in
  let bytes0 := u64 (rs_ArchiveBytesWritten r +
                     u64 (ref_StoredSize (mf_Events m) + ref_StoredSize (rc_ManifestRef receipt))) in
  r <| rs_ArchivesCreated := u64 (rs_ArchivesCreated r + 1) |>
    <| rs_EventsArchived := u64 (rs_EventsArchived r + u64 (mf_EventCount m)) |>
    <| rs_PayloadsArchived := u64 (rs_PayloadsArchived r + Z.of_nat (length (mf_Payloads m))) |>
    <| rs_ArchiveBytesWritten :=
         fold_left (fun b p => let n := ref_StoredSize (pe_Archive p) in
                               if 0 <? n then u64 (b + n) else b) (mf_Payloads m) bytes0 |>.

(** What the loop does after one page: go on, leave the loop, or return. *)
Inductive next :=
| Continue (result : Result) (cursor : string) (dry : gset string)
| Break (result : Result)
| Return (result : Result) (err : option error).

(** Load, check, archive and record the eligible events: the archive id. *)
Definition archive_eligible (result : Result) (eligible : list REvent)
    : E call (Result * (string + option error)) :=
  '(records, err) ← LoadArchiveEvents eligible;
  match err with
  | Some err => mret (count_archive_failure result, inr (Some err))
  | None =>
      if negb (sameArchiveEvents records eligible)
      then mret (count_archive_failure result,
                 inr (Some (errors_New "trail/retention: incomplete archive export")))
      else
        '(receipt, err) ← Archiver_Write records;
        match err with
        | Some err => mret (count_archive_failure result, inr (Some err))
        | None =>
            err ← RecordArchive receipt;
            match err with
            | Some err => mret (count_archive_failure result, inr (Some err))
            | None => mret (count_archive result receipt, inl (mf_ID (rc_Manifest receipt)))
            end
        end
  end.

(** The deletion of the eligible events and its counters. *)
Definition delete_eligible (dryRun : bool) (result : Result) (eligible : list REvent)
    (times : gmap string Z) (archiveID : string) : E call (Result * option error) :=
  '(dr, err) ← DeleteRetentionEvents (mkDeleteRequest eligible times archiveID dryRun);
  let result :=
    if dryRun then result
    else result <| rs_EventsDeleted := u64 (rs_EventsDeleted result + dr_EventsDeleted dr) |>
                <| rs_PayloadCandidates := u64 (rs_PayloadCandidates result + dr_PayloadCandidates dr) |> in
  mret match err with Some err => (count_error result, Some err) | None => (result, None) end.

(** The part of the loop body under [len(eligible) > 0]. *)
Definition process_eligible (dryRun : bool) (result : Result) (eligible : list REvent)
    (times : gmap string Z) (dry : gset string) : E call (Result * gset string * option error) :=
  if dryRun then
    let dry := dry ∪ dom times in
    let result := result <| rs_PayloadCandidates := Z.of_nat (size dry) |> in
    '(result, err) ← delete_eligible true result eligible times "";
    mret (result, dry, err)
  else
    '(result, archived) ← archive_eligible result eligible;
    match archived with
    | inr err => mret (result, dry, err)
    | inl archiveID =>
        '(result, err) ← delete_eligible false result eligible times archiveID;
        mret (result, dry, err)
    end.

(** One iteration of the event loop, its condition already true. *)
Definition event_step (dryRun : bool) (now : Z) (result : Result) (cursor : string)
    (dry : gset string) : E call next :=
  let limit := Z.min (rcf_EventBatchSize cfg) (rcf_MaxEvents cfg - i64 (rs_EventsScanned result)) in
  '(page, err) ← ScanRetentionEvents (mkScanRequest cursor limit);
  match err with
  | Some err => mret (Return (count_error result) (Some err))
  | None =>
      if Nat.eqb (length (evp_Events page)) 0 then mret (Break result)
      else
        let '(result, eligible, times) := scan_page now result (evp_Events page) in
        '(result, dry, err) ← (if Nat.ltb 0 (length eligible)
                               then process_eligible dryRun result eligible times dry
                               else mret (result, dry, None));
        mret match err with
             | Some err => Return result (Some err)
             | None => if evp_HasMore page then Continue result (evp_NextCursor page) dry
                       else Break result
             end
  end.

(** The event loop.  Every iteration that continues has scanned at least one
    event, so [MaxEvents + 1] iterations are enough. *)
Fixpoint event_loop (fuel : nat) (dryRun : bool) (now : Z) (result : Result) (cursor : string)
    (dry : gset string) : E call (option next) :=
  match fuel with
  | O => mret None
  | S fuel =>
      if rs_EventsScanned result <? rcf_MaxEvents cfg then
        err ← ctx_Err;
        match err with
        | Some _ => mret (Some (Break result))
        | None =>
            n ← event_step dryRun now result cursor dry;
            match n with
            | Continue result cursor dry => event_loop fuel dryRun now result cursor dry
            | n => mret (Some n)
            end
        end
      else mret (Some (Break result))
  end.

(** ** Payload collection *)

Definition HasSuffix (s suffix : string) : bool :=
  Nat.leb (slen suffix) (slen s) &&
  str_eqb (String.substring (slen s - slen suffix) (slen suffix) s) suffix.

Definition validContentAddressedRef (ref : Ref) : bool :=
  if str_eqb (ref_Store ref) "" || str_eqb (ref_Key ref) "" ||
     bool_decide (ref_SHA256 ref = zero_array 32) then false
  else
    let sum := hex_Encode (ref_SHA256 ref) in
    HasSuffix (ref_Key ref) sum || HasSuffix (ref_Key ref) (sum +:+ ".gz").

(** The results of [processCandidate], in the order of the source. *)
Record outcome := mkOutcome {
  oc_referenced : bool;
  oc_orphaned : bool;
  oc_unknown : bool;
  oc_deleted : bool;
  oc_bytes : Z;
  oc_failures : Z;
  oc_err : option error
}.

(** Record [failure] as the candidate's last error. *)
Definition complete_unknown (c : Candidate) (failure : error) : E call outcome :=
  err ← CompletePayloadCandidate (ca_Ref c) (err_text failure);
  mret (mkOutcome false false true false 0 1
          (Some match err with Some err => err | None => failure end)).

Definition processCandidate (c : Candidate) (live : bool) : E call outcome :=
  if live then
    err ← CompletePayloadCandidate (ca_Ref c) "referenced";
    mret (mkOutcome true false false false 0 0 err)
  else if negb (bool_decide (ref_Store (ca_Ref c) ∈ env_payload_stores env)) then
    complete_unknown c (errors_New ("trail/retention: payload store " +:+
      String quote (ref_Store (ca_Ref c) +:+ String quote " is not configured")))
  else if negb (validContentAddressedRef (ca_Ref c)) then
    complete_unknown c (errors_New "trail/retention: invalid content-addressed payload reference")
  else
    err ← payload_Delete (ca_Ref c);
    let err := match err with
               | Some e => if errors_Is e ErrPayloadNotFound then None else Some e
               | None => None
               end in
    match err with
    | Some e =>
        recordErr ← CompletePayloadCandidate (ca_Ref c) (err_text e);
        mret (mkOutcome false true false false 0 1
                (Some match recordErr with Some r => r | None => e end))
    | None =>
        err ← CompletePayloadCandidate (ca_Ref c) "";
        match err with
        | Some e => mret (mkOutcome false true false true 0 0 (Some e))
        | None =>
            let n := ref_StoredSize (ca_Ref c) in
            mret (mkOutcome false true false true (if 0 <? n then n else 0) 0 None)
        end
    end.

(** What a worker adds to the result under the mutex, and [firstErr]. *)
Definition add_if (b : bool) (n : Z) : Z := if b then u64 (n + 1) else n.
Definition merge_outcome (acc : Result * option error) (o : outcome) : Result * option error :=
  let '(r, firstErr) := acc in
  (r <| rs_PayloadsReferenced := add_if (oc_referenced o) (rs_PayloadsReferenced r) |>
     <| rs_PayloadsOrphaned := add_if (oc_orphaned o) (rs_PayloadsOrphaned r) |>
     <| rs_PayloadsUnknown := add_if (oc_unknown o) (rs_PayloadsUnknown r) |>
     <| rs_PayloadsDeleted := add_if (oc_deleted o) (rs_PayloadsDeleted r) |>
     <| rs_PayloadBytesReclaimed := u64 (rs_PayloadBytesReclaimed r + oc_bytes o) |>
     <| rs_Errors := u64 (rs_Errors r + oc_failures o) |>,
   match firstErr with Some e => Some e | None => oc_err o end).

(** The order the workers take the candidates in: at each turn any remaining
    one. *)
Fixpoint schedule {A} (picks : list nat) (l : list A) : list A :=
  match picks, l with
  | _, [] => []
  | [], l => l
  | i :: picks, l =>
      let i := (i mod length l)%nat in
      match l !! i with
      | Some a => a :: schedule picks (delete i l)
      | None => []
      end
  end.

Fixpoint process_all (live : gmap string bool) (candidates : list Candidate)
    (acc : Result * option error) : E call (Result * option error) :=
  match candidates with
  | [] => mret acc
  | c :: candidates =>
      o ← processCandidate c (default false (live !! payloadKey (ca_Ref c)));
      process_all live candidates (merge_outcome acc o)
  end.

Definition process_page (live : gmap string bool) (page : list Candidate) (r : Result)
    : E call (Result * option error) :=
  fun h => process_all live (schedule (env_schedule env h) page) (r, None) h.

(** Candidates without an archive are counted and left alone. *)
Definition verified_candidates (page : list Candidate) : list Candidate :=
  filter (fun c => negb (str_eqb (ca_ArchiveID c) "") = true) page.
Definition count_unverified (r : Result) (page : list Candidate) : Result :=
  fold_left (fun r c => if str_eqb (ca_ArchiveID c) ""
                        then r <| rs_PayloadsUnknown := u64 (rs_PayloadsUnknown r + 1) |> else r) page r.

(** One iteration: [inl] to go on with the remaining bound, [inr] to return. *)
Definition collect_step (now remaining : Z) (r : Result) : E call (Result * (Z + option error)) :=
  let limit := Z.min (rcf_PayloadBatchSize cfg) remaining in
  '(page, err) ← ListPayloadCandidates (now - rcf_PayloadGracePeriod cfg) limit;
  match err with
  | Some err => mret (r, inr (Some err))
  | None =>
      if Nat.eqb (length page) 0 then mret (r, inr None)
      else
        let r := count_unverified r page in
        let page := verified_candidates page in
        if Nat.eqb (length page) 0 then mret (r, inr None)
        else
          '(live, err) ← ReferencedPayloads (ca_Ref <$> page);
          match err with
          | Some err => mret (r, inr (Some err))
          | None =>
              let remaining := remaining - Z.of_nat (length page) in
              '(r, firstErr) ← process_page live page r;
              match firstErr with
              | Some err => mret (r, inr (Some err))
              | None =>
                  if Z.of_nat (length page) <? limit then mret (r, inr None) else mret (r, inl remaining)
              end
          end
  end.

Fixpoint collect_loop (fuel : nat) (now remaining : Z) (r : Result) : E call (option (Result * option error)) :=
  match fuel with
  | O => mret None
  | S fuel =>
      if 0 <? remaining then
        err ← ctx_Err;
        match err with
        | Some _ => err ← ctx_Err; mret (Some (r, err))
        | None =>
            '(r, n) ← collect_step now remaining r;
            match n with
            | inl remaining => collect_loop fuel now remaining r
            | inr err => mret (Some (r, err))
            end
        end
      else err ← ctx_Err; mret (Some (r, err))
  end.

(** [MaxPayloads + 1] iterations are enough: each one that goes on has taken at
    least one candidate off the bound. *)
Definition collectPayloads (now : Z) (r : Result) : E call (option (Result * option error)) :=
  collect_loop (S (Z.to_nat (rcf_MaxPayloads cfg))) now (rcf_MaxPayloads cfg) r.

(** ** [Run] *)

Definition after_events (dryRun : bool) (now : Z) (result : Result) : E call (option (Result * option error)) :=
  if dryRun then
    now' ← Now; err ← ctx_Err; mret (Some (finish result now', err))
  else
    collected ← collectPayloads now result;
    match collected with
    | None => mret None
    | Some (r, Some err) =>
        let r := if rs_Errors r =? rs_Errors result then count_error r else r in
        out ← return_with r (Some err); mret (Some out)
    | Some (r, None) => now' ← Now; err ← ctx_Err; mret (Some (finish r now', err))
    end.

(** [Run] after it has read the clock. *)
Definition run_from (dryRun : bool) (now : Z) : E call (option (Result * option error)) :=
  let result := Result0 now in
  err ← (if dryRun then mret None else ReconcileRetention);
  match err with
  | Some err => out ← return_with (count_error result) (Some err); mret (Some out)
  | None =>
      n ← event_loop (S (Z.to_nat (rcf_MaxEvents cfg))) dryRun now result "" ∅;
      match n with
      | None => mret None
      | Some (Return r err) => out ← return_with r err; mret (Some out)
      | Some (Break r) | Some (Continue r _ _) => after_events dryRun now r
      end
  end.

(** [None] would be a loop that ran out of iterations. *)
Definition Run (dryRun : bool) : E call (option (Result * option error)) :=
  now ← Now; run_from dryRun now.
End Engine.
