(* ===== verification/RetentionProofs.v ===== *)
(** * Safety, dry runs and termination of retention (src/retention/retention.go)

    Hoare-style reasoning over the history of the engine's calls: what must have
    happened before an event or a payload is deleted, what a dry run never does,
    and that every run ends, for every behaviour of the store, the archiver, the
    payload stores, the clock and the context. *)

From S2P Require Import Prelude Ids Events GoLib JsonText Wire Payload Storage Archive Trace Retention.

Section Proofs.
Context (env : Env) (cfg : RetentionConfig).

(** ** Deletion of events *)

Definition expired (now : Z) (e : REvent) : Prop := exists at_, eventExpiry cfg e = Some at_ /\ at_ <= now.

(** The request deletes expired events, all of which an archive recorded just
    before holds. *)
Definition archived_before (now : Z) (h : history) (req : DeleteRequest) : Prop :=
  exists h0 records receipt,
    h = h0 ++ [CallLoad (dq_Events req) records None; CallArchive records receipt None;
               CallRecord receipt None] /\
    sameArchiveEvents records (dq_Events req) = true /\
    dq_ArchiveID req = mf_ID (rc_Manifest receipt).

Definition delete_ok (now : Z) (h : history) (c : call) : Prop :=
  match c with
  | CallDelete req _ _ =>
      Forall (expired now) (dq_Events req) /\ (dq_DryRun req = false -> archived_before now h req)
  | _ => True
  end.

Lemma scan_event_spec now acc e :
  let '(result, eligible, times) := acc in
  let '(r, el, t) := scan_event cfg now acc e in
  rs_EventsScanned r = u64 (rs_EventsScanned result + 1) /\
  rs_StartedAt r = rs_StartedAt result /\
  (el = eligible \/ (el = eligible ++ [e] /\ expired now e)).
Proof.
  destruct acc as [[result eligible] times]. unfold scan_event.
  destruct (eventExpiry cfg e) as [x|] eqn:Hx; [|by auto].
  destruct (Z.leb_spec x now); [|by auto]. split_and!; try done. right. split; [done|]. by exists x.
Qed.

Lemma scan_fold_spec now events acc :
  let '(result, eligible, times) := acc in
  let '(r, el, t) := fold_left (scan_event cfg now) events acc in
  (forall n, rs_EventsScanned result = u64 n ->
     rs_EventsScanned r = u64 (n + Z.of_nat (length events))) /\
  exists new, el = eligible ++ new /\ Forall (expired now) new /\ sublist new events.
Proof.
  revert acc; induction events as [|e events IH]; intros [[result eligible] times]; cbn [fold_left].
  - split; [intros n ->; f_equal; simpl; lia|]. exists []. rewrite app_nil_r. by split_and!.
  - pose proof (scan_event_spec now (result, eligible, times) e) as Hs.
    destruct (scan_event cfg now (result, eligible, times) e) as [[r1 el1] t1].
    specialize (IH (r1, el1, t1)). cbn beta iota in IH, Hs.
    destruct (fold_left (scan_event cfg now) events (r1, el1, t1)) as [[r el] t].
    destruct Hs as (Hn & _ & Hel), IH as (Hcount & new & -> & HF & Hsub). split.
    + intros n Hn0. rewrite (Hcount (n + 1)); [f_equal; simpl; lia|]. by rewrite Hn, Hn0, wrapu_add_l.
    + destruct Hel as [->|[-> He]].
      * exists new. split_and!; [done|done|by apply sublist_cons].
      * exists (e :: new). rewrite <- app_assoc. split_and!; [done|by constructor|by apply sublist_skip].
Qed.

(** What archiving the eligible events leaves in the history. *)
Lemma archive_eligible_spec now result eligible :
  triple (justified_calls (delete_ok now)) (archive_eligible env result eligible)
    (fun out h => justified_calls (delete_ok now) h /\
       match out.2 with
       | inl id => forall times dry, archived_before now h (mkDeleteRequest eligible times id dry)
       | inr err => is_Some err
       end).
Proof.
  unfold archive_eligible. intros h Hh. unfold LoadArchiveEvents, Archiver_Write, RecordArchive, mbind, E_bind, ask2, ask.
  destruct (env_load env h eligible) as [records [err|]]; cbn.
  { split; [by apply justified_snoc|by eexists]. }
  destruct (sameArchiveEvents records eligible) eqn:Hsame; cbn.
  2: { split; [by apply justified_snoc|by eexists]. }
  set (h1 := h ++ [CallLoad eligible records None]).
  assert (justified_calls (delete_ok now) h1) by by apply justified_snoc.
  destruct (env_archive env h1 records) as [receipt [err|]]; cbn.
  { split; [by apply justified_snoc|by eexists]. }
  set (h2 := h1 ++ [CallArchive records receipt None]).
  assert (justified_calls (delete_ok now) h2) by by apply justified_snoc.
  destruct (env_record env h2 receipt) as [err|]; cbn.
  { split; [by apply justified_snoc|by eexists]. }
  split; [by apply justified_snoc|]. intros times dry. exists h, records, receipt.
  split_and!; [|done|done]. unfold h2, h1. by rewrite <- !app_assoc.
Qed.

Lemma delete_eligible_spec now dryRun result eligible times id :
  Forall (expired now) eligible ->
  triple (fun h => justified_calls (delete_ok now) h /\
            (dryRun = false -> archived_before now h (mkDeleteRequest eligible times id dryRun)))
    (delete_eligible env dryRun result eligible times id)
    (fun _ => justified_calls (delete_ok now)).
Proof.
  intros HF h [Hh Ha]. unfold delete_eligible, DeleteRetentionEvents, mbind, E_bind, ask2, ask.
  destruct (env_delete env h _) as [dr err]; cbn. apply justified_snoc; [done|]. by split.
Qed.

Lemma process_eligible_spec now dryRun result eligible times dry :
  Forall (expired now) eligible ->
  keeps_inv (justified_calls (delete_ok now)) (process_eligible env dryRun result eligible times dry).
Proof.
  intros HF. unfold process_eligible. destruct dryRun.
  - eapply triple_bind.
    { eapply triple_pre; [by apply delete_eligible_spec|]. by intros h Hh. }
    intros [r err]. by apply triple_ret.
  - eapply triple_bind; [apply archive_eligible_spec|]. intros [r [id|err]]; cbn.
    + eapply triple_bind.
      { eapply triple_pre; [by apply (delete_eligible_spec now false r)|].
        intros h (Hh & Ha). by split; [|intros _; apply Ha]. }
      intros [r' err]. by apply triple_ret.
    + apply triple_ret. by intros h [Hh _].
Qed.

Lemma event_step_spec now dryRun result cursor dry :
  keeps_inv (justified_calls (delete_ok now)) (event_step env cfg dryRun now result cursor dry).
Proof.
  unfold event_step. apply keeps_bind; [by apply keeps_ask2|]. intros [page [err|]]; [apply keeps_ret|].
  destruct (Nat.eqb _ _); [apply keeps_ret|].
  pose proof (scan_fold_spec now (evp_Events page) (result, [], ∅)) as Hs. cbn beta iota in Hs.
  unfold scan_page. destruct (fold_left _ _ _) as [[r eligible] times].
  destruct Hs as (_ & new & -> & HF & _). cbn [app]. apply keeps_bind; [|intros [[? ?] ?]; apply keeps_ret].
  destruct (Nat.ltb _ _); [by apply process_eligible_spec|apply keeps_ret].
Qed.

Lemma event_loop_spec fuel now dryRun result cursor dry :
  keeps_inv (justified_calls (delete_ok now)) (event_loop env cfg fuel dryRun now result cursor dry).
Proof.
  revert result cursor dry; induction fuel as [|fuel IH]; intros result cursor dry; cbn [event_loop];
    [apply keeps_ret|].
  destruct (_ <? _); [|apply keeps_ret]. apply keeps_bind; [by apply keeps_ask|].
  intros [err|]; [apply keeps_ret|]. apply keeps_bind; [apply event_step_spec|].
  intros []; [apply IH|apply keeps_ret|apply keeps_ret].
Qed.

(** ** Deletion of payloads *)

(** The payload was listed as a candidate old enough, with an archive; the
    store reported it unreferenced afterwards; it is content-addressed and its
    store is configured. *)
Definition collectable (now : Z) (h : history) (ref : Ref) : Prop :=
  exists h0 h1 h2 limit page refs live c,
    h = h0 ++ CallCandidates (now - rcf_PayloadGracePeriod cfg) limit page None ::
        h1 ++ CallReferenced refs live None :: h2 /\
    c ∈ page /\ ca_Ref c = ref /\ ca_ArchiveID c <> EmptyString /\
    ref ∈ refs /\ live !! payloadKey ref <> Some true /\
    ref_Store ref ∈ env_payload_stores env /\ validContentAddressedRef ref = true.

Definition payload_ok (now : Z) (h : history) (c : call) : Prop :=
  match c with CallPayloadDelete ref _ => collectable now h ref | _ => True end.

Lemma collectable_app now h h' ref : collectable now h ref -> collectable now (h ++ h') ref.
Proof.
  intros (h0 & h1 & h2 & limit & page & refs & live & c & -> & H).
  exists h0, h1, (h2 ++ h'), limit, page, refs, live, c. split; [|done].
  by rewrite <- app_assoc, <- app_comm_cons, <- app_assoc, <- app_comm_cons.
Qed.

Lemma processCandidate_extends c live : extends (processCandidate env c live).
Proof.
  unfold processCandidate, complete_unknown.
  repeat first [apply extends_ret | apply extends_bind; [|intros] | apply extends_ask
               | match goal with |- extends (match ?x with _ => _ end) => destruct x end
               | match goal with |- extends (let '_ := ?x in _) => destruct x end].
Qed.

Lemma complete_keeps {A} now ref outcome (f : option error -> A) :
  keeps_inv (justified_calls (payload_ok now)) (err ← CompletePayloadCandidate env ref outcome; mret (f err)).
Proof. apply keeps_bind; [by apply keeps_ask|]. intros a. apply keeps_ret. Qed.

Lemma processCandidate_spec now c live h :
  justified_calls (payload_ok now) h ->
  (live = false -> ref_Store (ca_Ref c) ∈ env_payload_stores env ->
     validContentAddressedRef (ca_Ref c) = true -> collectable now h (ca_Ref c)) ->
  justified_calls (payload_ok now) (processCandidate env c live h).1.
Proof.
  intros Hh Hc. unfold processCandidate.
  destruct live; [by apply (complete_keeps now)|].
  case_bool_decide as Hs; cbn [negb].
  2: { by apply (complete_keeps now). }
  destruct (validContentAddressedRef (ca_Ref c)) eqn:Hv; cbn [negb].
  2: { by apply (complete_keeps now). }
  unfold payload_Delete, mbind at 1, E_bind at 1, ask at 1. cbn zeta.
  set (err := env_payload_delete env h (ca_Ref c)).
  assert (justified_calls (payload_ok now) (h ++ [CallPayloadDelete (ca_Ref c) err])) as Hd.
  { apply justified_snoc; [done|]. by apply Hc. }
  destruct (match err with Some e => if errors_Is e ErrPayloadNotFound then None else Some e | None => None end);
    [by apply (complete_keeps now)|].
  apply (keeps_bind (justified_calls (payload_ok now))); [by apply keeps_ask| |done].
  intros [e|]; apply keeps_ret.
Qed.

Lemma process_all_spec now live candidates acc h :
  justified_calls (payload_ok now) h ->
  (forall c, c ∈ candidates -> default false (live !! payloadKey (ca_Ref c)) = false ->
     ref_Store (ca_Ref c) ∈ env_payload_stores env ->
     validContentAddressedRef (ca_Ref c) = true -> collectable now h (ca_Ref c)) ->
  justified_calls (payload_ok now) (process_all env live candidates acc h).1.
Proof.
  revert acc h; induction candidates as [|c candidates IH]; intros acc h Hh Hc; [done|].
  cbn [process_all]. unfold mbind, E_bind.
  pose proof (processCandidate_spec now c (default false (live !! payloadKey (ca_Ref c))) h Hh) as Hp.
  destruct (processCandidate_extends c (default false (live !! payloadKey (ca_Ref c))) h) as [h' He].
  destruct (processCandidate env c _ h) as [h1 o]. cbn in Hp, He. subst h1. apply IH.
  - apply Hp. intros. apply Hc; [set_solver|done..].
  - intros d Hd H1 H2 H3. apply collectable_app, Hc; try done. set_solver.
Qed.

Lemma schedule_perm {A} picks (l : list A) : schedule picks l ≡ₚ l.
Proof.
  revert l; induction picks as [|i picks IH]; intros l; [by destruct l|].
  destruct l as [|a l]; [done|]. cbn [schedule].
  set (k := (i mod length (a :: l))%nat).
  assert (k < length (a :: l))%nat as Hk by (apply Nat.mod_upper_bound; done).
  destruct (lookup_lt_is_Some_2 (a :: l) k Hk) as [x Hx]. rewrite Hx, IH.
  symmetry. by apply delete_Permutation.
Qed.

Lemma collect_step_spec now remaining r :
  keeps_inv (justified_calls (payload_ok now)) (collect_step env cfg now remaining r).
Proof.
  intros h Hh. unfold collect_step, ListPayloadCandidates, ReferencedPayloads, mbind, E_bind, ask2, ask. cbn zeta.
  destruct (env_candidates env h _ _) as [page [err|]]; [by apply justified_snoc|].
  set (limit := Z.min _ _). set (before := now - _). cbn [fst snd].
  set (h1 := h ++ [CallCandidates before limit page None]).
  assert (justified_calls (payload_ok now) h1) as Hh1 by by apply justified_snoc.
  destruct (Nat.eqb (length page) 0); [done|].
  destruct (Nat.eqb (length (verified_candidates page)) 0); [done|].
  destruct (env_referenced env h1 _) as [live [err|]]; [by apply justified_snoc|].
  set (refs := ca_Ref <$> verified_candidates page).
  set (h2 := h1 ++ [CallReferenced refs live None]).
  assert (justified_calls (payload_ok now) h2) as Hh2 by by apply justified_snoc.
  unfold process_page.
  match goal with |- context [process_all env live ?l ?acc h2] =>
    pose proof (process_all_spec now live l acc h2 Hh2) as Hp;
    assert (Hin : forall c, c ∈ l -> c ∈ verified_candidates page) by (intros c; by rewrite schedule_perm);
    destruct (process_all env live l acc h2) as [h3 [r' firstErr]]
  end.
  assert (justified_calls (payload_ok now) h3) as Hh3.
  { apply Hp. intros c Hc Hl Hs Hv. apply Hin in Hc. unfold verified_candidates in Hc.
    apply list_elem_of_filter in Hc as [Ha Hc].
    exists h, [], [], limit, page, refs, live, c. split_and!; try done.
    - unfold h2, h1. rewrite <- app_assoc. done.
    - intros Hid. rewrite Hid in Ha. done.
    - apply list_elem_of_fmap. exists c. split; [done|]. by apply list_elem_of_filter.
    - intros Hlive. by rewrite Hlive in Hl. }
  destruct firstErr; [done|]. by destruct (_ <? _).
Qed.

Lemma collect_loop_spec fuel now remaining r :
  keeps_inv (justified_calls (payload_ok now)) (collect_loop env cfg fuel now remaining r).
Proof.
  revert remaining r; induction fuel as [|fuel IH]; intros remaining r; cbn [collect_loop]; [apply keeps_ret|].
  destruct (_ <? _).
  - apply keeps_bind; [by apply keeps_ask|]. intros [err|].
    + apply keeps_bind; [by apply keeps_ask|]. intros a. apply keeps_ret.
    + apply keeps_bind; [apply collect_step_spec|]. intros [r' [n|err]]; [apply IH|apply keeps_ret].
  - apply keeps_bind; [by apply keeps_ask|]. intros a. apply keeps_ret.
Qed.

(** ** Composition *)

(** The calls of the event loop, of the payload phase, and of a dry run. *)
Definition event_call (dryRun : bool) (c : call) : Prop :=
  match c with
  | CallNow _ | CallCtx _ | CallScan _ _ _ => True
  | CallLoad _ _ _ | CallArchive _ _ _ | CallRecord _ _ => dryRun = false
  | CallDelete req _ _ => dq_DryRun req = dryRun
  | _ => False
  end.
Definition payload_call (c : call) : Prop :=
  match c with
  | CallNow _ | CallCtx _ | CallCandidates _ _ _ _ | CallReferenced _ _ _ | CallComplete _ _ _
  | CallPayloadDelete _ _ => True
  | _ => False
  end.

Lemma archive_eligible_only result eligible : only (event_call false) (archive_eligible env result eligible).
Proof.
  unfold archive_eligible. apply only_bind; [by apply only_ask2|]. intros [records [err|]]; [apply only_ret|].
  destruct (sameArchiveEvents _ _); cbn [negb]; [|apply only_ret].
  apply only_bind; [by apply only_ask2|]. intros [receipt [err|]]; [apply only_ret|].
  apply only_bind; [by apply only_ask|]. intros [err|]; apply only_ret.
Qed.

Lemma delete_eligible_only dryRun result eligible times id :
  only (event_call dryRun) (delete_eligible env dryRun result eligible times id).
Proof. apply only_bind; [by apply only_ask2|]. intros [dr err]. apply only_ret. Qed.

Lemma process_eligible_only dryRun result eligible times dry :
  only (event_call dryRun) (process_eligible env dryRun result eligible times dry).
Proof.
  unfold process_eligible. destruct dryRun.
  - apply only_bind; [apply delete_eligible_only|]. intros [? ?]. apply only_ret.
  - apply only_bind; [apply archive_eligible_only|]. intros [r [id|err]]; [|apply only_ret].
    apply only_bind; [apply delete_eligible_only|]. intros [? ?]. apply only_ret.
Qed.

Lemma event_loop_only fuel dryRun now result cursor dry :
  only (event_call dryRun) (event_loop env cfg fuel dryRun now result cursor dry).
Proof.
  revert result cursor dry; induction fuel as [|fuel IH]; intros result cursor dry; cbn [event_loop];
    [apply only_ret|].
  destruct (_ <? _); [|apply only_ret]. apply only_bind; [by apply only_ask|].
  intros [err|]; [apply only_ret|]. apply only_bind; [|intros []; [apply IH|apply only_ret|apply only_ret]].
  unfold event_step. apply only_bind; [by apply only_ask2|]. intros [page [err|]]; [apply only_ret|].
  destruct (Nat.eqb _ _); [apply only_ret|]. destruct (scan_page _ _ _ _) as [[r eligible] times].
  apply only_bind; [|intros [[? ?] ?]; apply only_ret].
  destruct (Nat.ltb _ _); [apply process_eligible_only|apply only_ret].
Qed.

Lemma processCandidate_only c live : only payload_call (processCandidate env c live).
Proof.
  unfold processCandidate, complete_unknown.
  repeat first [apply only_ret | apply only_bind; [|intros] | by apply only_ask
               | match goal with |- only _ (match ?x with _ => _ end) => destruct x end].
Qed.

Lemma collect_loop_only fuel now remaining r : only payload_call (collect_loop env cfg fuel now remaining r).
Proof.
  revert remaining r; induction fuel as [|fuel IH]; intros remaining r; cbn [collect_loop]; [apply only_ret|].
  assert (only payload_call (err ← ctx_Err env; mret (Some (r, err)))) as Hend
    by (apply only_bind; [by apply only_ask|]; intros; apply only_ret).
  destruct (_ <? _); [|done]. apply only_bind; [by apply only_ask|]. intros [err|]; [done|].
  apply only_bind; [|intros [r' [n|err]]; [apply IH|apply only_ret]].
  unfold collect_step. apply only_bind; [by apply only_ask2|]. intros [page [err|]]; [apply only_ret|].
  destruct (Nat.eqb _ _); [apply only_ret|]. destruct (Nat.eqb _ _); [apply only_ret|].
  apply only_bind; [by apply only_ask2|]. intros [live [err|]]; [apply only_ret|].
  apply only_bind.
  - intros h. unfold process_page. revert h. generalize (count_unverified r page, @None error).
    intros acc h. generalize (schedule (env_schedule env h) (verified_candidates page)). intros l.
    revert acc h. change (forall acc, only payload_call (process_all env live l acc)).
    induction l as [|c l IHl]; intros acc; [apply only_ret|]. cbn [process_all].
    apply only_bind; [apply processCandidate_only|]. intros o. apply IHl.
  - intros [r' [err|]]; [apply only_ret|]. destruct (_ <? _); apply only_ret.
Qed.

(** ** The whole run *)

(** Both kinds of deletion are justified. *)
Definition run_ok (now : Z) (h : history) (c : call) : Prop := delete_ok now h c /\ payload_ok now h c.

Lemma run_ok_both now h :
  justified_calls (run_ok now) h <-> justified_calls (delete_ok now) h /\ justified_calls (payload_ok now) h.
Proof. unfold justified_calls, run_ok. naive_solver. Qed.

Lemma keeps_both {A} now (m : E call A) :
  keeps_inv (justified_calls (delete_ok now)) m -> keeps_inv (justified_calls (payload_ok now)) m ->
  keeps_inv (justified_calls (run_ok now)) m.
Proof. intros H1 H2 h [Hd Hp]%run_ok_both. apply run_ok_both. split; [by apply H1|by apply H2]. Qed.

Lemma return_with_keeps now r err : keeps_inv (justified_calls (run_ok now)) (return_with env r err).
Proof. apply keeps_bind; [by apply keeps_ask|]. intros. apply keeps_ret. Qed.

Lemma after_events_keeps now dryRun r : keeps_inv (justified_calls (run_ok now)) (after_events env cfg dryRun now r).
Proof.
  unfold after_events. destruct dryRun.
  - apply keeps_bind; [by apply keeps_ask|]. intros t. apply keeps_bind; [by apply keeps_ask|]. intros. apply keeps_ret.
  - apply keeps_bind.
    + unfold collectPayloads. apply keeps_both; [|apply collect_loop_spec].
      eapply only_keeps; [apply collect_loop_only|]. by intros h [].
    + intros [[r' [err|]]|]; [| |apply keeps_ret].
      * apply keeps_bind; [apply return_with_keeps|]. intros. apply keeps_ret.
      * apply keeps_bind; [by apply keeps_ask|]. intros t. apply keeps_bind; [by apply keeps_ask|].
        intros. apply keeps_ret.
Qed.

Lemma event_loop_keeps now fuel dryRun result cursor dry :
  keeps_inv (justified_calls (run_ok now)) (event_loop env cfg fuel dryRun now result cursor dry).
Proof.
  apply keeps_both; [apply event_loop_spec|]. eapply only_keeps; [apply event_loop_only|]. by intros h [].
Qed.

Lemma run_from_keeps now dryRun : keeps_inv (justified_calls (run_ok now)) (run_from env cfg dryRun now).
Proof.
  unfold run_from. apply keeps_bind; [destruct dryRun; [apply keeps_ret|by apply keeps_ask]|]. intros [err|].
  - apply keeps_bind; [apply return_with_keeps|]. intros. apply keeps_ret.
  - apply keeps_bind; [apply event_loop_keeps|]. intros [[]|]; [apply after_events_keeps..| |apply keeps_ret].
    apply keeps_bind; [apply return_with_keeps|]. intros. apply keeps_ret.
Qed.

Lemma Run_justified dryRun : justified_calls (run_ok (env_now env [])) (Run env cfg dryRun []).1.
Proof. apply run_from_keeps, (justified_snoc _ []); [apply justified_nil|done]. Qed.

Lemma run_from_dry now : only (event_call true) (run_from env cfg true now).
Proof.
  assert (forall r err, only (event_call true) (return_with env r err)) as Hret
    by (intros; apply only_bind; [by apply only_ask|]; intros; apply only_ret).
  unfold run_from. apply only_bind; [apply only_ret|]. intros [err|].
  - apply only_bind; [apply Hret|]. intros. apply only_ret.
  - assert (forall r, only (event_call true) (after_events env cfg true now r)) as Ha.
    { intros r. apply only_bind; [by apply only_ask|]. intros t.
      apply only_bind; [by apply only_ask|]. intros. apply only_ret. }
    apply only_bind; [apply event_loop_only|]. intros [[]|]; [apply Ha..| |apply only_ret].
    apply only_bind; [apply Hret|]. intros. apply only_ret.
Qed.

(** ** Termination *)

(** The pages of the store are Go slices. *)
Definition pages_fit : Prop :=
  forall h req, Z.of_nat (length (evp_Events (env_scan env h req).1)) < 2 ^ 62.

Lemma process_eligible_scanned dryRun result eligible times dry h :
  rs_EventsScanned (process_eligible env dryRun result eligible times dry h).2.1.1 = rs_EventsScanned result.
Proof.
  unfold process_eligible, archive_eligible, delete_eligible, LoadArchiveEvents, Archiver_Write,
    RecordArchive, DeleteRetentionEvents, mbind, E_bind, ask2, ask.
  destruct dryRun; [by destruct (env_delete _ _ _) as [? []]|].
  destruct (env_load _ _ _) as [records [err|]]; [done|].
  destruct (sameArchiveEvents _ _); [|done]. cbn [negb].
  destruct (env_archive _ _ _) as [receipt [err|]]; [done|]. cbn [fst snd].
  destruct (env_record _ _ _) as [err|]; [done|]. cbn.
  by destruct (env_delete _ _ _) as [? []].
Qed.

Lemma event_step_scanned dryRun now result cursor dry h r c d :
  pages_fit -> 0 <= rs_EventsScanned result < 2 ^ 62 ->
  (event_step env cfg dryRun now result cursor dry h).2 = Continue r c d ->
  rs_EventsScanned result < rs_EventsScanned r.
Proof.
  intros Hfit Hn. unfold event_step, ScanRetentionEvents, mbind, E_bind, ask2, ask.
  pose proof (Hfit h (mkScanRequest cursor
    (Z.min (rcf_EventBatchSize cfg) (rcf_MaxEvents cfg - i64 (rs_EventsScanned result))))) as Hlen.
  destruct (env_scan _ _ _) as [page [err|]]; [done|]. cbn [fst] in Hlen.
  destruct (Nat.eqb_spec (length (evp_Events page)) 0) as [|Hne]; [done|].
  pose proof (scan_fold_spec now (evp_Events page) (result, [], ∅)) as Hs. cbn beta iota in Hs.
  unfold scan_page. destruct (fold_left _ _ _) as [[r1 eligible] times]. destruct Hs as [Hcount _].
  specialize (Hcount (rs_EventsScanned result)). rewrite !wrapu_id in Hcount by (unfold in_u; lia).
  specialize (Hcount eq_refl). intros H.
  destruct (Nat.ltb 0 (length eligible)).
  - pose proof (process_eligible_scanned dryRun r1 eligible times dry
      (h ++ [CallScan (mkScanRequest cursor (Z.min (rcf_EventBatchSize cfg)
         (rcf_MaxEvents cfg - i64 (rs_EventsScanned result)))) page None])) as Hp.
    destruct (process_eligible _ _ _ _ _ _ _) as [h1 [[r2 dry2] [err|]]]; [done|].
    cbn in H, Hp. destruct (evp_HasMore page); [|done]. simplify_eq. lia.
  - cbn in H. destruct (evp_HasMore page); [|done]. simplify_eq. lia.
Qed.

Lemma event_loop_total fuel dryRun now result cursor dry h :
  pages_fit -> 0 <= rcf_MaxEvents cfg < 2 ^ 62 -> 0 <= rs_EventsScanned result ->
  Z.max 0 (rcf_MaxEvents cfg - rs_EventsScanned result) < Z.of_nat fuel ->
  is_Some (event_loop env cfg fuel dryRun now result cursor dry h).2.
Proof.
  intros Hfit Hmax. revert result cursor dry h.
  induction fuel as [|fuel IH]; intros result cursor dry h H0 Hfuel; [lia|]. cbn [event_loop].
  destruct (Z.ltb_spec (rs_EventsScanned result) (rcf_MaxEvents cfg)) as [Hlt|]; [|by eexists].
  unfold mbind at 1, E_bind at 1, ctx_Err, ask. destruct (env_ctx env h); [by eexists|].
  unfold mbind, E_bind.
  pose proof (event_step_scanned dryRun now result cursor dry (h ++ [CallCtx None])) as Hs.
  destruct (event_step _ _ _ _ _ _ _ _) as [h1 []]; [|by eexists|by eexists].
  cbn [snd] in Hs. specialize (Hs _ _ _ Hfit ltac:(lia) eq_refl). apply IH; lia.
Qed.

Lemma collect_step_remaining now remaining r h r' n :
  (collect_step env cfg now remaining r h).2 = (r', inl n) -> n < remaining.
Proof.
  unfold collect_step, ListPayloadCandidates, ReferencedPayloads, mbind, E_bind, ask2, ask.
  destruct (env_candidates _ _ _ _) as [page [err|]]; [done|]. cbn [fst snd].
  destruct (Nat.eqb (length page) 0); [done|].
  destruct (Nat.eqb_spec (length (verified_candidates page)) 0); [done|].
  destruct (env_referenced _ _ _) as [live [err|]]; [done|]. cbn [fst snd].
  destruct (process_page _ _ _ _ _) as [h1 [r1 [err|]]]; [done|].
  destruct (_ <? _); [done|]. cbn. intros [= _ <-]. lia.
Qed.

Lemma collect_loop_total fuel now remaining r h :
  Z.max 0 remaining < Z.of_nat fuel -> is_Some (collect_loop env cfg fuel now remaining r h).2.
Proof.
  revert remaining r h; induction fuel as [|fuel IH]; intros remaining r h Hfuel; [lia|]. cbn [collect_loop].
  destruct (Z.ltb_spec 0 remaining); [|by eexists].
  unfold mbind at 1, E_bind at 1, ctx_Err at 1, ask at 1. destruct (env_ctx env h); [by eexists|].
  unfold mbind, E_bind.
  pose proof (collect_step_remaining now remaining r (h ++ [CallCtx None])) as Hs.
  destruct (collect_step _ _ _ _ _ _) as [h1 [r' [n|err]]]; [|by eexists].
  specialize (Hs _ _ eq_refl). apply IH. lia.
Qed.

Lemma after_events_total dryRun now r h : is_Some (after_events env cfg dryRun now r h).2.
Proof.
  unfold after_events. destruct dryRun; [by eexists|].
  unfold collectPayloads, mbind at 1, E_bind at 1.
  destruct (collect_loop_total (S (Z.to_nat (rcf_MaxPayloads cfg))) now (rcf_MaxPayloads cfg) r h) as [out Hout];
    [lia|].
  destruct (collect_loop _ _ _ _ _ _ _) as [h1 o]. cbn in Hout. subst o.
  destruct out as [r' [err|]]; by eexists.
Qed.

Lemma Run_total dryRun h :
  pages_fit -> 0 <= rcf_MaxEvents cfg < 2 ^ 62 -> is_Some (Run env cfg dryRun h).2.
Proof.
  intros Hfit Hmax. unfold Run, Now, ask, mbind at 1, E_bind at 1.
  set (now := env_now env h). set (h0 := h ++ [CallNow now]). unfold run_from, mbind at 1, E_bind at 1.
  destruct ((if dryRun then mret None else ReconcileRetention env) h0) as [h1 [err|]]; [by eexists|].
  unfold mbind at 1, E_bind at 1.
  destruct (event_loop_total (S (Z.to_nat (rcf_MaxEvents cfg))) dryRun now (Result0 now) "" ∅ h1) as [n Hn];
    [done|done|done|simpl; lia|].
  destruct (event_loop _ _ _ _ _ _ _ _ _) as [h2 o]. cbn in Hn. subst o.
  destruct n; [apply after_events_total..|by eexists].
Qed.
End Proofs.

(** ** The archive check *)

Lemma same_records_spec want records :
  same_records want records = true <->
  NoDup ((fun r => hex_Encode (er_ID r)) <$> records) /\
  list_to_set ((fun r => hex_Encode (er_ID r)) <$> records) = want.
Proof.
  revert want; induction records as [|r records IH]; intros want; cbn [same_records].
  - rewrite bool_decide_eq_true. csimpl. split; [intros ->|intros [_ <-]]; [|done]. split; [constructor|done].
  - csimpl. destruct (decide (hex_Encode (er_ID r) ∈ want)) as [Hin|Hnin].
    + rewrite IH, NoDup_cons. split.
      * intros [Hnd Heq]. split_and!; [|done|].
        { intros Hr. apply (elem_of_list_to_set (C := gset string)) in Hr. rewrite Heq in Hr. set_solver. }
        rewrite Heq. symmetry. apply union_difference_L. set_solver.
      * intros [[Hr Hnd] <-]. split; [done|].
        apply (not_elem_of_list_to_set (C := gset string)) in Hr. set_solver.
    + split; [done|]. intros [_ <-]. destruct Hnin. set_solver.
Qed.

Lemma same_perm want (ids : list string) :
  NoDup ids -> list_to_set ids = (list_to_set want : gset string) -> length ids = length want ->
  NoDup want /\ ids ≡ₚ want.
Proof.
  intros Hnd Heq Hlen.
  assert (Hsub : ids ⊆+ want).
  { apply NoDup_submseteq; [done|]. intros x Hx.
    apply (elem_of_list_to_set (C := gset string)). rewrite <- Heq. by apply elem_of_list_to_set. }
  assert (ids ≡ₚ want) as Hp by (apply submseteq_length_Permutation; [done|lia]).
  split; [by rewrite <- Hp|done].
Qed.

(** The guard before an archive is written is exact: it holds just when the
    loaded records are, one for one and in any order, the eligible events (by
    identifier, short ones zero-padded), none missing, added or repeated. *)
Lemma sameArchiveEvents_spec (records : list EventRecord) (eligible : list REvent) :
  sameArchiveEvents records eligible = true <->
  NoDup ((fun e => pad_id (re_ID e)) <$> eligible) /\
  (fun r => hex_Encode (er_ID r)) <$> records ≡ₚ (fun e => pad_id (re_ID e)) <$> eligible.
Proof.
  unfold sameArchiveEvents. destruct (Nat.eqb_spec (length records) (length eligible)) as [Hl|Hl]; cbn [negb].
  - rewrite same_records_spec. split.
    + intros [Hnd Heq]. apply same_perm; [done|done|]. by rewrite !length_fmap.
    + intros [Hnd Hp]. split; [by rewrite Hp|]. by rewrite Hp.
  - split; [done|]. intros [_ Hp]. apply Permutation_length in Hp. by rewrite !length_fmap in Hp.
Qed.

(** ** When a payload becomes eligible *)

Section Times.
Context (cfg : RetentionConfig).

(** [t] is the recorded time of a key only if some payload of the events has it,
    and no payload's expiry is later. *)
Definition times_ok (items : list (REvent * RPayload)) (times : gmap string Z) : Prop :=
  (forall k t, times !! k = Some t ->
     exists e p, (e, p) ∈ items /\ payloadKey (rp_Ref p) = k /\ payloadExpiry cfg e p = Some t) /\
  (forall e p t, (e, p) ∈ items -> payloadExpiry cfg e p = Some t -> time_zero < t ->
     exists t', times !! payloadKey (rp_Ref p) = Some t' /\ t <= t').

Lemma note_payload_ok items times e p :
  times_ok items times -> times_ok (items ++ [(e, p)]) (note_payload cfg e times p).
Proof.
  intros [H1 H2]. unfold note_payload. split.
  - intros k t Hk. assert (times !! k = Some t \/ (payloadKey (rp_Ref p) = k /\ payloadExpiry cfg e p = Some t)) as [Ht|Ht].
    { destruct (payloadExpiry cfg e p) as [at_|]; [|by left]. cbv zeta in Hk.
      destruct (_ <? _); [|by left]. apply lookup_insert_Some in Hk as [[? ->]|[? ?]]; [by right|by left]. }
    + destruct (H1 k t Ht) as (e' & p' & ? & ? & ?). exists e', p'. split_and!; try done. set_solver.
    + exists e, p. split_and!; try apply Ht. set_solver.
  - intros e' p' t [Hin|Heq%list_elem_of_singleton]%elem_of_app Hx Hz.
    + destruct (H2 e' p' t Hin Hx Hz) as (t' & Ht' & Hle).
      destruct (payloadExpiry cfg e p) as [at_|]; [|by eauto]. cbv zeta.
      destruct (Z.ltb_spec (default time_zero (times !! payloadKey (rp_Ref p))) at_) as [Hlt|]; [|by eauto].
      destruct (decide (payloadKey (rp_Ref p) = payloadKey (rp_Ref p'))) as [Hk|Hk].
      * rewrite Hk, lookup_insert_eq. rewrite Hk, Ht' in Hlt. simpl in Hlt. exists at_. split; [done|lia].
      * rewrite lookup_insert_ne by done. eauto.
    + simplify_eq. rewrite Hx. cbv zeta.
      destruct (Z.ltb_spec (default time_zero (times !! payloadKey (rp_Ref p))) t) as [Hlt|Hge].
      * rewrite lookup_insert_eq. by exists t.
      * destruct (times !! payloadKey (rp_Ref p)) as [t'|]; simpl in Hge; [by exists t'|lia].
Qed.

Lemma note_payloads_ok items times e ps :
  times_ok items times -> times_ok (items ++ ((fun p => (e, p)) <$> ps)) (fold_left (note_payload cfg e) ps times).
Proof.
  revert items times; induction ps as [|p ps IH]; intros items times H; csimpl; [by rewrite app_nil_r|].
  rewrite (app_assoc items [(e, p)] _ : items ++ (e, p) :: _ = _). by apply IH, note_payload_ok.
Qed.

Definition payload_items (events : list REvent) : list (REvent * RPayload) :=
  e ← events; (fun p => (e, p)) <$> re_Payloads e.

Lemma scan_times_ok now events result eligible times :
  times_ok (payload_items eligible) times ->
  let '(_, el, t) := fold_left (scan_event cfg now) events (result, eligible, times) in
  times_ok (payload_items el) t.
Proof.
  revert result eligible times; induction events as [|e events IH]; intros result eligible times H; [done|].
  cbn [fold_left]. destruct (scan_event cfg now (result, eligible, times) e) as [[r1 el1] t1] eqn:Es.
  apply IH. unfold scan_event in Es. destruct (eventExpiry cfg e) as [x|]; [|by simplify_eq].
  destruct (x <=? now); simplify_eq; [|done]. unfold payload_items. rewrite bind_app. csimpl.
  rewrite app_nil_r. by apply note_payloads_ok.
Qed.
End Times.

(** The time from which a payload may be collected, sent with a deletion, is
    the latest expiry any deleted event of the page gives it: never earlier than
    the expiry required by any one of them, and always required by some. *)
Lemma payload_latest_expiry (cfg : RetentionConfig) (now : Z) (result : Result) (events : list REvent) :
  let '(_, eligible, times) := scan_page cfg now result events in
  (forall e p t, e ∈ eligible -> p ∈ re_Payloads e -> payloadExpiry cfg e p = Some t -> time_zero < t ->
     exists t', times !! payloadKey (rp_Ref p) = Some t' /\ t <= t') /\
  (forall k t', times !! k = Some t' -> exists e p, e ∈ eligible /\ p ∈ re_Payloads e /\
     payloadKey (rp_Ref p) = k /\ payloadExpiry cfg e p = Some t').
Proof.
  unfold scan_page. pose proof (scan_times_ok cfg now events result [] ∅) as H.
  destruct (fold_left _ _ _) as [[r eligible] times]. destruct H as [H1 H2].
  { split; [intros k t Ht; by rewrite lookup_empty in Ht|]. intros e p t Hin%elem_of_nil. done. }
  assert (Hin : forall e p, (e, p) ∈ payload_items eligible <-> e ∈ eligible /\ p ∈ re_Payloads e).
  { intros e p. unfold payload_items. rewrite list_elem_of_bind. split.
    - intros (e' & (p' & ? & ?)%list_elem_of_fmap & ?). by simplify_eq.
    - intros [? ?]. exists e. split; [|done]. apply list_elem_of_fmap. eauto. }
  split.
  - intros e p t He Hp Hx Hz. apply (H2 e p t); [|done|done]. by apply Hin.
  - intros k t' Ht. destruct (H1 k t' Ht) as (e & p & [? ?]%Hin & ? & ?). eauto 10.
Qed.

(** ** Configuration *)

Definition bounds_ok (cfg : RetentionConfig) : Prop :=
  0 < rcf_EventBatchSize cfg <= 100000 /\ 0 < rcf_PayloadBatchSize cfg <= 10000 /\
  0 < rcf_PayloadConcurrency cfg <= 32 /\ 0 < rcf_MaxEvents cfg <= 10000000 /\
  0 < rcf_MaxPayloads cfg <= 1000000 /\ 0 < rcf_MaxRuntime cfg <= 24 * hour /\
  0 < rcf_PayloadGracePeriod cfg.

(** A setting, or its default when not positive. *)
Definition dflt (n d : Z) : Z := if n <=? 0 then d else n.

Lemma dflt_pos n d : 0 < d -> 0 < dflt n d.
Proof. unfold dflt. destruct (Z.leb_spec n 0); lia. Qed.

(** The configuration with its defaults filled in. *)
Definition with_defaults (c : RetentionConfig) : RetentionConfig :=
  mkRetentionConfig (rcf_EventPolicies c) (rcf_EventClasses c) (rcf_DefaultEventTTL c)
    (rcf_PayloadPolicies c) (rcf_PayloadClasses c) (rcf_DefaultPayloadTTL c)
    (dflt (rcf_EventBatchSize c) 1000) (dflt (rcf_PayloadBatchSize c) 100)
    (dflt (rcf_PayloadConcurrency c) 1) (dflt (rcf_MaxEvents c) 100000) (dflt (rcf_MaxPayloads c) 10000)
    (dflt (rcf_MaxRuntime c) (10 * minute)) (dflt (rcf_PayloadGracePeriod c) (24 * hour)) (rcf_Archiver c).

(** Each conditional assignment of [New] sets its field to the setting or default. *)
Lemma set_EventBatchSize c d :
  (if rcf_EventBatchSize c <=? 0 then c <| rcf_EventBatchSize := d |> else c) = c <| rcf_EventBatchSize := dflt (rcf_EventBatchSize c) d |>.
Proof. unfold dflt. destruct c as [? ? ? ? ? ? ? ? ? ? ? ? ? ?]. simpl. by destruct (_ <=? 0). Qed.
Lemma set_PayloadBatchSize c d :
  (if rcf_PayloadBatchSize c <=? 0 then c <| rcf_PayloadBatchSize := d |> else c) = c <| rcf_PayloadBatchSize := dflt (rcf_PayloadBatchSize c) d |>.
Proof. unfold dflt. destruct c as [? ? ? ? ? ? ? ? ? ? ? ? ? ?]. simpl. by destruct (_ <=? 0). Qed.
Lemma set_PayloadConcurrency c d :
  (if rcf_PayloadConcurrency c <=? 0 then c <| rcf_PayloadConcurrency := d |> else c) = c <| rcf_PayloadConcurrency := dflt (rcf_PayloadConcurrency c) d |>.
Proof. unfold dflt. destruct c as [? ? ? ? ? ? ? ? ? ? ? ? ? ?]. simpl. by destruct (_ <=? 0). Qed.
Lemma set_MaxEvents c d :
  (if rcf_MaxEvents c <=? 0 then c <| rcf_MaxEvents := d |> else c) = c <| rcf_MaxEvents := dflt (rcf_MaxEvents c) d |>.
Proof. unfold dflt. destruct c as [? ? ? ? ? ? ? ? ? ? ? ? ? ?]. simpl. by destruct (_ <=? 0). Qed.
Lemma set_MaxPayloads c d :
  (if rcf_MaxPayloads c <=? 0 then c <| rcf_MaxPayloads := d |> else c) = c <| rcf_MaxPayloads := dflt (rcf_MaxPayloads c) d |>.
Proof. unfold dflt. destruct c as [? ? ? ? ? ? ? ? ? ? ? ? ? ?]. simpl. by destruct (_ <=? 0). Qed.
Lemma set_MaxRuntime c d :
  (if rcf_MaxRuntime c <=? 0 then c <| rcf_MaxRuntime := d |> else c) = c <| rcf_MaxRuntime := dflt (rcf_MaxRuntime c) d |>.
Proof. unfold dflt. destruct c as [? ? ? ? ? ? ? ? ? ? ? ? ? ?]. simpl. by destruct (_ <=? 0). Qed.
Lemma set_PayloadGracePeriod c d :
  (if rcf_PayloadGracePeriod c <=? 0 then c <| rcf_PayloadGracePeriod := d |> else c) = c <| rcf_PayloadGracePeriod := dflt (rcf_PayloadGracePeriod c) d |>.
Proof. unfold dflt. destruct c as [? ? ? ? ? ? ? ? ? ? ? ? ? ?]. simpl. by destruct (_ <=? 0). Qed.

Lemma New_Ok cfg has_store cfg' :
  New cfg has_store = Ok cfg' ->
  cfg' = with_defaults cfg /\ has_store = true /\ rcf_Archiver cfg = true /\
  (32 <? rcf_PayloadConcurrency cfg') = false /\
  (100000 <? rcf_EventBatchSize cfg') || (10000 <? rcf_PayloadBatchSize cfg') ||
  (10000000 <? rcf_MaxEvents cfg') || (1000000 <? rcf_MaxPayloads cfg') ||
  (24 * hour <? rcf_MaxRuntime cfg') = false /\ validate cfg' = Ok tt.
Proof.
  unfold New. destruct has_store; [|done]. destruct (rcf_Archiver cfg) eqn:Har; [|done]. cbn [negb].
  rewrite set_EventBatchSize, set_PayloadBatchSize, set_PayloadConcurrency.
  destruct (32 <? _) eqn:H32; [done|].
  rewrite set_MaxEvents, set_MaxPayloads, set_MaxRuntime, set_PayloadGracePeriod.
  match goal with |- (if ?b then _ else _) = _ -> _ => destruct b eqn:Hb; [done|] end.
  match goal with |- context [validate ?c] => assert (Hc : c = with_defaults cfg) by (by destruct cfg) end.
  intros H. apply bind_Ok in H as ([] & Hv & H). injection H as H. rewrite Hc in *.
  subst cfg'. by split_and!.
Qed.

Lemma New_bounds cfg has_store cfg' : New cfg has_store = Ok cfg' -> bounds_ok cfg'.
Proof.
  intros (-> & _ & _ & H32 & Hb & _)%New_Ok. apply Z.ltb_ge in H32.
  rewrite !orb_false_iff, !Z.ltb_ge in Hb. destruct Hb as [[[[? ?] ?] ?] ?].
  unfold bounds_ok, with_defaults in *. cbn [rcf_EventBatchSize rcf_PayloadBatchSize rcf_PayloadConcurrency
    rcf_MaxEvents rcf_MaxPayloads rcf_MaxRuntime rcf_PayloadGracePeriod] in *.
  split_and!; try done; by apply dflt_pos.
Qed.

(** ** Properties of a run *)

(** C3.  Nothing is deleted before it is archived.  Whatever the store, the
    archiver, the clock and the context do, every deletion a run asks for names
    only events whose retention time had passed at the start of the run, and one
    that is not a dry run comes directly after the events were loaded, found to be
    exactly the requested ones, written to an archive and the archive recorded,
    and carries that archive's identifier. *)
Theorem retention_archives_first (env : Env) (cfg : RetentionConfig) (dryRun : bool)
    (h1 h2 : history) (req : DeleteRequest) (res : DeleteResult) (err : option error) :
  (Run env cfg dryRun []).1 = h1 ++ CallDelete req res err :: h2 ->
  Forall (fun e => exists t, eventExpiry cfg e = Some t /\ t <= env_now env []) (dq_Events req) /\
  (dq_DryRun req = false ->
   exists h0 records receipt,
     h1 = h0 ++ [CallLoad (dq_Events req) records None; CallArchive records receipt None;
                 CallRecord receipt None] /\
     sameArchiveEvents records (dq_Events req) = true /\
     dq_ArchiveID req = mf_ID (rc_Manifest receipt)).
Proof. intros H. by apply (Run_justified env cfg dryRun h1 (CallDelete req res err) h2) in H as [? _]. Qed.

(** C18.  A payload is deleted only when it is provably garbage: it was listed as
    a candidate past the grace period and with a verified archive, the store then
    reported it unreferenced, its payload store is configured, and its key is the
    checksum of its content.  The grace period is measured from the start of the
    run. *)
Theorem retention_payload_safety (env : Env) (cfg : RetentionConfig) (dryRun : bool)
    (h1 h2 : history) (ref : Ref) (err : option error) :
  (Run env cfg dryRun []).1 = h1 ++ CallPayloadDelete ref err :: h2 ->
  exists ha hb hc limit page refs live c,
    h1 = ha ++ CallCandidates (env_now env [] - rcf_PayloadGracePeriod cfg) limit page None ::
         hb ++ CallReferenced refs live None :: hc /\
    c ∈ page /\ ca_Ref c = ref /\ ca_ArchiveID c <> EmptyString /\
    ref ∈ refs /\ live !! payloadKey ref <> Some true /\
    ref_Store ref ∈ env_payload_stores env /\ validContentAddressedRef ref = true.
Proof. intros H. by apply (Run_justified env cfg dryRun h1 (CallPayloadDelete ref err) h2) in H as [_ ?]. Qed.

(** The calls of a dry run: clock and context reads, event scans, and deletions
    marked as dry runs. *)
Definition dry_call (c : call) : Prop :=
  match c with
  | CallNow _ | CallCtx _ | CallScan _ _ _ => True
  | CallDelete req _ _ => dq_DryRun req = true
  | _ => False
  end.

(** A dry run changes nothing: it never reconciles, archives, records, touches a
    candidate or deletes a payload. *)
Lemma retention_dry_run (env : Env) (cfg : RetentionConfig) : Forall dry_call (Run env cfg true []).1.
Proof.
  destruct (run_from_dry env cfg (env_now env []) [CallNow (env_now env [])]) as (h & Hh & HF).
  change (Run env cfg true []).1 with (run_from env cfg true (env_now env []) [CallNow (env_now env [])]).1.
  rewrite Hh. constructor; [done|]. eapply Forall_impl; [exact HF|]. by intros [].
Qed.

(** C37.  Every run of an engine built by [New] returns a result, within
    [MaxEvents + 1] pages and [MaxPayloads + 1] candidate pages, however the store
    pages its events (its pages being slices of fewer than [2^62] elements) and
    whatever it answers. *)
Theorem retention_terminates (env : Env) (cfg cfg' : RetentionConfig) (has_store dryRun : bool) (h : history) :
  New cfg has_store = Ok cfg' -> pages_fit env ->
  exists result err, (Run env cfg' dryRun h).2 = Some (result, err).
Proof.
  intros Hnew Hfit. apply New_bounds in Hnew as (_ & _ & _ & Hmax & _).
  destruct (Run_total env cfg' dryRun h Hfit) as [[result err] Hrun]; [lia|]. eauto.
Qed.

(** A policy's [RetentionClass] plays no part in matching a payload. *)
Lemma payload_policy_ignores_class v p name m ttl class :
  payload_policy_matches v p (mkPayloadPolicy name (mkPayloadMatch (pm_EventMatch m) (pm_Role m) (pm_ContentType m) class) ttl) =
  payload_policy_matches v p (mkPayloadPolicy name m ttl).
Proof. done. Qed.

(** ** A concrete run *)

Definition run_config : RetentionConfig :=
  mkRetentionConfig [mkEventPolicy "all" (mkEventMatch "" "" "" None "" "" 0 None) 10] ∅ 0 [] ∅ 0 0 0 0 0 0 0 5 true.

Definition run_event : REvent :=
  mkREvent "0" "c" "" "" 100 "k" "s" "" 1 "" "" "" 0 false [].

Definition run_ref : Ref :=
  let sum : array 32 := default (zero_array 32) (to_array 32 (replicate 32 "001"%char)) in
  mkRef "fs" (hex_Encode (array_bytes sum)) "" 3 3 sum "" time_zero "".

Definition run_record : EventRecord :=
  (demo_record 1 []) <| er_ID := zero_array 16 |>.
Definition run_receipt : Receipt := mkReceipt (mkManifest ArchiveVersion "a1" 0 1 [""] Ref_zero []) Ref_zero.

Definition run_env : Env :=
  mkEnv (fun _ => 1000) (fun _ => None) (fun _ => None)
    (fun _ _ => (mkEventPage [run_event] "" false, None))
    (fun _ _ => ([run_record], None)) (fun _ _ => (run_receipt, None)) (fun _ _ => None)
    (fun _ _ => (mkDeleteResult 1 1, None))
    (fun _ _ _ => ([mkCandidate run_ref "a1" 0 0 0 ""], None)) (fun _ _ => (∅, None)) (fun _ _ _ => None)
    {["fs"]} (fun _ _ => None) (fun _ => []).

Definition run_cfg : RetentionConfig := match New run_config true with Ok c => c | _ => run_config end.
Definition run_history : history := (Run run_env run_cfg false []).1.

Example run_deletes :
  exists result, (Run run_env run_cfg false []).2 = Some (result, None) /\
    rs_EventsDeleted result = 1 /\ rs_PayloadsDeleted result = 1 /\ rs_PayloadBytesReclaimed result = 3.
Proof. eexists. vm_compute. split_and!; reflexivity. Qed.

Definition run_request : DeleteRequest := mkDeleteRequest [run_event] ∅ "a1" false.

Lemma run_history_split :
  run_history = take 7 run_history ++ CallDelete run_request (mkDeleteResult 1 1) None :: drop 8 run_history.
Proof. vm_compute. reflexivity. Qed.

Example retention_archives_first_witness :
  exists h0 records receipt,
     take 7 run_history = h0 ++ [CallLoad [run_event] records None; CallArchive records receipt None;
                 CallRecord receipt None] /\
     sameArchiveEvents records [run_event] = true /\ "a1"%string = mf_ID (rc_Manifest receipt).
Proof.
  apply (retention_archives_first run_env run_cfg false (take 7 run_history) (drop 8 run_history)
    run_request (mkDeleteResult 1 1) None); [exact run_history_split|reflexivity].
Defined.

Lemma run_history_payload :
  run_history = take 11 run_history ++ CallPayloadDelete run_ref None :: drop 12 run_history.
Proof. vm_compute. reflexivity. Qed.

Example retention_payload_safety_witness : validContentAddressedRef run_ref = true.
Proof.
  destruct (retention_payload_safety run_env run_cfg false (take 11 run_history) (drop 12 run_history)
    run_ref None run_history_payload) as (ha & hb & hc & limit & page & refs & live & c & _ & H).
  apply H.
Defined.

Example retention_terminates_witness :
  exists result err, (Run run_env run_cfg true []).2 = Some (result, err).
Proof.
  apply (retention_terminates run_env run_config run_cfg true true []).
  - vm_compute. reflexivity.
  - intros h req. simpl. lia.
Defined.
