(* ===== verification/Ingestor.v ===== *)
(** * The ingestor (src/ingestor/ingestor.go)

    [Engine.Run] fetches messages from JetStream, decodes each into a storage
    batch, groups batches within configured limits, writes a group to the store
    and acknowledges its messages, and sends what cannot be decoded or written to
    a dead-letter subject.  The consumer, its messages, the store, the dead-letter
    publisher, the clock and the context are the environment: every interaction is
    an entry of the history, answered by a function of the history so far. *)

From S2P Require Import Prelude Ids Events GoLib JsonText Wire Payload Storage Trace.

(** ** Data *)

Record IngestConfig := mkIngestConfig {
  ic_MaxMessages : Z;
  ic_MaxEvents : Z;
  ic_MaxBytes : Z;
  ic_FetchWait : Z;
  ic_WriteTimeout : Z;
  ic_AckTimeout : Z;
  ic_MaxDeliveries : Z;
  ic_NakDelay : Z;
  ic_DLQSubject : string
}.

#[global] Instance eta_IngestConfig : Eta IngestConfig :=
  fun r => mkIngestConfig (ic_MaxMessages r) (ic_MaxEvents r) (ic_MaxBytes r) (ic_FetchWait r)
    (ic_WriteTimeout r) (ic_AckTimeout r) (ic_MaxDeliveries r) (ic_NakDelay r) (ic_DLQSubject r).

(** The counters, and the snapshot [Stats] takes of them. *)
Record icounters := mkICounters {
  messagesFetched : Z;
  messagesDecoded : Z;
  messagesAcked : Z;
  messagesDLQ : Z;
  redeliveries : Z;
  eventsWritten : Z;
  bytesFetched : Z;
  decodeErrors : Z;
  writeErrors : Z;
  ackErrors : Z
}.

#[global] Instance eta_icounters : Eta icounters :=
  fun r => mkICounters (messagesFetched r) (messagesDecoded r) (messagesAcked r) (messagesDLQ r)
    (redeliveries r) (eventsWritten r) (bytesFetched r) (decodeErrors r) (writeErrors r) (ackErrors r).

Definition icounters0 : icounters := mkICounters 0 0 0 0 0 0 0 0 0 0.

Record IngestStatistics := mkIngestStatistics {
  st_MessagesFetched : Z;
  st_MessagesDecoded : Z;
  st_MessagesAcked : Z;
  st_MessagesDLQ : Z;
  st_Redeliveries : Z;
  st_EventsWritten : Z;
  st_BytesFetched : Z;
  st_DecodeErrors : Z;
  st_WriteErrors : Z;
  st_AckErrors : Z
}.

Definition Engine_Stats (c : icounters) : IngestStatistics :=
  mkIngestStatistics (messagesFetched c) (messagesDecoded c) (messagesAcked c) (messagesDLQ c)
    (redeliveries c) (eventsWritten c) (bytesFetched c) (decodeErrors c) (writeErrors c) (ackErrors c).

(** A delivery of a message: which one it is, and what it carries. *)
Record Msg := mkMsg { msg_id : nat; msg_Data : bytes; msg_Subject : string }.
#[global] Instance Msg_eq_dec : EqDecision Msg.
Proof. solve_decision. Defined.

Record MsgMetadata := mkMsgMetadata {
  mm_Stream : string;
  mm_Consumer : string;
  mm_StreamSequence : Z;
  mm_ConsumerSequence : Z;
  mm_NumDelivered : Z
}.

Record pending := mkPending { pd_message : Msg; pd_batch : StorageBatch; pd_bytes : Z }.

Abbreviation Header := (gmap string (list string)).

(** What a fetch delivers: the messages until its channel closes, then its error. *)
Record Fetched := mkFetched { ft_messages : list Msg; ft_error : option error }.

(** ** Construction *)

Definition ingest_default (v d : Z) : Z := if v <=? 0 then d else v.

(** [New(cfg, consumer, store, dlq)]; the flags say that a collaborator is not nil. *)
Definition New_ingestor (cfg : IngestConfig) (has_consumer has_store has_dlq : bool) : result IngestConfig :=
  if negb has_consumer || negb has_store || negb has_dlq
  then Fail (errors_New "trail/ingestor: consumer, store, and DLQ publisher are required")
  else Ok (mkIngestConfig (ingest_default (ic_MaxMessages cfg) 64) (ingest_default (ic_MaxEvents cfg) 4096)
    (ingest_default (ic_MaxBytes cfg) (Z.shiftl 8 20)) (ingest_default (ic_FetchWait cfg) 1000000000)
    (ingest_default (ic_WriteTimeout cfg) (10 * 1000000000)) (ingest_default (ic_AckTimeout cfg) (2 * 1000000000))
    (if ic_MaxDeliveries cfg =? 0 then 5 else ic_MaxDeliveries cfg)
    (ingest_default (ic_NakDelay cfg) 1000000000)
    (if str_eqb (ic_DLQSubject cfg) "" then "trail.events.dlq.v1" else ic_DLQSubject cfg)).

(** ** The environment *)

(** A [deadline] is the timeout put on a fresh context; [None] is [Run]'s own
    context.  The store receives the batches of the group in [ICallWrite]. *)
Inductive icall :=
| ICallCtx (err : option error)
| ICallFetch (limit wait : Z) (res : Fetched) (err : option error)
| ICallMetadata (m : Msg) (metadata : MsgMetadata + error)
| ICallNow (now : Z)
| ICallWrite (timeout : Z) (group : list pending) (err : option error)
| ICallDoubleAck (timeout : Z) (m : Msg) (err : option error)
| ICallNak (m : Msg) (delay : Z) (err : option error)
| ICallDLQ (deadline : option Z) (subject : string) (data : bytes) (header : Header) (err : option error)
| ICallAck (m : Msg) (err : option error).

Record IEnv := mkIEnv {
  ie_ctx : list icall -> option error;
  ie_fetch : list icall -> Z -> Z -> Fetched * option error;
  ie_metadata : list icall -> Msg -> MsgMetadata + error;
  ie_now : list icall -> Z;
  ie_write : list icall -> list StorageBatch -> option error;
  ie_doubleAck : list icall -> Msg -> option error;
  ie_nak : list icall -> Msg -> option error;
  ie_dlq : list icall -> string -> bytes -> Header -> option error;
  ie_ack : list icall -> Msg -> option error
}.

Definition boundedError (err : option error) : string :=
  match err with None => "" | Some e => String.substring 0 512 (err_text e) end.

Section Engine.
Context (env : IEnv) (cfg : IngestConfig).

Definition ictx_Err : E icall (option error) := ask (ie_ctx env) ICallCtx.
Definition Fetch : E icall (Fetched * option error) :=
  ask2 (fun h => ie_fetch env h (ic_MaxMessages cfg) (ic_FetchWait cfg))
    (ICallFetch (ic_MaxMessages cfg) (ic_FetchWait cfg)).
Definition msg_Metadata (m : Msg) : E icall (MsgMetadata + error) :=
  ask (fun h => ie_metadata env h m) (ICallMetadata m).
Definition time_Now : E icall Z := ask (ie_now env) ICallNow.
Definition WriteBatches (group : list pending) : E icall (option error) :=
  ask (fun h => ie_write env h (pd_batch <$> group)) (ICallWrite (ic_WriteTimeout cfg) group).
Definition DoubleAck (m : Msg) : E icall (option error) :=
  ask (fun h => ie_doubleAck env h m) (ICallDoubleAck (ic_AckTimeout cfg) m).
Definition NakWithDelay (m : Msg) : E icall (option error) :=
  ask (fun h => ie_nak env h m) (ICallNak m (ic_NakDelay cfg)).
Definition PublishDLQ (deadline : option Z) (data : bytes) (header : Header) : E icall (option error) :=
  ask (fun h => ie_dlq env h (ic_DLQSubject cfg) data header) (ICallDLQ deadline (ic_DLQSubject cfg) data header).
Definition msg_Ack (m : Msg) : E icall (option error) := ask (fun h => ie_ack env h m) (ICallAck m).

(** ** Operations *)

Definition dlq_header (message : Msg) (reason : string) (cause : error) : Header :=
  <["Trail-Original-Subject" := [msg_Subject message]]>
    (<["Trail-DLQ-Error" := [boundedError (Some cause)]]> (<["Trail-DLQ-Reason" := [reason]]> ∅)).

Definition deadLetter (deadline : option Z) (c : icounters) (message : Msg) (reason : string) (cause : error)
    : E icall icounters :=
  err ← PublishDLQ deadline (msg_Data message) (dlq_header message reason cause);
  match err with
  | Some _ => _ ← NakWithDelay message; mret c
  | None =>
      err ← msg_Ack message;
      mret match err with
           | Some _ => c <| ackErrors := u64 (ackErrors c + 1) |>
           | None => c <| messagesDLQ := u64 (messagesDLQ c + 1) |>
                       <| messagesAcked := u64 (messagesAcked c + 1) |>
           end
  end.

(** The failure branches of [decode]. *)
Definition decode_failed (c : icounters) (message : Msg) (reason : string) (cause : error)
    : E icall (icounters * option pending) :=
  c ← deadLetter None (c <| decodeErrors := u64 (decodeErrors c + 1) |>) message reason cause;
  mret (c, None).

(** The end of [decode], once the message has metadata.  Neither [Unmarshal] nor
    [Normalize] panics ([Unmarshal_safe], [Normalize_safe]). *)
Definition decode_data (c : icounters) (message : Msg) (metadata : MsgMetadata)
    : E icall (icounters * option pending) :=
  let data := msg_Data message in
  match Unmarshal data with
  | Fail err => decode_failed c message "decode" err
  | Panic _ => mret (c, None)
  | Ok envelope =>
      now ← time_Now;
      match Normalize envelope (mkDelivery (mm_Stream metadata) (mm_Consumer metadata)
              (mm_StreamSequence metadata) (mm_ConsumerSequence metadata) (mm_NumDelivered metadata) now) with
      | Fail err => decode_failed c message "normalize" err
      | Panic _ => mret (c, None)
      | Ok batch =>
          mret (c <| messagesDecoded := u64 (messagesDecoded c + 1) |>,
                Some (mkPending message batch (Z.of_nat (length data))))
      end
  end.

Definition decode (c : icounters) (message : Msg) : E icall (icounters * option pending) :=
  let data := msg_Data message in
  let c := c <| messagesFetched := u64 (messagesFetched c + 1) |>
             <| bytesFetched := u64 (bytesFetched c + u64 (Z.of_nat (length data))) |> in
  metadata ← msg_Metadata message;
  match metadata with
  | inr err => decode_failed c message "metadata" err
  | inl metadata =>
      let c := if 1 <? mm_NumDelivered metadata then c <| redeliveries := u64 (redeliveries c + 1) |> else c in
      if ic_MaxBytes cfg <? Z.of_nat (length data)
      then decode_failed c message "oversized"
             (errors_New ("message is " +:+ pretty (Z.of_nat (length data)) +:+ " bytes"))
      else decode_data c message metadata
  end.

(** [for _, item := range group { item.message.DoubleAck(...) }] *)
Fixpoint ack_group (c : icounters) (group : list pending) : E icall icounters :=
  match group with
  | [] => mret c
  | item :: group =>
      err ← DoubleAck (pd_message item);
      ack_group match err with
                | Some _ => c <| ackErrors := u64 (ackErrors c + 1) |>
                | None => c <| messagesAcked := u64 (messagesAcked c + 1) |>
                end group
  end.

Definition batch_events (p : pending) : Z := Z.of_nat (length (sb_Events (pd_batch p))).

(** [e.write(ctx, group)] *)
Definition write (c : icounters) (group : list pending) : E icall (icounters * option error) :=
  let eventCount := sumZ batch_events group in
  err ← WriteBatches group;
  match err with
  | Some e => mret (c <| writeErrors := u64 (writeErrors c + 1) |>, Some e)
  | None =>
      c ← ack_group (c <| eventsWritten := u64 (eventsWritten c + u64 eventCount) |>) group;
      mret (c, None)
  end.

(** [e.reject(group, cause)] *)
Fixpoint reject (c : icounters) (group : list pending) (cause : error) : E icall icounters :=
  match group with
  | [] => mret c
  | item :: group =>
      metadata ← msg_Metadata (pd_message item);
      let exhausted := match metadata with
                       | inl metadata => ic_MaxDeliveries cfg <=? mm_NumDelivered metadata
                       | inr _ => false
                       end in
      if exhausted
      then c ← deadLetter (Some (ic_AckTimeout cfg)) c (pd_message item) "max-deliveries" cause;
           reject c group cause
      else _ ← NakWithDelay (pd_message item); reject c group cause
  end.

(** Write a group; reject it when the write fails. *)
Definition flush (c : icounters) (group : list pending) : E icall icounters :=
  '(c, err) ← write c group;
  match err with
  | Some e => reject c group e
  | None => mret c
  end.

(** The variables of the fetch loop. *)
Record grouping := mkGrouping { gr_counters : icounters; gr_group : list pending; gr_events : Z; gr_bytes : Z }.

(** The group is full for [item]. *)
Definition overflows (g : grouping) (item : pending) : bool :=
  negb (Nat.eqb (length (gr_group g)) 0) &&
  ((ic_MaxEvents cfg <? i64 (gr_events g + batch_events item)) ||
   (ic_MaxBytes cfg <? i64 (gr_bytes g + pd_bytes item))).

(** The body of the loop over [result.Messages()]. *)
Definition message_step (g : grouping) (message : Msg) : E icall grouping :=
  '(c, item) ← decode (gr_counters g) message;
  match item with
  | None => mret (mkGrouping c (gr_group g) (gr_events g) (gr_bytes g))
  | Some item =>
      g ← (if overflows g item then c ← flush c (gr_group g); mret (mkGrouping c [] 0 0)
           else mret (mkGrouping c (gr_group g) (gr_events g) (gr_bytes g)));
      mret (mkGrouping (gr_counters g) (gr_group g ++ [item]) (i64 (gr_events g + batch_events item))
              (i64 (gr_bytes g + pd_bytes item)))
  end.

Fixpoint message_loop (g : grouping) (messages : list Msg) : E icall grouping :=
  match messages with
  | [] => mret g
  | message :: messages => g ← message_step g message; message_loop g messages
  end.

(** The messages of one fetch, the last group included. *)
Definition process_fetch (c : icounters) (messages : list Msg) : E icall icounters :=
  g ← message_loop (mkGrouping c [] 0 0) messages;
  if negb (Nat.eqb (length (gr_group g)) 0) then flush (gr_counters g) (gr_group g)
  else mret (gr_counters g).

(** [gonats.ErrTimeout] *)
Definition ErrTimeout : error := sentinel "nats: timeout".

(** One iteration of [Run]'s loop; [inr] returns from [Run]. *)
Definition run_round (c : icounters) : E icall (icounters * (unit + option error)) :=
  '(result, err) ← Fetch;
  match err with
  | Some e =>
      done ← ictx_Err;
      mret (c, inr match done with Some _ => None | None => Some e end)
  | None =>
      c ← process_fetch c (ft_messages result);
      match ft_error result with
      | Some e =>
          if errors_Is e ErrTimeout then mret (c, inl tt)
          else done ← ictx_Err;
               mret (c, match done with Some _ => inl tt | None => inr (Some e) end)
      | None => mret (c, inl tt)
      end
  end.

(** [Run]: at most [rounds] fetches; [None] when it has not returned by then. *)
Fixpoint Engine_Run (rounds : nat) (c : icounters) : E icall (icounters * option (option error)) :=
  done ← ictx_Err;
  match done with
  | Some _ => mret (c, Some None)
  | None =>
      match rounds with
      | O => mret (c, None)
      | S rounds =>
          '(c, next) ← run_round c;
          match next with
          | inl _ => Engine_Run rounds c
          | inr err => mret (c, Some err)
          end
      end
  end.
End Engine.
