(* ===== verification/IngestorProofs.v ===== *)
(** * Guarantees of the ingestor (src/ingestor/ingestor.go)

    What the history of an ingestor's calls looks like, for every behaviour of the
    consumer, the store and the dead-letter subject: a message is acknowledged only
    after its events are durable, every delivered message is settled exactly once,
    writes stay within the configured limits, and the counters match the history. *)

From S2P Require Import Prelude Ids Events GoLib JsonText Wire Payload Storage Trace Ingestor.

(** ** What a history says *)

(** The messages acknowledged, refused or dead-lettered, in order. *)
Definition settlement (c : icall) : option Msg :=
  match c with
  | ICallDoubleAck _ m _ | ICallNak m _ _ | ICallAck m _ => Some m
  | _ => None
  end.
Definition settled (h : list icall) : list Msg := omap settlement h.

(** The messages the fetches delivered. *)
Definition fetched (c : icall) : list Msg :=
  match c with ICallFetch _ _ res None => ft_messages res | _ => [] end.
Definition delivered (h : list icall) : list Msg := h ≫= fetched.

Definition is_fetch (c : icall) : bool := match c with ICallFetch _ _ _ _ => true | _ => false end.
Definition fetches (h : list icall) : nat := countb is_fetch h.

(** What one call adds to the statistics. *)
Inductive meter := MAcked | MDLQ | MAckErrors | MEvents | MWriteErrors | MFetched | MBytes | MOutcome.

Definition reading (g : meter) (c : icounters) : Z :=
  match g with
  | MAcked => messagesAcked c
  | MDLQ => messagesDLQ c
  | MAckErrors => ackErrors c
  | MEvents => eventsWritten c
  | MWriteErrors => writeErrors c
  | MFetched => messagesFetched c
  | MBytes => bytesFetched c
  | MOutcome => messagesDecoded c + decodeErrors c
  end.

Definition tally_call (g : meter) (c : icall) : Z :=
  match g, c with
  | MAcked, ICallDoubleAck _ _ None | MAcked, ICallAck _ None => 1
  | MDLQ, ICallAck _ None => 1
  | MAckErrors, ICallDoubleAck _ _ (Some _) | MAckErrors, ICallAck _ (Some _) => 1
  | MEvents, ICallWrite _ group None => sumZ batch_events group
  | MWriteErrors, ICallWrite _ _ (Some _) => 1
  | _, _ => 0
  end.
Definition tally (g : meter) (h : list icall) : Z := sumZ (tally_call g) h.

(** What the messages passed to [decode] add. *)
Definition intake_msg (g : meter) (m : Msg) : Z :=
  match g with
  | MFetched | MOutcome => 1
  | MBytes => Z.of_nat (length (msg_Data m))
  | _ => 0
  end.
Definition intake (g : meter) (ms : list Msg) : Z := sumZ (intake_msg g) ms.

Section Proofs.
Context (env : IEnv) (cfg : IngestConfig).

(** The item is the message's data, decoded and normalised. *)
Definition decoded (p : pending) : Prop :=
  pd_bytes p = Z.of_nat (length (msg_Data (pd_message p))) /\ pd_bytes p <= ic_MaxBytes cfg /\
  exists envelope delivery, Unmarshal (msg_Data (pd_message p)) = Ok envelope /\
    Normalize envelope delivery = Ok (pd_batch p).

(** The limits and the batch sizes are far from the range of [int]. *)
Definition small (group : list pending) : Prop :=
  ic_MaxEvents cfg < 2 ^ 62 /\ ic_MaxBytes cfg < 2 ^ 62 /\ Forall (fun p => batch_events p < 2 ^ 62) group.

Definition within_limits (group : list pending) : Prop :=
  (length group <= 1)%nat \/
  (sumZ batch_events group <= ic_MaxEvents cfg /\ sumZ pd_bytes group <= ic_MaxBytes cfg).

(** A successful write of [m], with nothing but acknowledgements since. *)
Definition written_before (h : list icall) (m : Msg) : Prop :=
  exists h0 group acks item,
    h = h0 ++ ICallWrite (ic_WriteTimeout cfg) group None :: acks /\
    Forall (fun c => match c with ICallDoubleAck _ _ _ => True | _ => False end) acks /\
    item ∈ group /\ pd_message item = m /\ decoded item.

(** The last call put the data of [m] on the dead-letter subject. *)
Definition dead_lettered_before (h : list icall) (m : Msg) : Prop :=
  exists h0 deadline reason cause,
    h = h0 ++ [ICallDLQ deadline (ic_DLQSubject cfg) (msg_Data m) (dlq_header m reason cause) None].

Definition call_justified (h : list icall) (c : icall) : Prop :=
  match c with
  | ICallDoubleAck _ m _ => written_before h m
  | ICallAck m _ => dead_lettered_before h m
  | ICallWrite _ group _ => group <> [] /\ Forall decoded group /\ (small group -> within_limits group)
  | _ => True
  end.

Lemma call_justified_mono p h c : call_justified h c -> call_justified (p ++ h) c.
Proof.
  destruct c; try done; simpl.
  - intros (h0 & group & acks & item & -> & H). exists (p ++ h0), group, acks, item. by rewrite app_assoc.
  - intros (h0 & d & r & e & ->). exists (p ++ h0), d, r, e. by rewrite app_assoc.
Qed.

(** The calls [new] process the messages [ms], settle [s] and move the counters
    from [c] to [c']. *)
Record handled (c c' : icounters) (ms s : list Msg) (new : list icall) : Prop := mkHandled {
  hd_justified : justified_calls call_justified new;
  hd_settled : settled new ≡ₚ s;
  hd_counted : forall g, u64 (reading g c') = u64 (reading g c + intake g ms + tally g new);
  hd_fetches : fetches new = 0%nat
}.

Lemma settled_app h1 h2 : settled (h1 ++ h2) = settled h1 ++ settled h2.
Proof. apply omap_app. Qed.
Lemma delivered_app h1 h2 : delivered (h1 ++ h2) = delivered h1 ++ delivered h2.
Proof. apply bind_app. Qed.
Lemma tally_app g h1 h2 : tally g (h1 ++ h2) = tally g h1 + tally g h2.
Proof. apply sumZ_app. Qed.
Lemma tally_cons g c h : tally g (c :: h) = tally_call g c + tally g h.
Proof. done. Qed.
Lemma intake_app g m1 m2 : intake g (m1 ++ m2) = intake g m1 + intake g m2.
Proof. apply sumZ_app. Qed.

Lemma u64_shift a b x y : u64 a = u64 b -> u64 (a + x + y) = u64 (b + x + y).
Proof. intros H. rewrite <- !Z.add_assoc. rewrite <- (wrapu_add_l 64 a), <- (wrapu_add_l 64 b). by rewrite H. Qed.

Lemma handled_trans c1 c2 c3 m1 m2 s1 s2 n1 n2 :
  handled c1 c2 m1 s1 n1 -> handled c2 c3 m2 s2 n2 ->
  handled c1 c3 (m1 ++ m2) (s1 ++ s2) (n1 ++ n2).
Proof.
  intros [J1 S1 C1 F1] [J2 S2 C2 F2]. split.
  - apply justified_app; [apply call_justified_mono|done|done].
  - by rewrite settled_app, S1, S2.
  - intros g. rewrite C2, (u64_shift _ _ _ _ (C1 g)), intake_app, tally_app. f_equal. lia.
  - unfold fetches in *. rewrite countb_app. lia.
Qed.

Lemma handled_refl c : handled c c [] [] [].
Proof. split; [apply justified_nil|done| |done]. intros g. f_equal. unfold intake, tally. simpl. lia. Qed.

Lemma u64_u64 a : u64 (u64 a) = u64 a.
Proof. apply Z.mod_mod. lia. Qed.

(** [metered]: a meter equation between explicit counters. *)
Ltac metered :=
  intros []; cbn -[u64 Z.of_nat]; unfold intake, tally; cbn -[u64 Z.of_nat sumZ batch_events];
  cbn [sumZ intake_msg tally_call];
  rewrite ?u64_u64, ?wrapu_add_l, ?wrapu_add_r; f_equal; lia.

Lemma deadLetter_handled deadline c m reason cause :
  emits (deadLetter env cfg deadline c m reason cause) (fun c' => handled c c' [] [m]).
Proof.
  unfold deadLetter. apply emits_ask_seq. intros [e|]; apply emits_ask_seq; intros err'; apply emits_ret.
  - split; [|done|metered|done].
    apply (justified_app call_justified [_] [_]); [apply call_justified_mono|by apply justified_single..].
  - split; [|done|destruct err'; metered|done].
    apply (justified_snoc call_justified [_]); [by apply justified_single|].
    by exists [], deadline, reason, cause.
Qed.

(** A call that settles, counts and needs nothing. *)
Definition quiet (call : icall) : Prop :=
  (forall h, call_justified h call) /\ settlement call = None /\ is_fetch call = false /\
  forall g, tally_call g call = 0.

Lemma handled_quiet call c c' ms s n : quiet call -> handled c c' ms s n -> handled c c' ms s (call :: n).
Proof.
  intros (HJ & HS & HF & HT) [J S C F]. split.
  - apply (justified_app call_justified [_]); [apply call_justified_mono|by apply justified_single|done].
  - unfold settled. cbn. by rewrite HS.
  - intros g. rewrite C. f_equal. rewrite tally_cons, HT. lia.
  - unfold fetches in *. cbn. by rewrite HF.
Qed.

Ltac quiet := split; [done|split; [done|split; [done|by intros []]]].

(** *** Writing *)

Lemma ack_group_emits group c :
  emits (ack_group env cfg c group) (fun c' n =>
    Forall2 (fun p call => exists err, call = ICallDoubleAck (ic_AckTimeout cfg) (pd_message p) err) group n /\
    forall g, u64 (reading g c') = u64 (reading g c + tally g n)).
Proof.
  revert c; induction group as [|item group IH]; intros c; cbn [ack_group].
  - apply emits_ret. split; [done|]. intros g. f_equal. unfold tally. simpl. lia.
  - apply emits_ask_seq. intros err. eapply emits_mono; [apply IH|]. intros c' n [HF HC]. split.
    + constructor; [by exists err|done].
    + intros g. rewrite HC, tally_cons.
      destruct err; destruct g; cbn -[tally u64]; rewrite ?wrapu_add_l; f_equal; lia.
Qed.

Lemma acks_facts group n :
  Forall2 (fun p call => exists err, call = ICallDoubleAck (ic_AckTimeout cfg) (pd_message p) err) group n ->
  settled n = pd_message <$> group /\ fetches n = 0%nat /\
  Forall (fun c => match c with ICallDoubleAck _ _ _ => True | _ => False end) n.
Proof.
  induction 1 as [|p call group n (err & ->) _ (IH1 & IH2 & IH3)]; [done|].
  unfold settled, fetches in *. cbn. rewrite IH1. split_and!; [done|done|by constructor].
Qed.

Lemma acks_justified h0 group done todo acks n :
  group = done ++ todo -> Forall decoded group ->
  Forall (fun c => match c with ICallDoubleAck _ _ _ => True | _ => False end) acks ->
  Forall2 (fun p call => exists err, call = ICallDoubleAck (ic_AckTimeout cfg) (pd_message p) err) todo n ->
  justified_calls call_justified (h0 ++ ICallWrite (ic_WriteTimeout cfg) group None :: acks) ->
  justified_calls call_justified ((h0 ++ ICallWrite (ic_WriteTimeout cfg) group None :: acks) ++ n).
Proof.
  intros Hg Hd Ha HF. revert done acks Hg Ha.
  induction HF as [|p call todo n (err & ->) _ IH]; intros done acks Hg Ha HJ; [by rewrite app_nil_r|].
  set (call := ICallDoubleAck _ _ _).
  replace ((h0 ++ _ :: acks) ++ call :: n) with
    ((h0 ++ ICallWrite (ic_WriteTimeout cfg) group None :: (acks ++ [call])) ++ n)
    by (by rewrite app_comm_cons, app_assoc, <- (app_assoc _ [call] n)).
  apply (IH (done ++ [p])); [by rewrite <- app_assoc|apply Forall_app; split; [done|by constructor]|].
  rewrite app_comm_cons, app_assoc. apply justified_snoc; [done|].
  exists h0, group, acks, p. 
  assert (p ∈ group) by (rewrite Hg; set_solver). split_and!; try done. by eapply Forall_forall.
Qed.

(** A group that may be written. *)
Definition writable (group : list pending) : Prop :=
  group <> [] /\ Forall decoded group /\ (small group -> within_limits group).

Lemma write_emits c group :
  writable group ->
  emits (write env cfg c group) (fun '(c', err) => handled c c' []
    (match err with None => pd_message <$> group | Some _ => [] end)).
Proof.
  intros Hw. unfold write. apply emits_ask_seq. intros [e|].
  - apply emits_ret. split; [by apply justified_single|done|metered|done].
  - eapply emits_seq; [apply ack_group_emits|]. intros c' n1 [HF HC]. apply emits_ret.
    rewrite app_nil_r. destruct (acks_facts group n1 HF) as (HS & HD & _). split.
    + apply (acks_justified [] group [] group []); [done|apply Hw|done|done|by apply justified_single].
    + unfold settled in *. cbn. by rewrite HS.
    + intros g. rewrite HC, tally_cons.
      destruct g; cbn -[tally u64 sumZ]; rewrite ?wrapu_add_r, ?wrapu_add_l; unfold intake; cbn [sumZ fold_right];
        f_equal; lia.
    + done.
Qed.

Lemma reject_handled c group cause :
  emits (reject env cfg c group cause) (fun c' => handled c c' [] (pd_message <$> group)).
Proof.
  revert c; induction group as [|item group IH]; intros c; cbn [reject]; [apply emits_ret, handled_refl|].
  apply emits_ask_seq. intros metadata. cbn zeta.
  destruct (match metadata with inl md => _ | inr _ => false end).
  - eapply emits_seq; [apply deadLetter_handled|]. intros c1 n1 H1.
    eapply emits_mono; [apply IH|]. intros c2 n2 H2. apply handled_quiet; [quiet|].
    apply (handled_trans _ _ _ [] [] [_] _ _ _ H1 H2).
  - apply emits_ask_seq. intros err. eapply emits_mono; [apply IH|]. intros c2 n2 H2.
    apply handled_quiet; [quiet|]. refine (handled_trans c c _ [] [] [_] _ [_] _ _ H2).
    split; [by apply justified_single|done|metered|done].
Qed.

Lemma flush_handled c group :
  writable group -> emits (flush env cfg c group) (fun c' => handled c c' [] (pd_message <$> group)).
Proof.
  intros Hw. unfold flush. eapply emits_seq; [by apply write_emits|]. intros [c1 [e|]] n1 H1.
  - eapply emits_mono; [apply reject_handled|]. intros c2 n2 H2.
    apply (handled_trans _ _ _ [] [] [] _ _ _ H1 H2).
  - apply emits_ret. by rewrite app_nil_r.
Qed.

(** *** Decoding *)

Lemma handled_intake c c1 c2 ms s n :
  (forall g, u64 (reading g c1) = u64 (reading g c + intake g ms)) -> handled c1 c2 [] s n -> handled c c2 ms s n.
Proof.
  intros Hc [J S C F]. split; [done|done| |done]. intros g. rewrite C, (u64_shift _ _ _ _ (Hc g)).
  f_equal. unfold intake at 2. simpl. lia.
Qed.

(** What [decode] owes its caller. *)
Definition decode_result (c : icounters) (m : Msg) (out : icounters * option pending) (n : list icall) : Prop :=
  handled c out.1 [m] (match out.2 with None => [m] | Some _ => [] end) n /\
  forall p, out.2 = Some p -> pd_message p = m /\ decoded p.

Lemma decode_result_quiet c m out n call :
  quiet call -> decode_result c m out n -> decode_result c m out (call :: n).
Proof. intros Hq [H1 H2]. split; [by apply handled_quiet|done]. Qed.

(** The counters when [decode] stands at its outcome. *)
Definition received (c c1 : icounters) (m : Msg) : Prop :=
  forall g, u64 (reading g c1) = u64 (reading g c + match g with MOutcome => 0 | _ => intake g [m] end).

Lemma decode_failed_emits c c1 m reason cause :
  received c c1 m -> emits (decode_failed env cfg c1 m reason cause) (decode_result c m).
Proof.
  intros Hc. unfold decode_failed. eapply emits_seq; [apply deadLetter_handled|]. intros c' n H.
  apply emits_ret. rewrite app_nil_r. split; [|done]. eapply handled_intake; [|exact H].
  intros g. specialize (Hc g). destruct g; cbn -[u64 intake] in *; try exact Hc.
  rewrite wrapu_add_r, Z.add_assoc, <- wrapu_add_l, Hc, wrapu_add_l. f_equal. unfold intake. simpl. lia.
Qed.

Lemma decode_data_emits c c1 m metadata :
  received c c1 m -> Z.of_nat (length (msg_Data m)) <= ic_MaxBytes cfg ->
  emits (decode_data env cfg c1 m metadata) (decode_result c m).
Proof.
  intros Hc Hlen. unfold decode_data. pose proof (Unmarshal_safe (msg_Data m)) as Hs.
  destruct (Unmarshal (msg_Data m)) as [envelope|err|] eqn:Hu; [|by apply decode_failed_emits|done].
  apply emits_ask_seq. intros now.
  match goal with |- context [Normalize envelope ?d] =>
    pose proof (Normalize_safe envelope d) as Hs'; destruct (Normalize envelope d) as [batch|err|] eqn:Hn end;
    [| |done].
  - apply emits_ret. apply decode_result_quiet; [quiet|]. split.
    + eapply handled_intake; [|apply handled_refl]. intros g. specialize (Hc g).
      destruct g; cbn -[u64 intake] in *; try exact Hc.
      replace (u64 (messagesDecoded c1 + 1) + decodeErrors c1)
        with (decodeErrors c1 + u64 (messagesDecoded c1 + 1)) by lia.
      rewrite wrapu_add_r. replace (decodeErrors c1 + (messagesDecoded c1 + 1))
        with (messagesDecoded c1 + decodeErrors c1 + 1) by lia.
      rewrite <- wrapu_add_l, Hc, wrapu_add_l. f_equal. unfold intake. simpl. lia.
    + intros p [= <-]. split; [done|]. split_and!; [done|done|]. eauto.
  - eapply emits_mono; [by apply decode_failed_emits|]. intros out n H. by apply decode_result_quiet; [quiet|].
Qed.

Lemma decode_emits c m : emits (decode env cfg c m) (decode_result c m).
Proof.
  unfold decode. apply emits_ask_seq. intros [metadata|err].
  - set (c1 := if 1 <? _ then _ else _).
    assert (received c c1 m) as Hc.
    { unfold c1. intros []; destruct (1 <? _); cbn -[u64 Z.of_nat]; unfold intake; cbn -[u64 Z.of_nat];
        rewrite ?u64_u64, ?wrapu_add_r, ?Z.add_0_r; done. }
    destruct (Z.ltb_spec (ic_MaxBytes cfg) (Z.of_nat (length (msg_Data m)))).
    + eapply emits_mono; [by apply decode_failed_emits|]. intros out n H1. by apply decode_result_quiet; [quiet|].
    + eapply emits_mono; [by apply decode_data_emits|]. intros out n H1. by apply decode_result_quiet; [quiet|].
  - eapply emits_mono; [apply decode_failed_emits|].
    + intros []; cbn -[u64 Z.of_nat]; unfold intake; cbn -[u64 Z.of_nat];
        rewrite ?u64_u64, ?wrapu_add_r, ?Z.add_0_r; done.
    + intros out n H1. by apply decode_result_quiet; [quiet|].
Qed.

(** *** Grouping *)

Definition grouping_ok (g : grouping) : Prop :=
  Forall decoded (gr_group g) /\
  (small (gr_group g) ->
   gr_events g = sumZ batch_events (gr_group g) /\ gr_bytes g = sumZ pd_bytes (gr_group g) /\
   within_limits (gr_group g)).

Lemma grouping_ok_empty c : grouping_ok (mkGrouping c [] 0 0).
Proof. split; [done|]. intros _. split_and!; [done|done|left; simpl; lia]. Qed.

Lemma grouping_writable g : grouping_ok g -> gr_group g <> [] -> writable (gr_group g).
Proof. intros [Hd Hs] Hne. split_and!; [done|done|]. intros H. by apply Hs. Qed.

Lemma i64_small a b : 0 <= a < 2 ^ 62 -> 0 <= b < 2 ^ 62 -> i64 (a + b) = a + b.
Proof. intros Ha Hb. apply i64_id. unfold in_s. lia. Qed.

Lemma decoded_bytes p : decoded p -> 0 <= pd_bytes p <= ic_MaxBytes cfg.
Proof. intros (-> & H & _). lia. Qed.

Lemma group_sums group :
  Forall decoded group -> small group -> within_limits group ->
  0 <= sumZ batch_events group < 2 ^ 62 /\ 0 <= sumZ pd_bytes group < 2 ^ 62.
Proof.
  intros Hd (He & Hb & Hs) Hw.
  assert (0 <= sumZ batch_events group) by (apply sumZ_nonneg; intros p _; unfold batch_events; lia).
  assert (0 <= sumZ pd_bytes group).
  { apply sumZ_nonneg. intros p Hp. apply decoded_bytes. by eapply Forall_forall. }
  destruct Hw as [Hl|[? ?]]; [|lia]. destruct group as [|p [|q group]]; simpl in *; [lia| |lia].
  apply Forall_cons in Hs as [? _]. apply Forall_cons in Hd as [Hd%decoded_bytes _]. lia.
Qed.

Lemma grouping_ok_append g c item :
  grouping_ok g -> decoded item -> overflows cfg g item = false ->
  grouping_ok (mkGrouping c (gr_group g ++ [item]) (i64 (gr_events g + batch_events item))
                 (i64 (gr_bytes g + pd_bytes item))).
Proof.
  intros [Hd Hs] Hi Ho. unfold grouping_ok. cbn [gr_group gr_events gr_bytes]. split.
  { apply Forall_app. split; [done|by constructor]. }
  intros (He & Hb & [HF Hone]%Forall_app). apply Forall_cons in Hone as [Hone _].
  assert (small (gr_group g)) as Hsm by done. destruct (Hs Hsm) as (Hev & Hby & Hw).
  destruct (group_sums _ Hd Hsm Hw) as [R1 R2]. pose proof (decoded_bytes item Hi).
  assert (0 <= batch_events item) by (unfold batch_events; lia).
  rewrite !sumZ_app. cbn [sumZ fold_right]. rewrite !Z.add_0_r, Hev, Hby, !i64_small by lia.
  split_and!; [done|done|]. unfold overflows in Ho. rewrite Hev, Hby, !i64_small in Ho by lia.
  unfold within_limits. rewrite length_app, !sumZ_app. cbn [sumZ fold_right length]. rewrite !Z.add_0_r.
  destruct (Nat.eqb_spec (length (gr_group g)) 0) as [->|Hn]; [left; lia|right]. cbn [negb andb] in Ho.
  apply orb_false_iff in Ho as [H1%Z.ltb_ge H2%Z.ltb_ge]. lia.
Qed.

(** A step processes [ms]; what is not settled waits in the group. *)
Definition step_result (g : grouping) (ms : list Msg) (g' : grouping) (n : list icall) : Prop :=
  grouping_ok g' /\ exists s, s ++ (pd_message <$> gr_group g') ≡ₚ (pd_message <$> gr_group g) ++ ms /\
    handled (gr_counters g) (gr_counters g') ms s n.

Lemma message_step_emits g m : grouping_ok g -> emits (message_step env cfg g m) (step_result g [m]).
Proof.
  intros Hg. unfold message_step. eapply emits_seq; [apply decode_emits|]. intros [c item] n1 [H1 Hp].
  cbn [fst snd] in *. destruct item as [item|].
  2: { apply emits_ret. rewrite app_nil_r. split; [done|]. exists [m]. split; [|done]. cbn [gr_group]. by rewrite Permutation_app_comm. }
  destruct (Hp item eq_refl) as [<- Hi]. destruct (overflows cfg g item) eqn:Ho.
  - eapply emits_seq.
    { eapply emits_seq; [apply flush_handled, grouping_writable; [done|]|].
      - intros He. unfold overflows in Ho. by rewrite He in Ho.
      - intros c2 n2 H2. apply emits_ret.
        instantiate (1 := fun g2 n => exists c2, g2 = mkGrouping c2 [] 0 0 /\
          handled c c2 [] (pd_message <$> gr_group g) n). exists c2. by rewrite app_nil_r. }
    intros g2 n2 (c2 & -> & H2). apply emits_ret. rewrite app_nil_r. split.
    + apply (grouping_ok_append (mkGrouping c2 [] 0 0)); [apply grouping_ok_empty|done|done].
    + exists (pd_message <$> gr_group g). split; [done|].
      apply (handled_trans _ _ _ _ [] [] _ _ _ H1 H2).
  - apply emits_seq with (R1 := fun g2 n => g2 = mkGrouping c (gr_group g) (gr_events g) (gr_bytes g) /\ n = []);
      [by apply emits_ret|].
    intros g2 n2 [-> ->]. apply emits_ret. rewrite !app_nil_r. cbn [gr_counters gr_group gr_events gr_bytes]. split.
    + by apply grouping_ok_append.
    + exists []. split; [|done]. cbn [gr_group app]. by rewrite fmap_app.
Qed.

Lemma message_loop_emits ms g : grouping_ok g -> emits (message_loop env cfg g ms) (step_result g ms).
Proof.
  revert g; induction ms as [|m ms IH]; intros g Hg; cbn [message_loop].
  - apply emits_ret. split; [done|]. exists []. split; [by rewrite app_nil_r|apply handled_refl].
  - eapply emits_seq; [by apply message_step_emits|]. intros g1 n1 (Hg1 & s1 & P1 & H1).
    eapply emits_mono; [by apply IH|]. intros g2 n2 (Hg2 & s2 & P2 & H2). split; [done|].
    exists (s1 ++ s2). split; [|by apply (handled_trans _ _ _ [m] ms _ _ _ _ H1 H2)].
    rewrite <- app_assoc, P2, app_assoc, P1, <- app_assoc. done.
Qed.

Lemma process_fetch_handled c ms :
  emits (process_fetch env cfg c ms) (fun c' n => exists s, s ≡ₚ ms /\ handled c c' ms s n).
Proof.
  unfold process_fetch. eapply emits_seq; [apply message_loop_emits, grouping_ok_empty|].
  intros g n1 (Hg & s1 & P1 & H1). cbn [gr_group gr_counters] in *.
  destruct (Nat.eqb_spec (length (gr_group g)) 0) as [He%nil_length_inv|Hne]; cbn [negb].
  - apply emits_ret. rewrite app_nil_r. exists s1. rewrite He in P1. by rewrite app_nil_r in P1.
  - eapply emits_mono; [apply flush_handled, grouping_writable; [done|]|].
    + intros E. by rewrite E in Hne.
    + intros c2 n2 H2. eexists. split; [exact P1|].
      rewrite <- (app_nil_r ms). by apply (handled_trans _ _ _ _ [] _ _ _ _ H1 H2).
Qed.

(** *** Rounds *)

Lemma fetches_delivered h : fetches h = 0%nat -> delivered h = [].
Proof.
  induction h as [|c h IH]; [done|]. unfold fetches, delivered in *. cbn. intros H.
  destruct c; cbn in *; try done; apply IH; done.
Qed.

(** A stretch of whole rounds. *)
Record ingested (c c' : icounters) (n : list icall) : Prop := mkIngested {
  ig_justified : justified_calls call_justified n;
  ig_settled : settled n ≡ₚ delivered n;
  ig_counted : forall g, u64 (reading g c') = u64 (reading g c + intake g (delivered n) + tally g n)
}.

Lemma ingested_app c1 c2 c3 n1 n2 : ingested c1 c2 n1 -> ingested c2 c3 n2 -> ingested c1 c3 (n1 ++ n2).
Proof.
  intros [J1 S1 C1] [J2 S2 C2]. split.
  - apply justified_app; [apply call_justified_mono|done|done].
  - by rewrite settled_app, delivered_app, S1, S2.
  - intros g. rewrite C2, (u64_shift _ _ _ _ (C1 g)), delivered_app, intake_app, tally_app. f_equal. lia.
Qed.

Lemma ingested_one c call : quiet call -> ingested c c [call].
Proof.
  intros (HJ & HS & HF & HT). assert (delivered [call] = []) as Hd.
  { apply fetches_delivered. unfold fetches. cbn. by rewrite HF. }
  split; [by apply justified_single| |].
  - rewrite Hd. unfold settled. cbn. by rewrite HS.
  - intros g. rewrite Hd. unfold tally, intake. cbn. rewrite HT. f_equal. lia.
Qed.

Lemma ingested_fetch_failed c res e : ingested c c [ICallFetch (ic_MaxMessages cfg) (ic_FetchWait cfg) res (Some e)].
Proof.
  split; [by apply justified_single|done|]. intros g. unfold intake, tally. cbn. f_equal.
  destruct g; cbn; lia.
Qed.

Lemma ingested_round c c' res s n :
  handled c c' (ft_messages res) s n -> s ≡ₚ ft_messages res ->
  ingested c c' (ICallFetch (ic_MaxMessages cfg) (ic_FetchWait cfg) res None :: n).
Proof.
  intros [J S C F] Hs. assert (delivered (ICallFetch (ic_MaxMessages cfg) (ic_FetchWait cfg) res None :: n)
    = ft_messages res) as Hd.
  { change (ft_messages res ++ delivered n = ft_messages res). by rewrite fetches_delivered, app_nil_r. }
  split.
  - apply (justified_app call_justified [_]); [apply call_justified_mono|by apply justified_single|done].
  - rewrite Hd, <- Hs. done.
  - intros g. rewrite Hd, tally_cons, C. f_equal. destruct g; cbn [tally_call]; lia.
Qed.

Lemma run_round_emits c :
  emits (run_round env cfg c) (fun '(c', _) n => ingested c c' n /\ fetches n = 1%nat).
Proof.
  unfold run_round. apply emits_ask2_seq. intros res [e|].
  - apply emits_ask_seq. intros fin. apply emits_ret. split; [|done].
    apply (ingested_app c c c [_] [_]); [apply ingested_fetch_failed|apply ingested_one; quiet].
  - eapply emits_seq; [apply process_fetch_handled|]. intros c' n (s & Hs & H).
    pose proof (ingested_round c c' res s n H Hs) as Hi. pose proof (hd_fetches _ _ _ _ _ H) as Hf.
    unfold fetches in *. destruct (ft_error res) as [e|].
    2: { apply emits_ret. rewrite app_nil_r. split; [done|]. cbn. lia. }
    destruct (errors_Is e ErrTimeout).
    { apply emits_ret. rewrite app_nil_r. split; [done|]. cbn. lia. }
    apply emits_ask_seq. intros fin. apply emits_ret. split.
    + apply (ingested_app c c' c' (_ :: n) [_] Hi). apply ingested_one. quiet.
    + cbn. rewrite countb_app. cbn. lia.
Qed.

Lemma Engine_Run_emits rounds c :
  emits (Engine_Run env cfg rounds c) (fun '(c', _) n => ingested c c' n /\ (fetches n <= rounds)%nat).
Proof.
  revert c; induction rounds as [|rounds IH]; intros c; cbn [Engine_Run]; apply emits_ask_seq; intros [e|].
  1,2,3: apply emits_ret; split; [apply ingested_one; quiet|cbn; lia].
  eapply emits_seq; [apply run_round_emits|]. intros [c1 [[]|err]] n1 [H1 F1].
  - eapply emits_mono; [apply IH|]. intros [c2 r] n2 [H2 F2]. unfold fetches in *. split.
    + apply (ingested_app c c c2 [_] (n1 ++ n2)); [apply ingested_one; quiet|by apply (ingested_app c c1 c2)].
    + cbn. rewrite countb_app. lia.
  - apply emits_ret. unfold fetches in *. rewrite app_nil_r. split; [|cbn; lia].
    apply (ingested_app c c c1 [_] n1); [apply ingested_one; quiet|done].
Qed.

Lemma Engine_Run_stops rounds c h :
  (forall h', (fetches h + rounds <= fetches h')%nat -> is_Some (ie_ctx env h')) ->
  is_Some (Engine_Run env cfg rounds c h).2.2.
Proof.
  revert c h; induction rounds as [|rounds IH]; intros c h Hctx; cbn [Engine_Run].
  - unfold ictx_Err, mbind, E_bind, ask. cbn. destruct (Hctx h) as [e ->]; [lia|]. by eexists.
  - unfold ictx_Err, mbind at 1, E_bind at 1, ask at 1. cbn zeta.
    destruct (ie_ctx env h) as [e|]; [by eexists|]. unfold mbind, E_bind.
    destruct (run_round_emits c (h ++ [ICallCtx None])) as (n & Hn & HR).
    destruct (run_round env cfg c _) as [h1 [c1 [[]|err]]]; cbn in *; [|by eexists].
    destruct HR as [_ HF]. apply IH. intros h' Hle. apply Hctx. rewrite Hn in Hle. unfold fetches in *.
    rewrite !countb_app in Hle. cbn in Hle. lia.
Qed.
End Proofs.

(** ** Properties *)

(** C4.  Acknowledgement follows durability.  Whatever the broker, the store and
    the dead-letter subject answer, a message is double-acknowledged only after a
    successful [WriteBatches] whose group holds the decoded and normalised batch of
    that very message, with nothing but acknowledgements in between; and a message
    is plainly acknowledged only when the call just before put its unchanged data
    on the dead-letter subject. *)
Theorem ingest_acks_durable (env : IEnv) (cfg : IngestConfig) (rounds : nat) (c : icounters)
    (h1 h2 : list icall) (call : icall) :
  (Engine_Run env cfg rounds c []).1 = h1 ++ call :: h2 ->
  match call with
  | ICallDoubleAck _ m _ => written_before cfg h1 m
  | ICallAck m _ => dead_lettered_before cfg h1 m
  | _ => True
  end.
Proof.
  intros H. destruct (Engine_Run_emits env cfg rounds c []) as (n & Hn & HR). rewrite H in Hn.
  destruct (Engine_Run env cfg rounds c []) as [? [? ?]]. destruct HR as [[HJ _ _] _].
  specialize (HJ h1 call h2 (eq_sym Hn)). by destruct call.
Qed.

(** C7.  No message is forgotten and none is answered twice: after any number of
    rounds, the messages acknowledged, refused with a delay or dead-lettered are
    exactly the messages the fetches delivered, each once. *)
Theorem ingest_settles_once (env : IEnv) (cfg : IngestConfig) (rounds : nat) (c : icounters) :
  let h := (Engine_Run env cfg rounds c []).1 in
  settled h ≡ₚ delivered h /\ (fetches h <= rounds)%nat.
Proof.
  destruct (Engine_Run_emits env cfg rounds c []) as (n & Hn & HR).
  destruct (Engine_Run env cfg rounds c []) as [h [c' r]]. cbn in Hn. subst h. destruct HR as [[_ HS _] HF]. done.
Qed.

(** The statistics of an ingestor match its history: fetched messages and
    bytes are those delivered, decoded plus undecodable messages are the fetched
    ones, written events those of successful writes, acknowledged and dead-lettered
    messages the successful acknowledgements, and the error counters the failed
    ones; all modulo [2^64]. *)
Lemma ingest_counters (env : IEnv) (cfg : IngestConfig) (rounds : nat) :
  let h := (Engine_Run env cfg rounds icounters0 []).1 in
  let s := Engine_Stats (Engine_Run env cfg rounds icounters0 []).2.1 in
  u64 (st_MessagesFetched s) = u64 (Z.of_nat (length (delivered h))) /\
  u64 (st_BytesFetched s) = u64 (sumZ (fun m => Z.of_nat (length (msg_Data m))) (delivered h)) /\
  u64 (st_MessagesDecoded s + st_DecodeErrors s) = u64 (Z.of_nat (length (delivered h))) /\
  u64 (st_EventsWritten s) = u64 (tally MEvents h) /\
  u64 (st_MessagesAcked s) = u64 (tally MAcked h) /\
  u64 (st_MessagesDLQ s) = u64 (tally MDLQ h) /\
  u64 (st_WriteErrors s) = u64 (tally MWriteErrors h) /\
  u64 (st_AckErrors s) = u64 (tally MAckErrors h).
Proof.
  destruct (Engine_Run_emits env cfg rounds icounters0 []) as (n & Hn & HR).
  destruct (Engine_Run env cfg rounds icounters0 []) as [h [c' r]]. cbn in Hn. subst h.
  destruct HR as [[_ _ HC] _]. cbn [fst snd Engine_Stats st_MessagesFetched st_BytesFetched st_MessagesDecoded
    st_DecodeErrors st_EventsWritten st_MessagesAcked st_MessagesDLQ st_WriteErrors st_AckErrors].
  assert (Hz : forall g, (forall m, intake_msg g m = 0) -> intake g (delivered n) = 0).
  { intros g Hg. apply sumZ_zero. auto. }
  assert (Hq : forall g, (forall call, tally_call g call = 0) -> tally g n = 0).
  { intros g Hg. apply sumZ_zero. auto. }
  assert (Hl : forall ms, sumZ (fun _ : Msg => 1) ms = Z.of_nat (length ms)).
  { induction ms as [|m ms IH]; [done|]. change (1 + sumZ (fun _ => 1) ms = Z.of_nat (S (length ms))). lia. }
  split_and!.
  - etransitivity; [exact (HC MFetched)|]. rewrite (Hq MFetched) by done. f_equal. change (0 + sumZ (fun _ => 1) (delivered n) + 0 = Z.of_nat (length (delivered n))).
    rewrite Hl. lia.
  - etransitivity; [exact (HC MBytes)|]. rewrite (Hq MBytes) by done. f_equal. apply Z.add_0_r.
  - etransitivity; [exact (HC MOutcome)|]. rewrite (Hq MOutcome) by done. f_equal. change (0 + sumZ (fun _ => 1) (delivered n) + 0 = Z.of_nat (length (delivered n))).
    rewrite Hl. lia.
  - etransitivity; [exact (HC MEvents)|]. by rewrite (Hz MEvents).
  - etransitivity; [exact (HC MAcked)|]. by rewrite (Hz MAcked).
  - etransitivity; [exact (HC MDLQ)|]. by rewrite (Hz MDLQ).
  - etransitivity; [exact (HC MWriteErrors)|]. by rewrite (Hz MWriteErrors).
  - etransitivity; [exact (HC MAckErrors)|]. by rewrite (Hz MAckErrors).
Qed.

(** Writes are bounded.  Every group passed to the store is non-empty and
    holds only decoded batches of messages no larger than [MaxBytes]; a group of
    several batches has at most [MaxEvents] events and [MaxBytes] bytes, as long as
    the limits and each batch's event count stay below [2^62]. *)
Lemma ingest_write_limits (env : IEnv) (cfg : IngestConfig) (rounds : nat) (c : icounters)
    (h1 h2 : list icall) (timeout : Z) (group : list pending) (err : option error) :
  (Engine_Run env cfg rounds c []).1 = h1 ++ ICallWrite timeout group err :: h2 ->
  group <> [] /\ Forall (decoded cfg) group /\
  (ic_MaxEvents cfg < 2 ^ 62 -> ic_MaxBytes cfg < 2 ^ 62 ->
   Forall (fun p => batch_events p < 2 ^ 62) group -> (1 < length group)%nat ->
   sumZ batch_events group <= ic_MaxEvents cfg /\ sumZ pd_bytes group <= ic_MaxBytes cfg).
Proof.
  intros H. destruct (Engine_Run_emits env cfg rounds c []) as (n & Hn & HR). rewrite H in Hn.
  destruct (Engine_Run env cfg rounds c []) as [? [? ?]]. destruct HR as [[HJ _ _] _].
  destruct (HJ h1 _ h2 (eq_sym Hn)) as (Hne & Hd & Hw). split_and!; [done|done|].
  intros H1 H2 H3 Hlen. destruct (Hw (conj H1 (conj H2 H3))) as [Hl|?]; [lia|done].
Qed.

(** The ingestor stops when told to: if the context is done once [rounds]
    fetches were made, [Run] returns within [rounds] fetches. *)
Lemma ingest_stops (env : IEnv) (cfg : IngestConfig) (rounds : nat) (c : icounters) :
  (forall h, (rounds <= fetches h)%nat -> is_Some (ie_ctx env h)) ->
  exists err, (Engine_Run env cfg rounds c []).2.2 = Some err.
Proof.
  intros Hctx. destruct (Engine_Run_stops env cfg rounds c []) as [err Herr]; [|by exists err].
  intros h' Hle. apply Hctx. cbn in Hle. lia.
Qed.

(** ** A concrete run

    One fetch delivers a good message and an empty one, then the context is done. *)

Definition ingest_config : IngestConfig :=
  match New_ingestor (mkIngestConfig 0 0 0 0 0 0 0 0 "") true true true with
  | Ok cfg => cfg
  | _ => mkIngestConfig 0 0 0 0 0 0 0 0 ""
  end.

Definition good_msg : Msg := mkMsg 0 demo_data "trail.events.v1".
Definition bad_msg : Msg := mkMsg 1 [] "trail.events.v1".

Definition ingest_env : IEnv :=
  mkIEnv (fun h => if Nat.leb 1 (fetches h) then Some (errors_New "context canceled") else None)
    (fun _ _ _ => (mkFetched [good_msg; bad_msg] None, None))
    (fun _ _ => inl (mkMsgMetadata "TRAIL" "ingestor" 7 7 1)) (fun _ => 1700000000)
    (fun _ _ => None) (fun _ _ => None) (fun _ _ => None) (fun _ _ _ _ => None) (fun _ _ => None).

Definition ingest_history : list icall := (Engine_Run ingest_env ingest_config 1 icounters0 []).1.

Example ingest_outcome :
  Engine_Stats (Engine_Run ingest_env ingest_config 1 icounters0 []).2.1 =
    mkIngestStatistics 2 1 2 1 0 1 (Z.of_nat (length demo_data)) 1 0 0 /\
  settled ingest_history = [bad_msg; good_msg].
Proof. vm_compute. split; reflexivity. Qed.

Lemma ingest_acks_durable_witness :
  nth 8 ingest_history (ICallCtx None) = ICallDoubleAck (ic_AckTimeout ingest_config) good_msg None /\
  written_before ingest_config (take 8 ingest_history) good_msg.
Proof.
  split; [vm_compute; reflexivity|].
  apply (ingest_acks_durable ingest_env ingest_config 1 icounters0 (take 8 ingest_history)
           (drop 9 ingest_history) (ICallDoubleAck (ic_AckTimeout ingest_config) good_msg None)).
  vm_compute. reflexivity.
Defined.

Definition written_group : list pending :=
  match nth 7 ingest_history (ICallCtx None) with ICallWrite _ group _ => group | _ => [] end.

Lemma ingest_write_limits_witness :
  (pd_message <$> written_group) = [good_msg] /\ Forall (decoded ingest_config) written_group.
Proof.
  split; [vm_compute; reflexivity|].
  apply (ingest_write_limits ingest_env ingest_config 1 icounters0 (take 7 ingest_history)
           (drop 8 ingest_history) (ic_WriteTimeout ingest_config) written_group None).
  vm_compute. reflexivity.
Defined.

Lemma ingest_stops_witness :
  exists err, (Engine_Run ingest_env ingest_config 1 icounters0 []).2.2 = Some err.
Proof.
  apply (ingest_stops ingest_env ingest_config 1 icounters0).
  intros h Hh. cbn [ie_ctx ingest_env]. apply Nat.leb_le in Hh. rewrite Hh. by eexists.
Defined.
