(* ===== verification/FileStore.v ===== *)
(** * The filesystem payload store (src/payload/filesystem/filesystem.go)

    A content-addressed store: [Put] streams a reader through a hash into a
    temporary file, which is renamed to the hexadecimal checksum; [Open] and
    [Delete] resolve a reference to a path below the root.  The file system maps
    clean absolute paths (lists of components) to files and directories; every
    system call first takes the next entry of a list of injected faults, so that
    any call of any run can fail.  SHA-256 and gzip are parameters. *)

From S2P Require Import Prelude Ids Events GoLib Payload.

(** ** Paths *)

Abbreviation path := (list string) (only parsing).

(** One component of [filepath.Clean] on an absolute path. *)
Definition clean_step (dir : path) (c : string) : path :=
  if str_eqb c "" || str_eqb c "." then dir
  else if str_eqb c ".." then removelast dir
  else dir ++ [c].

(** [filepath.Join(root, key)], [root] being clean and absolute. *)
Definition filepath_Join (root : path) (key : string) : path := fold_left clean_step (Split key "/"%char) root.

(** [filepath.Base(s)] *)
Definition filepath_Base (s : string) : string :=
  if str_eqb s "" then "."
  else match last (filter (fun part => part <> EmptyString) (Split s "/"%char)) with
       | Some part => part
       | None => "/"
       end.

(** ** The file system *)

Inductive node := File (content : bytes) | Dir.

Record fsw := mkFsw {
  fs_nodes : gmap (list string) node;
  fs_faults : list (option error)
}.

#[global] Instance eta_fsw : Eta fsw := fun r => mkFsw (fs_nodes r) (fs_faults r).

Definition os_ErrNotExist : error := sentinel "file does not exist".
Definition os_ErrExist : error := sentinel "file already exists".
Definition ENOTDIR : error := sentinel "not a directory".
Definition ENOTEMPTY : error := sentinel "directory not empty".

(** A system call: it fails with the next injected fault, if that is one. *)
Definition syscall : M fsw unit := fun w =>
  match fs_faults w with
  | [] => (w, Ok tt)
  | None :: faults => (w <| fs_faults := faults |>, Ok tt)
  | Some e :: faults => (w <| fs_faults := faults |>, Fail e)
  end.

Definition set_node (p : path) (n : node) : M fsw unit := fun w => (w <| fs_nodes := <[p := n]> (fs_nodes w) |>, Ok tt).
Definition drop_node (p : path) : M fsw unit := fun w => (w <| fs_nodes := delete p (fs_nodes w) |>, Ok tt).
Definition node_at (p : path) : M fsw (option node) := reads (fun w => Ok (fs_nodes w !! p)).

(** [os.MkdirAll]: every missing ancestor becomes a directory. *)
Fixpoint mkdir_all (done todo : path) : M fsw unit :=
  n ← node_at done;
  _ ← match n with
      | Some Dir => mret tt
      | Some (File _) => fail ENOTDIR
      | None => _ ← syscall; set_node done Dir
      end;
  match todo with
  | [] => mret tt
  | c :: todo => mkdir_all (done ++ [c]) todo
  end.

(** [os.CreateTemp(dir, pattern)], the pattern and its random part giving the path
    [temporary]; the file is created exclusively. *)
Definition create_temp (dir temporary : path) : M fsw path :=
  _ ← syscall;
  parent ← node_at dir;
  match parent with
  | None => fail os_ErrNotExist
  | Some (File _) => fail ENOTDIR
  | Some Dir =>
      existing ← node_at temporary;
      match existing with
      | Some _ => fail os_ErrExist
      | None => _ ← set_node temporary (File []); mret temporary
      end
  end.

(** [os.CreateTemp(dir, ".trail-payload-*")] with the random [suffix]. *)
Definition temp_path (dir : path) (suffix : string) : path := dir ++ [".trail-payload-" +:+ suffix].
Definition CreateTemp (dir : path) (suffix : string) : M fsw path := create_temp dir (temp_path dir suffix).

(** Append to an open file. *)
Definition file_write (p : path) (data : bytes) : M fsw unit :=
  _ ← syscall;
  n ← node_at p;
  match n with Some (File old) => set_node p (File (old ++ data)) | _ => mret tt end.

(** [file.Stat().Size()] *)
Definition file_size (p : path) : M fsw Z :=
  _ ← syscall;
  n ← node_at p;
  mret match n with Some (File data) => Z.of_nat (length data) | _ => 0 end.

(** [os.Rename]: replaces a file, refuses to replace a directory. *)
Definition os_Rename (from to : path) : M fsw unit :=
  _ ← syscall;
  source ← node_at from;
  target ← node_at to;
  match source, target with
  | None, _ => fail os_ErrNotExist
  | Some _, Some Dir => fail os_ErrExist
  | Some n, _ => _ ← drop_node from; set_node to n
  end.

(** [os.Remove]: a file, or an empty directory. *)
Definition has_children (p : path) (nodes : gmap (list string) node) : bool :=
  existsb (fun q => bool_decide (take (length p) q = p /\ q <> p)) (map_to_list nodes).*1.
Definition os_Remove (p : path) : M fsw unit :=
  _ ← syscall;
  n ← node_at p;
  match n with
  | None => fail os_ErrNotExist
  | Some (File _) => drop_node p
  | Some Dir => w ← reads Ok; if has_children p (fs_nodes w) then fail ENOTEMPTY else drop_node p
  end.

(** [os.Open] *)
Definition os_Open (p : path) : M fsw node :=
  _ ← syscall;
  n ← node_at p;
  match n with Some n => mret n | None => fail os_ErrNotExist end.

(** A computation whose failure is inspected, not propagated. *)
Definition attempt {W A} (m : M W A) : M W (result A) := fun w => let '(w', r) := m w in (w', Ok r).

(** ** The store *)

Record FileStore := mkFileStore { fst_root : path; fst_name : string }.

(** [New(root)]; [abs] is [filepath.Abs], which may fail. *)
Definition New_FileStore (abs : string -> result (list string)) (root : string) : M fsw FileStore :=
  if str_eqb root "" then fail (errors_New "trail/payload/filesystem: root is required")
  else absolute ← lift (abs root);
       _ ← mkdir_all [] absolute;
       mret (mkFileStore absolute "filesystem").

(** The content of an [io.Reader]: the chunks its reads return, then an error, or
    the end of the data. *)
Record reader := mkReader { rd_chunks : list bytes; rd_error : option error }.

Section Store.
Context (sha256 : bytes -> array 32) (gzip : bytes -> bytes).

(** [io.Copy(temporary, source)] where [source] is the [contextReader] behind the
    tee: the context is checked before every read, each chunk read is written to
    [sink].  [seen] is what the hash and the counter have seen. *)
Fixpoint copy (ctx : nat -> option error) (sink : bytes -> M fsw unit) (i : nat) (chunks : list bytes)
    (final : option error) (seen : bytes) : M fsw bytes :=
  match ctx i with
  | Some e => fail e
  | None =>
      match chunks with
      | [] => match final with Some e => fail e | None => mret seen end
      | chunk :: chunks => _ ← sink chunk; copy ctx sink (S i) chunks final (seen ++ chunk)
      end
  end.

(** The copying part of [Put].  The compressor holds its output back until its
    [Close], which is called even when the copy failed. *)
Definition copy_in (ctx : nat -> option error) (temporary : path) (r : reader) (gz : bool) : M fsw bytes :=
  if gz then
    copied ← attempt (copy ctx (fun _ => mret tt) 0 (rd_chunks r) (rd_error r) []);
    closed ← attempt (file_write temporary (gzip (match copied with Ok data => data | _ => [] end)));
    data ← lift copied;
    _ ← lift closed;
    mret data
  else copy ctx (file_write temporary) 0 (rd_chunks r) (rd_error r) [].

(** [Put] from the creation of the temporary file to the returned reference. *)
Definition put_body (s : FileStore) (ctx : nat -> option error) (temporary : path) (r : reader)
    (options : PutOptions) : M fsw Ref :=
  let gz := str_eqb (po_Compression options) CompressionGZIP in
  data ← copy_in ctx temporary r gz;
  _ ← syscall;                              (* Sync *)
  stored ← file_size temporary;             (* Stat *)
  _ ← syscall;                              (* Close *)
  let checksum := sha256 data in
  let key := hex_Encode checksum +:+ (if gz then ".gz" else "") in
  renamed ← attempt (os_Rename temporary (filepath_Join (fst_root s) key));
  _ ← match renamed with
      | Fail e => if errors_Is e os_ErrExist then mret tt else fail e
      | other => lift other
      end;
  mret (mkRef (fst_name s) key (po_ContentType options) (Z.of_nat (length data)) stored checksum
          (po_Compression options) (po_RetainUntil options) (po_RetentionClass options)).

(** [Put]: the deferred function removes the temporary file unless [keep] was set,
    which is the case exactly when the reference is returned. *)
Definition Put (s : FileStore) (ctx : nat -> option error) (suffix : string) (r : option reader)
    (options : PutOptions) : M fsw Ref :=
  match r with
  | None => fail (errors_New "trail/payload/filesystem: nil reader")
  | Some r =>
      if negb (str_eqb (po_Compression options) CompressionNone) &&
         negb (str_eqb (po_Compression options) CompressionGZIP)
      then fail (errors_New ("trail/payload/filesystem: unsupported compression " +:+
                   String "034"%char (po_Compression options +:+ String "034"%char EmptyString)))
      else
        temporary ← CreateTemp (fst_root s) suffix;
        outcome ← attempt (put_body s ctx temporary r options);
        match outcome with
        | Ok ref => mret ref
        | other => _ ← attempt (os_Remove temporary); lift other
        end
  end.
End Store.

(** [s.path(ref)] *)
Definition store_path (s : FileStore) (ref : Ref) : result path :=
  if negb (str_eqb (ref_Store ref) (fst_name s)) || str_eqb (ref_Key ref) "" ||
     negb (str_eqb (filepath_Base (ref_Key ref)) (ref_Key ref)) ||
     ContainsByte (ref_Key ref) "/"%char || ContainsByte (ref_Key ref) "092"%char
  then Fail ErrInvalidRef
  else Ok (filepath_Join (fst_root s) (ref_Key ref)).

Definition map_not_exist {A} (m : M fsw A) : M fsw A :=
  r ← attempt m;
  match r with
  | Fail e => fail (if errors_Is e os_ErrNotExist then ErrPayloadNotFound else e)
  | other => lift other
  end.

Definition Open (s : FileStore) (ctx : option error) (ref : Ref) : M fsw node :=
  p ← lift (store_path s ref);
  match ctx with
  | Some e => fail e
  | None => map_not_exist (os_Open p)
  end.

Definition Delete (s : FileStore) (ctx : option error) (ref : Ref) : M fsw unit :=
  p ← lift (store_path s ref);
  match ctx with
  | Some e => fail e
  | None => map_not_exist (os_Remove p)
  end.

(** ** Reasoning about the file system *)

Lemma syscall_spec (P : fsw -> Prop) :
  (forall w faults, P w -> P (w <| fs_faults := faults |>)) ->
  mspec P syscall (fun r w => P w /\ match r with Panic _ => False | _ => True end).
Proof. intros HP w Hw. unfold syscall. destruct (fs_faults w) as [|[e|] faults]; simpl; auto. Qed.

Lemma mspec_attempt {W A} (P : W -> Prop) (m : M W A) Q :
  mspec P m (fun r w => Q (Ok r) w) -> mspec P (attempt m) Q.
Proof. intros H w Hw. specialize (H w Hw). unfold attempt. by destruct (m w). Qed.

Section Put_proofs.
Context (sha256 : bytes -> array 32) (gzip : bytes -> bytes) (s : FileStore) (temporary : list string)
  (N : gmap (list string) node).

(** The temporary file holds [x]; everything else is as it was. *)
Definition owns (x : bytes) (w : fsw) : Prop := fs_nodes w = <[temporary := File x]> N.
Definition owned (w : fsw) : Prop := exists x, owns x w.

Lemma syscall_owns x : mspec (owns x) syscall (fun r w => match r with Ok _ => owns x w | Fail _ => owned w | Panic _ => False end).
Proof.
  eapply mspec_post; [by apply syscall_spec|]. intros [] w [H1 H2]; [done|by exists x|done].
Qed.

Lemma file_write_owns x data :
  mspec (owns x) (file_write temporary data)
    (fun r w => match r with Ok _ => owns (x ++ data) w | Fail _ => owned w | Panic _ => False end).
Proof.
  eapply mspec_bind; [apply syscall_owns|]. intros _ w Hw. unfold node_at, reads, mbind, M_bind, set_node.
  cbn. rewrite Hw, lookup_insert_eq. unfold owns. cbn. rewrite Hw. by rewrite insert_insert_eq.
Qed.

Lemma file_size_owns x :
  mspec (owns x) (file_size temporary)
    (fun r w => match r with Ok n => n = Z.of_nat (length x) /\ owns x w | Fail _ => owned w | Panic _ => False end).
Proof.
  eapply mspec_bind; [apply syscall_owns|]. intros _ w Hw. unfold node_at, reads, mbind, M_bind.
  cbn. by rewrite Hw, lookup_insert_eq.
Qed.

(** Copying to the file appends the chunks. *)
Lemma copy_owns ctx i chunks final seen x :
  mspec (owns x) (copy ctx (file_write temporary) i chunks final seen)
    (fun r w => match r with
                | Ok data => data = seen ++ concat chunks /\ owns (x ++ concat chunks) w
                | Fail _ => owned w
                | Panic _ => False
                end).
Proof.
  revert i seen x; induction chunks as [|chunk chunks IH]; intros i seen x; cbn [copy].
  - destruct (ctx i); [apply mspec_fail; by eexists|]. destruct final; [apply mspec_fail; by eexists|].
    apply mspec_ret. intros w Hw. cbn. by rewrite !app_nil_r.
  - destruct (ctx i); [apply mspec_fail; by eexists|].
    eapply mspec_bind; [apply file_write_owns|]. intros []. cbn [concat]. rewrite !app_assoc. apply IH.
Qed.

(** Copying into the compressor leaves the file alone. *)
Lemma copy_pure ctx i chunks final seen w :
  (copy ctx (fun _ => mret tt) i chunks final seen w).1 = w /\
  match (copy ctx (fun _ => mret tt) i chunks final seen w).2 with
  | Ok data => data = seen ++ concat chunks
  | Fail _ => True
  | Panic _ => False
  end.
Proof.
  revert i seen; induction chunks as [|chunk chunks IH]; intros i seen; cbn [copy].
  - destruct (ctx i); [done|]. destruct final; [done|]. cbn. by rewrite app_nil_r.
  - destruct (ctx i); [done|]. cbn [concat]. rewrite app_assoc. apply (IH (S i) (seen ++ chunk)).
Qed.

(** What a stored object contains. *)
Definition stored_form (gz : bool) (data : bytes) : bytes := if gz then gzip data else data.

Lemma copy_in_owns ctx r gz :
  mspec (owns []) (copy_in gzip ctx temporary r gz)
    (fun res w => match res with
                  | Ok data => data = concat (rd_chunks r) /\ owns (stored_form gz data) w
                  | Fail _ => owned w
                  | Panic _ => False
                  end).
Proof.
  unfold copy_in. destruct gz.
  - apply mspec_bind with (R := fun copied w => owns [] w /\
      match copied with Ok data => data = concat (rd_chunks r) | Fail _ => True | Panic _ => False end).
    { apply mspec_attempt. intros w Hw. pose proof (copy_pure ctx 0 (rd_chunks r) (rd_error r) [] w) as [-> H].
      by split. }
    intros copied. apply mspec_bind with (R := fun closed w =>
      match copied with Ok data => data = concat (rd_chunks r) | Fail _ => True | Panic _ => False end /\
      match closed with
      | Ok _ => owns (gzip match copied with Ok data => data | _ => [] end) w
      | Fail _ => owned w
      | Panic _ => False
      end).
    { apply mspec_attempt. intros w [Hw Hc]. split; [done|]. by apply (file_write_owns []). }
    intros closed w [Hc Ho]. destruct copied as [data|e|m]; [| |done].
    + destruct closed as [[]|e|m]; [|done|done]. by split.
    + destruct closed as [[]|e'|m]; [by eexists|done|done].
  - eapply mspec_post; [apply copy_owns|]. intros [data|e|m] w H; [|done|done]. destruct H as [-> H]. done.
Qed.

Context (Hfresh : N !! temporary = None).

Lemma os_Rename_owns x to :
  mspec (owns x) (os_Rename temporary to)
    (fun r w => match r with Ok _ => fs_nodes w = <[to := File x]> N | Fail _ => owns x w | Panic _ => False end).
Proof.
  eapply mspec_bind with (R := fun _ => owns x).
  { eapply mspec_post; [by apply (syscall_spec (owns x))|]. by intros [] w [? ?]. }
  intros _ w Hw. unfold node_at, reads, mbind, M_bind, drop_node, set_node. cbn.
  rewrite Hw, lookup_insert_eq. destruct (_ !! to) as [[content|]|]; cbn; [|done|];
    rewrite Hw, delete_insert_id; done.
Qed.

Lemma os_Remove_owned :
  mspec owned (os_Remove temporary)
    (fun r w => match r with Ok _ => fs_nodes w = N | Fail _ => owned w | Panic _ => False end).
Proof.
  eapply mspec_bind with (R := fun _ => owned).
  { eapply mspec_post; [apply (syscall_spec owned)|by intros [] w [? ?]].
    intros w faults [x Hx]. by exists x. }
  intros _ w [x Hw]. unfold node_at, reads, mbind, M_bind, drop_node. cbn.
  rewrite Hw, lookup_insert_eq. cbn. by rewrite Hw, delete_insert_id.
Qed.

(** The reference [Put] returns for [data]. *)
Definition put_ref (options : PutOptions) (data : bytes) : Ref :=
  let gz := str_eqb (po_Compression options) CompressionGZIP in
  mkRef (fst_name s) (hex_Encode (sha256 data) +:+ (if gz then ".gz" else "")) (po_ContentType options)
    (Z.of_nat (length data)) (Z.of_nat (length (stored_form gz data))) (sha256 data)
    (po_Compression options) (po_RetainUntil options) (po_RetentionClass options).

Lemma put_body_owns ctx r options :
  let gz := str_eqb (po_Compression options) CompressionGZIP in
  let data := concat (rd_chunks r) in
  mspec (owns []) (put_body sha256 gzip s ctx temporary r options)
    (fun res w => match res with
       | Ok ref => ref = put_ref options data /\
           (fs_nodes w = <[filepath_Join (fst_root s) (ref_Key ref) := File (stored_form gz data)]> N \/ owned w)
       | Fail _ => owned w
       | Panic _ => False
       end).
Proof.
  intros gz data. unfold put_body. eapply mspec_bind with (R := fun d w => d = data /\ owns (stored_form gz data) w).
  { eapply mspec_post; [apply copy_in_owns|]. intros [d|e|m] w H; [|done|done]. destruct H as [-> H]. done. }
  intros d. apply mspec_bind with (R := fun _ w => d = data /\ owns (stored_form gz data) w).
  { intros w [-> Hw]. pose proof (syscall_owns (stored_form gz data) w Hw) as H.
    by destruct (syscall w) as [? [?|?|?]]. }
  intros []. apply mspec_bind with (R := fun n w => d = data /\ n = Z.of_nat (length (stored_form gz data)) /\
    owns (stored_form gz data) w).
  { intros w [-> Hw]. pose proof (file_size_owns (stored_form gz data) w Hw) as H.
    by destruct (file_size temporary w) as [? [?|?|?]]. }
  intros n. apply mspec_bind with (R := fun _ w => d = data /\ n = Z.of_nat (length (stored_form gz data)) /\
    owns (stored_form gz data) w).
  { intros w (-> & -> & Hw). pose proof (syscall_owns (stored_form gz data) w Hw) as H.
    by destruct (syscall w) as [? [?|?|?]]. }
  intros [] w (-> & -> & Hw). revert w Hw. cbn zeta.
  set (key := hex_Encode _ +:+ _). set (to := filepath_Join _ key).
  change (mspec (owns (stored_form gz data)) (renamed ← attempt (os_Rename temporary to);
    _ ← match renamed with Fail e => if errors_Is e os_ErrExist then mret tt else fail e | other => lift other end;
    mret (put_ref options data))
    (fun res w => match res with
       | Ok ref => ref = put_ref options data /\
           (fs_nodes w = <[filepath_Join (fst_root s) (ref_Key ref) := File (stored_form gz data)]> N \/ owned w)
       | Fail _ => owned w
       | Panic _ => False
       end)).
  eapply mspec_bind; [apply mspec_attempt; eapply mspec_post; [apply os_Rename_owns|]; intros r0 w H; exact H|].
  intros [[]|e|m] w H; cbn in H; [| |done].
  - split; [done|]. by left.
  - assert (owned w) by by eexists. unfold mbind, M_bind.
    destruct (errors_Is e os_ErrExist); cbn; [|done]. split; [done|]. by right.
Qed.
End Put_proofs.

(** ** Keys and paths *)

Lemma Split_single s : no_byte "/"%char s -> Split s "/"%char = [s].
Proof.
  induction s as [|c s IH]; [done|]. intros [Hc Hs]%no_byte_cons. cbn [Split].
  destruct (Ascii.eqb_spec c "/"%char); [done|]. by rewrite (IH Hs).
Qed.

Lemma Base_single s : no_byte "/"%char s -> s <> EmptyString -> filepath_Base s = s.
Proof.
  intros Hs Hne. unfold filepath_Base. rewrite (Split_single s Hs).
  destruct (str_eqb s "") eqn:E; [by apply bool_decide_eq_true in E|].
  by rewrite filter_cons_True, filter_nil.
Qed.

Lemma Join_single root s : no_byte "/"%char s -> filepath_Join root s = clean_step root s.
Proof. intros Hs. unfold filepath_Join. by rewrite (Split_single s Hs). Qed.
