(* ===== verification/FileStoreProofs.v ===== *)
(** * Guarantees of the filesystem payload store (src/payload/filesystem/filesystem.go)

    Which path a reference can reach, that an object appears under its checksum
    only complete whatever system call fails, and that without failures what was
    put can be opened and deleted. *)

From S2P Require Import Prelude Ids Events GoLib Payload FileStore.

(** ** Runs without failures *)

Section Calm.
Context (sha256 : bytes -> array 32) (gzip : bytes -> bytes) (s : FileStore) (temporary : list string)
  (N : gmap (list string) node).

#[local] Abbreviation calm x := (mkFsw (<[temporary := File x]> N) []).

Lemma file_write_calm x data : file_write temporary data (calm x) = (calm (x ++ data), Ok tt).
Proof.
  unfold file_write, syscall, node_at, reads, set_node, mbind, M_bind. cbn.
  rewrite lookup_insert_eq. cbn. by rewrite insert_insert_eq.
Qed.

Lemma copy_calm ctx i chunks seen x :
  (forall j, ctx j = None) ->
  copy ctx (file_write temporary) i chunks None seen (calm x) = (calm (x ++ concat chunks), Ok (seen ++ concat chunks)).
Proof.
  intros Hctx. revert i seen x; induction chunks as [|chunk chunks IH]; intros i seen x; cbn [copy]; rewrite Hctx.
  - cbn. by rewrite !app_nil_r.
  - unfold mbind, M_bind. rewrite file_write_calm, IH. cbn [concat]. by rewrite !app_assoc.
Qed.

Lemma copy_pure_calm ctx i chunks seen w :
  (forall j, ctx j = None) ->
  copy ctx (fun _ => mret tt) i chunks None seen w = (w, Ok (seen ++ concat chunks)).
Proof.
  intros Hctx. revert i seen; induction chunks as [|chunk chunks IH]; intros i seen; cbn [copy]; rewrite Hctx.
  - cbn. by rewrite app_nil_r.
  - change (copy ctx (fun _ => mret tt) (S i) chunks None (seen ++ chunk) w = (w, Ok (seen ++ chunk ++ concat chunks))).
    by rewrite IH, app_assoc.
Qed.

Lemma copy_in_calm ctx chunks gz :
  (forall j, ctx j = None) ->
  copy_in gzip ctx temporary (mkReader chunks None) gz (calm []) =
    (calm (stored_form gzip gz (concat chunks)), Ok (concat chunks)).
Proof.
  intros Hctx. unfold copy_in. destruct gz; cbn [rd_chunks rd_error].
  - unfold attempt, mbind, M_bind. rewrite (copy_pure_calm ctx 0 chunks [] _ Hctx).
    cbn [app]. rewrite file_write_calm. done.
  - by rewrite copy_calm.
Qed.

Lemma put_body_calm ctx chunks options :
  (forall j, ctx j = None) -> N !! temporary = None ->
  let gz := str_eqb (po_Compression options) CompressionGZIP in
  let ref := put_ref sha256 gzip s options (concat chunks) in
  let to := filepath_Join (fst_root s) (ref_Key ref) in
  to <> temporary -> N !! to <> Some Dir ->
  put_body sha256 gzip s ctx temporary (mkReader chunks None) options (calm []) =
    (mkFsw (<[to := File (stored_form gzip gz (concat chunks))]> N) [], Ok ref).
Proof.
  intros Hctx Hfresh gz ref to Hne Hdir. unfold put_body. fold gz.
  rewrite (M_bind_run _ _ _ _ _ (copy_in_calm ctx chunks gz Hctx)).
  set (x := stored_form gzip gz (concat chunks)).
  rewrite (M_bind_run _ syscall (calm x) (calm x) tt eq_refl).
  assert (file_size temporary (calm x) = (calm x, Ok (Z.of_nat (length x)))) as Hsz.
  { unfold file_size, syscall, node_at, reads, mbind, M_bind. cbn. by rewrite lookup_insert_eq. }
  rewrite (M_bind_run _ _ _ _ _ Hsz). rewrite (M_bind_run _ syscall (calm x) (calm x) tt eq_refl). cbn zeta.
  change (hex_Encode (sha256 (concat chunks)) +:+ _) with (ref_Key ref). fold to.
  assert (attempt (os_Rename temporary to) (calm x) = (mkFsw (<[to := File x]> N) [], Ok (Ok tt))) as Hren.
  { clearbody to. unfold attempt, os_Rename, syscall, node_at, reads, drop_node, set_node, mbind, M_bind. cbn.
    rewrite lookup_insert_eq, lookup_insert_ne by done.
    destruct (N !! to) as [[content|]|]; cbn; [by rewrite delete_insert_id|done|by rewrite delete_insert_id]. }
  rewrite (M_bind_run _ _ _ _ _ Hren). done.
Qed.
End Calm.

Lemma stored_key options sha256 gzip s data :
  let key := ref_Key (put_ref sha256 gzip s options data) in
  no_byte "/"%char key /\ no_byte "092"%char key /\ (64 <= slen key)%nat.
Proof.
  cbn [put_ref ref_Key]. set (tail := if str_eqb (po_Compression options) CompressionGZIP then ".gz" else "").
  assert (no_byte "/"%char tail /\ no_byte "092"%char tail) as [H1 H2] by (unfold tail; by destruct (str_eqb _ _)).
  split_and!; [apply no_byte_app; [by apply no_byte_hex|done]..|].
  rewrite <- length_string_bytes, string_bytes_app, length_app, length_string_bytes, slen_hex_Encode, length_array. lia.
Qed.

Lemma put_ref_join options sha256 gzip s data :
  let ref := put_ref sha256 gzip s options data in
  filepath_Join (fst_root s) (ref_Key ref) = fst_root s ++ [ref_Key ref].
Proof.
  intros ref. destruct (stored_key options sha256 gzip s data) as (H1 & _ & H3). fold ref in H1, H3.
  rewrite Join_single by done. unfold clean_step, str_eqb.
  rewrite !bool_decide_eq_false_2; [done|intros E; rewrite E in H3; cbn in H3; lia..].
Qed.

Lemma put_ref_path options sha256 gzip s data :
  let ref := put_ref sha256 gzip s options data in
  store_path s ref = Ok (fst_root s ++ [ref_Key ref]).
Proof.
  intros ref. destruct (stored_key options sha256 gzip s data) as (H1 & H2 & H3). fold ref in H1, H2, H3.
  assert (ref_Key ref <> EmptyString) by (intros E; rewrite E in H3; cbn in H3; lia).
  unfold store_path. rewrite H1, H2, Base_single by done.
  rewrite (put_ref_join options sha256 gzip s data : filepath_Join (fst_root s) (ref_Key ref) = _). unfold str_eqb.
  by rewrite bool_decide_eq_true_2, bool_decide_eq_false_2, bool_decide_eq_true_2 by done.
Qed.

(** The key starts with a hexadecimal digit, the temporary name with a dot. *)
Lemma put_ref_not_temp options sha256 gzip s data suffix :
  fst_root s ++ [ref_Key (put_ref sha256 gzip s options data)] <> temp_path (fst_root s) suffix.
Proof.
  unfold temp_path. intros [_ [= E]]%app_inj_2; [|done]. cbn [put_ref ref_Key] in E.
  pose proof (no_byte_hex "."%char (sha256 data) eq_refl) as Hd. pose proof (slen_hex_Encode (sha256 data)) as Hl.
  rewrite length_array in Hl. destruct (hex_Encode (sha256 data)) as [|c h]; [done|].
  apply no_byte_cons in Hd as [Hd _]. rewrite string_app_cons in E. by injection E.
Qed.

Lemma create_temp_spec dir temporary w :
  let '(w', r) := create_temp dir temporary w in
  match r with
  | Ok p => p = temporary /\ fs_nodes w !! p = None /\ owns p (fs_nodes w) [] w'
  | Fail _ => fs_nodes w' = fs_nodes w
  | Panic _ => False
  end.
Proof.
  unfold create_temp, node_at, reads, set_node, mbind, M_bind.
  pose proof (syscall_spec (fun w' => fs_nodes w' = fs_nodes w) (fun _ _ H => H) w eq_refl) as [H1 H2].
  destruct (syscall w) as [w1 [[]|e|m]]; cbn in *; [|done|done]. rewrite H1.
  destruct (fs_nodes w !! dir) as [[|]|]; cbn; [done| |done]. rewrite H1.
  destruct (fs_nodes w !! temporary) eqn:E; cbn; [done|]. unfold owns. cbn. by rewrite H1.
Qed.

Lemma create_temp_calm dir temporary N :
  N !! dir = Some Dir -> N !! temporary = None ->
  create_temp dir temporary (mkFsw N []) = (mkFsw (<[temporary := File []]> N) [], Ok temporary).
Proof.
  intros H1 H2. unfold create_temp, node_at, reads, set_node, mbind, M_bind. cbn. rewrite H1. cbn. by rewrite H2.
Qed.

Section At.
Context (s : FileStore) (ref : Ref) (p : list string) (Hp : store_path s ref = Ok p).

Lemma Open_at N n : Open s None ref (mkFsw (<[p := n]> N) []) = (mkFsw (<[p := n]> N) [], Ok n).
Proof.
  unfold Open, map_not_exist, os_Open, attempt, node_at, reads, lift, mbind, M_bind. rewrite Hp. cbn.
  by rewrite lookup_insert_eq.
Qed.

Lemma Open_missing N :
  Open s None ref (mkFsw (delete p N) []) = (mkFsw (delete p N) [], Fail ErrPayloadNotFound).
Proof.
  unfold Open, map_not_exist, os_Open, attempt, node_at, reads, lift, mbind, M_bind. rewrite Hp. cbn.
  by rewrite lookup_delete_eq.
Qed.

Lemma Delete_at N x :
  Delete s None ref (mkFsw (<[p := File x]> N) []) = (mkFsw (delete p N) [], Ok tt).
Proof.
  unfold Delete, map_not_exist, os_Remove, attempt, node_at, reads, lift, drop_node, mbind, M_bind. rewrite Hp. cbn.
  rewrite lookup_insert_eq. cbn. by rewrite delete_insert_eq.
Qed.

Lemma Delete_missing N :
  Delete s None ref (mkFsw (delete p N) []) = (mkFsw (delete p N) [], Fail ErrPayloadNotFound).
Proof.
  unfold Delete, map_not_exist, os_Remove, attempt, node_at, reads, lift, drop_node, mbind, M_bind. rewrite Hp. cbn.
  by rewrite lookup_delete_eq.
Qed.
End At.

(** ** Properties *)

(** A reference reaches only its own object: [path] accepts exactly the
    references of this store whose key is a plain file name, and resolves them to
    that name below the root.  The two exceptions are the keys "." and "..", which
    it accepts as well and which denote the root directory and its parent. *)
Lemma filestore_path (s : FileStore) (ref : Ref) :
  match store_path s ref with
  | Ok p =>
      ref_Store ref = fst_name s /\ no_byte "/"%char (ref_Key ref) /\ no_byte "092"%char (ref_Key ref) /\
      ((ref_Key ref <> EmptyString /\ ref_Key ref <> "." /\ ref_Key ref <> ".." /\
        p = fst_root s ++ [ref_Key ref]) \/
       (ref_Key ref = "." /\ p = fst_root s) \/ (ref_Key ref = ".." /\ p = removelast (fst_root s)))
  | Fail e => e = ErrInvalidRef /\
      (ref_Store ref <> fst_name s \/ ref_Key ref = EmptyString \/
       ContainsByte (ref_Key ref) "/"%char = true \/ ContainsByte (ref_Key ref) "092"%char = true)
  | Panic _ => False
  end.
Proof.
  unfold store_path, str_eqb. case_bool_decide as H1; cbn [negb orb]; [|by split; [|left]].
  case_bool_decide as H2; cbn [orb]; [by split; [|right; left]|].
  destruct (ContainsByte (ref_Key ref) "/"%char) eqn:H3.
  { rewrite orb_true_r. cbn. split; [done|]. tauto. }
  rewrite bool_decide_eq_true_2 by (by apply Base_single). cbn [negb orb].
  destruct (ContainsByte (ref_Key ref) "092"%char) eqn:H4; [split; [done|]; tauto|].
  split_and!; [done|done|done|]. rewrite Join_single by done. unfold clean_step, str_eqb.
  rewrite bool_decide_eq_false_2 by done. cbn [orb]. case_bool_decide as H5; [by right; left|].
  case_bool_decide as H6; [by right; right|]. by left.
Qed.

(** [Put] is atomic: whichever system call fails, wherever the reader or the
    context fails, nothing but the temporary file and the object changes, and the
    object's path only ever receives the complete stored form of the whole input,
    under the checksum of that input.  A failed [Put] leaves at most its temporary
    file behind, and that only when its removal failed too. *)
Lemma Put_atomic (sha256 : bytes -> array 32) (gzip : bytes -> bytes) (s : FileStore)
    (ctx : nat -> option error) (suffix : string) (r : option reader) (options : PutOptions) (w : fsw) :
  let '(w', res) := Put sha256 gzip s ctx suffix r options w in
  let leftover := exists x, fs_nodes w' = <[temp_path (fst_root s) suffix := File x]> (fs_nodes w) in
  match res with
  | Ok ref => exists rd, r = Some rd /\
      let data := concat (rd_chunks rd) in
      ref = put_ref sha256 gzip s options data /\
      (fs_nodes w' = <[filepath_Join (fst_root s) (ref_Key ref) :=
         File (stored_form gzip (str_eqb (po_Compression options) CompressionGZIP) data)]> (fs_nodes w) \/
       leftover)
  | Fail _ => fs_nodes w' = fs_nodes w \/ leftover
  | Panic _ => False
  end.
Proof.
  unfold Put. destruct r as [rd|]; [|by left]. destruct (_ && _); [by left|].
  unfold mbind at 1, M_bind at 1. pose proof (create_temp_spec (fst_root s) (temp_path (fst_root s) suffix) w) as Hc.
  unfold CreateTemp. destruct (create_temp (fst_root s) (temp_path (fst_root s) suffix) w) as [w1 [temporary|e|m]]; [|by left|done].
  destruct Hc as (-> & Hfresh & H1). set (temporary := temp_path (fst_root s) suffix) in *.
  unfold mbind at 1, M_bind at 1, attempt at 1.
  pose proof (put_body_owns sha256 gzip s temporary (fs_nodes w) Hfresh ctx rd options w1 H1) as Hb.
  destruct (put_body sha256 gzip s ctx temporary rd options w1) as [w2 [ref|e|m]]; cbn in Hb; [| |done].
  - cbn. exists rd. split; [done|]. destruct Hb as [-> Hb]. by split.
  - unfold mbind, M_bind, attempt, lift. pose proof (os_Remove_owned temporary (fs_nodes w) Hfresh w2 Hb) as Hr.
    destruct (os_Remove temporary w2) as [w3 [[]|e'|m]]; cbn in Hr |- *; [by left|by right|done].
Qed.


(** ** Faults

    A file system that never reports a file that exists when another is renamed onto
    it; [Put] takes that error for the success of an earlier upload. *)

Definition fault_ok (f : option error) : Prop := forall e, f = Some e -> errors_Is e os_ErrExist = false.
Definition faults_ok (w : fsw) : Prop := Forall fault_ok (fs_faults w).

(** [m] keeps it so. *)
Definition keeps_faults {A} (m : M fsw A) : Prop := forall w, faults_ok w -> faults_ok (m w).1.

Lemma kf_bind {A B} (m : M fsw A) (f : A -> M fsw B) :
  keeps_faults m -> (forall a, keeps_faults (f a)) -> keeps_faults (m ≫= f).
Proof.
  intros Hm Hf w Hw. unfold mbind, M_bind. specialize (Hm w Hw). destruct (m w) as [w1 [a|e|p]]; [by apply Hf|done|done].
Qed.
Lemma kf_ret {A} (a : A) : keeps_faults (mret a).
Proof. by intros w. Qed.
Lemma kf_fail {A} e : keeps_faults (@fail fsw A e).
Proof. by intros w. Qed.
Lemma kf_lift {A} (r : result A) : keeps_faults (lift r).
Proof. by intros w. Qed.
Lemma kf_reads {A} (f : fsw -> result A) : keeps_faults (reads f).
Proof. by intros w. Qed.
Lemma kf_attempt {A} (m : M fsw A) : keeps_faults m -> keeps_faults (attempt m).
Proof. intros Hm w Hw. specialize (Hm w Hw). unfold attempt. by destruct (m w). Qed.
Lemma kf_set p n : keeps_faults (set_node p n).
Proof. by intros w. Qed.
Lemma kf_drop p : keeps_faults (drop_node p).
Proof. by intros w. Qed.
Lemma kf_syscall : keeps_faults syscall.
Proof.
  intros w Hw. unfold syscall. destruct (fs_faults w) as [|[e|] faults] eqn:E; [done|..];
    unfold faults_ok in *; rewrite E in Hw; by apply Forall_cons in Hw as [_ Hw].
Qed.

Create HintDb trail_faults.
#[local] Hint Resolve kf_ret kf_fail kf_lift kf_reads kf_set kf_drop kf_syscall : trail_faults.

(** Follows the structure of a computation on files. *)
Ltac keep_faults :=
  repeat first
    [ solve [auto with trail_faults]
    | apply kf_attempt
    | apply kf_bind; [|intros ?]
    | match goal with |- keeps_faults match ?x with _ => _ end => destruct x end ].

Lemma kf_copy ctx sink i chunks final seen :
  (forall b, keeps_faults (sink b)) -> keeps_faults (copy ctx sink i chunks final seen).
Proof.
  intros Hs. revert i seen. induction chunks as [|chunk chunks IH]; intros i seen; cbn [copy]; keep_faults.
Qed.

Lemma kf_file_write p data : keeps_faults (file_write p data).
Proof. unfold file_write, node_at. keep_faults. Qed.
#[local] Hint Resolve kf_copy kf_file_write : trail_faults.

Lemma kf_copy_in gzip ctx temporary r gz : keeps_faults (copy_in gzip ctx temporary r gz).
Proof. unfold copy_in. keep_faults. Qed.
Lemma kf_file_size p : keeps_faults (file_size p).
Proof. unfold file_size, node_at. keep_faults. Qed.
Lemma kf_Rename from to : keeps_faults (os_Rename from to).
Proof. unfold os_Rename, node_at. keep_faults. Qed.
Lemma kf_Remove p : keeps_faults (os_Remove p).
Proof. unfold os_Remove, node_at. keep_faults. Qed.
Lemma kf_create_temp dir temporary : keeps_faults (create_temp dir temporary).
Proof. unfold create_temp, node_at. keep_faults. Qed.
#[local] Hint Resolve kf_copy_in kf_file_size kf_Rename kf_Remove kf_create_temp : trail_faults.

Lemma kf_Put sha256 gzip s ctx suffix r options : keeps_faults (Put sha256 gzip s ctx suffix r options).
Proof. unfold Put, CreateTemp, put_body. keep_faults. Qed.
Lemma kf_Open s ctx ref : keeps_faults (Open s ctx ref).
Proof. unfold Open, map_not_exist, os_Open, node_at. keep_faults. Qed.
Lemma kf_Delete s ctx ref : keeps_faults (Delete s ctx ref).
Proof. unfold Delete, map_not_exist. keep_faults. Qed.

(** Then an upload that succeeds has put its object in place. *)
Section Inserts.
Context (sha256 : bytes -> array 32) (gzip : bytes -> bytes) (s : FileStore) (temporary : list string)
  (N : gmap (list string) node) (Hfresh : N !! temporary = None).

Lemma Rename_not_exist x to w w' e :
  owns temporary N x w -> faults_ok w -> N !! to <> Some Dir ->
  os_Rename temporary to w = (w', Fail e) -> errors_Is e os_ErrExist = false.
Proof.
  intros Hw Hf Hto. unfold os_Rename, mbind, M_bind. pose proof (syscall_owns temporary N x w Hw) as Hs.
  unfold faults_ok in Hf. destruct (syscall w) as [w1 [[]|e1|p]] eqn:E; [| |done].
  - cbn in Hs. unfold node_at, reads, drop_node, set_node. cbn. rewrite Hs, lookup_insert_eq.
    destruct (decide (to = temporary)) as [->|Hne]; [by rewrite lookup_insert_eq|].
    rewrite lookup_insert_ne by done. destruct (N !! to) as [[|]|]; done.
  - intros [= <- <-]. unfold syscall in E. destruct (fs_faults w) as [|[e|] faults]; [done| |done].
    injection E as _ <-. apply Forall_cons in Hf as [Hf _]. by apply Hf.
Qed.

Lemma put_body_inserts ctx r options w w' ref :
  let data := concat (rd_chunks r) in
  let gz := str_eqb (po_Compression options) CompressionGZIP in
  let to := filepath_Join (fst_root s) (ref_Key (put_ref sha256 gzip s options data)) in
  owns temporary N [] w -> faults_ok w -> N !! to <> Some Dir ->
  put_body sha256 gzip s ctx temporary r options w = (w', Ok ref) ->
  fs_nodes w' = <[to := File (stored_form gzip gz data)]> N.
Proof.
  intros data gz to Hw Hf Hto H. unfold put_body in H. fold gz in H.
  apply M_bind_Ok in H as (w1 & d & Hcopy & H).
  pose proof (copy_in_owns gzip temporary N ctx r gz w Hw) as H1. rewrite Hcopy in H1. destruct H1 as [Hd H1].
  cbn in Hd. subst d. fold data in H1, H.
  pose proof (kf_copy_in gzip ctx temporary r gz w Hf) as F1. rewrite Hcopy in F1. cbn [fst snd] in *.
  apply M_bind_Ok in H as (w2 & [] & Hsync & H).
  pose proof (syscall_owns temporary N _ w1 H1) as H2. rewrite Hsync in H2.
  pose proof (kf_syscall w1 F1) as F2. rewrite Hsync in F2. cbn [fst snd] in *.
  apply M_bind_Ok in H as (w3 & n & Hsize & H).
  pose proof (file_size_owns temporary N _ w2 H2) as H3. rewrite Hsize in H3. destruct H3 as [_ H3].
  pose proof (kf_file_size temporary w2 F2) as F3. rewrite Hsize in F3. cbn [fst snd] in *.
  apply M_bind_Ok in H as (w4 & [] & Hclose & H).
  pose proof (syscall_owns temporary N _ w3 H3) as H4. rewrite Hclose in H4.
  pose proof (kf_syscall w3 F3) as F4. rewrite Hclose in F4. cbn [fst snd] in *.
  apply M_bind_Ok in H as (w5 & renamed & Hren & H). unfold attempt in Hren.
  pose proof (os_Rename_owns temporary N Hfresh _ to w4 H4) as H5.
  pose proof (fun w7 e => Rename_not_exist _ to w4 w7 e H4 F4 Hto) as Hne. unfold to, put_ref in Hren, H5, Hne |- *. cbn [ref_Key] in *.
  destruct (os_Rename temporary _ w4) as [w6 res]. injection Hren as -> ->. cbn [fst snd] in *.
  destruct renamed as [[]|e|p]; [|rewrite (Hne _ _ eq_refl) in H; by apply M_bind_Ok in H as (? & ? & ? & _)|done].
  apply M_bind_Ok in H as (w7 & [] & Hl & H). mret_inv Hl. mret_inv H. exact H5.
Qed.

End Inserts.

Lemma Put_inserts (sha256 : bytes -> array 32) (gzip : bytes -> bytes) (s : FileStore) ctx suffix r options w w' ref :
  faults_ok w -> Put sha256 gzip s ctx suffix (Some r) options w = (w', Ok ref) ->
  let data := concat (rd_chunks r) in
  let gz := str_eqb (po_Compression options) CompressionGZIP in
  fs_nodes w !! (fst_root s ++ [ref_Key (put_ref sha256 gzip s options data)]) <> Some Dir ->
  fs_nodes w' = <[fst_root s ++ [ref_Key (put_ref sha256 gzip s options data)] := File (stored_form gzip gz data)]> (fs_nodes w).
Proof.
  intros Hf H data gz Hto. unfold Put in H. destruct (_ && _); [done|].
  apply M_bind_Ok in H as (w1 & temporary & Htemp & H).
  pose proof (create_temp_spec (fst_root s) (temp_path (fst_root s) suffix) w) as Hc. unfold CreateTemp in Htemp.
  pose proof (kf_create_temp (fst_root s) (temp_path (fst_root s) suffix) w Hf) as Hf1. rewrite Htemp in Hc, Hf1.
  destruct Hc as (-> & Hfresh & Hown). apply M_bind_Ok in H as (w2 & outcome & Hbody & H). unfold attempt in Hbody.
  destruct (put_body sha256 gzip s ctx _ r options w1) as [w3 res] eqn:Eb. injection Hbody as -> ->.
  destruct outcome as [ref'|e|p].
  - mret_inv H. rewrite <- put_ref_join in Hto |- *. by eapply put_body_inserts.
  - by apply M_bind_Ok in H as (? & ? & _ & ?).
  - by apply M_bind_Ok in H as (? & ? & _ & ?).
Qed.

(** Without failures the store keeps what it is given: [Put] returns a
    reference with the checksum and sizes of the data, [Open] of that reference
    yields the stored form, all other paths are as before, [Delete] removes the
    object, and a later [Open] or [Delete] reports [ErrNotFound]. *)
Lemma filestore_roundtrip (sha256 : bytes -> array 32) (gzip : bytes -> bytes) (s : FileStore)
    (suffix : string) (chunks : list bytes) (options : PutOptions) (N : gmap (list string) node) :
  let data := concat chunks in
  let gz := str_eqb (po_Compression options) CompressionGZIP in
  let ref := put_ref sha256 gzip s options data in
  let to := fst_root s ++ [ref_Key ref] in
  po_Compression options = CompressionNone \/ po_Compression options = CompressionGZIP ->
  N !! fst_root s = Some Dir -> N !! temp_path (fst_root s) suffix = None -> N !! to <> Some Dir ->
  let w' := mkFsw (<[to := File (stored_form gzip gz data)]> N) [] in
  let w'' := mkFsw (delete to N) [] in
  Put sha256 gzip s (fun _ => None) suffix (Some (mkReader chunks None)) options (mkFsw N []) = (w', Ok ref) /\
  Open s None ref w' = (w', Ok (File (stored_form gzip gz data))) /\
  Delete s None ref w' = (w'', Ok tt) /\
  Open s None ref w'' = (w'', Fail ErrPayloadNotFound) /\
  Delete s None ref w'' = (w'', Fail ErrPayloadNotFound).
Proof.
  intros data gz ref to Hcomp Hroot Htemp Hdir w' w''.
  assert (Hto : store_path s ref = Ok to) by apply put_ref_path.
  split; [|split_and!; [by apply Open_at|by apply Delete_at|by apply Open_missing|by apply Delete_missing]].
  unfold Put. replace (_ && _) with false
    by (by destruct Hcomp as [-> | ->]).
  rewrite (M_bind_run _ _ _ _ _ (create_temp_calm (fst_root s) (temp_path (fst_root s) suffix) N Hroot Htemp)).
  unfold mbind, M_bind, attempt.
  rewrite (put_body_calm sha256 gzip s (temp_path (fst_root s) suffix) N (fun _ => None) chunks options);
    [|done|done|rewrite put_ref_join; apply put_ref_not_temp|by rewrite put_ref_join].
  by rewrite put_ref_join.
Qed.

(** ** Concrete runs *)

Definition fs_root_only : gmap (list string) node := <[["var"; "payloads"] := Dir]> (<[["var"] := Dir]> ∅).
Definition fs_store : FileStore := mkFileStore ["var"; "payloads"] "filesystem".

Lemma filestore_roundtrip_witness :
  let sum := fun _ : bytes => zero_array 32 in
  let options := mkPutOptions "text/plain" CompressionNone time_zero "" in
  let ref := put_ref sum id fs_store options (string_bytes "hello") in
  exists w, Put sum id fs_store (fun _ => None) "1" (Some (mkReader [string_bytes "hel"; string_bytes "lo"] None))
              options (mkFsw fs_root_only []) = (w, Ok ref) /\
            Open fs_store None ref w = (w, Ok (File (string_bytes "hello"))).
Proof.
  intros sum options ref.
  destruct (filestore_roundtrip sum id fs_store "1" [string_bytes "hel"; string_bytes "lo"] options fs_root_only)
    as (H1 & H2 & _).
  - left. reflexivity.
  - vm_compute. reflexivity.
  - vm_compute. reflexivity.
  - vm_compute. discriminate.
  - eexists. split; [exact H1|exact H2].
Defined.

(** Deleting the key "." of an empty store removes the store's root, after which
    nothing can be put any more. *)
Example delete_dot_removes_root :
  let ref := mkRef "filesystem" "." "" 0 0 (zero_array 32) "" time_zero "" in
  let '(w, r) := Delete fs_store None ref (mkFsw fs_root_only []) in
  r = Ok tt /\ fs_nodes w !! fst_root fs_store = None /\
  (Put (fun _ => zero_array 32) id fs_store (fun _ => None) "1" (Some (mkReader [] None))
     (mkPutOptions "" CompressionNone time_zero "") w).2 = Fail os_ErrNotExist.
Proof. vm_compute. split_and!; reflexivity. Qed.

(** A store creates its root with every missing ancestor. *)
Example New_FileStore_creates_root :
  New_FileStore (fun _ => Ok ["var"; "payloads"]) "payloads" (mkFsw ∅ []) =
    (mkFsw (<[["var"; "payloads"] := Dir]> (<[["var"] := Dir]> (<[[] := Dir]> ∅))) [], Ok fs_store).
Proof. vm_compute. reflexivity. Qed.
