(* ===== verification/Spool.v ===== *)
(** * The payload spooler (src/trailhttp/spool.go)

    A bounded queue of captured bodies and one worker goroutine that stores each
    body in a payload store and logs the event that links it.  [enqueue] never
    blocks, [Close] closes the queue and waits for the worker.  The machine has one
    transition per visible action; the answers of the payload store are choices of
    the environment and the events passed to [trail.Log] are recorded. *)

From S2P Require Import Prelude Ids Events GoLib JsonText Wire Payload Storage.

Definition maxPayloadCaptureBytes : Z := Z.shiftl 16 20.

Record PayloadSpoolConfig := mkPayloadSpoolConfig {
  psc_MaxCaptureBytes : Z;
  psc_QueueCapacity : Z;
  psc_PutTimeout : Z;
  psc_Compression : Compression
}.

Record spoolBody := mkSpoolBody {
  bd_role : string;
  bd_contentType : string;
  bd_data : bytes;
  bd_original : Z;
  bd_truncated : bool
}.

Record spoolJob := mkSpoolJob {
  jb_kind : string;
  jb_options : list Option;
  jb_request : spoolBody;
  jb_response : spoolBody
}.

(** The worker: receiving, at a body of a job, about to log, or returned. *)
Inductive spool_pc :=
| SIdle
| SBody (job : spoolJob) (options : list Option) (bodies : list spoolBody)
| SDone.

Record PayloadSpooler := mkPayloadSpooler {
  sp_cfg : PayloadSpoolConfig;
  sp_closed : bool;                       (** also: the channel is closed *)
  sp_jobs : list spoolJob;                (** the channel's buffer *)
  sp_worker : spool_pc;
  sp_logged : list (spoolJob * list Option);   (** calls of [trail.Log], with their job *)
  sp_accepted : list spoolJob             (** jobs for which [enqueue] returned true *)
}.

#[global] Instance eta_PayloadSpooler : Eta PayloadSpooler :=
  fun r => mkPayloadSpooler (sp_cfg r) (sp_closed r) (sp_jobs r) (sp_worker r) (sp_logged r) (sp_accepted r).

Definition NewPayloadSpooler (has_store : bool) (cfg : PayloadSpoolConfig) : result PayloadSpooler :=
  if negb has_store then Fail (errors_New "trailhttp: payload store is required")
  else if psc_MaxCaptureBytes cfg <=? 0
  then Fail (errors_New "trailhttp: positive payload capture limit is required")
  else
    let cfg := mkPayloadSpoolConfig
      (if maxPayloadCaptureBytes <? psc_MaxCaptureBytes cfg then maxPayloadCaptureBytes else psc_MaxCaptureBytes cfg)
      (if psc_QueueCapacity cfg <=? 0 then 64 else psc_QueueCapacity cfg)
      (if psc_PutTimeout cfg <=? 0 then 15 * 1000000000 else psc_PutTimeout cfg)
      (psc_Compression cfg) in
    Ok (mkPayloadSpooler cfg false [] SIdle [] []).

(** ** The worker *)

(** The options one stored or failed body adds to the event. *)
Definition body_options (body : spoolBody) (put : Ref + error) : list Option :=
  let prefix := payload_prefix (bd_role body) in
  match put with
  | inr err => [String_opt (prefix +:+ "error") (err_text err)]
  | inl ref =>
      Fields ref (bd_role body) ++
      [Int64_opt (prefix +:+ "original_size") (bd_original body);
       Int64_opt (prefix +:+ "captured_size") (i64 (Z.of_nat (length (bd_data body))));
       Bool_opt (prefix +:+ "truncated") (bd_truncated body)]
  end.

(** What the worker asks of the payload store. *)
Definition put_options (cfg : PayloadSpoolConfig) (body : spoolBody) : PutOptions :=
  mkPutOptions (bd_contentType body) (psc_Compression cfg) time_zero "".

(** One action of [run]; [put] is what [Put] answers if it is called. *)
Definition spool_run (s : PayloadSpooler) (put : Ref + error) : option PayloadSpooler :=
  match sp_worker s with
  | SIdle =>
      match sp_jobs s with
      | job :: jobs =>
          Some (s <| sp_jobs := jobs |>
                  <| sp_worker := SBody job (jb_options job) [jb_request job; jb_response job] |>)
      | [] => if sp_closed s then Some (s <| sp_worker := SDone |>) else None
      end
  | SBody job options (body :: bodies) =>
      if Nat.eqb (length (bd_data body)) 0
      then Some (s <| sp_worker := SBody job options bodies |>)
      else Some (s <| sp_worker := SBody job (options ++ body_options body put) bodies |>)
  | SBody job options [] =>
      Some (s <| sp_logged := sp_logged s ++ [(job, options)] |> <| sp_worker := SIdle |>)
  | SDone => None
  end.

(** ** The callers *)

(** [enqueue(job)]: the read lock makes the test and the send one action. *)
Definition enqueue (s : PayloadSpooler) (job : spoolJob) : PayloadSpooler * bool :=
  if sp_closed s then (s, false)
  else if Z.of_nat (length (sp_jobs s)) <? psc_QueueCapacity (sp_cfg s)
  then (s <| sp_jobs := sp_jobs s ++ [job] |> <| sp_accepted := sp_accepted s ++ [job] |>, true)
  else (s, false).

(** [Close] up to [workers.Wait()]; [closeOnce] makes later calls skip it. *)
Definition close_begin (s : PayloadSpooler) : PayloadSpooler := s <| sp_closed := true |>.
(** [workers.Wait()] returns. *)
Definition close_returns (s : PayloadSpooler) : bool :=
  sp_closed s && match sp_worker s with SDone => true | _ => false end.

Inductive spool_action := AEnqueue (job : spoolJob) | ACloseSpool | AWork (put : Ref + error).

Definition spool_step_fn (a : spool_action) (s : PayloadSpooler) : option PayloadSpooler :=
  match a with
  | AEnqueue job => Some (enqueue s job).1
  | ACloseSpool => Some (close_begin s)
  | AWork put => spool_run s put
  end.

Definition spool_step (s s' : PayloadSpooler) : Prop := exists a, spool_step_fn a s = Some s'.
Definition spool_init (s : PayloadSpooler) : Prop := exists cfg, NewPayloadSpooler true cfg = Ok s.
Definition spool_reach : PayloadSpooler -> Prop := reachable spool_step spool_init.

(** ** What is logged for a job *)

(** [options] are the job's own followed by those of the bodies [done], each stored
    with some answer. *)
Inductive built : list Option -> list spoolBody -> list Option -> Prop :=
| built_nil options : built options [] options
| built_skip options bodies body out :
    built options bodies out -> bd_data body = [] -> built options (bodies ++ [body]) out
| built_put options bodies body put out :
    built options bodies out -> bd_data body <> [] -> built options (bodies ++ [body]) (out ++ body_options body put).

Definition job_bodies (job : spoolJob) : list spoolBody := [jb_request job; jb_response job].

Definition in_flight (pc : spool_pc) : list spoolJob := match pc with SBody job _ _ => [job] | _ => [] end.

Record spool_inv (s : PayloadSpooler) : Prop := mkSpoolInv {
  si_jobs : sp_accepted s = (sp_logged s).*1 ++ in_flight (sp_worker s) ++ sp_jobs s;
  si_capacity : Z.of_nat (length (sp_jobs s)) <= psc_QueueCapacity (sp_cfg s);
  si_capture : 0 < psc_MaxCaptureBytes (sp_cfg s) <= maxPayloadCaptureBytes;
  si_logged : Forall (fun '(job, options) => built (jb_options job) (job_bodies job) options) (sp_logged s);
  si_worker : match sp_worker s with
              | SBody job options bodies => exists done, job_bodies job = done ++ bodies /\
                  built (jb_options job) done options
              | SDone => sp_closed s = true /\ sp_jobs s = []
              | SIdle => True
              end
}.

Lemma spool_inv_init s : spool_init s -> spool_inv s.
Proof.
  intros [cfg H]. unfold NewPayloadSpooler in H. cbn [negb] in H.
  destruct (Z.leb_spec (psc_MaxCaptureBytes cfg) 0) as [|Hp]; [done|]. injection H as <-.
  split; cbn -[maxPayloadCaptureBytes]; [done| |  |done|done].
  - destruct (Z.leb_spec (psc_QueueCapacity cfg) 0); lia.
  - destruct (Z.ltb_spec maxPayloadCaptureBytes (psc_MaxCaptureBytes cfg)); [|lia]. done.
Qed.

Lemma enqueue_inv s job : spool_inv s -> spool_inv (enqueue s job).1.
Proof.
  intros HI. unfold enqueue. destruct (sp_closed s) eqn:Hc; [done|].
  destruct (Z.ltb_spec (Z.of_nat (length (sp_jobs s))) (psc_QueueCapacity (sp_cfg s))) as [Hl|]; [|done].
  destruct HI as [H1 H2 H3 H4 H5]. split; cbn; [|rewrite length_app; cbn; lia|done|done|].
  - by rewrite H1, !app_assoc.
  - destruct (sp_worker s); [done|done|]. destruct H5. congruence.
Qed.

Lemma spool_run_inv s put s' : spool_inv s -> spool_run s put = Some s' -> spool_inv s'.
Proof.
  intros [H1 H2 H3 H4 H5]. unfold spool_run. destruct (sp_worker s) as [|job options [|body bodies]|] eqn:Hw.
  - destruct (sp_jobs s) as [|job jobs] eqn:Hj.
    + destruct (sp_closed s) eqn:Hc; [|done]. intros [= <-]. split; cbn; rewrite ?Hj; try done.
    + intros [= <-]. split; cbn; try done.
      * cbn in H2. lia.
      * exists []. split; [done|]. constructor.
  - intros [= <-]. destruct H5 as (done_ & Hb & Ho). rewrite app_nil_r in Hb. subst done_. split; cbn; try done.
    + by rewrite fmap_app, <- app_assoc.
    + apply Forall_app. split; [done|]. by constructor.
  - destruct H5 as (done_ & Hb & Ho). destruct (Nat.eqb_spec (length (bd_data body)) 0) as [He|He]; intros [= <-].
    + split; cbn; try done. exists (done_ ++ [body]). split; [by rewrite <- app_assoc|].
      apply built_skip; [done|by apply nil_length_inv].
    + split; cbn; try done. exists (done_ ++ [body]). split; [by rewrite <- app_assoc|].
      apply built_put; [done|]. intros E. by rewrite E in He.
  - done.
Qed.

Lemma spool_reach_inv s : spool_reach s -> spool_inv s.
Proof.
  apply reachable_invariant; [apply spool_inv_init|]. intros s1 s2 HI [[job| |put] Hs]; cbn in Hs.
  - injection Hs as <-. by apply enqueue_inv.
  - injection Hs as <-. destruct HI as [H1 H2 H3 H4 H5]. split; cbn; try done.
    destruct (sp_worker s1); [done|done|]. by destruct H5.
  - by eapply spool_run_inv.
Qed.

(** ** Progress *)

(** An upper bound of the worker's remaining actions while nothing is enqueued. *)
Definition spool_work (s : PayloadSpooler) : nat :=
  4 * length (sp_jobs s) +
  match sp_worker s with SIdle => 1 | SBody _ _ bodies => length bodies + 2 | SDone => 0 end.

Lemma spool_run_work s put s' : spool_run s put = Some s' -> (spool_work s' < spool_work s)%nat.
Proof.
  unfold spool_run, spool_work. destruct (sp_worker s) as [|job options [|body bodies]|].
  - destruct (sp_jobs s) as [|job jobs] eqn:Hj.
    + destruct (sp_closed s); [|done]. intros [= <-]. cbn. rewrite Hj. cbn. lia.
    + intros [= <-]. cbn. lia.
  - intros [= <-]. cbn. lia.
  - destruct (Nat.eqb _ _); intros [= <-]; cbn; lia.
  - done.
Qed.

Lemma spool_run_enabled s put :
  sp_closed s = true -> close_returns s = true \/ exists s', spool_run s put = Some s'.
Proof.
  intros Hc. unfold close_returns, spool_run. rewrite Hc. destruct (sp_worker s) as [|job options [|body bodies]|].
  - right. destruct (sp_jobs s); by eexists.
  - right. by eexists.
  - right. destruct (Nat.eqb _ _); by eexists.
  - by left.
Qed.

(** ** Properties *)

(** The spooler loses no accepted capture and logs none twice: in every
    reachable state the accepted jobs are, in order, those logged, the one in the
    worker's hands and those queued, within the configured capacity; each logged
    event carries the job's own options followed by those of its stored bodies.
    Once closed, the worker always has a next action and each brings it closer to
    its end, and when [Close] returns every accepted job has been logged and
    [enqueue] refuses all others. *)
Lemma spool_lossless (s : PayloadSpooler) (put : Ref + error) (job : spoolJob) :
  spool_reach s ->
  sp_accepted s = (sp_logged s).*1 ++ in_flight (sp_worker s) ++ sp_jobs s /\
  Z.of_nat (length (sp_jobs s)) <= psc_QueueCapacity (sp_cfg s) /\
  Forall (fun '(job, options) => built (jb_options job) (job_bodies job) options) (sp_logged s) /\
  (sp_closed s = true ->
     enqueue s job = (s, false) /\
     (close_returns s = true \/ exists s', spool_run s put = Some s' /\ (spool_work s' < spool_work s)%nat)) /\
  (close_returns s = true -> (sp_logged s).*1 = sp_accepted s).
Proof.
  intros [H1 H2 _ H4 H5]%spool_reach_inv. split_and!; [done|done|done| |].
  - intros Hc. split; [unfold enqueue; by rewrite Hc|].
    destruct (spool_run_enabled s put Hc) as [?|[s' Hs]]; [by left|right].
    exists s'. split; [done|]. by eapply spool_run_work.
  - unfold close_returns. intros [_ Hd]%andb_true_iff. rewrite H1. destruct (sp_worker s); [done|done|].
    destruct H5 as [_ ->]. cbn. by rewrite app_nil_r.
Qed.

(** The payload link a spooled body becomes. *)
Definition body_link (body : spoolBody) (put : Ref + error) : PayloadLink :=
  match put with
  | inl ref => mkPayloadLink (bd_role body) ref (bd_original body) (Z.of_nat (length (bd_data body)))
                 (bd_truncated body) ""
  | inr err => mkPayloadLink (bd_role body) Ref_zero 0 0 false (err_text err)
  end.

Lemma set_original_size link v f : wf_Num f = u64 v -> in_s 64 v ->
  set_link_part link "original_size" f = link <| pl_OriginalSize := v |>.
Proof. intros Hf Hv. rewrite <- (u64_i64_kinds v Hv), <- Hf. reflexivity. Qed.
Lemma set_captured_size link v f : wf_Num f = u64 v -> in_s 64 v ->
  set_link_part link "captured_size" f = link <| pl_CapturedSize := v |>.
Proof. intros Hf Hv. rewrite <- (u64_i64_kinds v Hv), <- Hf. reflexivity. Qed.

Lemma from_Bool key b : wire_of (Bool_opt key b) = mkWireField key "bool" "" (if b then 1 else 0).
Proof. by destruct b. Qed.

Lemma body_options_fold body put :
  bd_role body <> EmptyString -> ContainsByte (bd_role body) "."%char = false ->
  in_s 64 (bd_original body) -> in_s 64 (Z.of_nat (length (bd_data body))) ->
  match put with inl ref => ref_fits ref | inr _ => True end ->
  fold_left applyPayloadField (wire_of <$> body_options body put) ∅ = {[bd_role body := body_link body put]}.
Proof.
  intros Hne Hdot Ho Hc Hfit. unfold body_options, body_link. destruct put as [ref|err].
  - rewrite fmap_app, fold_left_app, payload_fields_fold by done. rewrite i64_id by done.
    change ({[bd_role body := ?l]} : gmap string PayloadLink) with (<[bd_role body := l]> (∅ : gmap string PayloadLink)).
    rewrite !fmap_cons, fmap_nil. do 2 payload_step. rewrite fold_left_cons.
    rewrite from_Bool, applyPayloadField_next by done. cbn [fold_left].
    rewrite (set_captured_size _ (Z.of_nat (length (bd_data body)))), (set_original_size _ (bd_original body)) by done.
    by destruct (bd_truncated body).
  - rewrite fmap_cons, fmap_nil, fold_left_cons, from_String, applyPayloadField_key by done. done.
Qed.

(** A captured body can be found again: when the payload fields of a stored
    event are those the spooler logged for a body, the record links exactly that
    body's reference with its original and captured sizes and truncation mark, or,
    when the payload store failed, carries the error under the body's role. *)
Lemma spooled_body_linked (body : spoolBody) (put : Ref + error) (event : wire_Event) (metadata : Metadata)
    (batchID : EventID) (delivery : Delivery) :
  bd_role body <> EmptyString -> ContainsByte (bd_role body) "."%char = false ->
  in_s 64 (bd_original body) -> in_s 64 (Z.of_nat (length (bd_data body))) ->
  match put with
  | inl ref => ref_fits ref /\ ref_Key ref <> EmptyString
  | inr err => err_text err <> EmptyString
  end ->
  filter (fun f => is_payload_field f = true) (we_Fields event) = wire_of <$> body_options body put ->
  exists record, normalizeEvent event metadata batchID delivery = Ok record /\
    er_Payloads record = [body_link body put].
Proof.
  intros Hne Hdot Ho Hc Hput Hfs. apply (normalizeEvent_single_link _ _ _ _ (bd_role body)).
  - rewrite Hfs. apply body_options_fold; try done. by destruct put; [destruct Hput|].
  - unfold link_kept, body_link. destruct put as [ref|err]; cbn [pl_Ref pl_Error ref_Store ref_Key Ref_zero].
    + destruct Hput as [_ Hk]. destruct (str_eqb_spec (ref_Key ref) ""); [done|]. by destruct (str_eqb _ _).
    + by destruct (str_eqb_spec (err_text err) "").
Qed.

(** ** A concrete run *)

Definition demo_body (role : string) (data : string) : spoolBody :=
  mkSpoolBody role "text/plain" (string_bytes data) 9 true.
Definition demo_job : spoolJob :=
  mkSpoolJob "http.request" [String_opt "http.method" "GET"] (demo_body "request" "abc") (demo_body "response" "").
Definition demo_spooler : PayloadSpooler :=
  match NewPayloadSpooler true (mkPayloadSpoolConfig 1024 1 0 "") with
  | Ok s => s
  | _ => mkPayloadSpooler (mkPayloadSpoolConfig 0 0 0 "") false [] SIdle [] []
  end.

Fixpoint spool_exec (actions : list spool_action) (s : PayloadSpooler) : option PayloadSpooler :=
  match actions with
  | [] => Some s
  | a :: actions => s' ← spool_step_fn a s; spool_exec actions s'
  end.

Lemma spool_exec_reach actions s s' : spool_reach s -> spool_exec actions s = Some s' -> spool_reach s'.
Proof.
  revert s; induction actions as [|a actions IH]; intros s Hr H; cbn in H; [by simplify_eq|].
  destruct (spool_step_fn a s) as [s1|] eqn:E; [|done]. apply (IH s1); [|done].
  eapply reachable_step; [done|]. by exists a.
Qed.

(** The second job is refused because the queue of one is full. *)
Definition spool_schedule : list spool_action :=
  let put := inl demo_ref in
  [AEnqueue demo_job; AEnqueue demo_job; AWork put; ACloseSpool; AWork put; AWork put; AWork put; AWork put].
Definition closed_spooler : PayloadSpooler := default demo_spooler (spool_exec spool_schedule demo_spooler).

Lemma spool_lossless_witness :
  (close_returns closed_spooler = true /\ length (sp_accepted closed_spooler) = 1%nat) /\
  (sp_logged closed_spooler).*1 = sp_accepted closed_spooler.
Proof.
  split; [split; vm_compute; reflexivity|].
  apply (spool_lossless closed_spooler (inl demo_ref) demo_job).
  - apply (spool_exec_reach spool_schedule demo_spooler); [|vm_compute; reflexivity].
    apply reachable_init. exists (mkPayloadSpoolConfig 1024 1 0 ""). vm_compute. reflexivity.
  - vm_compute. reflexivity.
Defined.

Lemma spooled_body_linked_witness :
  exists record,
    normalizeEvent (fromEvent (demo_event "http.request"
        (String_opt "http.method" "GET" :: body_options (demo_body "request" "abc") (inl demo_ref))))
      (mkMetadata "s" "" "") (zero_array 16) (mkDelivery "" "" 0 0 0 0) = Ok record /\
    er_Payloads record = [mkPayloadLink "request" demo_ref 9 3 true ""].
Proof.
  apply (spooled_body_linked (demo_body "request" "abc") (inl demo_ref)).
  - discriminate.
  - vm_compute. reflexivity.
  - unfold in_s. cbn. lia.
  - unfold in_s. cbn. lia.
  - split; [unfold ref_fits, in_s; simpl; lia|discriminate].
  - vm_compute. reflexivity.
Defined.
