(* ===== verification/TrailHttp.v ===== *)
(** * The HTTP transport (src/trailhttp/trailhttp.go)

    A [RoundTripper] that journals each completed exchange: sizes and bounded
    captures of both bodies, allowed headers and the request path with sensitive
    values redacted, the outcome and the caller's correlation.  The wrapped
    transport, the bodies and the clock are choices of the environment; redactor,
    classifier and path normaliser are functions of the configuration. *)

From S2P Require Import Prelude Ids Events GoLib JsonText Wire Payload Storage Spool.

Definition maxPreviewBytes : Z := Z.shiftl 64 10.

(** ** net/url and net/http *)

(** [url.QueryEscape]: one byte. *)
Definition unreserved (c : byte) : bool :=
  let z := byte_Z c in
  ((97 <=? z) && (z <=? 122)) || ((65 <=? z) && (z <=? 90)) || ((48 <=? z) && (z <=? 57)) ||
  (z =? 45) || (z =? 95) || (z =? 46) || (z =? 126).
Definition upper_hex (d : Z) : byte := nth (Z.to_nat d) (string_bytes "0123456789ABCDEF") zero_byte.
Fixpoint QueryEscape (s : string) : string :=
  match s with
  | EmptyString => EmptyString
  | String c s' =>
      if unreserved c then String c (QueryEscape s')
      else if byte_Z c =? 32 then String "+"%char (QueryEscape s')
      else String "%"%char (String (upper_hex (Z.shiftr (byte_Z c) 4))
             (String (upper_hex (Z.land (byte_Z c) 15)) (QueryEscape s')))
  end.

(** [url.QueryUnescape]; [None] is an invalid escape. *)
Fixpoint QueryUnescape (s : string) : option string :=
  match s with
  | EmptyString => Some EmptyString
  | String c s' =>
      if Ascii.eqb c "%"%char then
        match s' with
        | String a (String b s'') =>
            match fromHexChar a, fromHexChar b with
            | Some x, Some y => rest ← QueryUnescape s''; Some (String (Z_byte (Z.lor (Z.shiftl x 4) y)) rest)
            | _, _ => None
            end
        | _ => None
        end
      else if Ascii.eqb c "+"%char then rest ← QueryUnescape s'; Some (String " "%char rest)
      else rest ← QueryUnescape s'; Some (String c rest)
  end.

Abbreviation Values := (gmap string (list string)).

(** One segment of [url.ParseQuery]; a bad one is left out. *)
Definition parse_segment (m : Values) (segment : string) : Values :=
  if str_eqb segment "" || ContainsByte segment ";"%char then m
  else
    let '(key, value) := default (segment, EmptyString) (cut_byte "="%char segment) in
    match QueryUnescape key, QueryUnescape value with
    | Some key, Some value => <[key := default [] (m !! key) ++ [value]]> m
    | _, _ => m
    end.
(** [value.Query()] *)
Definition Query (raw : string) : Values := fold_left parse_segment (Split raw "&"%char) ∅.

(** [query.Encode()]: keys in order. *)
Definition encode_key (m : Values) (key : string) : list string :=
  (fun v => QueryEscape key +:+ "=" +:+ QueryEscape v) <$> default [] (m !! key).
Definition Encode (m : Values) : string :=
  String.concat "&" (merge_sort string_le (map_to_list m).*1 ≫= encode_key m).

(** [http.CanonicalHeaderKey]: a name with a byte that is not a token byte stays. *)
Definition token_byte (c : byte) : bool :=
  let z := byte_Z c in
  ((97 <=? z) && (z <=? 122)) || ((65 <=? z) && (z <=? 90)) || ((48 <=? z) && (z <=? 57)) ||
  existsb (Ascii.eqb c) (string_bytes "!#$%&'*+-.^_`|~").
Definition upper_ascii (c : byte) : byte :=
  if (97 <=? byte_Z c) && (byte_Z c <=? 122) then Z_byte (byte_Z c - 32) else c.
Fixpoint canonical_from (upper : bool) (s : string) : string :=
  match s with
  | EmptyString => EmptyString
  | String c s' =>
      String (if upper then upper_ascii c else lower_ascii c) (canonical_from (Ascii.eqb c "-"%char) s')
  end.
Definition CanonicalHeaderKey (name : string) : string :=
  if string_forallb token_byte name then canonical_from true name else name.
(** [strings.ToLower] on ASCII. *)
Definition ToLower (s : string) : string := map_string lower_ascii s.

(** [header.Get(name)] for a canonical name. *)
Definition header_Get (h : Values) (name : string) : string := default EmptyString (head (default [] (h !! name))).

(** [later.Sub(earlier)] saturates. *)
Definition time_Sub (later earlier : Z) : Z := Z.max (- 2 ^ 63) (Z.min (2 ^ 63 - 1) (later - earlier)).

Record URL := mkURL { u_Scheme : string; u_Host : string; u_EscapedPath : string; u_RawQuery : string }.

(** ** Data *)

Record Correlation := mkCorrelation {
  co_FlowID : FlowID;
  co_ExecutionID : ExecutionID;
  co_Scope : Scope;
  co_EntityType : string;
  co_EntityID : string
}.
#[global] Instance eta_Correlation : Eta Correlation :=
  fun r => mkCorrelation (co_FlowID r) (co_ExecutionID r) (co_Scope r) (co_EntityType r) (co_EntityID r).
Definition Correlation_zero : Correlation :=
  mkCorrelation (zero_array 16) (zero_array 16) (mkScope "" "") "" "".

(** A request: what the transport reads of it, and the context's correlation. *)
Record Request := mkRequest {
  rq_Method : string;
  rq_URL : option URL;
  rq_Header : Values;
  rq_ContentLength : Z;
  rq_correlation : option Correlation
}.
#[global] Instance eta_Request : Eta Request :=
  fun r => mkRequest (rq_Method r) (rq_URL r) (rq_Header r) (rq_ContentLength r) (rq_correlation r).

Record Response := mkResponse { rp_StatusCode : Z; rp_Header : Values; rp_ContentLength : Z }.

Record http_config := mkHttpConfig {
  hc_kind : string;
  hc_previewBytes : Z;
  hc_includeQuery : bool;
  hc_headerAllow : gset string;
  hc_headerSensitive : gset string;
  hc_querySensitive : gset string;
  hc_redactor : option (string -> bytes -> bytes);
  hc_success : Z -> bool;
  hc_spooler : bool;                        (** [spooler != nil] *)
  hc_payloadBytes : Z;
  hc_fields : list Option;
  hc_pathNormalizer : option (string -> string)
}.
#[global] Instance eta_http_config : Eta http_config :=
  fun r => mkHttpConfig (hc_kind r) (hc_previewBytes r) (hc_includeQuery r) (hc_headerAllow r)
    (hc_headerSensitive r) (hc_querySensitive r) (hc_redactor r) (hc_success r) (hc_spooler r)
    (hc_payloadBytes r) (hc_fields r) (hc_pathNormalizer r).

(** ** Configuration *)

Abbreviation HttpOption := (http_config -> http_config).

Definition EventKind (kind : string) : HttpOption := fun c =>
  if str_eqb kind "" then c else c <| hc_kind := kind |>.
Definition BodyPreview (limit : Z) : HttpOption := fun c =>
  let limit := if limit <? 0 then 0 else limit in
  let limit := if maxPreviewBytes <? limit then maxPreviewBytes else limit in
  c <| hc_previewBytes := limit |>.
Definition IncludeQuery (include : bool) : HttpOption := fun c => c <| hc_includeQuery := include |>.
Definition NormalizePath (normalizer : option (string -> string)) : HttpOption := fun c =>
  c <| hc_pathNormalizer := normalizer |>.
Definition add_names (canon : string -> string) (names : list string) (s : gset string) : gset string :=
  fold_left (fun s name => if str_eqb name "" then s else {[canon name]} ∪ s) names s.
Definition CaptureHeaders (names : list string) : HttpOption := fun c =>
  c <| hc_headerAllow := add_names CanonicalHeaderKey names (hc_headerAllow c) |>.
Definition SensitiveHeaders (names : list string) : HttpOption := fun c =>
  c <| hc_headerSensitive := add_names CanonicalHeaderKey names (hc_headerSensitive c) |>.
Definition SensitiveQueryParameters (names : list string) : HttpOption := fun c =>
  c <| hc_querySensitive := add_names ToLower names (hc_querySensitive c) |>.
Definition RedactPreview (redactor : option (string -> bytes -> bytes)) : HttpOption := fun c =>
  c <| hc_redactor := redactor |>.
Definition ClassifySuccess (classifier : option (Z -> bool)) : HttpOption := fun c =>
  match classifier with Some f => c <| hc_success := f |> | None => c end.
Definition HttpFields (options : list Option) : HttpOption := fun c => c <| hc_fields := hc_fields c ++ options |>.
(** [PayloadSpooling(spooler)] of spool.go; [None] is a nil spooler. *)
Definition PayloadSpooling (spooler : option PayloadSpooler) : HttpOption := fun c =>
  match spooler with
  | Some s => c <| hc_spooler := true |> <| hc_payloadBytes := psc_MaxCaptureBytes (sp_cfg s) |>
  | None => c <| hc_spooler := false |>
  end.

Definition default_http_config : http_config :=
  mkHttpConfig "provider.http" 0 false ∅
    {["Authorization"; "Proxy-Authorization"; "Cookie"; "Set-Cookie"; "X-Api-Key"; "X-Auth-Token"]}
    {["access_token"; "api_key"; "key"; "password"; "secret"; "signature"; "token"]}
    None (fun code => (200 <=? code) && (code <? 400)) false 0 [] None.

(** [Wrap(base, options...)]: the configuration of the transport; a nil option is skipped. *)
Definition Wrap (options : list (option HttpOption)) : http_config :=
  fold_left (fun c o => match o with Some f => f c | None => c end) options default_http_config.

(** ** Correlation *)

Definition correlationFrom (request : option Request) : Correlation :=
  match request with
  | Some r => default Correlation_zero (rq_correlation r)
  | None => Correlation_zero
  end.
Definition WithCorrelation (request : option Request) (c : Correlation) : option Request :=
  match request with Some r => Some (r <| rq_correlation := Some c |>) | None => None end.
Definition WithFlow (request : option Request) (id : FlowID) : option Request :=
  WithCorrelation request ((correlationFrom request) <| co_FlowID := id |>).
Definition WithExecution (request : option Request) (id : ExecutionID) : option Request :=
  WithCorrelation request ((correlationFrom request) <| co_ExecutionID := id |>).
Definition WithScope_http (request : option Request) (scopeType scopeID : string) : option Request :=
  WithCorrelation request ((correlationFrom request) <| co_Scope := mkScope scopeType scopeID |>).
Definition WithEntity (request : option Request) (entityType entityID : string) : option Request :=
  WithCorrelation request
    ((correlationFrom request) <| co_EntityType := entityType |> <| co_EntityID := entityID |>).

(** ** Captures *)

Record capture := mkCapture {
  cp_limit : Z;
  cp_payloadLimit : Z;
  cp_n : Z;
  cp_data : bytes;
  cp_payload : bytes
}.
#[global] Instance eta_capture : Eta capture :=
  fun r => mkCapture (cp_limit r) (cp_payloadLimit r) (cp_n r) (cp_data r) (cp_payload r).

Definition newCapture (limit payloadLimit : Z) : capture := mkCapture limit payloadLimit 0 [] [].

(** Append [data] up to [limit] bytes in all. *)
Definition fill (limit : Z) (have data : bytes) : bytes :=
  if Z.of_nat (length have) <? limit then
    let remaining := limit - Z.of_nat (length have) in
    have ++ (if remaining <? Z.of_nat (length data) then take (Z.to_nat remaining) data else data)
  else have.

Definition capture_add (c : capture) (data : bytes) : capture :=
  mkCapture (cp_limit c) (cp_payloadLimit c) (i64 (cp_n c + Z.of_nat (length data)))
    (fill (cp_limit c) (cp_data c) data) (fill (cp_payloadLimit c) (cp_payload c) data).

(** [capturingBody.Read] after the wrapped body returned [data]. *)
Definition capturing_Read (c : capture) (data : bytes) : capture :=
  if Nat.eqb (length data) 0 then c else capture_add c data.

(** ** Journalling *)

Definition redacted : string := "[REDACTED]".

Definition redact (cfg : http_config) (contentType : string) (preview : bytes) : bytes :=
  match hc_redactor cfg with
  | None => preview
  | Some f =>
      let out := f contentType preview in
      if maxPreviewBytes <? Z.of_nat (length out) then take (Z.to_nat maxPreviewBytes) out else out
  end.

Definition redact_query (cfg : http_config) (query : Values) : Values :=
  map_imap (fun key values =>
    Some (if decide (ToLower key ∈ hc_querySensitive cfg) then [redacted] else values)) query.

Definition requestPath (cfg : http_config) (value : option URL) : string :=
  match value with
  | None => EmptyString
  | Some u =>
      let path := match hc_pathNormalizer cfg with Some f => f (u_EscapedPath u) | None => u_EscapedPath u end in
      if hc_includeQuery cfg && negb (str_eqb (u_RawQuery u) "")
      then path +:+ "?" +:+ Encode (redact_query cfg (Query (u_RawQuery u)))
      else path
  end.

(** [headerFields]; [names] is the order in which the map of allowed names is
    visited. *)
Definition header_field (cfg : http_config) (prefix : string) (header : Values) (name : string) : option Option :=
  values ← header !! name;
  let value := if decide (name ∈ hc_headerSensitive cfg) then redacted else String.concat ", " values in
  Some (String_opt (prefix +:+ ToLower name) value).
Definition headerFields (cfg : http_config) (prefix : string) (header : Values) (names : list string) : list Option :=
  omap (header_field cfg prefix header) names.

Definition spool_body (cfg : http_config) (role contentType : string) (c : capture) : spoolBody :=
  if Nat.eqb (length (cp_payload c)) 0 then mkSpoolBody "" "" [] 0 false
  else
    let data := match hc_redactor cfg with
                | None => cp_payload c
                | Some f =>
                    let out := f contentType (cp_payload c) in
                    if hc_payloadBytes cfg <? Z.of_nat (length out) then take (Z.to_nat (hc_payloadBytes cfg)) out else out
                end in
    mkSpoolBody role contentType data (cp_n c) (Z.of_nat (length (cp_payload c)) <? cp_n c).

Definition captured_size (n content_length : Z) : Z := if n =? 0 then content_length else n.

(** The options about the caller. *)
Definition correlation_options (c : Correlation) : list Option :=
  (if IsZero (co_FlowID c) then [] else [Flow (co_FlowID c)]) ++
  (if IsZero (co_ExecutionID c) then [] else [Execution (co_ExecutionID c)]) ++
  (if Scope_IsZero (co_Scope c) then [] else [WithScope (sc_Type (co_Scope c)) (sc_ID (co_Scope c))]) ++
  (if str_eqb (co_EntityType c) "" && str_eqb (co_EntityID c) "" then []
   else [Entity (co_EntityType c) (co_EntityID c)]).

(** The options about the outcome; [resp] is absent when the transport failed. *)
Definition outcome_options (cfg : http_config) (resp : option Response) (responseCapture : option capture)
    (transportErr : option error) : list Option :=
  match transportErr, resp with
  | Some e, _ => [Bool_opt "http.success" false; Error_opt (Some e); WithLevel LevelError]
  | None, Some r =>
      let success := hc_success cfg (rp_StatusCode r) in
      let n := match responseCapture with Some c => cp_n c | None => 0 end in
      [Int_opt "http.status_code" (rp_StatusCode r); Bool_opt "http.success" success;
       Int64_opt "http.response_size" (captured_size n (rp_ContentLength r))] ++
      (if success then [] else [WithLevel LevelWarn])
  | None, None => []
  end.

Definition preview_options (cfg : http_config) (key : string) (header : Values) (c : capture) : list Option :=
  if Nat.eqb (length (cp_data c)) 0 then []
  else [String_opt key (bytes_string (redact cfg (header_Get header "Content-Type") (cp_data c)))].

(** The options [t.log] assembles; a request without URL is dereferenced. *)
Definition log_options (cfg : http_config) (now started : Z) (request : Request) (resp : option Response)
    (correlation : Correlation) (requestCapture : capture) (responseCapture : option capture)
    (transportErr : option error) (names names' : list string) : result (list Option) :=
  match rq_URL request with
  | None => Panic "nil pointer dereference"
  | Some u => Ok (
      [String_opt "http.method" (rq_Method request); String_opt "http.scheme" (u_Scheme u);
       String_opt "http.host" (u_Host u); String_opt "http.path" (requestPath cfg (Some u));
       Duration_opt "http.duration" (time_Sub now started);
       Int64_opt "http.request_size" (captured_size (cp_n requestCapture) (rq_ContentLength request))] ++
      hc_fields cfg ++ correlation_options correlation ++
      outcome_options cfg resp responseCapture transportErr ++
      headerFields cfg "http.request.header." (rq_Header request) names ++
      match resp with Some r => headerFields cfg "http.response.header." (rp_Header r) names' | None => [] end ++
      preview_options cfg "http.request_preview" (rq_Header request) requestCapture ++
      match resp, responseCapture with
      | Some r, Some c => preview_options cfg "http.response_preview" (rp_Header r) c
      | _, _ => []
      end)
  end.

(** What a transport writes to: its spooler and the journal. *)
Record http_world := mkHttpWorld { hw_spooler : PayloadSpooler; hw_journal : list (string * list Option) }.
#[global] Instance eta_http_world : Eta http_world := fun r => mkHttpWorld (hw_spooler r) (hw_journal r).

(** The end of [t.log]: spool the captures with the event, or log it directly. *)
Definition deliver (cfg : http_config) (request : Request) (resp : option Response) (requestCapture : capture)
    (responseCapture : option capture) (options : list Option) (w : http_world) : http_world :=
  let captured := negb (Nat.eqb (length (cp_payload requestCapture)) 0) ||
    match responseCapture with Some c => negb (Nat.eqb (length (cp_payload c)) 0) | None => false end in
  if hc_spooler cfg && captured then
    let job := mkSpoolJob (hc_kind cfg) options
      (spool_body cfg "request" (header_Get (rq_Header request) "Content-Type") requestCapture)
      match responseCapture, resp with
      | Some c, Some r => spool_body cfg "response" (header_Get (rp_Header r) "Content-Type") c
      | _, _ => mkSpoolBody "" "" [] 0 false
      end in
    let '(spooler, accepted) := enqueue (hw_spooler w) job in
    if accepted : bool then w <| hw_spooler := spooler |>
    else w <| hw_journal := hw_journal w ++
                [(hc_kind cfg, options ++ [String_opt "payload.error" "spool queue full"])] |>
  else w <| hw_journal := hw_journal w ++ [(hc_kind cfg, options)] |>.

(** [t.log(...)] *)
Definition http_log (cfg : http_config) (now started : Z) (request : Request) (resp : option Response)
    (correlation : Correlation) (requestCapture : capture) (responseCapture : option capture)
    (transportErr : option error) (names names' : list string) : M http_world unit := fun w =>
  match log_options cfg now started request resp correlation requestCapture responseCapture transportErr names names' with
  | Ok options => (deliver cfg request resp requestCapture responseCapture options w, Ok tt)
  | Fail e => (w, Fail e)
  | Panic m => (w, Panic m)
  end.

(** ** The exchange *)

(** What the environment supplies to one call of [log]. *)
Record log_choice := mkLogChoice { lc_now : Z; lc_names : list string; lc_names' : list string }.

(** The response body handed to the caller. *)
Record responseBody := mkResponseBody {
  rb_request : Request;
  rb_response : Response;
  rb_correlation : Correlation;
  rb_started : Z;
  rb_requestCapture : capture;
  rb_capture : capture;
  rb_once : bool                            (** [finish] has run *)
}.
#[global] Instance eta_responseBody : Eta responseBody :=
  fun r => mkResponseBody (rb_request r) (rb_response r) (rb_correlation r) (rb_started r)
    (rb_requestCapture r) (rb_capture r) (rb_once r).

(** [b.once.Do(b.finish)] *)
Definition finish_once (cfg : http_config) (c : log_choice) (b : responseBody) : M http_world responseBody :=
  if rb_once b then mret b
  else
    _ ← http_log cfg (lc_now c) (rb_started b) (rb_request b) (Some (rb_response b)) (rb_correlation b)
          (rb_requestCapture b) (Some (rb_capture b)) None (lc_names c) (lc_names' c);
    mret (b <| rb_once := true |>).

(** A use of the response body: a read that returned [data], at the end of the
    body or not, or [Close]. *)
Inductive body_use := BRead (data : bytes) (eof : bool) | BClose.

Definition body_step (cfg : http_config) (b : responseBody) (use : body_use * log_choice) : M http_world responseBody :=
  match use with
  | (BRead data eof, c) =>
      let b := b <| rb_capture := capturing_Read (rb_capture b) data |> in
      if eof : bool then finish_once cfg c b else mret b
  | (BClose, c) => finish_once cfg c b
  end.

(** What the wrapped transport returned. *)
Inductive base_result := BaseError (err : error) | BaseNoBody (resp : Response) | BaseBody (resp : Response).

(** [RoundTrip(request)]: [sent] are the chunks of the request body the wrapped
    transport read.  The body it returns is used by [body_step]. *)
Definition RoundTrip (cfg : http_config) (started : Z) (request : Request) (sent : list bytes) (base : base_result)
    (c : log_choice) : M http_world (option responseBody) :=
  let correlation := correlationFrom (Some request) in
  let requestCapture := fold_left capturing_Read sent (newCapture (hc_previewBytes cfg) (hc_payloadBytes cfg)) in
  match base with
  | BaseError err =>
      _ ← http_log cfg (lc_now c) started request None correlation requestCapture None (Some err) (lc_names c) (lc_names' c);
      mret None
  | BaseNoBody resp =>
      _ ← http_log cfg (lc_now c) started request (Some resp) correlation requestCapture None None (lc_names c) (lc_names' c);
      mret None
  | BaseBody resp =>
      mret (Some (mkResponseBody request resp correlation started requestCapture
        (newCapture (hc_previewBytes cfg) (hc_payloadBytes cfg)) false))
  end.

(** ** Captures are bounded prefixes *)

Lemma fill_take limit have data :
  fill limit (take (Z.to_nat limit) have) data = take (Z.to_nat limit) (have ++ data).
Proof.
  unfold fill. rewrite length_take, take_app.
  destruct (Z.ltb_spec (Z.of_nat (Init.Nat.min (Z.to_nat limit) (length have))) limit) as [Hlt|Hge].
  - replace (Init.Nat.min (Z.to_nat limit) (length have)) with (length have) by lia.
    f_equal. destruct (Z.ltb_spec (limit - Z.of_nat (length have)) (Z.of_nat (length data))).
    + f_equal. lia.
    + rewrite take_ge; [done|lia].
  - replace (Z.to_nat limit - length have)%nat with 0%nat by lia. by rewrite take_0, app_nil_r.
Qed.

Definition prefix_capture (limit payloadLimit : Z) (data : bytes) : capture :=
  mkCapture limit payloadLimit (i64 (Z.of_nat (length data))) (take (Z.to_nat limit) data)
    (take (Z.to_nat payloadLimit) data).

Lemma capturing_Read_prefix limit payloadLimit seen data :
  capturing_Read (prefix_capture limit payloadLimit seen) data = prefix_capture limit payloadLimit (seen ++ data).
Proof.
  unfold capturing_Read. destruct (Nat.eqb_spec (length data) 0) as [->%nil_length_inv|].
  - by rewrite app_nil_r.
  - unfold capture_add, prefix_capture. cbn [cp_limit cp_payloadLimit cp_n cp_data cp_payload].
    rewrite !fill_take, wraps_add_l, length_app, Nat2Z.inj_add. done.
Qed.

Lemma capture_prefix limit payloadLimit chunks :
  fold_left capturing_Read chunks (newCapture limit payloadLimit) = prefix_capture limit payloadLimit (concat chunks).
Proof.
  change (newCapture limit payloadLimit) with (newCapture limit payloadLimit).
  assert (H : newCapture limit payloadLimit = prefix_capture limit payloadLimit []).
  { unfold prefix_capture. by rewrite !take_nil. }
  rewrite H. change (concat chunks) with ([] ++ concat chunks). generalize (@nil byte) as seen.
  clear H. induction chunks as [|chunk chunks IH]; intros seen; cbn [fold_left concat]; [by rewrite app_nil_r|].
  by rewrite capturing_Read_prefix, IH, app_assoc.
Qed.

(** ** One journal entry per exchange *)

(** Entries logged directly or accepted by the spooler, which logs them later. *)
Definition journalled (w : http_world) : nat := length (hw_journal w) + length (sp_accepted (hw_spooler w)).

Lemma deliver_journalled cfg request resp rc rc' options w :
  journalled (deliver cfg request resp rc rc' options w) = S (journalled w).
Proof.
  unfold deliver, journalled. destruct (_ && _); [|cbn; rewrite length_app; cbn; lia].
  unfold enqueue. destruct (sp_closed _); [cbn; rewrite length_app; cbn; lia|].
  destruct (_ <? _); cbn; rewrite length_app; cbn; lia.
Qed.

Lemma http_log_journalled cfg now started request u resp corr rc rc' err names names' w :
  rq_URL request = Some u ->
  exists w', http_log cfg now started request resp corr rc rc' err names names' w = (w', Ok tt) /\
    journalled w' = S (journalled w).
Proof.
  intros Hu. unfold http_log, log_options. rewrite Hu. eexists. split; [reflexivity|]. apply deliver_journalled.
Qed.

Lemma finish_once_journalled cfg c b u w :
  rq_URL (rb_request b) = Some u ->
  exists w', finish_once cfg c b w = (w', Ok (b <| rb_once := true |>)) /\
    journalled w' = (journalled w + if rb_once b then 0 else 1)%nat.
Proof.
  intros Hu. unfold finish_once. destruct (rb_once b) eqn:Ho.
  - exists w. split; [|lia]. destruct b. cbn in *. by subst.
  - destruct (http_log_journalled cfg (lc_now c) (rb_started b) (rb_request b) u (Some (rb_response b))
      (rb_correlation b) (rb_requestCapture b) (Some (rb_capture b)) None (lc_names c) (lc_names' c) w Hu)
      as (w' & Hl & Hj).
    exists w'. rewrite (M_bind_run _ _ _ _ _ Hl). split; [done|lia].
Qed.

(** The uses of a response body, one after the other. *)
Definition body_uses (cfg : http_config) (b : responseBody) (uses : list (body_use * log_choice))
    : M http_world responseBody := foldM (body_step cfg) uses b.

Definition finishing (use : body_use * log_choice) : bool :=
  match use.1 with BRead _ eof => eof | BClose => true end.
Definition chunk_of (use : body_use * log_choice) : bytes := match use.1 with BRead data _ => data | BClose => [] end.

Lemma body_step_spec cfg b use u w :
  rq_URL (rb_request b) = Some u ->
  exists w' b', body_step cfg b use w = (w', Ok b') /\ rb_request b' = rb_request b /\
    rb_capture b' = capturing_Read (rb_capture b) (chunk_of use) /\
    rb_once b' = rb_once b || finishing use /\
    journalled w' = (journalled w + if negb (rb_once b) && finishing use then 1 else 0)%nat.
Proof.
  intros Hu. destruct use as [[data [] |] c]; cbn [chunk_of finishing fst]; unfold body_step.
  - set (b1 := b <| rb_capture := capturing_Read (rb_capture b) data |>).
    destruct (finish_once_journalled cfg c b1 u w Hu)
      as (w' & Hf & Hj). eexists _, _. split; [exact Hf|]. cbn. rewrite orb_true_r, andb_true_r.
    split_and!; [done|done|done|]. cbn in Hj. rewrite Hj. by destruct (rb_once b).
  - eexists _, _. split; [reflexivity|]. cbn. rewrite orb_false_r, andb_false_r. split_and!; [done|done|done|lia].
  - destruct (finish_once_journalled cfg c b u w Hu) as (w' & Hf & Hj).
    eexists _, _. split; [exact Hf|]. cbn. rewrite orb_true_r, andb_true_r.
    split_and!; [done|done|done|]. rewrite Hj. by destruct (rb_once b).
Qed.

Lemma body_uses_spec cfg uses b u w :
  rq_URL (rb_request b) = Some u ->
  exists w' b', body_uses cfg b uses w = (w', Ok b') /\
    rb_capture b' = fold_left capturing_Read (chunk_of <$> uses) (rb_capture b) /\
    journalled w' = (journalled w + if negb (rb_once b) && existsb finishing uses then 1 else 0)%nat.
Proof.
  revert b w; induction uses as [|use uses IH]; intros b w Hu; unfold body_uses; cbn [foldM].
  - exists w, b. cbn. rewrite andb_false_r. split_and!; [done|done|lia].
  - destruct (body_step_spec cfg b use u w Hu) as (w1 & b1 & H1 & Hr & Hc & Ho & Hj).
    rewrite (M_bind_run _ _ _ _ _ H1). destruct (IH b1 w1) as (w' & b' & H2 & Hc' & Hj'); [by rewrite Hr|].
    exists w', b'. split; [exact H2|]. split; [by rewrite Hc', Hc|]. rewrite Hj', Hj, Ho. cbn [existsb].
    destruct (rb_once b), (finishing use); cbn; lia.
Qed.

(** Every exchange is journalled at most once, and exactly once when it
    completes: at once when the transport fails or the response has no body,
    otherwise with the first end-of-body read or [Close], however often the caller
    reads and closes.  An entry is a direct log or an accepted spool job.  The
    captures are the first [previewBytes] and [payloadBytes] bytes of the body. *)
Lemma http_journalled_once (cfg : http_config) (started : Z) (request : Request) (u : URL) (sent : list bytes)
    (base : base_result) (c : log_choice) (uses : list (body_use * log_choice)) (w : http_world) :
  rq_URL request = Some u ->
  exists w1 body, RoundTrip cfg started request sent base c w = (w1, Ok body) /\
  match body with
  | None => journalled w1 = S (journalled w)
  | Some b =>
      w1 = w /\ rb_requestCapture b = prefix_capture (hc_previewBytes cfg) (hc_payloadBytes cfg) (concat sent) /\
      exists w2 b2, body_uses cfg b uses w1 = (w2, Ok b2) /\
        rb_capture b2 = prefix_capture (hc_previewBytes cfg) (hc_payloadBytes cfg) (concat (chunk_of <$> uses)) /\
        journalled w2 = (journalled w + if existsb finishing uses then 1 else 0)%nat
  end.
Proof.
  intros Hu. unfold RoundTrip. rewrite capture_prefix. destruct base as [err|resp|resp].
  - edestruct (http_log_journalled cfg (lc_now c) started request u None) as (w1 & H1 & Hj); [done|].
    exists w1, None. split; [|exact Hj]. rewrite (M_bind_run _ _ _ _ _ H1). done.
  - edestruct (http_log_journalled cfg (lc_now c) started request u (Some resp)) as (w1 & H1 & Hj); [done|].
    exists w1, None. split; [|exact Hj]. rewrite (M_bind_run _ _ _ _ _ H1). done.
  - eexists w, (Some _). split; [reflexivity|]. split; [done|]. split; [done|].
    edestruct (body_uses_spec cfg uses) as (w2 & b2 & H2 & Hc & Hj); [|exists w2, b2; split; [exact H2|]].
    { exact Hu. }
    split; [by rewrite Hc; cbn [rb_capture]; rewrite capture_prefix|]. exact Hj.
Qed.

(** ** Sensitive values *)

(** The maps have the same keys, and the same values at keys that are not secret. *)
Definition same_public (secret : string -> Prop) (m1 m2 : Values) : Prop :=
  forall key, match m1 !! key, m2 !! key with
              | Some v1, Some v2 => secret key \/ v1 = v2
              | None, None => True
              | _, _ => False
              end.

Definition secret_header (cfg : http_config) (name : string) : Prop := name ∈ hc_headerSensitive cfg.
Definition secret_parameter (cfg : http_config) (key : string) : Prop := ToLower key ∈ hc_querySensitive cfg.

Lemma headerFields_public cfg prefix h1 h2 names :
  same_public (secret_header cfg) h1 h2 -> headerFields cfg prefix h1 names = headerFields cfg prefix h2 names.
Proof.
  intros H. unfold headerFields. induction names as [|name names IH]; [done|]. cbn [omap list_omap].
  rewrite IH. specialize (H name). unfold header_field, secret_header in *.
  destruct (h1 !! name) as [v1|], (h2 !! name) as [v2|]; [|done|done|done]. cbn.
  destruct (decide (name ∈ hc_headerSensitive cfg)); [done|]. by destruct H as [?| ->].
Qed.

Lemma redact_query_public cfg q1 q2 :
  same_public (secret_parameter cfg) q1 q2 -> redact_query cfg q1 = redact_query cfg q2.
Proof.
  intros H. apply map_eq. intros key. unfold redact_query. rewrite !map_lookup_imap.
  specialize (H key). unfold secret_parameter in H.
  destruct (q1 !! key) as [v1|], (q2 !! key) as [v2|]; [|done|done|done]. cbn.
  destruct (decide (ToLower key ∈ hc_querySensitive cfg)); [done|]. by destruct H as [?| ->].
Qed.

(** Two requests that differ only in secret headers and query parameters. *)
Record same_request (cfg : http_config) (r1 r2 : Request) : Prop := mkSameRequest {
  sr_method : rq_Method r1 = rq_Method r2;
  sr_length : rq_ContentLength r1 = rq_ContentLength r2;
  sr_headers : same_public (secret_header cfg) (rq_Header r1) (rq_Header r2);
  sr_type : header_Get (rq_Header r1) "Content-Type" = header_Get (rq_Header r2) "Content-Type";
  sr_url : match rq_URL r1, rq_URL r2 with
           | Some u1, Some u2 =>
               u_Scheme u1 = u_Scheme u2 /\ u_Host u1 = u_Host u2 /\ u_EscapedPath u1 = u_EscapedPath u2 /\
               str_eqb (u_RawQuery u1) "" = str_eqb (u_RawQuery u2) "" /\
               same_public (secret_parameter cfg) (Query (u_RawQuery u1)) (Query (u_RawQuery u2))
           | None, None => True
           | _, _ => False
           end
}.

Definition same_response (cfg : http_config) (r1 r2 : option Response) : Prop :=
  match r1, r2 with
  | Some p1, Some p2 =>
      rp_StatusCode p1 = rp_StatusCode p2 /\ rp_ContentLength p1 = rp_ContentLength p2 /\
      same_public (secret_header cfg) (rp_Header p1) (rp_Header p2) /\
      header_Get (rp_Header p1) "Content-Type" = header_Get (rp_Header p2) "Content-Type"
  | None, None => True
  | _, _ => False
  end.

Lemma log_options_public cfg now started r1 r2 p1 p2 corr rc rc' err names names' :
  same_request cfg r1 r2 -> same_response cfg p1 p2 ->
  log_options cfg now started r1 p1 corr rc rc' err names names' =
  log_options cfg now started r2 p2 corr rc rc' err names names'.
Proof.
  intros [Hm Hl Hh Ht Hu] Hp. unfold log_options. rewrite Hm, Hl.
  destruct (rq_URL r1) as [u1|], (rq_URL r2) as [u2|]; [|done|done|done].
  destruct Hu as (Hs & Hho & Hpa & Hq & Hqq). rewrite Hs, Hho.
  assert (requestPath cfg (Some u1) = requestPath cfg (Some u2)) as ->.
  { unfold requestPath. by rewrite Hpa, Hq, (redact_query_public cfg _ _ Hqq). }
  rewrite (headerFields_public cfg _ _ _ names Hh).
  assert (preview_options cfg "http.request_preview" (rq_Header r1) rc =
          preview_options cfg "http.request_preview" (rq_Header r2) rc) as ->.
  { unfold preview_options. by rewrite Ht. }
  destruct p1 as [p1|], p2 as [p2|]; [|done|done|done].
  destruct Hp as (Hc & Hcl & Hph & Hpt). rewrite (headerFields_public cfg _ _ _ names' Hph).
  unfold outcome_options. rewrite Hc, Hcl.
  destruct rc' as [c|]; [|done]. unfold preview_options at 2. by rewrite Hpt.
Qed.

(** C36.  Secrets stay out of the journal: two exchanges that differ only in the
    values of sensitive headers of the request or response, and of sensitive query
    parameters, leave exactly the same journal and the same spooled jobs.  The
    content types must agree, since redactors may depend on them. *)
Theorem http_hides_secrets (cfg : http_config) (now started : Z) (r1 r2 : Request) (p1 p2 : option Response)
    (correlation : Correlation) (requestCapture : capture) (responseCapture : option capture)
    (transportErr : option error) (names names' : list string) (w : http_world) :
  same_request cfg r1 r2 -> same_response cfg p1 p2 ->
  http_log cfg now started r1 p1 correlation requestCapture responseCapture transportErr names names' w =
  http_log cfg now started r2 p2 correlation requestCapture responseCapture transportErr names names' w.
Proof.
  intros Hr Hp. unfold http_log. rewrite (log_options_public _ _ _ _ _ _ _ _ _ _ _ _ _ Hr Hp).
  destruct (log_options _ _ _ r2 _ _ _ _ _ _ _) as [options|e|m]; [|done|done]. apply (f_equal (fun w' => (w', Ok tt))).
  unfold deliver. rewrite (sr_type _ _ _ Hr).
  destruct p1 as [p1|], p2 as [p2|]; [|done|done|done]. destruct Hp as (_ & _ & _ & ->). done.
Qed.

(** ** A concrete exchange *)

Definition demo_http : http_config :=
  Wrap [Some (CaptureHeaders ["authorization"; "x-request-id"]); None; Some (IncludeQuery true); Some (BodyPreview 4)].
Definition demo_request (auth token : string) : Request :=
  mkRequest "GET" (Some (mkURL "https" "api.example.com" "/v1/items" ("page=2&token=" +:+ token)))
    (<["Authorization" := [auth]]> (<["X-Request-Id" := ["r1"]]> ∅)) 0 None.
Definition demo_response : Response := mkResponse 200 ∅ 6.
Definition demo_choice : log_choice := mkLogChoice 50 ["X-Request-Id"; "Authorization"] [].
Definition empty_http_world : http_world := mkHttpWorld demo_spooler [].

Example http_path_redacted :
  requestPath demo_http (rq_URL (demo_request "Bearer x" "s3cr3t")) = "/v1/items?page=2&token=%5BREDACTED%5D".
Proof. vm_compute. reflexivity. Qed.

Lemma http_journalled_once_witness :
  exists w1 body, RoundTrip demo_http 10 (demo_request "Bearer x" "t") [] (BaseBody demo_response) demo_choice
                    empty_http_world = (w1, Ok body) /\
  match body with
  | None => journalled w1 = 1%nat
  | Some b => w1 = empty_http_world /\
      rb_requestCapture b = prefix_capture (hc_previewBytes demo_http) (hc_payloadBytes demo_http) (concat []) /\
      exists w2 b2,
        body_uses demo_http b [(BRead (string_bytes "abc") false, demo_choice);
                               (BRead (string_bytes "def") true, demo_choice); (BClose, demo_choice)] w1 = (w2, Ok b2) /\
        rb_capture b2 = prefix_capture 4 0 (string_bytes "abcdef") /\ journalled w2 = 1%nat
  end.
Proof.
  apply (http_journalled_once demo_http 10 (demo_request "Bearer x" "t")
           (mkURL "https" "api.example.com" "/v1/items" "page=2&token=t") [] (BaseBody demo_response) demo_choice
           [(BRead (string_bytes "abc") false, demo_choice); (BRead (string_bytes "def") true, demo_choice);
            (BClose, demo_choice)] empty_http_world).
  reflexivity.
Defined.

Lemma http_hides_secrets_witness :
  http_log demo_http 50 10 (demo_request "Bearer alice" "one") (Some demo_response) Correlation_zero (newCapture 0 0)
    None None ["Authorization"; "X-Request-Id"] [] empty_http_world =
  http_log demo_http 50 10 (demo_request "Bearer bob" "two") (Some demo_response) Correlation_zero (newCapture 0 0)
    None None ["Authorization"; "X-Request-Id"] [] empty_http_world.
Proof.
  apply (http_hides_secrets demo_http).
  - split; [reflexivity|reflexivity| |reflexivity|split_and!; try reflexivity].
    + intros key. unfold demo_request. cbn [rq_Header].
      destruct (decide (key = "Authorization")) as [->|Hne].
      * left. unfold secret_header. apply (bool_decide_unpack _). vm_compute. exact I.
      * rewrite !(lookup_insert_ne _ "Authorization") by congruence. by destruct (_ !! key); [right|].
    + intros key. change (u_RawQuery _) with ("page=2&token=" +:+ "one") at 1.
      replace (Query ("page=2&token=" +:+ "one")) with
        (<["token" := ["one"]]> (<["page" := ["2"]]> ∅ : Values)) by (vm_compute; reflexivity).
      replace (Query (u_RawQuery _)) with
        (<["token" := ["two"]]> (<["page" := ["2"]]> ∅ : Values)) by (vm_compute; reflexivity).
      destruct (decide (key = "token")) as [->|Hne].
      * rewrite !lookup_insert_eq. left. unfold secret_parameter. apply (bool_decide_unpack _). vm_compute. exact I.
      * rewrite !(lookup_insert_ne _ "token") by congruence. by destruct (_ !! key); [right|].
  - split_and!; try reflexivity. intros key. unfold demo_response. cbn [rp_Header]. by rewrite lookup_empty.
Defined.
