(* ===== verification/Sinks.v ===== *)
(** * The memory and NATS sinks (src/sink/memory/memory.go, src/sink/nats/nats.go)

    The memory sink keeps deep copies of the events it is given.  The NATS sink
    encodes a batch as one wire envelope and publishes it, through JetStream with a
    message identifier or through core NATS followed by a flush.  The connection is
    the environment: its calls are entries of a history. *)

From S2P Require Import Prelude Ids Events GoLib Json JsonText Wire Trace.

(** ** The memory sink *)

Definition memory_ErrClosed : error := sentinel "trail/memory: sink closed".

Record MemorySink := mkMemorySink { mem_events : list Event; mem_metadata : Metadata; mem_closed : bool }.
#[global] Instance eta_MemorySink : Eta MemorySink :=
  fun r => mkMemorySink (mem_events r) (mem_metadata r) (mem_closed r).

Definition New_memory : MemorySink := mkMemorySink [] (mkMetadata "" "" "") false.

(** [cloneEvent]: the copy shares no field storage with the original; as a value it
    is the original. *)
Definition cloneEvent (event : Event) : Event := event <| ev_Fields := [] ++ ev_Fields event |>.

Definition memory_WriteBatch (s : MemorySink) (batch : Batch) : MemorySink * option error :=
  if mem_closed s then (s, Some memory_ErrClosed)
  else (s <| mem_metadata := b_Metadata batch |> <| mem_events := mem_events s ++ (cloneEvent <$> b_Events batch) |>, None).

Definition memory_Events (s : MemorySink) : list Event := cloneEvent <$> mem_events s.
Definition memory_Metadata (s : MemorySink) : Metadata := mem_metadata s.
Definition memory_Close (s : MemorySink) : MemorySink * option error := (s <| mem_closed := true |>, None).

(** ** NATS: configuration *)

Definition defaultSubject : string := "trail.events.v1".
Definition defaultPublishTimeout : Z := 2 * 1000000000.
Definition defaultMaxMessageBytes : Z := 1024 * 1024.

Definition nats_ErrClosed : error := sentinel "trail/nats: sink closed".
Definition nats_ErrInvalidConfig : error := sentinel "trail/nats: invalid config".
Definition ErrMessageTooLarge : error := sentinel "trail/nats: message too large".
Definition ErrConnectionClosed : error := sentinel "trail/nats: connection closed".

Definition Mode := Z.
Definition Core : Mode := 0.
Definition JetStream : Mode := 1.

Record NatsConfig := mkNatsConfig {
  nc_Subject : string;
  nc_Mode : Mode;
  nc_PublishTimeout : Z;
  nc_MaxMessageBytes : Z
}.
#[global] Instance eta_NatsConfig : Eta NatsConfig :=
  fun r => mkNatsConfig (nc_Subject r) (nc_Mode r) (nc_PublishTimeout r) (nc_MaxMessageBytes r).

(** The bytes of [" \t\r\n*>"]. *)
Definition subject_breaks : bytes := string_bytes " *>" ++ ["009"%char; "013"%char; "010"%char].

Definition validPublishSubject (subject : string) : bool :=
  negb (str_eqb subject "" || existsb (ContainsByte subject) subject_breaks) &&
  forallb (fun token => negb (str_eqb token "")) (Split subject "."%char).

Definition nats_normalize (cfg : NatsConfig) : result NatsConfig :=
  if negb (nc_Mode cfg =? Core) && negb (nc_Mode cfg =? JetStream)
  then Fail (errorf_w nats_ErrInvalidConfig ": unknown mode")
  else if (nc_PublishTimeout cfg <? 0) || (nc_MaxMessageBytes cfg <? 0)
  then Fail (errorf_w nats_ErrInvalidConfig ": negative limit")
  else
    let cfg := if str_eqb (nc_Subject cfg) "" then cfg <| nc_Subject := defaultSubject |> else cfg in
    let cfg := if nc_PublishTimeout cfg =? 0 then cfg <| nc_PublishTimeout := defaultPublishTimeout |> else cfg in
    let cfg := if nc_MaxMessageBytes cfg =? 0 then cfg <| nc_MaxMessageBytes := defaultMaxMessageBytes |> else cfg in
    if negb (validPublishSubject (nc_Subject cfg))
    then Fail (errorf_w nats_ErrInvalidConfig ": invalid subject")
    else Ok cfg.

(** ** NATS: the sink *)

Record NatsSink := mkNatsSink {
  ns_cfg : NatsConfig;
  ns_owned : bool;
  ns_closed : bool;
  ns_messages : Z;
  ns_events : Z;
  ns_bytes : Z;
  ns_errors : Z
}.
#[global] Instance eta_NatsSink : Eta NatsSink :=
  fun r => mkNatsSink (ns_cfg r) (ns_owned r) (ns_closed r) (ns_messages r) (ns_events r) (ns_bytes r) (ns_errors r).

(** [Stats]: messages, events, bytes and errors. *)
Definition nats_Stats (s : NatsSink) : Z * Z * Z * Z := (ns_messages s, ns_events s, ns_bytes s, ns_errors s).

Record NatsMsg := mkNatsMsg { nm_Subject : string; nm_Data : bytes; nm_Header : gmap string (list string) }.

Inductive ncall :=
| NConnect (url : string) (err : option error)
| NIsClosed (closed : bool)
| NJetStreamNew (err : option error)
| NPublishJS (timeout : Z) (msg : NatsMsg) (msgID : string) (err : option error)
| NPublish (msg : NatsMsg) (err : option error)
| NFlush (timeout : Z) (err : option error)
| NConnClose.

Record NEnv := mkNEnv {
  ne_connect : list ncall -> string -> option error;
  ne_isClosed : list ncall -> bool;
  ne_jsNew : list ncall -> option error;
  ne_publishJS : list ncall -> NatsMsg -> string -> option error;
  ne_publish : list ncall -> NatsMsg -> option error;
  ne_flush : list ncall -> option error
}.

Section Nats.
Context (env : NEnv).

Definition conn_IsClosed : E ncall bool := ask (ne_isClosed env) NIsClosed.
Definition conn_Close : E ncall unit := ask (fun _ => tt) (fun _ => NConnClose).
Definition conn_Flush (timeout : Z) : E ncall (option error) := ask (ne_flush env) (NFlush timeout).

(** [newSink(conn, cfg, owned)]; [has_conn] says that [conn] is not nil. *)
Definition newSink (has_conn : bool) (cfg : NatsConfig) (owned : bool) : E ncall (result NatsSink) :=
  if negb has_conn then mret (Fail (errorf_w nats_ErrInvalidConfig ": nil connection"))
  else
    closed ← conn_IsClosed;
    if closed : bool then mret (Fail ErrConnectionClosed)
    else match nats_normalize cfg with
    | Ok normalized =>
        let sink := mkNatsSink normalized owned false 0 0 0 0 in
        if nc_Mode normalized =? JetStream then
          err ← ask (ne_jsNew env) NJetStreamNew;
          mret match err with Some e => Fail e | None => Ok sink end
        else mret (Ok sink)
    | Fail e => mret (Fail e)
    | Panic m => mret (Panic m)
    end.

Definition New_nats (has_conn : bool) (cfg : NatsConfig) : E ncall (result NatsSink) := newSink has_conn cfg false.

Definition Connect (url : string) (cfg : NatsConfig) : E ncall (result NatsSink) :=
  match nats_normalize cfg with
  | Ok normalized =>
      err ← ask (fun h => ne_connect env h url) (NConnect url);
      match err with
      | Some e => mret (Fail e)
      | None =>
          sink ← newSink true normalized true;
          match sink with
          | Fail e => _ ← conn_Close; mret (Fail e)
          | other => mret other
          end
      end
  | Fail e => mret (Fail e)
  | Panic m => mret (Panic m)
  end.

Definition envelope_header : gmap string (list string) :=
  <["Trail-Schema-Version" := ["1"]]> (<["Content-Type" := ["application/vnd.vestavision.trail.batch+json"]]> ∅).

Definition count_nats_error (s : NatsSink) : NatsSink := s <| ns_errors := u64 (ns_errors s + 1) |>.

(** The two ways to publish. *)
Definition send (s : NatsSink) (msg : NatsMsg) (batchID : string) : E ncall (option error) :=
  if nc_Mode (ns_cfg s) =? JetStream then
    ask (fun h => ne_publishJS env h msg batchID) (NPublishJS (nc_PublishTimeout (ns_cfg s)) msg batchID)
  else
    err ← ask (fun h => ne_publish env h msg) (NPublish msg);
    match err with
    | None => conn_Flush (nc_PublishTimeout (ns_cfg s))
    | Some e => mret (Some e)
    end.

Definition nats_publish (s : NatsSink) (data : bytes) (batchID : string) (eventCount : nat)
    : E ncall (NatsSink * option error) :=
  if ns_closed s then mret (s, Some nats_ErrClosed)
  else
    closed ← conn_IsClosed;
    if closed : bool then mret (count_nats_error s, Some ErrConnectionClosed)
    else
      let size := Z.of_nat (length data) in
      let s := s <| ns_bytes := u64 (ns_bytes s + u64 size) |> in
      if nc_MaxMessageBytes (ns_cfg s) <? size
      then mret (count_nats_error s, Some (errorf_w ErrMessageTooLarge
             (": " +:+ pretty size +:+ " > " +:+ pretty (nc_MaxMessageBytes (ns_cfg s)))))
      else
        err ← send s (mkNatsMsg (nc_Subject (ns_cfg s)) data envelope_header) batchID;
        match err with
        | Some e => mret (count_nats_error s, Some e)
        | None => mret (s <| ns_messages := u64 (ns_messages s + 1) |>
                          <| ns_events := u64 (ns_events s + u64 (Z.of_nat eventCount)) |>, None)
        end.

(** Stands in branches that are never taken: marshalling does not panic, and a
    batch that was marshalled has a first event ([MarshalBatch_Ok]). *)
Definition unreachable : error := errors_New "unreachable".

(** [WriteBatch] *)
Definition nats_WriteBatch (s : NatsSink) (batch : Batch) : E ncall (NatsSink * option error) :=
  match MarshalBatch batch with
  | Fail e => mret (count_nats_error s, Some e)
  | Panic _ => mret (s, Some unreachable)
  | Ok data =>
      match b_Events batch with
      | [] => mret (s, Some unreachable)
      | first :: _ => nats_publish s data (String_ (ev_ID first)) (length (b_Events batch))
      end
  end.

Definition PublishEnvelope (s : NatsSink) (envelope : Envelope) : E ncall (NatsSink * option error) :=
  match Marshal envelope with
  | Fail e => mret (count_nats_error s, Some e)
  | Panic _ => mret (s, Some unreachable)
  | Ok data => nats_publish s data (en_BatchID envelope) (length (en_Events envelope))
  end.

Definition nats_Close (s : NatsSink) : E ncall (NatsSink * option error) :=
  if ns_closed s then mret (s, None)
  else
    let s := s <| ns_closed := true |> in
    if ns_owned s then _ ← conn_Close; mret (s, None)
    else
      closed ← conn_IsClosed;
      if closed : bool then mret (s, None)
      else err ← conn_Flush (nc_PublishTimeout (ns_cfg s)); mret (s, err).
End Nats.

(** ** Properties *)

(** The attempts to publish, with their identifier under JetStream. *)
Definition transmission (c : ncall) : option (NatsMsg * option string) :=
  match c with
  | NPublishJS _ msg msgID _ => Some (msg, Some msgID)
  | NPublish msg _ => Some (msg, None)
  | _ => None
  end.
Definition transmissions (h : list ncall) : list (NatsMsg * option string) := omap transmission h.

Definition js_id (s : NatsSink) (id : string) : option string :=
  if nc_Mode (ns_cfg s) =? JetStream then Some id else None.

Lemma send_emits env s msg id :
  emits (send env s msg id) (fun _ n => transmissions n = [(msg, js_id s id)]).
Proof.
  unfold send, js_id. destruct (nc_Mode (ns_cfg s) =? JetStream).
  - by apply emits_ask.
  - apply emits_ask_seq. intros [e|]; [by apply emits_ret|]. by apply emits_ask.
Qed.

(** What [publish] owes: exactly one message on success, at most one otherwise. *)
Definition publish_result (s : NatsSink) (data : bytes) (id : string) (count : nat)
    (out : NatsSink * option error) (n : list ncall) : Prop :=
  let msg := mkNatsMsg (nc_Subject (ns_cfg s)) data envelope_header in
  ns_cfg out.1 = ns_cfg s /\ ns_owned out.1 = ns_owned s /\ ns_closed out.1 = ns_closed s /\
  match out.2 with
  | None =>
      ns_closed s = false /\ Z.of_nat (length data) <= nc_MaxMessageBytes (ns_cfg s) /\
      transmissions n = [(msg, js_id s id)] /\
      ns_messages out.1 = u64 (ns_messages s + 1) /\
      ns_events out.1 = u64 (ns_events s + Z.of_nat count) /\ ns_errors out.1 = ns_errors s
  | Some e =>
      (transmissions n = [] \/ transmissions n = [(msg, js_id s id)]) /\
      ns_messages out.1 = ns_messages s /\ ns_events out.1 = ns_events s /\
      (ns_closed s = true -> n = [] /\ e = nats_ErrClosed /\ out.1 = s) /\
      (ns_closed s = false -> ns_errors out.1 = u64 (ns_errors s + 1))
  end.

Lemma nats_publish_emits env s data id count :
  emits (nats_publish env s data id count) (publish_result s data id count).
Proof.
  unfold nats_publish. destruct (ns_closed s) eqn:Hc.
  { apply emits_ret. unfold publish_result. cbn. rewrite Hc. split_and!; try done. by left. }
  apply emits_ask_seq. intros [].
  { apply emits_ret. unfold publish_result. cbn. rewrite Hc. split_and!; try done. by left. }
  cbn zeta. set (s1 := s <| ns_bytes := u64 (ns_bytes s + u64 (Z.of_nat (length data))) |>).
  change (ns_cfg s1) with (ns_cfg s).
  destruct (Z.ltb_spec (nc_MaxMessageBytes (ns_cfg s)) (Z.of_nat (length data))).
  { apply emits_ret. unfold publish_result. cbn. rewrite Hc. split_and!; try done. by left. }
  eapply emits_seq; [apply send_emits|]. intros err n Hn.
  change (transmissions (NIsClosed false :: n) =
    [(mkNatsMsg (nc_Subject (ns_cfg s)) data envelope_header, js_id s id)]) in Hn.
  destruct err as [e|]; apply emits_ret; rewrite app_nil_r; unfold publish_result;
    cbn [fst snd]; rewrite Hn, Hc; cbn -[u64].
  - split_and!; try done. by right.
  - split_and!; try done. by rewrite wrapu_add_r.
Qed.

Lemma MarshalBatch_Ok batch data :
  MarshalBatch batch = Ok data ->
  batch_loggable batch = true /\ exists first rest, b_Events batch = first :: rest /\
    Marshal (batch_envelope batch first) = Ok data /\ data = json_print (enc_Envelope (batch_envelope batch first)).
Proof.
  unfold MarshalBatch. destruct (b_Events batch) as [|first rest] eqn:Hev; [done|]. intros Hm.
  pose proof (Validate_batch batch first rest Hev) as Hv.
  assert (Marshal (batch_envelope batch first) = Ok data) as Hm' by (unfold batch_envelope; by rewrite Hev).
  pose proof Hm' as Hd. unfold Marshal in Hd.
  destruct (Validate (batch_envelope batch first)) as [[]|e|m]; [|done|done].
  split; [done|]. exists first, rest. split; [done|]. split; [done|]. symmetry. exact (Ok_inj _ _ Hd).
Qed.

Lemma MarshalBatch_result batch :
  match MarshalBatch batch with Ok _ => True | Fail _ => batch_loggable batch = false | Panic _ => False end.
Proof.
  unfold MarshalBatch, Marshal. destruct (b_Events batch) as [|first rest] eqn:Hev.
  - unfold batch_loggable. by rewrite Hev.
  - pose proof (Validate_batch batch first rest Hev) as Hv. unfold batch_envelope in Hv. rewrite Hev in Hv.
    destruct (Validate _) as [[]|e|m]; cbn [mbind result_bind]; [done|by destruct Hv|done].
Qed.

(** [WriteBatch] of the NATS sink succeeds only when exactly one message was
    published and confirmed: the batch was valid, the sink open, the message carries
    the wire envelope of the whole batch on the configured subject and within the
    size limit, JetStream gets the first event's identifier for deduplication, and
    the counters advance by one message and the batch's events.  On failure neither
    counter moves, at most that message was attempted, the error is counted unless
    the sink is closed, and a closed sink makes no call at all. *)
Lemma nats_write (env : NEnv) (s : NatsSink) (batch : Batch) (h : list ncall) :
  let '(h', (s', err)) := nats_WriteBatch env s batch h in
  exists new, h' = h ++ new /\ ns_cfg s' = ns_cfg s /\ ns_closed s' = ns_closed s /\
  match err with
  | None =>
      ns_closed s = false /\ batch_loggable batch = true /\
      exists first, head (b_Events batch) = Some first /\
        let data := json_print (enc_Envelope (batch_envelope batch first)) in
        transmissions new = [(mkNatsMsg (nc_Subject (ns_cfg s)) data envelope_header, js_id s (String_ (ev_ID first)))] /\
        Z.of_nat (length data) <= nc_MaxMessageBytes (ns_cfg s) /\
        ns_messages s' = u64 (ns_messages s + 1) /\
        ns_events s' = u64 (ns_events s + Z.of_nat (length (b_Events batch))) /\ ns_errors s' = ns_errors s
  | Some e =>
      (length (transmissions new) <= 1)%nat /\ ns_messages s' = ns_messages s /\ ns_events s' = ns_events s /\
      (ns_closed s = true -> new = []) /\
      (batch_loggable batch = true -> ns_closed s = true -> e = nats_ErrClosed /\ s' = s) /\
      (ns_closed s = false \/ batch_loggable batch = false -> ns_errors s' = u64 (ns_errors s + 1))
  end.
Proof.
  unfold nats_WriteBatch. pose proof (MarshalBatch_result batch) as Hr.
  destruct (MarshalBatch batch) as [data|e|m] eqn:Hm; [| |done].
  2: { exists []. rewrite app_nil_r. split_and!; try done; [simpl; lia|congruence]. }
  apply MarshalBatch_Ok in Hm as (Hl & first & rest & Hev & _ & ->). rewrite Hev.
  destruct (nats_publish_emits env s (json_print (enc_Envelope (batch_envelope batch first)))
    (String_ (ev_ID first)) (length (first :: rest)) h) as (new & Hnew & Hres).
  destruct (nats_publish _ _ _ _ _ h) as [h' [s' err]]. cbn [fst snd] in *. exists new.
  destruct Hres as (H1 & _ & H2 & H3). cbn [fst snd] in *. split_and!; [done|done|done|]. destruct err as [e|].
  - destruct H3 as (Ht & H4 & H5 & H6 & H7). split_and!; try done.
    + destruct Ht as [-> | ->]; cbn; lia.
    + intros Hc. by apply H6.
    + intros _ Hc. by apply H6.
    + intros [?|?]; [by apply H7|congruence].
  - destruct H3 as (H4 & H5 & H6 & H7 & H8 & H9). split_and!; [done|done|]. exists first. by split_and!.
Qed.
