(* ===== verification/Pipeline.v ===== *)
(** * The delivery pipeline, end to end

    The path of an event through the components: built by [Log]
    (src/trail.go), handed to the NATS sink (src/sink/nats/nats.go), encoded
    (src/wire/wire.go), and decoded and normalised by the ingestor
    (src/ingestor/ingestor.go, src/storage/normalize.go). *)

From S2P Require Import Prelude Ids Events GoLib Json JsonText Wire Payload Storage Trace Ingestor Sinks.

(** The strings of the batch are UTF-8 and its integers fit their Go types. *)
Definition batch_fits (batch : Batch) : Prop :=
  Forall event_fits (fromEvent <$> b_Events batch) /\
  forall first, head (b_Events batch) = Some first ->
    json_ok (enc_Envelope (batch_envelope batch first)) = true.

(** What a successful [WriteBatch] of the NATS sink tells. *)
Lemma WriteBatch_Ok env s s' batch h h' :
  nats_WriteBatch env s batch h = (h', (s', None)) ->
  batch_loggable batch = true /\ exists first data, head (b_Events batch) = Some first /\
    Marshal (batch_envelope batch first) = Ok data /\
    transmissions (drop (length h) h') =
      [(mkNatsMsg (nc_Subject (ns_cfg s)) data envelope_header, js_id s (String_ (ev_ID first)))].
Proof.
  unfold nats_WriteBatch. destruct (MarshalBatch batch) as [data|e|m] eqn:Hm; [|done|done].
  apply MarshalBatch_Ok in Hm as (Hl & first & rest & Hev & Hm & ->). rewrite Hev. intros Hp.
  destruct (nats_publish_emits env s (json_print (enc_Envelope (batch_envelope batch first)))
    (String_ (ev_ID first)) (length (first :: rest)) h) as (new & Hnew & Hres).
  rewrite Hp in Hnew, Hres. cbn [fst snd] in *. destruct Hres as (_ & _ & _ & _ & _ & Ht & _).
  split; [done|]. eexists first, _. split; [done|]. split; [exact Hm|]. rewrite Hnew, drop_app_length. exact Ht.
Qed.

(** C9.  What is published is what is stored.  When the NATS sink reports success
    for a batch, an ingestor that receives the published bytes, with any metadata and
    within its size limit, decodes them without error into one record per event, in
    order, carrying the event's identity, time, correlation, fields and the sender's
    metadata, and stamped with the delivery. *)
Theorem published_is_stored (nenv : NEnv) (s s' : NatsSink) (batch : Batch) (hn hn' : list ncall)
    (ienv : IEnv) (cfg : IngestConfig) (c : icounters) (m : Msg) (md : MsgMetadata) (h : list icall)
    (msg : NatsMsg) (id : option string) :
  batch_fits batch ->
  nats_WriteBatch nenv s batch hn = (hn', (s', None)) ->
  transmissions (drop (length hn) hn') = [(msg, id)] ->
  msg_Data m = nm_Data msg -> Z.of_nat (length (msg_Data m)) <= ic_MaxBytes cfg ->
  ie_metadata ienv h m = inl md ->
  exists c' item first, (decode ienv cfg c m h).2 = (c', Some item) /\
    head (b_Events batch) = Some first /\ pd_message item = m /\
    Forall2 (stored_as (b_Metadata batch) (ev_ID first)
               (mkDelivery (mm_Stream md) (mm_Consumer md) (mm_StreamSequence md) (mm_ConsumerSequence md)
                  (mm_NumDelivered md) (ie_now ienv (h ++ [ICallMetadata m (inl md)]))))
      (b_Events batch) (sb_Events (pd_batch item)).
Proof.
  intros [Hfits Hutf8] Hwrite Hmsg Hdata Hlen Hmd.
  destruct (WriteBatch_Ok nenv s s' batch hn hn' Hwrite) as (Hl & first & data & Hhead & Hm & Hsent).
  rewrite Hmsg in Hsent. injection Hsent as -> ->. cbn [nm_Data] in Hdata.
  assert (Hun : Unmarshal (msg_Data m) = Ok (batch_envelope batch first)).
  { rewrite Hdata. apply Unmarshal_Marshal; [exact Hm|exact Hfits|by apply Hutf8]. }
  unfold decode, msg_Metadata, mbind at 1, E_bind at 1, ask at 1. cbn zeta beta iota. rewrite Hmd.
  rewrite (proj2 (Z.ltb_ge _ _)) by lia. unfold decode_data. rewrite Hun.
  unfold time_Now, mbind, E_bind, ask. cbn zeta beta iota.
  match goal with |- context [Normalize _ ?d] => set (delivery := d) end.
  destruct (Normalize_batch batch first delivery Hl Hhead) as (sb & -> & _ & _ & _ & Hstored).
  cbn. eexists _, _, first. split_and!; [reflexivity|done|done|exact Hstored].
Qed.

(** ** A concrete delivery *)

Definition quiet_nats : NEnv :=
  mkNEnv (fun _ _ => None) (fun _ => false) (fun _ => None) (fun _ _ _ => None) (fun _ _ => None) (fun _ => None).
Definition demo_sink : NatsSink := mkNatsSink (mkNatsConfig "trail.events.v1" JetStream 1 1048576) false false 0 0 0 0.

Definition demo_delivery : list ncall * (NatsSink * option error) := nats_WriteBatch quiet_nats demo_sink demo_batch [].
Definition demo_msg : NatsMsg * option string :=
  default (mkNatsMsg "" [] ∅, None) (head (transmissions demo_delivery.1)).

Definition demo_ingest : IEnv :=
  mkIEnv (fun _ => None) (fun _ _ _ => (mkFetched [] None, None)) (fun _ _ => inl (mkMsgMetadata "TRAIL" "c" 1 1 1))
    (fun _ => 5) (fun _ _ => None) (fun _ _ => None) (fun _ _ => None) (fun _ _ _ _ => None) (fun _ _ => None).
Definition demo_limits : IngestConfig := mkIngestConfig 64 4096 1048576 1 1 1 5 1 "dlq".

Lemma published_is_stored_witness :
  exists c' item first,
    (decode demo_ingest demo_limits icounters0 (mkMsg 0 (nm_Data demo_msg.1) "s") []).2 = (c', Some item) /\
    head (b_Events demo_batch) = Some first /\ pd_message item = mkMsg 0 (nm_Data demo_msg.1) "s" /\
    Forall2 (stored_as (b_Metadata demo_batch) (ev_ID first) (mkDelivery "TRAIL" "c" 1 1 1 5))
      (b_Events demo_batch) (sb_Events (pd_batch item)).
Proof.
  apply (published_is_stored quiet_nats demo_sink demo_delivery.2.1 demo_batch [] demo_delivery.1 demo_ingest
           demo_limits icounters0 (mkMsg 0 (nm_Data demo_msg.1) "s") (mkMsgMetadata "TRAIL" "c" 1 1 1) []
           demo_msg.1 demo_msg.2).
  - split.
    + repeat constructor; vm_compute; intuition discriminate.
    + intros first Hf. vm_compute in Hf. injection Hf as <-. vm_compute. reflexivity.
  - vm_compute. reflexivity.
  - vm_compute. reflexivity.
  - reflexivity.
  - vm_compute. discriminate.
  - reflexivity.
Defined.
