(* ===== verification/Query.v ===== *)
(** * The Explorer's read model (src/storage/storage.go)

    What the Explorer asks a store for and what it gets back: cursors, pages,
    filters, summaries and details.  Times are nanoseconds since the epoch, a
    pointer that may be nil is an [option], an embedded struct is a field. *)

From S2P Require Import Prelude Ids Events GoLib Wire Storage.

Record Cursor := mkCursor { c_Timestamp : Z; c_ID : string }.
Definition Cursor_zero : Cursor := mkCursor time_zero "".

#[global] Instance Cursor_eq_dec : EqDecision Cursor.
Proof. solve_decision. Defined.

Record PageRequest := mkPageRequest { p_Limit : Z; p_Cursor : Cursor; p_Desc : bool }.
Definition PageRequest_zero : PageRequest := mkPageRequest 0 Cursor_zero false.

Record Page (T : Type) := mkPage { pg_Items : list T; pg_NextCursor : Cursor; pg_HasMore : bool }.
Arguments mkPage {T} _ _ _.
Arguments pg_Items {T} _.
Arguments pg_NextCursor {T} _.
Arguments pg_HasMore {T} _.
Definition Page_zero {T} : Page T := mkPage [] Cursor_zero false.

Record TimeRange := mkTimeRange { tr_From : Z; tr_To : Z }.

(** ** Filters *)

Record FlowFilter := mkFlowFilter {
  ff_Time : TimeRange;
  ff_Service : string;
  ff_Environment : string;
  ff_Status : string;
  ff_EntityType : string;
  ff_EntityID : string;
  ff_ExecutionID : ExecutionID;
  ff_Scope : Scope
}.

Record ExecutionFilter := mkExecutionFilter {
  xf_Time : TimeRange;
  xf_Service : string;
  xf_Environment : string;
  xf_Status : string;
  xf_Source : ExecutionSource;
  xf_Kind : string;
  xf_Scope : Scope
}.

Record EntityFilter := mkEntityFilter {
  nf_Time : TimeRange;
  nf_Service : string;
  nf_Environment : string;
  nf_EntityType : string;
  nf_IDPrefix : string;
  nf_Scope : Scope
}.

Record EventFilter := mkEventFilter {
  ef_Time : TimeRange;
  ef_Service : string;
  ef_Environment : string;
  ef_Kind : string;
  ef_Level : option Level;
  ef_HTTPStatusClass : Z;
  ef_HTTPMethod : string;
  ef_HTTPStatus : Z;
  ef_Provider : string;
  ef_HasError : option bool;
  ef_FlowID : FlowID;
  ef_ExecutionID : ExecutionID;
  ef_EntityType : string;
  ef_EntityID : string;
  ef_Scope : Scope
}.

Record OverviewFilter := mkOverviewFilter {
  of_Time : TimeRange;
  of_Service : string;
  of_Environment : string;
  of_Scope : Scope
}.

Definition ActivityInterval := string.
Definition ActivityHour : ActivityInterval := "hour".
Definition ActivityDay : ActivityInterval := "day".

Record OverviewActivityFilter := mkOverviewActivityFilter {
  af_OverviewFilter : OverviewFilter;
  af_Interval : ActivityInterval
}.

(** ** Summaries and details *)

Record FlowSummary := mkFlowSummary {
  fs_ID : FlowID;
  fs_Service : string;
  fs_Environment : string;
  fs_Scope : Scope;
  fs_EntityType : string;
  fs_EntityID : string;
  fs_ExecutionID : ExecutionID;
  fs_Status : string;
  fs_StartedAt : Z;
  fs_FinishedAt : Z;
  fs_EventCount : Z
}.

Record FlowDetail := mkFlowDetail {
  fd_FlowSummary : FlowSummary;
  fd_FirstKind : string;
  fd_LastKind : string
}.

Record ExecutionSummary := mkExecutionSummary {
  xs_ID : ExecutionID;
  xs_Service : string;
  xs_Environment : string;
  xs_Scope : Scope;
  xs_Kind : string;
  xs_Source : ExecutionSource;
  xs_Status : string;
  xs_Attempt : Z;
  xs_ParentExecutionID : ExecutionID;
  xs_RetryOfExecutionID : ExecutionID;
  xs_StartedAt : Z;
  xs_FinishedAt : Z;
  xs_EventCount : Z;
  xs_FlowCount : Z
}.

Record ExecutionDetail := mkExecutionDetail { xd_ExecutionSummary : ExecutionSummary }.
Record RetryChain := mkRetryChain { rt_Executions : list ExecutionSummary }.

Record EntityKey := mkEntityKey { ek_Scope : Scope; ek_Type : string; ek_ID : string }.

Record EntitySummary := mkEntitySummary {
  es_EntityKey : EntityKey;
  es_FirstSeen : Z;
  es_LastSeen : Z;
  es_FlowCount : Z
}.

Record EntityDetail := mkEntityDetail { ed_EntitySummary : EntitySummary }.

Record Overview := mkOverview {
  ov_AsOf : Z;
  ov_Estimated : bool;
  ov_FirstEvent : Z;
  ov_LastEvent : Z;
  ov_Events : Z;
  ov_Flows : Z;
  ov_Executions : Z;
  ov_Entities : Z;
  ov_FailedFlows : Z;
  ov_FailedExecutions : Z;
  ov_HTTP5xx : Z
}.

Record ActivityBucket := mkActivityBucket {
  ab_Timestamp : Z;
  ab_Events : Z;
  ab_Errors : Z;
  ab_HTTP5xx : Z
}.

Record CountByName := mkCountByName { cn_Name : string; cn_Count : Z }.

Record OverviewActivity := mkOverviewActivity {
  oa_From : Z;
  oa_To : Z;
  oa_Interval : ActivityInterval;
  oa_Buckets : list ActivityBucket;
  oa_FlowStatuses : list CountByName;
  oa_ExecutionSources : list CountByName
}.

(** ** Zero values, as a store returns them beside an error *)

Definition Scope_zero : Scope := mkScope "" "".
Definition Delivery_zero : Delivery := mkDelivery "" "" 0 0 0 time_zero.
Definition EventRecord_zero : EventRecord :=
  mkEventRecord (zero_array 16) time_zero "" 0 (zero_array 16) (zero_array 16) (zero_array 16) (zero_array 16)
    0 "" Scope_zero "" "" (zero_array 16) [] "" "" "" "" "" false HTTPRecord_zero [] (zero_array 16)
    Metadata_zero Delivery_zero.
Definition FlowSummary_zero : FlowSummary :=
  mkFlowSummary (zero_array 16) "" "" Scope_zero "" "" (zero_array 16) "" time_zero time_zero 0.
Definition FlowDetail_zero : FlowDetail := mkFlowDetail FlowSummary_zero "" "".
Definition ExecutionSummary_zero : ExecutionSummary :=
  mkExecutionSummary (zero_array 16) "" "" Scope_zero "" "" "" 0 (zero_array 16) (zero_array 16)
    time_zero time_zero 0 0.
Definition ExecutionDetail_zero : ExecutionDetail := mkExecutionDetail ExecutionSummary_zero.
Definition EntityDetail_zero : EntityDetail :=
  mkEntityDetail (mkEntitySummary (mkEntityKey Scope_zero "" "") time_zero time_zero 0).

#[global] Instance eta_FlowFilter : Eta FlowFilter :=
  fun r => mkFlowFilter (ff_Time r) (ff_Service r) (ff_Environment r) (ff_Status r) (ff_EntityType r)
    (ff_EntityID r) (ff_ExecutionID r) (ff_Scope r).
#[global] Instance eta_EventFilter : Eta EventFilter :=
  fun r => mkEventFilter (ef_Time r) (ef_Service r) (ef_Environment r) (ef_Kind r) (ef_Level r)
    (ef_HTTPStatusClass r) (ef_HTTPMethod r) (ef_HTTPStatus r) (ef_Provider r) (ef_HasError r)
    (ef_FlowID r) (ef_ExecutionID r) (ef_EntityType r) (ef_EntityID r) (ef_Scope r).
#[global] Instance eta_OverviewActivity : Eta OverviewActivity :=
  fun r => mkOverviewActivity (oa_From r) (oa_To r) (oa_Interval r) (oa_Buckets r) (oa_FlowStatuses r)
    (oa_ExecutionSources r).
#[global] Instance eta_EntitySummary : Eta EntitySummary :=
  fun r => mkEntitySummary (es_EntityKey r) (es_FirstSeen r) (es_LastSeen r) (es_FlowCount r).
#[global] Instance eta_Delivery : Eta Delivery := fun d =>
  mkDelivery (d_Stream d) (d_Consumer d) (d_StreamSequence d) (d_ConsumerSequence d) (d_Delivered d) (d_ReceivedAt d).
#[global] Instance eta_Scope : Eta Scope := fun s => mkScope (sc_Type s) (sc_ID s).
#[global] Instance eta_FlowSummary : Eta FlowSummary := fun v =>
  mkFlowSummary (fs_ID v) (fs_Service v) (fs_Environment v) (fs_Scope v) (fs_EntityType v) (fs_EntityID v) (fs_ExecutionID v)
    (fs_Status v) (fs_StartedAt v) (fs_FinishedAt v) (fs_EventCount v).
#[global] Instance eta_ExecutionSummary : Eta ExecutionSummary := fun v =>
  mkExecutionSummary (xs_ID v) (xs_Service v) (xs_Environment v) (xs_Scope v) (xs_Kind v) (xs_Source v) (xs_Status v) (xs_Attempt v)
    (xs_ParentExecutionID v) (xs_RetryOfExecutionID v) (xs_StartedAt v) (xs_FinishedAt v) (xs_EventCount v) (xs_FlowCount v).
