(* ===== verification/GoText.v ===== *)
(** * Numbers and white space in texts

    What the program uses of Go's strconv and of [strings.TrimSpace] when it reads
    request parameters: integers with their range rule, booleans, and the white
    space of Unicode. *)

From S2P Require Import Prelude GoLib JsonText.

(** [strconv.Atoi] on a 64-bit machine: the value and whether the error is nil.  A
    number out of range gives the nearest integer beside the error, a malformed one
    gives 0. *)
Definition Atoi (s : string) : Z * bool :=
  let '(neg, ds) :=
    match string_bytes s with
    | "-"%char :: ds => (true, ds)
    | "+"%char :: ds => (false, ds)
    | ds => (false, ds)
    end in
  if bool_decide (ds = []) || negb (forallb is_digit ds) then (0, false)
  else
    let v := if neg then - digits_value ds else digits_value ds in
    if v <? - 2 ^ 63 then (- 2 ^ 63, false)
    else if 2 ^ 63 <=? v then (2 ^ 63 - 1, false)
    else (v, true).

(** [strconv.Itoa], also [fmt]'s [%d]. *)
Definition Itoa (z : Z) : string := bytes_string (print_int z).

(** [strconv.ParseBool]; [None] is an error. *)
Definition ParseBool (s : string) : option bool :=
  if bool_decide (s ∈ ["1"; "t"; "T"; "TRUE"; "true"; "True"]) then Some true
  else if bool_decide (s ∈ ["0"; "f"; "F"; "FALSE"; "false"; "False"]) then Some false
  else None.

(** [strings.Contains]. *)
Fixpoint Contains (s sub : string) : bool :=
  HasPrefix s sub || match s with String _ s => Contains s sub | EmptyString => false end.

(** Length of the white space character at the head of a UTF-8 text, 0 if none. *)
Definition space_head (l : bytes) : nat :=
  match byte_Z <$> take 3 l with
  | a :: rest =>
      if ((9 <=? a) && (a <=? 13)) || (a =? 32) then 1%nat
      else match rest with
      | b :: rest =>
          if (a =? 194) && ((b =? 133) || (b =? 160)) then 2%nat
          else match rest with
          | c :: _ =>
              if ((a =? 225) && (b =? 154) && (c =? 128))
                 || ((a =? 226) && (b =? 128)
                     && (((128 <=? c) && (c <=? 138)) || (c =? 168) || (c =? 169) || (c =? 175)))
                 || ((a =? 226) && (b =? 129) && (c =? 159))
                 || ((a =? 227) && (b =? 128) && (c =? 128))
              then 3%nat else 0%nat
          | [] => 0%nat
          end
      | [] => 0%nat
      end
  | [] => 0%nat
  end.

Fixpoint trim_left_fuel (fuel : nat) (l : bytes) : bytes :=
  match fuel with
  | O => l
  | S fuel => match space_head l with O => l | n => trim_left_fuel fuel (drop n l) end
  end.
Definition trim_left (l : bytes) : bytes := trim_left_fuel (length l) l.

(** The same from the end: the last one, two or three bytes are a white space. *)
Definition space_last (l : bytes) : nat :=
  let ends n := Nat.eqb (space_head (drop (length l - n) l)) n in
  if ends 1%nat then 1%nat else if ends 2%nat then 2%nat else if ends 3%nat then 3%nat else 0%nat.
Fixpoint trim_right_fuel (fuel : nat) (l : bytes) : bytes :=
  match fuel with
  | O => l
  | S fuel => match space_last l with O => l | n => trim_right_fuel fuel (take (length l - n) l) end
  end.
Definition trim_right (l : bytes) : bytes := trim_right_fuel (length l) l.

(** [strings.TrimSpace]. *)
Definition TrimSpace (s : string) : string := bytes_string (trim_right (trim_left (string_bytes s))).

Example TrimSpace_ascii : TrimSpace (String "009" " text/plain ") = "text/plain"%string.
Proof. reflexivity. Qed.
