(* ===== verification/GoTime.v ===== *)
(** * Times as text

    What the program uses of Go's time package: the RFC 3339 form with optional
    fractional seconds that [time.Parse] reads and [time.Time]'s JSON methods write
    and read.  A time is an instant, in nanoseconds since the Unix epoch; the
    calendar is the proleptic Gregorian one.  Written times are in UTC. *)

From S2P Require Import Prelude GoLib Json JsonText.

(** ** The calendar

    The calendar repeats every 400 years of [146097] days.  Years start in March
    here, which puts the leap day last; [719468] days lie between 1 March of year 0
    and the epoch. *)

Definition era_days : Z := 146097.
Definition epoch_shift : Z := 719468.

(** The year of the era (from March) of a day of the era. *)
Definition year_num (doe : Z) : Z := doe - doe / 1460 + doe / 36524 - doe / 146096.
Definition year_start (yoe : Z) : Z := 365 * yoe + yoe / 4 - yoe / 100.

(** Month and day of a day of the year. *)
Definition month_day (doy : Z) : Z * Z :=
  let mp := (5 * doy + 2) / 153 in
  (if mp <? 10 then mp + 3 else mp - 9, doy - (153 * mp + 2) / 5 + 1).

Definition civil_of_era (doe : Z) : Z * Z * Z :=
  let yoe := year_num doe / 365 in
  let '(m, d) := month_day (doe - year_start yoe) in (yoe, m, d).

Definition civil_from_days (z : Z) : Z * Z * Z :=
  let '(yoe, m, d) := civil_of_era ((z + epoch_shift) mod era_days) in
  (yoe + (z + epoch_shift) / era_days * 400 + (if m <=? 2 then 1 else 0), m, d).

Definition day_of_year (m d : Z) : Z := (153 * (if 2 <? m then m - 3 else m + 9) + 2) / 5 + d - 1.
Definition day_of_era (yoe m d : Z) : Z := year_start yoe + day_of_year m d.

Definition days_from_civil (y m d : Z) : Z :=
  let y := if m <=? 2 then y - 1 else y in
  y / 400 * era_days + day_of_era (y mod 400) m d - epoch_shift.

Definition isLeap (y : Z) : bool := (y mod 4 =? 0) && (negb (y mod 100 =? 0) || (y mod 400 =? 0)).
Definition daysIn (m y : Z) : Z :=
  if m =? 2 then if isLeap y then 29 else 28
  else if (m =? 4) || (m =? 6) || (m =? 9) || (m =? 11) then 30 else 31.

(** ** Printing *)

Definition dig (d : Z) : byte := Z_byte (48 + d).
Definition pad2 (v : Z) : bytes := [dig (v / 10); dig (v mod 10)].
Definition pad4 (v : Z) : bytes := pad2 (v / 100) ++ pad2 (v mod 100).

Fixpoint padn (n : nat) (v : Z) : bytes :=
  match n with O => [] | S n => padn n (v / 10) ++ [dig (v mod 10)] end.

(** Digits without trailing zeros. *)
Fixpoint trim_zeros (l : bytes) : bytes :=
  match l with
  | [] => []
  | c :: l => match trim_zeros l with [] => if Ascii.eqb c "0" then [] else [c] | t => c :: t end
  end.

Definition second : Z := 1000000000.
Definition fraction (ns : Z) : bytes := if ns =? 0 then [] else "."%char :: trim_zeros (padn 9 ns).

(** [t.UTC().Format(time.RFC3339Nano)]. *)
Definition format_RFC3339Nano (t : Z) : bytes :=
  let sec := t / second in
  let '(y, m, d) := civil_from_days (sec / 86400) in
  let sod := sec mod 86400 in
  pad4 y ++ "-"%char :: pad2 m ++ "-"%char :: pad2 d ++ "T"%char :: pad2 (sod / 3600) ++ ":"%char ::
  pad2 (sod / 60 mod 60) ++ ":"%char :: pad2 (sod mod 60) ++ fraction (t mod second) ++ ["Z"%char].

Definition year_of (t : Z) : Z := (civil_from_days (t / second / 86400)).1.1.

(** ** Reading: [parse] of time/format.go for the layout RFC3339Nano *)

Definition digit_value (c : byte) : Z := byte_Z c - 48.

Definition getnum (fixed : bool) (s : bytes) : option (Z * bytes) :=
  match s with
  | a :: s' =>
      if negb (is_digit a) then None
      else match s' with
           | b :: s'' =>
               if is_digit b then Some (digit_value a * 10 + digit_value b, s'')
               else if fixed then None else Some (digit_value a, s')
           | [] => if fixed then None else Some (digit_value a, [])
           end
  | [] => None
  end.

Definition getyear (s : bytes) : option (Z * bytes) :=
  '(hi, s) ← getnum true s; '(lo, s) ← getnum true s; Some (hi * 100 + lo, s).

Definition skip (c : byte) (s : bytes) : option bytes :=
  match s with a :: s => if Ascii.eqb a c then Some s else None | [] => None end.

Definition commaOrPeriod (c : byte) : bool := Ascii.eqb c "." || Ascii.eqb c ",".

(** Any number of digits; the first nine count. *)
Definition getfraction (s : bytes) : Z * bytes :=
  match s with
  | sep :: s' =>
      let '(ds, rest) := take_while is_digit s' in
      if commaOrPeriod sep && negb (bool_decide (ds = []))
      then (digits_value (take 9 ds) * 10 ^ Z.of_nat (9 - length (take 9 ds)), rest)
      else (0, s)
  | [] => (0, [])
  end.

(** [Z07:00]: the offset in seconds.  The bounds are those of the source. *)
Definition getzone (s : bytes) : option (Z * bytes) :=
  match s with
  | "Z"%char :: s => Some (0, s)
  | sign :: h1 :: h2 :: ":"%char :: m1 :: m2 :: s =>
      '(hr, _) ← getnum true [h1; h2]; '(mm, _) ← getnum true [m1; m2];
      if (24 <? hr) || (60 <? mm) then None
      else if Ascii.eqb sign "+" then Some ((hr * 60 + mm) * 60, s)
      else if Ascii.eqb sign "-" then Some (- ((hr * 60 + mm) * 60), s)
      else None
  | _ => None
  end.

(** [time.Parse(time.RFC3339Nano, s)]; [None] is an error. *)
Definition parse_RFC3339Nano (s : bytes) : option Z :=
  '(y, s) ← getyear s; s ← skip "-" s;
  '(m, s) ← getnum true s; s ← skip "-" s;
  '(d, s) ← getnum true s; s ← skip "T" s;
  '(h, s) ← getnum false s; s ← skip ":" s;
  '(mi, s) ← getnum true s; s ← skip ":" s;
  '(sec, s) ← getnum true s;
  let '(ns, s) := getfraction s in
  '(off, s) ← getzone s;
  if (1 <=? m) && (m <=? 12) && (1 <=? d) && (d <=? daysIn m y) && (h <? 24) && (mi <? 60) && (sec <? 60)
     && bool_decide (s = [])
  then Some ((days_from_civil y m d * 86400 + h * 3600 + mi * 60 + sec - off) * second + ns)
  else None.

(** [parseStrictRFC3339], the reader of JSON times: two-digit hours, a period
    before the fraction, offsets below 24 hours and 60 minutes. *)
Definition strict_zone (s : bytes) : bool :=
  match rev s with
  | "Z"%char :: _ => true
  | m2 :: m1 :: _ :: h2 :: h1 :: _ =>
      (digit_value h1 * 10 + digit_value h2 <? 24) && (digit_value m1 * 10 + digit_value m2 <? 60)
  | _ => false
  end.

Definition parseStrictRFC3339 (s : bytes) : option Z :=
  t ← parse_RFC3339Nano s;
  if bool_decide (s !! 12%nat = Some ":"%char) || bool_decide (s !! 19%nat = Some ","%char) || negb (strict_zone s)
  then None else Some t.

(** ** JSON *)

Definition time_range_error : error := errors_New "Time.MarshalJSON: year outside of range [0,9999]".

Definition enc_time (t : Z) : result json :=
  if (0 <=? year_of t) && (year_of t <=? 9999) then Ok (JString (bytes_string (format_RFC3339Nano t)))
  else Fail time_range_error.

Definition dec_time (j : json) (old : Z) : result Z :=
  match j with
  | JNull => Ok old
  | JString s => match parseStrictRFC3339 (string_bytes s) with Some t => Ok t | None => Fail type_error end
  | _ => Fail type_error
  end.

(** ** The calendar is exact *)

Fixpoint check_below (n : nat) (f : Z -> bool) (z : Z) : bool :=
  match n with O => true | S n => f z && check_below n f (z + 1) end.

Lemma check_below_spec n f z x : check_below n f z = true -> z <= x < z + Z.of_nat n -> f x = true.
Proof.
  revert z; induction n as [|n IH]; intros z; cbn [check_below]; [lia|].
  intros [Hz Hn]%andb_true_iff Hx. destruct (decide (x = z)) as [->|]; [done|]. apply (IH (z + 1)); [done|lia].
Qed.

(** The formula of the year never decreases, so it is right on all days of a year
    when it is right on the first and the last. *)
Definition year_len (yoe : Z) : Z := if isLeap (yoe + 1) then 366 else 365.
Definition year_check (yoe : Z) : bool :=
  (year_num (year_start yoe) / 365 =? yoe) && (year_num (year_start yoe + year_len yoe - 1) / 365 =? yoe)
  && (year_start yoe + year_len yoe =? (if yoe =? 399 then era_days else year_start (yoe + 1)))
  && (0 <=? year_start yoe) && (year_start yoe + year_len yoe <=? era_days) && (0 <? year_len yoe).

Lemma years_checked : check_below 400 year_check 0 = true.
Proof. vm_compute. reflexivity. Qed.

Definition day_check (doy : Z) : bool :=
  let '(m, d) := month_day doy in
  (1 <=? m) && (m <=? 12) && (1 <=? d) && (day_of_year m d =? doy)
  && (d <=? (if m =? 2 then if doy =? 365 then 29 else 28
             else if (m =? 4) || (m =? 6) || (m =? 9) || (m =? 11) then 30 else 31)).

Lemma days_checked : check_below 366 day_check 0 = true.
Proof. vm_compute. reflexivity. Qed.

Lemma year_num_step a : 0 <= a < era_days - 1 -> year_num a <= year_num (a + 1).
Proof. unfold year_num, era_days. intros Ha. Z.to_euclidean_division_equations. lia. Qed.

Lemma year_num_mono a b : 0 <= a <= b -> b < era_days -> year_num a / 365 <= year_num b / 365.
Proof.
  intros Hab Hb. apply Z.div_le_mono; [done|]. replace b with (a + Z.of_nat (Z.to_nat (b - a))) in * by lia.
  revert Hb. generalize (Z.to_nat (b - a)). intros n. induction n as [|n IH]; intros Hb.
  - by rewrite Z.add_0_r.
  - etransitivity; [apply IH; lia|]. replace (a + Z.of_nat (S n)) with (a + Z.of_nat n + 1) by lia.
    apply year_num_step. lia.
Qed.

Lemma year_of_era doe : 0 <= doe < era_days ->
  let yoe := year_num doe / 365 in
  0 <= yoe < 400 /\ year_start yoe <= doe < year_start yoe + year_len yoe.
Proof.
  intros Hd yoe.
  assert (0 <= yoe < 400) as Hy.
  { split; [apply (year_num_mono 0 doe); lia|].
    pose proof (year_num_mono doe (era_days - 1) ltac:(lia) ltac:(lia)) as H.
    change (year_num (era_days - 1) / 365) with 399 in H. unfold yoe. lia. }
  split; [done|].
  assert (forall y, 0 <= y < 400 -> year_check y = true) as Hc.
  { intros y ?. apply (check_below_spec _ _ _ y years_checked). lia. }
  pose proof (Hc yoe Hy) as Hq. unfold year_check in Hq. bool_cases.
  destruct (Z.lt_ge_cases doe (year_start yoe)) as [Hlt|Hge].
  - assert (yoe <> 0) as Hnz by (intros E; rewrite E in Hlt; change (year_start 0) with 0 in Hlt; lia).
    pose proof (Hc (yoe - 1) ltac:(lia)) as Hp. unfold year_check in Hp.
    replace (yoe - 1 + 1) with yoe in Hp by lia. replace (yoe - 1 =? 399) with false in Hp by lia. bool_cases.
    pose proof (year_num_mono doe (year_start (yoe - 1) + year_len (yoe - 1) - 1) ltac:(lia) ltac:(lia)).
    subst yoe. lia.
  - split; [done|]. destruct (Z.lt_ge_cases doe (year_start yoe + year_len yoe)) as [|Hge']; [done|].
    destruct (Z.eqb_spec yoe 399) as [E|Hne]; [lia|].
    pose proof (Hc (yoe + 1) ltac:(lia)) as Hp. unfold year_check in Hp. bool_cases.
    pose proof (year_num_mono (year_start (yoe + 1)) doe ltac:(lia) ltac:(lia)).
    subst yoe. lia.
Qed.

Lemma isLeap_era y k : isLeap (y + k * 400) = isLeap y.
Proof.
  unfold isLeap. rewrite Z_mod_plus_full.
  replace (y + k * 400) with (y + (k * 100) * 4) at 1 by lia. rewrite Z_mod_plus_full.
  replace (y + k * 400) with (y + (k * 4) * 100) at 1 by lia. by rewrite Z_mod_plus_full.
Qed.

Lemma daysIn_era m y k : daysIn m (y + k * 400) = daysIn m y.
Proof. unfold daysIn. by rewrite isLeap_era. Qed.

Lemma civil_of_era_spec doe yoe m d :
  0 <= doe < era_days -> civil_of_era doe = (yoe, m, d) ->
  0 <= yoe < 400 /\ 1 <= m <= 12 /\ 1 <= d <= daysIn m (yoe + (if m <=? 2 then 1 else 0)) /\
  day_of_era yoe m d = doe.
Proof.
  intros Hd. unfold civil_of_era. destruct (year_of_era doe Hd) as [Hy Hs].
  set (y := year_num doe / 365) in *. clearbody y. set (doy := doe - year_start y) in *.
  assert (year_len y <= 366) as Hl by (unfold year_len; destruct (isLeap _); lia).
  assert (day_check doy = true) as Hc by (apply (check_below_spec _ _ _ doy days_checked); lia).
  unfold day_check in Hc. destruct (month_day doy) as [m' d']. intros [= <- <- <-]. bool_cases.
  split_and!; try lia; [|unfold day_of_era; lia].
  unfold daysIn. destruct (Z.eqb_spec m' 2) as [->|]; [|done]. cbn [Z.leb Z.compare Pos.compare Pos.compare_cont].
  destruct (Z.eqb_spec doy 365) as [E|]; [|destruct (isLeap _); lia].
  unfold year_len in Hs. destruct (isLeap (y + 1)); [done|lia].
Qed.

Lemma civil_from_days_spec z y m d :
  civil_from_days z = (y, m, d) ->
  days_from_civil y m d = z /\ 1 <= m <= 12 /\ 1 <= d <= daysIn m y.
Proof.
  unfold civil_from_days. set (q := z + epoch_shift). intros H.
  destruct (civil_of_era (q mod era_days)) as [[yoe m'] d'] eqn:E.
  apply civil_of_era_spec in E as (Hy & Hm & Hd & Hdoe); [|apply Z.mod_pos_bound; done].
  injection H as <- <- <-.
  set (k := q / era_days) in *. set (c := if m' <=? 2 then 1 else 0) in *.
  replace (yoe + k * 400 + c) with (yoe + c + k * 400) by lia.
  rewrite daysIn_era. split; [|lia]. unfold days_from_civil.
  replace (if m' <=? 2 then yoe + c + k * 400 - 1 else yoe + c + k * 400) with (yoe + k * 400)
    by (subst c; destruct (m' <=? 2); lia).
  rewrite Z_div_plus_full, Z_mod_plus_full, Z.div_small, Z.mod_small by lia.
  pose proof (Z.div_mod q era_days ltac:(done)). subst q k. lia.
Qed.

(** ** Printed times are read back *)

Lemma dig_spec d : 0 <= d < 10 -> is_digit (dig d) = true /\ digit_value (dig d) = d.
Proof. intros Hd. destruct (is_digit_digit d Hd) as [H1 H2]. split; [done|]. unfold digit_value, dig. lia. Qed.

Lemma getnum_pad2 fixed v s : 0 <= v < 100 -> getnum fixed (pad2 v ++ s) = Some (v, s).
Proof.
  intros Hv. unfold pad2, getnum. simpl.
  destruct (dig_spec (v / 10)) as [H1 H2]; [split; [apply Z.div_pos; lia|apply Z.div_lt_upper_bound; lia]|].
  destruct (dig_spec (v mod 10)) as [H3 H4]; [apply Z.mod_pos_bound; lia|].
  rewrite H1, H3, H2, H4. simpl. pose proof (Z.div_mod v 10 ltac:(lia)). do 2 f_equal. lia.
Qed.

Lemma getyear_pad4 v s : 0 <= v < 10000 -> getyear (pad4 v ++ s) = Some (v, s).
Proof.
  intros Hv. unfold getyear, pad4. rewrite <- app_assoc.
  rewrite getnum_pad2 by (split; [apply Z.div_pos; lia|apply Z.div_lt_upper_bound; lia]).
  cbn [mbind option_bind].
  rewrite getnum_pad2 by (apply Z.mod_pos_bound; lia). simpl.
  pose proof (Z.div_mod v 100 ltac:(lia)). do 2 f_equal. lia.
Qed.

Lemma padn_spec n v : 0 <= v < 10 ^ Z.of_nat n ->
  Forall (fun c => is_digit c = true) (padn n v) /\ length (padn n v) = n /\ digits_value (padn n v) = v.
Proof.
  revert v; induction n as [|n IH]; intros v Hv.
  - change (10 ^ Z.of_nat 0) with 1 in Hv. assert (v = 0) as -> by lia. by split_and!.
  - rewrite Nat2Z.inj_succ, Z.pow_succ_r in Hv by lia.
    destruct (IH (v / 10)) as (HF & HL & HV); [split; [apply Z.div_pos; lia|apply Z.div_lt_upper_bound; lia]|].
    destruct (dig_spec (v mod 10)) as [H1 H2]; [apply Z.mod_pos_bound; lia|].
    cbn [padn]. split_and!.
    + apply Forall_app. by split; [|repeat constructor].
    + rewrite length_app, HL. simpl. lia.
    + unfold digits_value in *. rewrite fold_left_app, HV. simpl. unfold digit_value in H2. rewrite H2.
      pose proof (Z.div_mod v 10 ltac:(lia)). lia.
Qed.

Lemma digits_value_app l l' :
  digits_value (l ++ l') = digits_value l * 10 ^ Z.of_nat (length l') + digits_value l'.
Proof.
  unfold digits_value. rewrite fold_left_app. generalize (fold_left (fun n c => n * 10 + (byte_Z c - 48)) l 0).
  intros a. revert a; induction l' as [|c l' IH]; intros a; cbn [fold_left length].
  - change (10 ^ Z.of_nat 0) with 1. lia.
  - rewrite IH, (IH (0 * 10 + _)). rewrite Nat2Z.inj_succ, Z.pow_succ_r by lia. lia.
Qed.

Lemma trim_zeros_spec l : exists k, l = trim_zeros l ++ replicate k "0"%char.
Proof.
  induction l as [|c l [k IH]]; [by exists 0%nat|]. cbn [trim_zeros].
  destruct (trim_zeros l) as [|t ts].
  - destruct (Ascii.eqb_spec c "0") as [->|].
    + exists (S k). simpl. by f_equal.
    + exists k. simpl. by f_equal.
  - exists k. rewrite <- app_comm_cons. by f_equal.
Qed.

Lemma digits_value_zeros k : digits_value (replicate k "0"%char) = 0.
Proof. unfold digits_value. induction k as [|k IH]; [done|]. simpl. exact IH. Qed.

Lemma getfraction_fraction ns rest :
  0 <= ns < second -> match rest with c :: _ => is_digit c = false /\ commaOrPeriod c = false | [] => True end ->
  getfraction (fraction ns ++ rest) = (ns, rest).
Proof.
  intros Hns Hrest. unfold fraction. destruct (Z.eqb_spec ns 0) as [->|Hnz].
  - destruct rest as [|c r]; [done|]. destruct Hrest as [Hd Hc]. simpl.
    destruct (take_while is_digit r). by rewrite Hc.
  - destruct (padn_spec 9 ns Hns) as (HF & HL & HV).
    destruct (trim_zeros_spec (padn 9 ns)) as [k Hk]. set (t := trim_zeros (padn 9 ns)) in *. clearbody t.
    assert (Forall (fun c => is_digit c = true) t) as Ht by (rewrite Hk, Forall_app in HF; apply HF).
    assert (length t + k = 9)%nat as Hlen by (rewrite <- HL, Hk, length_app, length_replicate; done).
    rewrite Hk, digits_value_app, length_replicate, digits_value_zeros in HV.
    unfold getfraction. simpl. rewrite take_while_app; [|done|by destruct rest; [|apply Hrest]].
    rewrite bool_decide_eq_false_2.
    2: { intros ->. change (digits_value []) with 0 in HV. lia. }
    rewrite take_ge by lia. simpl. f_equal. replace (9 - length t)%nat with k by lia. lia.
Qed.

Lemma clock_parts t : let sod := t / second mod 86400 in
  0 <= sod / 3600 < 24 /\ 0 <= sod / 60 mod 60 < 60 /\ 0 <= sod mod 60 < 60 /\
  (t / second / 86400 * 86400 + sod / 3600 * 3600 + sod / 60 mod 60 * 60 + sod mod 60) * second
    + t mod second = t.
Proof.
  cbv zeta. unfold second.
  pose proof (Z.div_mod t 1000000000 ltac:(lia)). set (s := t / 1000000000) in *. clearbody s.
  pose proof (Z.div_mod s 86400 ltac:(lia)). pose proof (Z.mod_pos_bound s 86400 ltac:(lia)).
  set (d := s mod 86400) in *. clearbody d.
  pose proof (Z.mod_pos_bound d 60 ltac:(lia)). pose proof (Z.mod_pos_bound (d / 60) 60 ltac:(lia)).
  pose proof (Z.div_mod d 60 ltac:(lia)). pose proof (Z.div_mod (d / 60) 60 ltac:(lia)).
  replace (d / 3600) with (d / 60 / 60) by (rewrite Z.div_div by lia; done).
  assert (0 <= d / 60 / 60 < 24).
  { split; [apply Z.div_pos; [apply Z.div_pos; lia|lia]|]. apply Z.div_lt_upper_bound; [lia|].
    apply Z.div_lt_upper_bound; lia. }
  lia.
Qed.

Ltac read_pad :=
  match goal with
  | |- context [getnum ?b (?x ++ ?s)] => rewrite (getnum_pad2 b _ s) by lia
  end; cbn [skip Ascii.eqb Bool.eqb mbind option_bind].

Theorem parse_format t : 0 <= year_of t <= 9999 -> parse_RFC3339Nano (format_RFC3339Nano t) = Some t.
Proof.
  intros Hy. unfold year_of in Hy. unfold format_RFC3339Nano.
  destruct (civil_from_days (t / second / 86400)) as [[y m] d] eqn:Ec. simpl in Hy.
  destruct (civil_from_days_spec _ _ _ _ Ec) as (Hdays & Hm & Hd).
  assert (daysIn m y <= 31) by (unfold daysIn; repeat case_match; lia).
  destruct (clock_parts t) as (Hh & Hmi & Hs & Ht). cbv zeta.
  set (sod := t / second mod 86400) in *. clearbody sod.
  pose proof (Z.mod_pos_bound t second ltac:(done)) as Hns.
  unfold parse_RFC3339Nano.
  rewrite getyear_pad4 by lia. cbn [skip Ascii.eqb Bool.eqb mbind option_bind].
  do 5 read_pad. rewrite getfraction_fraction by done. cbn [getzone mbind option_bind].
  rewrite bool_decide_eq_true_2 by done.
  replace (_ && _) with true by (symmetry; repeat (apply andb_true_iff; split); lia).
  f_equal. rewrite Hdays. lia.
Qed.

(** What is printed is accepted by the strict reader too. *)
Lemma strict_zone_Z s : strict_zone (s ++ ["Z"%char]) = true.
Proof. unfold strict_zone. by rewrite rev_app_distr. Qed.

Lemma parseStrict_format t : 0 <= year_of t <= 9999 -> parseStrictRFC3339 (format_RFC3339Nano t) = Some t.
Proof.
  intros Hy. unfold parseStrictRFC3339. rewrite parse_format by done. cbn [mbind option_bind].
  unfold year_of in Hy. unfold format_RFC3339Nano.
  destruct (civil_from_days (t / second / 86400)) as [[y m] d]. cbv zeta.
  destruct (clock_parts t) as (Hh & _ & _ & _). set (sod := t / second mod 86400) in *. clearbody sod.
  replace (strict_zone _) with true.
  2: { symmetry. repeat rewrite ?app_comm_cons, ?app_assoc. apply strict_zone_Z. }
  rewrite !bool_decide_eq_false_2; [done| |].
  - unfold pad4, pad2, fraction. simpl. destruct (t mod second =? 0); simpl; intros [=].
  - unfold pad4, pad2. simpl. intros [= Hc].
    destruct (dig_spec (sod / 3600 mod 10)) as [Hdig _]; [apply Z.mod_pos_bound; lia|].
    rewrite Hc in Hdig. done.
Qed.

(** A time survives its JSON form. *)
Lemma dec_enc_time t j old : enc_time t = Ok j -> dec_time j old = Ok t.
Proof.
  unfold enc_time. destruct (_ && _) eqn:Hy; [|done]. bool_cases.
  assert (parseStrictRFC3339 (format_RFC3339Nano t) = Some t) as Hp by (apply parseStrict_format; lia).
  revert Hp. generalize (format_RFC3339Nano t). intros text Hp [= <-].
  unfold dec_time. by rewrite String.list_ascii_of_string_of_list_ascii, Hp.
Qed.

(** The text of a time is ASCII. *)
Definition ascii_bytes (l : bytes) : Prop := Forall (fun c => between 0 127 c = true) l.

Lemma digit_ascii c : is_digit c = true -> between 0 127 c = true.
Proof. unfold is_digit, between. intros. bool_cases. lia. Qed.

Lemma pad2_ascii v : 0 <= v < 100 -> ascii_bytes (pad2 v).
Proof.
  intros Hv. repeat constructor; apply digit_ascii, dig_spec.
  - split; [apply Z.div_pos; lia|apply Z.div_lt_upper_bound; lia].
  - apply Z.mod_pos_bound; lia.
Qed.

Lemma fraction_ascii ns : 0 <= ns < second -> ascii_bytes (fraction ns).
Proof.
  intros Hns. unfold fraction. destruct (ns =? 0); constructor; [done|].
  destruct (padn_spec 9 ns Hns) as (HF & _ & _). destruct (trim_zeros_spec (padn 9 ns)) as [k Hk].
  rewrite Hk, Forall_app in HF. eapply Forall_impl; [apply HF|]. apply digit_ascii.
Qed.

Lemma format_ascii t : 0 <= year_of t <= 9999 -> ascii_bytes (format_RFC3339Nano t).
Proof.
  intros Hy. unfold year_of in Hy. unfold format_RFC3339Nano.
  destruct (civil_from_days (t / second / 86400)) as [[y m] d] eqn:Ec. simpl in Hy.
  destruct (civil_from_days_spec _ _ _ _ Ec) as (_ & Hm & Hd).
  assert (daysIn m y <= 31) by (unfold daysIn; repeat case_match; lia).
  destruct (clock_parts t) as (Hh & Hmi & Hs & _). cbv zeta. unfold pad4.
  assert (0 <= y / 100 < 100) by (split; [apply Z.div_pos; lia|apply Z.div_lt_upper_bound; lia]).
  pose proof (Z.mod_pos_bound y 100 ltac:(lia)). pose proof (Z.mod_pos_bound t second ltac:(done)).
  unfold ascii_bytes.
  repeat first [apply Forall_app; split | apply pad2_ascii; lia | apply fraction_ascii; done
               | apply Forall_cons; split; [done|] | apply Forall_nil; done].
Qed.

Lemma utf8_valid_ascii l : ascii_bytes l -> utf8_valid l = true.
Proof.
  unfold utf8_valid. intros H. induction H as [|c l Hc _ IH]; [done|].
  cbn [length utf8_valid_fuel]. unfold utf8_len. rewrite Hc. exact IH.
Qed.
