(* ===== verification/Base64.v ===== *)
(** * Base64 with the URL alphabet and without padding

    [base64.RawURLEncoding] of Go's encoding/base64, as cursors use it: three bytes
    become four characters, a shorter tail two or three.  Decoding skips carriage
    returns and newlines and ignores the unused bits of a tail. *)

From S2P Require Import Prelude GoLib.

(** The character of a six-bit value. *)
Definition b64_char (v : Z) : byte :=
  if v <? 26 then Z_byte (65 + v)
  else if v <? 52 then Z_byte (97 + (v - 26))
  else if v <? 62 then Z_byte (48 + (v - 52))
  else if v =? 62 then "-"%char else "_"%char.

Definition b64_value (c : byte) : option Z :=
  let z := byte_Z c in
  if (65 <=? z) && (z <=? 90) then Some (z - 65)
  else if (97 <=? z) && (z <=? 122) then Some (z - 71)
  else if (48 <=? z) && (z <=? 57) then Some (z + 4)
  else if z =? 45 then Some 62
  else if z =? 95 then Some 63
  else None.

(** [EncodeToString]. *)
Fixpoint b64_encode (l : bytes) : bytes :=
  match l with
  | a :: b :: c :: rest =>
      let v := byte_Z a * 65536 + byte_Z b * 256 + byte_Z c in
      b64_char (v / 262144) :: b64_char (v / 4096 mod 64) :: b64_char (v / 64 mod 64) :: b64_char (v mod 64)
        :: b64_encode rest
  | [a; b] =>
      let v := byte_Z a * 1024 + byte_Z b * 4 in
      [b64_char (v / 4096); b64_char (v / 64 mod 64); b64_char (v mod 64)]
  | [a] => let v := byte_Z a * 16 in [b64_char (v / 64); b64_char (v mod 64)]
  | [] => []
  end.

Fixpoint b64_values (l : bytes) : option (list Z) :=
  match l with
  | [] => Some []
  | c :: l =>
      if (byte_Z c =? 10) || (byte_Z c =? 13) then b64_values l
      else v ← b64_value c; vs ← b64_values l; Some (v :: vs)
  end.

Fixpoint b64_groups (vs : list Z) : option bytes :=
  match vs with
  | w :: x :: y :: z :: rest =>
      let v := w * 262144 + x * 4096 + y * 64 + z in
      out ← b64_groups rest; Some (Z_byte (v / 65536) :: Z_byte (v / 256 mod 256) :: Z_byte (v mod 256) :: out)
  | [w; x; y] => let v := (w * 4096 + x * 64 + y) / 4 in Some [Z_byte (v / 256); Z_byte (v mod 256)]
  | [w; x] => Some [Z_byte ((w * 64 + x) / 16)]
  | [_] => None
  | [] => Some []
  end.

(** [DecodeString]; [None] is a [CorruptInputError]. *)
Definition b64_decode (l : bytes) : option bytes := vs ← b64_values l; b64_groups vs.

(** ** Round trip *)

Lemma b64_value_char v : 0 <= v < 64 ->
  b64_value (b64_char v) = Some v /\ byte_Z (b64_char v) <> 10 /\ byte_Z (b64_char v) <> 13.
Proof.
  intros Hv. assert (forall n : nat, (n < 64)%nat ->
    (bool_decide (b64_value (b64_char (Z.of_nat n)) = Some (Z.of_nat n))
     && negb (byte_Z (b64_char (Z.of_nat n)) =? 10) && negb (byte_Z (b64_char (Z.of_nat n)) =? 13)) = true) as H.
  { intros n Hn. do 64 (destruct n as [|n]; [vm_compute; reflexivity|]). lia. }
  specialize (H (Z.to_nat v) ltac:(lia)). rewrite Z2Nat.id in H by lia. bool_cases. done.
Qed.

Lemma b64_values_char v l : 0 <= v < 64 ->
  b64_values (b64_char v :: l) = vs ← b64_values l; Some (v :: vs).
Proof.
  intros Hv. destruct (b64_value_char v Hv) as (H1 & H2 & H3). cbn [b64_values].
  replace (_ || _) with false by lia. by rewrite H1.
Qed.

Lemma b64_three a b c : 0 <= a < 256 -> 0 <= b < 256 -> 0 <= c < 256 ->
  let v := a * 65536 + b * 256 + c in
  0 <= v / 262144 < 64 /\ v / 262144 * 262144 + v / 4096 mod 64 * 4096 + v / 64 mod 64 * 64 + v mod 64 = v /\
  v / 65536 = a /\ v / 256 mod 256 = b /\ v mod 256 = c.
Proof. intros Ha Hb Hc v. subst v. Z.to_euclidean_division_equations. lia. Qed.

Lemma b64_two a b : 0 <= a < 256 -> 0 <= b < 256 ->
  let v := a * 1024 + b * 4 in
  0 <= v / 4096 < 64 /\ (v / 4096 * 4096 + v / 64 mod 64 * 64 + v mod 64) / 4 = a * 256 + b.
Proof. intros Ha Hb v. subst v. Z.to_euclidean_division_equations. lia. Qed.

Lemma b64_one a : 0 <= a < 256 ->
  let v := a * 16 in 0 <= v / 64 < 64 /\ (v / 64 * 64 + v mod 64) / 16 = a.
Proof. intros Ha v. subst v. Z.to_euclidean_division_equations. lia. Qed.

Lemma b64_decode_encode l : b64_decode (b64_encode l) = Some l.
Proof.
  assert (forall n l, (length l < n)%nat -> b64_decode (b64_encode l) = Some l) as H.
  2: { apply (H (S (length l))). lia. }
  clear l. induction n as [|n IH]; intros l Hl; [lia|]. unfold b64_decode in *.
  assert (forall v, 0 <= v mod 64 < 64) as Hm by (intros v; apply Z.mod_pos_bound; lia).
  destruct l as [|a [|b [|c l]]].
  - done.
  - pose proof (byte_Z_range a) as Ha. destruct (b64_one (byte_Z a) Ha) as (H1 & H2).
    cbn [b64_encode]. cbv zeta. rewrite !b64_values_char by auto. cbn -[Z.mul Z.div Z.modulo Z.add].
    by rewrite H2, Z_byte_Z.
  - pose proof (byte_Z_range a) as Ha. pose proof (byte_Z_range b) as Hb.
    destruct (b64_two (byte_Z a) (byte_Z b) Ha Hb) as (H1 & H2).
    cbn [b64_encode]. cbv zeta. rewrite !b64_values_char by auto. cbn -[Z.mul Z.div Z.modulo Z.add].
    rewrite H2, Z.div_add_l, (Z.div_small (byte_Z b)), Z.add_0_r, Z.add_comm, Z_mod_plus_full,
      Z.mod_small, !Z_byte_Z by done. done.
  - pose proof (byte_Z_range a) as Ha. pose proof (byte_Z_range b) as Hb. pose proof (byte_Z_range c) as Hc.
    destruct (b64_three (byte_Z a) (byte_Z b) (byte_Z c) Ha Hb Hc) as (H1 & H2 & H3 & H4 & H5).
    specialize (IH l ltac:(simpl in Hl; lia)).
    cbn [b64_encode]. cbv zeta. rewrite !b64_values_char by auto.
    destruct (b64_values (b64_encode l)) as [vs|]; [|done].
    cbn -[Z.mul Z.div Z.modulo Z.add] in *. rewrite IH, H2. cbn -[Z.mul Z.div Z.modulo Z.add].
    by rewrite H3, H4, H5, !Z_byte_Z.
Qed.
