(* ===== verification/LinkJson.v ===== *)
(** * The JSON form of references and links

    How [encoding/json] writes and reads [payload.Ref] and [storage.PayloadLink]
    (src/payload/payload.go, src/storage/storage.go), and the slices of fields and
    links that event records carry.  A checksum is an array of numbers, a time its
    RFC 3339 text, which only exists for years 0 to 9999. *)

From S2P Require Import Prelude Ids Events GoLib Json JsonText GoTime Wire Payload Storage.

(** ** Encoding *)

Definition enc_sum (sum : array 32) : json := JArray ((fun b => JInt (byte_Z b)) <$> array_bytes sum).

(** [retain_until] is a struct, which [omitempty] never omits. *)
Definition enc_Ref (r : Ref) : result json :=
  until ← enc_time (ref_RetainUntil r);
  Ok (JObject (
    ("store", JString (ref_Store r)) :: ("key", JString (ref_Key r)) ::
    omit_string "content_type" (ref_ContentType r) ++
    ("size", JInt (ref_Size r)) :: ("stored_size", JInt (ref_StoredSize r)) ::
    ("sha256", enc_sum (ref_SHA256 r)) ::
    omit_string "compression" (ref_Compression r) ++
    ("retain_until", until) ::
    omit_string "retention_class" (ref_RetentionClass r) ++ [])).

Definition enc_Link (l : PayloadLink) : result json :=
  ref ← enc_Ref (pl_Ref l);
  Ok (JObject [
    ("Role", JString (pl_Role l)); ("Ref", ref); ("OriginalSize", JInt (pl_OriginalSize l));
    ("CapturedSize", JInt (pl_CapturedSize l)); ("Truncated", JBool (pl_Truncated l));
    ("Error", JString (pl_Error l))]).

(** [json.Marshal] of a slice.  A record without fields or links has a nil slice
    there, which is written as null and not as an empty array. *)
Definition slice_json (items : list json) : json := match items with [] => JNull | _ => JArray items end.
Definition marshal_Fields (fs : list wire_Field) : bytes := json_print (slice_json (enc_Field <$> fs)).
Definition marshal_Links (ls : list PayloadLink) : result bytes :=
  items ← go_range (fun _ l => enc_Link l) ls; Ok (json_print (slice_json items)).

(** ** Decoding *)

Definition dec_u8 (j : json) (old : Z) : result Z := dec_int 0 (2 ^ 8) j old.

(** An array destination: elements past the end are skipped, missing ones zeroed. *)
Fixpoint dec_bytes (items : list json) (old : bytes) : result bytes :=
  match old, items with
  | [], _ => Ok []
  | _ :: old, [] => rest ← dec_bytes [] old; Ok (zero_byte :: rest)
  | b :: old, j :: items => z ← dec_u8 j (byte_Z b); rest ← dec_bytes items old; Ok (Z_byte z :: rest)
  end.

Definition dec_sum (j : json) (old : array 32) : result (array 32) :=
  match j with
  | JNull => Ok old
  | JArray items =>
      l ← dec_bytes items (array_bytes old);
      match to_array 32 l with Some sum => Ok sum | None => Panic "array length" end
  | _ => Fail type_error
  end.

Definition assign_Ref (key : string) (v : json) (r : Ref) : result Ref :=
  if tagged key "store" then x ← dec_string v (ref_Store r); Ok (r <| ref_Store := x |>)
  else if tagged key "key" then x ← dec_string v (ref_Key r); Ok (r <| ref_Key := x |>)
  else if tagged key "content_type" then x ← dec_string v (ref_ContentType r); Ok (r <| ref_ContentType := x |>)
  else if tagged key "size" then x ← dec_i64 v (ref_Size r); Ok (r <| ref_Size := x |>)
  else if tagged key "stored_size" then x ← dec_i64 v (ref_StoredSize r); Ok (r <| ref_StoredSize := x |>)
  else if tagged key "sha256" then x ← dec_sum v (ref_SHA256 r); Ok (r <| ref_SHA256 := x |>)
  else if tagged key "compression" then x ← dec_string v (ref_Compression r); Ok (r <| ref_Compression := x |>)
  else if tagged key "retain_until" then x ← dec_time v (ref_RetainUntil r); Ok (r <| ref_RetainUntil := x |>)
  else if tagged key "retention_class" then x ← dec_string v (ref_RetentionClass r); Ok (r <| ref_RetentionClass := x |>)
  else Ok r.

Definition assign_Link (key : string) (v : json) (l : PayloadLink) : result PayloadLink :=
  if tagged key "Role" then x ← dec_string v (pl_Role l); Ok (l <| pl_Role := x |>)
  else if tagged key "Ref" then x ← dec_struct assign_Ref v (pl_Ref l); Ok (l <| pl_Ref := x |>)
  else if tagged key "OriginalSize" then x ← dec_i64 v (pl_OriginalSize l); Ok (l <| pl_OriginalSize := x |>)
  else if tagged key "CapturedSize" then x ← dec_i64 v (pl_CapturedSize l); Ok (l <| pl_CapturedSize := x |>)
  else if tagged key "Truncated" then x ← dec_bool v (pl_Truncated l); Ok (l <| pl_Truncated := x |>)
  else if tagged key "Error" then x ← dec_string v (pl_Error l); Ok (l <| pl_Error := x |>)
  else Ok l.

Definition unmarshal_Fields (data : bytes) : result (list wire_Field) :=
  j ← json_parse data; dec_slice (dec_struct assign_Field) Field_zero j [].
Definition unmarshal_Links (data : bytes) : result (list PayloadLink) :=
  j ← json_parse data; dec_slice (dec_struct assign_Link) (new_link "") j [].

(** ** Round trips *)

Definition text_ok (s : string) : Prop := utf8_valid (string_bytes s) = true.

(** A reference the encoder can write: sizes in range, texts valid, a printable time. *)
Definition ref_printable (r : Ref) : Prop :=
  in_s 64 (ref_Size r) /\ in_s 64 (ref_StoredSize r) /\ 0 <= year_of (ref_RetainUntil r) <= 9999 /\
  Forall text_ok [ref_Store r; ref_Key r; ref_ContentType r; ref_Compression r; ref_RetentionClass r].

Definition link_printable (l : PayloadLink) : Prop :=
  ref_printable (pl_Ref l) /\ in_s 64 (pl_OriginalSize l) /\ in_s 64 (pl_CapturedSize l) /\
  text_ok (pl_Role l) /\ text_ok (pl_Error l).

Definition field_printable (f : wire_Field) : Prop :=
  field_fits f /\ text_ok (wf_Key f) /\ text_ok (wf_Type f) /\ text_ok (wf_Text f).

Lemma dec_bytes_enc l old : length old = length l ->
  dec_bytes ((fun b => JInt (byte_Z b)) <$> l) old = Ok l.
Proof.
  revert old; induction l as [|b l IH]; intros [|o old] Hl; try done. cbn [fmap list_fmap dec_bytes].
  unfold dec_u8. rewrite (dec_u_ok 8) by apply byte_Z_range. cbn [mbind result_bind].
  rewrite IH by (simpl in Hl; lia). cbn [mbind result_bind]. by rewrite Z_byte_Z.
Qed.

Lemma dec_enc_sum sum old : dec_sum (enc_sum sum) old = Ok sum.
Proof.
  unfold enc_sum, dec_sum. rewrite dec_bytes_enc by (by rewrite !length_array).
  cbn [mbind result_bind]. by rewrite to_array_self.
Qed.

Lemma enc_time_ok t : 0 <= year_of t <= 9999 -> exists j, enc_time t = Ok j /\ json_ok j = true /\
  forall old, dec_time j old = Ok t.
Proof.
  intros Hy. unfold enc_time. replace (_ && _) with true by lia. eexists. split; [done|].
  split; [|intros old; eapply dec_enc_time; unfold enc_time; by replace (_ && _) with true by lia].
  cbn [json_ok]. rewrite String.list_ascii_of_string_of_list_ascii. by apply utf8_valid_ascii, format_ascii.
Qed.

(** Identifiers are written with ASCII letters and digits. *)
Lemma crockford_char_ascii d : between 0 127 (crockford_char d) = true.
Proof.
  unfold crockford_char. destruct (string_bytes crockfordAlphabet !! Z.to_nat d) as [c|] eqn:E; [|done]. cbn [default].
  assert (ascii_bytes (string_bytes crockfordAlphabet)) as HA by (by repeat constructor).
  by eapply Forall_lookup_1 in HA.
Qed.

Lemma encode_loop_ascii n x out : ascii_bytes out -> ascii_bytes (encode_loop n x out).
Proof. revert x out; induction n as [|n IH]; intros x out H; [done|]. apply IH. constructor; [apply crockford_char_ascii|done]. Qed.

Lemma utf8_valid_encodeID id : utf8_valid (string_bytes (encodeID id)) = true.
Proof.
  unfold encodeID. rewrite String.list_ascii_of_string_of_list_ascii. apply utf8_valid_ascii, encode_loop_ascii. by constructor.
Qed.

(** [tag_eval] decides which field a member name selects. *)
Ltac tag_eval :=
  repeat match goal with
  | |- context [tagged ?a ?b] => let v := eval vm_compute in (tagged a b) in change (tagged a b) with v
  end; cbv iota.

(** Members whose names and values can be printed. *)
Definition member_ok (m : string * json) : bool := let '(k, v) := m in utf8_valid (string_bytes k) && json_ok v.

Lemma json_ok_members ms : json_ok (JObject ms) = forallb member_ok ms.
Proof. done. Qed.

Lemma omit_string_ok key s : utf8_valid (string_bytes key) = true -> text_ok s ->
  forallb member_ok (omit_string key s) = true.
Proof.
  intros Hk Hs. unfold omit_string, omit. case_bool_decide; [done|]. cbn [forallb member_ok json_ok].
  unfold text_ok in Hs. by rewrite Hk, Hs.
Qed.

Lemma json_ok_sum sum : json_ok (enc_sum sum) = true.
Proof. unfold enc_sum. cbn [json_ok]. induction (array_bytes sum); [done|]. done. Qed.

Ltac members_ok :=
  repeat first
    [ reflexivity | assumption | apply json_ok_sum | apply omit_string_ok; [reflexivity|assumption]
    | rewrite forallb_app
    | match goal with |- _ && _ = true => apply andb_true_iff; split end
    | progress cbn [forallb member_ok json_ok] ].

(** Decoding one member, present or omitted; [tac] decodes the value. *)
Ltac read_member tac :=
  etransitivity;
  [ first
    [ eapply dec_members_cons; unfold assign_Ref, assign_Link; tag_eval; tac; reflexivity
    | unfold omit_string at 1; eapply dec_members_omit;
      [ unfold assign_Ref; tag_eval; reflexivity
      | intros ?%bool_decide_eq_true; subst; reflexivity ] ]
  | ].

Lemma dec_enc_Ref r : ref_printable r -> exists j, enc_Ref r = Ok j /\ json_ok j = true /\
  dec_struct assign_Ref j Ref_zero = Ok r.
Proof.
  intros (Hs & Hss & Hy & Ht). destruct r as [store key ctype size stored sum compression until class].
  cbn [ref_Size ref_StoredSize ref_RetainUntil ref_Store ref_Key ref_ContentType ref_Compression ref_RetentionClass] in *.
  rewrite !Forall_cons in Ht. destruct Ht as (H1 & H2 & H3 & H4 & H5 & _).
  unfold enc_Ref. cbn [ref_RetainUntil]. destruct (enc_time_ok until Hy) as (ts & -> & Hts & Hdec).
  cbn [mbind result_bind]. eexists. split; [reflexivity|].
  cbn [ref_Store ref_Key ref_ContentType ref_Size ref_StoredSize ref_SHA256 ref_Compression ref_RetentionClass].
  split.
  - rewrite json_ok_members. members_ok.
  - rewrite dec_struct_object.
    read_member idtac. read_member idtac. read_member idtac.
    read_member ltac:(rewrite dec_i64_ok by assumption).
    read_member ltac:(rewrite dec_i64_ok by assumption).
    read_member ltac:(rewrite dec_enc_sum). read_member idtac.
    read_member ltac:(rewrite Hdec). read_member idtac. reflexivity.
Qed.

Lemma dec_enc_Link l : link_printable l -> exists j, enc_Link l = Ok j /\ json_ok j = true /\
  dec_struct assign_Link j (new_link "") = Ok l.
Proof.
  intros (Hr & Ho & Hc & Ht & He). destruct l as [role ref original captured truncated err].
  cbn [pl_Ref pl_OriginalSize pl_CapturedSize pl_Role pl_Error] in *.
  unfold enc_Link. cbn [pl_Ref]. destruct (dec_enc_Ref ref Hr) as (j & -> & Hj & Hdec).
  cbn [mbind result_bind]. eexists. split; [reflexivity|].
  cbn [pl_Role pl_OriginalSize pl_CapturedSize pl_Truncated pl_Error]. split.
  - rewrite json_ok_members. members_ok.
  - rewrite dec_struct_object. read_member idtac.
    read_member ltac:(match goal with |- context [dec_struct assign_Ref ?v ?r0] => change r0 with Ref_zero end;
      rewrite Hdec).
    read_member ltac:(rewrite dec_i64_ok by assumption).
    read_member ltac:(rewrite dec_i64_ok by assumption).
    read_member idtac. read_member idtac. reflexivity.
Qed.

(** The links of a record survive their JSON text. *)
Lemma slice_json_ok items : Forall (fun j => json_ok j = true) items -> json_ok (slice_json items) = true.
Proof.
  intros H. destruct items as [|j items]; [done|]. cbn [slice_json json_ok]. apply forallb_forall.
  intros i Hi%list_elem_of_In. rewrite Forall_forall in H. by apply H.
Qed.

Lemma dec_slice_json {A} (dec : json -> A -> result A) zero items l :
  Forall2 (fun j a => dec j zero = Ok a) items l -> dec_slice dec zero (slice_json items) [] = Ok l.
Proof.
  intros H. assert (forall i, go_range_from (fun _ item => dec item zero) i items = Ok l) as Hr.
  { induction H as [|j a items l Hj _ IH]; intros i; [done|]. cbn [go_range_from]. rewrite Hj.
    cbn [mbind result_bind]. by rewrite IH. }
  destruct items as [|j items]; [|apply Hr]. apply Forall2_nil_inv_l in H as ->. done.
Qed.

Lemma unmarshal_marshal_Links ls : Forall link_printable ls ->
  exists data, marshal_Links ls = Ok data /\ unmarshal_Links data = Ok ls.
Proof.
  intros H. unfold marshal_Links.
  assert (exists js, go_range (fun _ l => enc_Link l) ls = Ok js /\ Forall (fun j => json_ok j = true) js /\
    Forall2 (fun j l => dec_struct assign_Link j (new_link "") = Ok l) js ls) as (js & -> & Hok & Hdec).
  { unfold go_range. generalize 0%nat. induction H as [|l ls Hl _ IH]; intros i; [by exists []|].
    destruct (dec_enc_Link l Hl) as (j & Hj & Hjok & Hjd). destruct (IH (S i)) as (js & Hjs & Hjsok & Hjsd).
    exists (j :: js). cbn [go_range_from]. rewrite Hj. cbn [mbind result_bind]. rewrite Hjs.
    split_and!; [done|by constructor|by constructor]. }
  cbn [mbind result_bind]. eexists. split; [reflexivity|]. unfold unmarshal_Links. rewrite json_parse_print.
  - cbn [mbind result_bind]. by apply dec_slice_json.
  - by apply slice_json_ok.
Qed.

Lemma enc_Field_ok f : text_ok (wf_Key f) -> text_ok (wf_Type f) -> text_ok (wf_Text f) -> json_ok (enc_Field f) = true.
Proof.
  unfold text_ok. intros H1 H2 H3. unfold enc_Field. rewrite json_ok_members. members_ok.
  unfold omit_int, omit. by case_match.
Qed.

Lemma unmarshal_marshal_Fields fs : Forall field_printable fs -> unmarshal_Fields (marshal_Fields fs) = Ok fs.
Proof.
  intros H. unfold unmarshal_Fields, marshal_Fields. rewrite json_parse_print.
  - cbn [mbind result_bind]. apply dec_slice_json, Forall2_fmap_l, Forall_Forall2_diag.
    eapply Forall_impl; [exact H|]. intros f [Hf _]. by apply dec_enc_Field.
  - apply slice_json_ok, Forall_fmap. eapply Forall_impl; [exact H|]. intros f (_ & ? & ? & ?). by apply enc_Field_ok.
Qed.
