(* ===== verification/ArchiveJson.v ===== *)
(** * The JSON of archives (src/archive/archive.go, src/storage/storage.go)

    An archive holds one JSON object per line and a manifest, written by
    [encoding/json] from the Go structs.  Here are the encodings of [EventRecord] and
    [Manifest], their decoding, and that nothing is lost: a written archive is read
    back record for record. *)

From S2P Require Import Prelude Ids Events GoLib GoText Json JsonText GoTime Wire Payload Storage LinkJson Archive Query.

(** ** Printed JSON is one line *)

Definition graphic (c : byte) : bool := 32 <=? byte_Z c.
Definition one_line (l : bytes) : Prop := Forall (fun c => graphic c = true) l.

Lemma one_line_check l : forallb graphic l = true -> one_line l.
Proof. intros H. apply Forall_forall. intros c Hc. rewrite forallb_forall in H. by apply H, list_elem_of_In. Qed.

Lemma escape_ascii_line c : one_line (escape_ascii c).
Proof. apply one_line_check. revert c. apply byte_forall. vm_compute. reflexivity. Qed.

(** The bytes of a longer UTF-8 sequence are above the ASCII range. *)
Lemma multi_line l n : utf8_len l = S (S n) -> one_line (take (S (S n)) l).
Proof.
  intros H. unfold one_line. destruct l as [|a [|b [|c [|d l]]]]; cbn in H; try done;
    repeat (match type of H with context [if ?x then _ else _] => destruct x eqn:? end; try done);
    injection H as <-; unfold cont, between, graphic in *; bool_cases; cbn [take];
    repeat (apply Forall_cons; split; [apply Z.leb_le; lia|]); apply Forall_nil; exact I.
Qed.

Lemma escape_rune_line l : utf8_len l <> 0%nat -> one_line (escape_rune (take (utf8_len l) l)).
Proof.
  intros Hn. destruct (utf8_len l) as [|[|n]] eqn:E; [done| |].
  - destruct (utf8_len_ascii l E) as (c & l' & -> & _). apply escape_ascii_line.
  - pose proof (multi_line l n E) as H. pose proof (utf8_len_take l [] ltac:(lia)) as [_ Hlen]. rewrite E in Hlen.
    assert (length (take (S (S n)) l) = S (S n)) as Hl by (rewrite length_take; lia).
    destruct (take (S (S n)) l) as [|a [|b r]]; try done. unfold escape_rune.
    repeat case_bool_decide; try exact H; by apply one_line_check.
Qed.

Lemma escape_line fuel l : one_line (escape_fuel fuel l).
Proof.
  revert l; induction fuel as [|fuel IH]; intros l; [by destruct l; constructor|].
  destruct l as [|c l]; [by constructor|]. cbn [escape_fuel].
  destruct (utf8_len (c :: l)) as [|n] eqn:E.
  - apply Forall_app. split; [by apply one_line_check|apply IH].
  - apply Forall_app. split; [|apply IH]. rewrite <- E. apply escape_rune_line. lia.
Qed.

Lemma print_string_line l : one_line (print_string l).
Proof. unfold print_string. repeat (apply Forall_app; split); [by apply one_line_check|apply escape_line|by apply one_line_check]. Qed.

Lemma digits_line l : Forall (fun c => is_digit c = true) l -> one_line l.
Proof. intros H. eapply Forall_impl; [exact H|]. intros c. unfold is_digit, graphic, between. intros. bool_cases. apply Z.leb_le. lia. Qed.

Lemma print_int_line z : one_line (print_int z).
Proof.
  unfold print_int. destruct (Z.ltb_spec z 0).
  - apply Forall_cons. split; [done|]. apply digits_line, print_nat_spec. lia.
  - by apply digits_line, print_nat_spec.
Qed.

Lemma join_comma_line parts : Forall one_line parts -> one_line (join_comma parts).
Proof.
  induction 1 as [|p parts Hp _ IH]; [by constructor|]. destruct parts as [|q parts]; [done|].
  change (join_comma (p :: q :: parts)) with (p ++ ","%char :: join_comma (q :: parts)).
  apply Forall_app. split; [done|]. by apply Forall_cons.
Qed.

(** Number literals hold no control character. *)
Fixpoint literals_ok (j : json) : bool :=
  match j with
  | JOther literal => forallb graphic (string_bytes literal)
  | JArray items => forallb literals_ok items
  | JObject members => forallb (fun '(_, v) => literals_ok v) members
  | _ => true
  end.

Lemma json_ok_literals j : json_ok j = true -> literals_ok j = true.
Proof.
  induction j as [j Hj|items IH|ms IH] using json_induction; [by destruct j| |]; cbn [json_ok literals_ok];
    rewrite !forallb_forall; intros Hok x Hx; rewrite Forall_forall in IH; specialize (IH x); rewrite list_elem_of_In in IH.
  - by apply IH, Hok.
  - destruct x as [k v]. specialize (Hok _ Hx). apply andb_true_iff in Hok as [_ Hv]. by apply IH.
Qed.

Lemma literals_print_line j : literals_ok j = true -> one_line (json_print j).
Proof.
  induction j as [j Hj|items IH|ms IH] using json_induction; intros Hok.
  - destruct j as [|[]|z|lit|s| |]; try done; first [by apply one_line_check | apply print_int_line | apply print_string_line].
  - change (json_print (JArray items)) with (["["]%char ++ join_comma (json_print <$> items) ++ ["]"]%char).
    repeat (apply Forall_app; split); [by apply one_line_check| |by apply one_line_check].
    apply join_comma_line, Forall_fmap, Forall_forall. intros j Hj. rewrite Forall_forall in IH. apply (IH j Hj).
    cbn [literals_ok] in Hok. rewrite forallb_forall in Hok. by apply Hok, list_elem_of_In.
  - rewrite json_print_object. repeat (apply Forall_app; split); [by apply one_line_check| |by apply one_line_check].
    apply join_comma_line, Forall_fmap, Forall_forall. intros [k j] Hj. unfold compose, print_member. cbn [fst snd].
    apply Forall_app. split; [apply print_string_line|]. apply Forall_cons. split; [done|].
    rewrite Forall_forall in IH. apply (IH _ Hj). cbn [literals_ok] in Hok. rewrite forallb_forall in Hok.
    apply list_elem_of_In in Hj. exact (Hok _ Hj).
Qed.

Lemma json_print_line j : json_ok j = true -> one_line (json_print j).
Proof. intros H. by apply literals_print_line, json_ok_literals. Qed.

Lemma one_line_safe l : one_line l -> line_safe l.
Proof.
  intros H. unfold one_line in H. rewrite Forall_forall in H. split.
  - intros Hn. by apply H in Hn.
  - unfold drop_cr. destruct (rev l) as [|c r] eqn:E; [done|]. destruct (Ascii.eqb_spec c "013"%char) as [->|]; [|done].
    assert ("013"%char ∈ l) as Hin by (rewrite <- (rev_involutive l), E; apply list_elem_of_In, in_rev; rewrite rev_involutive; by left).
    by apply H in Hin.
Qed.

(** ** Records *)

(** Identifiers are text marshalers. *)
Definition enc_id (id : id16) : json := JString (bytes_string (MarshalText id)).
Definition dec_id (j : json) (old : id16) : result id16 :=
  match j with
  | JNull => Ok old
  | JString s => match UnmarshalText old (string_bytes s) with (id, None) => Ok id | (_, Some e) => Fail e end
  | _ => Fail type_error
  end.

Definition enc_Scope (s : Scope) : json := JObject [("type", JString (sc_Type s)); ("id", JString (sc_ID s))].
Definition assign_Scope (key : string) (v : json) (s : Scope) : result Scope :=
  if tagged key "type" then x ← dec_string v (sc_Type s); Ok (s <| sc_Type := x |>)
  else if tagged key "id" then x ← dec_string v (sc_ID s); Ok (s <| sc_ID := x |>)
  else Ok s.

Definition enc_HTTP (h : HTTPRecord) : json :=
  JObject [
    ("Method", JString (h_Method h)); ("Scheme", JString (h_Scheme h)); ("Host", JString (h_Host h));
    ("Path", JString (h_Path h)); ("StatusCode", JInt (h_StatusCode h)); ("Duration", JInt (h_Duration h));
    ("Success", JBool (h_Success h)); ("RequestSize", JInt (h_RequestSize h)); ("ResponseSize", JInt (h_ResponseSize h));
    ("RequestPreview", JString (h_RequestPreview h)); ("ResponsePreview", JString (h_ResponsePreview h))].
Definition assign_HTTP (key : string) (v : json) (h : HTTPRecord) : result HTTPRecord :=
  if tagged key "Method" then x ← dec_string v (h_Method h); Ok (h <| h_Method := x |>)
  else if tagged key "Scheme" then x ← dec_string v (h_Scheme h); Ok (h <| h_Scheme := x |>)
  else if tagged key "Host" then x ← dec_string v (h_Host h); Ok (h <| h_Host := x |>)
  else if tagged key "Path" then x ← dec_string v (h_Path h); Ok (h <| h_Path := x |>)
  else if tagged key "StatusCode" then x ← dec_i64 v (h_StatusCode h); Ok (h <| h_StatusCode := x |>)
  else if tagged key "Duration" then x ← dec_i64 v (h_Duration h); Ok (h <| h_Duration := x |>)
  else if tagged key "Success" then x ← dec_bool v (h_Success h); Ok (h <| h_Success := x |>)
  else if tagged key "RequestSize" then x ← dec_i64 v (h_RequestSize h); Ok (h <| h_RequestSize := x |>)
  else if tagged key "ResponseSize" then x ← dec_i64 v (h_ResponseSize h); Ok (h <| h_ResponseSize := x |>)
  else if tagged key "RequestPreview" then x ← dec_string v (h_RequestPreview h); Ok (h <| h_RequestPreview := x |>)
  else if tagged key "ResponsePreview" then x ← dec_string v (h_ResponsePreview h); Ok (h <| h_ResponsePreview := x |>)
  else Ok h.

Definition enc_Delivery (d : Delivery) : result json :=
  received ← enc_time (d_ReceivedAt d);
  Ok (JObject [
    ("Stream", JString (d_Stream d)); ("Consumer", JString (d_Consumer d)); ("StreamSequence", JInt (d_StreamSequence d));
    ("ConsumerSequence", JInt (d_ConsumerSequence d)); ("Delivered", JInt (d_Delivered d)); ("ReceivedAt", received)]).
Definition assign_Delivery (key : string) (v : json) (d : Delivery) : result Delivery :=
  if tagged key "Stream" then x ← dec_string v (d_Stream d); Ok (d <| d_Stream := x |>)
  else if tagged key "Consumer" then x ← dec_string v (d_Consumer d); Ok (d <| d_Consumer := x |>)
  else if tagged key "StreamSequence" then x ← dec_u64 v (d_StreamSequence d); Ok (d <| d_StreamSequence := x |>)
  else if tagged key "ConsumerSequence" then x ← dec_u64 v (d_ConsumerSequence d); Ok (d <| d_ConsumerSequence := x |>)
  else if tagged key "Delivered" then x ← dec_u64 v (d_Delivered d); Ok (d <| d_Delivered := x |>)
  else if tagged key "ReceivedAt" then x ← dec_time v (d_ReceivedAt d); Ok (d <| d_ReceivedAt := x |>)
  else Ok d.

Definition enc_EventRecord (e : EventRecord) : result json :=
  at_ ← enc_time (er_Timestamp e);
  payloads ← go_range (fun _ l => enc_Link l) (er_Payloads e);
  delivery ← enc_Delivery (er_Delivery e);
  Ok (JObject [
    ("ID", enc_id (er_ID e)); ("Timestamp", at_); ("Kind", JString (er_Kind e)); ("Level", JInt (er_Level e));
    ("FlowID", enc_id (er_FlowID e)); ("ExecutionID", enc_id (er_ExecutionID e));
    ("ParentExecutionID", enc_id (er_ParentExecutionID e)); ("RetryOfExecutionID", enc_id (er_RetryOfExecutionID e));
    ("ExecutionAttempt", JInt (er_ExecutionAttempt e)); ("ExecutionSource", JString (er_ExecutionSource e));
    ("Scope", enc_Scope (er_Scope e)); ("EntityType", JString (er_EntityType e)); ("EntityID", JString (er_EntityID e));
    ("ParentID", enc_id (er_ParentID e)); ("Fields", slice_json (enc_Field <$> er_Fields e));
    ("FlowStatus", JString (er_FlowStatus e)); ("ExecutionStatus", JString (er_ExecutionStatus e));
    ("ExecutionKind", JString (er_ExecutionKind e)); ("RetentionClass", JString (er_RetentionClass e));
    ("Provider", JString (er_Provider e)); ("HasError", JBool (er_HasError e)); ("HTTP", enc_HTTP (er_HTTP e));
    ("Payloads", slice_json payloads); ("BatchID", enc_id (er_BatchID e)); ("Metadata", enc_Metadata (er_Metadata e));
    ("Delivery", delivery)]).
Definition assign_EventRecord (key : string) (v : json) (e : EventRecord) : result EventRecord :=
  if tagged key "ID" then x ← dec_id v (er_ID e); Ok (e <| er_ID := x |>)
  else if tagged key "Timestamp" then x ← dec_time v (er_Timestamp e); Ok (e <| er_Timestamp := x |>)
  else if tagged key "Kind" then x ← dec_string v (er_Kind e); Ok (e <| er_Kind := x |>)
  else if tagged key "Level" then x ← dec_u8 v (er_Level e); Ok (e <| er_Level := x |>)
  else if tagged key "FlowID" then x ← dec_id v (er_FlowID e); Ok (e <| er_FlowID := x |>)
  else if tagged key "ExecutionID" then x ← dec_id v (er_ExecutionID e); Ok (e <| er_ExecutionID := x |>)
  else if tagged key "ParentExecutionID" then x ← dec_id v (er_ParentExecutionID e); Ok (e <| er_ParentExecutionID := x |>)
  else if tagged key "RetryOfExecutionID" then x ← dec_id v (er_RetryOfExecutionID e); Ok (e <| er_RetryOfExecutionID := x |>)
  else if tagged key "ExecutionAttempt" then x ← dec_u32 v (er_ExecutionAttempt e); Ok (e <| er_ExecutionAttempt := x |>)
  else if tagged key "ExecutionSource" then x ← dec_string v (er_ExecutionSource e); Ok (e <| er_ExecutionSource := x |>)
  else if tagged key "Scope" then x ← dec_struct assign_Scope v (er_Scope e); Ok (e <| er_Scope := x |>)
  else if tagged key "EntityType" then x ← dec_string v (er_EntityType e); Ok (e <| er_EntityType := x |>)
  else if tagged key "EntityID" then x ← dec_string v (er_EntityID e); Ok (e <| er_EntityID := x |>)
  else if tagged key "ParentID" then x ← dec_id v (er_ParentID e); Ok (e <| er_ParentID := x |>)
  else if tagged key "Fields" then
    x ← dec_slice (dec_struct assign_Field) Field_zero v (er_Fields e); Ok (e <| er_Fields := x |>)
  else if tagged key "FlowStatus" then x ← dec_string v (er_FlowStatus e); Ok (e <| er_FlowStatus := x |>)
  else if tagged key "ExecutionStatus" then x ← dec_string v (er_ExecutionStatus e); Ok (e <| er_ExecutionStatus := x |>)
  else if tagged key "ExecutionKind" then x ← dec_string v (er_ExecutionKind e); Ok (e <| er_ExecutionKind := x |>)
  else if tagged key "RetentionClass" then x ← dec_string v (er_RetentionClass e); Ok (e <| er_RetentionClass := x |>)
  else if tagged key "Provider" then x ← dec_string v (er_Provider e); Ok (e <| er_Provider := x |>)
  else if tagged key "HasError" then x ← dec_bool v (er_HasError e); Ok (e <| er_HasError := x |>)
  else if tagged key "HTTP" then x ← dec_struct assign_HTTP v (er_HTTP e); Ok (e <| er_HTTP := x |>)
  else if tagged key "Payloads" then
    x ← dec_slice (dec_struct assign_Link) (new_link "") v (er_Payloads e); Ok (e <| er_Payloads := x |>)
  else if tagged key "BatchID" then x ← dec_id v (er_BatchID e); Ok (e <| er_BatchID := x |>)
  else if tagged key "Metadata" then x ← dec_struct assign_Metadata v (er_Metadata e); Ok (e <| er_Metadata := x |>)
  else if tagged key "Delivery" then x ← dec_struct assign_Delivery v (er_Delivery e); Ok (e <| er_Delivery := x |>)
  else Ok e.

Definition marshal_record (e : EventRecord) : result bytes := j ← enc_EventRecord e; Ok (json_print j).
Definition unmarshal_record (line : bytes) : result EventRecord :=
  j ← json_parse line; dec_struct assign_EventRecord j EventRecord_zero.

(** ** Manifests *)

Definition enc_PayloadEntry (p : PayloadEntry) : result json :=
  source ← enc_Ref (pe_Source p);
  archive ← enc_Ref (pe_Archive p);
  Ok (JObject [("source", source); ("archive", archive)]).
Definition assign_PayloadEntry (key : string) (v : json) (p : PayloadEntry) : result PayloadEntry :=
  if tagged key "source" then x ← dec_struct assign_Ref v (pe_Source p); Ok (mkPayloadEntry x (pe_Archive p))
  else if tagged key "archive" then x ← dec_struct assign_Ref v (pe_Archive p); Ok (mkPayloadEntry (pe_Source p) x)
  else Ok p.

Definition enc_Manifest (m : Manifest) : result json :=
  created ← enc_time (mf_CreatedAt m);
  events ← enc_Ref (mf_Events m);
  payloads ← go_range (fun _ p => enc_PayloadEntry p) (mf_Payloads m);
  Ok (JObject (
    ("version", JString (mf_Version m)) :: ("id", JString (mf_ID m)) :: ("created_at", created) ::
    ("event_count", JInt (mf_EventCount m)) :: ("event_ids", slice_json (JString <$> mf_EventIDs m)) ::
    ("events", events) :: omit (match payloads with [] => true | _ => false end) "payloads" (JArray payloads) ++ [])).
Definition assign_Manifest (key : string) (v : json) (m : Manifest) : result Manifest :=
  if tagged key "version" then x ← dec_string v (mf_Version m); Ok (m <| mf_Version := x |>)
  else if tagged key "id" then x ← dec_string v (mf_ID m); Ok (m <| mf_ID := x |>)
  else if tagged key "created_at" then x ← dec_time v (mf_CreatedAt m); Ok (m <| mf_CreatedAt := x |>)
  else if tagged key "event_count" then x ← dec_i64 v (mf_EventCount m); Ok (m <| mf_EventCount := x |>)
  else if tagged key "event_ids" then x ← dec_slice dec_string "" v (mf_EventIDs m); Ok (m <| mf_EventIDs := x |>)
  else if tagged key "events" then x ← dec_struct assign_Ref v (mf_Events m); Ok (m <| mf_Events := x |>)
  else if tagged key "payloads" then
    x ← dec_slice (dec_struct assign_PayloadEntry) (mkPayloadEntry Ref_zero Ref_zero) v (mf_Payloads m);
    Ok (m <| mf_Payloads := x |>)
  else Ok m.

Definition Manifest_zero : Manifest := mkManifest "" "" time_zero 0 [] Ref_zero [].
Definition marshal_manifest (m : Manifest) : result bytes := j ← enc_Manifest m; Ok (json_print j).
Definition unmarshal_manifest (data : bytes) : result Manifest :=
  j ← json_parse data; dec_struct assign_Manifest j Manifest_zero.

(** ** Round trips *)

(** Decoding one member of a struct whose [assign] is unfolded; [tac] decodes its value. *)
Ltac read_with unfolding tac :=
  etransitivity; [eapply dec_members_cons; unfolding; tag_eval; tac; cbn [mbind result_bind]; reflexivity|].

(** The destination of a nested value still holds its zero value. *)
Ltac from_zero z :=
  match goal with
  | |- context [dec_struct ?a ?v ?old] => change old with z
  | |- context [dec_slice ?d ?z0 ?v ?old] => change old with z
  end.

Lemma dec_enc_id id old : dec_id (enc_id id) old = Ok id.
Proof.
  unfold dec_id, enc_id. rewrite String.list_ascii_of_string_of_list_ascii. unfold UnmarshalText, MarshalText, String_.
  by rewrite String.string_of_list_ascii_of_string, decode_encode.
Qed.

Lemma json_ok_id id : json_ok (enc_id id) = true.
Proof.
  unfold enc_id, MarshalText, String_. cbn [json_ok]. rewrite String.string_of_list_ascii_of_string. apply utf8_valid_encodeID.
Qed.

Lemma dec_enc_Scope s : dec_struct assign_Scope (enc_Scope s) Scope_zero = Ok s.
Proof. by destruct s. Qed.

(** What the Go types and the encoder ask of a record. *)
Definition http_printable (h : HTTPRecord) : Prop :=
  in_s 64 (h_StatusCode h) /\ in_s 64 (h_Duration h) /\ in_s 64 (h_RequestSize h) /\ in_s 64 (h_ResponseSize h) /\
  Forall text_ok [h_Method h; h_Scheme h; h_Host h; h_Path h; h_RequestPreview h; h_ResponsePreview h].
Definition delivery_printable (d : Delivery) : Prop :=
  in_u 64 (d_StreamSequence d) /\ in_u 64 (d_ConsumerSequence d) /\ in_u 64 (d_Delivered d) /\
  0 <= year_of (d_ReceivedAt d) <= 9999 /\ Forall text_ok [d_Stream d; d_Consumer d].
Definition record_printable (e : EventRecord) : Prop :=
  0 <= year_of (er_Timestamp e) <= 9999 /\ in_u 8 (er_Level e) /\ in_u 32 (er_ExecutionAttempt e) /\
  Forall field_printable (er_Fields e) /\ Forall link_printable (er_Payloads e) /\
  http_printable (er_HTTP e) /\ delivery_printable (er_Delivery e) /\
  Forall text_ok [er_Kind e; er_ExecutionSource e; sc_Type (er_Scope e); sc_ID (er_Scope e); er_EntityType e;
    er_EntityID e; er_FlowStatus e; er_ExecutionStatus e; er_ExecutionKind e; er_RetentionClass e; er_Provider e;
    md_Service (er_Metadata e); md_Environment (er_Metadata e); md_Version (er_Metadata e)].

Lemma dec_enc_HTTP h : http_printable h ->
  json_ok (enc_HTTP h) = true /\ dec_struct assign_HTTP (enc_HTTP h) (mkHTTPRecord "" "" "" "" 0 0 false 0 0 "" "") = Ok h.
Proof.
  intros (H1 & H2 & H3 & H4 & Ht). destruct h as [method scheme host path status duration success reqsize respsize req resp].
  cbn [h_Method h_Scheme h_Host h_Path h_StatusCode h_Duration h_RequestSize h_ResponseSize h_RequestPreview h_ResponsePreview] in *.
  rewrite !Forall_cons in Ht. destruct Ht as (T1 & T2 & T3 & T4 & T5 & T6 & _). split.
  - unfold enc_HTTP. rewrite json_ok_members. members_ok.
  - unfold enc_HTTP. rewrite dec_struct_object.
    do 4 read_with ltac:(unfold assign_HTTP) idtac.
    do 2 read_with ltac:(unfold assign_HTTP) ltac:(rewrite dec_i64_ok by assumption).
    read_with ltac:(unfold assign_HTTP) idtac.
    do 2 read_with ltac:(unfold assign_HTTP) ltac:(rewrite dec_i64_ok by assumption).
    do 2 read_with ltac:(unfold assign_HTTP) idtac. reflexivity.
Qed.

Lemma dec_enc_Delivery d : delivery_printable d -> exists j, enc_Delivery d = Ok j /\ json_ok j = true /\
  dec_struct assign_Delivery j Delivery_zero = Ok d.
Proof.
  intros (H1 & H2 & H3 & Hy & Ht). destruct d as [stream consumer sseq cseq delivered received].
  cbn [d_Stream d_Consumer d_StreamSequence d_ConsumerSequence d_Delivered d_ReceivedAt] in *.
  rewrite !Forall_cons in Ht. destruct Ht as (T1 & T2 & _). unfold enc_Delivery. cbn [d_ReceivedAt].
  destruct (enc_time_ok received Hy) as (ts & -> & Hts & Hdec). cbn [mbind result_bind]. eexists. split; [reflexivity|].
  cbn [d_Stream d_Consumer d_StreamSequence d_ConsumerSequence d_Delivered]. split.
  - rewrite json_ok_members. members_ok.
  - rewrite dec_struct_object. do 2 read_with ltac:(unfold assign_Delivery) idtac.
    do 3 read_with ltac:(unfold assign_Delivery, dec_u64) ltac:(rewrite (dec_u_ok 64) by assumption).
    read_with ltac:(unfold assign_Delivery) ltac:(rewrite Hdec). reflexivity.
Qed.

(** A slice of encoded values that decode again. *)
Lemma go_range_encodes {A} (enc : A -> result json) (dec : json -> A -> result A) zero l :
  Forall (fun a => exists j, enc a = Ok j /\ json_ok j = true /\ dec j zero = Ok a) l ->
  exists js, go_range (fun _ a => enc a) l = Ok js /\ Forall (fun j => json_ok j = true) js /\
    Forall2 (fun j a => dec j zero = Ok a) js l.
Proof.
  intros H. unfold go_range. generalize 0%nat. induction H as [|a l (j & Hj & Hok & Hd) _ IH]; intros i; [by exists []|].
  destruct (IH (S i)) as (js & Hjs & Hjok & Hjd). exists (j :: js). cbn [go_range_from]. rewrite Hj.
  cbn [mbind result_bind]. rewrite Hjs. split_and!; [done|by constructor|by constructor].
Qed.

Lemma dec_enc_EventRecord e : record_printable e -> exists j, enc_EventRecord e = Ok j /\ json_ok j = true /\
  dec_struct assign_EventRecord j EventRecord_zero = Ok e.
Proof.
  intros (Hy & Hlv & Hat & Hf & Hl & Hh & Hd & Ht).
  destruct e as [id at_ kind level flow exec pexec retry attempt source scope etype eid parent fields fstatus xstatus xkind
    class provider haserr http payloads batch meta delivery].
  cbn [er_Timestamp er_Level er_ExecutionAttempt er_Fields er_Payloads er_HTTP er_Delivery er_Kind er_ExecutionSource er_Scope
    er_EntityType er_EntityID er_FlowStatus er_ExecutionStatus er_ExecutionKind er_RetentionClass er_Provider er_Metadata] in *.
  rewrite !Forall_cons in Ht. destruct Ht as (T1 & T2 & T3 & T4 & T5 & T6 & T7 & T8 & T9 & T10 & T11 & T12 & T13 & T14 & _).
  unfold enc_EventRecord. cbn [er_Timestamp er_Payloads er_Delivery].
  destruct (enc_time_ok at_ Hy) as (ts & -> & Hts & Hdts).
  destruct (go_range_encodes enc_Link (dec_struct assign_Link) (new_link "") payloads) as (js & -> & Hjs & Hdjs).
  { eapply Forall_impl; [exact Hl|]. apply dec_enc_Link. }
  destruct (dec_enc_Delivery delivery Hd) as (jd & -> & Hjd & Hdjd). cbn [mbind result_bind].
  destruct (dec_enc_HTTP http Hh) as [Hokh Hdh].
  assert (json_ok (slice_json (enc_Field <$> fields)) = true) as Hokf.
  { apply slice_json_ok, Forall_fmap. eapply Forall_impl; [exact Hf|]. intros f (_ & ? & ? & ?). by apply enc_Field_ok. }
  assert (dec_slice (dec_struct assign_Field) Field_zero (slice_json (enc_Field <$> fields)) [] = Ok fields) as Hdf.
  { apply dec_slice_json, Forall2_fmap_l, Forall_Forall2_diag. eapply Forall_impl; [exact Hf|]. intros f [? _]. by apply dec_enc_Field. }
  pose proof (slice_json_ok js Hjs) as Hokp. pose proof (dec_slice_json _ _ _ _ Hdjs) as Hdp.
  pose proof json_ok_id as Hid. eexists. split; [reflexivity|].
  cbn [er_ID er_Kind er_Level er_FlowID er_ExecutionID er_ParentExecutionID er_RetryOfExecutionID er_ExecutionAttempt
    er_ExecutionSource er_Scope er_EntityType er_EntityID er_ParentID er_Fields er_FlowStatus er_ExecutionStatus er_ExecutionKind
    er_RetentionClass er_Provider er_HasError er_HTTP er_BatchID er_Metadata]. split.
  - rewrite json_ok_members. unfold enc_Scope, enc_Metadata. unfold text_ok in *. members_ok; apply Hid.
  - rewrite dec_struct_object. unfold EventRecord_zero.
    read_with ltac:(unfold assign_EventRecord) ltac:(rewrite dec_enc_id).
    read_with ltac:(unfold assign_EventRecord) ltac:(rewrite Hdts).
    read_with ltac:(unfold assign_EventRecord) idtac.
    read_with ltac:(unfold assign_EventRecord, dec_u8) ltac:(rewrite (dec_u_ok 8) by assumption).
    do 4 read_with ltac:(unfold assign_EventRecord) ltac:(rewrite dec_enc_id).
    read_with ltac:(unfold assign_EventRecord, dec_u32) ltac:(rewrite (dec_u_ok 32) by assumption).
    read_with ltac:(unfold assign_EventRecord) idtac.
    read_with ltac:(unfold assign_EventRecord) ltac:(from_zero Scope_zero; rewrite dec_enc_Scope).
    do 2 read_with ltac:(unfold assign_EventRecord) idtac.
    read_with ltac:(unfold assign_EventRecord) ltac:(rewrite dec_enc_id).
    read_with ltac:(unfold assign_EventRecord) ltac:(from_zero (@nil wire_Field); rewrite Hdf).
    do 6 read_with ltac:(unfold assign_EventRecord) idtac.
    read_with ltac:(unfold assign_EventRecord) ltac:(from_zero (mkHTTPRecord "" "" "" "" 0 0 false 0 0 "" ""); rewrite Hdh).
    read_with ltac:(unfold assign_EventRecord) ltac:(from_zero (@nil PayloadLink); rewrite Hdp).
    read_with ltac:(unfold assign_EventRecord) ltac:(rewrite dec_enc_id).
    read_with ltac:(unfold assign_EventRecord) ltac:(from_zero Metadata_zero; rewrite dec_enc_Metadata).
    read_with ltac:(unfold assign_EventRecord) ltac:(from_zero Delivery_zero; rewrite Hdjd). reflexivity.
Qed.

(** A line of the archive. *)
Lemma marshal_record_line e : record_printable e -> exists line, marshal_record e = Ok line /\ line_safe line /\
  unmarshal_record line = Ok e.
Proof.
  intros H. destruct (dec_enc_EventRecord e H) as (j & Hj & Hok & Hd). exists (json_print j). unfold marshal_record, unmarshal_record.
  rewrite Hj. cbn [mbind result_bind]. rewrite json_parse_print by done. cbn [mbind result_bind].
  split_and!; [done|by apply one_line_safe, json_print_line|done].
Qed.

(** *** Manifests *)

Definition manifest_printable (m : Manifest) : Prop :=
  0 <= year_of (mf_CreatedAt m) <= 9999 /\ in_s 64 (mf_EventCount m) /\ ref_printable (mf_Events m) /\
  Forall (fun p => ref_printable (pe_Source p) /\ ref_printable (pe_Archive p)) (mf_Payloads m) /\
  Forall text_ok (mf_Version m :: mf_ID m :: mf_EventIDs m).

Lemma dec_enc_PayloadEntry p : ref_printable (pe_Source p) -> ref_printable (pe_Archive p) ->
  exists j, enc_PayloadEntry p = Ok j /\ json_ok j = true /\
    dec_struct assign_PayloadEntry j (mkPayloadEntry Ref_zero Ref_zero) = Ok p.
Proof.
  intros Hs Ha. destruct p as [source archive]. cbn [pe_Source pe_Archive] in *. unfold enc_PayloadEntry. cbn [pe_Source pe_Archive].
  destruct (dec_enc_Ref source Hs) as (j1 & -> & Hok1 & Hd1). destruct (dec_enc_Ref archive Ha) as (j2 & -> & Hok2 & Hd2).
  cbn [mbind result_bind]. eexists. split; [reflexivity|]. split.
  - rewrite json_ok_members. members_ok.
  - rewrite dec_struct_object. read_with ltac:(unfold assign_PayloadEntry) ltac:(from_zero Ref_zero; rewrite Hd1).
    read_with ltac:(unfold assign_PayloadEntry) ltac:(from_zero Ref_zero; rewrite Hd2). reflexivity.
Qed.

Lemma dec_enc_Manifest m : manifest_printable m -> exists j, enc_Manifest m = Ok j /\ json_ok j = true /\
  dec_struct assign_Manifest j Manifest_zero = Ok m.
Proof.
  intros (Hy & Hc & He & Hp & Ht). destruct m as [version id created count ids events payloads].
  cbn [mf_CreatedAt mf_EventCount mf_Events mf_Payloads mf_Version mf_ID mf_EventIDs] in *.
  rewrite !Forall_cons in Ht. destruct Ht as (T1 & T2 & Tids). unfold enc_Manifest. cbn [mf_CreatedAt mf_Events mf_Payloads].
  destruct (enc_time_ok created Hy) as (ts & -> & Hts & Hdts). destruct (dec_enc_Ref events He) as (je & -> & Hje & Hdje).
  destruct (go_range_encodes enc_PayloadEntry (dec_struct assign_PayloadEntry) (mkPayloadEntry Ref_zero Ref_zero) payloads)
    as (js & -> & Hjs & Hdjs).
  { eapply Forall_impl; [exact Hp|]. intros p [? ?]. by apply dec_enc_PayloadEntry. }
  assert (json_ok (slice_json (JString <$> ids)) = true) as Hoki by (by apply slice_json_ok, Forall_fmap).
  assert (dec_slice dec_string "" (slice_json (JString <$> ids)) [] = Ok ids) as Hdi.
  { apply dec_slice_json, Forall2_fmap_l, Forall_Forall2_diag, Forall_true. done. }
  cbn [mbind result_bind]. eexists. split; [reflexivity|]. cbn [mf_Version mf_ID mf_EventCount mf_EventIDs]. split.
  - rewrite json_ok_members. members_ok. unfold omit. destruct js as [|j js]; [done|]. cbn [forallb member_ok].
    change (json_ok (JArray (j :: js))) with (json_ok (slice_json (j :: js))). by rewrite slice_json_ok.
  - rewrite dec_struct_object. unfold Manifest_zero. do 2 read_with ltac:(unfold assign_Manifest) idtac.
    read_with ltac:(unfold assign_Manifest) ltac:(rewrite Hdts).
    read_with ltac:(unfold assign_Manifest) ltac:(rewrite dec_i64_ok by assumption).
    read_with ltac:(unfold assign_Manifest) ltac:(from_zero (@nil string); rewrite Hdi).
    read_with ltac:(unfold assign_Manifest) ltac:(from_zero Ref_zero; rewrite Hdje).
    pose proof (dec_slice_json _ _ _ _ Hdjs) as Hd. destruct js as [|j js].
    + apply Forall2_nil_inv_l in Hdjs as ->. reflexivity.
    + cbn [omit app]. cbn [slice_json] in Hd.
      read_with ltac:(unfold assign_Manifest) ltac:(from_zero (@nil PayloadEntry); rewrite Hd). reflexivity.
Qed.

Lemma unmarshal_marshal_manifest m : manifest_printable m -> exists data, marshal_manifest m = Ok data /\ unmarshal_manifest data = Ok m.
Proof.
  intros H. destruct (dec_enc_Manifest m H) as (j & Hj & Hok & Hd). exists (json_print j). unfold marshal_manifest, unmarshal_manifest.
  rewrite Hj. cbn [mbind result_bind]. by rewrite json_parse_print.
Qed.

(** ** Archives are read back *)

Section Properties.
Context {W : Type} (sha256 : bytes -> array 32) (gunzip : bytes -> result bytes).
Context (archive : PayloadStore W) (sources : gmap string (PayloadStore W)).
Context `{!StoreContract sha256 gunzip archive}.
Context (Hsources : forall name source ref, sources !! name = Some source -> spares archive (ps_Open source ref)).

(** Values JSON can write: the manifest within the 16 MiB the reader accepts, each
    record below the scanner's 16 MiB. *)
Definition readable (manifest : Manifest) (events : list EventRecord) : Prop :=
  manifest_printable manifest /\ Forall record_printable events /\
  (forall data, marshal_manifest manifest = Ok data -> Z.of_nat (length data) <= manifest_limit) /\
  Forall (fun e => forall line, marshal_record e = Ok line -> Z.of_nat (length line) < max_token) events.

(** The texts of the manifest and of the events are the only ones with their
    checksums. *)
Definition texts_only (manifest : Manifest) (events : list EventRecord) : Prop :=
  (forall data, marshal_manifest manifest = Ok data -> only_content sha256 data) /\
  (forall data, event_data marshal_record events = Ok data -> only_content sha256 data).

Lemma readable_lines manifest events :
  readable manifest events -> exists lines, Forall2 (line_of marshal_record unmarshal_record) events lines.
Proof.
  intros (_ & Hr & _ & Hlen). induction Hr as [|e events He _ IH]; [by exists []|]. apply Forall_cons in Hlen as [Hle Hlen].
  destruct (IH Hlen) as [lines Hlines]. destruct (marshal_record_line e He) as (line & H1 & H2 & H3).
  exists (line :: lines). constructor; [|done]. split_and!; auto.
Qed.

(** An archive that was written can be read back, in every later world in which
    nothing was deleted from it: the manifest reference leads to the manifest of the
    receipt, and any bounded read returns exactly the requested slice of the archived
    events, every field of them, in order, with the completeness flag set exactly when
    the slice reaches the end.  Reading fails only when the store fails to open the
    object, and then with the store's error.  The records are of values JSON can write
    and of the sizes the reader accepts, and no other text has the checksum of the
    manifest or of the events. *)
Lemma written_readback (ctx : nat -> option error) (now : Z) (events : list EventRecord)
    (w w1 w' : W) (receipt : Receipt) (offset limit : Z) :
  (forall i, ctx i = None) -> sc_ok archive w ->
  Write sha256 gunzip marshal_record marshal_manifest archive sources now events w = (w1, Ok receipt) ->
  later archive w1 w' -> readable (rc_Manifest receipt) events -> texts_only (rc_Manifest receipt) events ->
  0 <= offset -> 1 <= limit <= 10000 ->
  let chunk := take (Z.to_nat limit) (drop (Z.to_nat offset) events) in
  ReadManifest sha256 unmarshal_manifest archive (rc_ManifestRef receipt) w' =
    when_opened (ps_Open archive (rc_ManifestRef receipt) w') (rc_Manifest receipt) /\
  ReadEvents sha256 gunzip unmarshal_record ctx archive (rc_Manifest receipt) offset limit w' =
    when_opened (ps_Open archive (mf_Events (rc_Manifest receipt)) w')
      (chunk, Z.of_nat (length events) <=? offset + Z.of_nat (length chunk)).
Proof.
  intros Hctx Hw Hwrite Hl Hr [Hum Hue] Hoff Hlim. destruct (readable_lines _ _ Hr) as [lines Hlines].
  destruct Hr as (Hm & _ & Hml & _). destruct (unmarshal_marshal_manifest _ Hm) as (mdata & Henc & Hdec).
  eapply Write_readback; eauto.
Qed.
End Properties.

(** Two records are archived; the checksum tells their texts and the manifest's from
    all others. *)
Definition text_of (r : result bytes) : bytes := match r with Ok data => data | _ => [] end.
Definition json_data : bytes := Eval vm_compute in text_of (event_data marshal_record demo_events).
Definition json_write_with (sum : bytes -> array 32) : list bytes * result Receipt :=
  Write sum Ok marshal_record marshal_manifest (list_store sum) {["list" := list_store sum]} 7 demo_events demo_world.
Definition json_receipt_with (sum : bytes -> array 32) : Receipt :=
  match (json_write_with sum).2 with Ok r => r | _ => demo_receipt end.
(** The manifest does not mention its own checksum, so that any will do to find its text. *)
Definition json_mdata : bytes := Eval vm_compute in
  text_of (marshal_manifest (rc_Manifest (json_receipt_with (known_sum [[zero_byte]; json_data; string_bytes "{}"])))).
Definition json_sum : bytes -> array 32 := known_sum [json_mdata; json_data; string_bytes "{}"].
Definition json_write : list bytes * result Receipt := json_write_with json_sum.
Definition json_receipt : Receipt := json_receipt_with json_sum.

Lemma sum_among_le known data : (sum_among known data <= length known)%nat.
Proof. induction known as [|k known IH]; [done|]. cbn. case_bool_decide; [done|]. cbn in *. lia. Qed.

Lemma known_sum_only known data :
  (length known < 256)%nat -> data ∈ known -> NoDup known -> only_content (known_sum known) data.
Proof.
  intros Hlen Hin Hnd other H.
  assert (forall a b, (a < 256)%nat -> (b < 256)%nat -> sum_of a = sum_of b -> a = b) as Hinj.
  { intros a b Ha Hb E. unfold sum_of in E.
    destruct (to_array_length 32 (ascii_of_nat a :: replicate 31 zero_byte) eq_refl) as [xa Hxa].
    destruct (to_array_length 32 (ascii_of_nat b :: replicate 31 zero_byte) eq_refl) as [xb Hxb].
    rewrite Hxa, Hxb in E. cbn in E. subst xb. apply to_array_Some in Hxa. apply to_array_Some in Hxb.
    rewrite Hxa in Hxb. injection Hxb as E. apply (f_equal nat_of_ascii) in E.
    by rewrite !nat_ascii_embedding in E. }
  apply Hinj in H; [|pose proof (sum_among_le known other); lia|pose proof (sum_among_le known data); lia].
  clear -H Hin Hnd.
  induction known as [|k known IH]; [by apply elem_of_nil in Hin|]. cbn in H. apply NoDup_cons in Hnd as [Hk Hnd].
  pose proof (sum_among_le known other). pose proof (sum_among_le known data).
  case_bool_decide; case_bool_decide; [congruence|lia|lia|].
  apply elem_of_cons in Hin as [?|Hin]; [done|]. by apply IH.
Qed.

(** Decides a printability condition on closed values: conditions on elements
    are evaluated only once the elements are known. *)
Ltac by_evaluation :=
  repeat match goal with
  | |- _ /\ _ => split
  | |- Forall _ [] => apply Forall_nil; exact I
  | |- Forall _ (_ :: _) => apply Forall_cons; split
  | |- Forall _ ?l => let v := eval vm_compute in l in replace l with v by (vm_compute; reflexivity)
  | |- ref_printable _ => unfold ref_printable
  | |- link_printable _ => unfold link_printable
  | |- http_printable _ => unfold http_printable
  | |- delivery_printable _ => unfold delivery_printable
  | |- record_printable _ => unfold record_printable
  | |- manifest_printable _ => unfold manifest_printable
  | |- in_s _ _ => unfold in_s
  | |- in_u _ _ => unfold in_u
  end;
  vm_compute; first [reflexivity | discriminate].

(** Both conditions by evaluation of the texts. *)
Lemma readable_texts m events :
  manifest_printable m -> Forall record_printable events ->
  (Z.of_nat (length (text_of (marshal_manifest m))) <=? manifest_limit) = true ->
  forallb (fun e => Z.of_nat (length (text_of (marshal_record e))) <? max_token) events = true -> readable m events.
Proof.
  intros Hm Hr Hl He. split_and!; [done|done|intros data H; rewrite H in Hl; by apply Z.leb_le|].
  apply Forall_forall. intros e Hin line H. rewrite forallb_forall in He. specialize (He e (proj1 (list_elem_of_In _ _) Hin)).
  rewrite H in He. by apply Z.ltb_lt.
Qed.

Lemma texts_only_known m events mdata data rest :
  marshal_manifest m = Ok mdata -> event_data marshal_record events = Ok data -> (length rest < 254)%nat ->
  bool_decide (NoDup (mdata :: data :: rest)) = true -> texts_only (known_sum (mdata :: data :: rest)) m events.
Proof.
  intros Hm He Hlen Hnd%bool_decide_eq_true. split; intros d Hd.
  - rewrite Hm in Hd. injection Hd as <-. apply known_sum_only; [cbn; lia|apply list_elem_of_here|done].
  - rewrite He in Hd. injection Hd as <-. apply known_sum_only; [cbn; lia|apply list_elem_of_further, list_elem_of_here|done].
Qed.

Lemma json_readable : readable (rc_Manifest json_receipt) demo_events.
Proof. apply readable_texts; [by_evaluation|by_evaluation|vm_compute; reflexivity|vm_compute; reflexivity]. Qed.

Lemma json_texts_only : texts_only json_sum (rc_Manifest json_receipt) demo_events.
Proof. apply texts_only_known; [vm_compute; reflexivity|vm_compute; reflexivity|cbn; lia|vm_compute; reflexivity]. Qed.

Example written_readback_example :
  ReadEvents json_sum Ok unmarshal_record (fun _ => None) (list_store json_sum) (rc_Manifest json_receipt) 1 5
    json_write.1 = (json_write.1, Ok ([demo_record 2 []], true)).
Proof.
  destruct (written_readback json_sum Ok (list_store json_sum) {["list" := list_store json_sum]} (demo_sources json_sum)
    (fun _ => None) 7 demo_events demo_world json_write.1 json_write.1 json_receipt 1 5) as [_ H].
  - reflexivity.
  - exact I.
  - vm_compute. reflexivity.
  - split; [exact I|intros ref Href; exact Href].
  - exact json_readable.
  - exact json_texts_only.
  - lia.
  - lia.
  - rewrite H. vm_compute. reflexivity.
Qed.
