(* ===== verification/ArchiveRestore.v ===== *)
(** * Restoring archives (src/archive/archive.go)

    What [Restore] achieves over any stores that keep the contract of [Archive]: the
    events of the requested slice are handed to the event store only after every
    payload they link to is back in its store. *)

From S2P Require Import Prelude Ids Events GoLib Wire Payload Storage Archive Json JsonText GoText GoTime LinkJson ArchiveJson.

Section Restore.
Context {W : Type} (sha256 : bytes -> array 32) (gunzip : bytes -> result bytes).
Context (archive : PayloadStore W) (sources : gmap string (PayloadStore W)).
Context `{!StoreContract sha256 gunzip archive}.
Context (Hsources : forall name source ref, sources !! name = Some source -> spares archive (ps_Open source ref)).

(** The active stores by name, of which some are configured; a call to one store
    leaves the objects of the others in place. *)
Context (stores : string -> PayloadStore W) {contracts : forall name, StoreContract sha256 gunzip (stores name)}.
Context (active : gmap string (PayloadStore W)).
Context (Hactive : forall name dest, active !! name = Some dest -> dest = stores name).
Context (Harchive_put : forall name data opts, spares archive (ps_Put (stores name) data opts)).
Context (Hstores_open : forall name ref, spares (stores name) (ps_Open archive ref)).
Context (Hstores_put : forall name name' data opts, spares (stores name) (ps_Put (stores name') data opts)).

Definition all_later (w w' : W) : Prop := later archive w w' /\ forall name, later (stores name) w w'.
Definition all_ok (w : W) : Prop := sc_ok archive w /\ forall name, sc_ok (stores name) w.

Lemma all_later_refl w : all_ok w -> all_later w w.
Proof. intros [Ha Hs]. split; [by split|]. intros name. by split. Qed.

Lemma all_later_trans w1 w2 w3 : all_later w1 w2 -> all_later w2 w3 -> all_later w1 w3.
Proof. unfold all_later, later. naive_solver. Qed.

Lemma all_later_ok w w' : all_later w w' -> all_ok w'.
Proof. unfold all_later, all_ok, later. naive_solver. Qed.

Lemma open_all_later ref w w' r : all_ok w -> ps_Open archive ref w = (w', r) -> all_later w w'.
Proof.
  intros [Ha Hs] H. split; [by apply (sc_open_keeps _ _ _ _ Ha H)|]. intros name. by apply (Hstores_open _ _ _ _ _ (Hs name) H).
Qed.

Lemma put_all_later name data opts w w' r : all_ok w -> ps_Put (stores name) data opts w = (w', r) -> all_later w w'.
Proof.
  intros [Ha Hs] H. split; [by apply (Harchive_put _ _ _ _ _ _ Ha H)|].
  intros name'. by apply (Hstores_put _ _ _ _ _ _ _ (Hs name') H).
Qed.

(** An entry whose archived copy is there, and whose source its store once issued. *)
Definition restorable (w : W) (entry : PayloadEntry) : Prop :=
  holds archive (pe_Archive entry) w /\ ref_Compression (pe_Archive entry) = ref_Compression (pe_Source entry) /\
  ref_SHA256 (pe_Archive entry) = ref_SHA256 (pe_Source entry) /\
  sc_issued (stores (ref_Store (pe_Source entry))) (pe_Source entry).

Lemma restorable_later w w' entry : all_later w w' -> restorable w entry -> restorable w' entry.
Proof. intros [[_ Hk] _] (Hh & H). split; [by apply Hk|done]. Qed.

(** The source of an entry is back, unless no event needs it. *)
Definition is_back (needed : gset string) (w : W) (entry : PayloadEntry) : Prop :=
  payloadKey (pe_Source entry) ∈ needed ->
  is_Some (active !! ref_Store (pe_Source entry)) /\ holds (stores (ref_Store (pe_Source entry))) (pe_Source entry) w.

Lemma is_back_later needed w w' entry : all_later w w' -> is_back needed w entry -> is_back needed w' entry.
Proof. intros [_ Hk] H Hin. destruct (H Hin) as [? Hh]. split; [done|]. by apply Hk. Qed.

Lemma restore_payload_back needed entry w w' u :
  all_ok w -> restorable w entry -> restore_payload gunzip archive active needed tt entry w = (w', Ok u) ->
  all_later w w' /\ is_back needed w' entry.
Proof.
  intros Hok (Hh & Hcomp & Hsha & Hissued). unfold restore_payload.
  case_bool_decide as Hneeded; cbn [negb]; [|intros H; mret_inv H; by split; [apply all_later_refl|]].
  destruct (active !! _) as [dest|] eqn:Hdest; [|done]. intros H. apply Hactive in Hdest as Heq. subst dest.
  apply M_bind_Ok in H as (w1 & reader & Hopen & H). pose proof (open_all_later _ _ _ _ Hok Hopen) as Hl1.
  apply M_bind_Ok in H as (w2 & data & Hl & H). mret_inv Hl.
  apply M_bind_Ok in H as (w3 & restored & Hput & H). pose proof (all_later_ok _ _ Hl1) as Hok1.
  pose proof (put_all_later _ _ _ _ _ _ Hok1 Hput) as Hl2.
  case_bool_decide as Hrsha; simpl in H; [|done]. destruct (_ =? _); [|done]. mret_inv H.
  split; [by eapply all_later_trans|]. intros _. split; [done|]. split; [done|].
  destruct (sc_put _ _ _ _ _ (proj2 Hok1 _) Hput) as (Hds & _).
  eapply sc_stored; [apply Hok1|exact Hput|done|congruence|done].
Qed.

Lemma restore_fold_back needed entries w w' u :
  all_ok w -> Forall (restorable w) entries ->
  foldM (restore_payload gunzip archive active needed) entries tt w = (w', Ok u) ->
  all_later w w' /\ Forall (is_back needed w') entries.
Proof.
  revert w; induction entries as [|entry entries IH]; intros w Hok Hr H; simpl in H.
  - mret_inv H. split; [by apply all_later_refl|constructor].
  - apply Forall_cons in Hr as [Hr Hrs]. apply M_bind_Ok in H as (w1 & [] & Hstep & H).
    apply restore_payload_back in Hstep as [Hl1 Hb]; [|done|done].
    apply IH in H as [Hl2 Hbs]; [|by eapply all_later_ok|].
    { split; [by eapply all_later_trans|]. constructor; [by eapply is_back_later|done]. }
    eapply Forall_impl; [exact Hrs|]. intros e. by apply restorable_later.
Qed.

Lemma when_opened_Ok {A} (opened : W * result bytes) (a b : A) w :
  when_opened opened a = (w, Ok b) -> exists stored, opened = (w, Ok stored) /\ b = a.
Proof. destruct opened as [w' [stored|e|m]]; cbn; intros [= -> ->]. by exists stored. Qed.

(** Every link of the slice has an entry whose source is its own object. *)
Lemma links_back (entries : list PayloadEntry) (events : list EventRecord) w :
  let needed : gset string := list_to_set ((fun link => payloadKey (pl_Ref link)) <$> concat (er_Payloads <$> events)) in
  Forall (is_back needed w) entries ->
  Forall (fun entry => sc_issued (stores (ref_Store (pe_Source entry))) (pe_Source entry)) entries ->
  (forall e link, e ∈ events -> link ∈ er_Payloads e -> sc_issued (stores (ref_Store (pl_Ref link))) (pl_Ref link) /\
     payloadKey (pl_Ref link) ∈ (fun entry => payloadKey (pe_Source entry)) <$> entries) ->
  forall e link, e ∈ events -> link ∈ er_Payloads e ->
    is_Some (active !! ref_Store (pl_Ref link)) /\ holds (stores (ref_Store (pl_Ref link))) (pl_Ref link) w.
Proof.
  intros needed Hback Hsrc Hlinks e link He Hl. destruct (Hlinks e link He Hl) as [Hi Hin].
  apply list_elem_of_fmap in Hin as (entry & Hkey & Hentry). rewrite Forall_forall in Hback, Hsrc.
  specialize (Hsrc entry Hentry). destruct (Hback entry Hentry) as [Hsome [_ Hpresent]].
  { unfold needed. rewrite <- Hkey. apply elem_of_list_to_set, list_elem_of_fmap. exists link. split; [done|].
    apply list_elem_of_In, in_concat. exists (er_Payloads e). split; [|by apply list_elem_of_In].
    apply list_elem_of_In, list_elem_of_fmap. by exists e. }
  destruct (payloadKey_inj (pl_Ref link) (pe_Source entry)) as [Hst Hk]; [by eapply sc_plain..|done|].
  rewrite Hst in *. split; [done|]. split; [done|]. by eapply (sc_by_key (pe_Source entry)).

Qed.

Lemma subseteq_take_drop {A} n m (l : list A) x : x ∈ take n (drop m l) -> x ∈ l.
Proof.
  intros (i & Hi & _)%elem_of_take. rewrite lookup_drop in Hi. by eapply list_elem_of_lookup_2.
Qed.

(** Take an archive that was written, and any later world in which nothing was
    deleted from it, whatever happened to the active stores.  When [Restore] succeeds,
    the events of the slice were handed on after their payloads were back. *)
Lemma restore_written (ctx : nat -> option error) (now : Z) (events : list EventRecord) (w w1 w2 w3 : W)
    (receipt : Receipt) (restore_events : string -> list EventRecord -> M W Z) (offset limit : Z) (rr : RestoreResult) :
  (forall i, ctx i = None) -> sc_ok archive w ->
  Write sha256 gunzip marshal_record marshal_manifest archive sources now events w = (w1, Ok receipt) ->
  (forall e link, e ∈ events -> link ∈ er_Payloads e -> sc_issued (stores (ref_Store (pl_Ref link))) (pl_Ref link)) ->
  later archive w1 w2 -> (forall name, sc_ok (stores name) w2) ->
  readable (rc_Manifest receipt) events -> texts_only sha256 (rc_Manifest receipt) events ->
  Restore sha256 gunzip unmarshal_record unmarshal_manifest ctx archive active restore_events receipt offset limit w2 =
    (w3, Ok rr) ->
  let chunk := take (Z.to_nat limit) (drop (Z.to_nat offset) events) in
  let complete := Z.of_nat (length events) <=? offset + Z.of_nat (length chunk) in
  exists w', restore_events (mf_ID (rc_Manifest receipt)) chunk w' = (w3, Ok (rr_Restored rr)) /\ all_later w2 w' /\
    rr_Complete rr = complete /\ rr_Next rr = (if complete then 0 else offset + Z.of_nat (length chunk)) /\
    forall e link, e ∈ chunk -> link ∈ er_Payloads e ->
      is_Some (active !! ref_Store (pl_Ref link)) /\ holds (stores (ref_Store (pl_Ref link))) (pl_Ref link) w'.
Proof.
  intros Hctx Hw Hwrite Hissued Hlater Hoks Hread Htexts Hrun chunk complete.
  assert (forall v offset limit, later archive w1 v -> 0 <= offset -> 1 <= limit <= 10000 -> _) as Hback
    by (intros v o l Hv Ho Hl; exact (written_readback sha256 gunzip archive sources Hsources ctx now events w w1 v
          receipt o l Hctx Hw Hwrite Hv Hread Htexts Ho Hl)).
  destruct (Write_stored sha256 gunzip marshal_record marshal_manifest archive sources Hsources _ _ _ _ _ Hw Hwrite)
    as (_ & ? & ? & _ & _ & _ & _ & _ & _ & _ & _ & _ & _ & _ & _ & HF & _ & Hall).
  pose proof (Write_sources sha256 gunzip marshal_record marshal_manifest archive sources
    (fun ref => sc_issued (stores (ref_Store ref)) ref) _ _ _ _ _ Hwrite Hissued) as Hsrc.
  assert (all_ok w2) as Hok by (split; [apply Hlater|done]).
  unfold Restore in Hrun. apply M_bind_Ok in Hrun as (v1 & manifest & Hm & Hrun).
  destruct (Hback w2 0 1 Hlater ltac:(lia) ltac:(lia)) as [Hrm _]. rewrite Hrm in Hm.
  apply when_opened_Ok in Hm as (mstored & Hmo & ->). pose proof (open_all_later _ _ _ _ Hok Hmo) as Hl1.
  destruct (negb (str_eqb _ _)); [done|]. apply M_bind_Ok in Hrun as (v2 & [evs cmp] & He & Hrun).
  assert (0 <= offset /\ 1 <= limit <= 10000) as [Hoff Hlim].
  { unfold ReadEvents in He. destruct ((offset <? 0) || (limit <? 1) || (10000 <? limit)) eqn:E; [done|]. lia. }
  assert (later archive w1 v1) as Hlv1 by (eapply later_trans; [exact Hlater|apply Hl1]).
  destruct (Hback v1 offset limit Hlv1 Hoff Hlim) as [_ Hre]. rewrite Hre in He.
  apply when_opened_Ok in He as (estored & Heo & [= -> ->]). fold chunk in Hrun.
  pose proof (open_all_later _ _ _ _ (all_later_ok _ _ Hl1) Heo) as Hl2.
  pose proof (all_later_trans _ _ _ Hl1 Hl2) as Hl12.
  apply M_bind_Ok in Hrun as (v3 & [] & Hfold & Hrun). apply M_bind_Ok in Hrun as (v4 & restored & Hins & Hrun).
  apply restore_fold_back in Hfold as [Hl3 Hbk]; [|by eapply all_later_ok|].
  2: { apply Forall_forall. intros entry Hin. rewrite Forall_forall in HF, Hsrc.
       destruct (HF entry Hin) as (_ & Hh & Hsha & _ & Hcomp). split; [|by auto].
       by apply Hl12, Hlater. }
  exists v3. mret_inv Hrun. fold chunk complete. split_and!.
  - by destruct complete.
  - by eapply all_later_trans.
  - by destruct complete.
  - by destruct complete.
  - eapply links_back; [exact Hbk|exact Hsrc|]. intros e link Hec Hl.
    assert (e ∈ events) as Hin by (eapply subseteq_take_drop; exact Hec).
    split; [by eapply Hissued|by eapply Hall].
Qed.
End Restore.
