(* ===== verification/ExplorerApi.v ===== *)
(** * The Explorer's HTTP API (src/explorerapi/server.go)

    Every handler reads a request, asks the store, the archive catalogue or a
    payload store, and writes one response.  The store and the catalogue are an
    environment whose answers depend on the calls made so far and which may panic;
    payload stores are the interface of [Archive].  The response writer follows
    net/http: the header map is sent with the first status, a later status is
    ignored.  A JSON body is the value handed to the encoder. *)

From S2P Require Import Prelude Ids Events GoLib GoText Json JsonText GoTime Base64 Payload Storage Archive Query.

(** ** Requests and responses *)

(** [rq_Query k] is [r.URL.Query().Get(k)], [rq_PathValue k] is [r.PathValue(k)] and
    [rq_Header k] is [r.Header.Get(k)]; [rq_Path] holds the segments of the cleaned
    path. *)
Record Request := mkRequest {
  rq_Method : string;
  rq_Path : list string;
  rq_Query : string -> string;
  rq_Header : string -> string;
  rq_PathValue : string -> string
}.

#[global] Instance eta_Request : Eta Request :=
  fun r => mkRequest (rq_Method r) (rq_Path r) (rq_Query r) (rq_Header r) (rq_PathValue r).

Inductive page_items :=
| PFlows (items : list FlowSummary)
| PExecutions (items : list ExecutionSummary)
| PEntities (items : list EntitySummary)
| PEvents (items : list EventRecord).

Inductive api_value :=
| VOverview (v : Overview)
| VActivity (v : OverviewActivity)
| VFlow (v : FlowDetail)
| VExecution (v : ExecutionDetail)
| VRetries (v : RetryChain)
| VEntity (v : EntityDetail)
| VEvent (v : EventRecord)
| VPage (items : page_items) (next_cursor : string) (has_more : bool)
| VArchives (items : list Receipt) (has_more : bool)
| VArchive (v : Receipt)
| VArchiveEvents (items : list EventRecord) (next_offset : Z) (complete : bool)
| VRestore (v : RestoreResult)
| VError (code message : string).

Inductive chunk :=
| BJson (v : api_value)
| BText (text : string)
| BBytes (data : bytes).

Record ResponseWriter := mkResponseWriter {
  rw_header : list (string * string);
  rw_sent : option (Z * list (string * string));
  rw_body : list chunk
}.
#[global] Instance eta_ResponseWriter : Eta ResponseWriter :=
  fun r => mkResponseWriter (rw_header r) (rw_sent r) (rw_body r).
Definition ResponseWriter0 : ResponseWriter := mkResponseWriter [] None [].

Definition header_Set (key value : string) (w : ResponseWriter) : ResponseWriter :=
  w <| rw_header := filter (fun kv => kv.1 <> key) (rw_header w) ++ [(key, value)] |>.
Definition WriteHeader (status : Z) (w : ResponseWriter) : ResponseWriter :=
  match rw_sent w with
  | None => w <| rw_sent := Some (status, rw_header w) |>
  | Some _ => w
  end.
Definition Write_body (c : chunk) (w : ResponseWriter) : ResponseWriter :=
  let w := WriteHeader 200 w in w <| rw_body := rw_body w ++ [c] |>.

(** ** Calls to the environment *)

Inductive ApiCall :=
| COverview (f : OverviewFilter)
| CActivity (f : OverviewActivityFilter)
| CListFlows (f : FlowFilter) (p : PageRequest)
| CGetFlow (id : FlowID) (v : FlowDetail) (err : option error)
| CListFlowEvents (id : FlowID) (f : EventFilter) (p : PageRequest)
| CListExecutions (f : ExecutionFilter) (p : PageRequest)
| CGetExecution (id : ExecutionID) (v : ExecutionDetail) (err : option error)
| CListExecutionFlows (id : ExecutionID) (f : FlowFilter) (p : PageRequest)
| CGetRetryChain (id : ExecutionID) (v : RetryChain) (err : option error)
| CSearchEntities (f : EntityFilter) (p : PageRequest)
| CGetEntity (key : EntityKey)
| CListEntityFlows (key : EntityKey) (f : FlowFilter) (p : PageRequest)
| CListEvents (f : EventFilter) (p : PageRequest)
| CGetEvent (id : EventID) (v : EventRecord) (err : option error)
| CListArchives (offset limit : Z)
| CGetArchive (id : string)
| CReadArchive (manifest : Manifest) (offset limit : Z)
| CRestore (receipt : Receipt) (offset limit : Z)
| COpen (store : string) (ref : Ref)
| COpenArchive (ref : Ref)
| CLog (err : error).

(** The answer to a call after a history of calls; [None] is a panic. *)
Definition answer (A : Type) : Type := list ApiCall -> option (A * option error).

(** [storage.ExplorerStore], with the optional [OverviewActivityReader]. *)
Record ExplorerStore := mkExplorerStore {
  x_Overview : OverviewFilter -> answer Overview;
  x_OverviewActivity : option (OverviewActivityFilter -> answer OverviewActivity);
  x_ListFlows : FlowFilter -> PageRequest -> answer (Page FlowSummary);
  x_GetFlow : FlowID -> answer FlowDetail;
  x_ListFlowEvents : FlowID -> EventFilter -> PageRequest -> answer (Page EventRecord);
  x_ListExecutions : ExecutionFilter -> PageRequest -> answer (Page ExecutionSummary);
  x_GetExecution : ExecutionID -> answer ExecutionDetail;
  x_ListExecutionFlows : ExecutionID -> FlowFilter -> PageRequest -> answer (Page FlowSummary);
  x_GetRetryChain : ExecutionID -> answer RetryChain;
  x_SearchEntities : EntityFilter -> PageRequest -> answer (Page EntitySummary);
  x_GetEntity : EntityKey -> answer EntityDetail;
  x_ListEntityFlows : EntityKey -> FlowFilter -> PageRequest -> answer (Page FlowSummary);
  x_ListEvents : EventFilter -> PageRequest -> answer (Page EventRecord);
  x_GetEvent : EventID -> answer EventRecord
}.

(** [archive.Catalog]. *)
Record Catalog := mkCatalog {
  k_ListArchives : Z -> Z -> answer (list Receipt * bool);
  k_GetArchive : string -> answer Receipt
}.

Record ApiConfig (W : Type) := mkApiConfig {
  ac_Store : option ExplorerStore;
  ac_PayloadStores : gmap string (PayloadStore W);
  ac_MaxPayloadBytes : Z;
  ac_AllowedOrigins : list string;
  ac_ArchiveCatalog : option Catalog;
  ac_ArchiveStore : option (PayloadStore W);
  ac_ArchiveRestore : option (string -> list EventRecord -> M W Z);
  ac_EnableRestore : bool
}.
Arguments ac_Store {W} _.
Arguments ac_PayloadStores {W} _.
Arguments ac_MaxPayloadBytes {W} _.
Arguments ac_AllowedOrigins {W} _.
Arguments ac_ArchiveCatalog {W} _.
Arguments ac_ArchiveStore {W} _.
Arguments ac_ArchiveRestore {W} _.
Arguments ac_EnableRestore {W} _.
Arguments mkApiConfig {W} _ _ _ _ _ _ _ _.

#[global] Instance eta_ApiConfig {W} : Eta (ApiConfig W) :=
  fun c => mkApiConfig (ac_Store c) (ac_PayloadStores c) (ac_MaxPayloadBytes c) (ac_AllowedOrigins c)
    (ac_ArchiveCatalog c) (ac_ArchiveStore c) (ac_ArchiveRestore c) (ac_EnableRestore c).

(** ** Reading the request *)

Definition assign_Cursor (key : string) (value : json) (c : Cursor) : result Cursor :=
  if tagged key "Timestamp" then t ← dec_time value (c_Timestamp c); Ok (mkCursor t (c_ID c))
  else if tagged key "ID" then id ← dec_string value (c_ID c); Ok (mkCursor (c_Timestamp c) id)
  else Ok c.

Definition decodeCursor (raw : string) : Cursor * option error :=
  if str_eqb raw "" then (Cursor_zero, None)
  else match b64_decode (string_bytes raw) with
  | None => (Cursor_zero, Some ErrInvalidCursor)
  | Some data =>
      match (j ← json_parse data; dec_struct assign_Cursor j Cursor_zero) with
      | Ok c => (c, None)
      | _ => (Cursor_zero, Some ErrInvalidCursor)
      end
  end.

(** [json.Marshal] of a cursor; an unprintable time gives no data. *)
Definition marshal_Cursor (c : Cursor) : bytes :=
  match enc_time (c_Timestamp c) with
  | Ok t => json_print (JObject [("Timestamp", t); ("ID", JString (c_ID c))])
  | _ => []
  end.

Definition encodeCursor (c : Cursor) : string :=
  if str_eqb (c_ID c) "" then ""
  else bytes_string (b64_encode (marshal_Cursor c)).

Definition limit_error : error := errors_New "limit must be between 1 and 500".

Definition page (r : Request) : PageRequest * option error :=
  let raw := rq_Query r "limit" in
  let '(n, ok) := Atoi raw in
  if negb (str_eqb raw "") && (negb ok || (n <? 1) || (500 <? n)) then (PageRequest_zero, Some limit_error)
  else
    let limit := if str_eqb raw "" then 100 else n in
    let '(c, e) := decodeCursor (rq_Query r "cursor") in
    (mkPageRequest limit c (negb (str_eqb (rq_Query r "order") "asc")), e).

(** [t, _ = time.Parse(time.RFC3339Nano, s)]. *)
Definition time_or_zero (s : string) : Z := default time_zero (parse_RFC3339Nano (string_bytes s)).
Definition timeRange (r : Request) : TimeRange :=
  mkTimeRange (time_or_zero (rq_Query r "from")) (time_or_zero (rq_Query r "to")).

Definition scopeFilter (r : Request) : Scope := mkScope (rq_Query r "scope_type") (rq_Query r "scope_id").
Definition scopeAllowed (requested actual : Scope) : bool :=
  Scope_IsZero requested || bool_decide (requested = actual).

Definition overviewFilter (r : Request) : OverviewFilter :=
  mkOverviewFilter (timeRange r) (rq_Query r "service") (rq_Query r "environment") (scopeFilter r).

Definition overviewActivityFilter (r : Request) : result OverviewActivityFilter :=
  let base := overviewFilter r in
  let from := tr_From (of_Time base) in let to := tr_To (of_Time base) in
  if negb (time_IsZero from) && negb (time_IsZero to) && negb (from <? to)
  then Fail (errors_New "from must be before to")
  else
    let raw := rq_Query r "interval" in
    let interval := if str_eqb raw "" then ActivityDay else raw in
    if negb (str_eqb interval ActivityHour) && negb (str_eqb interval ActivityDay)
    then Fail (errors_New "interval must be hour or day")
    else Ok (mkOverviewActivityFilter base interval).

Definition flowFilter (r : Request) : FlowFilter :=
  let q := rq_Query r in
  let f := mkFlowFilter (timeRange r) (q "service") (q "environment") (q "status") (q "entity_type")
             (q "entity_id") (zero_array 16) (scopeFilter r) in
  let x := q "execution_id" in
  if negb (str_eqb x "") then f <| ff_ExecutionID := id_or_zero (ParseExecutionID x) |> else f.

Definition executionFilter (r : Request) : ExecutionFilter :=
  let q := rq_Query r in
  mkExecutionFilter (timeRange r) (q "service") (q "environment") (q "status") (q "source") (q "kind")
    (scopeFilter r).

Definition entityFilter (r : Request) : EntityFilter :=
  let q := rq_Query r in
  mkEntityFilter (timeRange r) (q "service") (q "environment") (q "entity_type") (q "q") (scopeFilter r).

Definition eventFilter (r : Request) : EventFilter :=
  let q := rq_Query r in
  let given k := negb (str_eqb (q k) "") in
  let f := mkEventFilter (timeRange r) (q "service") (q "environment") (q "kind") None 0 (q "http_method") 0
             (q "provider") None (zero_array 16) (zero_array 16) (q "entity_type") (q "entity_id")
             (scopeFilter r) in
  let f := if given "http_status_class" then f <| ef_HTTPStatusClass := (Atoi (q "http_status_class")).1 |> else f in
  let f := if given "level" then f <| ef_Level := Some (parseLevel (q "level")) |> else f in
  let f := if given "http_status" then f <| ef_HTTPStatus := (Atoi (q "http_status")).1 |> else f in
  let f := if given "has_error" then
             match ParseBool (q "has_error") with
             | Some value => f <| ef_HasError := Some value |>
             | None => f
             end
           else f in
  let f := if given "flow_id" then f <| ef_FlowID := id_or_zero (ParseFlowID (q "flow_id")) |> else f in
  if given "execution_id" then f <| ef_ExecutionID := id_or_zero (ParseExecutionID (q "execution_id")) |> else f.

Definition safeContentType (value : string) : string :=
  let value := TrimSpace (nth 0 (Split value ";") "") in
  if HasPrefix value "text/" || str_eqb value "application/json" || str_eqb value "application/xml"
  then value else "application/octet-stream".

(** ** The server *)

Record Api (W : Type) := mkApi { ap_world : W; ap_calls : list ApiCall; ap_w : ResponseWriter }.
Arguments mkApi {W} _ _ _.
Arguments ap_world {W} _.
Arguments ap_calls {W} _.
Arguments ap_w {W} _.
#[global] Instance eta_Api {W} : Eta (Api W) := fun a => mkApi (ap_world a) (ap_calls a) (ap_w a).

Section Server.
Context {W : Type}.
Context (sha256 : bytes -> array 32) (gunzip : bytes -> result bytes).
Context (dec_record : bytes -> result EventRecord) (dec_manifest : bytes -> result Manifest).
(** What [r.Context().Err()] returns while an archive is read. *)
Context (ctx : nat -> option error).

#[local] Abbreviation H := (M (Api W)).

(** The primitives: write to the response, ask the environment, use a payload store. *)
Definition on_w (f : ResponseWriter -> ResponseWriter) : H unit :=
  fun s => (s <| ap_w := f (ap_w s) |>, Ok tt).
Definition log_call (c : ApiCall) : H unit := fun s => (s <| ap_calls := ap_calls s ++ [c] |>, Ok tt).
Definition ask_store {A} (f : answer A) (log : A -> option error -> ApiCall) : H (A * option error) :=
  fun s => match f (ap_calls s) with
  | None => (s, Panic "store")
  | Some (a, e) => (s <| ap_calls := ap_calls s ++ [log a e] |>, Ok (a, e))
  end.
Definition in_world {A} (m : M W A) : H (A + error) :=
  fun s => let '(w', r) := m (ap_world s) in
  let s := s <| ap_world := w' |> in
  match r with
  | Ok a => (s, Ok (inl a))
  | Fail e => (s, Ok (inr e))
  | Panic msg => (s, Panic msg)
  end.

(** *** Responses *)

Definition writeJSON (status : Z) (v : api_value) : H unit :=
  _ ← on_w (header_Set "Content-Type" "application/json");
  _ ← on_w (WriteHeader status);
  on_w (Write_body (BJson v)).

Definition respondError (status : Z) (code message : string) : H unit := writeJSON status (VError code message).
Definition bad (err : error) : H unit := respondError 400 "invalid_request" (err_text err).

Definition respond_err (err : error) : H unit :=
  if errors_Is err ErrNotFound || errors_Is err ErrPayloadNotFound
  then respondError 404 "not_found" "resource not found"
  else if errors_Is err ErrInvalidCursor then bad err
  else
    _ ← log_call (CLog err);
    respondError 500 "internal_error" "request failed".

Definition respond (v : api_value) (err : option error) : H unit :=
  match err with None => writeJSON 200 v | Some err => respond_err err end.

Definition respondPage {T} (items : list T -> page_items) (p : Page T) (err : option error) : H unit :=
  match err with
  | Some err => respond_err err
  | None => writeJSON 200 (VPage (items (pg_Items p)) (encodeCursor (pg_NextCursor p)) (pg_HasMore p))
  end.

(** A parsed identifier or a bad request; a page request or a bad request. *)
Definition with_id (parsed : result id16) (k : id16 -> H unit) : H unit :=
  match parsed with Ok id => k id | Fail e => bad e | Panic msg => lift (Panic msg) end.
Definition with_page (r : Request) (k : PageRequest -> H unit) : H unit :=
  match page r with (p, None) => k p | (_, Some e) => bad e end.

(** *** Handlers *)

Section Handlers.
Context (cfg : ApiConfig W) (store : ExplorerStore).

Definition overview (r : Request) : H unit :=
  let f := overviewFilter r in
  '(v, e) ← ask_store (x_Overview store f) (fun _ _ => COverview f);
  respond (VOverview v) e.

Definition overviewActivity (r : Request) : H unit :=
  match x_OverviewActivity store with
  | None => respondError 501 "capability_unavailable" "overview activity is not supported by this storage adapter"
  | Some reader =>
      match overviewActivityFilter r with
      | Ok f => '(v, e) ← ask_store (reader f) (fun _ _ => CActivity f); respond (VActivity v) e
      | Fail e => bad e
      | Panic msg => lift (Panic msg)
      end
  end.

Definition flows (r : Request) : H unit :=
  with_page r (fun p =>
  let f := flowFilter r in
  '(v, e) ← ask_store (x_ListFlows store f p) (fun _ _ => CListFlows f p);
  respondPage PFlows v e).

(** [if e == nil && !scopeAllowed(...) { e = storage.ErrNotFound }]. *)
Definition check_scope (r : Request) (actual : Scope) (e : option error) : option error :=
  match e with
  | None => if negb (scopeAllowed (scopeFilter r) actual) then Some ErrNotFound else None
  | Some e => Some e
  end.

Definition flow (r : Request) : H unit :=
  with_id (ParseFlowID (rq_PathValue r "id")) (fun id =>
  '(v, e) ← ask_store (x_GetFlow store id) (CGetFlow id);
  respond (VFlow v) (check_scope r (fs_Scope (fd_FlowSummary v)) e)).

Definition flowEvents (r : Request) : H unit :=
  with_id (ParseFlowID (rq_PathValue r "id")) (fun id =>
  with_page r (fun p =>
  let f := eventFilter r in
  '(v, e) ← ask_store (x_ListFlowEvents store id f p) (fun _ _ => CListFlowEvents id f p);
  respondPage PEvents v e)).

Definition executions (r : Request) : H unit :=
  with_page r (fun p =>
  let f := executionFilter r in
  '(v, e) ← ask_store (x_ListExecutions store f p) (fun _ _ => CListExecutions f p);
  respondPage PExecutions v e).

Definition execution (r : Request) : H unit :=
  with_id (ParseExecutionID (rq_PathValue r "id")) (fun id =>
  '(v, e) ← ask_store (x_GetExecution store id) (CGetExecution id);
  respond (VExecution v) (check_scope r (xs_Scope (xd_ExecutionSummary v)) e)).

Definition executionFlows (r : Request) : H unit :=
  with_id (ParseExecutionID (rq_PathValue r "id")) (fun id =>
  with_page r (fun p =>
  let f := (flowFilter r) <| ff_ExecutionID := id |> in
  '(v, e) ← ask_store (x_ListExecutionFlows store id f p) (fun _ _ => CListExecutionFlows id f p);
  respondPage PFlows v e)).

(** The loop stops at the first execution outside the scope. *)
Fixpoint retries_loop (requested : Scope) (l : list ExecutionSummary) : option error :=
  match l with
  | [] => None
  | execution :: l =>
      if negb (scopeAllowed requested (xs_Scope execution)) then Some ErrNotFound else retries_loop requested l
  end.

Definition retries (r : Request) : H unit :=
  with_id (ParseExecutionID (rq_PathValue r "id")) (fun id =>
  '(v, e) ← ask_store (x_GetRetryChain store id) (CGetRetryChain id);
  respond (VRetries v) (match e with
                        | None => retries_loop (scopeFilter r) (rt_Executions v)
                        | Some e => Some e
                        end)).

Definition entities (r : Request) : H unit :=
  with_page r (fun p =>
  let f := entityFilter r in
  '(v, e) ← ask_store (x_SearchEntities store f p) (fun _ _ => CSearchEntities f p);
  respondPage PEntities v e).

Definition entity_key (r : Request) : EntityKey :=
  mkEntityKey (scopeFilter r) (rq_PathValue r "type") (rq_PathValue r "id").

Definition entity (r : Request) : H unit :=
  let key := entity_key r in
  if str_eqb (ek_Type key) "" || str_eqb (ek_ID key) "" then bad (errors_New "entity type and ID are required")
  else
    '(v, e) ← ask_store (x_GetEntity store key) (fun _ _ => CGetEntity key);
    respond (VEntity v) e.

Definition entityFlows (r : Request) : H unit :=
  let key := entity_key r in
  with_page r (fun p =>
  let f := flowFilter r in
  '(v, e) ← ask_store (x_ListEntityFlows store key f p) (fun _ _ => CListEntityFlows key f p);
  respondPage PFlows v e).

Definition events (r : Request) : H unit :=
  with_page r (fun p =>
  let f := eventFilter r in
  '(v, e) ← ask_store (x_ListEvents store f p) (fun _ _ => CListEvents f p);
  respondPage PEvents v e).

Definition event (r : Request) : H unit :=
  with_id (ParseEventID (rq_PathValue r "id")) (fun id =>
  '(v, e) ← ask_store (x_GetEvent store id) (CGetEvent id);
  respond (VEvent v) (check_scope r (er_Scope v) e)).

(** The tail of both payload handlers: headers, then at most the read limit.  [data]
    is what the opened reader gives up to its end or its first error: the error of
    [io.Copy] is ignored, so a read that fails cuts the body short. *)
Definition send_payload (ref : Ref) (disposition : bool) (data : bytes) : H unit :=
  _ ← on_w (header_Set "Content-Type" (safeContentType (ref_ContentType ref)));
  _ ← on_w (header_Set "X-Content-Type-Options" "nosniff");
  _ ← (if disposition then on_w (header_Set "Content-Disposition" "inline") else mret tt);
  _ ← (if str_eqb (ref_Compression ref) CompressionGZIP then on_w (header_Set "Content-Encoding" "gzip")
       else mret tt);
  on_w (Write_body (BBytes (take (Z.to_nat (ac_MaxPayloadBytes cfg)) data))).

Definition eventPayload (r : Request) : H unit :=
  with_id (ParseEventID (rq_PathValue r "event")) (fun id =>
  '(event, err) ← ask_store (x_GetEvent store id) (CGetEvent id);
  match err with
  | Some err => respond_err err
  | None =>
      if negb (scopeAllowed (scopeFilter r) (er_Scope event)) then respond_err ErrNotFound
      else match find (fun link => str_eqb (pl_Role link) (rq_PathValue r "role")) (er_Payloads event) with
      | None => respond_err ErrNotFound
      | Some link =>
          let ref := pl_Ref link in
          match ac_PayloadStores cfg !! ref_Store ref with
          | None => respondError 404 "payload_store_unavailable" "payload store is not configured"
          | Some source =>
              if ac_MaxPayloadBytes cfg <? ref_Size ref
              then respondError 413 "payload_too_large" "payload exceeds Explorer read limit"
              else
                _ ← log_call (COpen (ref_Store ref) ref);
                reader ← in_world (ps_Open source ref);
                match reader with
                | inr err => respond_err err
                | inl data => send_payload ref true data
                end
          end
      end
  end).

(** *** Archives *)

Definition no_archive : H unit :=
  respondError 501 "capability_unavailable" "archive access is not configured".
Definition no_catalog : H unit :=
  respondError 501 "capability_unavailable" "archive catalog is not configured".

(** [offset] and [limit] of an archive request, if within bounds. *)
Definition offset_limit (r : Request) (max : Z) : option (Z * Z) :=
  let offset := (Atoi (rq_Query r "offset")).1 in
  let raw := rq_Query r "limit" in
  let limit := if negb (str_eqb raw "") then (Atoi raw).1 else 100 in
  if (offset <? 0) || (limit <? 1) || (max <? limit) then None else Some (offset, limit).

Definition archives (r : Request) : H unit :=
  match ac_ArchiveCatalog cfg with
  | None => no_catalog
  | Some catalog =>
      match offset_limit r 500 with
      | None => bad (errors_New "offset and limit are invalid")
      | Some (offset, limit) =>
          '(v, err) ← ask_store (k_ListArchives catalog offset limit) (fun _ _ => CListArchives offset limit);
          respond (VArchives v.1 v.2) err
      end
  end.

Definition archiveDetail (r : Request) : H unit :=
  match ac_ArchiveCatalog cfg with
  | None => no_catalog
  | Some catalog =>
      let id := rq_PathValue r "id" in
      '(v, err) ← ask_store (k_GetArchive catalog id) (fun _ _ => CGetArchive id);
      respond (VArchive v) err
  end.

(** [archiveRequest]: the rest of the handler runs only when it returns [true]. *)
Definition archiveRequest (r : Request) (k : PayloadStore W -> Receipt -> Z -> Z -> H unit) : H unit :=
  match ac_ArchiveCatalog cfg, ac_ArchiveStore cfg with
  | Some catalog, Some archiveStore =>
      match offset_limit r 10000 with
      | None => bad (errors_New "offset and limit are invalid")
      | Some (offset, limit) =>
          let id := rq_PathValue r "id" in
          '(receipt, err) ← ask_store (k_GetArchive catalog id) (fun _ _ => CGetArchive id);
          match err with
          | Some err => respond_err err
          | None => k archiveStore receipt offset limit
          end
      end
  | _, _ => no_archive
  end.

Definition archiveEvents (r : Request) : H unit :=
  archiveRequest r (fun archiveStore receipt offset limit =>
  _ ← log_call (CReadArchive (rc_Manifest receipt) offset limit);
  v ← in_world (ReadEvents sha256 gunzip dec_record ctx archiveStore (rc_Manifest receipt) offset limit);
  match v with
  | inl (events, complete) =>
      respond (VArchiveEvents events (i64 (offset + Z.of_nat (length events))) complete) None
  | inr err => respond_err err
  end).

Definition archivePayload (r : Request) : H unit :=
  match ac_ArchiveCatalog cfg, ac_ArchiveStore cfg with
  | Some catalog, Some archiveStore =>
      let id := rq_PathValue r "id" in
      '(receipt, err) ← ask_store (k_GetArchive catalog id) (fun _ _ => CGetArchive id);
      match err with
      | Some err => respond_err err
      | None =>
          let '(index, ok) := Atoi (rq_PathValue r "index") in
          if negb ok || (index <? 0) then bad (errors_New "invalid payload index")
          else match mf_Payloads (rc_Manifest receipt) !! Z.to_nat index with
          | None => bad (errors_New "invalid payload index")
          | Some entry =>
              let ref := pe_Archive entry in
              if ac_MaxPayloadBytes cfg <? ref_Size ref
              then respondError 413 "payload_too_large" "payload exceeds Explorer read limit"
              else
                _ ← log_call (COpenArchive ref);
                reader ← in_world (ps_Open archiveStore ref);
                match reader with
                | inr err => respond_err err
                | inl data => send_payload ref false data
                end
          end
      end
  | _, _ => no_archive
  end.

Definition restoreArchive (r : Request) : H unit :=
  match ac_ArchiveRestore cfg with
  | Some restore_events =>
      if negb (ac_EnableRestore cfg) then respondError 404 "not_found" "archive restore is not enabled"
      else archiveRequest r (fun archiveStore receipt offset limit =>
        _ ← log_call (CRestore receipt offset limit);
        v ← in_world (Restore sha256 gunzip dec_record dec_manifest ctx archiveStore (ac_PayloadStores cfg)
                        restore_events receipt offset limit);
        match v with
        | inl v => respond (VRestore v) None
        | inr err => respond_err err
        end)
  | None => respondError 404 "not_found" "archive restore is not enabled"
  end.
End Handlers.

(** ** Routing and middleware *)

Inductive segment := Lit (s : string) | Var (name : string).

(** The path values of a path that matches a pattern. *)
Fixpoint match_path (pattern : list segment) (path : list string) : option (list (string * string)) :=
  match pattern, path with
  | [], [] => Some []
  | Lit s :: pattern, p :: path => if str_eqb s p then match_path pattern path else None
  | Var name :: pattern, p :: path =>
      if str_eqb p "" then None else values ← match_path pattern path; Some ((name, p) :: values)
  | _, _ => None
  end.

Definition path_value (values : list (string * string)) (name : string) : string :=
  match find (fun kv => str_eqb kv.1 name) values with Some kv => kv.2 | None => "" end.

Definition api (rest : list segment) : list segment := Lit "api" :: Lit "v1" :: rest.

Definition routes (cfg : ApiConfig W) (store : ExplorerStore)
    : list (string * list segment * (Request -> H unit)) :=
  [ ("GET", api [Lit "overview"], overview store);
    ("GET", api [Lit "overview"; Lit "activity"], overviewActivity store);
    ("GET", api [Lit "flows"], flows store);
    ("GET", api [Lit "flows"; Var "id"], flow store);
    ("GET", api [Lit "flows"; Var "id"; Lit "events"], flowEvents store);
    ("GET", api [Lit "executions"], executions store);
    ("GET", api [Lit "executions"; Var "id"], execution store);
    ("GET", api [Lit "executions"; Var "id"; Lit "flows"], executionFlows store);
    ("GET", api [Lit "executions"; Var "id"; Lit "retries"], retries store);
    ("GET", api [Lit "entities"], entities store);
    ("GET", api [Lit "entities"; Var "type"; Var "id"], entity store);
    ("GET", api [Lit "entities"; Var "type"; Var "id"; Lit "flows"], entityFlows store);
    ("GET", api [Lit "events"], events store);
    ("GET", api [Lit "events"; Var "id"], event store);
    ("GET", api [Lit "events"; Var "event"; Lit "payloads"; Var "role"], eventPayload cfg store);
    ("GET", api [Lit "archives"], archives cfg);
    ("GET", api [Lit "archives"; Var "id"], archiveDetail cfg);
    ("GET", api [Lit "archives"; Var "id"; Lit "events"], archiveEvents cfg);
    ("GET", api [Lit "archives"; Var "id"; Lit "payloads"; Var "index"], archivePayload cfg);
    ("POST", api [Lit "archives"; Var "id"; Lit "restore"], restoreArchive cfg) ].

(** A GET pattern also serves HEAD. *)
Definition method_matches (pattern method : string) : bool :=
  str_eqb pattern method || (str_eqb pattern "GET" && str_eqb method "HEAD").

(** The patterns do not overlap, so the first match is [http.ServeMux]'s. *)
Definition mux (table : list (string * list segment * (Request -> H unit))) (r : Request) : H unit :=
  match find (fun '(method, pattern, _) =>
                method_matches method (rq_Method r) && bool_decide (is_Some (match_path pattern (rq_Path r)))) table with
  | Some (_, pattern, handler) =>
      handler (r <| rq_PathValue := path_value (default [] (match_path pattern (rq_Path r))) |>)
  | None =>
      if existsb (fun '(_, pattern, _) => bool_decide (is_Some (match_path pattern (rq_Path r)))) table
      then _ ← on_w (WriteHeader 405); on_w (Write_body (BText "Method Not Allowed"))
      else _ ← on_w (WriteHeader 404); on_w (Write_body (BText "404 page not found"))
  end.

Definition cors (origins : list string) (next : Request -> H unit) (r : Request) : H unit :=
  let origin := rq_Header r "Origin" in
  _ ← (if bool_decide (origin ∈ origins)
       then _ ← on_w (header_Set "Access-Control-Allow-Origin" origin); on_w (header_Set "Vary" "Origin")
       else mret tt);
  if str_eqb (rq_Method r) "OPTIONS" then
    _ ← on_w (header_Set "Access-Control-Allow-Methods" "GET, OPTIONS");
    _ ← on_w (header_Set "Access-Control-Allow-Headers" "Content-Type");
    on_w (WriteHeader 204)
  else next r.

Definition recoverMiddleware (next : Request -> H unit) (r : Request) : H unit :=
  fun s => match next r s with
  | (s', Panic _) => respondError 500 "internal_error" "request failed" s'
  | out => out
  end.

(** [New]: the configuration with its default and the handler it installs. *)
Definition New (cfg : ApiConfig W) : result (ApiConfig W * (Request -> H unit)) :=
  match ac_Store cfg with
  | None => Fail (errors_New "trail/explorerapi: store is required")
  | Some store =>
      let cfg := if ac_MaxPayloadBytes cfg <=? 0 then cfg <| ac_MaxPayloadBytes := 2 ^ 20 |> else cfg in
      Ok (cfg, recoverMiddleware (cors (ac_AllowedOrigins cfg) (mux (routes cfg store))))
  end.

(** [ServeHTTP] on a fresh response. *)
Definition ServeHTTP (server : ApiConfig W * (Request -> H unit)) (w : W) (r : Request) : Api W * result unit :=
  server.2 r (mkApi w [] ResponseWriter0).
End Server.
