(* ===== verification/ExplorerApiProofs.v ===== *)
(** * Correctness of the Explorer API

    One specification of a handler covers what it asks of its environment (filters
    carry the requested scope, pages and ranges are bounded, payloads are opened
    only for an event in scope) and what it answers (one response, errors that
    reveal nothing, records in scope, bounded payloads with a safe type).  It is
    proved handler by handler against primitives and lifted through routing and
    middleware. *)

From S2P Require Import Prelude Ids Events GoLib GoText Json JsonText GoTime Base64 Payload Storage Archive Query Trace ExplorerApi.

(** ** Vocabulary of the specification *)

(** Error texts a client may see: fixed ones, and those of an invalid cursor. *)
Definition public_messages : list string :=
  [ "resource not found"; "request failed"; "limit must be between 1 and 500"; "from must be before to";
    "interval must be hour or day"; "entity type and ID are required"; "offset and limit are invalid";
    "invalid payload index"; "payload store is not configured"; "payload exceeds Explorer read limit";
    "archive access is not configured"; "archive catalog is not configured"; "archive restore is not enabled";
    "overview activity is not supported by this storage adapter"; err_text ErrInvalidID ].
Definition public_message (m : string) : Prop :=
  m ∈ public_messages \/ exists err, errors_Is err ErrInvalidCursor = true /\ m = err_text err.

Ltac public := first [left; apply (bool_decide_unpack _); vm_compute; exact I | right; eauto].

(** What the store answered to an overview, a search or a list whose filter, or to a
    lookup whose key, carries this scope. *)
Inductive provided (store : ExplorerStore) (scope : Scope) : api_value -> Prop :=
| provided_overview f h v : of_Scope f = scope -> x_Overview store f h = Some (v, None) -> provided store scope (VOverview v)
| provided_activity reader f h v : x_OverviewActivity store = Some reader -> of_Scope (af_OverviewFilter f) = scope ->
    reader f h = Some (v, None) -> provided store scope (VActivity v)
| provided_flows f p h v c m : ff_Scope f = scope -> x_ListFlows store f p h = Some (v, None) ->
    provided store scope (VPage (PFlows (pg_Items v)) c m)
| provided_execution_flows id f p h v c m : ff_Scope f = scope -> x_ListExecutionFlows store id f p h = Some (v, None) ->
    provided store scope (VPage (PFlows (pg_Items v)) c m)
| provided_entity_flows key f p h v c m : ek_Scope key = scope -> ff_Scope f = scope ->
    x_ListEntityFlows store key f p h = Some (v, None) -> provided store scope (VPage (PFlows (pg_Items v)) c m)
| provided_executions f p h v c m : xf_Scope f = scope -> x_ListExecutions store f p h = Some (v, None) ->
    provided store scope (VPage (PExecutions (pg_Items v)) c m)
| provided_entities f p h v c m : nf_Scope f = scope -> x_SearchEntities store f p h = Some (v, None) ->
    provided store scope (VPage (PEntities (pg_Items v)) c m)
| provided_events f p h v c m : ef_Scope f = scope -> x_ListEvents store f p h = Some (v, None) ->
    provided store scope (VPage (PEvents (pg_Items v)) c m)
| provided_flow_events id f p h v c m : ef_Scope f = scope -> x_ListFlowEvents store id f p h = Some (v, None) ->
    provided store scope (VPage (PEvents (pg_Items v)) c m)
| provided_entity key h v : ek_Scope key = scope -> x_GetEntity store key h = Some (v, None) -> provided store scope (VEntity v).

(** The paths of the archive routes. *)
Definition archive_path (path : list string) : bool :=
  match path with
  | a :: v :: archives :: _ => str_eqb "api" a && str_eqb "v1" v && str_eqb "archives" archives
  | _ => false
  end.

(** A value belongs to the scope asked for: its record was compared with the scope, or
    it is what the store provided for the scope.  Archives are shown on [archival]
    paths only, whatever the scope. *)
Definition in_scope (store : ExplorerStore) (archival : Prop) (requested : Scope) (v : api_value) : Prop :=
  match v with
  | VFlow v => scopeAllowed requested (fs_Scope (fd_FlowSummary v)) = true
  | VExecution v => scopeAllowed requested (xs_Scope (xd_ExecutionSummary v)) = true
  | VRetries v => Forall (fun x => scopeAllowed requested (xs_Scope x) = true) (rt_Executions v)
  | VEvent v => scopeAllowed requested (er_Scope v) = true
  | VOverview _ | VActivity _ | VPage _ _ _ | VEntity _ => provided store requested v
  | VArchives _ _ | VArchive _ | VArchiveEvents _ _ _ | VRestore _ => archival
  | VError _ _ => True
  end.

Definition value_ok (store : ExplorerStore) (archival : Prop) (requested : Scope) (status : Z) (v : api_value) : Prop :=
  match v with
  | VError code message => status <> 200 /\ (status = 500 -> code = "internal_error"%string /\ message = "request failed"%string)
      /\ public_message message
  | v => status = 200 /\ in_scope store archival requested v
  end.

Definition safe_type (value : string) : Prop :=
  HasPrefix value "text/" = true \/ value ∈ ["application/json"; "application/xml"; "application/octet-stream"].

Definition chunk_ok (store : ExplorerStore) (archival : Prop) (requested : Scope) (max : Z) (status : Z) (headers : list (string * string)) (c : chunk) : Prop :=
  match c with
  | BJson v => ("Content-Type", "application/json")%string ∈ headers /\ value_ok store archival requested status v
  | BText _ => status = 404 \/ status = 405
  | BBytes data => status = 200 /\ Z.of_nat (length data) <= max /\
      ("X-Content-Type-Options", "nosniff")%string ∈ headers /\
      exists value, ("Content-Type"%string, value) ∈ headers /\ safe_type value
  end.

Definition page_ok (p : PageRequest) : Prop := 1 <= p_Limit p <= 500.

(** What a call may be, given the calls before it. *)
Definition call_ok (archival : Prop) (requested : Scope) (max : Z) (before : list ApiCall) (c : ApiCall) : Prop :=
  match c with
  | COverview f => of_Scope f = requested
  | CActivity f => of_Scope (af_OverviewFilter f) = requested
  | CListFlows f p => ff_Scope f = requested /\ page_ok p
  | CListFlowEvents _ f p => ef_Scope f = requested /\ page_ok p
  | CListExecutions f p => xf_Scope f = requested /\ page_ok p
  | CListExecutionFlows id f p => ff_Scope f = requested /\ ff_ExecutionID f = id /\ page_ok p
  | CSearchEntities f p => nf_Scope f = requested /\ page_ok p
  | CGetEntity key => ek_Scope key = requested
  | CListEntityFlows key f p => ek_Scope key = requested /\ ff_Scope f = requested /\ page_ok p
  | CListEvents f p => ef_Scope f = requested /\ page_ok p
  | CListArchives offset limit => archival /\ 0 <= offset /\ 1 <= limit <= 500
  | CGetArchive _ => archival
  | CReadArchive _ offset limit | CRestore _ offset limit => archival /\ 0 <= offset /\ 1 <= limit <= 10000
  | COpen store ref => exists id ev link, CGetEvent id ev None ∈ before /\ scopeAllowed requested (er_Scope ev) = true /\
      link ∈ er_Payloads ev /\ pl_Ref link = ref /\ ref_Store ref = store /\ ref_Size ref <= max
  | COpenArchive ref => archival /\ ref_Size ref <= max
  | _ => True
  end.

Definition cors_ok (origins : list string) (headers : list (string * string)) : Prop :=
  forall v, ("Access-Control-Allow-Origin"%string, v) ∈ headers -> v ∈ origins.

(** A response writer nothing was sent to, and one with a complete response. *)
Definition unanswered (origins : list string) (w : ResponseWriter) : Prop :=
  rw_sent w = None /\ rw_body w = [] /\ cors_ok origins (rw_header w).
Definition answered (store : ExplorerStore) (archival : Prop) (requested : Scope) (max : Z) (origins : list string) (w : ResponseWriter) : Prop :=
  exists status headers, rw_sent w = Some (status, headers) /\ cors_ok origins headers /\
    ((exists c, rw_body w = [c] /\ chunk_ok store archival requested max status headers c) \/ (status = 204 /\ rw_body w = [])).

Lemma decode_loop_fails i x text e : decode_loop i x text = Fail e -> e = ErrInvalidID.
Proof.
  revert i x; induction text as [|c text IH]; intros i x; cbn [decode_loop]; [done|].
  destruct (crockfordValue c). case_match; [by intros [= <-]|apply IH].
Qed.

Lemma decodeID_fails s e : decodeID s = Fail e -> e = ErrInvalidID.
Proof.
  unfold decodeID. destruct (negb _); [by intros [= <-]|].
  destruct (decode_loop 0 0 (string_bytes s)) eqn:E; cbn [mbind result_bind].
  - by case_match.
  - intros [= <-]. by eapply decode_loop_fails.
  - done.
Qed.

Section Spec.
Context {W : Type} (store : ExplorerStore) (archival : Prop) (requested : Scope) (max : Z) (origins : list string).
#[local] Abbreviation H := (M (Api W)).

(** [K] is what is known of the calls made so far. *)
Definition pre (K : list ApiCall -> Prop) (s : Api W) : Prop :=
  K (ap_calls s) /\ justified_calls (call_ok archival requested max) (ap_calls s) /\ unanswered origins (ap_w s).
Definition post (s : Api W) : Prop :=
  justified_calls (call_ok archival requested max) (ap_calls s) /\ answered store archival requested max origins (ap_w s).

(** A handler answers or panics before it answers; it never ends otherwise. *)
Definition handles (K : list ApiCall -> Prop) (m : H unit) : Prop :=
  mspec (pre K) m (fun r s => match r with
                              | Ok _ => post s
                              | Panic _ => pre (fun _ => True) s
                              | Fail _ => False
                              end).

#[local] Abbreviation any := (fun _ : list ApiCall => True).

Lemma handles_weaken K m : handles any m -> handles K m.
Proof. intros Hm s (_ & H1 & H2). by apply Hm. Qed.

Lemma justified_snoc_call (s : Api W) c :
  justified_calls (call_ok archival requested max) (ap_calls s) -> call_ok archival requested max (ap_calls s) c ->
  justified_calls (call_ok archival requested max) (ap_calls s ++ [c]).
Proof. apply justified_snoc. Qed.

(** *** Primitives *)

Lemma ask_store_handles {A} (f : answer A) log K (K' : A -> option error -> list ApiCall -> Prop) k :
  (forall h a e, K h -> call_ok archival requested max h (log a e)) ->
  (forall h a e, K h -> K' a e (h ++ [log a e])) ->
  (forall h a e, f h = Some (a, e) -> handles (K' a e) (k (a, e))) -> handles K (ask_store f log ≫= k).
Proof.
  intros Hlog HK Hk s (HKs & Hj & Hw). unfold mbind, M_bind, ask_store.
  destruct (f (ap_calls s)) as [[a e]|] eqn:Hf; [|done].
  apply (Hk _ _ _ Hf). split; [by apply HK|]. split; [by apply justified_snoc_call; [|apply Hlog]|done].
Qed.

(** The common case: nothing is remembered of the call. *)
Lemma ask_handles {A} (f : answer A) log k :
  (forall h a e, call_ok archival requested max h (log a e)) -> (forall h a e, f h = Some (a, e) -> handles any (k (a, e))) ->
  handles any (ask_store f log ≫= k).
Proof. intros Hlog Hk. apply (ask_store_handles _ _ any (fun _ _ => any)); eauto. Qed.

Lemma log_call_handles c K k :
  (forall h, K h -> call_ok archival requested max h c) -> handles any (k tt) -> handles K (log_call c ≫= k).
Proof.
  intros Hc Hk s (HK & Hj & Hw). unfold mbind, M_bind, log_call. apply Hk.
  split; [done|]. split; [apply justified_snoc_call; auto|done].
Qed.

Lemma in_world_handles {A} (m : M W A) K k :
  (forall r, handles K (k r)) -> handles K (in_world m ≫= k).
Proof.
  intros Hk s Hs. unfold mbind, M_bind, in_world. destruct (m (ap_world s)) as [w' [a|e|msg]].
  - by apply Hk.
  - by apply Hk.
  - destruct Hs as (_ & ? & ?). by split_and!.
Qed.

Lemma header_Set_elem k v w : (k, v) ∈ rw_header (header_Set k v w).
Proof. unfold header_Set. cbn. apply elem_of_app. right. by left. Qed.

Lemma header_Set_other k v w k' v' : k' <> k -> (k', v') ∈ rw_header w -> (k', v') ∈ rw_header (header_Set k v w).
Proof.
  intros Hk Hin. unfold header_Set. cbn. apply elem_of_app. left. apply list_elem_of_filter. by split.
Qed.

Lemma header_Set_unanswered k v w :
  (k = "Access-Control-Allow-Origin"%string -> v ∈ origins) ->
  unanswered origins w -> unanswered origins (header_Set k v w).
Proof.
  intros Hk (H1 & H2 & H3). split_and!; [done|done|]. intros v'. unfold header_Set. cbn.
  intros [[_ Hin]%list_elem_of_filter|[= <- <-]%list_elem_of_singleton]%elem_of_app; auto.
Qed.

(** Setting a header that is not about origins. *)
Lemma set_handles k v K next :
  k <> "Access-Control-Allow-Origin"%string -> handles K (next tt) -> handles K (on_w (header_Set k v) ≫= next).
Proof.
  intros Hk Hnext s (HK & Hj & Hw). unfold mbind, M_bind, on_w. apply Hnext.
  split_and!; [done|done|]. by apply header_Set_unanswered.
Qed.

(** The end of every response: status, then one chunk. *)
Lemma answered_chunk status c w :
  unanswered origins w -> chunk_ok store archival requested max status (rw_header w) c ->
  answered store archival requested max origins (Write_body c (WriteHeader status w)).
Proof.
  intros (H1 & H2 & H3) Hc. exists status, (rw_header w). unfold Write_body, WriteHeader.
  rewrite H1. cbn. rewrite H2. split_and!; [done|done|]. left. by exists c.
Qed.

Lemma writeJSON_handles status v K : value_ok store archival requested status v -> handles K (writeJSON status v).
Proof.
  intros Hv s (_ & Hj & Hw). unfold writeJSON, mbind, M_bind, on_w. cbn. split; [done|].
  apply answered_chunk; [by apply header_Set_unanswered|]. split; [apply header_Set_elem|done].
Qed.

Lemma respondError_handles status code message K :
  status <> 200 -> status <> 500 -> public_message message -> handles K (respondError status code message).
Proof. intros H1 H2 H3. apply writeJSON_handles. done. Qed.

Lemma bad_handles e K : public_message (err_text e) -> handles K (bad e).
Proof. intros He. by apply respondError_handles. Qed.

Lemma respond_err_handles e K : handles K (respond_err e).
Proof.
  unfold respond_err. destruct (_ || _); [apply respondError_handles; [done|done|public]|].
  destruct (errors_Is e ErrInvalidCursor) eqn:Ec; [apply bad_handles; public|].
  apply log_call_handles; [done|]. apply writeJSON_handles. split_and!; [done|done|public].
Qed.

Lemma respond_handles v e K :
  (match v with VError _ _ => False | _ => True end) -> (e = None -> in_scope store archival requested v) -> handles K (respond v e).
Proof.
  intros Hv He. destruct e as [e|]; [apply respond_err_handles|]. apply writeJSON_handles.
  destruct v; try done; split; try done; by apply He.
Qed.

Lemma respondPage_handles {T} (items : list T -> page_items) p e K :
  (e = None -> provided store requested (VPage (items (pg_Items p)) (encodeCursor (pg_NextCursor p)) (pg_HasMore p))) ->
  handles K (respondPage items p e).
Proof. intros He. destruct e as [e|]; [apply respond_err_handles|]. apply writeJSON_handles. split; [done|]. by apply He. Qed.

Lemma with_id_handles text k K : (forall id, handles K (k id)) -> handles K (with_id (decodeID text) k).
Proof.
  intros Hk. destruct (decodeID text) as [id|e|msg] eqn:E; [apply Hk| |].
  - rewrite (decodeID_fails _ _ E). apply bad_handles. public.
  - intros s (_ & ? & ?). by split_and!.
Qed.

Lemma decodeCursor_error raw c e : decodeCursor raw = (c, Some e) -> e = ErrInvalidCursor.
Proof.
  unfold decodeCursor. destruct (str_eqb raw ""); [done|].
  destruct (b64_decode (string_bytes raw)) as [data|]; [|by intros [= <- <-]].
  destruct (mbind _ _); intros [= <- <-]; done.
Qed.

Lemma page_spec r p e : page r = (p, e) ->
  match e with None => page_ok p | Some e => public_message (err_text e) end.
Proof.
  unfold page. destruct (Atoi (rq_Query r "limit")) as [n ok].
  destruct (negb (str_eqb (rq_Query r "limit") "") && _) eqn:El.
  - intros [= <- <-]. public.
  - destruct (decodeCursor (rq_Query r "cursor")) as [c e'] eqn:Ec. intros [= <- <-]. destruct e' as [e'|].
    + apply decodeCursor_error in Ec as ->. right. by exists ErrInvalidCursor.
    + unfold page_ok. cbn [p_Limit]. destruct (str_eqb (rq_Query r "limit") ""); [lia|].
      cbn [negb andb] in El. bool_cases. lia.
Qed.

Lemma with_page_handles r k K : (forall p, page_ok p -> handles K (k p)) -> handles K (with_page r k).
Proof.
  intros Hk. unfold with_page. destruct (page r) as [p e] eqn:E. apply page_spec in E.
  destruct e as [e|]; [by apply bad_handles|by apply Hk].
Qed.

Lemma check_scope_None r actual e :
  check_scope r actual e = None -> scopeAllowed (scopeFilter r) actual = true.
Proof. destruct e; [done|]. cbn. by destruct (scopeAllowed _ _). Qed.

Lemma retries_loop_None scope l :
  retries_loop scope l = None -> Forall (fun x => scopeAllowed scope (xs_Scope x) = true) l.
Proof.
  induction l as [|x l IH]; [constructor|]. cbn. destruct (scopeAllowed scope (xs_Scope x)) eqn:E; [|done].
  constructor; auto.
Qed.
End Spec.

(** ** Handlers *)

Section Handlers.
Context {W : Type} (sha256 : bytes -> array 32) (gunzip : bytes -> result bytes).
Context (dec_record : bytes -> result EventRecord) (dec_manifest : bytes -> result Manifest).
Context (ctx : nat -> option error).
Context (cfg : ApiConfig W) (store : ExplorerStore) (archival : Prop) (r : Request).

#[local] Abbreviation max := (ac_MaxPayloadBytes cfg).
#[local] Abbreviation any := (fun _ : list ApiCall => True).
#[local] Abbreviation handled := (handles (W := W) store archival (scopeFilter r) max (ac_AllowedOrigins cfg) any).

Context (Hmax : 0 < max).

Lemma flowFilter_scope : ff_Scope (flowFilter r) = scopeFilter r.
Proof. unfold flowFilter. by destruct (negb _). Qed.

Lemma if_scope (b : bool) (f g : EventFilter) : ef_Scope g = ef_Scope f -> ef_Scope (if b then g else f) = ef_Scope f.
Proof. by destruct b. Qed.

Lemma eventFilter_scope : ef_Scope (eventFilter r) = scopeFilter r.
Proof.
  unfold eventFilter. cbv zeta.
  repeat (etransitivity; [apply if_scope; first [reflexivity | destruct (ParseBool _); reflexivity]|]).
  reflexivity.
Qed.

(** The value is what the store has just answered for the scope. *)
Ltac just_provided :=
  cbn [in_scope]; econstructor; try eassumption; first [reflexivity | apply flowFilter_scope | apply eventFilter_scope].

(** [handler_auto] walks from the request to the response. *)
Ltac handler_auto :=
  repeat lazymatch goal with
  | |- handles _ _ _ _ _ _ (respond_err _) => apply respond_err_handles
  | |- handles _ _ _ _ _ _ (respondPage _ _ _) => apply respondPage_handles; intros He; subst; just_provided
  | |- handles _ _ _ _ _ _ (respond _ _) =>
      apply respond_handles; [done|intros He; first [by eapply check_scope_None | subst; just_provided]]
  | |- handles _ _ _ _ _ _ (bad _) => apply bad_handles; public
  | |- handles _ _ _ _ _ _ (respondError _ _ _) => apply respondError_handles; [done|done|public]
  | |- handles _ _ _ _ _ _ no_catalog => unfold no_catalog
  | |- handles _ _ _ _ _ _ no_archive => unfold no_archive
  | |- handles _ _ _ _ _ _ (with_id _ _) => apply with_id_handles; intros
  | |- handles _ _ _ _ _ _ (with_page _ _) => apply with_page_handles; intros
  | |- handles _ _ _ _ _ _ (ask_store _ _ ≫= _) => apply ask_handles; [by intros|intros]
  end.

Lemma overview_handled : handled (overview store r).
Proof. unfold overview. handler_auto. Qed.

Lemma overviewActivity_handled : handled (overviewActivity store r).
Proof.
  unfold overviewActivity. destruct (x_OverviewActivity store) as [reader|] eqn:Hreader; [|handler_auto].
  unfold overviewActivityFilter. destruct (_ && _); [handler_auto|]. destruct (_ && _); handler_auto.
Qed.

#[local] Hint Resolve flowFilter_scope eventFilter_scope : core.

Lemma flows_handled : handled (flows store r).
Proof. unfold flows. apply with_page_handles. intros p Hp. apply ask_handles; [|intros; handler_auto]. by split. Qed.

Lemma flow_handled : handled (flow store r).
Proof. unfold flow. handler_auto. Qed.

Lemma flowEvents_handled : handled (flowEvents store r).
Proof.
  unfold flowEvents. apply with_id_handles. intros id. apply with_page_handles. intros p Hp.
  apply ask_handles; [|intros; handler_auto]. by split.
Qed.

Lemma executions_handled : handled (executions store r).
Proof. unfold executions. apply with_page_handles. intros p Hp. apply ask_handles; [|intros; handler_auto]. by split. Qed.

Lemma execution_handled : handled (execution store r).
Proof. unfold execution. handler_auto. Qed.

Lemma executionFlows_handled : handled (executionFlows store r).
Proof.
  unfold executionFlows. apply with_id_handles. intros id. apply with_page_handles. intros p Hp.
  apply ask_handles; [intros; cbn [call_ok]|intros; handler_auto]. split_and!; [apply flowFilter_scope|done|done].
Qed.

Lemma retries_handled : handled (retries store r).
Proof.
  unfold retries. apply with_id_handles. intros id. apply ask_handles; [done|]. intros h v e Hf.
  apply respond_handles; [done|]. destruct e; [done|]. apply retries_loop_None.
Qed.

Lemma entities_handled : handled (entities store r).
Proof. unfold entities. apply with_page_handles. intros p Hp. apply ask_handles; [|intros; handler_auto]. by split. Qed.

Lemma entity_handled : handled (entity store r).
Proof. unfold entity. destruct (_ || _); handler_auto. Qed.

Lemma entityFlows_handled : handled (entityFlows store r).
Proof.
  unfold entityFlows. apply with_page_handles. intros p Hp.
  apply ask_handles; [intros; cbn [call_ok]|intros; handler_auto]. split_and!; [done|apply flowFilter_scope|done].
Qed.

Lemma events_handled : handled (events store r).
Proof. unfold events. apply with_page_handles. intros p Hp. apply ask_handles; [|intros; handler_auto]. by split. Qed.

Lemma event_handled : handled (event store r).
Proof. unfold event. handler_auto. Qed.

(** *** Payloads and archives *)

Lemma safeContentType_safe value : safe_type (safeContentType value).
Proof.
  unfold safeContentType. destruct (_ || _) eqn:E; [|right; set_solver].
  apply orb_true_iff in E as [[E|E]%orb_true_iff|E]; [by left| |]; unfold str_eqb in E; bool_cases;
    right; rewrite E; set_solver.
Qed.

(** The headers of a payload response are in place. *)
Definition payload_headers (ref : Ref) (w : ResponseWriter) : Prop :=
  unanswered (ac_AllowedOrigins cfg) w /\ ("X-Content-Type-Options", "nosniff")%string ∈ rw_header w /\
  ("Content-Type"%string, safeContentType (ref_ContentType ref)) ∈ rw_header w.

Lemma payload_headers_set ref k v w :
  k ∉ ["Access-Control-Allow-Origin"; "X-Content-Type-Options"; "Content-Type"]%string ->
  payload_headers ref w -> payload_headers ref (header_Set k v w).
Proof.
  intros Hk (H1 & H2 & H3).
  split_and!; [apply header_Set_unanswered; [set_solver|done]|apply header_Set_other; [set_solver|done]..].
Qed.

Lemma payload_headers_first ref w :
  unanswered (ac_AllowedOrigins cfg) w ->
  payload_headers ref (header_Set "X-Content-Type-Options" "nosniff"
                         (header_Set "Content-Type" (safeContentType (ref_ContentType ref)) w)).
Proof.
  intros Hw. split_and!; [by repeat apply header_Set_unanswered|apply header_Set_elem|].
  apply header_Set_other; [done|apply header_Set_elem].
Qed.

Lemma payload_headers_send ref data w :
  payload_headers ref w ->
  answered store archival (scopeFilter r) max (ac_AllowedOrigins cfg) (Write_body (BBytes (take (Z.to_nat max) data)) w).
Proof.
  intros (Hw & Hn & Ht).
  replace (Write_body _ w) with (Write_body (BBytes (take (Z.to_nat max) data)) (WriteHeader 200 w)).
  - apply answered_chunk; [done|]. split_and!; [done| |done|].
    + rewrite length_take. lia.
    + eexists. split; [exact Ht|apply safeContentType_safe].
  - unfold Write_body, WriteHeader. destruct w as [h [sent|] b]; done.
Qed.

Lemma send_payload_handled ref disposition data : handled (send_payload cfg ref disposition data).
Proof.
  intros s (_ & Hj & Hw). pose proof (payload_headers_first ref _ Hw) as H1.
  unfold send_payload, mbind, M_bind, on_w. cbn -[header_Set Write_body take Z.to_nat].
  revert H1. generalize (header_Set "X-Content-Type-Options" "nosniff"
    (header_Set "Content-Type" (safeContentType (ref_ContentType ref)) (ap_w s))). intros w1 H1.
  destruct disposition, (str_eqb (ref_Compression ref) CompressionGZIP);
    cbn -[header_Set Write_body take Z.to_nat]; (split; [done|]); apply (payload_headers_send ref);
    repeat (apply payload_headers_set; [by apply (bool_decide_unpack _); vm_compute|]); done.
Qed.

Lemma eventPayload_handled : handled (eventPayload cfg store r).
Proof.
  unfold eventPayload. apply with_id_handles. intros id.
  eapply (ask_store_handles _ _ _ _ _ _ _ _ (fun ev e h => CGetEvent id ev e ∈ h)); [done| |].
  { intros h ev e _. apply elem_of_app. right. by left. }
  intros h0 ev [err|] _; [apply respond_err_handles|].
  destruct (scopeAllowed (scopeFilter r) (er_Scope ev)) eqn:Es; [|apply respond_err_handles].
  cbn [negb]. destruct (find _ (er_Payloads ev)) as [link|] eqn:Ef; [|apply respond_err_handles].
  apply find_some in Ef as [Hlink _]. apply list_elem_of_In in Hlink.
  destruct (ac_PayloadStores cfg !! ref_Store (pl_Ref link)) as [source|]; [|handler_auto].
  destruct (max <? ref_Size (pl_Ref link)) eqn:Em; [handler_auto|]. bool_cases.
  apply log_call_handles.
  - intros h Hh. exists id, ev, link. split_and!; done.
  - apply in_world_handles. intros [data|err]; [apply send_payload_handled|handler_auto].
Qed.

Lemma offset_limit_spec m offset limit :
  offset_limit r m = Some (offset, limit) -> 0 <= offset /\ 1 <= limit <= m.
Proof. unfold offset_limit. destruct (_ || _) eqn:E; [done|]. intros [= <- <-]. bool_cases. lia. Qed.

(** The archive handlers are reached on archive paths. *)
Context (Harchival : archival).

Lemma archives_handled : handled (archives cfg r).
Proof.
  unfold archives. destruct (ac_ArchiveCatalog cfg) as [catalog|]; [|handler_auto].
  destruct (offset_limit r 500) as [[offset limit]|] eqn:E; [|handler_auto].
  apply offset_limit_spec in E. apply ask_handles; [done|]. intros. apply respond_handles; [done|by intros _].
Qed.

Lemma archiveDetail_handled : handled (archiveDetail cfg r).
Proof.
  unfold archiveDetail. destruct (ac_ArchiveCatalog cfg); [|handler_auto]. apply ask_handles; [done|]. intros.
  apply respond_handles; [done|by intros _].
Qed.

Lemma archiveRequest_handled k :
  (forall archive receipt offset limit, 0 <= offset /\ 1 <= limit <= 10000 -> handled (k archive receipt offset limit)) ->
  handled (archiveRequest cfg r k).
Proof.
  intros Hk. unfold archiveRequest. destruct (ac_ArchiveCatalog cfg) as [catalog|]; [|handler_auto].
  destruct (ac_ArchiveStore cfg) as [archive|]; [|handler_auto].
  destruct (offset_limit r 10000) as [[offset limit]|] eqn:E; [|handler_auto]. apply offset_limit_spec in E.
  apply ask_handles; [done|]. intros h receipt [e|] _; [handler_auto|]. by apply Hk.
Qed.

Lemma archiveEvents_handled : handled (archiveEvents sha256 gunzip dec_record ctx cfg r).
Proof.
  apply archiveRequest_handled. intros. apply log_call_handles; [done|]. apply in_world_handles.
  intros [[events complete]|e]; [|handler_auto]. apply respond_handles; [done|by intros _].
Qed.

Lemma archivePayload_handled : handled (archivePayload cfg r).
Proof.
  unfold archivePayload. destruct (ac_ArchiveCatalog cfg) as [catalog|]; [|handler_auto].
  destruct (ac_ArchiveStore cfg) as [archive|]; [|handler_auto].
  apply ask_handles; [done|]. intros h receipt [e|] _; [handler_auto|].
  destruct (Atoi _) as [index ok]. destruct (_ || _); [handler_auto|].
  destruct (_ !! _) as [entry|]; [|handler_auto].
  destruct (max <? ref_Size (pe_Archive entry)) eqn:Em; [handler_auto|]. bool_cases.
  apply log_call_handles; [done|]. apply in_world_handles.
  intros [data|err]; [apply send_payload_handled|handler_auto].
Qed.

Lemma restoreArchive_handled : handled (restoreArchive sha256 gunzip dec_record dec_manifest ctx cfg r).
Proof.
  unfold restoreArchive. destruct (ac_ArchiveRestore cfg) as [restore_events|]; [|handler_auto].
  destruct (negb _); [handler_auto|]. apply archiveRequest_handled. intros.
  apply log_call_handles; [done|]. apply in_world_handles. intros [v|e]; [|handler_auto].
  apply respond_handles; [done|by intros _].
Qed.
End Handlers.

(** ** Routing and middleware *)

Section Serve.
Context {W : Type} (sha256 : bytes -> array 32) (gunzip : bytes -> result bytes).
Context (dec_record : bytes -> result EventRecord) (dec_manifest : bytes -> result Manifest).
Context (ctx : nat -> option error).

#[local] Abbreviation any := (fun _ : list ApiCall => True).
#[local] Abbreviation archival r := (archive_path (rq_Path r) = true).
#[local] Abbreviation handled cfg store r := (handles (W := W) store (archival r) (scopeFilter r) (ac_MaxPayloadBytes cfg) (ac_AllowedOrigins cfg) any).
#[local] Abbreviation routes := (routes sha256 gunzip dec_record dec_manifest ctx).
#[local] Abbreviation New := (New sha256 gunzip dec_record dec_manifest ctx).

Lemma api_archive_path pattern path :
  is_Some (match_path (api (Lit "archives" :: pattern)) path) -> archive_path path = true.
Proof.
  unfold api. destruct path as [|a [|v [|x path]]]; intros [values H]; cbn [match_path archive_path] in *;
    repeat case_match; done.
Qed.

Lemma routes_handled cfg store : 0 < ac_MaxPayloadBytes cfg ->
  Forall (fun route => forall r, is_Some (match_path route.1.2 (rq_Path r)) -> handled cfg store r (route.2 r)) (routes cfg store).
Proof.
  intros Hmax. unfold ExplorerApi.routes.
  repeat (apply Forall_cons; split; [cbn [fst snd]; intros r Hr|]); [..|by apply Forall_nil];
    [..|apply api_archive_path in Hr|apply api_archive_path in Hr|apply api_archive_path in Hr|apply api_archive_path in Hr
       |apply api_archive_path in Hr].
  - by apply overview_handled.
  - by apply overviewActivity_handled.
  - by apply flows_handled.
  - by apply flow_handled.
  - by apply flowEvents_handled.
  - by apply executions_handled.
  - by apply execution_handled.
  - by apply executionFlows_handled.
  - by apply retries_handled.
  - by apply entities_handled.
  - by apply entity_handled.
  - by apply entityFlows_handled.
  - by apply events_handled.
  - by apply event_handled.
  - by apply eventPayload_handled.
  - by apply archives_handled.
  - by apply archiveDetail_handled.
  - by apply archiveEvents_handled.
  - by apply archivePayload_handled.
  - by apply restoreArchive_handled.
Qed.

Lemma text_handles store archival requested max origins status text :
  status = 404 \/ status = 405 ->
  handles (W := W) store archival requested max origins any (_ ← on_w (WriteHeader status); on_w (Write_body (BText text))).
Proof.
  intros Hst s (_ & Hj & Hw). split; [done|]. apply answered_chunk; [done|]. done.
Qed.

Lemma mux_handled cfg store r : 0 < ac_MaxPayloadBytes cfg -> handled cfg store r (mux (routes cfg store) r).
Proof.
  intros Hmax. unfold mux. destruct (find _ _) as [[[method pattern] handler]|] eqn:E.
  - apply find_some in E as [Hin Hmatch]. apply list_elem_of_In in Hin. apply andb_true_iff in Hmatch as [_ Hmatch%bool_decide_eq_true].
    pose proof (routes_handled cfg store Hmax) as HF. rewrite Forall_forall in HF.
    set (r' := r <| rq_PathValue := _ |>). exact (HF _ Hin r' Hmatch).
  - case_match; apply text_handles; auto.
Qed.

Lemma cors_handled (cfg : ApiConfig W) store next r :
  handled cfg store r (next r) -> handled cfg store r (cors (ac_AllowedOrigins cfg) next r).
Proof.
  intros Hnext. unfold cors.
  assert (forall s : Api W, pre (archival r) (scopeFilter r) (ac_MaxPayloadBytes cfg) (ac_AllowedOrigins cfg) any s ->
    exists s1, (if bool_decide (rq_Header r "Origin" ∈ ac_AllowedOrigins cfg)
       then _ ← on_w (header_Set "Access-Control-Allow-Origin" (rq_Header r "Origin")); on_w (header_Set "Vary" "Origin")
       else mret tt) s = (s1, Ok tt) /\ pre (archival r) (scopeFilter r) (ac_MaxPayloadBytes cfg) (ac_AllowedOrigins cfg) any s1) as H1.
  { intros s Hs. case_bool_decide as Ho; [|by exists s]. eexists. split; [done|].
    destruct Hs as (_ & Hj & Hw). split_and!; [done|done|]. by do 2 (apply header_Set_unanswered; [done|]). }
  intros s Hs. destruct (H1 s Hs) as (s1 & E & Hs1). rewrite (M_bind_run _ _ _ _ _ E).
  destruct (str_eqb (rq_Method r) "OPTIONS"); [|by apply Hnext].
  destruct Hs1 as (_ & Hj & Hw). split; [done|].
  set (w2 := header_Set "Access-Control-Allow-Headers" "Content-Type"
    (header_Set "Access-Control-Allow-Methods" "GET, OPTIONS" (ap_w s1))).
  assert (unanswered (ac_AllowedOrigins cfg) w2) as (H2 & H3 & H4)
    by (by do 2 (apply header_Set_unanswered; [done|])).
  change (answered store (archival r) (scopeFilter r) (ac_MaxPayloadBytes cfg) (ac_AllowedOrigins cfg) (WriteHeader 204 w2)).
  exists 204, (rw_header w2). unfold WriteHeader. rewrite H2. split_and!; [done|exact H4|by right].
Qed.

Lemma recover_handled (cfg : ApiConfig W) store next r s :
  handled cfg store r (next r) -> pre (archival r) (scopeFilter r) (ac_MaxPayloadBytes cfg) (ac_AllowedOrigins cfg) any s ->
  exists s', recoverMiddleware next r s = (s', Ok tt) /\
    post store (archival r) (scopeFilter r) (ac_MaxPayloadBytes cfg) (ac_AllowedOrigins cfg) s'.
Proof.
  intros Hnext Hs. specialize (Hnext s Hs). unfold recoverMiddleware. destruct (next r s) as [s1 [[]|e|msg]]; cbn in Hnext.
  - by exists s1.
  - done.
  - assert (value_ok store (archival r) (scopeFilter r) 500 (VError "internal_error" "request failed")) as Hv
      by (split_and!; [done|done|public]).
    pose proof (writeJSON_handles _ _ _ _ _ _ _ any Hv s1 Hnext) as Hr. unfold respondError.
    eexists. split; [reflexivity|]. exact Hr.
Qed.

(** Every request to a server that [New] built gets one response that meets the
    specification; no panic escapes. *)
Lemma serve_spec (cfg : ApiConfig W) server (w : W) (r : Request) :
  New cfg = Ok server ->
  exists s store, ServeHTTP server w r = (s, Ok tt) /\ ac_Store cfg = Some store /\ 0 < ac_MaxPayloadBytes server.1 /\
    post store (archival r) (scopeFilter r) (ac_MaxPayloadBytes server.1) (ac_AllowedOrigins cfg) s.
Proof.
  unfold ExplorerApi.New. destruct (ac_Store cfg) as [store|] eqn:Hstore; [|done]. intros <-%Ok_inj.
  set (cfg' := if ac_MaxPayloadBytes cfg <=? 0 then _ else cfg).
  assert (0 < ac_MaxPayloadBytes cfg') as Hmax
    by (subst cfg'; destruct (ac_MaxPayloadBytes cfg <=? 0) eqn:E; [done|bool_cases; done]).
  assert (ac_AllowedOrigins cfg' = ac_AllowedOrigins cfg) as Ho by (subst cfg'; by destruct (_ <=? 0)).
  destruct (recover_handled cfg' store (cors (ac_AllowedOrigins cfg') (mux (routes cfg' store))) r (mkApi w [] ResponseWriter0))
    as (s & E & Hs).
  - apply cors_handled. by apply mux_handled.
  - split; [done|]. split; [apply justified_nil|]. split; [done|]. split; [done|].
    intros v Hv. by apply elem_of_nil in Hv.
  - exists s, store. rewrite <- Ho. by split_and!.
Qed.

(** ** Properties *)

(** What a request with this scope may be shown: a record that has exactly this scope,
    or what the store provided for exactly this scope, and no archive. *)
Definition shows_only (store : ExplorerStore) (scope : Scope) (v : api_value) : Prop :=
  match v with
  | VFlow v => fs_Scope (fd_FlowSummary v) = scope
  | VExecution v => xs_Scope (xd_ExecutionSummary v) = scope
  | VRetries v => Forall (fun x => xs_Scope x = scope) (rt_Executions v)
  | VEvent v => er_Scope v = scope
  | VOverview _ | VActivity _ | VPage _ _ _ | VEntity _ => provided store scope v
  | VArchives _ _ | VArchive _ | VArchiveEvents _ _ _ | VRestore _ => False
  | VError _ _ => True
  end.

Definition call_scope (c : ApiCall) : option Scope :=
  match c with
  | COverview f => Some (of_Scope f)
  | CActivity f => Some (of_Scope (af_OverviewFilter f))
  | CListFlows f _ | CListExecutionFlows _ f _ | CListEntityFlows _ f _ => Some (ff_Scope f)
  | CListFlowEvents _ f _ | CListEvents f _ => Some (ef_Scope f)
  | CListExecutions f _ => Some (xf_Scope f)
  | CSearchEntities f _ => Some (nf_Scope f)
  | CGetEntity key => Some (ek_Scope key)
  | _ => None
  end.

(** A call to the archive catalogue or the archive store. *)
Definition archive_call (c : ApiCall) : bool :=
  match c with
  | CListArchives _ _ | CGetArchive _ | CReadArchive _ _ _ | CRestore _ _ _ | COpenArchive _ => true
  | _ => false
  end.

Lemma scopeAllowed_exact requested actual :
  Scope_IsZero requested = false -> scopeAllowed requested actual = true -> actual = requested.
Proof. unfold scopeAllowed. intros ->. cbn [orb]. intros ?. by bool_cases. Qed.

Lemma in_scope_exact store (archival : Prop) requested v : ~ archival ->
  Scope_IsZero requested = false -> in_scope store archival requested v -> shows_only store requested v.
Proof.
  intros Ha Hz. destruct v; cbn [in_scope shows_only]; try done; try by apply scopeAllowed_exact.
  intros HF. eapply Forall_impl; [exact HF|]. intros x. by apply scopeAllowed_exact.
Qed.

Lemma call_ok_scope (archival : Prop) requested max h c : ~ archival -> call_ok archival requested max h c ->
  archive_call c = false /\ forall scope, call_scope c = Some scope -> scope = requested.
Proof. intros Ha. destruct c; cbn; intros Hc; try tauto; (split; [done|]); intros scope [= <-]; apply Hc. Qed.

Lemma post_body store archival requested max origins (s : Api W) c :
  post store archival requested max origins s -> c ∈ rw_body (ap_w s) ->
  exists status headers, rw_sent (ap_w s) = Some (status, headers) /\ rw_body (ap_w s) = [c] /\
    chunk_ok store archival requested max status headers c.
Proof.
  intros (_ & status & headers & Hs & _ & [(c' & Hb & Hc)|(_ & Hb)]) Hin; rewrite Hb in Hin.
  - apply list_elem_of_singleton in Hin as ->. eauto.
  - by apply elem_of_nil in Hin.
Qed.

(** C8. Scope isolation of the Explorer API.  When a request outside the archive routes
    names a scope, every flow, execution, retry chain or event in the response was
    compared with it and has exactly that scope, and every page, entity, overview or
    activity in it is, unchanged, what the store answered to a list, lookup or
    overview whose filter or key carries exactly that scope; every such call made is
    filtered by it, no archive is read or shown, and a payload store is opened only
    for a link of an event that the store returned before and that has that scope.
    The archive routes, whose handlers never look at the scope, are left out. *)
Theorem api_scope_isolation (cfg : ApiConfig W) store server (w : W) (r : Request) (s : Api W) (res : result unit) :
  ac_Store cfg = Some store -> New cfg = Ok server ->
  Scope_IsZero (scopeFilter r) = false -> archive_path (rq_Path r) = false -> ServeHTTP server w r = (s, res) ->
  (forall v, BJson v ∈ rw_body (ap_w s) -> shows_only store (scopeFilter r) v) /\
  (forall c, c ∈ ap_calls s -> archive_call c = false /\ forall scope, call_scope c = Some scope -> scope = scopeFilter r) /\
  (forall h1 h2 name ref, ap_calls s = h1 ++ COpen name ref :: h2 ->
     exists id ev link, CGetEvent id ev None ∈ h1 /\ er_Scope ev = scopeFilter r /\
       link ∈ er_Payloads ev /\ pl_Ref link = ref /\ ref_Store ref = name).
Proof.
  intros Hstore HN Hz Hpath HS. destruct (serve_spec cfg server w r HN) as (s' & store' & HS' & Hstore' & _ & Hp).
  rewrite HS in HS'. injection HS' as -> ->. rewrite Hstore in Hstore'. injection Hstore' as <-.
  assert (~ archival r) as Ha by (by rewrite Hpath). split_and!.
  - intros v Hv. destruct (post_body _ _ _ _ _ _ _ Hp Hv) as (status & headers & _ & _ & _ & Hok).
    destruct v; try exact I; eapply in_scope_exact; try done; apply Hok.
  - intros c [h1 [h2 Hc]]%list_elem_of_split. eapply call_ok_scope, (proj1 Hp); [done|exact Hc].
  - intros h1 h2 name ref Hc.
    destruct (proj1 Hp _ _ _ Hc) as (id & ev & link & H1 & H2 & H3 & H4 & H5 & _).
    exists id, ev, link. split_and!; try done. by apply scopeAllowed_exact.
Qed.

(** C35. Every request is answered exactly once, whatever the store, the catalogue and
    the payload stores do, panics included: one status, and one body unless the
    response is the empty answer to a preflight.  An error body carries only fixed
    texts or that of an invalid cursor, a failure of the environment is reported as
    a bare internal error, and the origin header echoes only allowed origins.  The
    bytes of a payload are those its reader gives before its end or its first error,
    which io.Copy's caller ignores; a reader that panics in the middle of the copy,
    after the status was sent, is not modelled. *)
Theorem api_answers_once (cfg : ApiConfig W) server (w : W) (r : Request) :
  New cfg = Ok server ->
  exists s status headers, ServeHTTP server w r = (s, Ok tt) /\ rw_sent (ap_w s) = Some (status, headers) /\
    ((status = 204 /\ rw_body (ap_w s) = []) \/ (exists c, rw_body (ap_w s) = [c])) /\
    (forall code message, BJson (VError code message) ∈ rw_body (ap_w s) ->
       status <> 200 /\ public_message message /\
       (status = 500 -> code = "internal_error"%string /\ message = "request failed"%string)) /\
    (forall origin, ("Access-Control-Allow-Origin"%string, origin) ∈ headers -> origin ∈ ac_AllowedOrigins cfg).
Proof.
  intros HN. destruct (serve_spec cfg server w r HN) as (s & store & HS & _ & _ & Hp).
  pose proof Hp as (_ & status & headers & Hsent & Ho & Hb).
  exists s, status, headers. split_and!; [done|done| | |done].
  - destruct Hb as [(c & Hb & _)|[? Hb]]; [right; by exists c|by left].
  - intros code message Hin. destruct (post_body _ _ _ _ _ _ _ Hp Hin) as (st & hs & Hs' & _ & _ & H1 & H2 & H3).
    rewrite Hsent in Hs'. by injection Hs' as -> ->.
Qed.

(** C38. Bounds of the Explorer API.  Every page asked of the store has a limit
    between 1 and 500, every archive range a non-negative offset and a limit of at
    most 500 (lists) or 10000 (reads and restores); a payload is opened only when
    its recorded size is within the read limit, the bytes sent never exceed it, and
    they are sent with a type from the safe list and without sniffing. *)
Theorem api_bounds (cfg : ApiConfig W) server (w : W) (r : Request) (s : Api W) (res : result unit) :
  New cfg = Ok server -> ServeHTTP server w r = (s, res) ->
  let max := ac_MaxPayloadBytes server.1 in
  0 < max /\
  (forall c, c ∈ ap_calls s ->
     match c with
     | CListFlows _ p | CListFlowEvents _ _ p | CListExecutions _ p | CListExecutionFlows _ _ p
     | CSearchEntities _ p | CListEntityFlows _ _ p | CListEvents _ p => 1 <= p_Limit p <= 500
     | CListArchives offset limit => 0 <= offset /\ 1 <= limit <= 500
     | CReadArchive _ offset limit | CRestore _ offset limit => 0 <= offset /\ 1 <= limit <= 10000
     | COpen _ ref | COpenArchive ref => ref_Size ref <= max
     | _ => True
     end) /\
  (forall data, BBytes data ∈ rw_body (ap_w s) -> Z.of_nat (length data) <= max /\
     exists headers value, rw_sent (ap_w s) = Some (200, headers) /\
       ("Content-Type"%string, value) ∈ headers /\ safe_type value /\
       ("X-Content-Type-Options", "nosniff")%string ∈ headers).
Proof.
  intros HN HS max. destruct (serve_spec cfg server w r HN) as (s' & store & HS' & _ & Hmax & Hp).
  rewrite HS in HS'. injection HS' as -> ->. split_and!; [done| |].
  - intros c [h1 [h2 Hc]]%list_elem_of_split. pose proof (proj1 Hp _ _ _ Hc) as Hok.
    destruct c; cbn in Hok; try exact I; try apply Hok; try by destruct_and? Hok.
    destruct Hok as (? & ? & ? & ? & ? & ? & ? & ? & ?). done.
  - intros data Hin.
    destruct (post_body _ _ _ _ _ _ _ Hp Hin) as (st & hs & Hs & _ & -> & Hl & Hn & value & Ht & Hv).
    split; [done|]. exists hs, value. by split_and!.
Qed.
End Serve.

(** ** Cursors *)

Lemma b64_encode_nonempty l : l <> [] -> b64_encode l <> [].
Proof. destruct l as [|a [|b [|c l]]]; done. Qed.

(** The JSON members of a cursor are read back whatever the values. *)
Lemma dec_Cursor_members t ts id :
  dec_time ts time_zero = Ok t ->
  dec_struct assign_Cursor (JObject [("Timestamp", ts); ("ID", JString id)]) Cursor_zero = Ok (mkCursor t id).
Proof.
  intros Ht. rewrite dec_struct_object. erewrite dec_members_cons; [|cbn; by rewrite Ht]. reflexivity.
Qed.

Lemma cursor_text (c : Cursor) :
  0 <= year_of (c_Timestamp c) <= 9999 -> utf8_valid (string_bytes (c_ID c)) = true ->
  marshal_Cursor c <> [] /\ (j ← json_parse (marshal_Cursor c); dec_struct assign_Cursor j Cursor_zero) = Ok c.
Proof.
  intros Hy Hu. unfold marshal_Cursor. destruct (enc_time (c_Timestamp c)) as [ts|e|msg] eqn:E.
  2,3: unfold enc_time in E; replace (_ && _) with true in E by lia; discriminate.
  split; [by rewrite json_print_object|]. rewrite json_parse_print.
  - cbn [mbind result_bind]. rewrite (dec_Cursor_members (c_Timestamp c)); [by destruct c|by eapply dec_enc_time].
  - cbn [json_ok forallb]. replace (json_ok ts) with true; [by rewrite Hu|]. symmetry.
    unfold enc_time in E. destruct (_ && _); [|done]. apply Ok_inj in E as <-. cbn [json_ok].
    rewrite String.list_ascii_of_string_of_list_ascii. by apply utf8_valid_ascii, format_ascii.
Qed.

Lemma decode_encode_Cursor (c : Cursor) :
  c_ID c <> "" -> utf8_valid (string_bytes (c_ID c)) = true -> 0 <= year_of (c_Timestamp c) <= 9999 ->
  encodeCursor c <> "" /\ decodeCursor (encodeCursor c) = (c, None).
Proof.
  intros Hid Hu Hy. destruct (cursor_text c Hy Hu) as [Hne Hdec].
  unfold encodeCursor, str_eqb. rewrite bool_decide_eq_false_2 by done.
  assert (bytes_string (b64_encode (marshal_Cursor c)) <> "") as Hb.
  { intros H%(f_equal string_bytes). rewrite String.list_ascii_of_string_of_list_ascii in H.
    by apply b64_encode_nonempty in H. }
  split; [done|]. unfold decodeCursor, str_eqb. rewrite bool_decide_eq_false_2 by done.
  rewrite String.list_ascii_of_string_of_list_ascii, b64_decode_encode. by rewrite Hdec.
Qed.

(** Cursors survive the API.  A cursor whose identifier is valid UTF-8 and whose
    time has a four-digit year is read back from the text handed to the client
    exactly, and that text is never empty, so a client that sends it asks for the
    next page; the empty cursor is the empty text, which asks for the first. *)
Lemma cursor_roundtrip (c : Cursor) :
  utf8_valid (string_bytes (c_ID c)) = true -> 0 <= year_of (c_Timestamp c) <= 9999 ->
  (encodeCursor c = "" <-> c_ID c = "") /\
  decodeCursor (encodeCursor c) = (if decide (c_ID c = "") then Cursor_zero else c, None).
Proof.
  intros Hu Hy. destruct (decide (c_ID c = "")) as [Hid|Hid].
  - unfold encodeCursor, str_eqb. by rewrite bool_decide_eq_true_2 by done.
  - destruct (decode_encode_Cursor c Hid Hu Hy). tauto.
Qed.

Definition demo_cursor : Cursor := mkCursor 1720000000120000000 "01j00000000000000000000001".

Lemma cursor_roundtrip_witness :
  encodeCursor demo_cursor <> "" /\ decodeCursor (encodeCursor demo_cursor) = (demo_cursor, None).
Proof.
  destruct (cursor_roundtrip demo_cursor) as [H1 H2]; [reflexivity|vm_compute; split; discriminate|].
  split; [intros H; by apply H1 in H|exact H2].
Defined.

(** ** A server over a store with one flow, in scope tenant/t1 *)

Definition demo_scope : Scope := mkScope "tenant" "t1".
Definition demo_flow : FlowDetail :=
  mkFlowDetail (mkFlowSummary (zero_array 16) "svc" "prod" demo_scope "" "" (zero_array 16) "running" 1 2 3) "a" "b".

(** Every operation but [GetFlow] panics. *)
Definition demo_store : ExplorerStore :=
  mkExplorerStore (fun _ _ => None) None (fun _ _ _ => None) (fun _ _ => Some (demo_flow, None))
    (fun _ _ _ _ => None) (fun _ _ _ => None) (fun _ _ => None) (fun _ _ _ _ => None) (fun _ _ => None)
    (fun _ _ _ => None) (fun _ _ => None) (fun _ _ _ _ => None) (fun _ _ _ => None) (fun _ _ => None).

Definition demo_api : ApiConfig unit := mkApiConfig (Some demo_store) ∅ 0 ["https://explorer"] None None None false.

Definition demo_request (scope_id path : string) : Request :=
  mkRequest "GET" ["api"; "v1"; "flows"; path]
    (fun k => if str_eqb k "scope_type" then "tenant" else if str_eqb k "scope_id" then scope_id else "")
    (fun k => if str_eqb k "Origin" then "https://explorer" else "") (fun _ => "").

Definition demo_serve (r : Request) : Api unit * result unit :=
  match New (fun _ => zero_array 32) Ok (fun _ => Fail type_error) (fun _ => Fail type_error) (fun _ => None) demo_api with
  | Ok server => ServeHTTP server tt r
  | _ => (mkApi tt [] ResponseWriter0, Ok tt)
  end.

(** The flow is shown to its own scope and hidden from another. *)
Example demo_serve_own : rw_body (ap_w (demo_serve (demo_request "t1" (encodeID (zero_array 16)))).1) = [BJson (VFlow demo_flow)].
Proof. vm_compute. reflexivity. Qed.

Example demo_serve_other : rw_body (ap_w (demo_serve (demo_request "t2" (encodeID (zero_array 16)))).1)
  = [BJson (VError "not_found" "resource not found")].
Proof. vm_compute. reflexivity. Qed.

Lemma api_scope_isolation_witness : exists server,
  New (fun _ => zero_array 32) Ok (fun _ => Fail type_error) (fun _ => Fail type_error) (fun _ => None) demo_api
    = Ok server /\
  forall v, BJson v ∈ rw_body (ap_w (ServeHTTP server tt (demo_request "t1" (encodeID (zero_array 16)))).1) ->
    shows_only demo_store demo_scope v.
Proof.
  eexists. split; [reflexivity|].
  destruct (api_scope_isolation (fun _ => zero_array 32) Ok (fun _ => Fail type_error) (fun _ => Fail type_error)
    (fun _ => None) demo_api demo_store _ tt (demo_request "t1" (encodeID (zero_array 16))) _ _
    ltac:(reflexivity) ltac:(reflexivity) ltac:(reflexivity) ltac:(reflexivity) (surjective_pairing _)) as (H & _ & _).
  exact H.
Defined.

Lemma api_answers_once_witness : exists server s status headers,
  New (fun _ => zero_array 32) Ok (fun _ => Fail type_error) (fun _ => Fail type_error) (fun _ => None) demo_api
    = Ok server /\
  ServeHTTP server tt (demo_request "t1" "not-an-id") = (s, Ok tt) /\ rw_sent (ap_w s) = Some (status, headers).
Proof.
  edestruct (api_answers_once (fun _ => zero_array 32) Ok (fun _ => Fail type_error) (fun _ => Fail type_error)
    (fun _ => None) demo_api _ tt (demo_request "t1" "not-an-id") ltac:(reflexivity))
    as (s & status & headers & H1 & H2 & _).
  eexists _, s, status, headers. split; [reflexivity|]. split; [exact H1|exact H2].
Defined.

Lemma api_bounds_witness : exists server,
  New (fun _ => zero_array 32) Ok (fun _ => Fail type_error) (fun _ => Fail type_error) (fun _ => None) demo_api
    = Ok server /\ 0 < ac_MaxPayloadBytes server.1.
Proof.
  eexists. split; [reflexivity|].
  exact (proj1 (api_bounds (fun _ => zero_array 32) Ok (fun _ => Fail type_error) (fun _ => Fail type_error)
    (fun _ => None) demo_api _ tt (demo_request "t1" "x") _ _ ltac:(reflexivity) (surjective_pairing _))).
Defined.
