(* ===== verification/ApiStores.v ===== *)
(** * What serving a request does to the payload stores

    A condition on the stores' world that opening keeps is kept by every request to a
    server without restoring; with restoring, putting and restoring events have to
    keep it too.  [steady] is that notion for one computation, and the handlers follow
    from the primitives by automation. *)

From S2P Require Import Prelude Ids Events GoLib GoText Json JsonText GoTime Base64 Payload Storage Archive Query Trace ExplorerApi ExplorerApiProofs.

(** ** Conditions a computation keeps *)

Definition steady {W A} (I : W -> Prop) (m : M W A) : Prop := forall w, I w -> I (m w).1.

Create HintDb trail_steady.

Section Steady.
Context {W : Type} (I : W -> Prop).

Lemma steady_ret {A} (a : A) : steady I (mret a).
Proof. by intros w. Qed.
Lemma steady_fail {A} e : steady I (fail e : M W A).
Proof. by intros w. Qed.
Lemma steady_lift {A} (r : result A) : steady I (lift r).
Proof. by intros w. Qed.
Lemma steady_bind {A B} (m : M W A) (k : A -> M W B) : steady I m -> (forall a, steady I (k a)) -> steady I (m ≫= k).
Proof.
  intros Hm Hk w Hw. specialize (Hm w Hw). unfold mbind, M_bind. destruct (m w) as [w1 [a|e|msg]]; [by apply Hk|done|done].
Qed.
Lemma steady_fold {A B} (f : B -> A -> M W B) l b : (forall b a, steady I (f b a)) -> steady I (foldM f l b).
Proof. intros Hf. revert b. induction l as [|a l IH]; intros b; [by apply steady_ret|]. cbn [foldM]. by apply steady_bind. Qed.
End Steady.
#[export] Hint Resolve steady_ret steady_fail steady_lift : trail_steady.

(** [steady_auto] follows the structure of the computation down to its primitives. *)
Ltac steady_auto :=
  repeat lazymatch goal with
  | |- forall _, _ => intros
  | |- steady _ (_ ≫= _) => apply steady_bind; [|intros]
  | |- steady _ (let '(_, _) := ?x in _) => destruct x
  | |- steady _ (if ?b then _ else _) => destruct b
  | |- steady _ (match ?x with _ => _ end) => destruct x
  end; eauto with trail_steady.

(** ** The archive's readers *)

Section Readers.
Context {W : Type} (I : W -> Prop) (sha256 : bytes -> array 32) (gunzip : bytes -> result bytes).
Context (dec_record : bytes -> result EventRecord) (dec_manifest : bytes -> result Manifest).
Context (ctx : nat -> option error) (archiveStore : PayloadStore W).
Context (Hopen : forall ref, steady I (ps_Open archiveStore ref)).

Lemma ReadManifest_steady ref : steady I (ReadManifest sha256 dec_manifest archiveStore ref).
Proof. unfold ReadManifest. cbv zeta. steady_auto. Qed.

Lemma ReadEvents_steady manifest offset limit :
  steady I (ReadEvents sha256 gunzip dec_record ctx archiveStore manifest offset limit).
Proof. unfold ReadEvents. steady_auto. Qed.

Lemma Restore_steady active restore_events receipt offset limit :
  (forall name destination data opts, active !! name = Some destination -> steady I (ps_Put destination data opts)) ->
  (forall id events, steady I (restore_events id events)) ->
  steady I (Restore sha256 gunzip dec_record dec_manifest ctx archiveStore active restore_events receipt offset limit).
Proof.
  intros Hput Hrestore. unfold Restore. cbv zeta. apply steady_bind; [apply ReadManifest_steady|]. intros manifest.
  destruct (negb _); [apply steady_fail|]. apply steady_bind; [apply ReadEvents_steady|]. intros [events complete].
  apply steady_bind; [|steady_auto]. apply steady_fold. intros [] entry. unfold restore_payload. cbv zeta.
  destruct (negb _); [apply steady_ret|]. destruct (active !! _) as [destination|] eqn:E; [|apply steady_fail]. steady_auto.
Qed.
End Readers.

(** ** The server *)

Section Serve.
Context {W : Type} (I : W -> Prop) (sha256 : bytes -> array 32) (gunzip : bytes -> result bytes).
Context (dec_record : bytes -> result EventRecord) (dec_manifest : bytes -> result Manifest).
Context (ctx : nat -> option error).

#[local] Abbreviation H := (M (Api W)).
#[local] Abbreviation kept := (steady (fun s : Api W => I (ap_world s))).

Lemma on_w_kept f : kept (on_w f : H unit).
Proof. by intros s. Qed.
Lemma log_call_kept c : kept (log_call c : H unit).
Proof. by intros s. Qed.
Lemma ask_store_kept {A} (f : answer A) log : kept (ask_store f log : H _).
Proof. intros s Hs. unfold ask_store. by destruct (f (ap_calls s)) as [[a e]|]. Qed.
Lemma in_world_kept {A} (m : M W A) : steady I m -> kept (in_world m).
Proof. intros Hm s Hs. specialize (Hm _ Hs). unfold in_world. by destruct (m (ap_world s)) as [w' [a|e|msg]]. Qed.
#[local] Hint Resolve on_w_kept log_call_kept ask_store_kept in_world_kept : trail_steady.

Lemma writeJSON_kept status v : kept (writeJSON status v : H unit).
Proof. unfold writeJSON. steady_auto. Qed.
#[local] Hint Resolve writeJSON_kept : trail_steady.

Lemma respond_err_kept e : kept (respond_err e : H unit).
Proof. unfold respond_err, bad, respondError. steady_auto. Qed.
#[local] Hint Resolve respond_err_kept : trail_steady.

Lemma respond_kept v e : kept (respond v e : H unit).
Proof. unfold respond. steady_auto. Qed.
Lemma respondPage_kept {T} (items : list T -> page_items) p e : kept (respondPage items p e : H unit).
Proof. unfold respondPage. steady_auto. Qed.
#[local] Hint Resolve respond_kept respondPage_kept : trail_steady.

Lemma with_id_kept parsed k : (forall id, kept (k id)) -> kept (with_id parsed k : H unit).
Proof. intros Hk. unfold with_id, bad, respondError. steady_auto. Qed.
Lemma with_page_kept r k : (forall p, kept (k p)) -> kept (with_page r k : H unit).
Proof. intros Hk. unfold with_page, bad, respondError. steady_auto. Qed.

Lemma send_payload_kept (cfg : ApiConfig W) ref disposition data : kept (send_payload cfg ref disposition data : H unit).
Proof. unfold send_payload. steady_auto. Qed.
#[local] Hint Resolve send_payload_kept : trail_steady.

Context (cfg : ApiConfig W).

(** What the configuration has to keep: opening always, putting and restoring events
    when the restore route is enabled. *)
Definition steady_config : Prop :=
  (forall name source ref, ac_PayloadStores cfg !! name = Some source -> steady I (ps_Open source ref)) /\
  (forall archiveStore ref, ac_ArchiveStore cfg = Some archiveStore -> steady I (ps_Open archiveStore ref)) /\
  (ac_EnableRestore cfg = true -> forall restore_events, ac_ArchiveRestore cfg = Some restore_events ->
     (forall name destination data opts, ac_PayloadStores cfg !! name = Some destination -> steady I (ps_Put destination data opts)) /\
     (forall id events, steady I (restore_events id events))).

Context (Hcfg : steady_config) (store : ExplorerStore).

Ltac handler_steady :=
  repeat first
    [ apply with_id_kept; intros
    | apply with_page_kept; intros
    | progress unfold bad, respondError, no_catalog, no_archive ];
  steady_auto.

Lemma source_kept name source ref : ac_PayloadStores cfg !! name = Some source -> kept (in_world (ps_Open source ref)).
Proof. intros E. apply in_world_kept. exact (proj1 Hcfg name source ref E). Qed.
Lemma archive_kept archiveStore ref : ac_ArchiveStore cfg = Some archiveStore -> steady I (ps_Open archiveStore ref).
Proof. exact (proj1 (proj2 Hcfg) archiveStore ref). Qed.

Lemma eventPayload_kept r : kept (eventPayload cfg store r).
Proof.
  unfold eventPayload. apply with_id_kept. intros id. apply steady_bind; [apply ask_store_kept|]. intros [event err].
  destruct err; [apply respond_err_kept|]. destruct (negb _); [apply respond_err_kept|]. destruct (find _ _) as [link|]; [|apply respond_err_kept].
  destruct (ac_PayloadStores cfg !! _) as [source|] eqn:E; [|handler_steady]. destruct (_ <? _); [handler_steady|].
  apply steady_bind; [apply log_call_kept|]. intros _. apply steady_bind; [by eapply source_kept|]. steady_auto.
Qed.

Lemma archiveRequest_kept r k :
  (forall archiveStore receipt offset limit, ac_ArchiveStore cfg = Some archiveStore -> kept (k archiveStore receipt offset limit)) ->
  kept (archiveRequest cfg r k).
Proof.
  intros Hk. unfold archiveRequest. destruct (ac_ArchiveCatalog cfg) as [catalog|]; [|handler_steady].
  destruct (ac_ArchiveStore cfg) as [archiveStore|] eqn:E; handler_steady.
Qed.

Lemma archiveEvents_kept r : kept (archiveEvents sha256 gunzip dec_record ctx cfg r).
Proof.
  apply archiveRequest_kept. intros archiveStore receipt offset limit E. apply steady_bind; [apply log_call_kept|]. intros _.
  apply steady_bind; [|steady_auto]. apply in_world_kept, ReadEvents_steady. intros ref. by apply archive_kept.
Qed.

Lemma archivePayload_kept r : kept (archivePayload cfg r).
Proof.
  unfold archivePayload. destruct (ac_ArchiveCatalog cfg) as [catalog|]; [|handler_steady].
  destruct (ac_ArchiveStore cfg) as [archiveStore|] eqn:E; [|handler_steady].
  assert (forall ref, kept (in_world (ps_Open archiveStore ref))) by (intros ref; apply in_world_kept; by apply archive_kept).
  handler_steady.
Qed.

Lemma restoreArchive_kept r : kept (restoreArchive sha256 gunzip dec_record dec_manifest ctx cfg r).
Proof.
  unfold restoreArchive. destruct (ac_ArchiveRestore cfg) as [restore_events|] eqn:Er; [|handler_steady].
  destruct (ac_EnableRestore cfg) eqn:Ee; cbn [negb]; [|handler_steady].
  apply archiveRequest_kept. intros archiveStore receipt offset limit E. apply steady_bind; [apply log_call_kept|]. intros _.
  destruct Hcfg as (_ & Ha & Hrestore). destruct (Hrestore Ee _ Er) as [Hput Hev].
  apply steady_bind; [|steady_auto]. apply in_world_kept, Restore_steady; [intros ref; by apply Ha|exact Hput|exact Hev].
Qed.

Lemma routes_kept : Forall (fun route => forall r, kept (route.2 r)) (routes sha256 gunzip dec_record dec_manifest ctx cfg store).
Proof.
  unfold routes. repeat (apply Forall_cons; split; [cbn [snd]; intros r|]); [..|by apply Forall_nil].
  all: lazymatch goal with
    | |- kept (eventPayload _ _ _) => apply eventPayload_kept
    | |- kept (archiveEvents _ _ _ _ _ _) => apply archiveEvents_kept
    | |- kept (archivePayload _ _) => apply archivePayload_kept
    | |- kept (restoreArchive _ _ _ _ _ _ _) => apply restoreArchive_kept
    | _ => unfold overview, overviewActivity, flows, flow, flowEvents, executions, execution, executionFlows, retries, entities,
             entity, entityFlows, events, event, archives, archiveDetail; cbv zeta; handler_steady
    end.
Qed.

Lemma mux_kept r : kept (mux (routes sha256 gunzip dec_record dec_manifest ctx cfg store) r).
Proof.
  unfold mux. destruct (find _ _) as [[[method pattern] handler]|] eqn:E.
  - apply find_some in E as [Hin _]. apply list_elem_of_In in Hin.
    pose proof routes_kept as HF. rewrite Forall_forall in HF. exact (HF _ Hin _).
  - destruct (existsb _ _); steady_auto.
Qed.

Lemma recover_kept next r : kept (next r) -> kept (recoverMiddleware next r : H unit).
Proof.
  intros Hnext s Hs. specialize (Hnext s Hs). unfold recoverMiddleware.
  destruct (next r s) as [s' [[]|e|msg]]; [done|done|]. by apply writeJSON_kept.
Qed.
End Serve.

(** A request keeps what the configured stores keep. *)
Lemma serve_steady {W} (I : W -> Prop) sha256 gunzip dec_record dec_manifest ctx (cfg : ApiConfig W) server w r :
  steady_config I cfg -> New sha256 gunzip dec_record dec_manifest ctx cfg = Ok server -> I w ->
  I (ap_world (ServeHTTP server w r).1).
Proof.
  intros Hcfg. unfold New. destruct (ac_Store cfg) as [store|]; [|done]. intros <-%Ok_inj Hw.
  unfold ServeHTTP. cbn [snd]. set (cfg' := if ac_MaxPayloadBytes cfg <=? 0 then _ else cfg).
  assert (steady_config I cfg') as Hcfg' by (subst cfg'; by destruct (_ <=? 0)).
  apply (recover_kept I); [|done]. unfold cors. cbv zeta. apply steady_bind; [steady_auto; by intros s|]. intros _.
  destruct (str_eqb _ "OPTIONS"); [steady_auto; by intros s|]. by apply mux_kept.
Qed.
