(* ===== verification/PgQuery.v ===== *)
(** * Reading from PostgreSQL (src/storage/postgres/query.go)

    The store builds SQL texts with numbered placeholders and a list of arguments,
    sends them through the pgx pool, scans the rows and makes pages.  The pool is an
    environment: it answers a text and its arguments with rows, where a row is what
    [Scan] leaves in the destination variables and the error it returns.  Every text
    sent is an entry of the history. *)

From S2P Require Import Prelude Ids Events GoLib GoText Json JsonText GoTime Wire Payload Storage LinkJson Query Trace.

(** ** Values *)

(** Arguments of a statement, and the values of columns. *)
Inductive arg :=
| ATime (t : Z)
| AText (s : string)
| ABytes (b : bytes)
| AInt (z : Z)
| ABool (b : bool)
| AIds (ids : list bytes)
| ANull.

#[global] Instance arg_eq_dec : EqDecision arg.
Proof. solve_decision. Defined.

Definition idBytes (id : id16) : arg := ABytes (array_bytes id).

(** [copy(v.ID[:], b)] into a zero identifier. *)
Definition copy16 (b : bytes) : id16 :=
  default (zero_array 16) (to_array 16 (take 16 b ++ replicate (16 - length b) zero_byte)).

(** ** Conditions *)

Record where_ := mkWhere { wh_parts : list string; wh_args : list arg; wh_base : bool }.
#[global] Instance eta_where : Eta where_ := fun b => mkWhere (wh_parts b) (wh_args b) (wh_base b).

Definition placeholder (k : nat) : string := "$" +:+ Itoa (Z.of_nat k).

Definition newWhere (existingWhere : Z) : where_ := mkWhere [] [] (0 <? existingWhere).
Definition add (s : string) (b : where_) : where_ := b <| wh_parts := wh_parts b ++ [s] |>.
Definition push (values : list arg) (b : where_) : where_ := b <| wh_args := wh_args b ++ values |>.
(** [len(b.args)], and the one before it. *)
Definition last_arg (b : where_) : string := placeholder (length (wh_args b)).
Definition prev_arg (b : where_) : string := placeholder (length (wh_args b) - 1).

Definition eq_ (column : string) (value : arg) (b : where_) : where_ :=
  let b := push [value] b in add (column +:+ "=" +:+ last_arg b) b.

Fixpoint Join (parts : list string) (sep : string) : string :=
  match parts with
  | [] => ""
  | [part] => part
  | part :: parts => part +:+ sep +:+ Join parts sep
  end.

Definition sql (b : where_) : string :=
  match wh_parts b with
  | [] => ""
  | _ => (if wh_base b then " AND " else " WHERE ") +:+ Join (wh_parts b) " AND "
  end.

Definition when (c : bool) (f : where_ -> where_) (b : where_) : where_ := if c then f b else b.
Definition given (s : string) : bool := negb (str_eqb s "").

Definition applyCommon (t : TimeRange) (service environment : string) (b : where_) : where_ :=
  let b := when (negb (time_IsZero (tr_From t)))
             (fun b => let b := push [ATime (tr_From t)] b in add ("event_time >= " +:+ last_arg b) b) b in
  let b := when (negb (time_IsZero (tr_To t)))
             (fun b => let b := push [ATime (tr_To t)] b in add ("event_time < " +:+ last_arg b) b) b in
  let b := when (given service) (eq_ "service" (AText service)) b in
  when (given environment) (eq_ "environment" (AText environment)) b.

Definition applyScope (scope : Scope) (b : where_) : where_ :=
  if Scope_IsZero scope then b
  else eq_ "scope_id" (AText (sc_ID scope)) (eq_ "scope_type" (AText (sc_Type scope)) b).

Definition direction_op (p : PageRequest) : string := if negb (p_Desc p) then ">" else "<".
Definition direction (p : PageRequest) : string := if negb (p_Desc p) then "ASC" else "DESC".

Definition applyCursor (p : PageRequest) (timeCol idCol : string) (b : where_) : where_ :=
  if str_eqb (c_ID (p_Cursor p)) "" then b
  else match ParseEventID (c_ID (p_Cursor p)) with
  | Ok raw =>
      let b := push [ATime (c_Timestamp (p_Cursor p)); idBytes raw] b in
      add ("(" +:+ timeCol +:+ "," +:+ idCol +:+ ") " +:+ direction_op p +:+ " (" +:+ prev_arg b +:+ "," +:+ last_arg b +:+ ")") b
  | _ => b
  end.

(** The statement and its arguments; [n] placeholders are in use. *)
Definition cursor_having (p : PageRequest) (timeCol idCol : string) (n : nat) : string :=
  " HAVING (" +:+ timeCol +:+ "," +:+ idCol +:+ ") " +:+ direction_op p +:+ " (" +:+ placeholder (n - 1) +:+ "," +:+ placeholder n +:+ ")".

Definition order_limit (p : PageRequest) (timeCol idCol : string) (n : nat) : string :=
  " ORDER BY " +:+ timeCol +:+ " " +:+ direction p +:+ "," +:+ idCol +:+ " " +:+ direction p +:+ " LIMIT " +:+ placeholder n.

Definition paginateGrouped (q : string) (args : list arg) (p : PageRequest) (timeCol idCol : string)
    : string * list arg :=
  let '(q, args) :=
    if given (c_ID (p_Cursor p)) then
      let raw := id_or_zero (ParseEventID (c_ID (p_Cursor p))) in
      let args := args ++ [ATime (c_Timestamp (p_Cursor p)); idBytes raw] in
      (q +:+ cursor_having p timeCol idCol (length args), args)
    else (q, args) in
  let args := args ++ [AInt (i64 (p_Limit p + 1))] in
  (q +:+ order_limit p timeCol idCol (length args), args).

(** ** Statements *)

Definition nl : string := String "010" "".

Definition flowSummarySelect : string :=
  "SELECT flow_id, service, environment," +:+ nl +:+
  " COALESCE((array_agg(scope_type ORDER BY event_time DESC,event_id DESC) FILTER(WHERE scope_type<>''))[1],'')," +:+ nl +:+
  " COALESCE((array_agg(scope_id ORDER BY event_time DESC,event_id DESC) FILTER(WHERE scope_id<>''))[1],'')," +:+ nl +:+
  " COALESCE((array_agg(entity_type ORDER BY event_time DESC,event_id DESC) FILTER(WHERE entity_type<>''))[1],'')," +:+ nl +:+
  " COALESCE((array_agg(entity_id ORDER BY event_time DESC,event_id DESC) FILTER(WHERE entity_id<>''))[1],'')," +:+ nl +:+
  " COALESCE((array_agg(execution_id ORDER BY event_time DESC,event_id DESC) FILTER(WHERE execution_id IS NOT NULL))[1],decode(repeat('00',16),'hex'))," +:+ nl +:+
  " COALESCE((array_agg(flow_status ORDER BY event_time DESC,event_id DESC) FILTER(WHERE flow_status<>''))[1],'')," +:+ nl +:+
  " min(event_time),max(event_time),count(DISTINCT event_id)," +:+ nl +:+
  " (array_agg(kind ORDER BY event_time,event_id))[1],(array_agg(kind ORDER BY event_time DESC,event_id DESC))[1]" +:+ nl +:+
  " FROM trail_events WHERE flow_id IS NOT NULL".

Definition executionSummarySelect : string :=
  "SELECT execution_id,service,environment," +:+ nl +:+
  " COALESCE((array_agg(scope_type ORDER BY event_time DESC,event_id DESC) FILTER(WHERE scope_type<>''))[1],'')," +:+ nl +:+
  " COALESCE((array_agg(scope_id ORDER BY event_time DESC,event_id DESC) FILTER(WHERE scope_id<>''))[1],'')," +:+ nl +:+
  " COALESCE((array_agg(execution_kind ORDER BY event_time DESC,event_id DESC) FILTER(WHERE execution_kind<>''))[1],'')," +:+ nl +:+
  " COALESCE((array_agg(execution_source ORDER BY event_time DESC,event_id DESC) FILTER(WHERE execution_source<>''))[1],'')," +:+ nl +:+
  " COALESCE((array_agg(execution_status ORDER BY event_time DESC,event_id DESC) FILTER(WHERE execution_status<>''))[1],''),max(execution_attempt)," +:+ nl +:+
  " COALESCE((array_agg(parent_execution_id ORDER BY event_time DESC,event_id DESC) FILTER(WHERE parent_execution_id IS NOT NULL))[1],decode(repeat('00',16),'hex'))," +:+ nl +:+
  " COALESCE((array_agg(retry_of_execution_id ORDER BY event_time DESC,event_id DESC) FILTER(WHERE retry_of_execution_id IS NOT NULL))[1],decode(repeat('00',16),'hex'))," +:+ nl +:+
  " min(event_time),max(event_time),count(DISTINCT event_id),count(DISTINCT flow_id) FILTER(WHERE flow_id IS NOT NULL)" +:+ nl +:+
  " FROM trail_events WHERE execution_id IS NOT NULL".

Definition eventSelect : string :=
  "SELECT event_time,event_id,batch_id,jetstream_stream,jetstream_stream_seq,jetstream_consumer,jetstream_consumer_seq,jetstream_delivered,received_at,service,environment,version,kind,level,flow_id,execution_id,parent_execution_id,retry_of_execution_id,execution_attempt,execution_source,scope_type,scope_id,entity_type,entity_id,parent_event_id,flow_status,execution_status,execution_kind,provider,has_error,fields,http_method,http_scheme,http_host,http_path,http_status_code,http_duration_ns,http_success,http_request_size,http_response_size,http_request_preview,http_response_preview,payload_refs FROM trail_events".

Definition flow_having (n : nat) : string :=
  " HAVING COALESCE((array_agg(flow_status ORDER BY event_time DESC,event_id DESC) FILTER(WHERE flow_status<>''))[1],'')=" +:+ placeholder n.
Definition execution_having (n : nat) : string :=
  " HAVING COALESCE((array_agg(execution_status ORDER BY event_time DESC,event_id DESC) FILTER(WHERE execution_status<>''))[1],'')=" +:+ placeholder n.

Definition flows_query (f : FlowFilter) (p : PageRequest) : string * list arg :=
  let b := applyScope (ff_Scope f) (applyCommon (ff_Time f) (ff_Service f) (ff_Environment f) (newWhere 1)) in
  let b := add "flow_id IS NOT NULL" b in
  let b := when (given (ff_EntityType f)) (eq_ "entity_type" (AText (ff_EntityType f))) b in
  let b := when (given (ff_EntityID f)) (eq_ "entity_id" (AText (ff_EntityID f))) b in
  let b := when (negb (IsZero (ff_ExecutionID f))) (eq_ "execution_id" (idBytes (ff_ExecutionID f))) b in
  let q := flowSummarySelect +:+ sql b +:+ " GROUP BY flow_id,service,environment" in
  let args := wh_args b in
  let '(q, args) :=
    if given (ff_Status f) then let args := args ++ [AText (ff_Status f)] in (q +:+ flow_having (length args), args)
    else (q, args) in
  paginateGrouped q args p "min(event_time)" "flow_id".

Definition executions_query (f : ExecutionFilter) (p : PageRequest) : string * list arg :=
  let b := applyScope (xf_Scope f) (applyCommon (xf_Time f) (xf_Service f) (xf_Environment f) (newWhere 1)) in
  let b := add "execution_id IS NOT NULL" b in
  let b := when (given (xf_Source f)) (eq_ "execution_source" (AText (xf_Source f))) b in
  let b := when (given (xf_Kind f)) (eq_ "execution_kind" (AText (xf_Kind f))) b in
  let q := executionSummarySelect +:+ sql b +:+ " GROUP BY execution_id,service,environment" in
  let args := wh_args b in
  let '(q, args) :=
    if given (xf_Status f) then let args := args ++ [AText (xf_Status f)] in (q +:+ execution_having (length args), args)
    else (q, args) in
  paginateGrouped q args p "min(event_time)" "execution_id".

Definition entitySelect : string :=
  "SELECT scope_type,scope_id,entity_type,entity_id,min(event_time),max(event_time),count(DISTINCT flow_id) FILTER(WHERE flow_id IS NOT NULL) FROM trail_events".

Definition entities_query (f : EntityFilter) (p : PageRequest) : string * list arg :=
  let b := applyScope (nf_Scope f) (applyCommon (nf_Time f) (nf_Service f) (nf_Environment f) (newWhere 0)) in
  let b := add "entity_type<>'' AND entity_id<>''" b in
  let b := when (given (nf_EntityType f)) (eq_ "entity_type" (AText (nf_EntityType f))) b in
  let b := when (given (nf_IDPrefix f))
             (fun b => let b := push [AText (nf_IDPrefix f +:+ "%")] b in add ("entity_id LIKE " +:+ last_arg b) b) b in
  let q := entitySelect +:+ sql b +:+ " GROUP BY scope_type,scope_id,entity_type,entity_id" in
  let args := wh_args b in
  let '(q, args) :=
    if given (c_ID (p_Cursor p)) then
      let args := args ++ [ATime (c_Timestamp (p_Cursor p)); AText (c_ID (p_Cursor p))] in
      (q +:+ cursor_having p "min(event_time)" "entity_id" (length args), args)
    else (q, args) in
  let args := args ++ [AInt (i64 (p_Limit p + 1))] in
  (q +:+ order_limit p "min(event_time)" "entity_id" (length args), args).

Definition entity_query (key : EntityKey) : string * list arg :=
  let b := eq_ "entity_id" (AText (ek_ID key)) (eq_ "entity_type" (AText (ek_Type key)) (newWhere 0)) in
  let b := applyScope (ek_Scope key) b in
  ("SELECT min(event_time),max(event_time),count(DISTINCT flow_id) FILTER(WHERE flow_id IS NOT NULL) FROM trail_events"
     +:+ sql b +:+ " GROUP BY entity_type,entity_id", wh_args b).

(** The conditions of an event list; [extra] is the column and value of
    [ListFlowEvents]. *)
Definition events_where (f : EventFilter) (extra : option (string * arg)) : where_ :=
  let b := applyScope (ef_Scope f) (applyCommon (ef_Time f) (ef_Service f) (ef_Environment f) (newWhere 0)) in
  let b := when (given (ef_Kind f)) (eq_ "kind" (AText (ef_Kind f))) b in
  let b := match ef_Level f with Some l => eq_ "level" (AText (Level_String l)) b | None => b end in
  let b := when (0 <? ef_HTTPStatusClass f)
             (fun b => let b := push [AInt (i64 (ef_HTTPStatusClass f * 100)); AInt (i64 (i64 (ef_HTTPStatusClass f + 1) * 100))] b in
                       add ("http_status_code >= " +:+ prev_arg b +:+ " AND http_status_code < " +:+ last_arg b) b) b in
  let b := when (given (ef_HTTPMethod f)) (eq_ "http_method" (AText (ef_HTTPMethod f))) b in
  let b := when (0 <? ef_HTTPStatus f) (eq_ "http_status_code" (AInt (ef_HTTPStatus f))) b in
  let b := when (given (ef_Provider f)) (eq_ "provider" (AText (ef_Provider f))) b in
  let b := match ef_HasError f with Some e => eq_ "has_error" (ABool e) b | None => b end in
  let b := when (negb (IsZero (ef_FlowID f))) (eq_ "flow_id" (idBytes (ef_FlowID f))) b in
  let b := when (negb (IsZero (ef_ExecutionID f))) (eq_ "execution_id" (idBytes (ef_ExecutionID f))) b in
  let b := when (given (ef_EntityType f)) (eq_ "entity_type" (AText (ef_EntityType f))) b in
  let b := when (given (ef_EntityID f)) (eq_ "entity_id" (AText (ef_EntityID f))) b in
  match extra with Some (column, value) => eq_ column value b | None => b end.

Definition events_query (f : EventFilter) (p : PageRequest) (extra : option (string * arg)) : string * list arg :=
  let b := applyCursor p "event_time" "event_id" (events_where f extra) in
  let b := push [AInt (i64 (p_Limit p + 1))] b in
  (eventSelect +:+ sql b +:+ " ORDER BY event_time " +:+ direction p +:+ ",event_id " +:+ direction p +:+ " LIMIT " +:+ last_arg b,
   wh_args b).

Definition overview_where (f : OverviewFilter) : where_ :=
  applyScope (of_Scope f) (applyCommon (of_Time f) (of_Service f) (of_Environment f) (newWhere 0)).

Definition overview_query (f : OverviewFilter) : string * list arg :=
  let b := overview_where f in
  ("SELECT COALESCE(min(event_time),now()),COALESCE(max(event_time),now()),count(*),count(DISTINCT flow_id) FILTER(WHERE flow_id IS NOT NULL),count(DISTINCT execution_id) FILTER(WHERE execution_id IS NOT NULL),count(DISTINCT (entity_type,entity_id)) FILTER(WHERE entity_type<>'' AND entity_id<>''),count(DISTINCT flow_id) FILTER(WHERE flow_status='failed'),count(DISTINCT execution_id) FILTER(WHERE execution_status='failed'),count(*) FILTER(WHERE http_status_code>=500) FROM trail_events"
     +:+ sql b, wh_args b).

Definition buckets_query (f : OverviewActivityFilter) : string * list arg :=
  let b := overview_where (af_OverviewFilter f) in
  let unit := if str_eqb (af_Interval f) ActivityDay then "day" else "hour" in
  ("SELECT date_trunc('" +:+ unit +:+ "',event_time) bucket,count(*),count(*) FILTER(WHERE level='error'),count(*) FILTER(WHERE http_status_code>=500) FROM trail_events"
     +:+ sql b +:+ " GROUP BY bucket ORDER BY bucket", wh_args b).

Definition flow_statuses_query (f : OverviewActivityFilter) : string * list arg :=
  let b := add "flow_id IS NOT NULL AND flow_status<>''" (overview_where (af_OverviewFilter f)) in
  ("SELECT status,count(*) FROM (SELECT DISTINCT ON (flow_id) flow_id,flow_status status FROM trail_events"
     +:+ sql b +:+ " ORDER BY flow_id,event_time DESC,event_id DESC) flows GROUP BY status ORDER BY count(*) DESC", wh_args b).

Definition execution_sources_query (f : OverviewActivityFilter) : string * list arg :=
  let b := add "execution_id IS NOT NULL AND execution_source<>''" (overview_where (af_OverviewFilter f)) in
  ("SELECT source,count(*) FROM (SELECT DISTINCT ON (execution_id) execution_id,execution_source source FROM trail_events"
     +:+ sql b +:+ " ORDER BY execution_id,event_time DESC,event_id DESC) executions GROUP BY source ORDER BY count(*) DESC", wh_args b).

(** ** Rows *)

(** The destination variables of each [Scan], in its order. *)
Record FlowRow := mkFlowRow {
  fr_id : bytes; fr_service : string; fr_environment : string; fr_scope_type : string; fr_scope_id : string;
  fr_entity_type : string; fr_entity_id : string; fr_exec : bytes; fr_status : string;
  fr_started : Z; fr_finished : Z; fr_count : Z; fr_first : string; fr_last : string
}.

Record ExecutionRow := mkExecutionRow {
  xr_id : bytes; xr_service : string; xr_environment : string; xr_scope_type : string; xr_scope_id : string;
  xr_kind : string; xr_source : string; xr_status : string; xr_attempt : Z; xr_parent : bytes; xr_retry : bytes;
  xr_started : Z; xr_finished : Z; xr_events : Z; xr_flows : Z
}.

Record EventRow := mkEventRow {
  vr_time : Z; vr_id : bytes; vr_batch : bytes; vr_stream : string; vr_stream_seq : Z; vr_consumer : string;
  vr_consumer_seq : Z; vr_delivered : Z; vr_received : Z; vr_service : string; vr_environment : string;
  vr_version : string; vr_kind : string; vr_level : string; vr_flow : bytes; vr_exec : bytes;
  vr_parent_exec : bytes; vr_retry : bytes; vr_attempt : Z; vr_source : string; vr_scope_type : string;
  vr_scope_id : string; vr_entity_type : string; vr_entity_id : string; vr_parent : bytes;
  vr_flow_status : string; vr_execution_status : string; vr_execution_kind : string; vr_provider : string;
  vr_has_error : bool; vr_fields : bytes; vr_method : string; vr_scheme : string; vr_host : string;
  vr_path : string; vr_status_code : Z; vr_duration : Z; vr_success : bool; vr_request_size : Z;
  vr_response_size : Z; vr_request_preview : string; vr_response_preview : string; vr_payloads : bytes
}.

Inductive shape := SFlow | SExecution | SEvent | SEntity | SEntityTimes | SOverview | SBucket | SCount.

Definition dests (s : shape) : Type :=
  match s with
  | SFlow => FlowRow
  | SExecution => ExecutionRow
  | SEvent => EventRow
  | SEntity => EntitySummary
  | SEntityTimes => Z * Z * Z
  | SOverview => Z * Z * Z * Z * Z * Z * Z * Z * Z
  | SBucket => ActivityBucket
  | SCount => CountByName
  end.

Definition scanFlow (row : FlowRow * option error) : FlowSummary * string * string * option error :=
  let '(r, e) := row in
  (mkFlowSummary (copy16 (fr_id r)) (fr_service r) (fr_environment r) (mkScope (fr_scope_type r) (fr_scope_id r))
     (fr_entity_type r) (fr_entity_id r) (copy16 (fr_exec r)) (fr_status r) (fr_started r) (fr_finished r) (fr_count r),
   fr_first r, fr_last r, e).

Definition scanExecution (row : ExecutionRow * option error) : ExecutionSummary * option error :=
  let '(r, e) := row in
  (mkExecutionSummary (copy16 (xr_id r)) (xr_service r) (xr_environment r) (mkScope (xr_scope_type r) (xr_scope_id r))
     (xr_kind r) (xr_source r) (xr_status r) (xr_attempt r) (copy16 (xr_parent r)) (copy16 (xr_retry r))
     (xr_started r) (xr_finished r) (xr_events r) (xr_flows r), e).

(** The record of the scanned columns, without its fields and links. *)
Definition event_of_row (r : EventRow) : EventRecord :=
  mkEventRecord (copy16 (vr_id r)) (vr_time r) (vr_kind r) (parseLevel (vr_level r)) (copy16 (vr_flow r))
    (copy16 (vr_exec r)) (copy16 (vr_parent_exec r)) (copy16 (vr_retry r)) (vr_attempt r) (vr_source r)
    (mkScope (vr_scope_type r) (vr_scope_id r)) (vr_entity_type r) (vr_entity_id r) (copy16 (vr_parent r)) []
    (vr_flow_status r) (vr_execution_status r) (vr_execution_kind r) "" (vr_provider r) (vr_has_error r)
    (mkHTTPRecord (vr_method r) (vr_scheme r) (vr_host r) (vr_path r) (vr_status_code r) (vr_duration r)
       (vr_success r) (vr_request_size r) (vr_response_size r) (vr_request_preview r) (vr_response_preview r))
    [] (copy16 (vr_batch r)) (mkMetadata (vr_service r) (vr_environment r) (vr_version r))
    (mkDelivery (vr_stream r) (vr_consumer r) (vr_stream_seq r) (vr_consumer_seq r) (vr_delivered r) (vr_received r)).

(** A failed [json.Unmarshal] is reported; what it had decoded is not kept here, no
    caller looks at the record beside an error. *)
Definition scanEvent (row : EventRow * option error) : EventRecord * option error :=
  let '(r, e) := row in
  let v := event_of_row r in
  match e with
  | Some e => (v, Some e)
  | None =>
      match unmarshal_Fields (vr_fields r) with
      | Ok fields =>
          let v := v <| er_Fields := fields |> in
          match unmarshal_Links (vr_payloads r) with
          | Ok payloads => (v <| er_Payloads := payloads |>, None)
          | Fail e => (v, Some e)
          | Panic _ => (v, Some type_error)
          end
      | Fail e => (v, Some e)
      | Panic _ => (v, Some type_error)
      end
  end.

(** The result of [pool.Query]: its error, the rows as scanned, and [rows.Err()]. *)
Record Rows (A : Type) := mkRows { rs_err : option error; rs_rows : list (A * option error); rs_end : option error }.
Arguments mkRows {A} _ _ _.
Arguments rs_err {A} _.
Arguments rs_rows {A} _.
Arguments rs_end {A} _.

(** [for rows.Next()] with a scan that may fail. *)
Fixpoint collect {R T} (scan : R * option error -> T * option error) (rows : list (R * option error)) : result (list T) :=
  match rows with
  | [] => Ok []
  | row :: rows =>
      match scan row with
      | (_, Some e) => Fail e
      | (v, None) => items ← collect scan rows; Ok (v :: items)
      end
  end.

(** ** The store *)

Definition ErrNoRows : error := sentinel "no rows in result set".

Inductive PgCall := PQuery (q : string) (args : list arg) | PNow.

(** The pool and the clock. *)
Record PgEnv := mkPgEnv {
  pg_query : forall s : shape, list PgCall -> string -> list arg -> Rows (dests s);
  pg_row : forall s : shape, list PgCall -> string -> list arg -> dests s * option error;
  pg_now : list PgCall -> Z
}.

Section Store.
Context (env : PgEnv).
#[local] Abbreviation S := (E PgCall).

Definition Query (s : shape) (q : string) (args : list arg) : S (Rows (dests s)) :=
  ask (fun h => pg_query env s h q args) (fun _ => PQuery q args).
Definition QueryRow (s : shape) (q : string) (args : list arg) : S (dests s * option error) :=
  ask (fun h => pg_row env s h q args) (fun _ => PQuery q args).

Definition makePage {T} (items : list T) (p : PageRequest) (cursor : T -> Cursor) : result (Page T) :=
  if p_Limit p <? Z.of_nat (length items) then
    if p_Limit p <? 0 then Panic "slice bounds out of range"
    else
      let items := take (Z.to_nat (p_Limit p)) items in
      match last items with
      | Some v => Ok (mkPage items (cursor v) true)
      | None => Panic "index out of range"
      end
  else Ok (mkPage items Cursor_zero false).

(** The common part of the lists: query, make room, scan, page. *)
Definition list_page {T} (s : shape) (scan : dests s * option error -> T * option error) (cursor : T -> Cursor)
    (query : string * list arg) (p : PageRequest) : S (result (Page T)) :=
  rows ← Query s query.1 query.2;
  mret (match rs_err rows with
        | Some e => Fail e
        | None =>
            if i64 (p_Limit p + 1) <? 0 then Panic "makeslice: cap out of range"
            else
              items ← collect scan (rs_rows rows);
              match rs_end rows with Some e => Fail e | None => makePage items p cursor end
        end).

Definition flow_cursor (v : FlowSummary) : Cursor := mkCursor (fs_StartedAt v) (String_ (fs_ID v)).
Definition execution_cursor (v : ExecutionSummary) : Cursor := mkCursor (xs_StartedAt v) (String_ (xs_ID v)).
Definition entity_cursor (v : EntitySummary) : Cursor := mkCursor (es_FirstSeen v) (ek_ID (es_EntityKey v)).
Definition event_cursor (v : EventRecord) : Cursor := mkCursor (er_Timestamp v) (String_ (er_ID v)).

Definition ListFlows (f : FlowFilter) (p : PageRequest) : S (result (Page FlowSummary)) :=
  list_page SFlow (fun row => let '(v, _, _, e) := scanFlow row in (v, e)) flow_cursor (flows_query f p) p.

Definition GetFlow (id : FlowID) : S (FlowDetail * option error) :=
  row ← QueryRow SFlow (flowSummarySelect +:+ " AND flow_id=$1 GROUP BY flow_id,service,environment") [idBytes id];
  let '(summary, first, last, err) := scanFlow row in
  mret (match err with
        | Some e => if errors_Is e ErrNoRows then (FlowDetail_zero, Some ErrNotFound)
                    else (mkFlowDetail summary first last, Some e)
        | None => (mkFlowDetail summary first last, None)
        end).

Definition ListExecutionFlows (id : ExecutionID) (f : FlowFilter) (p : PageRequest) : S (result (Page FlowSummary)) :=
  ListFlows (f <| ff_ExecutionID := id |>) p.

Definition ListEntityFlows (key : EntityKey) (f : FlowFilter) (p : PageRequest) : S (result (Page FlowSummary)) :=
  ListFlows (f <| ff_EntityType := ek_Type key |> <| ff_EntityID := ek_ID key |>) p.

Definition ListExecutions (f : ExecutionFilter) (p : PageRequest) : S (result (Page ExecutionSummary)) :=
  list_page SExecution scanExecution execution_cursor (executions_query f p) p.

Definition GetExecution (id : ExecutionID) : S (ExecutionDetail * option error) :=
  row ← QueryRow SExecution (executionSummarySelect +:+ " AND execution_id=$1 GROUP BY execution_id,service,environment") [idBytes id];
  let '(v, e) := scanExecution row in
  mret (match e with
        | Some e => if errors_Is e ErrNoRows then (ExecutionDetail_zero, Some ErrNotFound) else (mkExecutionDetail v, Some e)
        | None => (mkExecutionDetail v, None)
        end).

(** The scan loop of [GetRetryChain], which keeps what it had at an error. *)
Fixpoint collect_some {R T} (scan : R * option error -> T * option error) (rows : list (R * option error)) (out : list T)
    : list T * option error :=
  match rows with
  | [] => (out, None)
  | row :: rows =>
      match scan row with
      | (_, Some e) => (out, Some e)
      | (v, None) => collect_some scan rows (out ++ [v])
      end
  end.

Definition retry_root (id : ExecutionID) (detail : ExecutionDetail) : ExecutionID :=
  let root := xs_RetryOfExecutionID (xd_ExecutionSummary detail) in if IsZero root then id else root.

Definition GetRetryChain (id : ExecutionID) : S (RetryChain * option error) :=
  '(detail, e) ← GetExecution id;
  match e with
  | Some e => mret (mkRetryChain [], Some e)
  | None =>
      rows ← Query SExecution (executionSummarySelect +:+ " AND (execution_id=$1 OR retry_of_execution_id=$1) GROUP BY execution_id,service,environment ORDER BY max(execution_attempt),min(event_time)")
               [idBytes (retry_root id detail)];
      mret (match rs_err rows with
            | Some e => (mkRetryChain [], Some e)
            | None =>
                match collect_some scanExecution (rs_rows rows) [] with
                | (out, Some e) => (mkRetryChain out, Some e)
                | (out, None) => (mkRetryChain out, rs_end rows)
                end
            end)
  end.

Definition SearchEntities (f : EntityFilter) (p : PageRequest) : S (result (Page EntitySummary)) :=
  list_page SEntity id entity_cursor (entities_query f p) p.

Definition GetEntity (key : EntityKey) : S (EntityDetail * option error) :=
  let '(q, args) := entity_query key in
  '(v, e) ← QueryRow SEntityTimes q args;
  let '(first, last_seen, flows) := v in
  mret (match e with
        | Some e => if errors_Is e ErrNoRows then (EntityDetail_zero, Some ErrNotFound)
                    else (mkEntityDetail (mkEntitySummary key first last_seen flows), Some e)
        | None => (mkEntityDetail (mkEntitySummary key first last_seen flows), None)
        end).

Definition listEvents (f : EventFilter) (p : PageRequest) (extra : option (string * arg)) : S (result (Page EventRecord)) :=
  list_page SEvent scanEvent event_cursor (events_query f p extra) p.
Definition ListEvents (f : EventFilter) (p : PageRequest) : S (result (Page EventRecord)) := listEvents f p None.
Definition ListFlowEvents (id : FlowID) (f : EventFilter) (p : PageRequest) : S (result (Page EventRecord)) :=
  listEvents f p (Some ("flow_id", idBytes id)).

Definition GetEvent (id : EventID) : S (EventRecord * option error) :=
  row ← QueryRow SEvent (eventSelect +:+ " WHERE event_id=$1") [idBytes id];
  let '(v, e) := scanEvent row in
  mret (match e with
        | Some e => if errors_Is e ErrNoRows then (EventRecord_zero, Some ErrNotFound) else (v, Some e)
        | None => (v, None)
        end).

Definition Overview_ (f : OverviewFilter) : S (Overview * option error) :=
  now ← ask (pg_now env) (fun _ => PNow);
  let '(q, args) := overview_query f in
  '(v, e) ← QueryRow SOverview q args;
  let '(first, last_event, events, flows, executions, entities, failed_flows, failed_executions, http5xx) := v in
  mret (mkOverview now false first last_event events flows executions entities failed_flows failed_executions http5xx, e).

(** One of the three queries of [OverviewActivity]: what was read, and the error. *)
Definition activity_part {T} (s : shape) (scan : dests s * option error -> T * option error) (query : string * list arg)
    : S (list T * option error) :=
  rows ← Query s query.1 query.2;
  mret (match rs_err rows with
        | Some e => ([], Some e)
        | None =>
            match collect_some scan (rs_rows rows) [] with
            | (out, Some e) => (out, Some e)
            | (out, None) => (out, rs_end rows)
            end
        end).

Definition OverviewActivity_ (f : OverviewActivityFilter) : S (OverviewActivity * option error) :=
  let time := of_Time (af_OverviewFilter f) in
  let out := mkOverviewActivity (tr_From time) (tr_To time) (af_Interval f) [] [] [] in
  '(buckets, err) ← activity_part SBucket id (buckets_query f);
  let out := out <| oa_Buckets := buckets |> in
  match err with
  | Some e => mret (out, Some e)
  | None =>
      '(statuses, err) ← activity_part SCount id (flow_statuses_query f);
      let out := out <| oa_FlowStatuses := statuses |> in
      match err with
      | Some e => mret (out, Some e)
      | None =>
          '(sources, err) ← activity_part SCount id (execution_sources_query f);
          mret (out <| oa_ExecutionSources := sources |>, err)
      end
  end.
End Store.
