(* ===== verification/PgSql.v ===== *)
(** * A reference semantics of the event statements

    What PostgreSQL documents for the statements the event lists and the ingest
    path send: [SELECT columns FROM trail_events WHERE conditions ORDER BY ... LIMIT]
    and [INSERT INTO trail_events ... ON CONFLICT (event_id) DO NOTHING].  The
    evaluator reads the text itself, token by token, looks placeholders up in the
    arguments and columns up in the rows, so that what a generated text means can be
    computed and compared with what it is meant to say. *)

From S2P Require Import Prelude Events GoLib GoText JsonText Storage PgQuery.

(** A row is a list of named values. *)
Definition row := list (string * arg).

Definition column (r : row) (name : string) : option arg :=
  match find (fun kv => str_eqb kv.1 name) r with Some kv => Some kv.2 | None => None end.

(** ** Values *)

Fixpoint bytes_compare (a b : bytes) : comparison :=
  match a, b with
  | [], [] => Eq
  | [], _ => Lt
  | _, [] => Gt
  | x :: a, y :: b => match byte_Z x ?= byte_Z y with Eq => bytes_compare a b | c => c end
  end.

(** Comparison of two values of one type; [None] when either is NULL. *)
Definition arg_compare (a b : arg) : option comparison :=
  match a, b with
  | ATime x, ATime y => Some (x ?= y)
  | AInt x, AInt y => Some (x ?= y)
  | ABytes x, ABytes y => Some (bytes_compare x y)
  | _, _ => None
  end.

(** Equality in a condition: NULL is equal to nothing. *)
Definition arg_eqb (a b : arg) : bool :=
  match a, b with
  | ANull, _ | _, ANull => false
  | _, _ => bool_decide (a = b)
  end.

(** A timestamp column holds whole microseconds; the driver rounds a time argument
    down to them. *)
Definition micros (t : Z) : Z := t / 1000 * 1000.
Definition as_sent (a : arg) : arg := match a with ATime t => ATime (micros t) | _ => a end.

(** ** Conditions *)

Inductive op := OGe | OLt | OGt.

Inductive cond :=
| CEq (col : string) (k : nat)
| CCmp (col : string) (o : op) (k : nat)
| CTuple (col1 col2 : string) (o : op) (k1 k2 : nat).

(** Placeholders are numbered from 1. *)
Definition argument (args : list arg) (k : nat) : option arg := if Nat.eqb k 0 then None else as_sent <$> args !! (k - 1)%nat.

Definition op_holds (o : op) (c : comparison) : bool :=
  match o, c with
  | OGe, (Eq | Gt) => true
  | OLt, Lt => true
  | OGt, Gt => true
  | _, _ => false
  end.

(** The comparison of two pairs looks at the second components when the first are equal. *)
Definition pair_compare (a1 a2 b1 b2 : arg) : option comparison :=
  match arg_compare a1 b1 with
  | Some Eq => arg_compare a2 b2
  | c => c
  end.

(** Whether a row is selected: a condition that is unknown does not select it. *)
Definition holds (args : list arg) (r : row) (c : cond) : bool :=
  match c with
  | CEq col k =>
      match column r col, argument args k with Some a, Some b => arg_eqb a b | _, _ => false end
  | CCmp col o k =>
      match column r col, argument args k with
      | Some a, Some b => match arg_compare a b with Some c => op_holds o c | None => false end
      | _, _ => false
      end
  | CTuple col1 col2 o k1 k2 =>
      match column r col1, column r col2, argument args k1, argument args k2 with
      | Some a1, Some a2, Some b1, Some b2 =>
          match pair_compare a1 a2 b1 b2 with Some c => op_holds o c | None => false end
      | _, _, _, _ => false
      end
  end.

(** ** Reading the text *)

Definition tokens (s : string) : list string := Split s " ".

Definition read_placeholder (s : string) : option nat :=
  match s with
  | String "$" ds =>
      let ds := string_bytes ds in
      if bool_decide (ds = []) || negb (forallb is_digit ds) then None else Some (Z.to_nat (digits_value ds))
  | _ => None
  end.

(** The text between parentheses, split at commas. *)
Definition read_list (s : string) : option (list string) :=
  match s with
  | String "(" s =>
      match cut_byte ")" s with Some (inner, EmptyString) => Some (Split inner ",") | _ => None end
  | _ => None
  end.

Definition read_op (s : string) : option op :=
  if str_eqb s ">=" then Some OGe else if str_eqb s "<" then Some OLt else if str_eqb s ">" then Some OGt else None.

Definition read_comparison (lhs : string) (o : op) (rhs : string) : option cond :=
  match read_list lhs with
  | Some [c1; c2] =>
      match read_list rhs with
      | Some [p1; p2] => k1 ← read_placeholder p1; k2 ← read_placeholder p2; Some (CTuple c1 c2 o k1 k2)
      | _ => None
      end
  | _ => k ← read_placeholder rhs; Some (CCmp lhs o k)
  end.

(** A condition written without spaces. *)
Definition read_equality (s : string) : option cond :=
  match cut_byte ">" s with
  | Some (lhs, rhs) => read_comparison lhs OGt rhs
  | None => '(col, rhs) ← cut_byte "=" s; k ← read_placeholder rhs; Some (CEq col k)
  end.

(** Conditions joined by AND, and the tokens after them. *)
Fixpoint read_conds (fuel : nat) (ts : list string) : option (list cond * list string) :=
  match fuel with
  | O => None
  | S fuel =>
      '(c, rest) ←
        match ts with
        | lhs :: o :: rhs :: rest =>
            match read_op o with
            | Some o => c ← read_comparison lhs o rhs; Some (c, rest)
            | None => c ← read_equality lhs; Some (c, o :: rhs :: rest)
            end
        | [lhs; o] => c ← read_equality lhs; Some (c, [o])
        | [lhs] => c ← read_equality lhs; Some (c, [])
        | [] => None
        end;
      match rest with
      | "AND" :: rest => '(cs, rest) ← read_conds fuel rest; Some (c :: cs, rest)
      | _ => Some ([c], rest)
      end
  end.

Definition read_where (ts : list string) : option (list cond * list string) :=
  match ts with
  | "WHERE" :: ts => read_conds (length ts) ts
  | _ => Some ([], ts)
  end.

(** [ORDER BY c1 D,c2 D LIMIT $k] with one direction [D], ascending when it is left
    out: whether it descends. *)
Definition read_order (ts : list string) : option (string * string * bool * nat) :=
  match ts with
  | ["ORDER"; "BY"; c1; d; d2; "LIMIT"; k] =>
      '(d1, c2) ← cut_byte "," d;
      k ← read_placeholder k;
      if str_eqb d1 "DESC" && str_eqb d2 "DESC" then Some (c1, c2, true, k)
      else if str_eqb d1 "ASC" && str_eqb d2 "ASC" then Some (c1, c2, false, k)
      else None
  | ["ORDER"; "BY"; cs; "LIMIT"; k] => '(c1, c2) ← cut_byte "," cs; k ← read_placeholder k; Some (c1, c2, false, k)
  | _ => None
  end.

(** ** Statements *)

Definition table := list row.

(** [a] comes no later than [b]. *)
Definition row_leb (c1 c2 : string) (desc : bool) (a b : row) : bool :=
  match column a c1, column a c2, column b c1, column b c2 with
  | Some a1, Some a2, Some b1, Some b2 =>
      match pair_compare a1 a2 b1 b2 with
      | Some Eq => true
      | Some Lt => negb desc
      | Some Gt => desc
      | None => false
      end
  | _, _, _, _ => false
  end.

Definition row_le (c1 c2 : string) (desc : bool) (a b : row) : Prop := row_leb c1 c2 desc a b = true.
#[global] Instance row_le_dec c1 c2 desc a b : Decision (row_le c1 c2 desc a b).
Proof. unfold row_le. apply _. Defined.

Definition project (cols : list string) (r : row) : option (list arg) := mapM (column r) cols.

(** The answer to a SELECT; [None] when the text is not such a statement. *)
Definition sql_select (t : table) (q : string) (args : list arg) : option (list (list arg)) :=
  match tokens q with
  | "SELECT" :: cols :: "FROM" :: "trail_events" :: ts =>
      '(cs, ts) ← read_where ts;
      '(c1, c2, desc, k) ← read_order ts;
      match argument args k with
      | Some (AInt n) =>
          if n <? 0 then None
          else
            let found := filter (fun r => forallb (holds args r) cs = true) t in
            mapM (project (Split cols ",")) (take (Z.to_nat n) (merge_sort (row_le c1 c2 desc) found))
      | _ => None
      end
  | _ => None
  end.

(** The table after an INSERT: a row whose key is present is not added. *)
Definition sql_insert (t : table) (q : string) (args : list arg) : option table :=
  match tokens q with
  | ["INSERT"; "INTO"; "trail_events"; cols; "VALUES"; values; "ON"; "CONFLICT"; key; "DO"; "NOTHING"] =>
      cols ← read_list cols;
      values ← read_list values;
      values ← mapM (fun v => k ← read_placeholder v; argument args k) values;
      match read_list key with
      | Some [key] =>
          let r := zip cols values in
          if negb (Nat.eqb (length cols) (length values)) then None
          else if existsb (fun r' => match column r' key, column r key with Some a, Some b => arg_eqb a b | _, _ => false end) t
          then Some t else Some (t ++ [r])
      | _ => None
      end
  | _ => None
  end.
