(* ===== verification/Keyset.v ===== *)
(** * Keysets

    Records ordered by a key of a time and an identifier, as both databases list them.
    The order is total and strict on records with distinct identifiers, so that what
    follows a record is a suffix of the list, and the pages behind cursors, put
    together, are the list. *)

From S2P Require Import Prelude Ids Events GoLib GoText JsonText Storage Query Trace PgQuery PgSql.

Definition key : Type := Z * id16.
Definition key_compare (a b : key) : comparison :=
  match a.1 ?= b.1 with Eq => bytes_compare (array_bytes a.2) (array_bytes b.2) | c => c end.

(** [b] comes after [a] in the requested direction. *)
Definition follows (desc : bool) (a b : key) : bool :=
  match key_compare b a with Lt => desc | Gt => negb desc | Eq => false end.

(** ** The order of keys *)

Lemma bytes_compare_refl a : bytes_compare a a = Eq.
Proof. induction a as [|x a IH]; [done|]. cbn. by rewrite Z.compare_refl. Qed.

Lemma bytes_compare_eq a b : bytes_compare a b = Eq -> a = b.
Proof.
  revert b; induction a as [|x a IH]; intros [|y b]; try done. cbn.
  destruct (Z.compare_spec (byte_Z x) (byte_Z y)) as [H| |]; try done. intros Hc. f_equal; [by apply byte_Z_inj|auto].
Qed.

Lemma bytes_compare_antisym a b : bytes_compare b a = CompOpp (bytes_compare a b).
Proof.
  revert b; induction a as [|x a IH]; intros [|y b]; try done. cbn. rewrite (Z.compare_antisym (byte_Z x)).
  destruct (byte_Z x ?= byte_Z y); cbn; auto.
Qed.

Lemma bytes_compare_trans a b c : bytes_compare a b = Lt -> bytes_compare b c = Lt -> bytes_compare a c = Lt.
Proof.
  revert b c; induction a as [|x a IH]; intros [|y b] [|z c]; try done. cbn.
  destruct (Z.compare_spec (byte_Z x) (byte_Z y)) as [H1|H1|H1]; try done;
    destruct (Z.compare_spec (byte_Z y) (byte_Z z)) as [H2|H2|H2]; try done; intros Ha Hb.
  - rewrite H1, H2, Z.compare_refl. by eapply IH.
  - rewrite (proj2 (Z.compare_lt_iff _ _)) by lia. done.
  - rewrite (proj2 (Z.compare_lt_iff _ _)) by lia. done.
  - rewrite (proj2 (Z.compare_lt_iff _ _)) by lia. done.
Qed.

Lemma key_compare_eq a b : key_compare a b = Eq -> a = b.
Proof.
  destruct a as [t i], b as [t' i']. unfold key_compare. cbn. destruct (Z.compare_spec t t') as [->| |]; try done.
  intros H%bytes_compare_eq. f_equal. by apply array_eq.
Qed.
Lemma key_compare_refl a : key_compare a a = Eq.
Proof. unfold key_compare. by rewrite Z.compare_refl, bytes_compare_refl. Qed.
Lemma key_compare_antisym a b : key_compare b a = CompOpp (key_compare a b).
Proof.
  unfold key_compare. rewrite (Z.compare_antisym a.1). destruct (a.1 ?= b.1); cbn; try done. apply bytes_compare_antisym.
Qed.
Lemma key_compare_trans a b c : key_compare a b = Lt -> key_compare b c = Lt -> key_compare a c = Lt.
Proof.
  unfold key_compare. destruct (Z.compare_spec a.1 b.1) as [H1|H1|H1]; try done;
    destruct (Z.compare_spec b.1 c.1) as [H2|H2|H2]; try done; intros Ha Hb.
  - rewrite H1, H2, Z.compare_refl. by eapply bytes_compare_trans.
  - by rewrite (proj2 (Z.compare_lt_iff _ _)) by lia.
  - by rewrite (proj2 (Z.compare_lt_iff _ _)) by lia.
  - by rewrite (proj2 (Z.compare_lt_iff _ _)) by lia.
Qed.

Lemma follows_lt desc a b : follows desc a b = true <-> (if desc then key_compare b a else key_compare a b) = Lt.
Proof. unfold follows. rewrite (key_compare_antisym a b). by destruct (key_compare a b), desc. Qed.

Lemma follows_trans desc a b c : follows desc a b = true -> follows desc b c = true -> follows desc a c = true.
Proof. rewrite !follows_lt. destruct desc; intros H1 H2; by eapply key_compare_trans. Qed.

(** What comes below a key with an earlier time comes below the key. *)
Lemma follows_earlier t t' id k : t' <= t -> follows true (t', id) k = true -> follows true (t, id) k = true.
Proof.
  unfold follows, key_compare. cbn [fst snd]. intros Ht.
  destruct (Z.compare_spec k.1 t'), (Z.compare_spec k.1 t); try done; lia.
Qed.

(** ** Lists *)

Lemma sublist_filter_impl {A} (P Q : A -> Prop) `{!forall a, Decision (P a)} `{!forall a, Decision (Q a)} (l : list A) :
  (forall a, a ∈ l -> P a -> Q a) -> sublist (filter P l) (filter Q l).
Proof.
  induction l as [|a l IH]; intros HPQ; [done|]. specialize (IH (fun b Hb => HPQ b (list_elem_of_further _ _ _ Hb))).
  rewrite !filter_cons. pose proof (HPQ a ltac:(by left)).
  destruct (decide (P a)), (decide (Q a)); [by constructor|tauto|by constructor|done].
Qed.

Lemma sublist_map {A B} (f : A -> B) l k : sublist l k -> sublist (f <$> l) (f <$> k).
Proof. induction 1; cbn; by constructor. Qed.

Lemma filter_none {A} (P : A -> Prop) `{!forall a, Decision (P a)} (l : list A) : (forall a, a ∈ l -> ~ P a) -> filter P l = [].
Proof.
  intros Hl. destruct (filter P l) as [|a k] eqn:E; [done|]. exfalso.
  assert (a ∈ filter P l) as [HP Ha]%list_elem_of_filter by (rewrite E; by left). by apply (Hl a).
Qed.

Lemma filter_all {A} (P : A -> Prop) `{!forall a, Decision (P a)} (l : list A) : (forall a, a ∈ l -> P a) -> filter P l = l.
Proof.
  induction l as [|a l IH]; intros Hl; [done|]. rewrite filter_cons, decide_True by (apply Hl; by left).
  f_equal. apply IH. intros b Hb. apply Hl. by right.
Qed.

Lemma StronglySorted_filter {A} (R : relation A) (P : A -> Prop) `{!forall a, Decision (P a)} l :
  StronglySorted R l -> StronglySorted R (filter P l).
Proof. intros Hl. eapply StronglySorted_sublist; [apply sublist_filter|exact Hl]. Qed.

(** ** Records by their keys *)

Section Order.
Context {T : Type} {ekey : T -> key}.

Definition leb_by (desc : bool) (a b : T) : bool :=
  match key_compare (ekey a) (ekey b) with Eq => true | Lt => negb desc | Gt => desc end.
Definition le_by (desc : bool) (a b : T) : Prop := leb_by desc a b = true.
#[global] Instance le_by_dec desc a b : Decision (le_by desc a b).
Proof. unfold le_by. apply _. Defined.

(** The records in order. *)
Definition listing_by (desc : bool) (l : list T) : list T := merge_sort (le_by desc) l.

(** The order is a total preorder. *)
#[global] Instance le_by_total desc : Total (le_by desc).
Proof.
  intros a b. unfold le_by, leb_by. rewrite (key_compare_antisym (ekey a) (ekey b)).
  destruct (key_compare (ekey a) (ekey b)), desc; cbn; auto.
Qed.

#[global] Instance le_by_trans desc : Transitive (le_by desc).
Proof.
  intros a b c. unfold le_by, leb_by. destruct (key_compare (ekey a) (ekey b)) eqn:E1.
  - apply key_compare_eq in E1. by rewrite E1.
  - destruct (key_compare (ekey b) (ekey c)) eqn:E2.
    + apply key_compare_eq in E2. rewrite <- E2, E1. done.
    + by rewrite (key_compare_trans _ _ _ E1 E2).
    + destruct desc; done.
  - destruct (key_compare (ekey b) (ekey c)) eqn:E2.
    + apply key_compare_eq in E2. rewrite <- E2, E1. done.
    + destruct desc; done.
    + assert (key_compare (ekey c) (ekey b) = Lt) as E2' by (by rewrite key_compare_antisym, E2).
      assert (key_compare (ekey b) (ekey a) = Lt) as E1' by (by rewrite key_compare_antisym, E1).
      rewrite (key_compare_antisym (ekey c)), (key_compare_trans _ _ _ E2' E1'). done.
Qed.

Lemma le_by_antisym desc a b : le_by desc a b -> le_by desc b a -> ekey a = ekey b.
Proof.
  unfold le_by, leb_by. rewrite (key_compare_antisym (ekey a) (ekey b)).
  destruct (key_compare (ekey a) (ekey b)) eqn:E; [by intros; apply key_compare_eq| |]; by destruct desc.
Qed.

(** In order and not equal is to follow. *)
Lemma le_by_follows desc a b : le_by desc a b -> ekey a <> ekey b -> follows desc (ekey a) (ekey b) = true.
Proof.
  unfold le_by, leb_by, follows. rewrite (key_compare_antisym (ekey a) (ekey b)).
  destruct (key_compare (ekey a) (ekey b)) eqn:E; [by intros _ []; apply key_compare_eq| |]; by destruct desc.
Qed.
Lemma le_by_not_follows desc a b : le_by desc b a -> follows desc (ekey a) (ekey b) = false.
Proof. unfold le_by, leb_by, follows. destruct (key_compare (ekey b) (ekey a)); by destruct desc. Qed.

(** *** Distinct identifiers *)

Lemma listing_sorted desc l : StronglySorted (le_by desc) (listing_by desc l).
Proof. unfold listing_by. apply StronglySorted_merge_sort; apply _. Qed.
Lemma listing_perm desc l : listing_by desc l ≡ₚ l.
Proof. apply merge_sort_Permutation. Qed.

Lemma key_inj (l : list T) a b : NoDup ((fun a => (ekey a).2) <$> l) -> a ∈ l -> b ∈ l -> ekey a = ekey b -> a = b.
Proof.
  intros HN [i Hi]%list_elem_of_lookup [j Hj]%list_elem_of_lookup Hid.
  assert (i = j) as ->; [|by rewrite Hi in Hj; injection Hj].
  eapply (NoDup_lookup _ _ _ (ekey a).2); [exact HN| |]; rewrite list_lookup_fmap; [by rewrite Hi|rewrite Hj; cbn; by rewrite Hid].
Qed.

Lemma NoDup_ids_filter (P : T -> Prop) `{!forall e, Decision (P e)} l :
  NoDup ((fun a => (ekey a).2) <$> l) -> NoDup ((fun a => (ekey a).2) <$> filter P l).
Proof. intros Hl. eapply sublist_NoDup; [exact Hl|apply sublist_map, sublist_filter]. Qed.

(** Selecting after sorting or before is the same. *)
Lemma listing_filter desc (P : T -> Prop) `{!forall e, Decision (P e)} l :
  NoDup ((fun a => (ekey a).2) <$> l) -> listing_by desc (filter P l) = filter P (listing_by desc l).
Proof.
  intros HN. apply (StronglySorted_unique_strong (le_by desc)).
  - intros a b Ha Hb H1 H2. apply (key_inj l); [done| | |by eapply le_by_antisym].
    + rewrite listing_perm in Ha. by apply list_elem_of_filter in Ha as [_ Ha].
    + apply list_elem_of_filter in Hb as [_ Hb]. by rewrite listing_perm in Hb.
  - apply listing_sorted.
  - apply StronglySorted_filter, listing_sorted.
  - by rewrite !listing_perm.
Qed.

(** What follows a record of the listing. *)
Lemma filter_follows desc l l1 x l2 : NoDup ((fun a => (ekey a).2) <$> l) -> listing_by desc l = l1 ++ x :: l2 ->
  filter (fun e => follows desc (ekey x) (ekey e) = true) (listing_by desc l) = l2.
Proof.
  intros HN Heq. pose proof (listing_sorted desc l) as HS. rewrite Heq in *.
  assert (NoDup ((fun a => (ekey a).2) <$> l1 ++ x :: l2)) as HN' by (rewrite <- Heq; by rewrite listing_perm).
  apply StronglySorted_app in HS as (Hx & _ & HS2). apply StronglySorted_cons in HS2 as [Hl2 _].
  rewrite filter_app, filter_cons, decide_False by (by rewrite le_by_not_follows by (unfold le_by, leb_by; by rewrite key_compare_refl)).
  rewrite (filter_none _ l1).
  2: { intros e He Hf. rewrite le_by_not_follows in Hf; [done|]. apply Hx; [done|]. by left. }
  cbn [app]. apply filter_all. intros e He. apply le_by_follows; [rewrite Forall_forall in Hl2; by apply Hl2|].
  intros Hid. rewrite fmap_app, fmap_cons in HN'. apply NoDup_app in HN' as (_ & _ & HN').
  apply NoDup_cons in HN' as [Hni _]. apply Hni. rewrite Hid. by apply (list_elem_of_fmap_2 (fun a => (ekey a).2)).
Qed.
End Order.
Arguments leb_by {T} ekey desc a b.
Arguments le_by {T} ekey desc a b.
Arguments listing_by {T} ekey desc l.

(** ** Walking *)

Section Walk.
Context {T K : Type} (first : K) (cursor : T -> K).

(** [c] is at [rest]: the first cursor at the whole list, the cursor of a record at
    what comes after it. *)
Definition cursor_at (all : list T) (c : K) (rest : list T) : Prop :=
  (c = first /\ rest = all) \/ (exists l x, c = cursor x /\ all = l ++ x :: rest).

(** The page taken off the front, and the cursor that comes with it. *)
Lemma page_advances all c rest (limit : nat) : (0 < limit < length rest)%nat -> cursor_at all c rest ->
  exists x, last (take limit rest) = Some x /\ cursor_at all (cursor x) (drop limit rest).
Proof.
  intros Hl Hc. destruct (last (take limit rest)) as [x|] eqn:E.
  - exists x. split; [done|]. right. apply last_Some in E as [l' E].
    assert (rest = l' ++ x :: drop limit rest) as Hr.
    { rewrite <- (take_drop limit rest) at 1. rewrite E, <- app_assoc. done. }
    destruct Hc as [[_ ->]|(l & y & _ & ->)]; [by exists l', x|].
    exists (l ++ y :: l'), x. split; [done|]. rewrite <- app_assoc. cbn. by rewrite <- Hr.
  - apply last_None, (f_equal length) in E. rewrite length_take in E. simpl in E. lia.
Qed.

(** *** A client that follows the cursors *)

(** [next c] is the page behind [c] and, if there is more, the cursor it gives. *)
Context {C Item : Type} (next : K -> E C (result (list Item * option K))).

Fixpoint follow (fuel : nat) (c : K) : E C (result (list Item)) :=
  match fuel with
  | O => mret (Fail (errors_New "more pages"))
  | S fuel =>
      page ← next c;
      match page with
      | Ok (items, None) => mret (Ok items)
      | Ok (items, Some c) => rest ← follow fuel c; mret (rest ← rest; Ok (items ++ rest))
      | Fail e => mret (Fail e)
      | Panic msg => mret (Panic msg)
      end
  end.

(** Every page is the front of what is left, with the cursor of its last record. *)
Definition pages_of (back : T -> Item) (limit : nat) (all : list T) : Prop :=
  forall c rest h, cursor_at all c rest ->
    (next c h).2 = Ok (back <$> take limit rest,
                       if decide (limit < length rest)%nat then cursor <$> last (take limit rest) else None).

(** Then the pages, put together, are what is left. *)
Lemma follow_at back limit all fuel c rest h : (0 < limit)%nat -> pages_of back limit all ->
  cursor_at all c rest -> (length rest < fuel)%nat -> (follow fuel c h).2 = Ok (back <$> rest).
Proof.
  intros Hl Hp. revert h c rest. induction fuel as [|fuel IH]; intros h c rest Hc Hf; [lia|].
  cbn [follow]. unfold mbind at 1, E_bind at 1. specialize (Hp c rest h Hc).
  destruct (next c h) as [h1 r]. cbn [snd] in Hp. subst r. case_decide as Hd.
  - destruct (page_advances all c rest limit ltac:(lia) Hc) as (x & Hx & Hc'). rewrite Hx. cbn [fmap option_fmap option_map].
    unfold mbind at 1, E_bind at 1. specialize (IH h1 _ _ Hc' ltac:(rewrite length_drop; lia)).
    destruct (follow fuel (cursor x) h1) as [h2 r]. cbn [snd] in IH. subst r.
    unfold mret, E_ret. cbn [snd mbind result_bind]. by rewrite <- fmap_app, take_drop.
  - unfold mret, E_ret. cbn [snd]. by rewrite take_ge by lia.
Qed.


(** When the page behind a cursor may hold less than what follows its record: [sel c]
    is what the database selects behind [c], [hit x e] says that the cursor of [x]
    still selects [e], and [after x e] that [e] comes after [x].  Then every record is
    in a page or was passed over by the cursor of a record that is. *)
Lemma follow_narrowing back limit (sel : K -> list T) (hit after : T -> T -> bool) :
  (0 < limit)%nat ->
  (forall c h, (next c h).2 = Ok (back <$> take limit (sel c),
                  if decide (limit < length (sel c))%nat then cursor <$> last (take limit (sel c)) else None)) ->
  (forall c x, last (take limit (sel c)) = Some x -> sublist (sel (cursor x)) (drop limit (sel c)) /\
     forall e, e ∈ drop limit (sel c) -> after x e = true /\ (hit x e = true -> e ∈ sel (cursor x))) ->
  forall fuel c h, (length (sel c) < fuel)%nat -> exists out,
    (follow fuel c h).2 = Ok (back <$> out) /\ sublist out (sel c) /\
    forall e, e ∈ sel c -> e ∈ out \/ exists x, x ∈ out /\ after x e = true /\ hit x e = false.
Proof.
  intros Hl Hp Hnext. induction fuel as [|fuel IH]; intros c h Hf; [lia|].
  cbn [follow]. unfold mbind at 1, E_bind at 1. specialize (Hp c h).
  destruct (next c h) as [h1 r]. cbn [snd] in Hp. subst r. case_decide as Hd.
  2: { exists (sel c). rewrite take_ge by lia. split; [done|]. split; [done|]. by left. }
  destruct (last (take limit (sel c))) as [x|] eqn:Hx.
  2: { apply last_None, (f_equal length) in Hx. rewrite length_take in Hx. simpl in Hx. lia. }
  destruct (Hnext c x Hx) as [Hsub Hrest]. cbn [fmap option_fmap option_map].
  destruct (IH (cursor x) h1) as (out & Hout & Hs & Hall).
  { apply sublist_length in Hsub. rewrite length_drop in Hsub. lia. }
  unfold mbind at 1, E_bind at 1. destruct (follow fuel (cursor x) h1) as [h2 r]. cbn [snd] in Hout. subst r.
  exists (take limit (sel c) ++ out). unfold mret, E_ret. cbn [snd mbind result_bind]. rewrite fmap_app. split; [done|].
  split; [rewrite <- (take_drop limit (sel c)) at 2; apply sublist_app; [done|by etrans]|].
  intros e He. rewrite <- (take_drop limit (sel c)), elem_of_app in He. destruct He as [He|He].
  { left. apply elem_of_app. by left. }
  destruct (Hrest e He) as [Ha Hhit]. destruct (hit x e) eqn:E.
  - destruct (Hall e (Hhit eq_refl)) as [?|(y & Hy & ?)]; [left|right; exists y]; rewrite elem_of_app; auto.
  - right. exists x. rewrite elem_of_app. split; [left|done]. apply last_Some in Hx as [l ->]. apply elem_of_app. right. by left.
Qed.
End Walk.

(** A page as a client sees it. *)
Definition page_step {T} (p : Page T) : list T * option Cursor :=
  (pg_Items p, if pg_HasMore p then Some (pg_NextCursor p) else None).
Definition page_steps {C T} (m : E C (result (Page T))) : E C (result (list T * option Cursor)) :=
  page ← m; mret (page ← page; Ok (page_step page)).
