(* ===== verification/PgSqlProofs.v ===== *)
(** * Generated conditions mean what they say

    [represents b P]: whatever arguments follow, the text of the builder [b] is read
    by the reference semantics as conditions that hold exactly of the rows of [P].
    Each operation of the builder adds its own condition to [P]. *)

From S2P Require Import Prelude Ids Events GoLib GoText JsonText Storage Query PgQuery PgSql.

(** ** Texts *)

Definition free (sep : byte) (s : string) : bool := string_forallb (fun c => negb (Ascii.eqb c sep)) s.

Lemma Split_nonempty s sep : Split s sep <> [].
Proof. destruct s as [|c s]; cbn [Split]; [done|]. destruct (Ascii.eqb c sep); [done|]. by destruct (Split s sep). Qed.

Lemma Split_app sep a b : Split (a +:+ String sep b) sep = Split a sep ++ Split b sep.
Proof.
  induction a as [|c a IH].
  - rewrite string_app_nil_l. cbn [Split]. by rewrite Ascii.eqb_refl.
  - rewrite string_app_cons. cbn [Split]. destruct (Ascii.eqb c sep); [by rewrite IH|].
    rewrite IH. pose proof (Split_nonempty a sep). by destruct (Split a sep).
Qed.

Lemma Split_free sep s : free sep s = true -> Split s sep = [s].
Proof.
  induction s as [|c s IH]; [done|]. unfold free. cbn [string_forallb Split]. intros [Hc Hs]%andb_true_iff.
  apply negb_true_iff in Hc. rewrite Hc. by rewrite IH.
Qed.

Lemma free_app sep a b : free sep (a +:+ b) = free sep a && free sep b.
Proof. apply string_forallb_app. Qed.

Lemma cut_byte_app_free sep a b : free sep a = true -> cut_byte sep (a +:+ String sep b) = Some (a, b).
Proof. intros H. apply cut_byte_app. unfold ContainsByte. by apply negb_false_iff. Qed.

Lemma cut_byte_free sep s : free sep s = true -> cut_byte sep s = None.
Proof.
  induction s as [|c s IH]; [done|]. unfold free. cbn [string_forallb cut_byte]. intros [Hc Hs]%andb_true_iff.
  apply negb_true_iff in Hc. rewrite Hc. by rewrite IH.
Qed.

(** *** Placeholders *)

Lemma Itoa_digits k : exists ds, Itoa (Z.of_nat k) = bytes_string ds /\ ds <> [] /\
  Forall (fun c => is_digit c = true) ds /\ digits_value ds = Z.of_nat k.
Proof.
  unfold Itoa, print_int. rewrite (proj2 (Z.ltb_ge (Z.of_nat k) 0)) by lia.
  destruct (print_nat_spec (Z.of_nat k)) as (H1 & H2 & d & more & H3 & _); [lia|].
  exists (print_nat (Z.of_nat k)). split_and!; [done|by rewrite H3|done|done].
Qed.

Lemma read_placeholder_ok k : read_placeholder (placeholder k) = Some k.
Proof.
  unfold placeholder. destruct (Itoa_digits k) as (ds & -> & Hne & HF & HV).
  change ("$" +:+ bytes_string ds) with (String "$" (bytes_string ds)). unfold read_placeholder.
  rewrite String.list_ascii_of_string_of_list_ascii, bool_decide_eq_false_2 by done.
  replace (forallb is_digit ds) with true.
  - cbn [negb orb]. rewrite HV. by rewrite Nat2Z.id.
  - symmetry. apply forallb_forall. intros c Hc%list_elem_of_In. rewrite Forall_forall in HF. by apply HF.
Qed.

Lemma placeholder_free sep k : sep <> "$"%char -> is_digit sep = false -> free sep (placeholder k) = true.
Proof.
  intros Hd Hs. unfold placeholder. rewrite free_app. apply andb_true_iff. split.
  - unfold free. cbn [string_forallb]. apply andb_true_iff. split; [|done]. apply negb_true_iff, Ascii.eqb_neq. congruence.
  - destruct (Itoa_digits k) as (ds & -> & _ & HF & _). induction HF as [|c ds Hc _ IH]; [done|].
    unfold free. cbn [String.string_of_list_ascii string_forallb]. apply andb_true_iff. split; [|exact IH].
    apply negb_true_iff, Ascii.eqb_neq. intros ->. congruence.
Qed.

(** ** Conditions as tokens *)

Definition op_text (o : op) : string := match o with OGe => ">=" | OLt => "<" | OGt => ">" end.

Definition cond_tokens (c : cond) : list string :=
  match c with
  | CEq col k => [col +:+ "=" +:+ placeholder k]
  | CCmp col o k => [col; op_text o; placeholder k]
  | CTuple c1 c2 o k1 k2 =>
      ["(" +:+ c1 +:+ "," +:+ c2 +:+ ")"; op_text o; "(" +:+ placeholder k1 +:+ "," +:+ placeholder k2 +:+ ")"]
  end.

(** Column names that can be told from the syntax around them. *)
Definition col_ok (col : string) : bool :=
  free " " col && free "=" col && free ">" col && free "," col && free ")" col
  && match col with String c _ => negb (Ascii.eqb c "(") | EmptyString => true end.
Definition cond_ok (c : cond) : bool :=
  match c with
  | CEq col _ | CCmp col _ _ => col_ok col
  | CTuple c1 c2 _ _ _ => col_ok c1 && col_ok c2
  end.

Lemma read_list_pair a b : free "," a = true -> free ")" a = true -> free "," b = true -> free ")" b = true ->
  read_list ("(" +:+ a +:+ "," +:+ b +:+ ")") = Some [a; b].
Proof.
  intros H1 H2 H3 H4.
  assert ("(" +:+ a +:+ "," +:+ b +:+ ")" = String "(" ((a +:+ String "," b) +:+ String ")" "")) as ->
    by (by rewrite string_app_assoc).
  unfold read_list. rewrite cut_byte_app_free.
  - rewrite Split_app, !Split_free by done. done.
  - rewrite free_app, H2. unfold free in *. cbn [string_forallb]. by rewrite H4.
Qed.

Lemma read_list_col col : match col with String c _ => negb (Ascii.eqb c "(") | EmptyString => true end = true ->
  read_list col = None.
Proof.
  destruct col as [|c col]; [done|]. intros Hc. unfold read_list. destruct c as [[] [] [] [] [] [] [] []]; done.
Qed.

Lemma read_op_text o : read_op (op_text o) = Some o.
Proof. by destruct o. Qed.

Lemma read_comparison_ok c : cond_ok c = true ->
  match c with
  | CEq col k => read_equality (col +:+ "=" +:+ placeholder k) = Some c
  | CCmp col o k => read_comparison col o (placeholder k) = Some c
  | CTuple c1 c2 o k1 k2 =>
      read_comparison ("(" +:+ c1 +:+ "," +:+ c2 +:+ ")") o ("(" +:+ placeholder k1 +:+ "," +:+ placeholder k2 +:+ ")") = Some c
  end.
Proof.
  unfold cond_ok, col_ok. destruct c as [col k|col o k|c1 c2 o k1 k2]; intros H; bool_cases.
  - unfold read_equality. change ("=" +:+ placeholder k) with (String "=" (placeholder k)).
    rewrite (cut_byte_free ">"), cut_byte_app_free;
      [|done|rewrite free_app; apply andb_true_iff; split; [done|by apply (placeholder_free ">" k)]]. cbn [mbind option_bind]. by rewrite read_placeholder_ok.
  - unfold read_comparison. rewrite read_list_col by done. by rewrite read_placeholder_ok.
  - unfold read_comparison. rewrite !read_list_pair by (first [done | apply placeholder_free; done]).
    by rewrite !read_placeholder_ok.
Qed.

(** Conditions joined by AND. *)
Fixpoint conj_tokens (cs : list cond) : list string :=
  match cs with
  | [] => []
  | [c] => cond_tokens c
  | c :: cs => cond_tokens c ++ "AND" :: conj_tokens cs
  end.

Lemma conj_tokens_app cs cs' : cs <> [] -> cs' <> [] ->
  conj_tokens (cs ++ cs') = conj_tokens cs ++ "AND" :: conj_tokens cs'.
Proof.
  intros Hcs Hcs'. induction cs as [|c cs IH]; [done|]. destruct cs as [|c2 cs].
  - cbn [app]. destruct cs' as [|c' cs']; [done|]. done.
  - cbn [app conj_tokens] in *. rewrite IH by done. by rewrite <- app_assoc.
Qed.

Lemma length_conj_tokens cs : (length cs <= length (conj_tokens cs))%nat.
Proof.
  induction cs as [|c cs IH]; [done|]. destruct cs as [|c2 cs].
  - destruct c; simpl; lia.
  - cbn [conj_tokens] in *. rewrite length_app. cbn [length] in *. destruct c; simpl; lia.
Qed.

(** One condition is read off the front, whatever follows that is no operator. *)
Lemma read_one fuel c next rest : cond_ok c = true -> read_op next = None ->
  read_conds (S fuel) (cond_tokens c ++ next :: rest) =
  match next with
  | "AND" => '(cs, rest) ← read_conds fuel rest; Some (c :: cs, rest)
  | _ => Some ([c], next :: rest)
  end.
Proof.
  intros Hc Hn. pose proof (read_comparison_ok c Hc) as Hr. destruct c as [col k|col o k|c1 c2 o k1 k2];
    cbn [cond_tokens app read_conds].
  - destruct rest as [|r rest]; [|rewrite Hn]; rewrite Hr; done.
  - rewrite read_op_text, Hr. done.
  - rewrite read_op_text, Hr. done.
Qed.

Lemma read_conds_ok fuel cs rest : cs <> [] -> Forall (fun c => cond_ok c = true) cs -> (length cs <= fuel)%nat ->
  read_conds fuel (conj_tokens cs ++ "ORDER" :: rest) = Some (cs, "ORDER" :: rest).
Proof.
  intros Hne HF. revert fuel. induction HF as [|c cs Hc HF IH]; intros fuel Hf; [done|].
  destruct fuel as [|fuel]; [simpl in Hf; lia|]. destruct cs as [|c2 cs].
  - cbn [conj_tokens]. by rewrite read_one.
  - assert (conj_tokens (c :: c2 :: cs) ++ "ORDER" :: rest =
      cond_tokens c ++ "AND" :: (conj_tokens (c2 :: cs) ++ "ORDER" :: rest)) as ->
      by (cbn [conj_tokens]; by rewrite <- app_assoc).
    rewrite read_one by done. rewrite IH by (done || (simpl in *; lia)). done.
Qed.

(** ** The builder *)

(** A part of the builder is a text of conditions. *)
Definition part_reads (part : string) (cs : list cond) : Prop :=
  cs <> [] /\ Forall (fun c => cond_ok c = true) cs /\ tokens part = conj_tokens cs.

Definition represents (b : where_) (P : row -> bool) : Prop :=
  exists css, Forall2 part_reads (wh_parts b) css /\
    forall more r, forallb (holds (wh_args b ++ more) r) (concat css) = P r.

Lemma represents_ext b P P' : represents b P -> (forall r, P r = P' r) -> represents b P'.
Proof. intros (css & H1 & H2) HP. exists css. split; [done|]. intros more r. by rewrite H2. Qed.

Lemma represents_new n : represents (newWhere n) (fun _ => true).
Proof. exists []. split; [constructor|done]. Qed.

(** Arguments nobody refers to yet. *)
Lemma represents_push values b P : represents b P -> represents (push values b) P.
Proof.
  intros (css & H1 & H2). exists css. split; [done|]. intros more r. cbn [push wh_args set_field]. cbn.
  rewrite <- app_assoc. apply H2.
Qed.

(** A new part over the arguments pushed last. *)
Lemma represents_add part cs b P Q :
  represents b P -> part_reads part cs ->
  (forall more r, forallb (holds (wh_args b ++ more) r) cs = Q r) ->
  represents (add part b) (fun r => P r && Q r).
Proof.
  intros (css & H1 & H2) Hp HQ. exists (css ++ [cs]). split.
  - cbn. apply Forall2_app; [done|]. constructor; [exact Hp|constructor].
  - intros more r. cbn. rewrite concat_app, forallb_app, H2. f_equal. cbn [concat]. by rewrite app_nil_r.
Qed.

Lemma represents_when c f b P Q :
  represents b P -> (c = true -> represents (f b) (fun r => P r && Q r)) ->
  represents (when c f b) (fun r => P r && (negb c || Q r)).
Proof.
  intros Hb Hf. destruct c; cbn [when negb orb].
  - by apply Hf.
  - eapply represents_ext; [exact Hb|]. intros r. by rewrite andb_true_r.
Qed.

Lemma argument_last (args : list arg) v more : argument ((args ++ [v]) ++ more) (length (args ++ [v])) = Some (as_sent v).
Proof.
  unfold argument. rewrite length_app. cbn [length]. replace (Nat.eqb _ 0) with false by (symmetry; apply Nat.eqb_neq; lia).
  replace (length args + 1 - 1)%nat with (length args) by lia.
  rewrite lookup_app_l by (rewrite length_app; simpl; lia). by rewrite list_lookup_middle.
Qed.

Lemma argument_two (args : list arg) v1 v2 more :
  argument ((args ++ [v1; v2]) ++ more) (length (args ++ [v1; v2]) - 1) = Some (as_sent v1) /\
  argument ((args ++ [v1; v2]) ++ more) (length (args ++ [v1; v2])) = Some (as_sent v2).
Proof.
  change [v1; v2] with ([v1] ++ [v2]). rewrite app_assoc. split; [|apply argument_last].
  rewrite <- app_assoc. rewrite length_app. cbn [length].
  replace (length (args ++ [v1]) + 1 - 1)%nat with (length (args ++ [v1])) by lia. apply argument_last.
Qed.

(** The value of a column compared with an argument. *)
Definition col_is (col : string) (v : arg) (r : row) : bool :=
  match column r col with Some a => arg_eqb a v | None => false end.
Definition col_cmp (col : string) (o : op) (v : arg) (r : row) : bool :=
  match column r col with
  | Some a => match arg_compare a v with Some c => op_holds o c | None => false end
  | None => false
  end.

Lemma col_ok_spaces col : col_ok col = true -> free " " col = true.
Proof. unfold col_ok. intros. by bool_cases. Qed.

Lemma represents_eq col v b P : col_ok col = true ->
  represents b P -> represents (eq_ col v b) (fun r => P r && col_is col (as_sent v) r).
Proof.
  intros Hc Hb. unfold eq_. cbv zeta. set (k := length (wh_args (push [v] b))).
  apply (represents_add _ [CEq col k]).
  - by apply represents_push.
  - split_and!; [done|by repeat constructor|]. cbn [conj_tokens cond_tokens]. apply Split_free.
    rewrite !free_app. by rewrite col_ok_spaces, placeholder_free by done.
  - intros more r. subst k. cbn. rewrite argument_last, andb_true_r. unfold col_is. done.
Qed.

Lemma tokens_cmp col o k : col_ok col = true ->
  tokens (col +:+ " " +:+ op_text o +:+ " " +:+ placeholder k) = [col; op_text o; placeholder k].
Proof.
  intros Hc. unfold tokens.
  change (col +:+ " " +:+ op_text o +:+ " " +:+ placeholder k)
    with (col +:+ String " " (op_text o +:+ String " " (placeholder k))).
  rewrite !Split_app, !Split_free; [done|by apply placeholder_free|by destruct o|by apply col_ok_spaces].
Qed.

Lemma represents_cmp col o v b P : col_ok col = true ->
  represents b P ->
  represents (let b := push [v] b in add (col +:+ " " +:+ op_text o +:+ " " +:+ last_arg b) b)
    (fun r => P r && col_cmp col o (as_sent v) r).
Proof.
  intros Hc Hb. cbv zeta. apply (represents_add _ [CCmp col o (length (wh_args (push [v] b)))]).
  - by apply represents_push.
  - split_and!; [done|by repeat constructor|]. by apply tokens_cmp.
  - intros more r. cbn. rewrite argument_last, andb_true_r. unfold col_cmp. by destruct (column r col).
Qed.

(** [col >= $i AND col < $j]. *)
Lemma represents_range col v1 v2 b P : col_ok col = true ->
  represents b P ->
  represents (let b := push [v1; v2] b in
              add (col +:+ " >= " +:+ prev_arg b +:+ " AND " +:+ col +:+ " < " +:+ last_arg b) b)
    (fun r => P r && (col_cmp col OGe (as_sent v1) r && col_cmp col OLt (as_sent v2) r)).
Proof.
  intros Hc Hb. cbv zeta. set (n := length (wh_args (push [v1; v2] b))).
  apply (represents_add _ [CCmp col OGe (n - 1); CCmp col OLt n]).
  - by apply represents_push.
  - split_and!; [done|by repeat constructor|]. unfold tokens, prev_arg, last_arg. fold n.
    change (col +:+ " >= " +:+ placeholder (n - 1) +:+ " AND " +:+ col +:+ " < " +:+ placeholder n)
      with (col +:+ String " " (">=" +:+ String " " (placeholder (n - 1) +:+ String " " ("AND" +:+ String " "
              (col +:+ String " " ("<" +:+ String " " (placeholder n))))))).
    rewrite !Split_app, (Split_free " " col), !(Split_free " " (placeholder _))
      by (first [by apply placeholder_free | by apply col_ok_spaces]). done.
  - intros more r. subst n. cbn. destruct (argument_two (wh_args b) v1 v2 more) as [H1 H2].
    cbn in H1, H2. rewrite H1, H2, andb_true_r. unfold col_cmp. by destruct (column r col).
Qed.

Definition pair_cmp (c1 c2 : string) (o : op) (v1 v2 : arg) (r : row) : bool :=
  match column r c1, column r c2 with
  | Some a1, Some a2 => match pair_compare a1 a2 v1 v2 with Some c => op_holds o c | None => false end
  | _, _ => false
  end.

(** [(c1,c2) < ($i,$j)]. *)
Lemma represents_tuple c1 c2 o v1 v2 b P : col_ok c1 = true -> col_ok c2 = true ->
  represents b P ->
  represents (let b := push [v1; v2] b in
              add ("(" +:+ c1 +:+ "," +:+ c2 +:+ ") " +:+ op_text o +:+ " (" +:+ prev_arg b +:+ "," +:+ last_arg b +:+ ")") b)
    (fun r => P r && pair_cmp c1 c2 o (as_sent v1) (as_sent v2) r).
Proof.
  intros Hc1 Hc2 Hb. cbv zeta. set (n := length (wh_args (push [v1; v2] b))).
  apply (represents_add _ [CTuple c1 c2 o (n - 1) n]).
  - by apply represents_push.
  - split_and!; [done|repeat constructor; cbn; by rewrite Hc1, Hc2|]. unfold tokens, prev_arg, last_arg. fold n.
    assert ("(" +:+ c1 +:+ "," +:+ c2 +:+ ") " +:+ op_text o +:+ " (" +:+ placeholder (n - 1) +:+ "," +:+ placeholder n +:+ ")"
      = ("(" +:+ c1 +:+ "," +:+ c2 +:+ ")") +:+ String " " (op_text o +:+ String " "
          ("(" +:+ placeholder (n - 1) +:+ "," +:+ placeholder n +:+ ")"))) as ->.
    { rewrite !string_app_assoc. done. }
    rewrite !Split_app, !Split_free; [done| |by destruct o|].
    + rewrite !free_app, !placeholder_free by done. done.
    + rewrite !free_app, (col_ok_spaces c1), (col_ok_spaces c2) by done. done.
  - intros more r. subst n. cbn. destruct (argument_two (wh_args b) v1 v2 more) as [H1 H2].
    cbn in H1, H2. rewrite H1, H2, andb_true_r. unfold pair_cmp.
    by destruct (column r c1), (column r c2).
Qed.

(** The text of the conditions, as the statement reads it. *)
Lemma tokens_join parts css : parts <> [] -> Forall2 part_reads parts css ->
  tokens (Join parts " AND ") = conj_tokens (concat css) /\ concat css <> [].
Proof.
  intros Hne HF. induction HF as [|part cs parts css Hp HF IH]; [done|].
  destruct Hp as (Hcs & _ & Ht). destruct HF as [|part2 cs2 parts css Hp2 HF].
  - cbn [Join concat]. by rewrite app_nil_r.
  - destruct (IH ltac:(done)) as [IH1 IH2].
    change (Join (part :: part2 :: parts) " AND ") with (part +:+ String " " ("AND" +:+ String " " (Join (part2 :: parts) " AND "))).
    unfold tokens in *. rewrite !Split_app, Ht, IH1. change (concat (cs :: cs2 :: css)) with (cs ++ concat (cs2 :: css)).
    rewrite conj_tokens_app by done. split; [done|]. by destruct cs.
Qed.

Lemma read_where_sql b P head rest : wh_base b = false -> represents b P ->
  exists cs, tokens (head +:+ sql b +:+ String " " ("ORDER" +:+ String " " rest)) =
    tokens head ++ (if decide (wh_parts b = []) then [] else "WHERE" :: conj_tokens cs) ++ "ORDER" :: tokens rest /\
    read_where ((if decide (wh_parts b = []) then [] else "WHERE" :: conj_tokens cs) ++ "ORDER" :: tokens rest)
      = Some (cs, "ORDER" :: tokens rest) /\
    forall more r, forallb (holds (wh_args b ++ more) r) cs = P r.
Proof.
  intros Hbase (css & HF & HP). exists (concat css). unfold sql. rewrite Hbase. case_decide as Hp.
  - rewrite Hp in *. apply Forall2_nil_inv_l in HF as ->. rewrite string_app_nil_l.
    unfold tokens. by rewrite !Split_app.
  - destruct (tokens_join (wh_parts b) css Hp HF) as [Ht Hcs].
    assert (Forall (fun c => cond_ok c = true) (concat css)) as Hok.
    { clear -HF. induction HF as [|part cs parts css (_ & Hc & _) _ IH]; [constructor|]. by apply Forall_app. }
    assert (match wh_parts b with [] => "" | _ => " WHERE " +:+ Join (wh_parts b) " AND " end
      = String " " ("WHERE" +:+ String " " (Join (wh_parts b) " AND "))) as -> by (by destruct (wh_parts b)).
    split_and!; [| |done].
    + rewrite (string_app_cons " "), string_app_assoc, (string_app_cons " "). unfold tokens in *.
      rewrite !Split_app, Ht. done.
    + cbn [app read_where]. apply read_conds_ok; [done|done|].
      rewrite length_app. pose proof (length_conj_tokens (concat css)). lia.
Qed.
