(* ===== verification/PgWrite.v ===== *)
(** * Writing to PostgreSQL (src/storage/postgres/store.go)

    [WriteBatches] marshals every event, queues one INSERT per event in a pgx batch,
    sends it in a transaction and commits.  The pool and its transactions are an
    environment; each call and its outcome is an entry of the history.  What the
    history did to the table is read off it with the reference semantics: the
    statements of a batch take effect together when the transaction commits. *)

From S2P Require Import Prelude Ids Events GoLib GoText Json JsonText GoTime Wire Payload Storage LinkJson Query Trace PgQuery PgSql.

(** ** Statements *)

Definition event_columns : string :=
  "event_time,event_id,batch_id,jetstream_stream,jetstream_stream_seq,jetstream_consumer,jetstream_consumer_seq,jetstream_delivered,received_at,service,environment,version,kind,level,flow_id,execution_id,parent_execution_id,retry_of_execution_id,execution_attempt,execution_source,scope_type,scope_id,entity_type,entity_id,parent_event_id,flow_status,execution_status,execution_kind,provider,has_error,fields,http_method,http_scheme,http_host,http_path,http_status_code,http_duration_ns,http_success,http_request_size,http_response_size,http_request_preview,http_response_preview,payload_refs".

(** [for i := 1; i <= n; i++]. *)
Fixpoint placeholders_from (i n : nat) : string :=
  match n with
  | O => ""
  | S n => (if Nat.ltb 1 i then "," else "") +:+ placeholder i +:+ placeholders_from (S i) n
  end.
Definition placeholders (n : nat) : string := placeholders_from 1 n.

Definition insertEventSQL : string :=
  "INSERT INTO trail_events (" +:+ event_columns +:+ ") VALUES (" +:+ placeholders 43 +:+ ") ON CONFLICT (event_id) DO NOTHING".

Definition nullableID (id : id16) : arg := if IsZero id then ANull else idBytes id.

Definition eventValues (e : EventRecord) (fields payloads : bytes) : list arg :=
  [ ATime (er_Timestamp e); idBytes (er_ID e); idBytes (er_BatchID e); AText (d_Stream (er_Delivery e));
    AInt (d_StreamSequence (er_Delivery e)); AText (d_Consumer (er_Delivery e));
    AInt (d_ConsumerSequence (er_Delivery e)); AInt (d_Delivered (er_Delivery e));
    ATime (d_ReceivedAt (er_Delivery e)); AText (md_Service (er_Metadata e));
    AText (md_Environment (er_Metadata e)); AText (md_Version (er_Metadata e)); AText (er_Kind e);
    AText (Level_String (er_Level e)); nullableID (er_FlowID e); nullableID (er_ExecutionID e);
    nullableID (er_ParentExecutionID e); nullableID (er_RetryOfExecutionID e); AInt (er_ExecutionAttempt e);
    AText (er_ExecutionSource e); AText (sc_Type (er_Scope e)); AText (sc_ID (er_Scope e));
    AText (er_EntityType e); AText (er_EntityID e); nullableID (er_ParentID e); AText (er_FlowStatus e);
    AText (er_ExecutionStatus e); AText (er_ExecutionKind e); AText (er_Provider e); ABool (er_HasError e);
    ABytes fields; AText (h_Method (er_HTTP e)); AText (h_Scheme (er_HTTP e)); AText (h_Host (er_HTTP e));
    AText (h_Path (er_HTTP e)); AInt (h_StatusCode (er_HTTP e)); AInt (h_Duration (er_HTTP e));
    ABool (h_Success (er_HTTP e)); AInt (h_RequestSize (er_HTTP e)); AInt (h_ResponseSize (er_HTTP e));
    AText (h_RequestPreview (er_HTTP e)); AText (h_ResponsePreview (er_HTTP e)); ABytes payloads ].

(** ** The operation *)

Definition statement : Type := string * list arg.

(** The double loop that fills the pgx batch. *)
Definition queue_event (e : EventRecord) : result statement :=
  let fields := marshal_Fields (er_Fields e) in
  payloads ← marshal_Links (er_Payloads e);
  Ok (insertEventSQL, eventValues e fields payloads).
Definition queue_batches (batches : list StorageBatch) : result (list statement) :=
  go_range (fun _ e => queue_event e) (concat (sb_Events <$> batches)).

Inductive WCall :=
| WBegin (err : option error)
| WSendBatch (batch : list statement)
| WExec (err : option error)
| WCloseResults (err : option error)
| WCommit (err : option error)
| WRollback.

Record WEnv := mkWEnv {
  w_begin : list WCall -> option error;
  w_exec : list WCall -> option error;
  w_close : list WCall -> option error;
  w_commit : list WCall -> option error
}.

Section Write.
Context (env : WEnv).
#[local] Abbreviation S := (E WCall).

(** [for range batch.Len()]: the first failed statement closes the results. *)
Fixpoint exec_loop (n : nat) : S (option error) :=
  match n with
  | O => mret None
  | Datatypes.S n =>
      err ← ask (w_exec env) WExec;
      match err with
      | Some e => _ ← ask (w_close env) WCloseResults; mret (Some e)
      | None => exec_loop n
      end
  end.

(** The body after [Begin], before the deferred [Rollback]. *)
Definition write_tx (batches : list StorageBatch) : S (option error) :=
  match queue_batches batches with
  | Ok batch =>
      _ ← ask (fun _ => tt) (fun _ => WSendBatch batch);
      err ← exec_loop (length batch);
      match err with
      | Some e => mret (Some e)
      | None =>
          err ← ask (w_close env) WCloseResults;
          match err with
          | Some e => mret (Some e)
          | None => ask (w_commit env) WCommit
          end
      end
  | Fail e => mret (Some e)
  | Panic _ => mret (Some type_error) (* marshalling does not panic *)
  end.

Definition WriteBatches (batches : list StorageBatch) : S (option error) :=
  match batches with
  | [] => mret None
  | _ =>
      err ← ask (w_begin env) WBegin;
      match err with
      | Some e => mret (Some e)
      | None =>
          err ← write_tx batches;
          _ ← ask (fun _ => tt) (fun _ => WRollback);
          mret err
      end
  end.
End Write.

(** ** What a history does to the table *)

Definition apply_statements (batch : list statement) (t : table) : option table :=
  foldl (fun t '(q, args) => t ← t; sql_insert t q args) (Some t) batch.

(** Follows the open transaction: the statements it sent, applied when it commits. *)
Fixpoint replay (h : list WCall) (pending : list statement) (t : table) : option table :=
  match h with
  | [] => Some t
  | WBegin _ :: h => replay h [] t
  | WSendBatch batch :: h => replay h batch t
  | WCommit None :: h => t ← apply_statements pending t; replay h [] t
  | _ :: h => replay h pending t
  end.
