(* ===== verification/PgEvents.v ===== *)
(** * Event lists over PostgreSQL

    The rows [WriteBatches] inserts, what an [EventFilter] selects in terms of
    records, and the theorem that the generated statement, read by the reference
    semantics over those rows, returns exactly the selected records in order.  From
    it: pages, and that following the cursors visits every selected record once. *)

From S2P Require Import Prelude Ids Events GoLib GoText Json JsonText GoTime Wire Payload Storage LinkJson Query Trace PgQuery PgSql Keyset PgSqlProofs PgWrite.

(** ** Sorting commutes with a map *)

Section SortMap.
Context {A B : Type} (R : relation A) (R' : relation B) `{!forall x y, Decision (R x y)} `{!forall x y, Decision (R' x y)}.
Context (f : A -> B) (HR : forall x y, R' (f x) (f y) <-> R x y).

Lemma list_merge_fmap l1 l2 : list_merge R' (f <$> l1) (f <$> l2) = f <$> list_merge R l1 l2.
Proof.
  revert l2; induction l1 as [|x l1 IH1]; intros l2; [by rewrite fmap_nil, !list_merge_nil_l|].
  induction l2 as [|y l2 IH2]; [by rewrite fmap_nil, !list_merge_nil_r|]. rewrite !fmap_cons, !list_merge_cons, (decide_ext (R' (f x) (f y)) (R x y)) by done.
  case_decide; rewrite fmap_cons; f_equal.
  - rewrite <- fmap_cons. apply IH1.
  - rewrite <- fmap_cons. apply IH2.
Qed.

#[local] Abbreviation fst_ := (fmap (M := list) (fmap (M := option) (fmap (M := list) f))).

Lemma merge_list_to_stack_fmap st l :
  merge_list_to_stack R' (fst_ st) (f <$> l) = fst_ (merge_list_to_stack R st l).
Proof.
  revert l; induction st as [|[l'|] st IH]; intros l; [done| |done].
  cbn [fmap list_fmap option_fmap option_map merge_list_to_stack]. rewrite list_merge_fmap. f_equal. apply IH.
Qed.

Lemma merge_stack_fmap st : merge_stack R' (fst_ st) = f <$> merge_stack R st.
Proof.
  induction st as [|[l'|] st IH]; [done| |exact IH].
  cbn [fmap list_fmap option_fmap option_map merge_stack] in *. rewrite IH. apply list_merge_fmap.
Qed.

Lemma merge_sort_fmap l : merge_sort R' (f <$> l) = f <$> merge_sort R l.
Proof.
  unfold merge_sort. change (@nil (option (list B))) with (fst_ (@nil (option (list A)))). generalize (@nil (option (list A))).
  induction l as [|x l IH]; intros st; [apply merge_stack_fmap|].
  cbn [fmap list_fmap merge_sort_aux]. rewrite <- IH. f_equal. apply (merge_list_to_stack_fmap st [x]).
Qed.
End SortMap.

(** ** Stored records *)

Definition link_bytes (e : EventRecord) : bytes :=
  match marshal_Links (er_Payloads e) with Ok data => data | _ => [] end.
Definition event_values (e : EventRecord) : list arg := eventValues e (marshal_Fields (er_Fields e)) (link_bytes e).

Definition event_cols : list string := Eval vm_compute in Split event_columns ",".
Lemma event_cols_eq : Split event_columns "," = event_cols.
Proof. vm_compute. reflexivity. Qed.

(** The row holds the values as they are sent. *)
Definition stored_values (e : EventRecord) : list arg := as_sent <$> event_values e.
Definition stored (e : EventRecord) : row := zip event_cols (stored_values e).

Lemma project_stored e : project event_cols (stored e) = Some (stored_values e).
Proof. reflexivity. Qed.

(** ** Selection *)

Definition opt {A} (o : option A) (f : A -> bool) : bool := match o with Some a => f a | None => true end.

(** What the filter says of a record. *)
Definition selects (f : EventFilter) (flow : option FlowID) (e : EventRecord) : bool :=
  let t := ef_Time f in
  (time_IsZero (tr_From t) || (micros (tr_From t) <=? micros (er_Timestamp e))) &&
  (time_IsZero (tr_To t) || (micros (er_Timestamp e) <? micros (tr_To t))) &&
  (str_eqb (ef_Service f) "" || str_eqb (md_Service (er_Metadata e)) (ef_Service f)) &&
  (str_eqb (ef_Environment f) "" || str_eqb (md_Environment (er_Metadata e)) (ef_Environment f)) &&
  (Scope_IsZero (ef_Scope f) || bool_decide (er_Scope e = ef_Scope f)) &&
  (str_eqb (ef_Kind f) "" || str_eqb (er_Kind e) (ef_Kind f)) &&
  opt (ef_Level f) (fun l => str_eqb (Level_String (er_Level e)) (Level_String l)) &&
  ((ef_HTTPStatusClass f <=? 0) ||
     ((i64 (ef_HTTPStatusClass f * 100) <=? h_StatusCode (er_HTTP e)) &&
      (h_StatusCode (er_HTTP e) <? i64 (i64 (ef_HTTPStatusClass f + 1) * 100)))) &&
  (str_eqb (ef_HTTPMethod f) "" || str_eqb (h_Method (er_HTTP e)) (ef_HTTPMethod f)) &&
  ((ef_HTTPStatus f <=? 0) || (h_StatusCode (er_HTTP e) =? ef_HTTPStatus f)) &&
  (str_eqb (ef_Provider f) "" || str_eqb (er_Provider e) (ef_Provider f)) &&
  opt (ef_HasError f) (Bool.eqb (er_HasError e)) &&
  (IsZero (ef_FlowID f) || bool_decide (er_FlowID e = ef_FlowID f)) &&
  (IsZero (ef_ExecutionID f) || bool_decide (er_ExecutionID e = ef_ExecutionID f)) &&
  (str_eqb (ef_EntityType f) "" || str_eqb (er_EntityType e) (ef_EntityType f)) &&
  (str_eqb (ef_EntityID f) "" || str_eqb (er_EntityID e) (ef_EntityID f)) &&
  opt flow (fun id => negb (IsZero (er_FlowID e)) && bool_decide (er_FlowID e = id)).

(** [b] selects the stored records of [p]. *)
Definition selecting (b : where_) (p : EventRecord -> bool) : Prop :=
  wh_base b = false /\ exists P, represents b P /\ forall e, P (stored e) = p e.

Lemma selecting_ext b p p' : selecting b p -> (forall e, p e = p' e) -> selecting b p'.
Proof. intros (Hb & P & H1 & H2) Hp. split; [done|]. exists P. split; [done|]. intros e. by rewrite H2. Qed.

Lemma selecting_new : selecting (newWhere 0) (fun _ => true).
Proof. split; [done|]. exists (fun _ => true). split; [apply represents_new|done]. Qed.

(** A step of the builder that represents one more condition. *)
Definition step_selects (g : where_ -> where_) (q : EventRecord -> bool) : Prop :=
  forall b, wh_base (g b) = wh_base b /\
    forall P, represents b P -> exists Q, represents (g b) (fun r => P r && Q r) /\ forall e, Q (stored e) = q e.

Lemma selecting_step g q b p : step_selects g q -> selecting b p -> selecting (g b) (fun e => p e && q e).
Proof.
  intros Hg (Hb & P & HP & Hp). destruct (Hg b) as [Hbase Hs]. destruct (Hs P HP) as (Q & HQ & Hq).
  split; [by rewrite Hbase|]. exists (fun r => P r && Q r). split; [done|]. intros e. by rewrite Hp, Hq.
Qed.

Lemma step_when c g q : (c = true -> step_selects g q) -> step_selects (when c g) (fun e => negb c || q e).
Proof.
  intros Hg b. destruct c; cbn [when negb orb]; [by apply Hg|]. split; [done|]. intros P HP.
  exists (fun _ => true). split; [|done]. eapply represents_ext; [exact HP|]. intros r. by rewrite andb_true_r.
Qed.

Lemma step_none q : (forall e, q e = true) -> step_selects (fun b => b) q.
Proof.
  intros Hq b. split; [done|]. intros P HP. exists (fun _ => true). split; [|intros; by rewrite Hq].
  eapply represents_ext; [exact HP|]. intros r. by rewrite andb_true_r.
Qed.

Lemma step_ext g q q' : step_selects g q -> (forall e, q e = q' e) -> step_selects g q'.
Proof.
  intros Hg Hq b. destruct (Hg b) as [Hb Hs]. split; [done|]. intros P HP. destruct (Hs P HP) as (Q & H1 & H2).
  exists Q. split; [done|]. intros e. by rewrite H2.
Qed.

Lemma step_eq col v : col_ok col = true -> step_selects (eq_ col v) (fun e => col_is col (as_sent v) (stored e)).
Proof. intros Hc b. split; [done|]. intros P HP. exists (col_is col (as_sent v)). split; [by apply represents_eq|done]. Qed.

Lemma step_comp g1 g2 q1 q2 : step_selects g1 q1 -> step_selects g2 q2 ->
  step_selects (fun b => g2 (g1 b)) (fun e => q1 e && q2 e).
Proof.
  intros H1 H2 b. destruct (H1 b) as [B1 S1]. destruct (H2 (g1 b)) as [B2 S2]. split; [by rewrite B2|].
  intros P HP. destruct (S1 P HP) as (Q1 & R1 & E1). destruct (S2 _ R1) as (Q2 & R2 & E2).
  exists (fun r => Q1 r && Q2 r). split; [|intros e; by rewrite E1, E2].
  eapply represents_ext; [exact R2|]. intros r. by rewrite andb_assoc.
Qed.

(** *** The columns *)

Lemma arg_text x y : arg_eqb (AText x) (AText y) = str_eqb x y.
Proof. cbn. unfold str_eqb. apply bool_decide_ext. split; [by intros [= ->]|by intros ->]. Qed.

Lemma arg_id (id id' : id16) : IsZero id' = false -> arg_eqb (nullableID id) (idBytes id') = bool_decide (id = id').
Proof.
  unfold nullableID, IsZero, idBytes. intros Hz%bool_decide_eq_false. case_bool_decide as H.
  - subst id. symmetry. apply bool_decide_eq_false. congruence.
  - cbn. apply bool_decide_ext. split; [|by intros ->]. intros [= Hb]. by apply array_eq.
Qed.

Lemma arg_id_stored (id id' : id16) :
  arg_eqb (nullableID id) (idBytes id') = negb (IsZero id) && bool_decide (id = id').
Proof.
  unfold nullableID. destruct (IsZero id) eqn:Hz; [done|]. cbn. apply bool_decide_ext. split; [|by intros ->].
  intros [= Hb]. by apply array_eq.
Qed.

Lemma as_sent_id id : as_sent (nullableID id) = nullableID id.
Proof. unfold nullableID. by destruct (IsZero id). Qed.

Lemma step_text col s get : col_ok col = true -> (forall e, column (stored e) col = Some (AText (get e))) ->
  step_selects (when (given s) (eq_ col (AText s))) (fun e => str_eqb s "" || str_eqb (get e) s).
Proof.
  intros Hc Hcol. eapply step_ext; [apply step_when; intros _; by apply step_eq|].
  intros e. unfold given, col_is. rewrite negb_involutive, Hcol. cbn [as_sent]. by rewrite arg_text.
Qed.

Lemma step_id col id get : col_ok col = true -> (forall e, column (stored e) col = Some (as_sent (nullableID (get e)))) ->
  step_selects (when (negb (IsZero id)) (eq_ col (idBytes id))) (fun e => IsZero id || bool_decide (get e = id)).
Proof.
  intros Hc Hcol. eapply step_ext; [apply step_when; intros _; by apply step_eq|].
  intros e. unfold col_is. rewrite negb_involutive, Hcol, as_sent_id. destruct (IsZero id) eqn:Hz; [done|]. cbn [as_sent idBytes]. by rewrite arg_id.
Qed.

Lemma step_time o t : step_selects
  (fun b => let b := push [ATime t] b in add ("event_time " +:+ op_text o +:+ " " +:+ last_arg b) b)
  (fun e => op_holds o (micros (er_Timestamp e) ?= micros t)).
Proof.
  intros b. split; [done|]. intros P HP. exists (col_cmp "event_time" o (ATime (micros t))).
  split; [exact (represents_cmp "event_time" o (ATime t) b P eq_refl HP)|done].
Qed.

Lemma op_ge x y : op_holds OGe (x ?= y) = (y <=? x).
Proof. cbn. destruct (Z.compare_spec x y); symmetry; [apply Z.leb_le; lia|apply Z.leb_gt; lia|apply Z.leb_le; lia]. Qed.
Lemma op_lt x y : op_holds OLt (x ?= y) = (x <? y).
Proof. cbn. destruct (Z.compare_spec x y); symmetry; [apply Z.ltb_ge; lia|apply Z.ltb_lt; lia|apply Z.ltb_ge; lia]. Qed.

(** *** The whole filter *)

Lemma step_status_class c : step_selects
  (when (0 <? c) (fun b => let b := push [AInt (i64 (c * 100)); AInt (i64 (i64 (c + 1) * 100))] b in
     add ("http_status_code >= " +:+ prev_arg b +:+ " AND http_status_code < " +:+ last_arg b) b))
  (fun e => (c <=? 0) || ((i64 (c * 100) <=? h_StatusCode (er_HTTP e)) &&
                          (h_StatusCode (er_HTTP e) <? i64 (i64 (c + 1) * 100)))).
Proof.
  eapply step_ext.
  - apply step_when. intros _ b. split; [done|]. intros P HP.
    exists (fun r => col_cmp "http_status_code" OGe (AInt (i64 (c * 100))) r
                     && col_cmp "http_status_code" OLt (AInt (i64 (i64 (c + 1) * 100))) r).
    split; [exact (represents_range "http_status_code" _ _ b P eq_refl HP)|]. intros e. reflexivity.
  - intros e. cbv beta. change (column (stored e) "http_status_code") with (Some (AInt (h_StatusCode (er_HTTP e)))).
    unfold col_cmp. change (column (stored e) "http_status_code") with (Some (AInt (h_StatusCode (er_HTTP e)))).
    cbn [arg_compare]. rewrite op_ge, op_lt. f_equal. destruct (Z.ltb_spec 0 c), (Z.leb_spec c 0); try done; lia.
Qed.

Lemma step_status s : step_selects (when (0 <? s) (eq_ "http_status_code" (AInt s)))
  (fun e => (s <=? 0) || (h_StatusCode (er_HTTP e) =? s)).
Proof.
  eapply step_ext; [apply step_when; intros _; by apply step_eq|]. intros e.
  unfold col_is. change (column (stored e) "http_status_code") with (Some (AInt (h_StatusCode (er_HTTP e)))).
  replace (negb (0 <? s)) with (s <=? 0) by (destruct (Z.ltb_spec 0 s), (Z.leb_spec s 0); try done; lia).
  f_equal. cbn. rewrite (bool_decide_ext _ (h_StatusCode (er_HTTP e) = s)) by (split; [by intros [= ->]|by intros ->]).
  case_bool_decide; symmetry; [by apply Z.eqb_eq|by apply Z.eqb_neq].
Qed.

Lemma step_scope scope : step_selects (applyScope scope) (fun e => Scope_IsZero scope || bool_decide (er_Scope e = scope)).
Proof.
  unfold applyScope. destruct (Scope_IsZero scope) eqn:Hz; [by apply step_none|].
  eapply step_ext; [apply step_comp; by apply step_eq|]. intros e. cbv beta. unfold col_is.
  change (column (stored e) "scope_type") with (Some (AText (sc_Type (er_Scope e)))).
  change (column (stored e) "scope_id") with (Some (AText (sc_ID (er_Scope e)))).
  cbn [as_sent]. rewrite !arg_text. unfold str_eqb. cbn [orb]. destruct scope as [t i], (er_Scope e) as [t' i'] eqn:E. cbn.
  rewrite <- bool_decide_and. apply bool_decide_ext. split; [by intros [-> ->]|by intros [= -> ->]].
Qed.

Lemma step_level l : step_selects (fun b => match l with Some l => eq_ "level" (AText (Level_String l)) b | None => b end)
  (fun e => opt l (fun l => str_eqb (Level_String (er_Level e)) (Level_String l))).
Proof.
  destruct l as [l|]; [|by apply step_none]. eapply step_ext; [by apply step_eq|]. intros e. unfold col_is.
  change (column (stored e) "level") with (Some (AText (Level_String (er_Level e)))). apply arg_text.
Qed.

Lemma step_has_error o : step_selects (fun b => match o with Some e => eq_ "has_error" (ABool e) b | None => b end)
  (fun e => opt o (Bool.eqb (er_HasError e))).
Proof.
  destruct o as [v|]; [|by apply step_none]. eapply step_ext; [by apply step_eq|]. intros e. unfold col_is.
  change (column (stored e) "has_error") with (Some (ABool (er_HasError e))). cbn. by destruct (er_HasError e), v.
Qed.

Lemma step_flow flow : step_selects
  (fun b => match option_map (fun id : FlowID => ("flow_id", idBytes id)) flow with
            | Some (column, value) => eq_ column value b
            | None => b
            end)
  (fun e => opt flow (fun id => negb (IsZero (er_FlowID e)) && bool_decide (er_FlowID e = id))).
Proof.
  destruct flow as [id|]; [|by apply step_none]. eapply step_ext; [by apply step_eq|]. intros e. unfold col_is.
  change (column (stored e) "flow_id") with (Some (as_sent (nullableID (er_FlowID e)))). rewrite as_sent_id. apply arg_id_stored.
Qed.

Lemma step_from t : step_selects (when (negb (time_IsZero t))
    (fun b => let b := push [ATime t] b in add ("event_time >= " +:+ last_arg b) b))
  (fun e => time_IsZero t || (micros t <=? micros (er_Timestamp e))).
Proof.
  eapply step_ext; [apply step_when; intros _; apply (step_time OGe)|]. intros e. by rewrite negb_involutive, op_ge.
Qed.
Lemma step_to t : step_selects (when (negb (time_IsZero t))
    (fun b => let b := push [ATime t] b in add ("event_time < " +:+ last_arg b) b))
  (fun e => time_IsZero t || (micros (er_Timestamp e) <? micros t)).
Proof.
  eapply step_ext; [apply step_when; intros _; apply (step_time OLt)|]. intros e. by rewrite negb_involutive, op_lt.
Qed.

Definition extra_of (flow : option FlowID) : option (string * arg) :=
  option_map (fun id : FlowID => ("flow_id", idBytes id)) flow.

Lemma events_where_selects f flow : selecting (events_where f (extra_of flow)) (selects f flow).
Proof.
  unfold selects, events_where. cbv zeta.
  eapply (selecting_step _ _ _ _ (step_flow flow)).
  eapply (selecting_step _ _ _ _ (step_text "entity_id" _ er_EntityID eq_refl (fun _ => eq_refl))).
  eapply (selecting_step _ _ _ _ (step_text "entity_type" _ er_EntityType eq_refl (fun _ => eq_refl))).
  eapply (selecting_step _ _ _ _ (step_id "execution_id" _ er_ExecutionID eq_refl (fun _ => eq_refl))).
  eapply (selecting_step _ _ _ _ (step_id "flow_id" _ er_FlowID eq_refl (fun _ => eq_refl))).
  eapply (selecting_step _ _ _ _ (step_has_error _)).
  eapply (selecting_step _ _ _ _ (step_text "provider" _ er_Provider eq_refl (fun _ => eq_refl))).
  eapply (selecting_step _ _ _ _ (step_status _)).
  eapply (selecting_step _ _ _ _ (step_text "http_method" _ (fun e => h_Method (er_HTTP e)) eq_refl (fun _ => eq_refl))).
  eapply (selecting_step _ _ _ _ (step_status_class _)).
  eapply (selecting_step _ _ _ _ (step_level _)).
  eapply (selecting_step _ _ _ _ (step_text "kind" _ er_Kind eq_refl (fun _ => eq_refl))).
  eapply (selecting_step _ _ _ _ (step_scope _)).
  eapply (selecting_step _ _ _ _ (step_text "environment" _ (fun e => md_Environment (er_Metadata e)) eq_refl (fun _ => eq_refl))).
  eapply (selecting_step _ _ _ _ (step_text "service" _ (fun e => md_Service (er_Metadata e)) eq_refl (fun _ => eq_refl))).
  eapply (selecting_step _ _ _ _ (step_to _)).
  eapply selecting_ext; [eapply (selecting_step _ _ _ _ (step_from _)); apply selecting_new|done].
Qed.

(** ** Order and cursors *)

Definition event_key (e : EventRecord) : key := (micros (er_Timestamp e), er_ID e).

(** The key a cursor stands for; an identifier that does not parse counts as none. *)
Definition cursor_key (p : PageRequest) : option key :=
  if str_eqb (c_ID (p_Cursor p)) "" then None
  else match ParseEventID (c_ID (p_Cursor p)) with
  | Ok raw => Some (micros (c_Timestamp (p_Cursor p)), raw)
  | _ => None
  end.

Lemma step_cursor p : step_selects (applyCursor p "event_time" "event_id")
  (fun e => opt (cursor_key p) (fun k => follows (p_Desc p) k (event_key e))).
Proof.
  unfold applyCursor, cursor_key. destruct (str_eqb _ ""); [by apply step_none|].
  destruct (ParseEventID _) as [raw| |]; [|by apply step_none..].
  intros b. split; [done|]. intros P HP.
  set (o := if p_Desc p then OLt else OGt). replace (direction_op p) with (op_text o).
  2: { unfold direction_op. subst o. by destruct (p_Desc p). }
  exists (pair_cmp "event_time" "event_id" o (ATime (micros (c_Timestamp (p_Cursor p)))) (idBytes raw)). split.
  - exact (represents_tuple "event_time" "event_id" o _ _ b P eq_refl eq_refl HP).
  - intros e. unfold pair_cmp.
    change (column (stored e) "event_time") with (Some (ATime (micros (er_Timestamp e)))).
    change (column (stored e) "event_id") with (Some (idBytes (er_ID e))).
    cbn [pair_compare arg_compare idBytes opt]. unfold follows, key_compare. cbn [fst snd event_key].
    subst o. destruct (micros (er_Timestamp e) ?= _), (p_Desc p); try done; by destruct (bytes_compare _ _).
Qed.

Abbreviation ev_le := (le_by event_key).

Lemma row_le_stored desc a b : row_le "event_time" "event_id" desc (stored a) (stored b) <-> ev_le desc a b.
Proof.
  unfold row_le, le_by, row_leb, leb_by, key_compare.
  change (column (stored a) "event_time") with (Some (ATime (micros (er_Timestamp a)))).
  change (column (stored a) "event_id") with (Some (idBytes (er_ID a))).
  change (column (stored b) "event_time") with (Some (ATime (micros (er_Timestamp b)))).
  change (column (stored b) "event_id") with (Some (idBytes (er_ID b))).
  cbn [pair_compare arg_compare idBytes event_key fst snd]. by destruct (micros (er_Timestamp a) ?= micros (er_Timestamp b)).
Qed.

(** The selected records in order. *)
Abbreviation listing := (listing_by event_key).

(** ** The statement *)

Lemma events_base_selecting f flow p :
  selecting (applyCursor p "event_time" "event_id" (events_where f (extra_of flow)))
    (fun e => selects f flow e && opt (cursor_key p) (fun k => follows (p_Desc p) k (event_key e))).
Proof. apply (selecting_step _ _ _ _ (step_cursor p)). apply events_where_selects. Qed.

Definition select_head : list string := Eval vm_compute in tokens eventSelect.
Lemma select_head_eq : tokens eventSelect = select_head.
Proof. vm_compute. reflexivity. Qed.
(** The statement selects the columns of [eventSelect]. *)
Definition event_statement (q : string) : Prop := take 4 (tokens q) = select_head.

Lemma select_head_cols : exists cols, select_head = ["SELECT"; cols; "FROM"; "trail_events"] /\ Split cols "," = event_cols.
Proof. eexists. split; [reflexivity|vm_compute; reflexivity]. Qed.

Lemma read_order_tail p k :
  tokens ("BY event_time " +:+ direction p +:+ ",event_id " +:+ direction p +:+ " LIMIT " +:+ placeholder k)
    = ["BY"; "event_time"; direction p +:+ ",event_id"; direction p; "LIMIT"; placeholder k] /\
  read_order ["ORDER"; "BY"; "event_time"; direction p +:+ ",event_id"; direction p; "LIMIT"; placeholder k]
    = Some ("event_time", "event_id", p_Desc p, k)%string.
Proof.
  assert (free " " (placeholder k) = true) as Hk by (by apply placeholder_free).
  split.
  - unfold tokens, direction. destruct (p_Desc p); cbn [negb].
    + change ("BY event_time " +:+ "DESC" +:+ ",event_id " +:+ "DESC" +:+ " LIMIT " +:+ placeholder k)
        with ("BY event_time DESC,event_id DESC LIMIT" +:+ String " " (placeholder k)).
      by rewrite Split_app, (Split_free " " (placeholder k)).
    + change ("BY event_time " +:+ "ASC" +:+ ",event_id " +:+ "ASC" +:+ " LIMIT " +:+ placeholder k)
        with ("BY event_time ASC,event_id ASC LIMIT" +:+ String " " (placeholder k)).
      by rewrite Split_app, (Split_free " " (placeholder k)).
  - unfold read_order, direction. destruct (p_Desc p); cbn [negb]; cbn -[placeholder read_placeholder];
      by rewrite read_placeholder_ok.
Qed.

Lemma mapM_fmap_Some {A B C} (g : B -> option C) (f : A -> B) (h : A -> C) l :
  (forall a, g (f a) = Some (h a)) -> mapM g (f <$> l) = Some (h <$> l).
Proof.
  intros Hg. apply mapM_Some, Forall2_fmap, Forall_Forall2_diag, Forall_forall. by intros.
Qed.

Lemma filter_fmap_iff {A B} (P : B -> Prop) (Q : A -> Prop) `{!forall b, Decision (P b)} `{!forall a, Decision (Q a)} (f : A -> B) (l : list A) :
  (forall a, P (f a) <-> Q a) -> filter P (f <$> l) = f <$> filter Q l.
Proof.
  intros HPQ. induction l as [|a l IH]; [done|]. rewrite fmap_cons, !filter_cons, IH.
  destruct (decide (P (f a))), (decide (Q a)); naive_solver.
Qed.

(** The tokens of a generated statement. *)
Lemma events_query_tokens f flow p : exists rest,
  tokens (events_query f p (extra_of flow)).1 = select_head ++ rest.
Proof.
  destruct (events_base_selecting f flow p) as (Hbase & P & HP & Hp). unfold events_query. cbv zeta.
  set (b := applyCursor p "event_time" "event_id" (events_where f (extra_of flow))) in *. clearbody b.
  destruct (read_where_sql (push [AInt (i64 (p_Limit p + 1))] b) P eventSelect
    ("BY event_time " +:+ direction p +:+ ",event_id " +:+ direction p +:+ " LIMIT "
       +:+ last_arg (push [AInt (i64 (p_Limit p + 1))] b)))
    as (cs & Ht & _); [done|by apply represents_push|].
  eexists. rewrite <- select_head_eq. exact Ht.
Qed.

Lemma events_query_statement f flow p : event_statement (events_query f p (extra_of flow)).1.
Proof. unfold event_statement. destruct (events_query_tokens f flow p) as [rest ->]. reflexivity. Qed.

(** The generated statement returns the selected records after the cursor, in
    order, at most one more than the limit. *)
Lemma events_query_meaning f flow p recs :
  0 <= p_Limit p < 2 ^ 62 ->
  sql_select (stored <$> recs) (events_query f p (extra_of flow)).1 (events_query f p (extra_of flow)).2 =
  Some (stored_values <$> take (S (Z.to_nat (p_Limit p)))
    (listing (p_Desc p) (filter (fun e => selects f flow e &&
       opt (cursor_key p) (fun k => follows (p_Desc p) k (event_key e)) = true) recs))).
Proof.
  intros Hl. destruct (events_base_selecting f flow p) as (Hbase & P & HP & Hp). unfold events_query. cbv zeta.
  set (b := applyCursor p "event_time" "event_id" (events_where f (extra_of flow))) in *. clearbody b.
  set (n := AInt (i64 (p_Limit p + 1))). cbn [fst snd].
  destruct (read_where_sql (push [n] b) P eventSelect
    ("BY event_time " +:+ direction p +:+ ",event_id " +:+ direction p +:+ " LIMIT " +:+ last_arg (push [n] b)))
    as (cs & Ht & Hr & Hc); [done|by apply represents_push|].
  destruct (read_order_tail p (length (wh_args (push [n] b)))) as [Htail Hord].
  unfold sql_select.
  assert (tokens (eventSelect +:+ sql (push [n] b) +:+ " ORDER BY event_time " +:+ direction p +:+ ",event_id " +:+ direction p +:+ " LIMIT " +:+ last_arg (push [n] b))
    = select_head ++ (if decide (wh_parts (push [n] b) = []) then [] else "WHERE" :: conj_tokens cs) ++
      ["ORDER"; "BY"; "event_time"; direction p +:+ ",event_id"; direction p; "LIMIT"; placeholder (length (wh_args (push [n] b)))]) as ->.
  { rewrite <- select_head_eq. unfold last_arg in *. rewrite Htail in Ht. exact Ht. }
  destruct select_head_cols as (cols & -> & Hcols). cbn [app].
  unfold last_arg in Hr. rewrite Htail in Hr. rewrite Hr. cbn [mbind option_bind]. rewrite Hord. cbn [mbind option_bind].
  pose proof (argument_last (wh_args b) n []) as Harg. rewrite app_nil_r in Harg.
  change (wh_args (push [n] b)) with (wh_args b ++ [n]) in *. rewrite Harg. subst n. cbn [as_sent].
  assert (i64 (p_Limit p + 1) = p_Limit p + 1) as Hi by (unfold i64, wraps; rewrite Z.mod_small; lia).
  rewrite Hi.
  replace (p_Limit p + 1 <? 0) with false by lia. cbv zeta. rewrite Hcols.
  rewrite (filter_fmap_iff _ (fun e => selects f flow e &&
    opt (cursor_key p) (fun k => follows (p_Desc p) k (event_key e)) = true) stored recs).
  2: { intros e. specialize (Hc [] (stored e)). rewrite app_nil_r in Hc.
       change (wh_args (push [AInt (i64 (p_Limit p + 1))] b)) with (wh_args b ++ [AInt (i64 (p_Limit p + 1))]) in Hc.
       cbv beta. rewrite Hi in Hc. rewrite Hc, Hp. done. }
  rewrite (merge_sort_fmap (ev_le (p_Desc p)) _ stored (row_le_stored (p_Desc p))), <- fmap_take.
  replace (Z.to_nat (p_Limit p + 1)) with (S (Z.to_nat (p_Limit p))) by lia.
  apply mapM_fmap_Some. apply project_stored.
Qed.

(** ** Reading rows back *)

(** What [Scan] leaves of a nullable identifier. *)
Definition null_bytes (b : bytes) : arg := if bool_decide (b = []) then ANull else ABytes b.

(** The columns of a row of destination variables, with the texts of the two jsonb
    columns given. *)
Definition row_args (r : EventRow) (fields payloads : bytes) : list arg :=
  [ ATime (vr_time r); ABytes (vr_id r); ABytes (vr_batch r); AText (vr_stream r); AInt (vr_stream_seq r);
    AText (vr_consumer r); AInt (vr_consumer_seq r); AInt (vr_delivered r); ATime (vr_received r);
    AText (vr_service r); AText (vr_environment r); AText (vr_version r); AText (vr_kind r); AText (vr_level r);
    null_bytes (vr_flow r); null_bytes (vr_exec r); null_bytes (vr_parent_exec r); null_bytes (vr_retry r);
    AInt (vr_attempt r); AText (vr_source r); AText (vr_scope_type r); AText (vr_scope_id r);
    AText (vr_entity_type r); AText (vr_entity_id r); null_bytes (vr_parent r); AText (vr_flow_status r);
    AText (vr_execution_status r); AText (vr_execution_kind r); AText (vr_provider r); ABool (vr_has_error r);
    ABytes fields; AText (vr_method r); AText (vr_scheme r); AText (vr_host r); AText (vr_path r);
    AInt (vr_status_code r); AInt (vr_duration r); ABool (vr_success r); AInt (vr_request_size r);
    AInt (vr_response_size r); AText (vr_request_preview r); AText (vr_response_preview r); ABytes payloads ].

(** [Scan] copies the columns of a row into the variables.  A jsonb column comes
    back as a text of the same JSON value, which may be laid out differently. *)
Definition scans (values : list arg) (r : EventRow) : Prop :=
  exists fields payloads, values = row_args r fields payloads /\
    (forall v, unmarshal_Fields fields = Ok v -> unmarshal_Fields (vr_fields r) = Ok v) /\
    (forall v, unmarshal_Links payloads = Ok v -> unmarshal_Links (vr_payloads r) = Ok v).

(** The documented behaviour of the pool over a table: an event statement of the
    reference semantics is answered without error, with the rows it selects. *)
Definition pg_reads (env : PgEnv) (t : table) : Prop :=
  forall h q args values, event_statement q -> sql_select t q args = Some values ->
    let rows := pg_query env SEvent h q args in
    rs_err rows = None /\ rs_end rows = None /\
    Forall2 (fun v r => r.2 = None /\ scans v r.1) values (rs_rows rows).

(** A record that can be written and read back, but for the class that has no
    column and what its times have below a microsecond. *)
Definition storable (e : EventRecord) : Prop :=
  Forall field_printable (er_Fields e) /\ Forall link_printable (er_Payloads e) /\ 0 <= er_Level e <= 3.
Definition read_back (e : EventRecord) : EventRecord :=
  e <| er_RetentionClass := "" |> <| er_Timestamp := micros (er_Timestamp e) |>
    <| er_Delivery := (er_Delivery e) <| d_ReceivedAt := micros (d_ReceivedAt (er_Delivery e)) |> |>.

Lemma copy16_array (id : id16) : copy16 (array_bytes id) = id.
Proof.
  unfold copy16. pose proof (length_array id) as Hl. rewrite Hl, take_ge by lia. cbn [replicate Nat.sub].
  rewrite app_nil_r. by rewrite to_array_self.
Qed.

Lemma copy16_null b (id : id16) : null_bytes b = nullableID id -> copy16 b = id.
Proof.
  unfold null_bytes, nullableID, IsZero. case_bool_decide as Hb; case_bool_decide as Hz; try done.
  - intros _. subst. apply array_eq. vm_compute. reflexivity.
  - intros [= ->]. apply copy16_array.
Qed.

Lemma link_bytes_ok e : Forall link_printable (er_Payloads e) -> unmarshal_Links (link_bytes e) = Ok (er_Payloads e).
Proof. intros H. unfold link_bytes. by destruct (unmarshal_marshal_Links _ H) as (data & -> & Hd). Qed.

Lemma scanEvent_stored e r : storable e -> scans (stored_values e) r -> scanEvent (r, None) = (read_back e, None).
Proof.
  intros (Hf & Hl & Hv) (fields & payloads & Heq & HF & HL). unfold stored_values, event_values, eventValues, row_args in Heq.
  cbn [fmap list_fmap] in Heq. rewrite !as_sent_id in Heq. cbn [as_sent idBytes] in Heq.
  injection Heq as E1 E2 E3 E4 E5 E6 E7 E8 E9 E10 E11 E12 E13 E14 E15 E16 E17 E18 E19 E20 E21 E22 E23 E24 E25
    E26 E27 E28 E29 E30 E31 E32 E33 E34 E35 E36 E37 E38 E39 E40 E41 E42 E43.
  unfold scanEvent. rewrite (HF (er_Fields e)) by (rewrite <- E31; by apply unmarshal_marshal_Fields).
  rewrite (HL (er_Payloads e)) by (rewrite <- E43; by apply link_bytes_ok).
  symmetry in E15, E16, E17, E18, E25. apply copy16_null in E15, E16, E17, E18, E25.
  f_equal. unfold event_of_row, read_back. rewrite <- E1, <- E9, <- E2, <- E3, !copy16_array, E15, E16, E17, E18, E25, <- E14.
  rewrite parseLevel_String by lia.
  destruct e as [? ? ? ? ? ? ? ? ? ? [] ? ? ? ? ? ? ? ? ? ? [] ? ? [] []]. cbn in *. subst. done.
Qed.

(** A successful scan of all rows. *)
Lemma collect_stored (l : list EventRecord) rows : Forall storable l ->
  Forall2 (fun v r => r.2 = None /\ scans v r.1) (stored_values <$> l) rows ->
  collect scanEvent rows = Ok (read_back <$> l).
Proof.
  intros Hs HF. revert rows HF. induction Hs as [|e l He _ IH]; intros rows HF.
  - apply Forall2_nil_inv_l in HF as ->. done.
  - rewrite fmap_cons in HF. apply Forall2_cons_inv_l in HF as ([r err] & rows' & [Herr Hr] & HF & ->).
    cbn [snd fst] in *. subst err. cbn [collect]. rewrite (scanEvent_stored e r He Hr). by rewrite (IH _ HF).
Qed.

(** ** One page *)

Definition event_page (limit : nat) (l : list EventRecord) : Page EventRecord :=
  if decide (limit < length l)%nat
  then mkPage (take limit l) (match last (take limit l) with Some v => event_cursor v | None => Cursor_zero end) true
  else mkPage l Cursor_zero false.

Lemma page_steps_event_page {C A} (m : E C (result (Page EventRecord))) (back : A -> EventRecord) limit l h :
  (0 < limit)%nat -> (m h).2 = Ok (event_page limit (back <$> l)) ->
  (page_steps m h).2 = Ok (back <$> take limit l,
    if decide (limit < length l)%nat then (fun a => event_cursor (back a)) <$> last (take limit l) else None).
Proof.
  intros Hl Hm. unfold page_steps, mbind, E_bind. destruct (m h) as [h' r]. cbn [snd] in *. subst r. cbn. f_equal.
  unfold page_step, event_page. rewrite length_fmap. case_decide as Hd; cbn [pg_Items pg_HasMore pg_NextCursor].
  - rewrite <- fmap_take, fmap_last. destruct (last (take limit l)) as [x|] eqn:E; [done|].
    apply last_None, (f_equal length) in E. rewrite length_take in E. simpl in E. lia.
  - by rewrite take_ge by lia.
Qed.

Definition selected (f : EventFilter) (flow : option FlowID) (p : PageRequest) (recs : list EventRecord) : list EventRecord :=
  listing (p_Desc p) (filter (fun e => selects f flow e &&
     opt (cursor_key p) (fun k => follows (p_Desc p) k (event_key e)) = true) recs).

Lemma makePage_take {T} (cursor : T -> Cursor) limit (l : list T) p :
  p_Limit p = Z.of_nat limit -> (0 < limit)%nat ->
  makePage (take (S limit) l) p cursor =
  Ok (if decide (limit < length l)%nat
      then mkPage (take limit l) (match last (take limit l) with Some v => cursor v | None => Cursor_zero end) true
      else mkPage l Cursor_zero false).
Proof.
  intros Hl Hpos. unfold makePage. rewrite Hl, length_take. case_decide as Hd.
  - rewrite (proj2 (Z.ltb_lt _ _)), (proj2 (Z.ltb_ge _ _)) by lia.
    rewrite Nat2Z.id, take_take, Nat.min_l by lia.
    destruct (last (take limit l)) eqn:E; [done|]. apply last_None in E. exfalso.
    apply (f_equal length) in E. rewrite length_take in E. simpl in E. lia.
  - rewrite (proj2 (Z.ltb_ge _ _)) by lia. by rewrite take_ge by lia.
Qed.

Lemma listEvents_page env f flow p recs h :
  pg_reads env (stored <$> recs) -> Forall storable recs -> 0 < p_Limit p < 2 ^ 62 ->
  (listEvents env f p (extra_of flow) h).2 = Ok (event_page (Z.to_nat (p_Limit p)) (read_back <$> selected f flow p recs)).
Proof.
  intros Henv Hs Hl. unfold listEvents, list_page, Query.
  unfold mbind, E_bind, ask, mret, E_ret. cbn [fst snd].
  destruct (Henv h _ _ _ (events_query_statement f flow p) (events_query_meaning f flow p recs ltac:(lia))) as (H1 & H2 & H3).
  fold (selected f flow p recs) in H3. rewrite H1, H2.
  replace (i64 (p_Limit p + 1) <? 0) with false by (unfold i64, wraps; rewrite Z.mod_small; lia).
  assert (Forall storable (take (S (Z.to_nat (p_Limit p))) (selected f flow p recs))) as Ht.
  { apply Forall_take, Forall_forall. intros e He. unfold selected, listing_by in He.
    rewrite merge_sort_Permutation in He. apply list_elem_of_filter in He as [_ He].
    rewrite Forall_forall in Hs. by apply Hs. }
  pose proof (collect_stored _ _ Ht H3) as Hc. cbn [dests] in *. rewrite Hc. cbn [mbind result_bind].
  rewrite fmap_take. by rewrite (makePage_take event_cursor (Z.to_nat (p_Limit p))) by lia.
Qed.
