(* ===== verification/PgPages.v ===== *)
(** * Following the cursors of an event list

    Events are ordered by time and identifier, which is total and strict on records
    with distinct identifiers.  The page after a cursor is what follows the record
    the cursor was made of, so the pages of a list, put together, are the list. *)

From S2P Require Import Prelude Ids Events GoLib GoText Json JsonText GoTime Wire Payload Storage LinkJson Query Trace PgQuery PgSql Keyset PgSqlProofs PgWrite PgEvents.

(** ** Pages *)

(** All records a filter selects, in order. *)
Definition matching (f : EventFilter) (flow : option FlowID) (desc : bool) (recs : list EventRecord) : list EventRecord :=
  listing desc (filter (fun e => selects f flow e = true) recs).

Lemma selected_filter f flow p recs : NoDup (er_ID <$> recs) ->
  selected f flow p recs = filter (fun e => opt (cursor_key p) (fun k => follows (p_Desc p) k (event_key e)) = true)
    (matching f flow (p_Desc p) recs).
Proof.
  intros HN. unfold selected, matching. rewrite <- listing_filter by (by apply NoDup_ids_filter). f_equal.
  rewrite list_filter_filter. apply list_filter_iff. intros e. rewrite andb_true_iff. tauto.
Qed.

Lemma selected_first f flow p recs : NoDup (er_ID <$> recs) -> cursor_key p = None ->
  selected f flow p recs = matching f flow (p_Desc p) recs.
Proof. intros HN Hk. rewrite selected_filter, Hk by done. by apply filter_all. Qed.

Lemma selected_next f flow p recs l1 x l2 : NoDup (er_ID <$> recs) -> cursor_key p = Some (event_key x) ->
  matching f flow (p_Desc p) recs = l1 ++ x :: l2 -> selected f flow p recs = l2.
Proof.
  intros HN Hk Heq. rewrite selected_filter, Hk by done. cbn [opt].
  eapply filter_follows; [by apply NoDup_ids_filter|exact Heq].
Qed.

(** The cursor of a record stands for its key. *)
Lemma encodeID_nonempty id : encodeID id <> "".
Proof. intros H%(f_equal slen). by rewrite slen_encodeID in H. Qed.

Lemma micros_idem t : micros (micros t) = micros t.
Proof. unfold micros. by rewrite Z.div_mul. Qed.

Lemma event_cursor_key limit desc e :
  cursor_key (mkPageRequest limit (event_cursor (read_back e)) desc) = Some (event_key e).
Proof.
  unfold cursor_key, event_cursor, str_eqb, String_, ParseEventID. cbn [p_Cursor c_ID c_Timestamp].
  rewrite bool_decide_eq_false_2 by apply encodeID_nonempty. rewrite decode_encode.
  change (er_Timestamp (read_back e)) with (micros (er_Timestamp e)). by rewrite micros_idem.
Qed.

(** The cursor a client sees behind a stored record. *)
Definition read_cursor (e : EventRecord) : Cursor := event_cursor (read_back e).

(** A client that follows the cursors until there is no more. *)
Definition follow_pages (env : PgEnv) (f : EventFilter) (flow : option FlowID) (limit : Z) (desc : bool)
    : nat -> Cursor -> E PgCall (result (list EventRecord)) :=
  follow (fun c => page_steps (listEvents env f (mkPageRequest limit c desc) (extra_of flow))).

Lemma cursor_at_selected f flow limit desc recs c rest : NoDup (er_ID <$> recs) ->
  cursor_at Cursor_zero read_cursor (matching f flow desc recs) c rest -> selected f flow (mkPageRequest limit c desc) recs = rest.
Proof.
  intros HN [[-> ->]|(l & x & -> & Heq)].
  - by apply selected_first.
  - eapply selected_next; [done|apply event_cursor_key|exact Heq].
Qed.

Lemma follow_pages_at env f flow limit desc recs h fuel c rest :
  pg_reads env (stored <$> recs) -> Forall storable recs -> NoDup (er_ID <$> recs) -> 0 < limit < 2 ^ 62 ->
  cursor_at Cursor_zero read_cursor (matching f flow desc recs) c rest -> (length rest < fuel)%nat ->
  (follow_pages env f flow limit desc fuel c h).2 = Ok (read_back <$> rest).
Proof.
  intros Henv Hs HN Hl. apply (follow_at Cursor_zero read_cursor _ _ (Z.to_nat limit)); [lia|]. clear h c rest.
  intros c rest h Hc. apply page_steps_event_page; [lia|].
  rewrite <- (cursor_at_selected _ _ limit _ _ _ _ HN Hc). by apply (listEvents_page env f flow (mkPageRequest limit c desc)).
Qed.

(** C6. Keyset pagination is complete.  Over a table of records with distinct
    identifiers, the SQL text and arguments that [listEvents] generates for any
    filter, direction and positive limit select, under the reference semantics,
    exactly the records the filter describes; a client that follows the cursors
    from the first page gets every such record exactly once, in order of time and
    identifier, within as many requests as there are records plus one. *)
Theorem pagination_complete (env : PgEnv) (f : EventFilter) (flow : option FlowID) (limit : Z) (desc : bool)
    (recs : list EventRecord) (h : list PgCall) (fuel : nat) :
  pg_reads env (stored <$> recs) -> Forall storable recs -> NoDup (er_ID <$> recs) -> 0 < limit < 2 ^ 62 ->
  (length recs < fuel)%nat ->
  (follow_pages env f flow limit desc fuel Cursor_zero h).2 = Ok (read_back <$> matching f flow desc recs) /\
  matching f flow desc recs ≡ₚ filter (fun e => selects f flow e = true) recs /\
  StronglySorted (ev_le desc) (matching f flow desc recs).
Proof.
  intros Henv Hs HN Hl Hf. split_and!; [|apply listing_perm|apply listing_sorted].
  eapply follow_pages_at; [done..|by left|]. eapply Nat.le_lt_trans; [|exact Hf]. unfold matching.
  rewrite (Permutation_length (listing_perm _ _)). apply length_filter.
Qed.

(** ** A pool that is the reference semantics *)

Definition bytes_of (a : arg) : bytes := match a with ABytes b => b | _ => [] end.
Definition text_of (a : arg) : string := match a with AText s => s | _ => "" end.
Definition int_of (a : arg) : Z := match a with AInt z => z | ATime t => t | _ => 0 end.
Definition bool_of (a : arg) : bool := match a with ABool b => b | _ => false end.

Definition row_of_args (v : list arg) : EventRow :=
  let at_ n := nth n v ANull in
  let b n := bytes_of (at_ n) in let t n := text_of (at_ n) in let z n := int_of (at_ n) in let f n := bool_of (at_ n) in
  mkEventRow (z 0%nat) (b 1%nat) (b 2%nat) (t 3%nat) (z 4%nat) (t 5%nat) (z 6%nat) (z 7%nat) (z 8%nat) (t 9%nat) (t 10%nat)
    (t 11%nat) (t 12%nat) (t 13%nat) (b 14%nat) (b 15%nat) (b 16%nat) (b 17%nat) (z 18%nat) (t 19%nat) (t 20%nat) (t 21%nat)
    (t 22%nat) (t 23%nat) (b 24%nat) (t 25%nat) (t 26%nat) (t 27%nat) (t 28%nat) (f 29%nat) (b 30%nat) (t 31%nat) (t 32%nat)
    (t 33%nat) (t 34%nat) (z 35%nat) (z 36%nat) (f 37%nat) (z 38%nat) (z 39%nat) (t 40%nat) (t 41%nat) (b 42%nat).

Lemma null_bytes_of id : null_bytes (bytes_of (nullableID id)) = nullableID id.
Proof.
  unfold null_bytes, nullableID. destruct (IsZero id); [done|]. cbn. case_bool_decide as H; [|done].
  pose proof (length_array id) as Hl. by rewrite H in Hl.
Qed.

Lemma scans_row_of_args e : scans (stored_values e) (row_of_args (stored_values e)).
Proof.
  exists (marshal_Fields (er_Fields e)), (link_bytes e). split; [|done].
  unfold row_args, row_of_args, stored_values, event_values, eventValues. cbn [fmap list_fmap]. rewrite !as_sent_id.
  cbn [nth vr_time vr_id vr_batch vr_stream vr_stream_seq vr_consumer vr_consumer_seq vr_delivered vr_received vr_service
    vr_environment vr_version vr_kind vr_level vr_flow vr_exec vr_parent_exec vr_retry vr_attempt vr_source vr_scope_type
    vr_scope_id vr_entity_type vr_entity_id vr_parent vr_flow_status vr_execution_status vr_execution_kind vr_provider
    vr_has_error vr_method vr_scheme vr_host vr_path vr_status_code vr_duration vr_success vr_request_size
    vr_response_size vr_request_preview vr_response_preview].
  by rewrite !null_bytes_of.
Qed.

Definition no_rows {A} : Rows A := mkRows None [] None.

Definition reference_env (t : table) : PgEnv :=
  mkPgEnv
    (fun s h q args =>
       match s return Rows (dests s) with
       | SEvent => match sql_select t q args with
                   | Some values => mkRows None ((fun v => (row_of_args v, None)) <$> values) None
                   | None => no_rows
                   end
       | _ => no_rows
       end)
    (fun s h q args =>
       match s return dests s * option error with
       | SFlow => (mkFlowRow [] "" "" "" "" "" "" [] "" 0 0 0 "" "", Some ErrNoRows)
       | SExecution => (mkExecutionRow [] "" "" "" "" "" "" "" 0 [] [] 0 0 0 0, Some ErrNoRows)
       | SEvent => (row_of_args [], Some ErrNoRows)
       | SEntity => (mkEntitySummary (mkEntityKey Scope_zero "" "") 0 0 0, Some ErrNoRows)
       | SEntityTimes => (0, 0, 0, Some ErrNoRows)
       | SOverview => (0, 0, 0, 0, 0, 0, 0, 0, 0, None)
       | SBucket => (mkActivityBucket 0 0 0 0, Some ErrNoRows)
       | SCount => (mkCountByName "" 0, Some ErrNoRows)
       end)
    (fun _ => 0).

(** An event statement answers with the values of rows of the table. *)
Lemma sql_select_values recs q args values : event_statement q -> sql_select (stored <$> recs) q args = Some values ->
  Forall (fun v => exists e, v = stored_values e) values.
Proof.
  unfold event_statement, sql_select. intros Hq.
  destruct (tokens q) as [|t1 [|t2 [|t3 [|t4 ts]]]]; try done. cbn [take] in Hq.
  destruct select_head_cols as (cols & Hh & Hc). rewrite Hh in Hq. injection Hq as -> -> -> ->.
  destruct (read_where ts) as [[cs ts']|]; [|done]. cbn [mbind option_bind].
  destruct (read_order ts') as [[[[c1 c2] desc] k]|]; [|done]. cbn [mbind option_bind].
  destruct (argument args k) as [[]|]; try done. destruct (_ <? 0); [done|]. rewrite Hc.
  intros HM%mapM_Some. apply Forall_forall. intros v Hv. apply list_elem_of_lookup in Hv as [i Hi].
  destruct (Forall2_lookup_r _ _ _ _ _ HM Hi) as (r & Hr & Hp).
  apply list_elem_of_lookup_2 in Hr. eapply elem_of_submseteq in Hr; [|apply sublist_submseteq, sublist_take].
  rewrite merge_sort_Permutation in Hr. apply list_elem_of_filter in Hr as [_ (e & -> & _)%list_elem_of_fmap].
  exists e. rewrite project_stored in Hp. by injection Hp.
Qed.

(** So the documented behaviour can be had, for any records. *)
Lemma reference_env_reads recs : pg_reads (reference_env (stored <$> recs)) (stored <$> recs).
Proof.
  intros h q args values Hq Hs. cbn [reference_env pg_query]. rewrite Hs. split_and!; [done|done|].
  cbn [rs_rows]. apply Forall2_fmap_r. pose proof (sql_select_values recs q args values Hq Hs) as HF.
  eapply Forall_Forall2_diag, Forall_impl; [exact HF|]. intros v [e ->]. split; [done|apply scans_row_of_args].
Qed.

Definition demo_event (n : Z) (service : string) : EventRecord :=
  EventRecord_zero <| er_ID := default (zero_array 16) (to_array 16 (replicate 15 zero_byte ++ [Z_byte n])) |>
    <| er_Timestamp := 1700000000000000000 |> <| er_Metadata := mkMetadata service "prod" "1" |>.
Definition demo_table : list EventRecord := [demo_event 3 "a"; demo_event 1 "a"; demo_event 2 "b"; demo_event 4 "a"].
Definition demo_filter : EventFilter :=
  mkEventFilter (mkTimeRange time_zero time_zero) "a" "" "" None 0 "" 0 "" None (zero_array 16) (zero_array 16) "" "" Scope_zero.

Lemma pagination_complete_witness :
  (follow_pages (reference_env (stored <$> demo_table)) demo_filter None 2 true 5 Cursor_zero []).2
    = Ok [demo_event 4 "a"; demo_event 3 "a"; demo_event 1 "a"].
Proof.
  destruct (pagination_complete (reference_env (stored <$> demo_table)) demo_filter None 2 true demo_table [] 5)
    as (H & _ & _).
  - apply reference_env_reads.
  - repeat constructor; cbn; try lia; apply Forall_nil; exact I.
  - apply (bool_decide_unpack _). vm_compute. exact I.
  - lia.
  - cbn. lia.
  - rewrite H. vm_compute. reflexivity.
Defined.
