(* ===== verification/PgWriteProofs.v ===== *)
(** * Writing batches is atomic and idempotent

    [WriteBatches] against any behaviour of the pool: when it reports success the
    transaction with exactly one INSERT per event was committed, and the table holds
    every event once, whatever was delivered before; when it reports an error
    nothing was committed, unless the commit itself is what failed. *)

From S2P Require Import Prelude Ids Events GoLib GoText Json JsonText GoTime Wire Payload Storage LinkJson Query Trace PgQuery PgSql Keyset PgSqlProofs PgWrite PgEvents PgPages.

(** ** The table after the statements *)

Definition insert_new (recs : list EventRecord) (e : EventRecord) : list EventRecord :=
  if decide (er_ID e ∈ er_ID <$> recs) then recs else recs ++ [e].

Lemma insert_tokens : exists cols values,
  tokens insertEventSQL = ["INSERT"; "INTO"; "trail_events"; cols; "VALUES"; values; "ON"; "CONFLICT"; "(event_id)"; "DO"; "NOTHING"] /\
  read_list cols = Some event_cols /\
  read_list values = Some ((fun k => placeholder k) <$> seq 1 43).
Proof. do 2 eexists. split; [vm_compute; reflexivity|]. split; vm_compute; reflexivity. Qed.

Lemma mapM_placeholders args ks :
  mapM (fun v => k ← read_placeholder v; argument args k) ((fun k => placeholder k) <$> ks) = mapM (argument args) ks.
Proof.
  unfold mapM. induction ks as [|k ks IH]; [done|]. cbn -[placeholder read_placeholder argument]. rewrite read_placeholder_ok.
  cbn -[placeholder read_placeholder argument] in *. by rewrite IH.
Qed.

Lemma arguments_values e : mapM (argument (event_values e)) (seq 1 43) = Some (stored_values e).
Proof. reflexivity. Qed.

Lemma present_stored recs e :
  existsb (fun r' => match column r' "event_id", column (stored e) "event_id" with
                     | Some a, Some b => arg_eqb a b | _, _ => false end) (stored <$> recs)
  = bool_decide (er_ID e ∈ er_ID <$> recs).
Proof.
  apply eq_true_iff_eq. rewrite existsb_exists, bool_decide_eq_true. split.
  - intros (r & (e' & -> & He')%list_elem_of_In%list_elem_of_fmap & Hr).
    change (column (stored e') "event_id") with (Some (idBytes (er_ID e'))) in Hr.
    change (column (stored e) "event_id") with (Some (idBytes (er_ID e))) in Hr.
    cbn in Hr. apply bool_decide_eq_true in Hr. injection Hr as Hr. apply array_eq in Hr.
    rewrite <- Hr. by apply list_elem_of_fmap_2.
  - intros (e' & Hid & He')%list_elem_of_fmap. exists (stored e'). split; [by apply list_elem_of_In, list_elem_of_fmap_2|].
    change (column (stored e') "event_id") with (Some (idBytes (er_ID e'))).
    change (column (stored e) "event_id") with (Some (idBytes (er_ID e))).
    cbn. apply bool_decide_eq_true. by rewrite Hid.
Qed.

Lemma sql_insert_event recs e :
  sql_insert (stored <$> recs) insertEventSQL (event_values e) = Some (stored <$> insert_new recs e).
Proof.
  unfold sql_insert. destruct insert_tokens as (cols & values & -> & -> & ->). cbn [mbind option_bind].
  rewrite mapM_placeholders, arguments_values. cbn [mbind option_bind].
  change (read_list "(event_id)") with (Some ["event_id"]). cbv iota beta zeta. fold (stored e).
  rewrite present_stored. unfold insert_new. change (Nat.eqb (length event_cols) (length (stored_values e))) with true. cbn [negb].
  rewrite bool_decide_decide. destruct (decide (er_ID e ∈ er_ID <$> recs)); [done|]. by rewrite fmap_app.
Qed.

Lemma queue_event_ok e : Forall link_printable (er_Payloads e) -> queue_event e = Ok (insertEventSQL, event_values e).
Proof.
  intros Hl. unfold queue_event, event_values, link_bytes.
  by destruct (unmarshal_marshal_Links _ Hl) as (data & -> & _).
Qed.

Lemma queue_batches_ok batches : Forall (fun e => Forall link_printable (er_Payloads e)) (concat (sb_Events <$> batches)) ->
  queue_batches batches = Ok ((fun e => (insertEventSQL, event_values e)) <$> concat (sb_Events <$> batches)).
Proof.
  intros H. unfold queue_batches, go_range. generalize 0%nat. induction H as [|e l He _ IH]; intros i; [done|].
  cbn [go_range_from]. rewrite queue_event_ok by done. cbn [mbind result_bind]. by rewrite IH.
Qed.

Lemma apply_statements_events l recs :
  apply_statements ((fun e => (insertEventSQL, event_values e)) <$> l) (stored <$> recs)
  = Some (stored <$> foldl insert_new recs l).
Proof.
  unfold apply_statements. revert recs. induction l as [|e l IH]; intros recs; [done|].
  rewrite fmap_cons. cbn [foldl mbind option_bind]. rewrite sql_insert_event. apply IH.
Qed.

(** *** Inserting again changes nothing *)

Lemma insert_new_sub recs e : recs `prefix_of` insert_new recs e.
Proof. unfold insert_new. case_decide; [done|]. by exists [e]. Qed.

Lemma insert_all_sub recs l : recs `prefix_of` foldl insert_new recs l.
Proof. revert recs; induction l as [|e l IH]; intros recs; [done|]. etrans; [apply insert_new_sub|apply IH]. Qed.

Lemma insert_all_ids recs l e : e ∈ l -> er_ID e ∈ er_ID <$> foldl insert_new recs l.
Proof.
  revert recs; induction l as [|e' l IH]; intros recs; [by intros ?%elem_of_nil|].
  intros [->|He]%elem_of_cons; [|by apply IH]. cbn [foldl].
  destruct (insert_all_sub (insert_new recs e') l) as [more ->]. rewrite fmap_app. apply elem_of_app. left.
  unfold insert_new. case_decide as Hd; [done|]. rewrite fmap_app. apply elem_of_app. right. by left.
Qed.

Lemma insert_all_present recs l : (forall e, e ∈ l -> er_ID e ∈ er_ID <$> recs) -> foldl insert_new recs l = recs.
Proof.
  revert recs; induction l as [|e l IH]; intros recs H; [done|]. cbn [foldl]. unfold insert_new at 2.
  rewrite decide_True by (apply H; by left). apply IH. intros e' He'. apply H. by right.
Qed.

Lemma insert_all_NoDup recs l : NoDup (er_ID <$> recs) -> NoDup (er_ID <$> foldl insert_new recs l).
Proof.
  revert recs; induction l as [|e l IH]; intros recs H; [done|]. apply IH. unfold insert_new. case_decide as Hd; [done|].
  rewrite fmap_app. apply NoDup_app. split_and!; [done| |by apply NoDup_singleton].
  intros x Hx ->%list_elem_of_singleton. done.
Qed.

(** ** The operation *)

Definition is_commit (c : WCall) : bool := match c with WCommit _ => true | _ => false end.

(** Replay is not changed by calls between sending a batch and committing it. *)
Definition quiet (c : WCall) : Prop := match c with WExec _ | WCloseResults _ | WRollback => True | _ => False end.

Lemma replay_quiet new h pending t : Forall quiet new -> replay (new ++ h) pending t = replay h pending t.
Proof. induction 1 as [|c new Hc _ IH]; [done|]. by destruct c. Qed.

Lemma exec_loop_emits env n : emits (exec_loop env n) (fun _ new => Forall quiet new).
Proof.
  induction n as [|n IH]; [by apply emits_ret|]. cbn [exec_loop]. apply emits_ask_seq. intros [e|].
  - apply emits_ask_seq. intros e'. apply emits_ret. by repeat constructor.
  - eapply emits_mono; [exact IH|]. intros err new Hn. by constructor.
Qed.

(** What the calls of [WriteBatches] do to a table. *)
Definition write_effect (recs l : list EventRecord) (err : option error) (new : list WCall) : Prop :=
  match err with
  | None => replay new [] (stored <$> recs) = Some (stored <$> foldl insert_new recs l)
  | Some e => replay new [] (stored <$> recs) = Some (stored <$> recs) /\ forall c, WCommit c ∈ new -> c = Some e
  end.

Lemma quiet_no_commit new c : Forall quiet new -> WCommit c ∉ new.
Proof. intros H Hc. rewrite Forall_forall in H. by specialize (H _ Hc). Qed.

Lemma write_tx_emits env batches recs :
  let l := concat (sb_Events <$> batches) in
  Forall (fun e => Forall link_printable (er_Payloads e)) l ->
  emits (write_tx env batches) (fun err new => write_effect recs l err (WBegin None :: new ++ [WRollback])).
Proof.
  intros l Hl. unfold write_tx. rewrite queue_batches_ok by done. fold l.
  set (batch := (fun e => (insertEventSQL, event_values e)) <$> l).
  apply emits_ask_seq. intros []. eapply emits_seq; [apply exec_loop_emits|]. intros [e|] n1 Hn1.
  - apply emits_ret. rewrite app_nil_r. cbn [write_effect app replay]. split.
    + by rewrite replay_quiet.
    + intros c Hc. exfalso. apply elem_of_cons in Hc as [[=]|Hc]. apply elem_of_cons in Hc as [[=]|Hc].
      eapply quiet_no_commit; [|exact Hc]. by apply Forall_app; split; [|repeat constructor].
  - apply emits_ask_seq. intros [e|].
    + apply emits_ret. cbn [write_effect app replay]. rewrite <- app_assoc, replay_quiet by done. split; [done|].
      intros c Hc. exfalso. apply elem_of_cons in Hc as [[=]|Hc]. apply elem_of_cons in Hc as [[=]|Hc].
      eapply quiet_no_commit; [|exact Hc]. apply Forall_app. split; [done|]. by repeat constructor.
    + apply emits_ask. intros [e|].
      * cbn [write_effect app replay]. rewrite <- app_assoc, replay_quiet by done. split; [done|].
        intros c Hc. apply elem_of_cons in Hc as [[=]|Hc]. apply elem_of_cons in Hc as [[=]|Hc].
        apply elem_of_app in Hc as [Hc|Hc]; [by apply quiet_no_commit in Hc|].
        cbn [app] in Hc. set_solver.
      * cbn [write_effect app replay]. rewrite <- app_assoc, replay_quiet by done. cbn [replay app].
        subst batch. by rewrite apply_statements_events.
Qed.

Lemma WriteBatches_emits env batches recs :
  let l := concat (sb_Events <$> batches) in
  Forall (fun e => Forall link_printable (er_Payloads e)) l ->
  emits (WriteBatches env batches) (write_effect recs l).
Proof.
  intros l Hl. unfold WriteBatches. destruct batches as [|b batches]; [by apply emits_ret|].
  apply emits_ask_seq. intros [e|].
  - apply emits_ret. split; [done|]. intros c Hc. set_solver.
  - eapply emits_seq; [by apply write_tx_emits|]. intros err n1 Hn1. apply emits_ask_seq. intros []. apply emits_ret. exact Hn1.
Qed.

(** ** Properties *)

(** C11. Writing to PostgreSQL is atomic and idempotent.  Whatever the pool does, when
    [WriteBatches] reports success the committed statements leave the table with
    what it had, followed by the events whose identifiers are new, each identifier
    once, and every event written is there; committing the same events again would
    change nothing.  When it reports an error the table is as before, unless it was
    the commit that failed with that error. *)
Theorem pg_write_once (env : WEnv) (batches : list StorageBatch) (recs : list EventRecord) (h : list WCall) :
  let l := concat (sb_Events <$> batches) in
  let recs' := foldl insert_new recs l in
  Forall (fun e => Forall link_printable (er_Payloads e)) l -> NoDup (er_ID <$> recs) ->
  exists new, (WriteBatches env batches h).1 = h ++ new /\
    match (WriteBatches env batches h).2 with
    | None =>
        replay new [] (stored <$> recs) = Some (stored <$> recs') /\ recs `prefix_of` recs' /\
        NoDup (er_ID <$> recs') /\ (forall e, e ∈ l -> er_ID e ∈ er_ID <$> recs') /\ foldl insert_new recs' l = recs'
    | Some e =>
        replay new [] (stored <$> recs) = Some (stored <$> recs) /\ forall c, WCommit c ∈ new -> c = Some e
    end.
Proof.
  intros l recs' Hl HN. destruct (WriteBatches_emits env batches recs Hl h) as (new & Hnew & He).
  exists new. split; [done|]. unfold write_effect in He. destruct (WriteBatches env batches h).2 as [e|]; [done|].
  split_and!; [done|apply insert_all_sub|by apply insert_all_NoDup|apply insert_all_ids|].
  apply insert_all_present, insert_all_ids.
Qed.

(** Distinct new events are all added, in order. *)
Lemma insert_all_distinct recs l : NoDup (er_ID <$> (recs ++ l)) -> foldl insert_new recs l = recs ++ l.
Proof.
  revert recs; induction l as [|e l IH]; intros recs H; [by rewrite app_nil_r|]. cbn [foldl].
  unfold insert_new at 2. rewrite decide_False.
  - rewrite IH; [by rewrite <- app_assoc|]. by rewrite <- app_assoc.
  - rewrite fmap_app, fmap_cons in H. apply NoDup_app in H as (_ & H & _). intros Hin. apply (H _ Hin). by left.
Qed.

(** C12. What is written is what is listed.  After a successful [WriteBatches] of
    events with distinct identifiers into an empty table, a client that reads that
    table through [listEvents], following the cursors with any filter, direction and
    page size, gets exactly the written records the filter selects, field for field
    except for the retention class, which has no column, and the nanoseconds of the
    event and delivery times, which a timestamp column rounds to microseconds. *)
Theorem written_is_listed (wenv : WEnv) (env : PgEnv) (batches : list StorageBatch) (h : list WCall) (t : table)
    (f : EventFilter) (flow : option FlowID) (limit : Z) (desc : bool) (hr : list PgCall) (fuel : nat) :
  let l := concat (sb_Events <$> batches) in
  Forall storable l -> NoDup (er_ID <$> l) ->
  (WriteBatches wenv batches h).2 = None ->
  (forall new, (WriteBatches wenv batches h).1 = h ++ new -> replay new [] [] = Some t) ->
  pg_reads env t -> 0 < limit < 2 ^ 62 -> (length l < fuel)%nat ->
  (follow_pages env f flow limit desc fuel Cursor_zero hr).2 = Ok (read_back <$> matching f flow desc l).
Proof.
  intros l Hs HN Hok Ht Henv Hl Hf.
  destruct (WriteBatches_emits wenv batches [] ltac:(eapply Forall_impl; [exact Hs|]; intros e He; apply He) h)
    as (new & Hnew & He).
  rewrite Hok in He. cbn in He. rewrite (Ht new Hnew) in He. injection He as ->.
  fold l in Henv. rewrite insert_all_distinct in Henv by done. cbn [app] in Henv.
  eapply follow_pages_at; [done..|by left|]. eapply Nat.le_lt_trans; [|exact Hf]. unfold matching.
  rewrite (Permutation_length (listing_perm _ _)). apply length_filter.
Qed.

(** *** Witnesses: a pool in which every call succeeds *)

Definition fine_env : WEnv := mkWEnv (fun _ => None) (fun _ => None) (fun _ => None) (fun _ => None).
Definition demo_batches : list StorageBatch :=
  [mkStorageBatch (zero_array 16) Metadata_zero Delivery_zero demo_table].

Lemma pg_write_once_witness : exists new, (WriteBatches fine_env demo_batches []).1 = [] ++ new /\
  replay new [] (stored <$> [demo_event 1 "a"]) = Some (stored <$> [demo_event 1 "a"; demo_event 3 "a"; demo_event 2 "b"; demo_event 4 "a"]).
Proof.
  destruct (pg_write_once fine_env demo_batches [demo_event 1 "a"] []) as (new & H1 & H2).
  - repeat constructor.
  - apply (bool_decide_unpack _). vm_compute. exact I.
  - exists new. split; [exact H1|]. exact (proj1 H2).
Defined.

Lemma written_is_listed_witness :
  (follow_pages (reference_env (stored <$> demo_table)) demo_filter None 2 true 5 Cursor_zero []).2
    = Ok [demo_event 4 "a"; demo_event 3 "a"; demo_event 1 "a"].
Proof.
  rewrite (written_is_listed fine_env (reference_env (stored <$> demo_table)) demo_batches [] (stored <$> demo_table)).
  - vm_compute. reflexivity.
  - repeat constructor; cbn; try lia; apply Forall_nil; exact I.
  - apply (bool_decide_unpack _). vm_compute. exact I.
  - vm_compute. reflexivity.
  - intros new Hnew. cbn [app] in Hnew. rewrite <- Hnew. vm_compute. reflexivity.
  - apply reference_env_reads.
  - lia.
  - cbn. lia.
Defined.
