(* ===== verification/PgInjection.v ===== *)
(** * No value reaches a statement's text

    The texts the PostgreSQL store sends are determined by which filters are given,
    never by what they contain: replacing every value of a request by a fixed one
    gives the same texts and as many arguments.  So no request can inject SQL. *)

From S2P Require Import Prelude Ids Events GoLib GoText Json JsonText GoTime Wire Payload Storage LinkJson Query Trace PgQuery.

(** ** Requests without their values *)

Definition blank_text (s : string) : string := if str_eqb s "" then "" else "x".
Definition blank_time (t : Z) : Z := if time_IsZero t then time_zero else 0.
Definition one_id : id16 := default (zero_array 16) (to_array 16 (replicate 15 zero_byte ++ ["001"%char])).
Definition blank_id (id : id16) : id16 := if IsZero id then zero_array 16 else one_id.
Definition blank_scope (s : Scope) : Scope := if Scope_IsZero s then mkScope "" "" else mkScope "x" "x".
Definition blank_range (t : TimeRange) : TimeRange := mkTimeRange (blank_time (tr_From t)) (blank_time (tr_To t)).
Definition blank_positive (z : Z) : Z := if 0 <? z then 1 else 0.

(** A cursor is absent, one that parses, or one that does not. *)
Definition blank_cursor (c : Cursor) : Cursor :=
  mkCursor 0 (if str_eqb (c_ID c) "" then ""
              else match ParseEventID (c_ID c) with Ok _ => encodeID (zero_array 16) | _ => "x" end).
Definition blank_page (p : PageRequest) : PageRequest := mkPageRequest 0 (blank_cursor (p_Cursor p)) (p_Desc p).

Definition blank_flow (f : FlowFilter) : FlowFilter :=
  mkFlowFilter (blank_range (ff_Time f)) (blank_text (ff_Service f)) (blank_text (ff_Environment f)) (blank_text (ff_Status f))
    (blank_text (ff_EntityType f)) (blank_text (ff_EntityID f)) (blank_id (ff_ExecutionID f)) (blank_scope (ff_Scope f)).
Definition blank_execution (f : ExecutionFilter) : ExecutionFilter :=
  mkExecutionFilter (blank_range (xf_Time f)) (blank_text (xf_Service f)) (blank_text (xf_Environment f)) (blank_text (xf_Status f))
    (blank_text (xf_Source f)) (blank_text (xf_Kind f)) (blank_scope (xf_Scope f)).
Definition blank_entity (f : EntityFilter) : EntityFilter :=
  mkEntityFilter (blank_range (nf_Time f)) (blank_text (nf_Service f)) (blank_text (nf_Environment f)) (blank_text (nf_EntityType f))
    (blank_text (nf_IDPrefix f)) (blank_scope (nf_Scope f)).
Definition blank_event (f : EventFilter) : EventFilter :=
  mkEventFilter (blank_range (ef_Time f)) (blank_text (ef_Service f)) (blank_text (ef_Environment f)) (blank_text (ef_Kind f))
    (option_map (fun _ => 0) (ef_Level f)) (blank_positive (ef_HTTPStatusClass f)) (blank_text (ef_HTTPMethod f))
    (blank_positive (ef_HTTPStatus f)) (blank_text (ef_Provider f)) (option_map (fun _ => true) (ef_HasError f))
    (blank_id (ef_FlowID f)) (blank_id (ef_ExecutionID f)) (blank_text (ef_EntityType f)) (blank_text (ef_EntityID f))
    (blank_scope (ef_Scope f)).
Definition blank_overview (f : OverviewFilter) : OverviewFilter :=
  mkOverviewFilter (blank_range (of_Time f)) (blank_text (of_Service f)) (blank_text (of_Environment f)) (blank_scope (of_Scope f)).
Definition blank_activity (f : OverviewActivityFilter) : OverviewActivityFilter :=
  mkOverviewActivityFilter (blank_overview (af_OverviewFilter f))
    (if str_eqb (af_Interval f) ActivityDay then ActivityDay else ActivityHour).
Definition blank_key (k : EntityKey) : EntityKey := mkEntityKey (blank_scope (ek_Scope k)) "x" "x".

Lemma blank_text_given s : given (blank_text s) = given s.
Proof. unfold given, blank_text. by destruct (str_eqb s "") eqn:E. Qed.
Lemma blank_time_zero t : time_IsZero (blank_time t) = time_IsZero t.
Proof. unfold blank_time. by destruct (time_IsZero t) eqn:E. Qed.
Lemma blank_id_zero id : IsZero (blank_id id) = IsZero id.
Proof. unfold blank_id. by destruct (IsZero id) eqn:E. Qed.
Lemma blank_scope_zero s : Scope_IsZero (blank_scope s) = Scope_IsZero s.
Proof. unfold blank_scope. by destruct (Scope_IsZero s) eqn:E. Qed.
Lemma blank_positive_pos z : (0 <? blank_positive z) = (0 <? z).
Proof. unfold blank_positive. by destruct (0 <? z) eqn:E. Qed.

(** ** Builders with the same text *)

Definition alike (b b' : where_) : Prop :=
  wh_parts b = wh_parts b' /\ wh_base b = wh_base b' /\ length (wh_args b) = length (wh_args b').

Lemma alike_sql b b' : alike b b' -> sql b = sql b'.
Proof. intros (H1 & H2 & _). unfold sql. by rewrite H1, H2. Qed.

Lemma alike_refl b : alike b b.
Proof. done. Qed.

Lemma alike_push vs vs' b b' : length vs = length vs' -> alike b b' -> alike (push vs b) (push vs' b').
Proof. intros Hl (H1 & H2 & H3). split_and!; [done|done|]. cbn. rewrite !length_app. lia. Qed.

Lemma alike_add s s' b b' : s = s' -> alike b b' -> alike (add s b) (add s' b').
Proof. intros -> (H1 & H2 & H3). split_and!; [cbn; by rewrite H1|done|done]. Qed.

Lemma alike_last b b' : alike b b' -> last_arg b = last_arg b'.
Proof. intros (_ & _ & H). unfold last_arg. by rewrite H. Qed.
Lemma alike_prev b b' : alike b b' -> prev_arg b = prev_arg b'.
Proof. intros (_ & _ & H). unfold prev_arg. by rewrite H. Qed.

Lemma alike_eq col v v' b b' : alike b b' -> alike (eq_ col v b) (eq_ col v' b').
Proof.
  intros H. unfold eq_. cbv zeta. assert (alike (push [v] b) (push [v'] b')) as Hp by (by apply alike_push).
  apply alike_add; [by rewrite (alike_last _ _ Hp)|done].
Qed.

Lemma alike_when c c' g g' b b' : c = c' -> alike b b' -> (alike b b' -> alike (g b) (g' b')) -> alike (when c g b) (when c' g' b').
Proof. intros -> H Hg. destruct c'; cbn [when]; auto. Qed.

(** One comparison, or one range, over new arguments. *)
Lemma alike_one text v v' b b' : alike b b' ->
  alike (let b := push [v] b in add (text +:+ last_arg b) b) (let b := push [v'] b' in add (text +:+ last_arg b) b).
Proof.
  intros H. cbv zeta. assert (alike (push [v] b) (push [v'] b')) as Hp by (by apply alike_push).
  apply alike_add; [by rewrite (alike_last _ _ Hp)|done].
Qed.

Lemma alike_common t service environment b b' : alike b b' ->
  alike (applyCommon t service environment b) (applyCommon (blank_range t) (blank_text service) (blank_text environment) b').
Proof.
  intros H. unfold applyCommon. cbv zeta. cbn [blank_range tr_From tr_To].
  rewrite !blank_text_given, !blank_time_zero.
  repeat (apply alike_when; [done| |intros; first [by apply alike_eq | by apply (alike_one _)]]). done.
Qed.

Lemma alike_scope scope b b' : alike b b' -> alike (applyScope scope b) (applyScope (blank_scope scope) b').
Proof.
  intros H. unfold applyScope. rewrite blank_scope_zero. destruct (Scope_IsZero scope); [done|]. by apply alike_eq, alike_eq.
Qed.

Lemma blank_cursor_empty c : str_eqb (c_ID (blank_cursor c)) "" = str_eqb (c_ID c) "".
Proof.
  unfold blank_cursor. cbn [c_ID]. destruct (str_eqb (c_ID c) "") eqn:E; [done|]. by destruct (ParseEventID (c_ID c)).
Qed.

Lemma blank_cursor_given c : given (c_ID (blank_cursor c)) = given (c_ID c).
Proof. unfold given. by rewrite blank_cursor_empty. Qed.

Lemma alike_cursor p c1 c2 b b' : alike b b' -> alike (applyCursor p c1 c2 b) (applyCursor (blank_page p) c1 c2 b').
Proof.
  intros H. unfold applyCursor. cbn [blank_page p_Cursor]. rewrite blank_cursor_empty.
  destruct (str_eqb (c_ID (p_Cursor p)) "") eqn:E; [done|]. cbn [blank_cursor c_ID c_Timestamp]. rewrite E.
  destruct (ParseEventID (c_ID (p_Cursor p))) as [raw| |].
  - unfold ParseEventID. rewrite decode_encode. cbv zeta.
    match goal with |- alike (add _ ?x) (add _ ?y) => assert (alike x y) as Hp by (by apply alike_push) end.
    apply alike_add; [|done]. by rewrite (alike_last _ _ Hp), (alike_prev _ _ Hp).
  - done.
  - done.
Qed.

(** ** Statements *)

(** Same text, and as many arguments. *)
Definition same_text (q q' : string * list arg) : Prop := q.1 = q'.1 /\ length q.2 = length q'.2.

Lemma paginate_same q q' args args' p c1 c2 : q = q' -> length args = length args' ->
  same_text (paginateGrouped q args p c1 c2) (paginateGrouped q' args' (blank_page p) c1 c2).
Proof.
  intros -> Hl. unfold paginateGrouped. cbn [blank_page p_Cursor p_Desc]. rewrite blank_cursor_given.
  unfold cursor_having, order_limit, direction_op, direction. cbn [p_Desc].
  destruct (given (c_ID (p_Cursor p))); split; cbn [fst snd]; rewrite !length_app, ?Hl; done.
Qed.

(** A HAVING over one more argument. *)
Lemma having_same (having : nat -> string) s q q' args args' p c1 c2 : q = q' -> length args = length args' ->
  same_text
    (let '(q, args) := if given s then let args := args ++ [AText s] in (q +:+ having (length args), args) else (q, args) in
     paginateGrouped q args p c1 c2)
    (let '(q, args) := if given (blank_text s) then let args := args' ++ [AText (blank_text s)] in (q' +:+ having (length args), args)
                       else (q', args') in
     paginateGrouped q args (blank_page p) c1 c2).
Proof.
  intros -> Hl. rewrite blank_text_given. destruct (given s); apply paginate_same; rewrite ?length_app, ?Hl; done.
Qed.

Ltac alike_auto :=
  repeat first
    [ apply alike_refl
    | apply alike_scope | apply alike_common | apply alike_cursor
    | apply alike_when; [by rewrite ?blank_text_given, ?blank_id_zero, ?blank_positive_pos| |intros; first [by apply alike_eq | by apply (alike_one _)]]
    | apply alike_eq
    | apply alike_add; [done|] ].

Lemma flows_same f p : same_text (flows_query f p) (flows_query (blank_flow f) (blank_page p)).
Proof.
  unfold flows_query. cbv zeta.
  cbn [blank_flow ff_Time ff_Service ff_Environment ff_Status ff_EntityType ff_EntityID ff_ExecutionID ff_Scope].
  match goal with |- context [wh_args ?x ++ [AText (ff_Status f)]] =>
    match goal with |- context [wh_args ?y ++ [AText (blank_text (ff_Status f))]] =>
      assert (alike x y) as Ha by alike_auto end end.
  apply having_same; [by rewrite (alike_sql _ _ Ha)|apply Ha].
Qed.

Lemma executions_same f p : same_text (executions_query f p) (executions_query (blank_execution f) (blank_page p)).
Proof.
  unfold executions_query. cbv zeta.
  cbn [blank_execution xf_Time xf_Service xf_Environment xf_Status xf_Source xf_Kind xf_Scope].
  match goal with |- context [wh_args ?x ++ [AText (xf_Status f)]] =>
    match goal with |- context [wh_args ?y ++ [AText (blank_text (xf_Status f))]] =>
      assert (alike x y) as Ha by alike_auto end end.
  apply having_same; [by rewrite (alike_sql _ _ Ha)|apply Ha].
Qed.

Lemma entities_same f p : same_text (entities_query f p) (entities_query (blank_entity f) (blank_page p)).
Proof.
  unfold entities_query. cbv zeta.
  cbn [blank_entity nf_Time nf_Service nf_Environment nf_EntityType nf_IDPrefix nf_Scope].
  match goal with |- same_text ?l ?r =>
    match l with context [wh_args ?x ++ [ATime _; _]] =>
      match r with context [wh_args ?y ++ [ATime _; _]] => assert (alike x y) as Ha by alike_auto end end end.
  cbn [blank_page p_Cursor]. rewrite blank_cursor_given.
  unfold cursor_having, order_limit, direction_op, direction. cbn [p_Desc].
  rewrite (alike_sql _ _ Ha). destruct Ha as (_ & _ & H3).
  destruct (given (c_ID (p_Cursor p))); split; cbn [fst snd]; rewrite !length_app, ?H3; done.
Qed.

Lemma events_same f p flow :
  same_text (events_query f p (option_map (fun id : FlowID => ("flow_id", idBytes id)) flow))
    (events_query (blank_event f) (blank_page p) (option_map (fun id : FlowID => ("flow_id", idBytes (blank_id id))) flow)).
Proof.
  assert (alike (events_where f (option_map (fun id : FlowID => ("flow_id", idBytes id)) flow))
    (events_where (blank_event f) (option_map (fun id : FlowID => ("flow_id", idBytes (blank_id id))) flow))) as Ha.
  { unfold events_where. cbv zeta.
    cbn [blank_event ef_Time ef_Service ef_Environment ef_Kind ef_Level ef_HTTPStatusClass ef_HTTPMethod ef_HTTPStatus
      ef_Provider ef_HasError ef_FlowID ef_ExecutionID ef_EntityType ef_EntityID ef_Scope].
    destruct flow as [flow|]; cbn [option_map]; [apply alike_eq|];
    do 4 (apply alike_when; [by rewrite ?blank_text_given, ?blank_id_zero| |intros; by apply alike_eq]);
    destruct (ef_HasError f); cbn [option_map]; try apply alike_eq;
    do 3 (apply alike_when; [by rewrite ?blank_text_given, ?blank_positive_pos| |intros; by apply alike_eq]);
    (apply alike_when; [by rewrite blank_positive_pos| |
       intros Hb; cbv zeta;
       match goal with |- alike (add _ ?x) (add _ ?y) => assert (alike x y) as Hp by (by apply alike_push) end;
       apply alike_add; [by rewrite (alike_last _ _ Hp), (alike_prev _ _ Hp)|done]]);
    destruct (ef_Level f); cbn [option_map]; try apply alike_eq; alike_auto. }
  unfold events_query. cbv zeta.
  match goal with |- same_text (_, wh_args ?x) (_, wh_args ?y) =>
    assert (alike x y) as Hp by (apply alike_push; [done|by apply alike_cursor]) end.
  split; cbn [fst snd]; [|apply Hp]. rewrite (alike_sql _ _ Hp), (alike_last _ _ Hp). done.
Qed.

Lemma entity_same key : same_text (entity_query key) (entity_query (blank_key key)).
Proof.
  unfold entity_query. cbv zeta. cbn [blank_key ek_Scope ek_Type ek_ID].
  match goal with |- same_text (_, wh_args ?x) (_, wh_args ?y) => assert (alike x y) as Hp by alike_auto end.
  split; cbn [fst snd]; [by rewrite (alike_sql _ _ Hp)|apply Hp].
Qed.

Lemma overview_alike f : alike (overview_where f) (overview_where (blank_overview f)).
Proof. unfold overview_where. cbn [blank_overview of_Time of_Service of_Environment of_Scope]. alike_auto. Qed.

Lemma overview_same f : same_text (overview_query f) (overview_query (blank_overview f)).
Proof. pose proof (overview_alike f) as Hp. split; [|apply Hp]. unfold overview_query. cbn [fst]. by rewrite (alike_sql _ _ Hp). Qed.

Lemma buckets_same f : same_text (buckets_query f) (buckets_query (blank_activity f)).
Proof.
  pose proof (overview_alike (af_OverviewFilter f)) as Hp. split; [|apply Hp]. unfold buckets_query. cbn [fst].
  cbn [blank_activity af_OverviewFilter af_Interval]. rewrite (alike_sql _ _ Hp). by destruct (str_eqb (af_Interval f) ActivityDay).
Qed.

Lemma flow_statuses_same f : same_text (flow_statuses_query f) (flow_statuses_query (blank_activity f)).
Proof.
  unfold flow_statuses_query. cbv zeta. cbn [blank_activity af_OverviewFilter].
  match goal with |- same_text (_, wh_args ?x) (_, wh_args ?y) =>
    assert (alike x y) as Hp by (apply alike_add; [done|apply overview_alike]) end.
  split; cbn [fst snd]; [by rewrite (alike_sql _ _ Hp)|apply Hp].
Qed.

Lemma execution_sources_same f : same_text (execution_sources_query f) (execution_sources_query (blank_activity f)).
Proof.
  unfold execution_sources_query. cbv zeta. cbn [blank_activity af_OverviewFilter].
  match goal with |- same_text (_, wh_args ?x) (_, wh_args ?y) =>
    assert (alike x y) as Hp by (apply alike_add; [done|apply overview_alike]) end.
  split; cbn [fst snd]; [by rewrite (alike_sql _ _ Hp)|apply Hp].
Qed.

(** ** Operations *)

(** The texts among the calls of a history. *)
Definition texts (h : list PgCall) : list string := omap (fun c => match c with PQuery q _ => Some q | PNow => None end) h.

(** [m] sends at most these texts, in this order. *)
Definition sends {A} (m : E PgCall A) (ts : list string) : Prop := emits m (fun _ new => texts new `prefix_of` ts).

Lemma sends_ret {A} (a : A) ts : sends (mret a) ts.
Proof. apply emits_ret. apply prefix_nil. Qed.

Lemma sends_query {A} env s q args (k : Rows (dests s) -> E PgCall A) t ts :
  q = t -> (forall rows, sends (k rows) ts) -> sends (Query env s q args ≫= k) (t :: ts).
Proof.
  intros -> Hk. apply emits_ask_seq. intros rows. eapply emits_mono; [apply Hk|]. intros a new Hn. by apply prefix_cons.
Qed.
Lemma sends_row {A} env s q args (k : dests s * option error -> E PgCall A) t ts :
  q = t -> (forall row, sends (k row) ts) -> sends (QueryRow env s q args ≫= k) (t :: ts).
Proof.
  intros -> Hk. apply emits_ask_seq. intros row. eapply emits_mono; [apply Hk|]. intros a new Hn. by apply prefix_cons.
Qed.

Lemma sends_list {T} env s scan (cursor : T -> Cursor) query query' p :
  same_text query query' -> sends (list_page env s scan cursor query p) [query'.1].
Proof. intros [Hq _]. apply sends_query; [done|]. intros rows. apply sends_ret. Qed.

Lemma sends_seq {A B} (m : E PgCall A) (k : A -> E PgCall B) t ts :
  (emits m (fun _ new => texts new = [t])) -> (forall a, sends (k a) ts) -> sends (m ≫= k) (t :: ts).
Proof.
  intros Hm Hk. eapply emits_seq; [exact Hm|]. intros a n1 Hn1. eapply emits_mono; [apply Hk|]. intros b n2 Hn2.
  unfold texts in *. rewrite omap_app, Hn1. by apply prefix_cons.
Qed.

Lemma activity_part_text {T} env s scan (query : string * list arg) :
  emits (activity_part (T := T) env s scan query) (fun _ new => texts new = [query.1]).
Proof. apply emits_ask_seq. intros rows. by apply emits_ret. Qed.

(** C34. No SQL injection.  Whatever the database answers, each operation of the
    PostgreSQL store sends at most the listed texts in the listed order; they are
    built from the request with all its values replaced by fixed ones, or are
    constants.  The contents of filters, identifiers and cursors reach the database
    only as arguments. *)
Theorem sql_texts_fixed (env : PgEnv) :
  (forall f p, sends (ListFlows env f p) [(flows_query (blank_flow f) (blank_page p)).1]) /\
  (forall id f p, sends (ListExecutionFlows env id f p)
     [(flows_query (blank_flow (f <| ff_ExecutionID := id |>)) (blank_page p)).1]) /\
  (forall key f p, sends (ListEntityFlows env key f p)
     [(flows_query (blank_flow (f <| ff_EntityType := ek_Type key |> <| ff_EntityID := ek_ID key |>)) (blank_page p)).1]) /\
  (forall id id', exists t, sends (GetFlow env id) [t] /\ sends (GetFlow env id') [t]) /\
  (forall f p, sends (ListExecutions env f p) [(executions_query (blank_execution f) (blank_page p)).1]) /\
  (forall id id', exists t t', sends (GetExecution env id) [t] /\ sends (GetRetryChain env id) [t; t'] /\
     sends (GetExecution env id') [t] /\ sends (GetRetryChain env id') [t; t']) /\
  (forall f p, sends (SearchEntities env f p) [(entities_query (blank_entity f) (blank_page p)).1]) /\
  (forall key, sends (GetEntity env key) [(entity_query (blank_key key)).1]) /\
  (forall f p, sends (ListEvents env f p) [(events_query (blank_event f) (blank_page p) None).1]) /\
  (forall id f p, sends (ListFlowEvents env id f p)
     [(events_query (blank_event f) (blank_page p) (Some ("flow_id", idBytes (blank_id id)))).1]) /\
  (forall id id', exists t, sends (GetEvent env id) [t] /\ sends (GetEvent env id') [t]) /\
  (forall f, sends (Overview_ env f) [(overview_query (blank_overview f)).1]) /\
  (forall f, sends (OverviewActivity_ env f)
     [(buckets_query (blank_activity f)).1; (flow_statuses_query (blank_activity f)).1;
      (execution_sources_query (blank_activity f)).1]).
Proof.
  assert (forall f p, sends (ListFlows env f p) [(flows_query (blank_flow f) (blank_page p)).1]) as HF
    by (intros; apply sends_list, flows_same).
  split_and!.
  - exact HF.
  - intros. apply HF.
  - intros. apply HF.
  - intros id id'. eexists. unfold GetFlow. split; refine (sends_row env SFlow _ _ _ _ _ eq_refl _); intros row;
      destruct (scanFlow row) as [[[? ?] ?] ?]; apply sends_ret.
  - intros. apply sends_list, executions_same.
  - intros id id'.
    assert (forall i, emits (GetExecution env i) (fun _ new => texts new =
      [executionSummarySelect +:+ " AND execution_id=$1 GROUP BY execution_id,service,environment"])) as HE.
    { intros i. unfold GetExecution. apply emits_ask_seq. intros row. destruct (scanExecution row). by apply emits_ret. }
    assert (forall i, sends (GetExecution env i)
      [executionSummarySelect +:+ " AND execution_id=$1 GROUP BY execution_id,service,environment"]) as HE1.
    { intros i. eapply emits_mono; [apply HE|]. intros a new Hn. by rewrite Hn. }
    do 2 eexists. split_and!; [apply HE1| |apply HE1|].
    + unfold GetRetryChain. apply sends_seq; [apply HE|]. intros [detail [e|]]; [apply sends_ret|].
      refine (sends_query env SExecution _ _ _ _ _ eq_refl _). intros rows. apply sends_ret.
    + unfold GetRetryChain. apply sends_seq; [apply HE|]. intros [detail [e|]]; [apply sends_ret|].
      refine (sends_query env SExecution _ _ _ _ _ eq_refl _). intros rows. apply sends_ret.
  - intros. apply sends_list, entities_same.
  - intros key. unfold GetEntity. pose proof (entity_same key) as [Hq _]. destruct (entity_query key) as [q args].
    refine (sends_row env SEntityTimes _ _ _ _ _ Hq _). intros [[[a b] c] e]. apply sends_ret.
  - intros f p. apply sends_list. apply (events_same f p None).
  - intros id f p. apply sends_list. apply (events_same f p (Some id)).
  - intros id id'. eexists. unfold GetEvent. split; refine (sends_row env SEvent _ _ _ _ _ eq_refl _); intros row; destruct (scanEvent row); apply sends_ret.
  - intros f. unfold Overview_. apply emits_ask_seq. intros now. pose proof (overview_same f) as [Hq _].
    destruct (overview_query f) as [q args]. eapply emits_mono.
    + refine (sends_row env SOverview _ _ _ _ _ Hq _). intros [[[[[[[[[? ?] ?] ?] ?] ?] ?] ?] ?] ?]. apply sends_ret.
    + intros a new Hn. exact Hn.
  - intros f. unfold OverviewActivity_. cbv zeta.
    rewrite <- (proj1 (buckets_same f)), <- (proj1 (flow_statuses_same f)), <- (proj1 (execution_sources_same f)).
    apply sends_seq; [apply activity_part_text|]. intros [buckets [e|]]; [apply sends_ret|].
    apply sends_seq; [apply activity_part_text|]. intros [statuses [e|]]; [apply sends_ret|].
    apply sends_seq; [apply activity_part_text|]. intros [sources e]. apply sends_ret.
Qed.

(** ** Two HAVING clauses

    A status filter and a cursor each append a HAVING clause to the grouped lists; a
    statement has room for one, so the second page of a filtered list cannot be
    fetched. *)

Fixpoint occurrences (sub s : string) : nat :=
  match s with
  | EmptyString => 0
  | String _ s' => (if String.prefix sub s then 1 else 0) + occurrences sub s'
  end%nat.

Definition status_filter : FlowFilter :=
  mkFlowFilter (mkTimeRange time_zero time_zero) "" "" "failed" "" "" (zero_array 16) (mkScope "" "").
Definition first_page : PageRequest := mkPageRequest 100 Cursor_zero true.
Definition second_page : PageRequest := mkPageRequest 100 (mkCursor 0 (encodeID (zero_array 16))) true.

Example having_once : occurrences " HAVING " (flows_query status_filter first_page).1 = 1%nat.
Proof. vm_compute. reflexivity. Qed.

Example having_twice : occurrences " HAVING " (flows_query status_filter second_page).1 = 2%nat.
Proof. vm_compute. reflexivity. Qed.
