(* ===== verification/Catalogue.v ===== *)
(** * Counting catalogued events

    Both databases check a deletion by counting the rows of the catalogue that name
    the archive and one of the events.  The count equals the number of identifiers
    exactly when none is repeated and each one is catalogued under the archive. *)

From S2P Require Import Prelude.

Section Count.
Context {K : Type} `{Countable K}.

Definition count_rows (catalogued : gmap K string) (archiveID : string) (ids : list K) : nat :=
  size (filter (fun p => p.2 = archiveID /\ p.1 ∈ ids) catalogued).

Lemma count_rows_covers m archiveID ids : count_rows m archiveID ids = length ids ->
  NoDup ids /\ Forall (fun id => m !! id = Some archiveID) ids.
Proof.
  unfold count_rows. set (found := filter _ _). intros Hlen.
  assert (NoDup (map_to_list found).*1) as Hnd by apply NoDup_fst_map_to_list.
  assert (forall id, id ∈ (map_to_list found).*1 -> id ∈ ids /\ m !! id = Some archiveID) as Hin.
  { intros id ([id' a] & -> & Hid)%list_elem_of_fmap. apply elem_of_map_to_list in Hid. cbn.
    apply map_lookup_filter_Some in Hid as (Hid & Ha & Hids). cbn in Ha, Hids. by subst. }
  assert ((map_to_list found).*1 ≡ₚ ids) as Hp.
  { apply submseteq_length_Permutation; [apply NoDup_submseteq; [done|]; intros id Hid; by apply Hin|].
    rewrite length_fmap, length_map_to_list. lia. }
  split; [by rewrite <- Hp|]. apply Forall_forall. intros id Hid. rewrite <- Hp in Hid. by apply Hin.
Qed.

Lemma count_rows_all m archiveID ids : NoDup ids -> Forall (fun id => m !! id = Some archiveID) ids ->
  count_rows m archiveID ids = length ids.
Proof.
  intros Hnd Hall. unfold count_rows. set (found := filter _ _).
  assert (dom found = (list_to_set ids : gset K)) as Hdom.
  { apply set_eq. intros id. rewrite elem_of_dom, elem_of_list_to_set. split.
    - intros [a (_ & _ & Hid)%map_lookup_filter_Some]. done.
    - intros Hid. rewrite Forall_forall in Hall. exists archiveID. apply map_lookup_filter_Some. auto. }
  by rewrite <- size_dom, Hdom, size_list_to_set.
Qed.
End Count.
