(* ===== verification/PgRetention.v ===== *)
(** * Retention in PostgreSQL (src/storage/postgres/retention.go)

    The store side of a retention run: scanning events with a text cursor, deleting
    a batch in one transaction that first checks the archive catalogue, loading and
    recording archives, and the table of payloads waiting for collection.  The pool
    and its transactions are an environment; every call with its answer is an entry
    of the history. *)

From S2P Require Import Prelude Ids Events GoLib GoText Json JsonText GoTime Wire Payload Storage LinkJson Archive ArchiveJson Query Trace Retention PgQuery PgWrite.

(** ** Cursors *)

Definition retentionCursor (t : Z) (id : bytes) : string := Itoa (UnixNano t) +:+ String ":" (hex_Encode id).

Definition cursor_error : error := errors_New "invalid retention cursor".
Definition number_error : error := errors_New "strconv.ParseInt: parsing failed".

Definition parseRetentionCursor (v : string) : result (Z * bytes) :=
  match cut_byte ":" v with
  | None => Fail cursor_error
  | Some (a, b) =>
      let '(n, ok) := Atoi a in
      if negb ok then Fail number_error else id ← hex_DecodeString b; Ok (n, id)
  end.

(** ** Rows *)

(** The destination variables of each [Scan]. *)
Record ScanRow := mkScanRow {
  sw_time : Z; sw_id : bytes; sw_flow : bytes; sw_execution : bytes; sw_kind : string; sw_level : string;
  sw_service : string; sw_environment : string; sw_flow_status : string; sw_execution_status : string;
  sw_status_code : Z; sw_success : bool; sw_fields : bytes; sw_payloads : bytes
}.
Record CandidateRow := mkCandidateRow {
  cw_ref : bytes; cw_archive : string; cw_eligible : Z; cw_candidate : Z; cw_attempts : Z; cw_error : string
}.
(** The manifest and its reference, as JSON. *)
Definition ArchiveRow : Type := bytes * bytes.

Inductive RtCall :=
| RtQuery (q : string) (args : list arg)
| RtRow (q : string) (args : list arg)
| RtBegin (err : option error)
| RtExec (q : string) (args : list arg) (err : option error)
| RtCount (q : string) (args : list arg) (n : Z) (err : option error)
| RtCommit (err : option error)
| RtRollback
| RtPoolExec (q : string) (args : list arg) (err : option error).

(** The pool: [rt_exec] is [Exec] in a transaction, with the affected rows. *)
Record RtEnv := mkRtEnv {
  rt_scan : list RtCall -> string -> list arg -> Rows ScanRow;
  rt_events : list RtCall -> string -> list arg -> Rows EventRow;
  rt_archives : list RtCall -> string -> list arg -> Rows ArchiveRow;
  rt_archive : list RtCall -> string -> list arg -> ArchiveRow * option error;
  rt_candidates : list RtCall -> string -> list arg -> Rows CandidateRow;
  rt_exists : list RtCall -> string -> list arg -> bool * option error;
  rt_begin : list RtCall -> option error;
  rt_exec : list RtCall -> string -> list arg -> Z * option error;
  rt_count : list RtCall -> string -> list arg -> Z * option error;
  rt_commit : list RtCall -> option error;
  rt_pool_exec : list RtCall -> string -> list arg -> option error
}.

(** ** Scanning *)

(** The class a retention event gets: the first field with the key of the class. *)
Definition class_of (fields : bytes) : string :=
  match unmarshal_Fields fields with
  | Ok fs => match find (fun f => str_eqb (wf_Key f) FieldRetentionClass) fs with Some f => wf_Text f | None => "" end
  | _ => ""
  end.

Definition retentionLevel (v : string) : Level :=
  if str_eqb v "debug" then LevelDebug
  else if str_eqb v "warn" then LevelWarn
  else if str_eqb v "error" then LevelError
  else LevelInfo.

Definition retention_event (r : ScanRow) (links : list PayloadLink) : REvent :=
  mkREvent (hex_Encode (sw_id r)) (retentionCursor (sw_time r) (sw_id r)) (hex_Encode (sw_flow r)) (hex_Encode (sw_execution r))
    (sw_time r) (sw_kind r) (sw_service r) (sw_environment r) (retentionLevel (sw_level r)) (sw_flow_status r)
    (sw_execution_status r) (class_of (sw_fields r)) (sw_status_code r) (sw_success r)
    ((fun p => mkRPayload (pl_Role p) (pl_Ref p)) <$> links).

(** The body of the row loop. *)
Definition scan_row (row : ScanRow * option error) : REvent * option error :=
  let '(r, e) := row in
  match e with
  | Some e => (retention_event r [], Some e)
  | None =>
      match unmarshal_Links (sw_payloads r) with
      | Ok links => (retention_event r links, None)
      | Fail e => (retention_event r [], Some e)
      | Panic _ => (retention_event r [], Some type_error)
      end
  end.

Definition scan_columns : string :=
  "event_time,event_id,flow_id,execution_id,kind,level,service,environment,flow_status,execution_status,http_status_code,http_success,fields,payload_refs".

(** The statement of a scan from [cursor], if there is one. *)
Definition scan_query (cursor : option (Z * bytes)) (limit : Z) : string * list arg :=
  let '(where_text, args) :=
    match cursor with
    | Some (ts, id) => (" WHERE (event_time,event_id)>($1,$2)", [ATime ts; ABytes id])
    | None => ("", [])
    end in
  let args := args ++ [AInt (i64 (limit + 1))] in
  ("SELECT " +:+ scan_columns +:+ " FROM trail_events" +:+ where_text +:+ " ORDER BY event_time,event_id LIMIT "
     +:+ placeholder (length args), args).

Definition EventPage_zero : EventPage := mkEventPage [] "" false.

(** [out] after the loop, cut at the limit and with its cursor. *)
Definition finish_page (events : list REvent) (limit : Z) : EventPage :=
  let more := limit <? Z.of_nat (length events) in
  let events := if more then take (Z.to_nat limit) events else events in
  mkEventPage events (match last events with Some e => re_Cursor e | None => "" end) more.

(** *** Statements *)

Definition candidate_sql : string :=
  "INSERT INTO trail_payload_gc_candidates(store,object_key,ref,eligible_at,archive_id) VALUES($1,$2,$3,$4,$5) ON CONFLICT(store,object_key) DO UPDATE SET eligible_at=GREATEST(trail_payload_gc_candidates.eligible_at,EXCLUDED.eligible_at),ref=EXCLUDED.ref,archive_id=EXCLUDED.archive_id".
Definition archived_sql : string := "SELECT count(*) FROM trail_event_archives WHERE archive_id=$1 AND event_id=ANY($2)".
Definition delete_sql : string := "DELETE FROM trail_events WHERE event_id=ANY($1)".
Definition load_sql : string := eventSelect +:+ " WHERE event_id=ANY($1) ORDER BY event_time,event_id".
Definition archive_sql : string :=
  "INSERT INTO trail_archives(archive_id,manifest,manifest_ref,created_at) VALUES($1,$2,$3,$4) ON CONFLICT(archive_id) DO NOTHING".
Definition event_archive_sql : string :=
  "INSERT INTO trail_event_archives(event_id,archive_id) VALUES($1,$2) ON CONFLICT(event_id) DO UPDATE SET archive_id=EXCLUDED.archive_id".
Definition archives_sql : string := "SELECT manifest,manifest_ref FROM trail_archives ORDER BY created_at DESC,archive_id LIMIT $1 OFFSET $2".
Definition get_archive_sql : string := "SELECT manifest,manifest_ref FROM trail_archives WHERE archive_id=$1".
Definition candidates_sql : string :=
  "SELECT ref,archive_id,eligible_at,candidate_at,attempts,last_error FROM trail_payload_gc_candidates WHERE archive_id<>'' AND eligible_at<=now() AND candidate_at<=$1 AND retry_after<=now() ORDER BY candidate_at,store,object_key LIMIT $2".
Definition referenced_sql : string :=
  "SELECT EXISTS(SELECT 1 FROM trail_events e CROSS JOIN LATERAL jsonb_array_elements(e.payload_refs) p WHERE p->'Ref'->>'store'=$1 AND p->'Ref'->>'key'=$2 LIMIT 1)".
Definition forget_sql : string := "DELETE FROM trail_payload_gc_candidates WHERE store=$1 AND object_key=$2".
Definition retry_sql : string :=
  "UPDATE trail_payload_gc_candidates SET attempts=attempts+1,last_error=$3,retry_after=now()+interval '1 hour' WHERE store=$1 AND object_key=$2".

(** [hex.DecodeString] of every identifier, up to the first that fails. *)
Definition decode_ids (events : list REvent) : result (list bytes) := go_range (fun _ e => hex_DecodeString (re_ID e)) events.

Definition receipt_error : error := errors_New "trail/postgres: archive receipt is required".
Definition coverage_error : error := errors_New "trail/postgres: archive receipt does not cover deletion batch".

(** The receipt of a catalogue row, and the error; a part whose decoding fails is left
    at its zero value. *)
Definition scan_archive (row : ArchiveRow * option error) : Receipt * option error :=
  let '((manifest, ref), e) := row in
  match e with
  | Some e => (mkReceipt Manifest_zero Ref_zero, Some e)
  | None =>
      match unmarshal_manifest manifest with
      | Ok m =>
          match (j ← json_parse ref; dec_struct assign_Ref j Ref_zero) with
          | Ok r => (mkReceipt m r, None)
          | Fail e => (mkReceipt m Ref_zero, Some e)
          | Panic _ => (mkReceipt m Ref_zero, Some type_error)
          end
      | Fail e => (mkReceipt Manifest_zero Ref_zero, Some e)
      | Panic _ => (mkReceipt Manifest_zero Ref_zero, Some type_error)
      end
  end.

Definition scan_candidate (row : CandidateRow * option error) : Candidate * option error :=
  let '(r, e) := row in
  let c ref := mkCandidate ref (cw_archive r) (cw_eligible r) (cw_candidate r) (cw_attempts r) (cw_error r) in
  match e with
  | Some e => (c Ref_zero, Some e)
  | None =>
      match (j ← json_parse (cw_ref r); dec_struct assign_Ref j Ref_zero) with
      | Ok ref => (c ref, None)
      | Fail e => (c Ref_zero, Some e)
      | Panic _ => (c Ref_zero, Some type_error)
      end
  end.

(** ** Operations *)

Section Store.
Context (env : RtEnv).
#[local] Abbreviation S := (E RtCall).

(** [tx.Exec]: the affected rows and the error. *)
Definition tx_exec (q : string) (args : list arg) : S (Z * option error) :=
  ask (fun h => rt_exec env h q args) (fun r => RtExec q args r.2).
Definition pool_exec (q : string) (args : list arg) : S (option error) :=
  ask (fun h => rt_pool_exec env h q args) (RtPoolExec q args).
Definition rollback : S unit := ask (fun _ => tt) (fun _ => RtRollback).

Definition scan_from (cursor : option (Z * bytes)) (limit : Z) : S (EventPage * option error) :=
  let '(q, args) := scan_query cursor limit in
  rows ← ask (fun h => rt_scan env h q args) (fun _ => RtQuery q args);
  mret (match rs_err rows with
        | Some e => (EventPage_zero, Some e)
        | None =>
            match collect_some scan_row (rs_rows rows) [] with
            | (out, Some e) => (mkEventPage out "" false, Some e)
            | (out, None) =>
                match rs_end rows with
                | Some e => (mkEventPage out "" false, Some e)
                | None => (finish_page out limit, None)
                end
            end
        end).

Definition ScanRetentionEvents (req : ScanRequest) : S (EventPage * option error) :=
  if sr_Limit req <=? 0 then mret (EventPage_zero, None)
  else if str_eqb (sr_Cursor req) "" then scan_from None (sr_Limit req)
  else match parseRetentionCursor (sr_Cursor req) with
  | Ok cursor => scan_from (Some cursor) (sr_Limit req)
  | Fail e => mret (EventPage_zero, Some e)
  | Panic _ => mret (EventPage_zero, Some type_error)
  end.

(** *** Deleting *)

Definition marshal_Ref (r : Ref) : result bytes := j ← enc_Ref r; Ok (json_print j).

(** The candidates of one payload list: [seen] and the count so far. *)
Fixpoint queue_candidates (times : gmap string Z) (archiveID : string) (payloads : list RPayload) (seen : gset string) (n : Z)
    : S (gset string * Z * option error) :=
  match payloads with
  | [] => mret (seen, n, None)
  | p :: payloads =>
      let ref := rp_Ref p in
      let k := payloadKey ref in
      match times !! k with
      | Some at_ =>
          if bool_decide (k ∈ seen) || str_eqb (ref_Store ref) "" || str_eqb (ref_Key ref) ""
          then queue_candidates times archiveID payloads seen n
          else
            let seen := {[k]} ∪ seen in
            match marshal_Ref ref with
            | Ok b =>
                '(_, er) ← tx_exec candidate_sql
                             [AText (ref_Store ref); AText (ref_Key ref); ABytes b; ATime at_; AText archiveID];
                match er with
                | Some er => mret (seen, n, Some er)
                | None => queue_candidates times archiveID payloads seen (u64 (n + 1))
                end
            | Fail er => mret (seen, n, Some er)
            | Panic _ => mret (seen, n, Some type_error)
            end
      | None => queue_candidates times archiveID payloads seen n
      end
  end.

(** The transaction up to the deferred rollback. *)
Definition delete_tx (req : DeleteRequest) : S (DeleteResult * option error) :=
  '(_, n, er) ← queue_candidates (dq_PayloadEligibleAt req) (dq_ArchiveID req) (concat (re_Payloads <$> dq_Events req)) ∅ 0;
  let out := mkDeleteResult 0 n in
  match er with
  | Some er => mret (out, Some er)
  | None =>
      match decode_ids (dq_Events req) with
      | Ok ids =>
          let count_args := [AText (dq_ArchiveID req); AIds ids] in
          '(archived, err) ← ask (fun h => rt_count env h archived_sql count_args)
                               (fun r => RtCount archived_sql count_args r.1 r.2);
          match err with
          | Some err => mret (out, Some err)
          | None =>
              if negb (archived =? Z.of_nat (length ids)) then mret (out, Some coverage_error)
              else
                '(affected, err) ← tx_exec delete_sql [AIds ids];
                match err with
                | Some err => mret (out, Some err)
                | None =>
                    err ← ask (rt_commit env) RtCommit;
                    mret (match err with
                          | Some err => (mkDeleteResult 0 0, Some err)
                          | None => (mkDeleteResult (u64 affected) n, None)
                          end)
                end
          end
      | Fail er => mret (out, Some er)
      | Panic _ => mret (out, Some type_error)
      end
  end.

Definition DeleteRetentionEvents (req : DeleteRequest) : S (DeleteResult * option error) :=
  let out := mkDeleteResult 0 0 in
  if Nat.eqb (length (dq_Events req)) 0 then mret (out, None)
  else if dq_DryRun req then mret (out, None)
  else if str_eqb (dq_ArchiveID req) "" then mret (out, Some receipt_error)
  else
    err ← ask (rt_begin env) RtBegin;
    match err with
    | Some err => mret (out, Some err)
    | None => res ← delete_tx req; _ ← rollback; mret res
    end.

(** *** Archives *)

Definition LoadArchiveEvents (events : list REvent) : S (list EventRecord * option error) :=
  match decode_ids events with
  | Ok ids =>
      rows ← ask (fun h => rt_events env h load_sql [AIds ids]) (fun _ => RtQuery load_sql [AIds ids]);
      mret (match rs_err rows with
            | Some e => ([], Some e)
            | None =>
                match collect scanEvent (rs_rows rows) with
                | Ok out => (out, rs_end rows)
                | Fail e => ([], Some e)
                | Panic _ => ([], Some type_error)
                end
            end)
  | Fail e => mret ([], Some e)
  | Panic _ => mret ([], Some type_error)
  end.

(** One row of the catalogue per archived event. *)
Fixpoint record_events (archiveID : string) (ids : list string) : S (option error) :=
  match ids with
  | [] => mret None
  | id :: ids =>
      match ParseEventID id with
      | Ok parsed =>
          '(_, er) ← tx_exec event_archive_sql [idBytes parsed; AText archiveID];
          match er with Some er => mret (Some er) | None => record_events archiveID ids end
      | Fail er => mret (Some er)
      | Panic _ => mret (Some type_error)
      end
  end.

Definition record_tx (receipt : Receipt) (manifest ref : bytes) : S (option error) :=
  let m := rc_Manifest receipt in
  '(_, err) ← tx_exec archive_sql [AText (mf_ID m); ABytes manifest; ABytes ref; ATime (mf_CreatedAt m)];
  match err with
  | Some err => mret (Some err)
  | None =>
      err ← record_events (mf_ID m) (mf_EventIDs m);
      match err with Some err => mret (Some err) | None => ask (rt_commit env) RtCommit end
  end.

Definition RecordArchive (receipt : Receipt) : S (option error) :=
  match marshal_manifest (rc_Manifest receipt) with
  | Ok manifest =>
      match marshal_Ref (rc_ManifestRef receipt) with
      | Ok ref =>
          err ← ask (rt_begin env) RtBegin;
          match err with
          | Some err => mret (Some err)
          | None => err ← record_tx receipt manifest ref; _ ← rollback; mret err
          end
      | Fail e => mret (Some e)
      | Panic _ => mret (Some type_error)
      end
  | Fail e => mret (Some e)
  | Panic _ => mret (Some type_error)
  end.

Definition ListArchives (offset limit : Z) : S (list Receipt * bool * option error) :=
  if (offset <? 0) || (limit <? 1) || (500 <? limit) then mret ([], false, Some ErrInvalidCursor)
  else
    let args := [AInt (i64 (limit + 1)); AInt offset] in
    rows ← ask (fun h => rt_archives env h archives_sql args) (fun _ => RtQuery archives_sql args);
    mret (match rs_err rows with
          | Some e => ([], false, Some e)
          | None =>
              match collect_some scan_archive (rs_rows rows) [] with
              | (out, Some e) => (out, false, Some e)
              | (out, None) =>
                  let more := limit <? Z.of_nat (length out) in
                  (if more then take (Z.to_nat limit) out else out, more, rs_end rows)
              end
          end).

Definition GetArchive (id : string) : S (Receipt * option error) :=
  row ← ask (fun h => rt_archive env h get_archive_sql [AText id]) (fun _ => RtRow get_archive_sql [AText id]);
  mret (match row.2 with
        | Some err => (mkReceipt Manifest_zero Ref_zero, Some (if Contains (err_text err) "no rows" then ErrNotFound else err))
        | None => scan_archive row
        end).

(** *** Payloads *)

Definition ListPayloadCandidates (before limit : Z) : S (list Candidate * option error) :=
  let args := [ATime before; AInt limit] in
  rows ← ask (fun h => rt_candidates env h candidates_sql args) (fun _ => RtQuery candidates_sql args);
  mret (match rs_err rows with
        | Some e => ([], Some e)
        | None =>
            match collect_some scan_candidate (rs_rows rows) [] with
            | (out, Some e) => (out, Some e)
            | (out, None) => (out, rs_end rows)
            end
        end).

Fixpoint referenced_loop (refs : list Ref) (out : gmap string bool) : S (gmap string bool * option error) :=
  match refs with
  | [] => mret (out, None)
  | ref :: refs =>
      let args := [AText (ref_Store ref); AText (ref_Key ref)] in
      '(yes, err) ← ask (fun h => rt_exists env h referenced_sql args) (fun _ => RtRow referenced_sql args);
      match err with
      | Some err => mret (∅, Some err)
      | None => referenced_loop refs (<[payloadKey ref := yes]> out)
      end
  end.
Definition ReferencedPayloads (refs : list Ref) : S (gmap string bool * option error) := referenced_loop refs ∅.

Definition CompletePayloadCandidate (ref : Ref) (failure : string) : S (option error) :=
  if str_eqb failure "" || str_eqb failure "referenced"
  then pool_exec forget_sql [AText (ref_Store ref); AText (ref_Key ref)]
  else pool_exec retry_sql [AText (ref_Store ref); AText (ref_Key ref); AText failure].

Definition ReconcileRetention : S (option error) := mret None.
End Store.

(** [RestoreArchiveEvents] writes through the ingest path. *)
Definition RestoreArchiveEvents (env : WEnv) (events : list EventRecord) : E WCall (Z * option error) :=
  match events with
  | [] => mret (0, None)
  | _ =>
      err ← WriteBatches env [mkStorageBatch (zero_array 16) Metadata_zero Delivery_zero events];
      mret (match err with Some err => (0, Some err) | None => (Z.of_nat (length events), None) end)
  end.
