(* ===== verification/PgScan.v ===== *)
(** * Scanning events for retention

    The scan statement under the reference semantics, the events it yields, and that
    following the text cursors visits every stored event once, in order. *)

From S2P Require Import Prelude Ids Events GoLib GoText Json JsonText GoTime Wire Payload Storage LinkJson Archive ArchiveJson Query Trace Retention PgQuery PgSql Keyset PgSqlProofs PgWrite PgEvents PgPages PgRetention.

(** ** Cursors *)

Lemma Itoa_free sep z : sep <> "-"%char -> is_digit sep = false -> free sep (Itoa z) = true.
Proof.
  intros Hm Hd. assert (forall l, Forall (fun c => is_digit c = true) l -> free sep (bytes_string l) = true) as HF.
  { induction 1 as [|c l Hc _ IH]; [done|]. unfold free in *. cbn [String.string_of_list_ascii string_forallb].
    apply andb_true_iff. split; [|exact IH]. apply negb_true_iff, Ascii.eqb_neq. intros ->. congruence. }
  unfold Itoa, print_int. destruct (Z.ltb_spec z 0).
  - cbn [String.string_of_list_ascii]. unfold free. cbn [string_forallb]. apply andb_true_iff. split.
    + apply negb_true_iff, Ascii.eqb_neq. congruence.
    + apply HF, print_nat_spec. lia.
  - by apply HF, print_nat_spec.
Qed.

Lemma Atoi_Itoa z : in_s 64 z -> Atoi (Itoa z) = (z, true).
Proof.
  unfold in_s. change (64 - 1) with 63. intros Hz. unfold Atoi, Itoa. rewrite String.list_ascii_of_string_of_list_ascii.
  unfold print_int. destruct (Z.ltb_spec z 0) as [Hn|Hn].
  - destruct (print_nat_spec (- z)) as (HF & HV & d & more & Heq & _); [lia|]. rewrite Heq in *.
    rewrite bool_decide_eq_false_2 by done. rewrite (proj2 (forallb_forall _ _)), HV.
    + cbn [negb orb]. replace (- - z) with z by lia. destruct (Z.ltb_spec z (- 2 ^ 63)); [lia|]. destruct (Z.leb_spec (2 ^ 63) z); [lia|]. done.
    + intros c Hc%list_elem_of_In. rewrite Forall_forall in HF. by apply HF.
  - destruct (print_nat_spec z) as (HF & HV & d & more & Heq & _); [lia|]. rewrite Heq in *.
    assert (forallb is_digit (d :: more) = true) as Hfb.
    { apply forallb_forall. intros c Hc%list_elem_of_In. rewrite Forall_forall in HF. by apply HF. }
    assert (is_digit d = true) as Hd by (by apply Forall_cons in HF as [Hd _]).
    replace (match d :: more with
             | "-"%char :: ds => (true, ds) | "+"%char :: ds => (false, ds) | ds => (false, ds) end)
      with (false, d :: more).
    2: { destruct d as [[] [] [] [] [] [] [] []]; first [reflexivity | discriminate Hd]. }
    rewrite bool_decide_eq_false_2 by done. rewrite Hfb. cbn [negb orb].
    rewrite HV. destruct (Z.ltb_spec z (- 2 ^ 63)); [lia|]. destruct (Z.leb_spec (2 ^ 63) z); [lia|]. done.
Qed.

Lemma parse_retentionCursor t id : in_s 64 t -> parseRetentionCursor (retentionCursor t id) = Ok (t, id).
Proof.
  intros Ht. unfold parseRetentionCursor, retentionCursor, UnixNano. rewrite i64_id by done.
  rewrite cut_byte_app_free by (by apply Itoa_free). rewrite Atoi_Itoa by done. cbn [negb].
  by rewrite hex_decode_encode.
Qed.

Lemma retentionCursor_nonempty t id : retentionCursor t id <> "".
Proof.
  unfold retentionCursor. intros H%(f_equal (fun s => length (string_bytes s))).
  rewrite string_bytes_app, length_app in H. simpl in H. lia.
Qed.

(** ** Rows *)

(** The columns of a scanned row, with the texts of the two jsonb columns given. *)
Definition scan_args (r : ScanRow) (fields payloads : bytes) : list arg :=
  [ ATime (sw_time r); ABytes (sw_id r); null_bytes (sw_flow r); null_bytes (sw_execution r); AText (sw_kind r);
    AText (sw_level r); AText (sw_service r); AText (sw_environment r); AText (sw_flow_status r);
    AText (sw_execution_status r); AInt (sw_status_code r); ABool (sw_success r); ABytes fields; ABytes payloads ].
Definition scans_row (values : list arg) (r : ScanRow) : Prop :=
  exists fields payloads, values = scan_args r fields payloads /\
    (forall v, unmarshal_Fields fields = Ok v -> unmarshal_Fields (sw_fields r) = Ok v) /\
    (forall v, unmarshal_Links payloads = Ok v -> unmarshal_Links (sw_payloads r) = Ok v).

Definition scan_cols : list string := Eval vm_compute in Split scan_columns ",".

(** What a scan statement returns of a stored record. *)
Definition scan_values (e : EventRecord) : list arg :=
  [ ATime (micros (er_Timestamp e)); idBytes (er_ID e); nullableID (er_FlowID e); nullableID (er_ExecutionID e);
    AText (er_Kind e); AText (Level_String (er_Level e)); AText (md_Service (er_Metadata e));
    AText (md_Environment (er_Metadata e)); AText (er_FlowStatus e); AText (er_ExecutionStatus e);
    AInt (h_StatusCode (er_HTTP e)); ABool (h_Success (er_HTTP e)); ABytes (marshal_Fields (er_Fields e)); ABytes (link_bytes e) ].

Lemma project_scan e : project scan_cols (stored e) = Some (scan_values e).
Proof.
  transitivity (Some [ ATime (micros (er_Timestamp e)); idBytes (er_ID e); as_sent (nullableID (er_FlowID e));
    as_sent (nullableID (er_ExecutionID e)); AText (er_Kind e); AText (Level_String (er_Level e)); AText (md_Service (er_Metadata e));
    AText (md_Environment (er_Metadata e)); AText (er_FlowStatus e); AText (er_ExecutionStatus e);
    AInt (h_StatusCode (er_HTTP e)); ABool (h_Success (er_HTTP e)); ABytes (marshal_Fields (er_Fields e)); ABytes (link_bytes e) ]);
    [reflexivity|]. by rewrite !as_sent_id.
Qed.

(** The event the retention engine is to see for a record. *)
Definition hex_id (id : id16) : string := if IsZero id then "" else hex_Encode id.
Definition retention_of (e : EventRecord) : REvent :=
  mkREvent (hex_Encode (er_ID e)) (retentionCursor (micros (er_Timestamp e)) (er_ID e)) (hex_id (er_FlowID e)) (hex_id (er_ExecutionID e))
    (micros (er_Timestamp e)) (er_Kind e) (md_Service (er_Metadata e)) (md_Environment (er_Metadata e)) (er_Level e)
    (er_FlowStatus e) (er_ExecutionStatus e)
    (match find (fun f => str_eqb (wf_Key f) FieldRetentionClass) (er_Fields e) with Some f => wf_Text f | None => "" end)
    (h_StatusCode (er_HTTP e)) (h_Success (er_HTTP e)) ((fun p => mkRPayload (pl_Role p) (pl_Ref p)) <$> er_Payloads e).

Lemma hex_null b id : null_bytes b = nullableID id -> hex_Encode b = hex_id id.
Proof.
  unfold null_bytes, nullableID, hex_id. case_bool_decide as Hb; destruct (IsZero id); try done; [by subst|by intros [= ->]].
Qed.

Lemma retentionLevel_String v : 0 <= v <= 3 -> retentionLevel (Level_String v) = v.
Proof. intros H. assert (v = 0 \/ v = 1 \/ v = 2 \/ v = 3) as [-> | [-> | [-> | ->]]] by lia; reflexivity. Qed.

Lemma scan_row_stored e r : storable e -> scans_row (scan_values e) r -> scan_row (r, None) = (retention_of e, None).
Proof.
  intros (Hf & Hl & Hv) (fields & payloads & Heq & HF & HL). unfold scan_values, scan_args in Heq.
  injection Heq as E1 E2 E3 E4 E5 E6 E7 E8 E9 E10 E11 E12 E13 E14. unfold scan_row.
  rewrite (HL (er_Payloads e)) by (rewrite <- E14; by apply link_bytes_ok). f_equal.
  unfold retention_event, retention_of, class_of.
  rewrite (HF (er_Fields e)) by (rewrite <- E13; by apply unmarshal_marshal_Fields).
  rewrite (hex_null _ _ (eq_sym E3)), (hex_null _ _ (eq_sym E4)), <- E1, <- E2, <- E5, <- E6, <- E7, <- E8, <- E9, <- E10, <- E11, <- E12.
  by rewrite retentionLevel_String by lia.
Qed.

(** ** The statement *)

Definition scan_first : string := Eval vm_compute in (scan_query None 0).1.
Definition scan_next : string := Eval vm_compute in (scan_query (Some (0, [])) 0).1.

Lemma scan_query_first limit : scan_query None limit = (scan_first, [AInt (i64 (limit + 1))]).
Proof. reflexivity. Qed.
Lemma scan_query_next ts id limit : scan_query (Some (ts, id)) limit = (scan_next, [ATime ts; ABytes id; AInt (i64 (limit + 1))]).
Proof. reflexivity. Qed.

Definition scan_head : list string := Eval vm_compute in take 4 (tokens scan_first).
(** The statement selects the columns of a scan. *)
Definition scan_statement (q : string) : Prop := take 4 (tokens q) = scan_head.

(** How the reference semantics reads the two texts. *)
Definition select_scan (t : table) (args : list arg) (cs : list cond) (n : Z) : option (list (list arg)) :=
  if n <? 0 then None
  else mapM (project scan_cols) (take (Z.to_nat n)
         (merge_sort (row_le "event_time" "event_id" false) (filter (fun r => forallb (holds args r) cs = true) t))).

Ltac read_text :=
  match goal with
  | |- context [tokens ?q] => let ts := eval vm_compute in (tokens q) in replace (tokens q) with ts by (vm_compute; reflexivity)
  end;
  cbv iota beta;
  match goal with
  | |- context [read_where ?ts] =>
      let r := eval vm_compute in (read_where ts) in replace (read_where ts) with r by (vm_compute; reflexivity)
  end;
  cbn [mbind option_bind];
  match goal with
  | |- context [read_order ?ts] =>
      let r := eval vm_compute in (read_order ts) in replace (read_order ts) with r by (vm_compute; reflexivity)
  end;
  cbn [mbind option_bind].

Lemma select_first t n : sql_select t scan_first [AInt n] = select_scan t [AInt n] [] n.
Proof. unfold sql_select. read_text. reflexivity. Qed.
Lemma select_next t ts id n :
  sql_select t scan_next [ATime ts; ABytes id; AInt n]
  = select_scan t [ATime ts; ABytes id; AInt n] [CTuple "event_time" "event_id" OGt 1 2] n.
Proof. unfold sql_select. read_text. reflexivity. Qed.
Lemma scan_statements : scan_statement scan_first /\ scan_statement scan_next.
Proof. split; vm_compute; reflexivity. Qed.

(** The scan from a key, or from the start. *)
Definition key_cursor (k : key) : Z * bytes := (k.1, array_bytes k.2).
Definition after_key (k : option key) (e : EventRecord) : bool :=
  opt k (fun k => follows false (micros k.1, k.2) (event_key e)).

Lemma scan_query_meaning (k : option key) limit recs : 0 <= limit < 2 ^ 62 ->
  let '(q, args) := scan_query (key_cursor <$> k) limit in
  scan_statement q /\
  sql_select (stored <$> recs) q args
    = Some (scan_values <$> take (S (Z.to_nat limit)) (listing false (filter (fun e => after_key k e = true) recs))).
Proof.
  intros Hl. assert (i64 (limit + 1) = limit + 1) as Hi by (unfold i64, wraps; rewrite Z.mod_small; lia).
  assert (forall args cs, (forall e, forallb (holds args (stored e)) cs = after_key k e) ->
    select_scan (stored <$> recs) args cs (limit + 1)
      = Some (scan_values <$> take (S (Z.to_nat limit)) (listing false (filter (fun e => after_key k e = true) recs)))) as Hsel.
  { intros args cs Hcs. unfold select_scan. replace (limit + 1 <? 0) with false by lia.
    rewrite (filter_fmap_iff _ (fun e => after_key k e = true) stored recs) by (intros e; by rewrite Hcs).
    rewrite (merge_sort_fmap (ev_le false) _ stored (row_le_stored false)), <- fmap_take.
    replace (Z.to_nat (limit + 1)) with (S (Z.to_nat limit)) by lia. apply mapM_fmap_Some, project_scan. }
  destruct k as [[ts id]|].
  - change (key_cursor <$> Some (ts, id)) with (Some (ts, array_bytes id)). rewrite scan_query_next. split; [exact (proj2 scan_statements)|]. rewrite Hi, select_next. apply Hsel. intros e.
    cbn [forallb holds]. rewrite andb_true_r.
    change (column (stored e) "event_time") with (Some (ATime (micros (er_Timestamp e)))).
    change (column (stored e) "event_id") with (Some (idBytes (er_ID e))).
    cbn [argument Nat.eqb Nat.sub lookup list_lookup fmap option_fmap option_map as_sent pair_compare arg_compare idBytes].
    unfold after_key, follows, key_compare. cbn [opt fst snd event_key].
    by destruct (micros (er_Timestamp e) ?= micros ts).
  - change (key_cursor <$> None) with (@None (Z * bytes)). rewrite scan_query_first. split; [exact (proj1 scan_statements)|]. rewrite Hi, select_first. by apply Hsel.
Qed.

(** ** Following the cursors *)

(** The documented behaviour of the pool for scans. *)
Definition rt_reads (env : RtEnv) (t : table) : Prop :=
  forall h q args values, scan_statement q -> sql_select t q args = Some values ->
    let rows := rt_scan env h q args in
    rs_err rows = None /\ rs_end rows = None /\
    Forall2 (fun v r => r.2 = None /\ scans_row v r.1) values (rs_rows rows).

Lemma collect_scanned (l : list EventRecord) rows out : Forall storable l ->
  Forall2 (fun v r => r.2 = None /\ scans_row v r.1) (scan_values <$> l) rows ->
  collect_some scan_row rows out = (out ++ (retention_of <$> l), None).
Proof.
  intros Hs HF. revert rows out HF. induction Hs as [|e l He _ IH]; intros rows out HF.
  - apply Forall2_nil_inv_l in HF as ->. cbn. by rewrite app_nil_r.
  - rewrite fmap_cons in HF. apply Forall2_cons_inv_l in HF as ([r err] & rows' & [Herr Hr] & HF & ->).
    cbn [snd fst] in *. subst err. cbn [collect_some]. rewrite (scan_row_stored e r He Hr), (IH _ _ HF).
    rewrite fmap_cons, <- app_assoc. done.
Qed.

(** One page from a key: the events after it, at most [limit], and the cursor. *)
Definition scan_page (limit : nat) (l : list EventRecord) : EventPage :=
  mkEventPage (retention_of <$> take limit l)
    (match last (take limit l) with Some e => retentionCursor (micros (er_Timestamp e)) (er_ID e) | None => "" end)
    (bool_decide (limit < length l)%nat).

Lemma finish_page_scan limit (l : list EventRecord) : 0 < limit ->
  finish_page (retention_of <$> take (S (Z.to_nat limit)) l) limit = scan_page (Z.to_nat limit) l.
Proof.
  intros Hl. unfold finish_page, scan_page. rewrite length_fmap, length_take.
  assert ((limit <? Z.of_nat (S (Z.to_nat limit) `min` length l)) = bool_decide (Z.to_nat limit < length l)%nat) as ->.
  { case_bool_decide; [apply Z.ltb_lt|apply Z.ltb_ge]; lia. }
  assert ((if bool_decide (Z.to_nat limit < length l)%nat then take (Z.to_nat limit) (retention_of <$> take (S (Z.to_nat limit)) l)
           else retention_of <$> take (S (Z.to_nat limit)) l) = retention_of <$> take (Z.to_nat limit) l) as ->.
  { case_bool_decide; [by rewrite <- fmap_take, take_take, Nat.min_l by lia|by rewrite !take_ge by lia]. }
  rewrite fmap_last. by destruct (last (take (Z.to_nat limit) l)).
Qed.

Lemma scan_from_page env k limit recs h : rt_reads env (stored <$> recs) -> Forall storable recs -> 0 < limit < 2 ^ 62 ->
  (scan_from env (key_cursor <$> k) limit h).2
    = (scan_page (Z.to_nat limit) (listing false (filter (fun e => after_key k e = true) recs)), None).
Proof.
  intros Henv Hs Hl. unfold scan_from. pose proof (scan_query_meaning k limit recs ltac:(lia)) as HM.
  destruct (scan_query (key_cursor <$> k) limit) as [q args]. destruct HM as [Hq HM].
  unfold mbind, E_bind, ask, mret, E_ret. cbn [fst snd].
  destruct (Henv h q args _ Hq HM) as (H1 & H2 & H3). rewrite H1.
  assert (Forall storable (take (S (Z.to_nat limit)) (listing false (filter (fun e => after_key k e = true) recs)))) as Ht.
  { apply Forall_take. unfold listing_by. rewrite merge_sort_Permutation. apply Forall_forall. intros e [_ He]%list_elem_of_filter.
    rewrite Forall_forall in Hs. by apply Hs. }
  rewrite (collect_scanned _ _ [] Ht H3), H2. cbn [app]. by rewrite finish_page_scan by lia.
Qed.

(** The loop of a run that deletes nothing: scan, and go on from the next cursor
    while there is more. *)
Definition follow_scan (env : RtEnv) (limit : Z) : nat -> string -> E RtCall (result (list REvent)) :=
  follow (fun c =>
    '(page, err) ← ScanRetentionEvents env (mkScanRequest c limit);
    mret (match err with
          | Some e => Fail e
          | None => Ok (evp_Events page, if evp_HasMore page then Some (evp_NextCursor page) else None)
          end)).

(** The records after a key are a suffix of the listing. *)
Lemma after_key_next recs l1 x l2 : NoDup (er_ID <$> recs) -> listing false recs = l1 ++ x :: l2 ->
  listing false (filter (fun e => after_key (Some (micros (er_Timestamp x), er_ID x)) e = true) recs) = l2.
Proof.
  intros HN Heq. rewrite listing_filter by done. unfold after_key. cbn [opt fst snd]. rewrite micros_idem.
  change (micros (er_Timestamp x), er_ID x) with (event_key x). eapply filter_follows; [exact HN|exact Heq].
Qed.

Definition scan_cursor (e : EventRecord) : string := retentionCursor (micros (er_Timestamp e)) (er_ID e).

Lemma scan_at_page env limit recs c rest h :
  rt_reads env (stored <$> recs) -> Forall storable recs -> NoDup (er_ID <$> recs) ->
  Forall (fun e => in_s 64 (micros (er_Timestamp e))) recs -> 0 < limit < 2 ^ 62 -> cursor_at EmptyString scan_cursor (listing false recs) c rest ->
  (ScanRetentionEvents env (mkScanRequest c limit) h).2 = (scan_page (Z.to_nat limit) rest, None).
Proof.
  intros Henv Hs HN Ht Hl Hat. unfold ScanRetentionEvents. cbn [sr_Limit sr_Cursor].
  replace (limit <=? 0) with false by lia. destruct Hat as [[-> ->]|(l & x & -> & Heq)].
  - change (str_eqb "" "") with true. cbv iota.
    change (@None (Z * bytes)) with (key_cursor <$> None). rewrite (scan_from_page env None limit recs h Henv Hs Hl).
    by rewrite filter_all.
  - unfold str_eqb, scan_cursor. rewrite bool_decide_eq_false_2 by apply retentionCursor_nonempty.
    assert (x ∈ recs) as Hx.
    { rewrite <- (listing_perm (ekey := event_key) false recs), Heq. apply elem_of_app. right. by left. }
    rewrite parse_retentionCursor by (rewrite Forall_forall in Ht; by apply Ht).
    change (Some (micros (er_Timestamp x), array_bytes (er_ID x))) with (key_cursor <$> Some (micros (er_Timestamp x), er_ID x)).
    rewrite (scan_from_page env (Some (micros (er_Timestamp x), er_ID x)) limit recs h Henv Hs Hl).
    by rewrite (after_key_next recs l x rest HN Heq).
Qed.

Lemma follow_scan_at env limit recs fuel c rest h :
  rt_reads env (stored <$> recs) -> Forall storable recs -> NoDup (er_ID <$> recs) ->
  Forall (fun e => in_s 64 (micros (er_Timestamp e))) recs -> 0 < limit < 2 ^ 62 ->
  cursor_at EmptyString scan_cursor (listing false recs) c rest -> (length rest < fuel)%nat ->
  (follow_scan env limit fuel c h).2 = Ok (retention_of <$> rest).
Proof.
  intros Henv Hs HN Ht Hl. apply (follow_at EmptyString scan_cursor _ _ (Z.to_nat limit)); [lia|]. clear h c rest.
  intros c rest h Hc. pose proof (scan_at_page env limit recs c rest h Henv Hs HN Ht Hl Hc) as Hp.
  unfold mbind, E_bind. destruct (ScanRetentionEvents env (mkScanRequest c limit) h) as [h1 r]. cbn [snd] in Hp. subst r. cbn.
  case_bool_decide as Hd; case_decide; try done. destruct (last (take (Z.to_nat limit) rest)) as [x|] eqn:E; [done|].
  apply last_None, (f_equal length) in E. rewrite length_take in E. simpl in E. lia.
Qed.

(** C21. A retention scan misses nothing.  Over a table of records with distinct
    identifiers, scanning in pages of any size and going on from the cursor of each
    page yields every stored event exactly once, in order of time and identifier,
    with the attributes the policies look at and the first retention class among its
    fields, within as many scans as there are events plus one. *)
Theorem retention_scan_complete (env : RtEnv) (limit : Z) (recs : list EventRecord) (h : list RtCall) (fuel : nat) :
  rt_reads env (stored <$> recs) -> Forall storable recs -> NoDup (er_ID <$> recs) ->
  Forall (fun e => in_s 64 (micros (er_Timestamp e))) recs -> 0 < limit < 2 ^ 62 -> (length recs < fuel)%nat ->
  (follow_scan env limit fuel "" h).2 = Ok (retention_of <$> listing false recs) /\
  listing false recs ≡ₚ recs /\ StronglySorted (ev_le false) (listing false recs).
Proof.
  intros Henv Hs HN Ht Hl Hf. split_and!; [|apply listing_perm|apply listing_sorted].
  eapply follow_scan_at; [done..|by left|]. by rewrite (Permutation_length (listing_perm _ _)).
Qed.

(** *** A pool that is the reference semantics *)

Definition scan_row_of_args (v : list arg) : ScanRow :=
  let at_ n := nth n v ANull in
  let b n := bytes_of (at_ n) in let t n := text_of (at_ n) in
  mkScanRow (int_of (at_ 0%nat)) (b 1%nat) (b 2%nat) (b 3%nat) (t 4%nat) (t 5%nat) (t 6%nat) (t 7%nat) (t 8%nat) (t 9%nat)
    (int_of (at_ 10%nat)) (bool_of (at_ 11%nat)) (b 12%nat) (b 13%nat).

Lemma scans_scan_row e : scans_row (scan_values e) (scan_row_of_args (scan_values e)).
Proof.
  exists (marshal_Fields (er_Fields e)), (link_bytes e). split; [|done]. unfold scan_values, scan_args, scan_row_of_args.
  cbn [nth sw_time sw_id sw_flow sw_execution sw_kind sw_level sw_service sw_environment sw_flow_status sw_execution_status
    sw_status_code sw_success]. by rewrite !null_bytes_of.
Qed.

Definition reference_rt (t : table) : RtEnv :=
  mkRtEnv
    (fun h q args => match sql_select t q args with
                     | Some values => mkRows None ((fun v => (scan_row_of_args v, None)) <$> values) None
                     | None => no_rows
                     end)
    (fun _ _ _ => no_rows) (fun _ _ _ => no_rows) (fun _ _ _ => ([], [], Some ErrNoRows)) (fun _ _ _ => no_rows)
    (fun _ _ _ => (false, None)) (fun _ => None) (fun _ _ _ => (0, None)) (fun _ _ _ => (0, None)) (fun _ => None) (fun _ _ _ => None).

Lemma scan_select_values recs q args values : scan_statement q -> sql_select (stored <$> recs) q args = Some values ->
  Forall (fun v => exists e, v = scan_values e) values.
Proof.
  unfold scan_statement, sql_select. intros Hq.
  destruct (tokens q) as [|t1 [|t2 [|t3 [|t4 ts]]]]; try done. cbn [take] in Hq. unfold scan_head in Hq.
  injection Hq as -> -> -> ->. destruct (read_where ts) as [[cs ts']|]; [|done]. cbn [mbind option_bind].
  destruct (read_order ts') as [[[[c1 c2] desc] k]|]; [|done]. cbn [mbind option_bind].
  destruct (argument args k) as [[]|]; try done. destruct (_ <? 0); [done|].
  intros HM%mapM_Some. apply Forall_forall. intros v Hv. apply list_elem_of_lookup in Hv as [i Hi].
  destruct (Forall2_lookup_r _ _ _ _ _ HM Hi) as (r & Hr & Hp).
  apply list_elem_of_lookup_2 in Hr. eapply elem_of_submseteq in Hr; [|apply sublist_submseteq, sublist_take].
  rewrite merge_sort_Permutation in Hr. apply list_elem_of_filter in Hr as [_ (e & -> & _)%list_elem_of_fmap].
  exists e. match type of Hp with project ?c _ = _ => replace c with scan_cols in Hp by (vm_compute; reflexivity) end.
  rewrite project_scan in Hp. by injection Hp.
Qed.

Lemma reference_rt_reads recs : rt_reads (reference_rt (stored <$> recs)) (stored <$> recs).
Proof.
  intros h q args values Hq Hs. cbn [reference_rt rt_scan]. rewrite Hs. split_and!; [done|done|].
  cbn [rs_rows]. apply Forall2_fmap_r. pose proof (scan_select_values recs q args values Hq Hs) as HF.
  eapply Forall_Forall2_diag, Forall_impl; [exact HF|]. intros v [e ->]. split; [done|apply scans_scan_row].
Qed.

Lemma retention_scan_complete_witness :
  (follow_scan (reference_rt (stored <$> demo_table)) 3 5 "" []).2
    = Ok (retention_of <$> [demo_event 1 "a"; demo_event 2 "b"; demo_event 3 "a"; demo_event 4 "a"]).
Proof.
  destruct (retention_scan_complete (reference_rt (stored <$> demo_table)) 3 demo_table [] 5) as (H & _).
  - apply reference_rt_reads.
  - repeat constructor; cbn; try lia; apply Forall_nil; exact I.
  - apply (bool_decide_unpack _). vm_compute. exact I.
  - repeat constructor; vm_compute; discriminate.
  - lia.
  - cbn. lia.
  - rewrite H. vm_compute. reflexivity.
Defined.
