(* ===== verification/PgRetentionProofs.v ===== *)
(** * Deleting and recording archives in PostgreSQL

    What [DeleteRetentionEvents] sends and when it commits, whatever the database
    answers; what the catalogue says of the deleted events; and the round trip of
    receipts through the catalogue. *)

From S2P Require Import Prelude Ids Events GoLib GoText Json JsonText GoTime Wire Payload Storage LinkJson Archive ArchiveJson Query Trace Retention PgQuery PgSql PgWrite PgEvents PgPages PgRetention PgScan Catalogue.

(** ** Candidates *)

Definition candidate_args (archiveID : string) (ref : Ref) (b : bytes) (t : Z) : list arg :=
  [AText (ref_Store ref); AText (ref_Key ref); ABytes b; ATime t; AText archiveID].
(** The call that makes [ref] a candidate from [t] on. *)
Definition candidate_call (archiveID : string) (rt : Ref * Z) (c : RtCall) : Prop :=
  exists b, marshal_Ref rt.1 = Ok b /\ c = RtExec candidate_sql (candidate_args archiveID rt.1 b rt.2) None.

Definition collectable_from (times : gmap string Z) (rt : Ref * Z) : Prop :=
  times !! payloadKey rt.1 = Some rt.2 /\ ref_Store rt.1 <> "" /\ ref_Key rt.1 <> "".

Definition is_candidate (archiveID : string) (c : RtCall) : Prop :=
  exists ref b t err, c = RtExec candidate_sql (candidate_args archiveID ref b t) err.

(** The payloads queued by a call of the loop, and those that needed no entry. *)
Definition queued (times : gmap string Z) (archiveID : string) (payloads : list RPayload) (seen : gset string)
    (res : gset string * Z * option error) (n : Z) (new : list RtCall) : Prop :=
  Forall (is_candidate archiveID) new /\
  match res with
  | (_, _, Some _) => True
  | (_, n', None) =>
      exists l, Forall2 (candidate_call archiveID) l new /\ Forall (collectable_from times) l /\
        NoDup ((fun rt => payloadKey rt.1) <$> l) /\ Forall (fun rt => payloadKey rt.1 ∉ seen) l /\
        n' = u64 (n + Z.of_nat (length l)) /\
        forall p t, p ∈ payloads -> collectable_from times (rp_Ref p, t) ->
          payloadKey (rp_Ref p) ∈ seen \/ payloadKey (rp_Ref p) ∈ (fun rt => payloadKey rt.1) <$> l
  end.

Lemma queued_skip times archiveID p payloads seen res n new :
  (forall t, collectable_from times (rp_Ref p, t) -> payloadKey (rp_Ref p) ∈ seen) ->
  queued times archiveID payloads seen res n new -> queued times archiveID (p :: payloads) seen res n new.
Proof.
  intros Hp [Hc H]. split; [done|]. destruct res as [[seen' n'] [e|]]; [done|].
  destruct H as (l & H1 & H2 & H3 & H4 & H5 & H6). exists l. split_and!; try done.
  intros q t [->|Hq]%elem_of_cons Ht; [left; by eapply Hp|by eapply H6].
Qed.

Lemma queued_cons times archiveID p payloads seen t b res n new :
  collectable_from times (rp_Ref p, t) -> payloadKey (rp_Ref p) ∉ seen -> marshal_Ref (rp_Ref p) = Ok b ->
  queued times archiveID payloads ({[payloadKey (rp_Ref p)]} ∪ seen) res (u64 (n + 1)) new ->
  queued times archiveID (p :: payloads) seen res n
    (RtExec candidate_sql (candidate_args archiveID (rp_Ref p) b t) None :: new).
Proof.
  intros Hp Hs Hb [Hc H]. split; [constructor; [by do 4 eexists|done]|].
  destruct res as [[seen' n'] [e|]]; [done|]. destruct H as (l & H1 & H2 & H3 & H4 & H5 & H6).
  exists ((rp_Ref p, t) :: l). rewrite fmap_cons. cbn [fst]. split_and!.
  - constructor; [by exists b|done].
  - by constructor.
  - apply NoDup_cons. split; [|done]. intros (rt & Hk & Hrt)%list_elem_of_fmap. rewrite Forall_forall in H4.
    apply (H4 rt Hrt). rewrite <- Hk. set_solver.
  - constructor; [done|]. eapply Forall_impl; [exact H4|]. set_solver.
  - subst n'. cbn [length]. unfold wrapu. rewrite Zplus_mod_idemp_l. f_equal. lia.
  - intros q t' [->|Hq]%elem_of_cons Ht; [right; by left|]. destruct (H6 q t' Hq Ht) as [Hin|Hin]; [|right; by right].
    apply elem_of_union in Hin as [->%elem_of_singleton|Hin]; [right; by left|by left].
Qed.

Lemma queue_candidates_emits env times archiveID payloads seen n : in_u 64 n ->
  emits (queue_candidates env times archiveID payloads seen n) (fun res new => queued times archiveID payloads seen res n new).
Proof.
  revert seen n. induction payloads as [|p payloads IH]; intros seen n Hn; cbn [queue_candidates].
  - apply emits_ret. split; [done|]. exists []. split_and!; try done; [by apply NoDup_nil|by rewrite Z.add_0_r, wrapu_id|].
    by intros q t ?%elem_of_nil.
  - destruct (times !! payloadKey (rp_Ref p)) as [t|] eqn:Et.
    2: { eapply emits_mono; [by apply IH|]. intros res new. apply queued_skip. intros t [Ht _]. cbn in Ht. congruence. }
    destruct (bool_decide (payloadKey (rp_Ref p) ∈ seen) || str_eqb (ref_Store (rp_Ref p)) "" || str_eqb (ref_Key (rp_Ref p)) "") eqn:Eskip.
    + eapply emits_mono; [by apply IH|]. intros res new. apply queued_skip. intros t' (_ & Hs & Hk). cbn in Hs, Hk.
      apply orb_true_iff in Eskip as [[Hin|Hs']%orb_true_iff|Hk']; [by apply bool_decide_eq_true in Hin| |];
        unfold str_eqb in *; exfalso; [apply bool_decide_eq_true in Hs'|apply bool_decide_eq_true in Hk']; done.
    + bool_cases. assert (collectable_from times (rp_Ref p, t)) as Hcol.
      { unfold str_eqb in *. split; [done|]. cbn [fst]. split; by bool_cases. }
      destruct (marshal_Ref (rp_Ref p)) as [b|e|m] eqn:Eb; [|by apply emits_ret; split; [constructor|]..].
      apply emits_ask_seq. intros [affected [er|]]; cbn [snd].
      * apply emits_ret. split; [|done]. constructor; [by do 4 eexists|constructor].
      * eapply emits_mono; [apply IH; apply wrapu_in; lia|]. intros res new. by apply queued_cons.
Qed.

(** ** The catalogue

    What the statements of the store do to the two tables of the catalogue, and the
    catalogue after a history: what is committed, and what the open transaction
    sees.  A COMMIT that reports an error may have been carried out all the same, its
    answer being lost; [landed] says which ones were. *)

Record catalogue := mkCatalogue { ct_archives : gmap string ArchiveRow; ct_events : gmap bytes string }.


Definition cat_exec (q : string) (args : list arg) (c : catalogue) : catalogue :=
  match args with
  | [AText id; ABytes manifest; ABytes ref; ATime _] =>
      if str_eqb q archive_sql
      then match ct_archives c !! id with Some _ => c | None => mkCatalogue (<[id := (manifest, ref)]> (ct_archives c)) (ct_events c) end
      else c
  | [ABytes id; AText archiveID] =>
      if str_eqb q event_archive_sql then mkCatalogue (ct_archives c) (<[id := archiveID]> (ct_events c)) else c
  | _ => c
  end.

(** [carried]: whether the server carried the call out although it failed. *)
Definition cat_step (carried : bool) (s : catalogue * catalogue) (c : RtCall) : catalogue * catalogue :=
  match c with
  | RtBegin None | RtRollback => (s.1, s.1)
  | RtExec q args None => (s.1, cat_exec q args s.2)
  | RtCommit None => (s.2, s.2)
  | RtCommit (Some _) => if carried then (s.2, s.2) else (s.1, s.1)
  | _ => s
  end.

(** From the state [s] after [sent], through the calls [new]. *)
Fixpoint cat_from (landed : list RtCall -> bool) (sent : list RtCall) (s : catalogue * catalogue) (new : list RtCall)
    : catalogue * catalogue :=
  match new with
  | [] => s
  | c :: new => cat_from landed (sent ++ [c]) (cat_step (landed sent) s c) new
  end.

Section Catalogue.
Context (env : RtEnv) (c0 : catalogue) (landed : list RtCall -> bool).

Definition cat_at (h : list RtCall) : catalogue * catalogue := cat_from landed [] (c0, c0) h.
Definition committed (h : list RtCall) : catalogue := (cat_at h).1.
Definition visible (h : list RtCall) : catalogue := (cat_at h).2.

(** The count is that of the catalogue the transaction sees, when there is one. *)
Definition counts_catalogue : Prop :=
  forall h archiveID ids n, rt_count env h archived_sql [AText archiveID; AIds ids] = (n, None) ->
    n = Z.of_nat (count_rows (ct_events (visible h)) archiveID ids).

(** A jsonb column comes back as a text of the same value. *)
Definition same_row (sent got : ArchiveRow) : Prop :=
  (forall m, unmarshal_manifest sent.1 = Ok m -> unmarshal_manifest got.1 = Ok m) /\
  (forall r, (j ← json_parse sent.2; dec_struct assign_Ref j Ref_zero) = Ok r ->
             (j ← json_parse got.2; dec_struct assign_Ref j Ref_zero) = Ok r).
(** A row of the catalogue is found by its identifier, or there are no rows. *)
Definition finds_archives : Prop :=
  forall h id, let '(got, err) := rt_archive env h get_archive_sql [AText id] in
    match ct_archives (committed h) !! id with
    | Some sent => err = None /\ same_row sent got
    | None => exists e, err = Some e /\ Contains (err_text e) "no rows" = true
    end.

Lemma cat_from_app sent s new more :
  cat_from landed sent s (new ++ more) = cat_from landed (sent ++ new) (cat_from landed sent s new) more.
Proof.
  revert sent s. induction new as [|c new IH]; intros sent s; cbn [app cat_from]; [by rewrite app_nil_r|].
  rewrite IH. by rewrite <- app_assoc.
Qed.

Lemma cat_at_app h new : cat_at (h ++ new) = cat_from landed h (cat_at h) new.
Proof. apply cat_from_app. Qed.

Lemma cat_candidates archiveID new sent s : Forall (is_candidate archiveID) new -> cat_from landed sent s new = s.
Proof.
  intros H. revert sent. induction H as [|c new (ref & b & t & err & ->) _ IH]; intros sent; [done|].
  cbn [cat_from cat_step]. destruct err; [apply IH|]. cbn [candidate_args cat_exec]. destruct s. apply IH.
Qed.

(** ** Deletion *)

Definition delete_calls (req : DeleteRequest) (ids : list bytes) : list RtCall :=
  [ RtCount archived_sql [AText (dq_ArchiveID req); AIds ids] (Z.of_nat (length ids)) None;
    RtExec delete_sql [AIds ids] None; RtCommit None ].

(** What the transaction did: it stopped before the deletion, stopped after it
    without a commit, or went through. *)
Inductive deletes (c : catalogue) (req : DeleteRequest) : DeleteResult * option error -> list RtCall -> Prop :=
| deletes_stopped out e cands rest : Forall (is_candidate (dq_ArchiveID req)) cands ->
    Forall (fun call => exists q args n err, call = RtCount q args n err) rest -> deletes c req (out, Some e) (cands ++ rest)
| deletes_failed out e cands ids : Forall (is_candidate (dq_ArchiveID req)) cands ->
    decode_ids (dq_Events req) = Ok ids -> count_rows (ct_events c) (dq_ArchiveID req) ids = length ids ->
    forall calls e', calls = take 2 (delete_calls req ids) ++ [RtCommit (Some e')] \/
      calls = take 1 (delete_calls req ids) ++ [RtExec delete_sql [AIds ids] (Some e')] ->
    deletes c req (out, Some e) (cands ++ calls)
| deletes_done seen n affected cands ids : Forall (is_candidate (dq_ArchiveID req)) cands ->
    decode_ids (dq_Events req) = Ok ids -> count_rows (ct_events c) (dq_ArchiveID req) ids = length ids ->
    queued (dq_PayloadEligibleAt req) (dq_ArchiveID req) (concat (re_Payloads <$> dq_Events req)) ∅ (seen, n, None) 0 cands ->
    deletes c req (mkDeleteResult (u64 affected) n, None) (cands ++ delete_calls req ids).

Lemma delete_tx_deletes req h : counts_catalogue -> visible h = committed h ->
  emits_from h (delete_tx env req) (deletes (committed h) req).
Proof.
  intros Hcount Hv. unfold delete_tx. eapply emits_from_seq; [apply emits_at, queue_candidates_emits; by split|].
  intros [[seen n] er] cands Hq. pose proof Hq as [Hc _].
  assert (visible (h ++ cands) = committed h) as Hvis.
  { unfold visible. by rewrite cat_at_app, (cat_candidates (dq_ArchiveID req)). }
  destruct er as [er|]; [apply emits_from_ret; by apply deletes_stopped|].
  destruct (decode_ids (dq_Events req)) as [ids|e|m] eqn:Eids; [|apply emits_from_ret; by apply deletes_stopped..].
  apply emits_from_ask. destruct (rt_count env (h ++ cands) archived_sql _) as [archived [e|]] eqn:Ec; cbn [fst snd].
  { apply emits_from_ret, deletes_stopped; [done|]. by repeat econstructor. }
  apply Hcount in Ec. rewrite Hvis in Ec. destruct (Z.eqb_spec archived (Z.of_nat (length ids))) as [Heq|Hne]; cbn [negb].
  2: { apply emits_from_ret, deletes_stopped; [done|]. by repeat econstructor. }
  assert (count_rows (ct_events (committed h)) (dq_ArchiveID req) ids = length ids) as Hcov by lia. rewrite Heq. clear Ec Heq.
  apply emits_from_ask. destruct (rt_exec env _ delete_sql _) as [affected [e|]]; cbn [fst snd].
  { apply emits_from_ret. eapply deletes_failed; eauto. }
  apply emits_from_ask. destruct (rt_commit env _) as [e|].
  - apply emits_from_ret. eapply deletes_failed; eauto.
  - apply emits_from_ret. by eapply deletes_done.
Qed.

(** Requests that reach the database. *)
Definition proceeds (req : DeleteRequest) : bool :=
  negb (Nat.eqb (length (dq_Events req)) 0) && negb (dq_DryRun req) && negb (str_eqb (dq_ArchiveID req) "").

Lemma deletes_justified c req res new args e : deletes c req res new -> RtExec delete_sql args e ∈ new ->
  exists ids, args = [AIds ids] /\ decode_ids (dq_Events req) = Ok ids /\ NoDup ids /\
    Forall (fun id => ct_events c !! id = Some (dq_ArchiveID req)) ids.
Proof.
  assert (forall cands, Forall (is_candidate (dq_ArchiveID req)) cands -> RtExec delete_sql args e ∉ cands) as Hnot.
  { intros cands Hc Hin. rewrite Forall_forall in Hc. destruct (Hc _ Hin) as (? & ? & ? & ? & [=]). }
  intros Hd Hin. destruct Hd as [out er cands rest Hc Hr|out er cands ids Hc Hids Hcov calls e' Hcalls|seen n affected cands ids Hc Hids Hcov _];
    apply elem_of_app in Hin as [Hin|Hin]; try by destruct (Hnot _ Hc).
  - rewrite Forall_forall in Hr. by destruct (Hr _ Hin) as (? & ? & ? & ? & ?).
  - exists ids. split; [|split; [done|by apply count_rows_covers]]. cbn [take delete_calls app] in Hcalls.
    destruct Hcalls as [-> | ->]; rewrite !elem_of_cons, elem_of_nil in Hin; naive_solver.
  - exists ids. split; [|split; [done|by apply count_rows_covers]]. unfold delete_calls in Hin.
    rewrite !elem_of_cons, elem_of_nil in Hin. naive_solver.
Qed.

Lemma deletes_commit c req out err new : deletes c req (out, err) new -> RtCommit None ∈ new -> err = None.
Proof.
  assert (forall cands, Forall (is_candidate (dq_ArchiveID req)) cands -> RtCommit None ∉ cands) as Hnot.
  { intros cands Hc Hin. rewrite Forall_forall in Hc. by destruct (Hc _ Hin) as (? & ? & ? & ? & ?). }
  intros Hd Hin. inversion Hd as [? er cands rest Hc Hr|? er cands ids Hc _ _ calls e' Hcalls|]; subst; [| |done];
    apply elem_of_app in Hin as [Hin|Hin]; try by destruct (Hnot _ Hc).
  - rewrite Forall_forall in Hr. by destruct (Hr _ Hin) as (? & ? & ? & ? & ?).
  - cbn [take delete_calls app] in Hcalls. destruct Hcalls as [-> | ->]; rewrite !elem_of_cons, elem_of_nil in Hin; naive_solver.
Qed.

Lemma DeleteRetentionEvents_deletes req h : counts_catalogue ->
  emits_from h (DeleteRetentionEvents env req) (fun res new =>
    if proceeds req
    then (exists e, new = [RtBegin (Some e)] /\ res = (mkDeleteResult 0 0, Some e)) \/
         (exists tx, new = RtBegin None :: tx ++ [RtRollback] /\ deletes (committed h) req res tx)
    else new = [] /\ res = (mkDeleteResult 0 0,
           if negb (Nat.eqb (length (dq_Events req)) 0) && negb (dq_DryRun req) then Some receipt_error else None)).
Proof.
  intros Hcount. unfold DeleteRetentionEvents, proceeds.
  destruct (Nat.eqb (length (dq_Events req)) 0); [by apply emits_from_ret|]. destruct (dq_DryRun req); [by apply emits_from_ret|].
  destruct (str_eqb (dq_ArchiveID req) ""); [by apply emits_from_ret|]. cbn [negb andb].
  apply emits_from_ask. destruct (rt_begin env h) as [e|]; [apply emits_from_ret; left; by exists e|].
  set (h1 := h ++ [RtBegin None]). assert (committed h1 = committed h /\ visible h1 = committed h) as [Hc Hv].
  { unfold h1, committed, visible. by rewrite cat_at_app. }
  eapply emits_from_seq; [apply delete_tx_deletes; [done|by rewrite Hc, Hv]|]. intros res tx Hd. rewrite Hc in Hd.
  apply emits_from_ask, emits_from_ret. right. by exists tx.
Qed.

(** C19.  PostgreSQL deletes only archived events, in one transaction.  Whatever the
    database answers, provided its count is that of the catalogue: an empty batch, a
    dry run and a request without a receipt send nothing (the last is an error); a
    deletion is sent only when the identifiers of the whole batch decode, none
    occurs twice and the catalogue holds every one of them under the archive of the
    request; the transaction is committed only when the call succeeds; and a call
    that succeeds sent, in this order, one candidate for each payload of the batch
    that becomes collectable, with the time of the request, the count, the deletion
    of exactly the batch and the commit. *)
Theorem pg_delete_archived req h : counts_catalogue ->
  let '(h', (out, err)) := DeleteRetentionEvents env req h in
  exists new, h' = h ++ new /\
    (proceeds req = false -> new = [] /\ out = mkDeleteResult 0 0 /\
      err = if negb (Nat.eqb (length (dq_Events req)) 0) && negb (dq_DryRun req) then Some receipt_error else None) /\
    (forall args e, RtExec delete_sql args e ∈ new ->
      exists ids, args = [AIds ids] /\ decode_ids (dq_Events req) = Ok ids /\ NoDup ids /\
        Forall (fun id => ct_events (committed h) !! id = Some (dq_ArchiveID req)) ids) /\
    (RtCommit None ∈ new -> err = None) /\
    (proceeds req = true -> err = None ->
      exists ids cands l, decode_ids (dq_Events req) = Ok ids /\
        new = RtBegin None :: cands ++ delete_calls req ids ++ [RtRollback] /\
        Forall2 (candidate_call (dq_ArchiveID req)) l cands /\ Forall (collectable_from (dq_PayloadEligibleAt req)) l /\
        NoDup ((fun rt => payloadKey rt.1) <$> l) /\ dr_PayloadCandidates out = u64 (Z.of_nat (length l)) /\
        forall e p t, e ∈ dq_Events req -> p ∈ re_Payloads e -> collectable_from (dq_PayloadEligibleAt req) (rp_Ref p, t) ->
          payloadKey (rp_Ref p) ∈ (fun rt => payloadKey rt.1) <$> l).
Proof.
  intros Hcount. destruct (DeleteRetentionEvents_deletes req h Hcount) as (new & H1 & Hnew).
  destruct (DeleteRetentionEvents env req h) as [h' [out err]]. cbn [fst snd] in *. exists new. split; [done|].
  destruct (proceeds req); [|destruct Hnew as (-> & [= -> ->]); split_and!; try done; intros; set_solver].
  split; [done|]. destruct Hnew as [(e & -> & [= -> ->])|(tx & -> & Hd)].
  { split_and!; try done; intros; set_solver. }
  split_and!.
  - intros args e [?|[Hin|?%list_elem_of_singleton]%elem_of_app]%elem_of_cons; [done| |done]. by eapply deletes_justified.
  - intros [?|[Hin|?%list_elem_of_singleton]%elem_of_app]%elem_of_cons; [done| |done]. by eapply deletes_commit.
  - intros _ ->. inversion Hd as [| |seen n affected cands ids Hc Hids Hcov Hq]; subst.
    destruct Hq as (_ & l & H2 & H3 & H4 & _ & H6 & H7). exists ids, cands, l. split_and!; try done.
    + by rewrite <- app_assoc.
    + intros e p t He Hp Ht. destruct (H7 p t) as [?|?]; [|done|set_solver|done].
      apply list_elem_of_In, in_concat. exists (re_Payloads e). split; apply list_elem_of_In; [by apply list_elem_of_fmap_2|done].
Qed.

(** ** Recording *)

Definition event_call (archiveID : string) (id : string) (c : RtCall) : Prop :=
  exists parsed, ParseEventID id = Ok parsed /\ c = RtExec event_archive_sql [idBytes parsed; AText archiveID] None.
Definition is_exec (c : RtCall) : Prop := exists q args err, c = RtExec q args err.

Lemma record_events_emits archiveID ids : emits (record_events env archiveID ids) (fun err new =>
  Forall is_exec new /\ (err = None -> Forall2 (event_call archiveID) ids new)).
Proof.
  induction ids as [|id ids IH]; cbn [record_events]; [by apply emits_ret|].
  destruct (ParseEventID id) as [parsed|e|m] eqn:Ep; [|by apply emits_ret..].
  apply emits_ask_seq. intros [affected [er|]]; cbn [snd].
  - apply emits_ret. split; [|done]. constructor; [by do 3 eexists|constructor].
  - eapply emits_mono; [exact IH|]. intros err new [Hx H]. split; [constructor; [by do 3 eexists|done]|].
    intros Herr. constructor; [by exists parsed|auto].
Qed.

(** The events of an archive in the catalogue the transaction sees. *)
Lemma cat_events archiveID ids new sent a b : Forall2 (event_call archiveID) ids new ->
  exists b', cat_from landed sent (a, b) new = (a, b') /\ ct_archives b' = ct_archives b /\
    (forall s id, s ∈ ids -> ParseEventID s = Ok id -> ct_events b' !! array_bytes id = Some archiveID) /\
    (forall k, ct_events b' !! k = ct_events b !! k \/
       (ct_events b' !! k = Some archiveID /\ exists s id, s ∈ ids /\ ParseEventID s = Ok id /\ k = array_bytes id)).
Proof.
  intros H. revert sent b. induction H as [|s c ids new (id & Hid & ->) _ IH]; intros sent b.
  - exists b. split_and!; try done; [by intros s id ?%elem_of_nil|by left].
  - cbn [cat_from cat_step fst snd idBytes cat_exec]. rewrite str_eqb_refl.
    destruct (IH (sent ++ [RtExec event_archive_sql [idBytes id; AText archiveID] None]) (mkCatalogue (ct_archives b) (<[array_bytes id := archiveID]> (ct_events b)))) as (b' & -> & Ha & Hin & Hout).
    exists b'. cbn [ct_archives ct_events] in *. split_and!; try done.
    + intros s' id' [->|Hs]%elem_of_cons Hid'; [|by eapply Hin]. rewrite Hid in Hid'. injection Hid' as <-.
      destruct (Hout (array_bytes id)) as [->|[-> _]]; [apply lookup_insert_eq|done].
    + intros k. destruct (Hout k) as [->|(-> & s' & id' & ? & ? & ?)]; [|right; split; [done|]; exists s', id'; set_solver].
      destruct (decide (k = array_bytes id)) as [->|Hne]; [right|left; by apply lookup_insert_ne].
      rewrite lookup_insert_eq. split; [done|]. exists s, id. set_solver.
Qed.

(** What recording a receipt adds to the catalogue [c]. *)
Definition catalogued (c : catalogue) (receipt : Receipt) (row : ArchiveRow) (c' : catalogue) : Prop :=
  let m := rc_Manifest receipt in
  ct_archives c' = match ct_archives c !! mf_ID m with Some _ => ct_archives c | None => <[mf_ID m := row]> (ct_archives c) end /\
  (forall s id, s ∈ mf_EventIDs m -> ParseEventID s = Ok id -> ct_events c' !! array_bytes id = Some (mf_ID m)) /\
  (forall k, ct_events c' !! k = ct_events c !! k \/
     (ct_events c' !! k = Some (mf_ID m) /\ exists s id, s ∈ mf_EventIDs m /\ ParseEventID s = Ok id /\ k = array_bytes id)) /\
  Forall (fun s => exists id, ParseEventID s = Ok id) (mf_EventIDs m).

(** What recording has done when it returns [err] after the calls [new]: all of it on
    success; on failure nothing, or all of it when the COMMIT is what failed. *)
Definition records (h : list RtCall) (receipt : Receipt) (row : ArchiveRow) (err : option error) (new : list RtCall) : Prop :=
  let done := catalogued (committed h) receipt row (committed (h ++ new)) in
  match err with
  | None => done
  | Some e => committed (h ++ new) = committed h \/ (RtCommit (Some e) ∈ new /\ done)
  end.

(** A transaction that only executed statements has committed nothing. *)
Lemma cat_execs sent s new : Forall is_exec new -> (cat_from landed sent s new).1 = s.1.
Proof.
  intros H. revert sent s. induction H as [|c l (q & args & e & ->) _ IH]; intros sent s; [done|].
  cbn [cat_from]. rewrite IH. by destruct e.
Qed.

(** The transaction, from a catalogue nothing is pending on. *)
Lemma record_tx_catalogues receipt manifest ref h : visible h = committed h ->
  emits_from h (record_tx env receipt manifest ref) (records h receipt (manifest, ref)).
Proof.
  intros Hv. unfold record_tx. set (m := rc_Manifest receipt).
  apply emits_from_ask. destruct (rt_exec env h archive_sql _) as [affected [er|]]; cbn [snd].
  { apply emits_from_ret. left. unfold committed. by rewrite cat_at_app. }
  set (c1 := RtExec archive_sql _ None).
  assert (exists c', cat_at (h ++ [c1]) = (committed h, c') /\ ct_events c' = ct_events (committed h) /\ ct_archives c' =
     match ct_archives (committed h) !! mf_ID m with Some _ => ct_archives (committed h)
     | None => <[mf_ID m := (manifest, ref)]> (ct_archives (committed h)) end) as (c' & Hcat & Hev & Har).
  { rewrite cat_at_app. unfold c1. cbn [cat_from cat_step cat_exec]. rewrite str_eqb_refl.
    change (cat_at h).2 with (visible h). rewrite Hv. eexists. split; [reflexivity|].
    by destruct (ct_archives (committed h) !! mf_ID m). }
  eapply emits_from_seq; [apply emits_at, record_events_emits|]. intros err evs [Hx Hev2].
  assert (forall tail, cat_at (h ++ c1 :: evs ++ tail) =
      cat_from landed ((h ++ [c1]) ++ evs) (cat_from landed (h ++ [c1]) (committed h, c') evs) tail) as Hsplit.
  { intros tail. by rewrite cons_middle, app_assoc, cat_at_app, cat_from_app, Hcat. }
  destruct err as [er|].
  { apply emits_from_ret. left. unfold committed at 1. rewrite Hsplit. cbn [cat_from]. by rewrite (cat_execs _ _ evs). }
  pose proof (Hev2 eq_refl) as Hcalls.
  destruct (cat_events _ _ _ (h ++ [c1]) (committed h) c' Hcalls) as (b' & Hb & Hba & Hin & Hout).
  assert (catalogued (committed h) receipt (manifest, ref) b') as Hdone.
  { split_and!; [by rewrite Hba|exact Hin|intros k; rewrite <- Hev; apply Hout|].
    eapply Forall2_Forall_l; [exact Hcalls|]. apply Forall_true. intros c s (id & Hid & _). by exists id. }
  assert (forall err, committed (h ++ c1 :: evs ++ [RtCommit err]) =
      (cat_step (landed ((h ++ [c1]) ++ evs)) (committed h, b') (RtCommit err)).1) as Hcom
    by (intros err; unfold committed at 1; by rewrite Hsplit, Hb).
  exists [RtCommit (rt_commit env ((h ++ [c1]) ++ evs))]. split; [done|]. unfold ask, records. cbn [snd].
  rewrite Hcom. destruct (rt_commit env _) as [e|]; cbn [cat_step fst snd]; [|exact Hdone].
  destruct (landed _); [right|by left]. split; [|exact Hdone]. right. apply elem_of_app. right. by left.
Qed.

Lemma marshal_Ref_row r : ref_printable r -> exists data, marshal_Ref r = Ok data /\
  (j ← json_parse data; dec_struct assign_Ref j Ref_zero) = Ok r.
Proof.
  intros H. destruct (dec_enc_Ref r H) as (j & Hj & Hok & Hd). exists (json_print j). unfold marshal_Ref.
  rewrite Hj. cbn [mbind result_bind]. split; [done|]. by rewrite json_parse_print.
Qed.

Lemma RecordArchive_catalogues receipt manifest ref h :
  marshal_manifest (rc_Manifest receipt) = Ok manifest -> marshal_Ref (rc_ManifestRef receipt) = Ok ref ->
  emits_from h (RecordArchive env receipt) (records h receipt (manifest, ref)).
Proof.
  intros Em Er. unfold RecordArchive. rewrite Em, Er. apply emits_from_ask. destruct (rt_begin env h) as [e|].
  { apply emits_from_ret. left. unfold committed. by rewrite cat_at_app. }
  set (h1 := h ++ [RtBegin None]). assert (committed h1 = committed h /\ visible h1 = committed h) as [Hc Hv].
  { unfold h1, committed, visible. by rewrite cat_at_app. }
  eapply emits_from_seq; [apply (record_tx_catalogues receipt manifest ref); by rewrite Hc, Hv|].
  intros err tx Htx. apply emits_from_ask, emits_from_ret. unfold records in *. rewrite Hc in Htx.
  replace (h ++ RtBegin None :: tx ++ [RtRollback]) with ((h1 ++ tx) ++ [RtRollback]) by (unfold h1; by rewrite <- !app_assoc).
  replace (committed ((h1 ++ tx) ++ [RtRollback])) with (committed (h1 ++ tx))
    by (unfold committed; by rewrite (cat_at_app _ [RtRollback])).
  destruct err as [e|]; [|done]. destruct Htx as [Htx|[Hin Htx]]; [by left|right].
  split; [|done]. right. apply elem_of_app. by left.
Qed.

(** What a recorded receipt means: every event identifier of its manifest is
    catalogued under its archive, so that the count before a deletion of any of these
    events is exactly their number, and no other event changes its archive; archives
    already catalogued keep their row, and if this one was not catalogued before,
    [GetArchive] returns the receipt from then on. *)
Definition recorded (receipt : Receipt) (h h' : list RtCall) : Prop :=
  let m := rc_Manifest receipt in
  (forall ids, NoDup ids -> Forall (fun id => exists s a, s ∈ mf_EventIDs m /\ ParseEventID s = Ok a /\ id = array_bytes a) ids ->
     count_rows (ct_events (committed h')) (mf_ID m) ids = length ids) /\
  (forall id, ct_events (committed h') !! id = ct_events (committed h) !! id \/
     exists s a, s ∈ mf_EventIDs m /\ ParseEventID s = Ok a /\ id = array_bytes a) /\
  (forall id, id <> mf_ID m \/ is_Some (ct_archives (committed h) !! id) ->
     ct_archives (committed h') !! id = ct_archives (committed h) !! id) /\
  (ct_archives (committed h) !! mf_ID m = None -> (GetArchive env (mf_ID m) h').2 = (receipt, None)).

(** A catalogued receipt is recorded. *)
Lemma catalogued_recorded receipt row h h' : finds_archives ->
  unmarshal_manifest row.1 = Ok (rc_Manifest receipt) ->
  (j ← json_parse row.2; dec_struct assign_Ref j Ref_zero) = Ok (rc_ManifestRef receipt) ->
  catalogued (committed h) receipt row (committed h') -> recorded receipt h h'.
Proof.
  intros Hfind Dm Dr (Har & Hin & Hout & _). unfold recorded. cbv zeta. split_and!.
  - intros ids Hnd Hids. apply count_rows_all; [done|]. eapply Forall_impl; [exact Hids|]. cbn.
    intros id (s & a & Hs & Ha & ->). by eapply Hin.
  - intros id. destruct (Hout id) as [->|[_ H]]; [by left|by right].
  - intros id Hid. rewrite Har. destruct (ct_archives (committed h) !! mf_ID _) as [r|] eqn:El; [done|].
    destruct Hid as [Hne|[r Hrow]]; apply lookup_insert_ne; congruence.
  - intros Hnew. specialize (Hfind h' (mf_ID (rc_Manifest receipt))). rewrite Hnew in Har.
    rewrite Har, lookup_insert_eq in Hfind. change (GetArchive env (mf_ID (rc_Manifest receipt)) h').2 with
      (let row := rt_archive env h' get_archive_sql [AText (mf_ID (rc_Manifest receipt))] in
       match row.2 with
       | Some err => (mkReceipt Manifest_zero Ref_zero, Some (if Contains (err_text err) "no rows" then ErrNotFound else err))
       | None => scan_archive row
       end).
    destruct (rt_archive env _ get_archive_sql _) as [[gm gr] gerr]. destruct Hfind as (-> & Hsm & Hsr).
    cbn [fst snd] in Hsm, Hsr. cbv zeta. cbn [snd scan_archive]. rewrite (Hsm _ Dm), (Hsr _ Dr). by destruct receipt.
Qed.

(** C20.  A recorded receipt is found again, and covers its events.  When recording a
    receipt succeeds, it is [recorded]: every event identifier of its manifest is
    catalogued under its archive, no other event changes its archive, and a receipt
    whose archive was not catalogued before is what [GetArchive] returns from then
    on.  When it fails the committed catalogue is what it was - except that a COMMIT
    whose answer was an error may have been carried out, and then the receipt is
    [recorded] entirely: never a part of it. *)
Theorem archive_catalogued receipt h : finds_archives -> manifest_printable (rc_Manifest receipt) ->
  ref_printable (rc_ManifestRef receipt) ->
  let '(h', err) := RecordArchive env receipt h in
  exists new, h' = h ++ new /\
    match err with
    | None => recorded receipt h h'
    | Some e => committed h' = committed h \/ (RtCommit (Some e) ∈ new /\ recorded receipt h h')
    end.
Proof.
  intros Hfind Hm Hr. destruct (unmarshal_marshal_manifest _ Hm) as (manifest & Em & Dm).
  destruct (marshal_Ref_row _ Hr) as (ref & Er & Dr).
  destruct (RecordArchive_catalogues receipt manifest ref h Em Er) as (new & H1 & Hrec).
  destruct (RecordArchive env receipt h) as [h' err]. cbn [fst snd] in *. exists new. split; [done|]. subst h'.
  unfold records in Hrec. destruct err as [e|]; [destruct Hrec as [?|[? Hrec]]; [by left|right; split; [done|]]|];
    by apply (catalogued_recorded receipt (manifest, ref)).
Qed.
End Catalogue.

(** ** Examples *)

(** A database that answers from the catalogue of its own history. *)
Definition no_rows : error := errors_New "no rows in result set".
Definition always_lost : list RtCall -> bool := fun _ => false.
Definition cat_env_with (c0 : catalogue) (landed : list RtCall -> bool) (commit : option error) : RtEnv :=
  mkRtEnv (fun _ _ _ => mkRows None [] None) (fun _ _ _ => mkRows None [] None) (fun _ _ _ => mkRows None [] None)
    (fun h _ args =>
       match args with
       | [AText id] => match ct_archives (committed c0 landed h) !! id with Some row => (row, None) | None => (([], []), Some no_rows) end
       | _ => (([], []), Some no_rows)
       end)
    (fun _ _ _ => mkRows None [] None) (fun _ _ _ => (false, None)) (fun _ => None) (fun _ _ _ => (1, None))
    (fun h _ args =>
       match args with [AText a; AIds ids] => (Z.of_nat (count_rows (ct_events (visible c0 landed h)) a ids), None) | _ => (0, None) end)
    (fun _ => commit) (fun _ _ _ => None).
Definition cat_env (c0 : catalogue) : RtEnv := cat_env_with c0 always_lost None.

Definition empty_catalogue : catalogue := mkCatalogue ∅ ∅.

Definition demo_event_id : id16 := copy16 (replicate 16 "a"%char).
Definition demo_catalogued : Receipt :=
  mkReceipt (mkManifest "v1" "a1" 7 1 [String_ demo_event_id] Ref_zero []) (Ref_zero <| ref_Store := "cold" |>).
Definition demo_delete : DeleteRequest :=
  mkDeleteRequest
    [mkREvent (hex_Encode demo_event_id) "" "" "" 5 "log" "svc" "prod" 1 "" "" "" 0 false
       [mkRPayload "body" (mkRef "list" "k" "" 0 0 (zero_array 32) "" time_zero "")]]
    {["list" +:+ String zero_byte "k" := 9]} "a1" false.

(** The history of a recorded archive. *)
Definition demo_recorded : list RtCall := (RecordArchive (cat_env empty_catalogue) demo_catalogued []).1.

Lemma cat_env_counts c0 landed commit : counts_catalogue (cat_env_with c0 landed commit) c0 landed.
Proof. by intros h archiveID ids n [= <-]. Qed.
Lemma cat_env_finds c0 landed commit : finds_archives (cat_env_with c0 landed commit) c0 landed.
Proof.
  intros h id. cbn [cat_env_with rt_archive]. destruct (ct_archives (committed c0 landed h) !! id) as [row|]; [done|].
  exists no_rows. split; [done|]. vm_compute. reflexivity.
Qed.

Lemma archive_catalogued_witness :
  (RecordArchive (cat_env empty_catalogue) demo_catalogued []).2 = None /\
  (GetArchive (cat_env empty_catalogue) "a1" demo_recorded).2 = (demo_catalogued, None).
Proof.
  assert ((RecordArchive (cat_env empty_catalogue) demo_catalogued []).2 = None) as Hok by (vm_compute; reflexivity).
  split; [exact Hok|].
  pose proof (archive_catalogued (cat_env empty_catalogue) empty_catalogue always_lost demo_catalogued []
    (cat_env_finds _ _ _) ltac:(by_evaluation) ltac:(by_evaluation)) as H. unfold demo_recorded.
  destruct (RecordArchive (cat_env empty_catalogue) demo_catalogued []) as [h' err]. cbn [fst snd] in *.
  subst err. destruct H as (new & _ & _ & _ & _ & H). apply H. reflexivity.
Defined.

(** The answer of a COMMIT is lost: recording fails and the receipt is there, or not. *)
Definition lost : error := errors_New "connection reset by peer".
Example commit_answer_lost :
  let get landed :=
    let env := cat_env_with empty_catalogue landed (Some lost) in
    let '(h, err) := RecordArchive env demo_catalogued [] in
    let '(found, err') := (GetArchive env "a1" h).2 in (err, mf_EventIDs (rc_Manifest found), err') in
  get (fun _ => true) = (Some lost, [String_ demo_event_id], None) /\ get always_lost = (Some lost, [], Some ErrNotFound).
Proof. split; vm_compute; reflexivity. Qed.

Lemma pg_delete_archived_witness :
  (DeleteRetentionEvents (cat_env empty_catalogue) demo_delete demo_recorded).2 = (mkDeleteResult 1 1, None) /\
  exists ids, decode_ids (dq_Events demo_delete) = Ok ids /\
    RtExec delete_sql [AIds ids] None ∈ (DeleteRetentionEvents (cat_env empty_catalogue) demo_delete demo_recorded).1.
Proof.
  assert ((DeleteRetentionEvents (cat_env empty_catalogue) demo_delete demo_recorded).2 = (mkDeleteResult 1 1, None)) as Hok
    by (vm_compute; reflexivity). split; [exact Hok|].
  pose proof (pg_delete_archived (cat_env empty_catalogue) empty_catalogue always_lost demo_delete demo_recorded
    (cat_env_counts _ _ _)) as H.
  destruct (DeleteRetentionEvents (cat_env empty_catalogue) demo_delete demo_recorded) as [h' [out err]]. cbn [fst snd] in *.
  injection Hok as -> ->. destruct H as (new & -> & _ & _ & _ & H).
  destruct (H ltac:(vm_compute; reflexivity) eq_refl) as (ids & cands & l & Hids & -> & _). exists ids. split; [done|].
  apply elem_of_app. right. right. apply elem_of_app. right. right. left.
Defined.
