(* ===== verification/Explore.v ===== *)
(** * The Explorer over PostgreSQL

    The PostgreSQL store as the store of the API, and a client that lists events
    over HTTP by following [next_cursor].  Cursors travel as text through base64,
    JSON and RFC 3339; the pages the client sees are those of the table. *)

From S2P Require Import Prelude Ids Events GoLib GoText Json JsonText GoTime Base64 Wire Payload Storage LinkJson Archive Query Trace ExplorerApi ExplorerApiProofs PgQuery PgSql Keyset PgSqlProofs PgWrite PgEvents PgPages.

(** ** The store behind the API: [Store] implements [storage.ExplorerStore] *)

(** An operation on the pool as an answer to the API. *)
Definition from_pair {A} (m : E PgCall (A * option error)) : answer A := fun _ => Some (m []).2.
Definition from_page {T} (m : E PgCall (result (Page T))) : answer (Page T) := fun _ =>
  match (m []).2 with
  | Ok page => Some (page, None)
  | Fail e => Some (Page_zero, Some e)
  | Panic _ => None
  end.

Definition pg_explorer (env : PgEnv) : ExplorerStore :=
  mkExplorerStore (fun f => from_pair (Overview_ env f)) (Some (fun f => from_pair (OverviewActivity_ env f)))
    (fun f p => from_page (ListFlows env f p)) (fun id => from_pair (GetFlow env id))
    (fun id f p => from_page (ListFlowEvents env id f p)) (fun f p => from_page (ListExecutions env f p))
    (fun id => from_pair (GetExecution env id)) (fun id f p => from_page (ListExecutionFlows env id f p))
    (fun id => from_pair (GetRetryChain env id)) (fun f p => from_page (SearchEntities env f p))
    (fun key => from_pair (GetEntity env key)) (fun key f p => from_page (ListEntityFlows env key f p))
    (fun f p => from_page (ListEvents env f p)) (fun id => from_pair (GetEvent env id)).

(** ** The client *)

Definition with_cursor (q : string -> string) (c : string) (k : string) : string := if str_eqb k "cursor" then c else q k.
Definition events_request (q header : string -> string) (c : string) : Request :=
  mkRequest "GET" ["api"; "v1"; "events"] (with_cursor q c) header (fun _ => "").

(** One page: the items and the cursor for more, if there is more. *)
Definition read_page {W} (s : Api W) : option (list EventRecord * option string) :=
  match rw_sent (ap_w s), rw_body (ap_w s) with
  | Some (200, _), [BJson (VPage (PEvents items) next more)] => Some (items, if more then Some next else None)
  | _, _ => None
  end.

Section Browse.
Context {W : Type} (sha256 : bytes -> array 32) (gunzip : bytes -> result bytes).
Context (dec_record : bytes -> result EventRecord) (dec_manifest : bytes -> result Manifest).
Context (ctx : nat -> option error).
#[local] Abbreviation New := (New (W := W) sha256 gunzip dec_record dec_manifest ctx).
#[local] Abbreviation routes := (routes (W := W) sha256 gunzip dec_record dec_manifest ctx).

Fixpoint browse (server : ApiConfig W * (Request -> M (Api W) unit)) (w : W) (q header : string -> string) (fuel : nat) (c : string)
    : option (list EventRecord) :=
  match fuel with
  | O => None
  | S fuel =>
      '(items, next) ← read_page (ServeHTTP server w (events_request q header c)).1;
      match next with
      | Some next => rest ← browse server w q header fuel next; Some (items ++ rest)
      | None => Some items
      end
  end.

(** ** One request *)

Lemma mux_events cfg store q header c :
  mux (routes cfg store) (events_request q header c)
  = events store ((events_request q header c) <| rq_PathValue := path_value [] |>).
Proof. reflexivity. Qed.

Lemma writeJSON_result status v (s : Api W) : rw_sent (ap_w s) = None -> rw_body (ap_w s) = [] ->
  exists s' headers, writeJSON status v s = (s', Ok tt) /\ rw_sent (ap_w s') = Some (status, headers) /\ rw_body (ap_w s') = [BJson v].
Proof.
  intros H1 H2. destruct s as [w calls [header sent body]]. cbn in H1, H2. subst. do 2 eexists. split; [reflexivity|]. done.
Qed.

(** What a list request answers when the store returns a page. *)
Lemma serve_events cfg server w q header c store p page :
  New cfg = Ok server -> ac_Store cfg = Some store ->
  ExplorerApi.page (events_request q header c) = (p, None) ->
  (forall h, x_ListEvents store (eventFilter (events_request q header c)) p h = Some (page, None)) ->
  read_page (ServeHTTP server w (events_request q header c)).1
    = Some (pg_Items page, if pg_HasMore page then Some (encodeCursor (pg_NextCursor page)) else None).
Proof.
  intros HN Hst Hp Hx. unfold ExplorerApi.New in HN. rewrite Hst in HN. apply Ok_inj in HN as <-.
  unfold ServeHTTP. cbn [snd]. unfold recoverMiddleware, cors.
  set (cfg' := if ac_MaxPayloadBytes cfg <=? 0 then _ else cfg).
  set (pre := if bool_decide _ then _ else _).
  assert (exists s1, pre (mkApi w [] ResponseWriter0) = (s1, Ok tt) /\ rw_sent (ap_w s1) = None /\ rw_body (ap_w s1) = [])
    as (s1 & E1 & Hs1 & Hb1).
  { subst pre. case_bool_decide; eexists; (split; [reflexivity|done]). }
  rewrite (M_bind_run _ _ _ _ _ E1). change (str_eqb (rq_Method (events_request q header c)) "OPTIONS") with false. cbv iota.
  rewrite mux_events. unfold events, with_page.
  change (ExplorerApi.page ((events_request q header c) <| rq_PathValue := path_value [] |>))
    with (ExplorerApi.page (events_request q header c)). rewrite Hp.
  change (eventFilter ((events_request q header c) <| rq_PathValue := path_value [] |>))
    with (eventFilter (events_request q header c)).
  unfold ask_store, mbind at 1, M_bind at 1. rewrite Hx. cbn [respondPage].
  match goal with |- context [writeJSON _ ?v ?s] => destruct (writeJSON_result 200 v s Hs1 Hb1) as (s2 & hs & E2 & H2 & H3) end.
  rewrite E2. cbn [fst]. unfold read_page. rewrite H2, H3. done.
Qed.
(** ** All pages *)

(** The limit a client may ask for. *)
Definition limit_of (q : string -> string) : Z := if str_eqb (q "limit") "" then 100 else (Atoi (q "limit")).1.
Definition limit_ok (q : string -> string) : bool :=
  str_eqb (q "limit") "" || ((Atoi (q "limit")).2 && (1 <=? limit_of q) && (limit_of q <=? 500)).
Definition descending (q : string -> string) : bool := negb (str_eqb (q "order") "asc").

Lemma limit_range q : limit_ok q = true -> 1 <= limit_of q <= 500.
Proof. unfold limit_ok, limit_of. destruct (str_eqb _ _); [lia|]. cbn [orb]. rewrite !andb_true_iff. lia. Qed.

Lemma page_of q header text c : limit_ok q = true -> decodeCursor text = (c, None) ->
  ExplorerApi.page (events_request q header text) = (mkPageRequest (limit_of q) c (descending q), None).
Proof.
  intros Hl Hc. unfold ExplorerApi.page, events_request. cbn [rq_Query].
  change (with_cursor q text "limit") with (q "limit"). change (with_cursor q text "order") with (q "order").
  change (with_cursor q text "cursor") with text. rewrite Hc.
  unfold limit_ok, limit_of in *. destruct (Atoi (q "limit")) as [n ok]. cbn [fst snd] in *.
  destruct (str_eqb (q "limit") ""); cbn [negb andb orb] in *; [done|].
  rewrite !andb_true_iff in Hl. destruct Hl as [[-> Hn] Hn']. cbn [negb orb].
  destruct (Z.ltb_spec n 1); [lia|]. destruct (Z.ltb_spec 500 n); [lia|]. done.
Qed.

Lemma cursor_text_decodes e : 0 <= year_of (er_Timestamp e) <= 9999 ->
  decodeCursor (encodeCursor (event_cursor e)) = (event_cursor e, None).
Proof.
  intros Hy. apply decode_encode_Cursor; [apply encodeID_nonempty| |done]. apply utf8_valid_encodeID.
Qed.

(** What is left to list are records of the table. *)
Lemma cursor_at_incl f flow desc recs c rest x : cursor_at Cursor_zero read_cursor (matching f flow desc recs) c rest -> x ∈ rest -> x ∈ recs.
Proof.
  intros Hat Hx. assert (x ∈ matching f flow desc recs) as Hm.
  { destruct Hat as [[_ ->]|(l & y & _ & ->)]; [done|]. apply elem_of_app. right. by right. }
  unfold matching in Hm. rewrite listing_perm in Hm. by apply list_elem_of_filter in Hm as [_ Hm].
Qed.

Lemma browse_at cfg server env w q header recs fuel text c rest :
  New cfg = Ok server -> ac_Store cfg = Some (pg_explorer env) ->
  pg_reads env (stored <$> recs) -> Forall storable recs -> NoDup (er_ID <$> recs) ->
  Forall (fun e => 0 <= year_of (er_Timestamp (read_back e)) <= 9999) recs -> limit_ok q = true ->
  decodeCursor text = (c, None) ->
  cursor_at Cursor_zero read_cursor (matching (eventFilter (events_request q header "")) None (descending q) recs) c rest -> (length rest < fuel)%nat ->
  browse server w q header fuel text = Some (read_back <$> rest).
Proof.
  intros HN Hst Henv Hs Hnd Hy Hl. pose proof (limit_range q Hl) as Hr.
  revert text c rest. induction fuel as [|fuel IH]; intros text c rest Hc Hat Hf; [lia|].
  cbn [browse]. set (f := eventFilter (events_request q header "")) in *.
  set (page := event_page (Z.to_nat (limit_of q)) (read_back <$> rest)).
  assert (forall h, x_ListEvents (pg_explorer env) f (mkPageRequest (limit_of q) c (descending q)) h = Some (page, None)) as Hx.
  { intros h. cbn [pg_explorer x_ListEvents]. unfold from_page, ListEvents.
    change (@None (string * arg)) with (extra_of None).
    rewrite (listEvents_page env f None (mkPageRequest (limit_of q) c (descending q)) recs [] Henv Hs ltac:(cbn; lia)).
    by rewrite (cursor_at_selected _ _ _ _ _ _ _ Hnd Hat). }
  rewrite (serve_events cfg server w q header text _ _ page HN Hst (page_of q header text c Hl Hc) Hx).
  cbn [mbind option_bind]. subst page. unfold event_page. rewrite length_fmap.
  case_decide as Hd; cbn [pg_HasMore pg_Items pg_NextCursor]; [|done].
  destruct (page_advances Cursor_zero read_cursor _ c rest (Z.to_nat (limit_of q)) ltac:(lia) Hat) as (x & Hx' & Hat').
  rewrite <- fmap_take, fmap_last, Hx'. cbn [fmap option_fmap option_map].
  rewrite (IH _ (event_cursor (read_back x)) (drop (Z.to_nat (limit_of q)) rest)).
  - cbn [mbind option_bind]. by rewrite <- fmap_app, take_drop.
  - apply cursor_text_decodes. rewrite Forall_forall in Hy. apply (Hy x).
    eapply cursor_at_incl; [exact Hat|]. apply last_Some_elem_of in Hx'. by eapply elem_of_take in Hx' as (? & ?%list_elem_of_lookup_2 & _).
  - exact Hat'.
  - rewrite length_drop. lia.
Qed.

(** C5. The listing of events works end to end.  Against an API server whose store
    is PostgreSQL, a client that starts at [/api/v1/events] with any filter, order
    and valid limit and follows [next_cursor] as long as [has_more] says so gets
    every record of the table that the filter of the request describes, exactly
    once and in order, within as many requests as there are records plus one:
    the cursor text that goes out in one response and comes back in the next
    request loses nothing on the way. *)
Theorem browse_complete cfg server env w q header recs fuel :
  New cfg = Ok server -> ac_Store cfg = Some (pg_explorer env) ->
  pg_reads env (stored <$> recs) -> Forall storable recs -> NoDup (er_ID <$> recs) ->
  Forall (fun e => 0 <= year_of (er_Timestamp (read_back e)) <= 9999) recs -> limit_ok q = true -> (length recs < fuel)%nat ->
  browse server w q header fuel ""
    = Some (read_back <$> matching (eventFilter (events_request q header "")) None (descending q) recs).
Proof.
  intros HN Hst Henv Hs Hnd Hy Hl Hf. eapply browse_at; try done; [by left|].
  eapply Nat.le_lt_trans; [|exact Hf]. unfold matching. rewrite (Permutation_length (listing_perm _ _)). apply length_filter.
Qed.
End Browse.

Definition pg_api : ApiConfig unit :=
  mkApiConfig (Some (pg_explorer (reference_env (stored <$> demo_table)))) ∅ 0 [] None None None false.
Definition demo_query (k : string) : string :=
  if str_eqb k "limit" then "2" else if str_eqb k "service" then "a" else "".

Lemma browse_complete_witness :
  exists server, New (fun _ => zero_array 32) Ok (fun _ => Fail type_error) (fun _ => Fail type_error) (fun _ => None) pg_api = Ok server /\
    browse server tt demo_query (fun _ => "") 5 "" = Some [demo_event 4 "a"; demo_event 3 "a"; demo_event 1 "a"].
Proof.
  eexists. split; [reflexivity|].
  rewrite (browse_complete (fun _ => zero_array 32) Ok (fun _ => Fail type_error) (fun _ => Fail type_error) (fun _ => None)
    pg_api _ (reference_env (stored <$> demo_table)) tt demo_query (fun _ => "") demo_table 5 eq_refl eq_refl
    (reference_env_reads demo_table)).
  - vm_compute. reflexivity.
  - repeat constructor; cbn; try lia; apply Forall_nil; exact I.
  - apply (bool_decide_unpack _). vm_compute. exact I.
  - repeat constructor; vm_compute; discriminate.
  - vm_compute. reflexivity.
  - cbn. lia.
Defined.
