(* ===== verification/ChQuery.v ===== *)
(** * Reading from ClickHouse (src/storage/clickhouse/query.go)

    The store builds SQL texts with positional placeholders and a list of arguments,
    scans the rows and makes pages.  The connection is an environment that answers
    from the history of calls, which the other two files of the store share: every
    query, statement, batch call and reading of the clock is an entry. *)

From S2P Require Import Prelude Ids Events GoLib GoText Json JsonText GoTime Wire Payload Storage LinkJson Query Trace PgQuery.

(** ** Values *)

(** Arguments of a statement and values of an inserted row.  Identifiers are Go
    strings of their bytes. *)
Inductive carg :=
| CTime (t : Z)
| CText (s : string)
| CInt (z : Z)
| CTexts (l : list string)
| CNums (l : list Z).

#[global] Instance carg_eq_dec : EqDecision carg.
Proof. solve_decision. Defined.

Definition id_text (id : id16) : string := bytes_string (array_bytes id).
Definition idBytes (id : id16) : carg := CText (id_text id).
(** [copy(v.ID[:], s)] into a zero identifier. *)
Definition copy_text (s : string) : id16 := copy16 (string_bytes s).
Definition boolByte (value : bool) : Z := if value then 1 else 0.

(** ** Conditions *)

Record chWhere := mkChWhere { chw_parts : list string; chw_args : list carg }.
Definition chWhere_zero : chWhere := mkChWhere [] [].

Definition add (q : string) (args : list carg) (b : chWhere) : chWhere :=
  mkChWhere (chw_parts b ++ [q]) (chw_args b ++ args).
Definition eq_ (k : string) (v : carg) (b : chWhere) : chWhere := add (k +:+ " = ?") [v] b.
Definition sql (b : chWhere) : string :=
  match chw_parts b with
  | [] => ""
  | _ => " WHERE " +:+ Join (chw_parts b) " AND "
  end.

Definition when (c : bool) (f : chWhere -> chWhere) (b : chWhere) : chWhere := if c then f b else b.

Definition range_conds (col : string) (t : TimeRange) (b : chWhere) : chWhere :=
  let b := when (negb (time_IsZero (tr_From t))) (add (col +:+ " >= ?") [CTime (tr_From t)]) b in
  when (negb (time_IsZero (tr_To t))) (add (col +:+ " < ?") [CTime (tr_To t)]) b.
Definition origin_conds (service environment : string) (b : chWhere) : chWhere :=
  let b := when (given service) (eq_ "service" (CText service)) b in
  when (given environment) (eq_ "environment" (CText environment)) b.

Definition commonCH (t : TimeRange) (service environment : string) (b : chWhere) : chWhere :=
  origin_conds service environment (range_conds "event_time" t b).
Definition summaryCH (t : TimeRange) (service environment : string) (b : chWhere) : chWhere :=
  origin_conds service environment (range_conds "started_at" t b).

Definition scopeCH (scope : Scope) (b : chWhere) : chWhere :=
  if Scope_IsZero scope then b
  else eq_ "scope_id" (CText (sc_ID scope)) (eq_ "scope_type" (CText (sc_Type scope)) b).

(** The scope of a summary is that of its events. *)
Definition scope_of_events (column : string) (scope : Scope) (b : chWhere) : chWhere :=
  when (negb (Scope_IsZero scope))
    (add (column +:+ " IN (SELECT DISTINCT " +:+ column +:+ " FROM trail_events WHERE scope_type=? AND scope_id=?)")
       [CText (sc_Type scope); CText (sc_ID scope)]) b.

(** Every caller has binary identifiers; a cursor that does not parse is dropped. *)
Definition cursorCH (p : PageRequest) (timeCol idCol : string) (b : chWhere) : chWhere :=
  if str_eqb (c_ID (p_Cursor p)) "" then b
  else match ParseEventID (c_ID (p_Cursor p)) with
  | Ok parsed =>
      add ("(" +:+ timeCol +:+ "," +:+ idCol +:+ ") " +:+ direction_op p +:+ " (?,?)")
        [CTime (c_Timestamp (p_Cursor p)); idBytes parsed] b
  | _ => b
  end.

Definition limitCH (q : string) (args : list carg) (p : PageRequest) (timeCol idCol : string) : string * list carg :=
  (q +:+ " ORDER BY " +:+ timeCol +:+ " " +:+ direction p +:+ "," +:+ idCol +:+ " " +:+ direction p +:+ " LIMIT ?",
   args ++ [CInt (i64 (p_Limit p + 1))]).

Definition pageCH {T} (items : list T) (p : PageRequest) (cursor : T -> Cursor) : result (Page T) :=
  if p_Limit p <? Z.of_nat (length items) then
    if p_Limit p <? 0 then Panic "slice bounds out of range"
    else
      let items := take (Z.to_nat (p_Limit p)) items in
      match last items with
      | Some v => Ok (mkPage items (cursor v) true)
      | None => Panic "index out of range"
      end
  else Ok (mkPage items Cursor_zero false).

(** ** Statements *)

Definition flowRows : string :=
  "SELECT flow_id,service,environment,entity_type,entity_id,execution_id,status,started_at,finished_at,event_count,first_kind,last_kind FROM (SELECT flow_id,service,environment,argMaxMerge(entity_type) entity_type,argMaxMerge(entity_id) entity_id,argMaxMerge(execution_id) execution_id,argMaxIfMerge(status) status,minMerge(started_at) started_at,maxMerge(finished_at) finished_at,uniqExactMerge(event_count) event_count,argMinMerge(first_kind) first_kind,argMaxMerge(last_kind) last_kind FROM trail_flow_summaries GROUP BY flow_id,service,environment)".
Definition executionRows : string :=
  "SELECT execution_id,service,environment,kind,source,status,attempt,parent_execution_id,retry_of_execution_id,started_at,finished_at,event_count,flow_count FROM (SELECT execution_id,service,environment,argMaxIfMerge(kind) kind,argMaxIfMerge(source) source,argMaxIfMerge(status) status,maxMerge(attempt) attempt,argMaxMerge(parent_execution_id) parent_execution_id,argMaxMerge(retry_of_execution_id) retry_of_execution_id,minMerge(started_at) started_at,maxMerge(finished_at) finished_at,uniqExactMerge(event_count) event_count,uniqExactMerge(flow_count) flow_count FROM trail_execution_summaries GROUP BY execution_id,service,environment)".
Definition eventRows : string :=
  "SELECT event_time,event_id,batch_id,jetstream_stream,jetstream_stream_seq,jetstream_consumer,jetstream_consumer_seq,jetstream_delivered,received_at,service,environment,version,kind,toString(level),flow_id,execution_id,parent_execution_id,retry_of_execution_id,execution_attempt,execution_source,scope_type,scope_id,entity_type,entity_id,parent_event_id,flow_status,execution_status,execution_kind,provider,has_error,field_keys,field_types,field_text,field_num,http_method,http_scheme,http_host,http_path,http_status_code,http_duration_ns,http_success,http_request_size,http_response_size,http_request_preview,http_response_preview,payload_refs_json FROM trail_events".

Definition flows_where (f : FlowFilter) : chWhere :=
  let b := commonCH (ff_Time f) (ff_Service f) (ff_Environment f) chWhere_zero in
  let b := scope_of_events "flow_id" (ff_Scope f) b in
  let b := when (given (ff_Status f)) (eq_ "status" (CText (ff_Status f))) b in
  let b := when (given (ff_EntityType f)) (eq_ "entity_type" (CText (ff_EntityType f))) b in
  let b := when (given (ff_EntityID f)) (eq_ "entity_id" (CText (ff_EntityID f))) b in
  when (negb (IsZero (ff_ExecutionID f))) (eq_ "execution_id" (idBytes (ff_ExecutionID f))) b.
Definition flows_query (f : FlowFilter) (p : PageRequest) : string * list carg :=
  let b := cursorCH p "event_time" "flow_id" (flows_where f) in
  limitCH ("SELECT flow_id,event_time FROM trail_flow_terminals" +:+ sql b) (chw_args b) p "event_time" "flow_id".

Definition executions_query (f : ExecutionFilter) (p : PageRequest) : string * list carg :=
  let b := summaryCH (xf_Time f) (xf_Service f) (xf_Environment f) chWhere_zero in
  let b := scope_of_events "execution_id" (xf_Scope f) b in
  let b := when (given (xf_Status f)) (eq_ "status" (CText (xf_Status f))) b in
  let b := when (given (xf_Kind f)) (eq_ "kind" (CText (xf_Kind f))) b in
  let b := when (given (xf_Source f)) (eq_ "source" (CText (xf_Source f))) b in
  let b := cursorCH p "started_at" "execution_id" b in
  limitCH (executionRows +:+ sql b) (chw_args b) p "started_at" "execution_id".

Definition flow_count : string := "uniqExactIf(flow_id,flow_id!=unhex('00000000000000000000000000000000'))".

Definition entities_query (f : EntityFilter) (p : PageRequest) : string * list carg :=
  let b := scopeCH (nf_Scope f) (commonCH (nf_Time f) (nf_Service f) (nf_Environment f) chWhere_zero) in
  let b := add "entity_type != '' AND entity_id != ''" [] b in
  let b := when (given (nf_EntityType f)) (eq_ "entity_type" (CText (nf_EntityType f))) b in
  let b := when (given (nf_IDPrefix f)) (add "startsWith(entity_id, ?)" [CText (nf_IDPrefix f)]) b in
  let q := "SELECT scope_type,scope_id,entity_type,entity_id,min(event_time),max(event_time)," +:+ flow_count +:+ " FROM trail_events"
             +:+ sql b +:+ " GROUP BY scope_type,scope_id,entity_type,entity_id" in
  let '(q, args) :=
    if given (c_ID (p_Cursor p))
    then (q +:+ " HAVING (min(event_time),entity_id) " +:+ direction_op p +:+ " (?,?)",
          chw_args b ++ [CTime (c_Timestamp (p_Cursor p)); CText (c_ID (p_Cursor p))])
    else (q, chw_args b) in
  limitCH q args p "min(event_time)" "entity_id".

Definition entity_query (key : EntityKey) : string * list carg :=
  let b := eq_ "entity_id" (CText (ek_ID key)) (eq_ "entity_type" (CText (ek_Type key)) chWhere_zero) in
  let b := scopeCH (ek_Scope key) b in
  ("SELECT min(event_time),max(event_time)," +:+ flow_count +:+ " FROM trail_events" +:+ sql b +:+ " GROUP BY entity_type,entity_id", chw_args b).

(** The conditions of an event list; [extra] is the column and value of
    [ListFlowEvents]. *)
Definition events_where (f : EventFilter) (extra : option (string * carg)) : chWhere :=
  let b := scopeCH (ef_Scope f) (commonCH (ef_Time f) (ef_Service f) (ef_Environment f) chWhere_zero) in
  let b := match extra with Some (column, value) => eq_ column value b | None => b end in
  let b := when (given (ef_Kind f)) (eq_ "kind" (CText (ef_Kind f))) b in
  let b := match ef_Level f with Some l => eq_ "level" (CText (Level_String l)) b | None => b end in
  let b := when (0 <? ef_HTTPStatusClass f)
             (add "http_status_code>=? AND http_status_code<?"
                [CInt (i64 (ef_HTTPStatusClass f * 100)); CInt (i64 (i64 (ef_HTTPStatusClass f + 1) * 100))]) b in
  let b := when (given (ef_HTTPMethod f)) (eq_ "http_method" (CText (ef_HTTPMethod f))) b in
  let b := when (0 <? ef_HTTPStatus f) (eq_ "http_status_code" (CInt (ef_HTTPStatus f))) b in
  let b := when (given (ef_Provider f)) (eq_ "provider" (CText (ef_Provider f))) b in
  let b := match ef_HasError f with Some e => eq_ "has_error" (CInt (boolByte e)) b | None => b end in
  let b := when (negb (IsZero (ef_FlowID f))) (eq_ "flow_id" (idBytes (ef_FlowID f))) b in
  let b := when (negb (IsZero (ef_ExecutionID f))) (eq_ "execution_id" (idBytes (ef_ExecutionID f))) b in
  let b := when (given (ef_EntityType f)) (eq_ "entity_type" (CText (ef_EntityType f))) b in
  when (given (ef_EntityID f)) (eq_ "entity_id" (CText (ef_EntityID f))) b.
Definition events_query (f : EventFilter) (p : PageRequest) (extra : option (string * carg)) : string * list carg :=
  let b := cursorCH p "event_time" "event_id" (events_where f extra) in
  limitCH (eventRows +:+ sql b) (chw_args b) p "event_time" "event_id".

Definition overview_where (f : OverviewFilter) : chWhere :=
  scopeCH (of_Scope f) (commonCH (of_Time f) (of_Service f) (of_Environment f) chWhere_zero).
Definition overview_query (f : OverviewFilter) : string * list carg :=
  let b := overview_where f in
  ("SELECT min(event_time),max(event_time),uniqExact(event_id)," +:+ flow_count +:+ ",uniqExactIf(execution_id,execution_id!=unhex('00000000000000000000000000000000')),uniqExactIf(tuple(entity_type,entity_id),entity_type!='' AND entity_id!=''),uniqExactIf(flow_id,flow_status='failed'),uniqExactIf(execution_id,execution_status='failed'),uniqExactIf(event_id,http_status_code>=500) FROM trail_events"
     +:+ sql b, chw_args b).

Definition buckets_query (f : OverviewActivityFilter) : string * list carg :=
  let b := overview_where (af_OverviewFilter f) in
  let bucket := if str_eqb (af_Interval f) ActivityDay then "toStartOfDay(event_time)" else "toStartOfHour(event_time)" in
  ("SELECT " +:+ bucket +:+ " bucket,count(),countIf(level='error'),countIf(http_status_code>=500) FROM trail_events" +:+ sql b
     +:+ " GROUP BY bucket ORDER BY bucket", chw_args b).
Definition flow_statuses_query (f : OverviewActivityFilter) : string * list carg :=
  let o := af_OverviewFilter f in
  let b := scope_of_events "flow_id" (of_Scope o) (commonCH (of_Time o) (of_Service o) (of_Environment o) chWhere_zero) in
  ("SELECT status,count() FROM trail_flow_terminals FINAL" +:+ sql b +:+ " GROUP BY status ORDER BY count() DESC", chw_args b).
Definition execution_sources_query (f : OverviewActivityFilter) : string * list carg :=
  let o := af_OverviewFilter f in
  let b := scope_of_events "execution_id" (of_Scope o) (summaryCH (of_Time o) (of_Service o) (of_Environment o) chWhere_zero) in
  ("SELECT source,count() FROM (" +:+ executionRows +:+ ")" +:+ sql b +:+ " GROUP BY source ORDER BY count() DESC", chw_args b).

(** ** Rows *)

(** The destination variables of each [Scan], in its order. *)
Record ChFlowRow := mkChFlowRow {
  cf_id : string; cf_service : string; cf_environment : string; cf_entity_type : string; cf_entity_id : string;
  cf_execution : string; cf_status : string; cf_started : Z; cf_finished : Z; cf_count : Z; cf_first : string; cf_last : string
}.

Record ChExecutionRow := mkChExecutionRow {
  cx_id : string; cx_service : string; cx_environment : string; cx_kind : string; cx_source : string; cx_status : string;
  cx_attempt : Z; cx_parent : string; cx_retry : string; cx_started : Z; cx_finished : Z; cx_events : Z; cx_flows : Z
}.

Record ChEventRow := mkChEventRow {
  ce_time : Z; ce_id : string; ce_batch : string; ce_stream : string; ce_stream_seq : Z; ce_consumer : string;
  ce_consumer_seq : Z; ce_delivered : Z; ce_received : Z; ce_service : string; ce_environment : string;
  ce_version : string; ce_kind : string; ce_level : string; ce_flow : string; ce_execution : string;
  ce_parent_execution : string; ce_retry : string; ce_attempt : Z; ce_source : string; ce_scope_type : string;
  ce_scope_id : string; ce_entity_type : string; ce_entity_id : string; ce_parent : string;
  ce_flow_status : string; ce_execution_status : string; ce_execution_kind : string; ce_provider : string;
  ce_has_error : Z; ce_keys : list string; ce_types : list string; ce_texts : list string; ce_nums : list Z;
  ce_method : string; ce_scheme : string; ce_host : string; ce_path : string; ce_status : Z; ce_duration : Z;
  ce_success : Z; ce_request_size : Z; ce_response_size : Z; ce_request_preview : string;
  ce_response_preview : string; ce_payloads : string
}.

(** A row of the retention scan, of a payload candidate, and of a candidate's state. *)
Record ChScanRow := mkChScanRow {
  cs_time : Z; cs_id : string; cs_flow : string; cs_execution : string; cs_kind : string; cs_level : string;
  cs_service : string; cs_environment : string; cs_flow_status : string; cs_execution_status : string;
  cs_status : Z; cs_success : Z; cs_keys : list string; cs_types : list string; cs_texts : list string;
  cs_nums : list Z; cs_payloads : string
}.
Record ChCandidateRow := mkChCandidateRow {
  cc_ref : string; cc_archive : string; cc_eligible : Z; cc_candidate : Z; cc_attempts : Z; cc_error : string
}.

Inductive cshape :=
| CFlow | CTerminal | CExecution | CEvent | CEntity | CEntityTimes | COverview | CBucket | CCount
| CScan | CArchive | CFoundArchive | CNumber | CTimes | CCandidate | CState | CTask | CLinks.

Definition cdests (s : cshape) : Type :=
  match s with
  | CFlow => ChFlowRow
  | CTerminal => string * Z
  | CExecution => ChExecutionRow
  | CEvent => ChEventRow
  | CEntity => EntitySummary
  | CEntityTimes => Z * Z * Z
  | COverview => Z * Z * Z * Z * Z * Z * Z * Z * Z
  | CBucket => ActivityBucket
  | CCount => CountByName
  | CScan => ChScanRow
  | CArchive => string * string
  | CFoundArchive => Z * string * string
  | CNumber => Z
  | CTimes => Z * Z * Z
  | CCandidate => ChCandidateRow
  | CState => string * string * Z * Z * Z
  | CTask => string * string
  | CLinks => string
  end.

Definition levelCH (v : string) : Level :=
  if str_eqb v "debug" then LevelDebug
  else if str_eqb v "warn" then LevelWarn
  else if str_eqb v "error" then LevelError
  else LevelInfo.

Definition scanCHFlow (row : ChFlowRow * option error) : FlowSummary * string * string * option error :=
  let '(r, e) := row in
  (mkFlowSummary (copy_text (cf_id r)) (cf_service r) (cf_environment r) Scope_zero (cf_entity_type r) (cf_entity_id r)
     (copy_text (cf_execution r)) (cf_status r) (cf_started r) (cf_finished r) (cf_count r),
   cf_first r, cf_last r, e).

Definition scanCHExecution (row : ChExecutionRow * option error) : ExecutionSummary * option error :=
  let '(r, e) := row in
  (mkExecutionSummary (copy_text (cx_id r)) (cx_service r) (cx_environment r) Scope_zero (cx_kind r) (cx_source r)
     (cx_status r) (cx_attempt r) (copy_text (cx_parent r)) (copy_text (cx_retry r)) (cx_started r) (cx_finished r)
     (cx_events r) (cx_flows r), e).

(** [v.Fields[i] = wire.Field{keys[i], types[i], texts[i], nums[i]}] for every key. *)
Fixpoint zip_fields (keys types texts : list string) (nums : list Z) : result (list wire_Field) :=
  match keys with
  | [] => Ok []
  | key :: keys =>
      match types, texts, nums with
      | type :: types, text :: texts, num :: nums =>
          fields ← zip_fields keys types texts nums; Ok (mkWireField key type text num :: fields)
      | _, _, _ => Panic "index out of range"
      end
  end.

(** The record of the scanned columns, without its fields and links. *)
Definition event_of_row (r : ChEventRow) : EventRecord :=
  mkEventRecord (copy_text (ce_id r)) (ce_time r) (ce_kind r) (levelCH (ce_level r)) (copy_text (ce_flow r))
    (copy_text (ce_execution r)) (copy_text (ce_parent_execution r)) (copy_text (ce_retry r)) (ce_attempt r) (ce_source r)
    (mkScope (ce_scope_type r) (ce_scope_id r)) (ce_entity_type r) (ce_entity_id r) (copy_text (ce_parent r)) []
    (ce_flow_status r) (ce_execution_status r) (ce_execution_kind r) "" (ce_provider r) (negb (ce_has_error r =? 0))
    (mkHTTPRecord (ce_method r) (ce_scheme r) (ce_host r) (ce_path r) (ce_status r) (i64 (ce_duration r))
       (negb (ce_success r =? 0)) (ce_request_size r) (ce_response_size r) (ce_request_preview r) (ce_response_preview r))
    [] (copy_text (ce_batch r)) (mkMetadata (ce_service r) (ce_environment r) (ce_version r))
    (mkDelivery (ce_stream r) (ce_consumer r) (ce_stream_seq r) (ce_consumer_seq r) (ce_delivered r) (ce_received r)).

(** A scan that fails leaves a record no caller looks at. *)
Definition scanCHEvent (row : ChEventRow * option error) : result EventRecord :=
  let '(r, e) := row in
  match e with
  | Some e => Fail e
  | None =>
      fields ← zip_fields (ce_keys r) (ce_types r) (ce_texts r) (ce_nums r);
      payloads ← unmarshal_Links (string_bytes (ce_payloads r));
      Ok ((event_of_row r) <| er_Fields := fields |> <| er_Payloads := payloads |>)
  end.

(** [for rows.Next()] with a scan that may fail or panic. *)
Definition collectCH {R T} (scan : R * option error -> result T) (rows : list (R * option error)) : result (list T) :=
  go_range (fun _ row => scan row) rows.

(** A scan that returns its value beside the error. *)
Definition scanned {R T} (scan : R * option error -> T * option error) (row : R * option error) : result T :=
  let '(v, e) := scan row in match e with Some e => Fail e | None => Ok v end.

(** ** The store *)

Inductive ChCall :=
| CQuery (q : string) (args : list carg)
| CQueryRow (q : string) (args : list carg)
| CExec (q : string) (args : list carg) (err : option error)
| CPrepare (q token : string) (err : option error)
| CAppend (q : string) (values : list carg) (err : option error)
| CSend (q : string) (err : option error)
| CAbort (q : string)
| CNow (t : Z).

(** The connection, its batches and the clock. *)
Record ChEnv := mkChEnv {
  ch_query : forall s : cshape, list ChCall -> string -> list carg -> Rows (cdests s);
  ch_row : forall s : cshape, list ChCall -> string -> list carg -> cdests s * option error;
  ch_exec : list ChCall -> string -> list carg -> option error;
  ch_prepare : list ChCall -> string -> option error;
  ch_append : list ChCall -> string -> list carg -> option error;
  ch_send : list ChCall -> string -> option error;
  ch_now : list ChCall -> Z
}.

Section Store.
Context (env : ChEnv).
#[local] Abbreviation S := (E ChCall).

Definition Query (s : cshape) (q : string) (args : list carg) : S (Rows (cdests s)) :=
  ask (fun h => ch_query env s h q args) (fun _ => CQuery q args).
Definition QueryRow (s : cshape) (q : string) (args : list carg) : S (cdests s * option error) :=
  ask (fun h => ch_row env s h q args) (fun _ => CQueryRow q args).
Definition Now : S Z := ask (ch_now env) CNow.

(** The common part of the lists: query, make room, scan, page. *)
Definition list_page {T} (s : cshape) (scan : cdests s * option error -> result T) (cursor : T -> Cursor)
    (query : string * list carg) (p : PageRequest) : S (result (Page T)) :=
  rows ← Query s query.1 query.2;
  mret (match rs_err rows with
        | Some e => Fail e
        | None =>
            if i64 (p_Limit p + 1) <? 0 then Panic "makeslice: cap out of range"
            else
              items ← collectCH scan (rs_rows rows);
              match rs_end rows with Some e => Fail e | None => pageCH items p cursor end
        end).

(** The page of the flows [found] by the first query, from the summaries of the second. *)
Definition flow_page (found : list (string * Z)) (hasMore : bool) (summaries : list FlowSummary) : Page FlowSummary :=
  let byID : gmap string FlowSummary := foldl (fun m v => <[id_text (fs_ID v) := v]> m) ∅ summaries in
  let items := omap (fun it : string * Z => byID !! it.1) found in
  let next :=
    match last found, last items with
    | Some (_, at_), Some v => if hasMore then mkCursor at_ (String_ (fs_ID v)) else Cursor_zero
    | _, _ => Cursor_zero
    end in
  mkPage items next hasMore.

Definition ListFlows (f : FlowFilter) (p : PageRequest) : S (result (Page FlowSummary)) :=
  let '(q, args) := flows_query f p in
  rows ← Query CTerminal q args;
  match rs_err rows with
  | Some e => mret (Fail e)
  | None =>
      if i64 (p_Limit p + 1) <? 0 then mret (Panic "makeslice: cap out of range")
      else match collectCH (scanned id) (rs_rows rows) with
      | Fail e => mret (Fail e)
      | Panic m => mret (Panic m)
      | Ok found =>
          match rs_end rows with
          | Some e => mret (Fail e)
          | None =>
              if Nat.eqb (length found) 0 then mret (Ok (mkPage [] Cursor_zero false))
              else
                let hasMore := p_Limit p <? Z.of_nat (length found) in
                if hasMore && (p_Limit p <? 0) then mret (Panic "slice bounds out of range")
                else
                  let found := if hasMore then take (Z.to_nat (p_Limit p)) found else found in
                  rows ← Query CFlow (flowRows +:+ " WHERE flow_id IN ?") [CTexts found.*1];
                  mret (match rs_err rows with
                        | Some e => Fail e
                        | None =>
                            summaries ← collectCH (scanned (fun row => let '(v, _, _, e) := scanCHFlow row in
                                                                       (v <| fs_Scope := ff_Scope f |>, e))) (rs_rows rows);
                            match rs_end rows with
                            | Some e => Fail e
                            | None => Ok (flow_page found hasMore summaries)
                            end
                        end)
          end
      end
  end.

Definition GetFlow (id : FlowID) : S (FlowDetail * option error) :=
  row ← QueryRow CFlow (flowRows +:+ " WHERE flow_id=?") [idBytes id];
  let '(v, first, last, e) := scanCHFlow row in
  mret (match e with
        | Some e => if errors_Is e ErrNoRows then (FlowDetail_zero, Some ErrNotFound) else (mkFlowDetail v first last, Some e)
        | None => (mkFlowDetail v first last, None)
        end).

Definition ListExecutionFlows (id : ExecutionID) (f : FlowFilter) (p : PageRequest) : S (result (Page FlowSummary)) :=
  ListFlows (f <| ff_ExecutionID := id |>) p.
Definition ListEntityFlows (key : EntityKey) (f : FlowFilter) (p : PageRequest) : S (result (Page FlowSummary)) :=
  ListFlows (f <| ff_EntityType := ek_Type key |> <| ff_EntityID := ek_ID key |> <| ff_Scope := ek_Scope key |>) p.

Definition ListExecutions (f : ExecutionFilter) (p : PageRequest) : S (result (Page ExecutionSummary)) :=
  list_page CExecution (scanned (fun row => let '(v, e) := scanCHExecution row in (v <| xs_Scope := xf_Scope f |>, e)))
    execution_cursor (executions_query f p) p.

Definition GetExecution (id : ExecutionID) : S (ExecutionDetail * option error) :=
  row ← QueryRow CExecution (executionRows +:+ " WHERE execution_id=?") [idBytes id];
  let '(v, e) := scanCHExecution row in
  mret (match e with
        | Some e => if errors_Is e ErrNoRows then (ExecutionDetail_zero, Some ErrNotFound) else (mkExecutionDetail v, Some e)
        | None => (mkExecutionDetail v, None)
        end).

Definition GetRetryChain (id : ExecutionID) : S (RetryChain * option error) :=
  '(d, e) ← GetExecution id;
  match e with
  | Some e => mret (mkRetryChain [], Some e)
  | None =>
      let root := retry_root id d in
      rows ← Query CExecution (executionRows +:+ " WHERE execution_id=? OR retry_of_execution_id=? ORDER BY attempt,started_at")
               [idBytes root; idBytes root];
      mret (match rs_err rows with
            | Some e => (mkRetryChain [], Some e)
            | None =>
                match collect_some scanCHExecution (rs_rows rows) [] with
                | (out, Some e) => (mkRetryChain out, Some e)
                | (out, None) => (mkRetryChain out, rs_end rows)
                end
            end)
  end.

Definition SearchEntities (f : EntityFilter) (p : PageRequest) : S (result (Page EntitySummary)) :=
  list_page CEntity (scanned id) entity_cursor (entities_query f p) p.

Definition GetEntity (key : EntityKey) : S (EntityDetail * option error) :=
  let '(q, args) := entity_query key in
  '(v, e) ← QueryRow CEntityTimes q args;
  let '(first, last_seen, flows) := v in
  mret (match e with
        | Some e => if errors_Is e ErrNoRows then (EntityDetail_zero, Some ErrNotFound)
                    else (mkEntityDetail (mkEntitySummary key first last_seen flows), Some e)
        | None => (mkEntityDetail (mkEntitySummary key first last_seen flows), None)
        end).

Definition listCHEvents (f : EventFilter) (p : PageRequest) (extra : option (string * carg)) : S (result (Page EventRecord)) :=
  list_page CEvent scanCHEvent event_cursor (events_query f p extra) p.
Definition ListEvents (f : EventFilter) (p : PageRequest) : S (result (Page EventRecord)) := listCHEvents f p None.
Definition ListFlowEvents (id : FlowID) (f : EventFilter) (p : PageRequest) : S (result (Page EventRecord)) :=
  listCHEvents f p (Some ("flow_id", idBytes id)).

(** The record beside an error is left out. *)
Definition GetEvent (id : EventID) : S (result EventRecord) :=
  row ← QueryRow CEvent (eventRows +:+ " WHERE event_id=?") [idBytes id];
  mret (match scanCHEvent row with
        | Fail e => if errors_Is e ErrNoRows then Fail ErrNotFound else Fail e
        | r => r
        end).

Definition Overview_ (f : OverviewFilter) : S (Overview * option error) :=
  let '(q, args) := overview_query f in
  now ← Now;
  '(v, e) ← QueryRow COverview q args;
  let '(first, last_event, events, flows, executions, entities, failed_flows, failed_executions, http5xx) := v in
  mret (mkOverview now false first last_event events flows executions entities failed_flows failed_executions http5xx, e).

(** One of the three queries of [OverviewActivity]: what was read, and the error. *)
Definition activity_part {T} (s : cshape) (scan : cdests s * option error -> T * option error) (query : string * list carg)
    : S (list T * option error) :=
  rows ← Query s query.1 query.2;
  mret (match rs_err rows with
        | Some e => ([], Some e)
        | None =>
            match collect_some scan (rs_rows rows) [] with
            | (out, Some e) => (out, Some e)
            | (out, None) => (out, rs_end rows)
            end
        end).

Definition OverviewActivity_ (f : OverviewActivityFilter) : S (OverviewActivity * option error) :=
  let time := of_Time (af_OverviewFilter f) in
  let out := mkOverviewActivity (tr_From time) (tr_To time) (af_Interval f) [] [] [] in
  '(buckets, err) ← activity_part CBucket id (buckets_query f);
  let out := out <| oa_Buckets := buckets |> in
  match err with
  | Some e => mret (out, Some e)
  | None =>
      '(statuses, err) ← activity_part CCount id (flow_statuses_query f);
      let out := out <| oa_FlowStatuses := statuses |> in
      match err with
      | Some e => mret (out, Some e)
      | None =>
          '(sources, err) ← activity_part CCount id (execution_sources_query f);
          mret (out <| oa_ExecutionSources := sources |>, err)
      end
  end.
End Store.
