(* ===== verification/ChWrite.v ===== *)
(** * Writing to ClickHouse (src/storage/clickhouse/store.go)

    [WriteBatches] appends a row per event to one native batch, which is inserted as
    a block under a deduplication token computed from the deliveries.  SHA-256 is a
    parameter. *)

From S2P Require Import Prelude Ids Events GoLib GoText Json JsonText GoTime Wire Payload Storage LinkJson Query Trace PgQuery ChQuery.

(** ** Opening *)

(** The fields of the configuration the store looks at; the rest goes to the driver. *)
Record ChConfig := mkChConfig { chc_Addresses : list string; chc_Database : string; chc_DialTimeout : Z }.

Definition address_error : error := errors_New "trail/clickhouse: address is required".

(** [Open], with [ch.Open] a parameter. *)
Definition Open {conn} (ch_Open : ChConfig -> result conn) (cfg : ChConfig) : result conn :=
  match chc_Addresses cfg with
  | [] => Fail address_error
  | _ =>
      ch_Open (mkChConfig (chc_Addresses cfg) (if str_eqb (chc_Database cfg) "" then "default" else chc_Database cfg)
                 (if chc_DialTimeout cfg =? 0 then 5000000000 else chc_DialTimeout cfg))
  end.

(** ** Rows *)

Definition nl : string := String "010" "".

Definition insertEvents : string :=
  "INSERT INTO trail_events (" +:+ nl +:+
  "    event_time, event_id, batch_id," +:+ nl +:+
  "    jetstream_stream, jetstream_stream_seq, jetstream_consumer, jetstream_consumer_seq, jetstream_delivered, received_at," +:+ nl +:+
  "    service, environment, version, kind, level," +:+ nl +:+
  "    flow_id, execution_id, parent_execution_id, retry_of_execution_id, execution_attempt, execution_source," +:+ nl +:+
  "    scope_type, scope_id, entity_type, entity_id, parent_event_id, flow_status, execution_status, execution_kind," +:+ nl +:+
  "    provider, has_error," +:+ nl +:+
  "    field_keys, field_types, field_text, field_num," +:+ nl +:+
  "    http_method, http_scheme, http_host, http_path, http_status_code, http_duration_ns, http_success," +:+ nl +:+
  "    http_request_size, http_response_size, http_request_preview, http_response_preview, payload_refs_json" +:+ nl +:+
  ")".

Definition event_values (event : EventRecord) (payloadJSON : bytes) : list carg :=
  let fields := er_Fields event in
  [ CTime (er_Timestamp event); idBytes (er_ID event); idBytes (er_BatchID event);
    CText (d_Stream (er_Delivery event)); CInt (d_StreamSequence (er_Delivery event)); CText (d_Consumer (er_Delivery event));
    CInt (d_ConsumerSequence (er_Delivery event)); CInt (d_Delivered (er_Delivery event)); CTime (d_ReceivedAt (er_Delivery event));
    CText (md_Service (er_Metadata event)); CText (md_Environment (er_Metadata event)); CText (md_Version (er_Metadata event));
    CText (er_Kind event); CText (Level_String (er_Level event));
    idBytes (er_FlowID event); idBytes (er_ExecutionID event); idBytes (er_ParentExecutionID event); idBytes (er_RetryOfExecutionID event);
    CInt (er_ExecutionAttempt event); CText (er_ExecutionSource event); CText (sc_Type (er_Scope event)); CText (sc_ID (er_Scope event));
    CText (er_EntityType event); CText (er_EntityID event); idBytes (er_ParentID event);
    CText (er_FlowStatus event); CText (er_ExecutionStatus event); CText (er_ExecutionKind event); CText (er_Provider event);
    CInt (boolByte (er_HasError event));
    CTexts (wf_Key <$> fields); CTexts (wf_Type <$> fields); CTexts (wf_Text <$> fields); CNums (wf_Num <$> fields);
    CText (h_Method (er_HTTP event)); CText (h_Scheme (er_HTTP event)); CText (h_Host (er_HTTP event)); CText (h_Path (er_HTTP event));
    CInt (u16 (h_StatusCode (er_HTTP event))); CInt (u64 (h_Duration (er_HTTP event))); CInt (boolByte (h_Success (er_HTTP event)));
    CInt (h_RequestSize (er_HTTP event)); CInt (h_ResponseSize (er_HTTP event));
    CText (h_RequestPreview (er_HTTP event)); CText (h_ResponsePreview (er_HTTP event)); CText (bytes_string payloadJSON) ].

(** ** The operations *)

Section Store.
Context (sha256 : bytes -> array 32) (env : ChEnv).
#[local] Abbreviation S := (E ChCall).

Definition Exec (q : string) (args : list carg) : S (option error) := ask (fun h => ch_exec env h q args) (CExec q args).
Definition Prepare (q token : string) : S (option error) := ask (fun h => ch_prepare env h q) (CPrepare q token).
Definition Append (q : string) (values : list carg) : S (option error) := ask (fun h => ch_append env h q values) (CAppend q values).
Definition Send (q : string) : S (option error) := ask (fun h => ch_send env h q) (CSend q).
Definition Abort (q : string) : S unit := ask (fun _ => tt) (fun _ => CAbort q).

(** [Migrate] runs the statements of the schema; the number of the one that failed. *)
Fixpoint migrate_from (i : nat) (statements : list string) : S (option (nat * error)) :=
  match statements with
  | [] => mret None
  | statement :: statements =>
      err ← Exec statement [];
      match err with Some e => mret (Some (i, e)) | None => migrate_from (Datatypes.S i) statements end
  end.
Definition Migrate (statements : list string) : S (option (nat * error)) := migrate_from 1 statements.

Definition appendEvent (event : EventRecord) : S (option error) :=
  match marshal_Links (er_Payloads event) with
  | Ok payloadJSON => Append insertEvents (event_values event payloadJSON)
  | Fail e => mret (Some e)
  | Panic _ => mret (Some type_error) (* marshalling does not panic *)
  end.

Fixpoint append_events (events : list EventRecord) : S (option error) :=
  match events with
  | [] => mret None
  | event :: events =>
      err ← appendEvent event;
      match err with
      | Some e => _ ← Abort insertEvents; mret (Some e)
      | None => append_events events
      end
  end.

Definition identity (batch : StorageBatch) : string :=
  d_Stream (sb_Delivery batch) +:+ ":" +:+ Itoa (d_StreamSequence (sb_Delivery batch)) +:+ ":" +:+ String_ (sb_BatchID batch).
Definition deduplicationToken (batches : list StorageBatch) : string :=
  hex_Encode (sha256 (string_bytes (Join (merge_sort string_le (identity <$> batches)) "|"))).

Definition WriteBatches (batches : list StorageBatch) : S (option error) :=
  match batches with
  | [] => mret None
  | _ =>
      err ← Prepare insertEvents (deduplicationToken batches);
      match err with
      | Some e => mret (Some e)
      | None =>
          err ← append_events (concat (sb_Events <$> batches));
          match err with
          | Some e => mret (Some e)
          | None => Send insertEvents
          end
      end
  end.
End Store.
