(* ===== verification/ChWriteProofs.v ===== *)
(** * Events in ClickHouse are written once

    Rows survive the round trip through a table row, the deduplication token tells
    sets of deliveries apart, and the table, merged by event identifier as its engine
    does, holds each event of the successful attempts once, whatever the connection
    does to the attempts and whether or not the server honours the token. *)

From S2P Require Import Prelude Ids Events GoLib GoText Json JsonText GoTime Wire Payload Storage LinkJson Query Trace PgQuery PgSql PgSqlProofs PgWrite PgEvents PgPages PgRetention PgScan ChQuery ChWrite.

(** ** Rows *)

(** The values of a row of destination variables. *)
Definition row_cargs (r : ChEventRow) : list carg :=
  [ CTime (ce_time r); CText (ce_id r); CText (ce_batch r); CText (ce_stream r); CInt (ce_stream_seq r); CText (ce_consumer r);
    CInt (ce_consumer_seq r); CInt (ce_delivered r); CTime (ce_received r); CText (ce_service r); CText (ce_environment r);
    CText (ce_version r); CText (ce_kind r); CText (ce_level r); CText (ce_flow r); CText (ce_execution r);
    CText (ce_parent_execution r); CText (ce_retry r); CInt (ce_attempt r); CText (ce_source r); CText (ce_scope_type r);
    CText (ce_scope_id r); CText (ce_entity_type r); CText (ce_entity_id r); CText (ce_parent r); CText (ce_flow_status r);
    CText (ce_execution_status r); CText (ce_execution_kind r); CText (ce_provider r); CInt (ce_has_error r);
    CTexts (ce_keys r); CTexts (ce_types r); CTexts (ce_texts r); CNums (ce_nums r); CText (ce_method r); CText (ce_scheme r);
    CText (ce_host r); CText (ce_path r); CInt (ce_status r); CInt (ce_duration r); CInt (ce_success r); CInt (ce_request_size r);
    CInt (ce_response_size r); CText (ce_request_preview r); CText (ce_response_preview r); CText (ce_payloads r) ].

(** What the table keeps of the values: the reception time in microseconds. *)
Definition column_value (i : nat) (v : carg) : carg :=
  match v with CTime t => if Nat.eqb i 8 then CTime (micros t) else CTime t | _ => v end.
Definition table_row (values : list carg) : list carg := imap column_value values.

(** What comes back of a record. *)
Definition ch_read_back (e : EventRecord) : EventRecord :=
  e <| er_RetentionClass := "" |>
    <| er_Delivery := (er_Delivery e) <| d_ReceivedAt := micros (d_ReceivedAt (er_Delivery e)) |> |>.

Lemma copy_id_text id : copy_text (id_text id) = id.
Proof. unfold copy_text, id_text. rewrite String.list_ascii_of_string_of_list_ascii. apply copy16_array. Qed.

Lemma zip_fields_ok fs : zip_fields (wf_Key <$> fs) (wf_Type <$> fs) (wf_Text <$> fs) (wf_Num <$> fs) = Ok fs.
Proof. induction fs as [|[key type text num] fs IH]; [done|]. csimpl. by rewrite IH. Qed.

Lemma boolByte_zero b : negb (boolByte b =? 0) = b.
Proof. by destruct b. Qed.

Lemma levelCH_String v : 0 <= v <= 3 -> levelCH (Level_String v) = v.
Proof. intros H. assert (v = 0 \/ v = 1 \/ v = 2 \/ v = 3) as [-> | [-> | [-> | ->]]] by lia; reflexivity. Qed.

(** A record survives ClickHouse.  When its payload links can be written as
    JSON, its level is one of the four and its status code and duration fit their
    columns, the row that [appendEvent] inserts for it is scanned back as the record
    itself, but for the retention class, which has no column, and the part of the
    reception time below a microsecond; event times keep their nanoseconds. *)
Lemma ch_row_roundtrip e payloads r :
  marshal_Links (er_Payloads e) = Ok payloads -> Forall link_printable (er_Payloads e) -> 0 <= er_Level e <= 3 ->
  in_u 16 (h_StatusCode (er_HTTP e)) -> in_s 64 (h_Duration (er_HTTP e)) ->
  row_cargs r = table_row (event_values e payloads) -> scanCHEvent (r, None) = Ok (ch_read_back e).
Proof.
  intros Hp Hl Hv Hs Hd Heq. unfold row_cargs, table_row, event_values in Heq. cbn [imap column_value Nat.eqb compose idBytes] in Heq.
  injection Heq as E1 E2 E3 E4 E5 E6 E7 E8 E9 E10 E11 E12 E13 E14 E15 E16 E17 E18 E19 E20 E21 E22 E23 E24 E25 E26 E27 E28 E29 E30
    E31 E32 E33 E34 E35 E36 E37 E38 E39 E40 E41 E42 E43 E44 E45 E46.
  unfold scanCHEvent. rewrite E31, E32, E33, E34, zip_fields_ok. cbn [mbind result_bind].
  destruct (unmarshal_marshal_Links _ Hl) as (data & Hm & Hu). rewrite Hp in Hm. injection Hm as <-.
  rewrite E46, String.list_ascii_of_string_of_list_ascii, Hu. cbn [mbind result_bind]. f_equal.
  unfold event_of_row, ch_read_back. rewrite E1, E2, E3, E14, E15, E16, E17, E18, E25, E30, E39, E40, E41, !copy_id_text, !boolByte_zero,
    levelCH_String, (wrapu_id 16), wraps_wrapu by done.
  rewrite E4, E5, E6, E7, E8, E9, E10, E11, E12, E13, E19, E20, E21, E22, E23, E24, E26, E27, E28, E29, E35, E36, E37, E38, E42, E43, E44, E45.
  by destruct e as [? ? ? ? ? ? ? ? ? ? [] ? ? ? ? ? ? ? ? ? ? [] ? ? [] []].
Qed.

(** ** The deduplication token *)

Lemma Split_Join sep parts : parts <> [] -> Forall (fun p => free sep p = true) parts -> Split (Join parts (String sep "")) sep = parts.
Proof.
  intros Hne HF. induction HF as [|p parts Hp HF IH]; [done|]. destruct parts as [|p' parts]; [by apply Split_free|].
  change (Join (p :: p' :: parts) (String sep "")) with (p +:+ String sep (Join (p' :: parts) (String sep ""))).
  by rewrite Split_app, (Split_free sep p), IH.
Qed.

Lemma Split_inj sep a b : Split a sep = Split b sep -> a = b.
Proof.
  intros H. assert (forall s, Join (Split s sep) (String sep "") = s) as HJ.
  { clear. induction s as [|c s IH]; [done|]. cbn [Split]. destruct (Ascii.eqb_spec c sep) as [->|Hc].
    - destruct (Split s sep) as [|p ps] eqn:E; [by destruct s; simpl in E; repeat case_match|].
      change (Join ("" :: p :: ps) (String sep "")) with (String sep (Join (p :: ps) (String sep ""))). by rewrite IH.
    - destruct (Split s sep) as [|p ps] eqn:E; [by destruct s; simpl in E; repeat case_match|].
      rewrite <- IH. by destruct ps. }
  by rewrite <- (HJ a), H, HJ.
Qed.

Lemma free_bytes sep l : Forall (fun c => c <> sep) l -> free sep (bytes_string l) = true.
Proof.
  induction 1 as [|c l Hc _ IH]; [done|]. unfold free in *. cbn [String.string_of_list_ascii string_forallb].
  apply andb_true_iff. split; [|exact IH]. by apply negb_true_iff, Ascii.eqb_neq.
Qed.
Lemma free_bytes_inv sep l : free sep (bytes_string l) = true -> Forall (fun c => c <> sep) l.
Proof.
  induction l as [|c l IH]; [done|]. unfold free in *. cbn [String.string_of_list_ascii string_forallb].
  intros [Hc Hl]%andb_true_iff. constructor; [by apply Ascii.eqb_neq, negb_true_iff|auto].
Qed.

Lemma free_encodeID sep id : sep <> zero_byte -> free sep crockfordAlphabet = true -> free sep (encodeID id) = true.
Proof.
  intros Hz Hfree. apply free_bytes. rewrite <- (String.string_of_list_ascii_of_string crockfordAlphabet) in Hfree.
  apply free_bytes_inv in Hfree. assert (forall d, crockford_char d <> sep) as Hc.
  { intros d. unfold crockford_char. destruct (string_bytes crockfordAlphabet !! Z.to_nat d) as [c|] eqn:E; [|by apply not_eq_sym].
    cbn [default]. by eapply Forall_lookup_1 in Hfree. }
  generalize (big_SetBytes id). assert (Forall (fun c => c <> sep) (@nil byte)) as H by constructor. revert H. generalize (@nil byte).
  generalize 26%nat as n. induction n as [|n IH]; intros out H x; [done|]. apply IH. by constructor.
Qed.

Lemma Itoa_inj a b : 0 <= a -> 0 <= b -> Itoa a = Itoa b -> a = b.
Proof.
  intros Ha Hb H%(f_equal string_bytes). unfold Itoa, print_int in H. rewrite !String.list_ascii_of_string_of_list_ascii in H.
  destruct (Z.ltb_spec a 0), (Z.ltb_spec b 0); [lia..|]. destruct (print_nat_spec a Ha) as (_ & <- & _), (print_nat_spec b Hb) as (_ & <- & _).
  by rewrite H.
Qed.

(** A permutation of the images under [f] is one under what [f] determines. *)
Lemma perm_transport {A K B} (f : A -> K) (g : A -> B) (a b : list A) :
  f <$> a ≡ₚ f <$> b -> (forall x y, x ∈ a -> y ∈ b -> f x = f y -> g x = g y) -> g <$> a ≡ₚ g <$> b.
Proof.
  intros H Hg. apply Permutation_map_inv in H as (b' & H & Hb). rewrite Hb.
  assert (g <$> a = g <$> b') as ->; [|done]. assert (forall y, y ∈ b' -> y ∈ b) as Hin by (intros y; by rewrite Hb).
  clear Hb. change (f <$> a = f <$> b') in H. revert b' H Hin. induction a as [|x a IH]; intros [|y b'] H Hin; try done.
  rewrite !fmap_cons in H. injection H as H1 H2. rewrite !fmap_cons. f_equal; [apply Hg; [by left|by apply Hin; left|done]|].
  apply IH; [|done|]; intros; [apply Hg; [by right|done..]|]. apply Hin. by right.
Qed.

(** What identifies a delivery. *)
Definition delivery_key (b : StorageBatch) : string * Z * EventID :=
  (d_Stream (sb_Delivery b), d_StreamSequence (sb_Delivery b), sb_BatchID b).

Lemma identity_parts b : Split (identity b) ":" = Split (d_Stream (sb_Delivery b)) ":" ++ [Itoa (d_StreamSequence (sb_Delivery b)); String_ (sb_BatchID b)].
Proof.
  unfold identity. change (":" +:+ ?a) with (String ":" a). rewrite Split_app. f_equal.
  change (":" +:+ ?a) with (String ":" a). rewrite Split_app, !Split_free; [done|by apply free_encodeID|by apply Itoa_free].
Qed.

Lemma identity_inj a b : 0 <= d_StreamSequence (sb_Delivery a) -> 0 <= d_StreamSequence (sb_Delivery b) ->
  identity a = identity b -> delivery_key a = delivery_key b.
Proof.
  intros Ha Hb H%(f_equal (fun s => Split s ":")). rewrite !identity_parts in H.
  apply app_inj_2 in H as [H1%Split_inj H2]; [|done].
  assert (forall x y x' y' : string, [x; y] = [x'; y'] -> x = x' /\ y = y') as Hpair by (by intros ???? [=]).
  apply Hpair in H2 as [H2%Itoa_inj H3%(f_equal decodeID)]; [|done..]. unfold String_ in H3. rewrite !decode_encode in H3.
  apply Ok_inj in H3. unfold delivery_key. by rewrite H1, H2, H3.
Qed.

Lemma free_identity b : free "|" (d_Stream (sb_Delivery b)) = true -> free "|" (identity b) = true.
Proof.
  intros H. unfold identity. rewrite !free_app, H. rewrite Itoa_free by done.
  unfold String_. by rewrite (free_encodeID "|" (sb_BatchID b) ltac:(done) ltac:(done)).
Qed.

(** A batch whose stream and sequence number a broker can have. *)
Definition deliverable (b : StorageBatch) : Prop :=
  free "|" (d_Stream (sb_Delivery b)) = true /\ 0 <= d_StreamSequence (sb_Delivery b).

Definition token_text (batches : list StorageBatch) : string := Join (merge_sort string_le (identity <$> batches)) "|".

(** The text that is hashed does not depend on the order of the batches, and texts of
    different sets of deliveries differ. *)
Lemma token_text_perm a b : a ≡ₚ b -> token_text a = token_text b.
Proof.
  intros H. unfold token_text. f_equal. apply (StronglySorted_unique string_le);
    [apply StronglySorted_merge_sort; apply _..|]. by rewrite !merge_sort_Permutation, H.
Qed.

Lemma token_text_faithful a b : a <> [] -> b <> [] -> Forall deliverable a -> Forall deliverable b ->
  token_text a = token_text b -> delivery_key <$> a ≡ₚ delivery_key <$> b.
Proof.
  intros Ha Hb Da Db H%(f_equal (fun s => Split s "|")). unfold token_text in H.
  assert (forall l, l <> [] -> Forall deliverable l -> Split (Join (merge_sort string_le (identity <$> l)) "|") "|" = merge_sort string_le (identity <$> l)) as HS.
  { intros l Hl Dl. apply Split_Join.
    - intros E. apply (f_equal length) in E. rewrite merge_sort_Permutation, length_fmap in E. by destruct l.
    - rewrite merge_sort_Permutation. apply Forall_fmap. eapply Forall_impl; [exact Dl|]. intros c [Hc _]. by apply free_identity. }
  rewrite (HS a Ha Da), (HS b Hb Db) in H.
  apply (perm_transport identity); [by rewrite <- (merge_sort_Permutation string_le (identity <$> a)), H, merge_sort_Permutation|].
  intros x y Hx Hy. rewrite Forall_forall in Da, Db. apply identity_inj; [by apply Da|by apply Db].
Qed.

(** ** Blocks

    What the calls do to the table of events: a batch that is sent becomes a block
    under its token, or is dropped when there is a block under that token already.  A
    send that fails may have been carried out or not.  ClickHouse documents that it
    drops a repeated token within a window of inserts, which is empty by default for
    tables that are not replicated; [strict] assumes that it always does. *)

Definition block : Type := string * list (list carg).
Record inserts := mkInserts { in_blocks : list block; in_open : option block }.

Inductive ch_step (strict : bool) : inserts -> ChCall -> inserts -> Prop :=
| step_prepare s token : ch_step strict s (CPrepare insertEvents token None) (mkInserts (in_blocks s) (Some (token, [])))
| step_append s token rows values : in_open s = Some (token, rows) ->
    ch_step strict s (CAppend insertEvents values None) (mkInserts (in_blocks s) (Some (token, rows ++ [values])))
| step_send s token rows err : in_open s = Some (token, rows) -> (strict = true -> token ∉ (in_blocks s).*1) ->
    ch_step strict s (CSend insertEvents err) (mkInserts (in_blocks s ++ [(token, rows)]) None)
| step_send_dropped s token rows err : in_open s = Some (token, rows) -> token ∈ (in_blocks s).*1 ->
    ch_step strict s (CSend insertEvents err) (mkInserts (in_blocks s) None)
| step_send_lost s e : ch_step strict s (CSend insertEvents (Some e)) (mkInserts (in_blocks s) None)
| step_abort s : ch_step strict s (CAbort insertEvents) (mkInserts (in_blocks s) None)
| step_failed s c : (exists q token e, c = CPrepare q token (Some e)) \/ (exists q values e, c = CAppend q values (Some e)) ->
    ch_step strict s c s.

Inductive ch_replay (strict : bool) : inserts -> list ChCall -> inserts -> Prop :=
| replay_nil s : ch_replay strict s [] s
| replay_cons s c s' h s'' : ch_step strict s c s' -> ch_replay strict s' h s'' -> ch_replay strict s (c :: h) s''.

Lemma ch_replay_app strict s h1 h2 s'' :
  ch_replay strict s (h1 ++ h2) s'' <-> exists s', ch_replay strict s h1 s' /\ ch_replay strict s' h2 s''.
Proof.
  revert s. induction h1 as [|c h1 IH]; intros s; cbn [app].
  - split; [intros H; exists s; by split; [constructor|]|by intros (s' & H1 & H2); inversion H1; subst].
  - split.
    + intros H. inversion H as [|? ? s' ? ? Hc Hr]; subst. apply IH in Hr as (s1 & H1 & H2). exists s1. split; [by econstructor|done].
    + intros (s1 & H1 & H2). inversion H1 as [|? ? s' ? ? Hc Hr]; subst. econstructor; [exact Hc|]. apply IH. eauto.
Qed.

(** The row of an event, when its links can be written. *)
Definition event_row (e : EventRecord) : option (list carg) :=
  match marshal_Links (er_Payloads e) with Ok payloads => Some (event_values e payloads) | _ => None end.
Definition rows_of (batches : list StorageBatch) : list (list carg) := omap event_row (concat (sb_Events <$> batches)).

Definition append_call (values : list carg) : ChCall := CAppend insertEvents values None.

Lemma append_events_emits env events : emits (append_events env events) (fun err new =>
  match err with
  | None => new = append_call <$> omap event_row events /\ Forall (fun e => is_Some (event_row e)) events
  | Some _ => exists rows, new = (append_call <$> rows) ++ [CAbort insertEvents] \/
      exists values e, new = (append_call <$> rows) ++ [CAppend insertEvents values (Some e); CAbort insertEvents]
  end).
Proof.
  induction events as [|e events IH]; cbn [append_events]; [by apply emits_ret|]. unfold appendEvent. cbn [omap list_omap].
  unfold event_row at 1. destruct (marshal_Links (er_Payloads e)) as [payloads|er|m] eqn:Em.
  - apply emits_ask_seq. intros [er|].
    + apply emits_ask_seq. intros _. apply emits_ret. exists []. right. by do 2 eexists.
    + eapply emits_mono; [exact IH|]. intros [er|] new; [|].
      2: { intros [-> HF]. split; [done|]. constructor; [|done]. unfold event_row. by rewrite Em. }
      intros (rows & [-> | (values & e' & ->)]); exists (event_values e payloads :: rows); [by left|right; by do 2 eexists].
  - change (mret (Some er) ≫= ?k) with (k (Some er) : E ChCall _). apply emits_ask_seq. intros _. apply emits_ret. exists []. by left.
  - change (mret (Some type_error) ≫= ?k) with (k (Some type_error) : E ChCall _). apply emits_ask_seq. intros _. apply emits_ret. exists []. by left.
Qed.

Lemma replay_unsent strict s new s' :
  Forall (fun c => forall q e, c <> CSend q e) new -> ch_replay strict s new s' -> in_blocks s' = in_blocks s.
Proof.
  intros HF H. induction H as [s|s c s' h s'' Hc _ IH]; [done|]. apply Forall_cons in HF as [Hn HF]. rewrite (IH HF).
  by inversion Hc; subst; try done; destruct (Hn insertEvents err).
Qed.

Lemma replay_appends strict s token rows more tail s' : in_open s = Some (token, rows) ->
  ch_replay strict s ((append_call <$> more) ++ tail) s' ->
  ch_replay strict (mkInserts (in_blocks s) (Some (token, rows ++ more))) tail s'.
Proof.
  revert s rows. induction more as [|values more IH]; intros s rows Hs H.
  - rewrite app_nil_r. rewrite <- Hs. by destruct s.
  - rewrite fmap_cons in H. cbn [app] in H. inversion H as [|? ? s1 ? ? Hc Hr]; subst. inversion Hc as [|? token' rows' ? Hopen| | | | |? ? Hf]; subst.
    + rewrite Hs in Hopen. injection Hopen as <- <-. apply (IH _ (rows ++ [values])) in Hr; [|done].
      by rewrite <- app_assoc in Hr.
    + by destruct Hf as [(? & ? & ? & ?)|(? & ? & ? & ?)].
Qed.

(** The calls of one attempt: either nothing is sent, or one block. *)
Definition unsent (new : list ChCall) : Prop := Forall (fun c => forall q e, c <> CSend q e) new.
Lemma ch_write_emits sha256 env batches : emits (WriteBatches sha256 env batches) (fun err new =>
  unsent new /\ (err = None -> batches = []) \/
  batches <> [] /\ Forall (fun e => is_Some (event_row e)) (concat (sb_Events <$> batches)) /\
  new = CPrepare insertEvents (deduplicationToken sha256 batches) None :: (append_call <$> rows_of batches) ++ [CSend insertEvents err]).
Proof.
  assert (forall rows, unsent (append_call <$> rows)) as Hun by (intros rows; by apply Forall_fmap, Forall_true).
  destruct batches as [|b batches]; [apply emits_ret; left; by split; [constructor|]|]. cbn [WriteBatches].
  apply emits_ask_seq. intros [e|]; [apply emits_ret; left; by repeat constructor|].
  eapply emits_seq; [apply append_events_emits|]. intros [e|] new Hnew.
  - apply emits_ret. left. split; [|done]. rewrite app_nil_r. constructor; [done|].
    destruct Hnew as (rows & [-> | (values & e' & ->)]); (apply Forall_app; split; [apply Hun|]); by repeat constructor.
  - destruct Hnew as [-> HF]. apply emits_ask. intros err. right. by split_and!.
Qed.

(** ** Attempts *)

(** The batches a consumer tries to write, one attempt after the other. *)
Fixpoint attempts (sha256 : bytes -> array 32) (env : ChEnv) (tries : list (list StorageBatch)) : E ChCall (list (option error)) :=
  match tries with
  | [] => mret []
  | batches :: tries => err ← WriteBatches sha256 env batches; errs ← attempts sha256 env tries; mret (err :: errs)
  end.

(** The blocks come from attempts, and under [strict] there is one per token. *)
Definition from_tries (sha256 : bytes -> array 32) (strict : bool) (all : list (list StorageBatch)) (s : inserts) : Prop :=
  (strict = true -> NoDup (in_blocks s).*1) /\
  Forall (fun b => exists a, a ∈ all /\ a <> [] /\ b = (deduplicationToken sha256 a, rows_of a)) (in_blocks s).

(** One attempt: the blocks grow, and after a success there is one under its token. *)
Definition attempted (sha256 : bytes -> array 32) (a : list StorageBatch) (err : option error) (s s' : inserts) : Prop :=
  in_blocks s ⊆ in_blocks s' /\
  (err = None -> a <> [] -> deduplicationToken sha256 a ∈ (in_blocks s').*1 /\
     Forall (fun e => is_Some (event_row e)) (concat (sb_Events <$> a))).

Lemma attempt_lands sha256 strict all a err new s s' : a ∈ all -> from_tries sha256 strict all s ->
  unsent new /\ (err = None -> a = []) \/
  a <> [] /\ Forall (fun e => is_Some (event_row e)) (concat (sb_Events <$> a)) /\
    new = CPrepare insertEvents (deduplicationToken sha256 a) None :: (append_call <$> rows_of a) ++ [CSend insertEvents err] ->
  ch_replay strict s new s' -> from_tries sha256 strict all s' /\ attempted sha256 a err s s'.
Proof.
  intros Ha [Hnd HF] [[Hun He]|(Hne & Hrows & ->)] Hr; unfold from_tries, attempted.
  - apply replay_unsent in Hr; [|done]. rewrite Hr. split_and!; [done|done|done|]. intros He' Hne. by destruct (Hne (He He')).
  - inversion Hr as [|? ? s2 ? ? Hc Hr3]; subst.
    inversion Hc as [| | | | | |? ? Hf]; subst; [|by destruct Hf as [(? & ? & ? & ?)|(? & ? & ? & ?)]].
    eapply replay_appends in Hr3; [|done]. cbn [in_blocks app] in Hr3. inversion Hr3 as [|? ? s3 ? ? Hc' Hr4]; subst. inversion Hr4; subst.
    inversion Hc' as [| |? token rows ? Ho Hnew|? token rows ? Ho Hold| | |? ? Hf]; subst; cbn [in_blocks in_open] in *;
      [| |by split_and!|by destruct Hf as [(? & ? & ? & ?)|(? & ? & ? & ?)]]; injection Ho as <- <-.
    + rewrite fmap_app. split_and!; [|apply Forall_app; split; [done|]; constructor; [by exists a|constructor]|set_solver|].
      * intros Hs. apply NoDup_app. split_and!; [auto| |apply NoDup_singleton]. specialize (Hnew Hs). set_solver.
      * intros _ _. split; [|done]. set_solver.
    + by split_and!.
Qed.

Lemma attempts_emits sha256 env strict all tries : tries ⊆ all ->
  emits (attempts sha256 env tries) (fun errs new => forall s s', from_tries sha256 strict all s -> ch_replay strict s new s' ->
    from_tries sha256 strict all s' /\ in_blocks s ⊆ in_blocks s' /\
    forall i a, tries !! i = Some a -> errs !! i = Some None -> a <> [] -> deduplicationToken sha256 a ∈ (in_blocks s').*1 /\
      Forall (fun e => is_Some (event_row e)) (concat (sb_Events <$> a))).
Proof.
  induction tries as [|a tries IH]; intros Hall; cbn [attempts].
  { apply emits_ret. intros s s' Hs H. inversion H; subst. by split_and!. }
  eapply emits_seq; [apply ch_write_emits|]. intros err n1 H1.
  assert (a ∈ all) as Ha by (apply Hall; left).
  eapply emits_seq; [apply IH; intros b Hb; apply Hall; by right|]. intros errs n2 H2. apply emits_ret. intros s s' Hs Hr. rewrite app_nil_r in Hr.
  apply ch_replay_app in Hr as (s1 & Hr1 & Hr2). destruct (attempt_lands _ _ _ _ _ _ _ _ Ha Hs H1 Hr1) as (Hs1 & Hsub & Hok).
  destruct (H2 s1 s' Hs1 Hr2) as (Hs' & Hsub' & Hoks). split_and!; [done|by intros b Hb; apply Hsub', Hsub|].
  intros [|i] a' Ha' Herr Hne; cbn in Ha', Herr; [|by eapply Hoks].
  injection Ha' as ->. injection Herr as ->. destruct (Hok eq_refl Hne) as [Hin HF]. split; [|done].
  apply list_elem_of_fmap in Hin as (b & -> & Hb). apply list_elem_of_fmap_2. by apply Hsub'.
Qed.

Lemma concat_perm {A} (a b : list (list A)) : a ≡ₚ b -> concat a ≡ₚ concat b.
Proof.
  induction 1 as [|x a b _ IH|x y a|a b c _ IH1 _ IH2]; cbn [concat]; [done|by rewrite IH| |by rewrite IH1].
  by rewrite !app_assoc, (Permutation_app_comm y x).
Qed.

(** ** Redelivered events

    A redelivery decodes to the same events, but each delivery is stamped anew: the
    consumer's counters and the time of reception differ. *)

Definition unstamped (e : EventRecord) : EventRecord := e <| er_Delivery := Delivery_zero |>.

(** A row without the six columns of the stamp, and its identifier. *)
Definition row_content (row : list carg) : list carg := take 3 row ++ drop 9 row.
Definition row_id (row : list carg) : option carg := row !! 1%nat.

Lemma event_row_id e row : event_row e = Some row -> row_id row = Some (idBytes (er_ID e)).
Proof. unfold event_row. destruct (marshal_Links _); [|done|done]. by intros [= <-]. Qed.

Lemma event_row_unstamped e e' row : unstamped e = unstamped e' -> event_row e = Some row ->
  exists row', event_row e' = Some row' /\ row_content row' = row_content row.
Proof.
  intros H. assert (er_Payloads e = er_Payloads e') as Hp by exact (f_equal er_Payloads H). unfold event_row. rewrite <- Hp.
  destruct (marshal_Links (er_Payloads e)) as [p| |]; [|done|done]. intros [= <-]. eexists. split; [reflexivity|].
  assert (forall x, row_content (event_values x p) = row_content (event_values (unstamped x) p)) as Hx by reflexivity.
  by rewrite (Hx e), (Hx e'), H.
Qed.

Lemma idBytes_inj (a b : id16) : Some (idBytes a) = Some (idBytes b) -> a = b.
Proof.
  unfold idBytes. intros [= H]. apply (f_equal string_bytes) in H. unfold id_text in H.
  rewrite !String.list_ascii_of_string_of_list_ascii in H. by apply array_eq.
Qed.

(** The events of an attempt. *)
Definition events_of (batches : list StorageBatch) : list EventRecord := concat (sb_Events <$> batches).

(** Attempts under one token carry the same events but for their stamps. *)
Lemma token_events sha256 a b :
  (sha256 (string_bytes (token_text a)) = sha256 (string_bytes (token_text b)) -> token_text a = token_text b) ->
  a <> [] -> b <> [] -> Forall deliverable a -> Forall deliverable b ->
  (forall x y, x ∈ a -> y ∈ b -> delivery_key x = delivery_key y -> unstamped <$> sb_Events x = unstamped <$> sb_Events y) ->
  deduplicationToken sha256 a = deduplicationToken sha256 b -> unstamped <$> events_of a ≡ₚ unstamped <$> events_of b.
Proof.
  intros Hsha Ha Hb Da Db Hev H. unfold deduplicationToken in H. apply (f_equal hex_DecodeString) in H.
  rewrite !hex_decode_encode in H. apply Ok_inj, array_eq in H. apply Hsha in H. apply token_text_faithful in H; [|done..].
  assert (forall l, unstamped <$> events_of l = concat ((fun x => unstamped <$> sb_Events x) <$> l)) as Hc.
  { intros l. unfold events_of. induction l as [|x l IH]; [done|]. rewrite !fmap_cons. cbn [concat]. by rewrite fmap_app, IH. }
  rewrite !Hc. apply concat_perm. by apply (perm_transport delivery_key).
Qed.

(** What a table read with FINAL shows: the engine merges the rows of one identifier
    into one of them. *)
Definition merged (rows view : list (list carg)) : Prop :=
  NoDup (row_id <$> view) /\ view ⊆ rows /\ forall row, row ∈ rows -> row_id row ∈ row_id <$> view.

Lemma merged_once view row : NoDup (row_id <$> view) -> row ∈ view ->
  filter (fun r => row_id r = row_id row) view = [row].
Proof.
  induction view as [|r view IH]; [by intros _ ?%elem_of_nil|]. rewrite fmap_cons. intros [Hni Hnd]%NoDup_cons.
  assert (forall x, row_id x = row_id r -> x ∉ view) as Hout.
  { intros x Hx Hin. apply Hni. rewrite <- Hx. by apply list_elem_of_fmap_2. }
  intros [->|Hin]%elem_of_cons; rewrite filter_cons.
  - rewrite decide_True by done. f_equal. apply Keyset.filter_none. intros x Hx Hid. by apply (Hout x Hid).
  - rewrite decide_False by (intros Hid; by apply (Hout row (eq_sym Hid))). by apply IH.
Qed.

(** C23.  Written events are stored once.  A consumer tries to write batches, again and
    in any grouping and order, over a connection that can fail anywhere and that can
    carry out a send it reports as failed, to a server that may or may not drop a
    block whose token it has seen.  Redeliveries carry the same events but for their
    delivery stamps, an identifier belongs to one event, and SHA-256 does not collide
    on the texts of these attempts.  Then every block of the table is exactly the rows
    of one attempt, never a part of one, and in what the table shows once it is merged
    by event identifier - its engine is ReplacingMergeTree ordered by it - every event
    of an attempt that was reported as successful has exactly one row, whose content
    is the event's, the stamp being that of one of its deliveries; no row is there
    that no attempt sent.  Before the merge a row can be there twice, when groups of
    different deliveries overlap or the server does not drop repeated tokens; if it
    always does, the table has at most one block for each set of deliveries. *)
Theorem ch_stored_once sha256 env strict tries s :
  (forall a b, a ∈ tries -> b ∈ tries -> sha256 (string_bytes (token_text a)) = sha256 (string_bytes (token_text b)) ->
     token_text a = token_text b) ->
  Forall (Forall deliverable) tries ->
  (forall a b x y, a ∈ tries -> b ∈ tries -> x ∈ a -> y ∈ b -> delivery_key x = delivery_key y ->
     unstamped <$> sb_Events x = unstamped <$> sb_Events y) ->
  (forall a b x y, a ∈ tries -> b ∈ tries -> x ∈ events_of a -> y ∈ events_of b -> er_ID x = er_ID y -> unstamped x = unstamped y) ->
  let '(h, errs) := attempts sha256 env tries [] in
  ch_replay strict (mkInserts [] None) h s ->
  (strict = true -> NoDup (in_blocks s).*1) /\
  Forall (fun b => exists a, a ∈ tries /\ a <> [] /\ b = (deduplicationToken sha256 a, rows_of a)) (in_blocks s) /\
  forall view, merged (concat (in_blocks s).*2) view ->
    (forall row, row ∈ view -> exists a, a ∈ tries /\ row ∈ rows_of a) /\
    forall i a e, tries !! i = Some a -> errs !! i = Some None -> e ∈ events_of a ->
      exists row sent, event_row e = Some sent /\ row_content row = row_content sent /\
        filter (fun r => row_id r = Some (idBytes (er_ID e))) view = [row].
Proof.
  intros Hsha Hdel Hre Hid. destruct (attempts_emits sha256 env strict tries tries (reflexivity _) []) as (new & H1 & H2).
  destruct (attempts sha256 env tries []) as [h errs]. cbn [fst snd app] in *. subst h. intros Hr.
  destruct (H2 (mkInserts [] None) s ltac:(split; [intros _|]; constructor) Hr) as ([Hnd HF] & _ & Hok). split_and!; [done|done|].
  rewrite Forall_forall in HF. rewrite Forall_forall in Hdel. intros view (Hv & Hsub & Hall).
  assert (forall row, row ∈ concat (in_blocks s).*2 -> exists a, a ∈ tries /\ row ∈ rows_of a) as Hfrom.
  { intros row Hrow. apply list_elem_of_In, in_concat in Hrow as (rows & Hin & Hrow%list_elem_of_In).
    apply list_elem_of_In, list_elem_of_fmap in Hin as (b & -> & Hb). destruct (HF b Hb) as (a & Ha & _ & ->). by exists a. }
  split; [by intros row Hrow%Hsub; apply Hfrom|]. intros i a e Ha Herr He.
  assert (a <> []) as Hne by (by intros ->; apply elem_of_nil in He).
  destruct (Hok i a Ha Herr Hne) as [Htok Hsome]. apply list_elem_of_lookup_2 in Ha.
  apply list_elem_of_fmap in Htok as (b & Htok & Hb). destruct (HF b Hb) as (a' & Ha' & Hne' & ->). cbn [fst] in Htok.
  rewrite Forall_forall in Hsome. destruct (Hsome e He) as [sent Hsent].
  assert (exists e', e' ∈ events_of a' /\ unstamped e = unstamped e') as (e' & He' & Hu).
  { assert (unstamped e ∈ unstamped <$> events_of a') as (e' & ? & ?)%list_elem_of_fmap; [|by exists e'].
    rewrite <- (token_events sha256 a a') by eauto. by apply list_elem_of_fmap_2. }
  destruct (event_row_unstamped e e' sent Hu Hsent) as (row' & Hrow' & _).
  assert (row' ∈ concat (in_blocks s).*2) as Hin.
  { apply list_elem_of_In, in_concat. exists (rows_of a'). split; apply list_elem_of_In.
    - by apply (list_elem_of_fmap_2 snd _ (deduplicationToken sha256 a', rows_of a')).
    - unfold rows_of. apply list_elem_of_omap. by exists e'. }
  apply Hall, list_elem_of_fmap in Hin as (row & Hrid & Hrow). destruct (Hfrom row (Hsub row Hrow)) as (a2 & Ha2 & Hrow2).
  apply list_elem_of_omap in Hrow2 as (e2 & He2 & Hrow2).
  assert (er_ID e = er_ID e') as Heid by exact (f_equal er_ID Hu).
  assert (er_ID e2 = er_ID e) as H2id.
  { apply idBytes_inj. rewrite <- (event_row_id e2 row Hrow2), <- Hrid, (event_row_id e' row' Hrow'). by rewrite Heid. }
  destruct (event_row_unstamped e2 e row) as (sent' & Hs' & Hc); [by apply (Hid a2 a)|done|]. rewrite Hs' in Hsent. injection Hsent as ->.
  exists row, sent. split_and!; [done|by symmetry|].
  rewrite Heid, <- (event_row_id e' row' Hrow'), Hrid. by apply merged_once.
Qed.

(** ** Examples *)

(** A hash that keeps the first bytes of its input, and a connection whose first send
    is reported as failed although it was carried out. *)
Definition demo_hash (l : bytes) : array 32 := default (zero_array 32) (to_array 32 (take 32 (l ++ replicate 32 zero_byte))).
Definition flaky_env : ChEnv :=
  mkChEnv (fun _ _ _ _ => mkRows None [] None)
    (fun s h q args => match s as s return cdests s * option error with
                       | CFlow => (mkChFlowRow "" "" "" "" "" "" "" 0 0 0 "" "", Some ErrNoRows)
                       | CTerminal => (("", 0), Some ErrNoRows)
                       | CExecution => (mkChExecutionRow "" "" "" "" "" "" 0 "" "" 0 0 0 0, Some ErrNoRows)
                       | CEvent => (mkChEventRow 0 "" "" "" 0 "" 0 0 0 "" "" "" "" "" "" "" "" "" 0 "" "" "" "" "" "" "" "" "" "" 0 [] [] [] [] "" "" "" "" 0 0 0 0 0 "" "" "", Some ErrNoRows)
                       | CEntity => (mkEntitySummary (mkEntityKey Scope_zero "" "") 0 0 0, Some ErrNoRows)
                       | CEntityTimes | CTimes => ((0, 0, 0), Some ErrNoRows)
                       | COverview => ((0, 0, 0, 0, 0, 0, 0, 0, 0), Some ErrNoRows)
                       | CBucket => (mkActivityBucket 0 0 0 0, Some ErrNoRows)
                       | CCount => (mkCountByName "" 0, Some ErrNoRows)
                       | CScan => (mkChScanRow 0 "" "" "" "" "" "" "" "" "" 0 0 [] [] [] [] "", Some ErrNoRows)
                       | CArchive | CTask => (("", ""), Some ErrNoRows)
                       | CFoundArchive => ((0, "", ""), Some ErrNoRows)
                       | CNumber => (0, Some ErrNoRows)
                       | CCandidate => (mkChCandidateRow "" "" 0 0 0 "", Some ErrNoRows)
                       | CState => (("", "", 0, 0, 0), Some ErrNoRows)
                       | CLinks => ("", Some ErrNoRows)
                       end)
    (fun _ _ _ => None) (fun _ _ => None) (fun _ _ _ => None)
    (fun h _ => if existsb (fun c => match c with CSend _ _ => true | _ => false end) h then None else Some (errors_New "timeout"))
    (fun _ => 0).

(** The record of event [n], delivered for the [k]-th time. *)
Definition ch_record (n k : Z) : EventRecord :=
  (base_record (fromEvent (Wire.demo_event "k" [])) (mkMetadata "s" "" "") (zero_array 16)
    (mkDelivery "EVENTS" "c" n (10 * k) k (1234 * k)))
    <| er_ID := copy16 (Z_byte n :: replicate 15 zero_byte) |> <| er_ExecutionAttempt := n |>.
Definition ch_batch (n k : Z) : StorageBatch :=
  mkStorageBatch (zero_array 16) Metadata_zero (mkDelivery "EVENTS" "c" n (10 * k) k (1234 * k)) [ch_record n k].
(** Two deliveries, redelivered together, and one of them again on its own. *)
Definition ch_tries : list (list StorageBatch) := [[ch_batch 1 1; ch_batch 2 1]; [ch_batch 2 2; ch_batch 1 2]; [ch_batch 2 3]].

Lemma ch_row_roundtrip_witness :
  let e := ch_record 1 1 in
  let r := mkChEventRow (er_Timestamp e) (id_text (er_ID e)) (id_text (er_BatchID e)) "EVENTS" 1 "c" 10 1 1000 "s" "" "" "k" "info"
             (id_text (er_FlowID e)) (id_text (er_ExecutionID e)) (id_text (er_ParentExecutionID e)) (id_text (er_RetryOfExecutionID e))
             1 "" "" "" "" "" (id_text (er_ParentID e)) "" "" "" "" 0 [] [] [] [] "" "" "" "" 0 0 0 0 0 "" "" "null" in
  scanCHEvent (r, None) = Ok (ch_read_back e).
Proof.
  intros e r. apply (ch_row_roundtrip e (string_bytes "null") r);
    [reflexivity|by apply Forall_nil|vm_compute; split; discriminate|vm_compute; split; [discriminate|reflexivity]
    |vm_compute; split; [discriminate|reflexivity]|vm_compute; reflexivity].
Defined.


(** The batches and records of the attempts, by event. *)
Lemma ch_tries_batch a x : a ∈ ch_tries -> x ∈ a -> exists k, x = ch_batch 1 k \/ x = ch_batch 2 k.
Proof.
  unfold ch_tries. rewrite !elem_of_cons, elem_of_nil. intros [-> |[-> |[-> |[]]]]; rewrite !elem_of_cons, elem_of_nil;
    intros Hx; eexists; destruct_or! Hx; subst; (by left) || (by right) || done.
Qed.
Lemma ch_tries_event a e : a ∈ ch_tries -> e ∈ events_of a -> exists k, e = ch_record 1 k \/ e = ch_record 2 k.
Proof.
  intros Ha He. apply list_elem_of_In, in_concat in He as (l & Hl & He%list_elem_of_In).
  apply list_elem_of_In, list_elem_of_fmap in Hl as (x & -> & Hx).
  destruct (ch_tries_batch a x Ha Hx) as [k [-> | ->]]; apply list_elem_of_singleton in He as ->; exists k; auto.
Qed.

(** The first send is reported as failed and carried out; the second block is dropped
    for its token, the third, of one delivery alone, is stored beside the first: event 2
    has two rows in the table, and one once it is merged. *)
Definition ch_final : inserts :=
  mkInserts [(deduplicationToken demo_hash [ch_batch 1 1; ch_batch 2 1], rows_of [ch_batch 1 1; ch_batch 2 1]);
             (deduplicationToken demo_hash [ch_batch 2 3], rows_of [ch_batch 2 3])] None.

Lemma ch_stored_once_witness :
  ch_replay false (mkInserts [] None) (attempts demo_hash flaky_env ch_tries []).1 ch_final /\
  (attempts demo_hash flaky_env ch_tries []).2 = [Some (errors_New "timeout"); None; None] /\
  forall view, merged (concat (in_blocks ch_final).*2) view ->
    exists row, filter (fun r => row_id r = Some (idBytes (er_ID (ch_record 2 2)))) view = [row].
Proof.
  assert (ch_replay false (mkInserts [] None) (attempts demo_hash flaky_env ch_tries []).1 ch_final) as Hr.
  { vm_compute. repeat (eapply replay_cons;
      [first [apply step_prepare | eapply step_append; reflexivity
             | eapply step_send_dropped; [reflexivity|by left] | eapply step_send; [reflexivity|discriminate]]|]).
    apply replay_nil. }
  split; [exact Hr|]. split; [vm_compute; reflexivity|].
  pose proof (ch_stored_once demo_hash flaky_env false ch_tries ch_final) as H.
  destruct (attempts demo_hash flaky_env ch_tries []) as [h errs] eqn:E.
  destruct H as (_ & _ & Hok); [| | | |exact Hr|].
  - intros a b Ha Hb H. unfold ch_tries in Ha, Hb. rewrite !elem_of_cons, elem_of_nil in Ha, Hb.
    apply (f_equal array_bytes) in H. destruct_or! Ha; destruct_or! Hb; subst; first [reflexivity|done|vm_compute in H; discriminate H].
  - repeat constructor; vm_compute; discriminate.
  - intros a b x y Ha Hb Hx Hy Hk.
    destruct (ch_tries_batch a x Ha Hx) as [k [-> | ->]], (ch_tries_batch b y Hb Hy) as [k' [-> | ->]]; done.
  - intros a b x y Ha Hb Hx Hy Hid.
    destruct (ch_tries_event a x Ha Hx) as [k [-> | ->]], (ch_tries_event b y Hb Hy) as [k' [-> | ->]]; try done;
      apply (f_equal array_bytes) in Hid; vm_compute in Hid; discriminate Hid.
  - intros view Hview. destruct (Hok view Hview) as [_ Hrow].
    destruct (Hrow 1%nat [ch_batch 2 2; ch_batch 1 2] (ch_record 2 2)) as (row & _ & _ & _ & Hf);
      [reflexivity|apply (f_equal snd) in E; vm_compute in E; by subst errs|by left|].
    exists row. exact Hf.
Defined.
