(* ===== verification/ChSql.v ===== *)
(** * A reference semantics of ClickHouse's event lists

    What ClickHouse documents for the statements of the event lists: [SELECT columns
    FROM trail_events WHERE conditions ORDER BY ... LIMIT ?].  The reader works on the
    text, token by token, and takes the arguments for its question marks in order.
    How the driver sends a time is a parameter. *)

From S2P Require Import Prelude Ids Events GoLib GoText JsonText Storage Query PgQuery PgSql PgSqlProofs ChQuery.

(** ** Values and rows *)

Definition crow := list (string * carg).

Definition ccolumn (r : crow) (name : string) : option carg :=
  match find (fun kv => str_eqb kv.1 name) r with Some kv => Some kv.2 | None => None end.

(** Texts and identifiers compare by their bytes. *)
Definition carg_compare (a b : carg) : option comparison :=
  match a, b with
  | CTime x, CTime y => Some (x ?= y)
  | CInt x, CInt y => Some (x ?= y)
  | CText x, CText y => Some (bytes_compare (string_bytes x) (string_bytes y))
  | _, _ => None
  end.

Definition cpair_compare (a1 a2 b1 b2 : carg) : option comparison :=
  match carg_compare a1 b1 with Some Eq => carg_compare a2 b2 | c => c end.

(** ** Conditions *)

Inductive cop := XEq | XOrd (o : op).

Definition cop_holds (o : cop) (c : comparison) : bool :=
  match o with
  | XEq => match c with Eq => true | _ => false end
  | XOrd o => op_holds o c
  end.
Definition cop_text (o : cop) : string := match o with XEq => "=" | XOrd o => op_text o end.

(** A condition with its argument; [spaced] says how it is written. *)
Inductive ccond :=
| XCmp (spaced : bool) (col : string) (o : cop) (v : carg)
| XPair (col1 col2 : string) (o : op) (v1 v2 : carg).

Section Semantics.
Context (sent : Z -> Z).

(** An argument as the server sees it. *)
Definition csent (v : carg) : carg := match v with CTime t => CTime (sent t) | _ => v end.

Definition xholds (r : crow) (c : ccond) : bool :=
  match c with
  | XCmp _ col o v =>
      match ccolumn r col with
      | Some a => match carg_compare a (csent v) with Some c => cop_holds o c | None => false end
      | None => false
      end
  | XPair col1 col2 o v1 v2 =>
      match ccolumn r col1, ccolumn r col2 with
      | Some a1, Some a2 =>
          match cpair_compare a1 a2 (csent v1) (csent v2) with Some c => op_holds o c | None => false end
      | _, _ => false
      end
  end.

(** ** Reading *)

Definition read_cop (s : string) : option cop :=
  if str_eqb s "=" then Some XEq else XOrd <$> read_op s.

(** [col>=?] and [col<?] without spaces. *)
Definition read_tight (s : string) : option (string * cop) :=
  match cut_byte ">" s with
  | Some (col, "=?") => Some (col, XOrd OGe)
  | Some _ => None
  | None => match cut_byte "<" s with Some (col, "?") => Some (col, XOrd OLt) | _ => None end
  end.

(** One condition off the front, with its arguments. *)
Definition read_cond (ts : list string) (args : list carg) : option (ccond * list string * list carg) :=
  match ts with
  | lhs :: o :: rhs :: rest =>
      match read_cop o with
      | Some o =>
          if str_eqb rhs "?" then
            match args with v :: args => Some (XCmp true lhs o v, rest, args) | [] => None end
          else if str_eqb rhs "(?,?)" then
            match read_list lhs, o, args with
            | Some [c1; c2], XOrd o, v1 :: v2 :: args => Some (XPair c1 c2 o v1 v2, rest, args)
            | _, _, _ => None
            end
          else None
      | None =>
          match read_tight lhs, args with
          | Some (col, o'), v :: args => Some (XCmp false col o' v, o :: rhs :: rest, args)
          | _, _ => None
          end
      end
  | _ => None
  end.

(** Conditions joined by AND. *)
Fixpoint read_cconds (fuel : nat) (ts : list string) (args : list carg) : option (list ccond * list string * list carg) :=
  match fuel with
  | O => None
  | S fuel =>
      '(c, rest, args) ← read_cond ts args;
      match rest with
      | "AND" :: rest => '(cs, rest, args) ← read_cconds fuel rest args; Some (c :: cs, rest, args)
      | _ => Some ([c], rest, args)
      end
  end.

Definition read_cwhere (ts : list string) (args : list carg) : option (list ccond * list string * list carg) :=
  match ts with
  | "WHERE" :: ts => read_cconds (length ts) ts args
  | _ => Some ([], ts, args)
  end.

(** [ORDER BY c1 D,c2 D LIMIT ?], and the limit. *)
Definition read_corder (ts : list string) (args : list carg) : option (string * string * bool * Z) :=
  match ts, args with
  | ["ORDER"; "BY"; c1; d; d2; "LIMIT"; "?"], [CInt n] =>
      '(d1, c2) ← cut_byte "," d;
      if str_eqb d1 "DESC" && str_eqb d2 "DESC" then Some (c1, c2, true, n)
      else if str_eqb d1 "ASC" && str_eqb d2 "ASC" then Some (c1, c2, false, n)
      else None
  | _, _ => None
  end.

(** ** Statements *)

Definition crow_leb (c1 c2 : string) (desc : bool) (a b : crow) : bool :=
  match ccolumn a c1, ccolumn a c2, ccolumn b c1, ccolumn b c2 with
  | Some a1, Some a2, Some b1, Some b2 =>
      match cpair_compare a1 a2 b1 b2 with
      | Some Eq => true
      | Some Lt => negb desc
      | Some Gt => desc
      | None => false
      end
  | _, _, _, _ => false
  end.
Definition crow_le (c1 c2 : string) (desc : bool) (a b : crow) : Prop := crow_leb c1 c2 desc a b = true.
#[global] Instance crow_le_dec c1 c2 desc a b : Decision (crow_le c1 c2 desc a b).
Proof. unfold crow_le. apply _. Defined.

(** The name of an enumeration's value is what [toString] gives. *)
Definition source_column (expr : string) : string := if str_eqb expr "toString(level)" then "level" else expr.
Definition cproject (cols : list string) (r : crow) : option (list carg) := mapM (ccolumn r) (source_column <$> cols).

(** The answer to a SELECT; [None] when the text is not such a statement. *)
Definition ch_select (t : list crow) (q : string) (args : list carg) : option (list (list carg)) :=
  match tokens q with
  | "SELECT" :: cols :: "FROM" :: "trail_events" :: ts =>
      '(cs, ts, args) ← read_cwhere ts args;
      '(c1, c2, desc, n) ← read_corder ts args;
      if n <? 0 then None
      else
        let found := filter (fun r => forallb (xholds r) cs = true) t in
        mapM (cproject (Split cols ",")) (take (Z.to_nat n) (merge_sort (crow_le c1 c2 desc) found))
  | _ => None
  end.
End Semantics.

(** ** Generated conditions are read as they are meant *)

Definition ccond_tokens (c : ccond) : list string :=
  match c with
  | XCmp true col o _ => [col; cop_text o; "?"]
  | XCmp false col o _ => [col +:+ cop_text o +:+ "?"]
  | XPair c1 c2 o _ _ => ["(" +:+ c1 +:+ "," +:+ c2 +:+ ")"; op_text o; "(?,?)"]
  end.
Definition ccond_args (c : ccond) : list carg := match c with XCmp _ _ _ v => [v] | XPair _ _ _ v1 v2 => [v1; v2] end.

(** Columns told from the syntax around them; only two operators are written tightly. *)
Definition ccond_ok (c : ccond) : bool :=
  match c with
  | XCmp true col _ _ => col_ok col
  | XCmp false col o _ =>
      col_ok col && free "<" col && match o with XOrd OGe | XOrd OLt => true | _ => false end
  | XPair c1 c2 _ _ _ => col_ok c1 && col_ok c2
  end.

Lemma read_cop_text o : read_cop (cop_text o) = Some o.
Proof. by destruct o as [|[]]. Qed.

Lemma read_tight_ok col o : ccond_ok (XCmp false col o (CInt 0)) = true -> read_tight (col +:+ cop_text o +:+ "?") = Some (col, o).
Proof.
  unfold ccond_ok, col_ok, read_tight. intros H. destruct o as [|[]]; bool_cases; try done; cbn [cop_text op_text].
  - change (">=" +:+ "?") with (String ">" "=?"). by rewrite cut_byte_app_free.
  - change ("<" +:+ "?") with (String "<" "?"). rewrite (cut_byte_free ">"), cut_byte_app_free; [done|done|].
    rewrite free_app. apply andb_true_iff. by split.
Qed.

Lemma read_cond_ok c next rest more : ccond_ok c = true -> read_cop next = None -> rest <> [] ->
  read_cond (ccond_tokens c ++ next :: rest) (ccond_args c ++ more) = Some (c, next :: rest, more).
Proof.
  intros Hc Hn Hr. destruct c as [[] col o v|c1 c2 o v1 v2]; cbn [ccond_tokens ccond_args app read_cond].
  - by rewrite read_cop_text.
  - destruct rest as [|r rest]; [done|]. rewrite Hn. by rewrite read_tight_ok.
  - unfold ccond_ok, col_ok in Hc. bool_cases. change (op_text o) with (cop_text (XOrd o)). rewrite read_cop_text.
    rewrite read_list_pair by done. reflexivity.
Qed.

Fixpoint cconj_tokens (cs : list ccond) : list string :=
  match cs with
  | [] => []
  | [c] => ccond_tokens c
  | c :: cs => ccond_tokens c ++ "AND" :: cconj_tokens cs
  end.

Lemma cconj_tokens_app cs cs' : cs <> [] -> cs' <> [] ->
  cconj_tokens (cs ++ cs') = cconj_tokens cs ++ "AND" :: cconj_tokens cs'.
Proof.
  intros Hcs Hcs'. induction cs as [|c cs IH]; [done|]. destruct cs as [|c2 cs].
  - cbn [app]. by destruct cs'.
  - cbn [app cconj_tokens] in *. rewrite IH by done. by rewrite <- app_assoc.
Qed.

Lemma cconj_tokens_nonempty cs : cs <> [] -> cconj_tokens cs <> [].
Proof.
  destruct cs as [|c [|c2 cs]]; [done|..]; intros _; cbn [cconj_tokens]; destruct c as [[]|]; done.
Qed.

Lemma length_cconj_tokens cs : (length cs <= length (cconj_tokens cs))%nat.
Proof.
  induction cs as [|c cs IH]; [done|]. destruct cs as [|c2 cs].
  - destruct c as [[]|]; simpl; lia.
  - cbn [cconj_tokens] in *. rewrite length_app. cbn [length] in *. destruct c as [[]|]; simpl; lia.
Qed.

Lemma read_cconds_ok fuel cs rest more : cs <> [] -> Forall (fun c => ccond_ok c = true) cs -> (length cs <= fuel)%nat ->
  rest <> [] -> read_cconds fuel (cconj_tokens cs ++ "ORDER" :: rest) (concat (ccond_args <$> cs) ++ more) =
    Some (cs, "ORDER" :: rest, more).
Proof.
  intros Hne HF. revert fuel. induction HF as [|c cs Hc HF IH]; intros fuel Hf Hr; [done|].
  destruct fuel as [|fuel]; [simpl in Hf; lia|]. destruct cs as [|c2 cs].
  - cbn [cconj_tokens fmap list_fmap concat read_cconds]. rewrite app_nil_r. by rewrite read_cond_ok.
  - assert (cconj_tokens (c :: c2 :: cs) ++ "ORDER" :: rest =
      ccond_tokens c ++ "AND" :: (cconj_tokens (c2 :: cs) ++ "ORDER" :: rest)) as ->
      by (cbn [cconj_tokens]; by rewrite <- app_assoc).
    rewrite fmap_cons. cbn [concat read_cconds]. rewrite <- app_assoc, read_cond_ok; [|done|done|].
    2: { pose proof (cconj_tokens_nonempty (c2 :: cs) ltac:(done)). by destruct (cconj_tokens (c2 :: cs)). }
    cbn [mbind option_bind]. rewrite IH by (done || (simpl in *; lia)). done.
Qed.

(** ** The builder *)

Definition cpart_reads (part : string) (cs : list ccond) : Prop :=
  cs <> [] /\ Forall (fun c => ccond_ok c = true) cs /\ tokens part = cconj_tokens cs.

(** The parts of [b] are texts of conditions whose arguments are those of [b]. *)
Definition reads_as (b : chWhere) (css : list (list ccond)) : Prop :=
  Forall2 cpart_reads (chw_parts b) css /\ chw_args b = concat (ccond_args <$> concat css).

Lemma reads_as_zero : reads_as chWhere_zero [].
Proof. by split; [constructor|]. Qed.

Lemma reads_as_add part cs args b css :
  reads_as b css -> cpart_reads part cs -> args = concat (ccond_args <$> cs) -> reads_as (add part args b) (css ++ [cs]).
Proof.
  intros [H1 H2] Hp ->. split.
  - apply Forall2_app; [done|]. constructor; [exact Hp|constructor].
  - cbn. rewrite H2, concat_app, fmap_app, concat_app. cbn [concat]. by rewrite app_nil_r.
Qed.

Lemma ctokens_join parts css : parts <> [] -> Forall2 cpart_reads parts css ->
  tokens (Join parts " AND ") = cconj_tokens (concat css) /\ concat css <> [].
Proof.
  intros Hne HF. induction HF as [|part cs parts css Hp HF IH]; [done|].
  destruct Hp as (Hcs & _ & Ht). destruct HF as [|part2 cs2 parts css Hp2 HF].
  - cbn [Join concat]. by rewrite app_nil_r.
  - destruct (IH ltac:(done)) as [IH1 IH2].
    change (Join (part :: part2 :: parts) " AND ") with (part +:+ String " " ("AND" +:+ String " " (Join (part2 :: parts) " AND "))).
    unfold tokens in *. rewrite !Split_app, Ht, IH1. change (concat (cs :: cs2 :: css)) with (cs ++ concat (cs2 :: css)).
    rewrite cconj_tokens_app by done. split; [done|]. by destruct cs.
Qed.

Lemma read_cwhere_sql b css head rest more : reads_as b css -> tokens rest <> [] ->
  exists w, tokens (head +:+ sql b +:+ String " " ("ORDER" +:+ String " " rest)) = tokens head ++ w ++ "ORDER" :: tokens rest /\
    read_cwhere (w ++ "ORDER" :: tokens rest) (chw_args b ++ more) = Some (concat css, "ORDER" :: tokens rest, more).
Proof.
  intros [HF Hargs] Hrest. unfold sql. destruct (chw_parts b) as [|part parts] eqn:Hp.
  - exists []. apply Forall2_nil_inv_l in HF as ->. rewrite string_app_nil_l. unfold tokens. rewrite !Split_app, Hargs. done.
  - destruct (ctokens_join (part :: parts) css ltac:(done) HF) as [Ht Hcs].
    assert (Forall (fun c => ccond_ok c = true) (concat css)) as Hok.
    { clear -HF. induction HF as [|p cs ps css (_ & Hc & _) _ IH]; [constructor|]. by apply Forall_app. }
    exists ("WHERE" :: cconj_tokens (concat css)). split.
    + change (" WHERE " +:+ Join (part :: parts) " AND ") with (String " " ("WHERE" +:+ String " " (Join (part :: parts) " AND "))).
      rewrite (string_app_cons " "), string_app_assoc, (string_app_cons " "). unfold tokens in *.
      rewrite !Split_app, Ht. done.
    + cbn [app read_cwhere]. rewrite Hargs. apply read_cconds_ok; [done|done| |done].
      rewrite length_app. pose proof (length_cconj_tokens (concat css)). lia.
Qed.
