(* ===== verification/ChEvents.v ===== *)
(** * Event lists over ClickHouse

    The rows [WriteBatches] appends, what an [EventFilter] selects of the records, and
    that the statement [listCHEvents] generates returns exactly those, in order; from
    it, what following the cursors visits.  The driver's treatment
    of times is a parameter: with one that rounds them, cursors repeat nothing on the
    way down but pass over records of a time they have reached. *)

From S2P Require Import Prelude Ids Events GoLib GoText Json JsonText GoTime Wire Payload Storage LinkJson Query Trace PgQuery PgSql Keyset PgSqlProofs PgWrite PgEvents PgPages PgRetention PgScan ChQuery ChWrite ChWriteProofs ChSql.

(** ** Stored records *)

Definition ch_cols : list string :=
  Eval vm_compute in
    match tokens eventRows with _ :: cols :: _ => source_column <$> Split cols "," | _ => [] end.

Definition ch_values (e : EventRecord) : list carg := table_row (ChWrite.event_values e (link_bytes e)).
Definition ch_stored (e : EventRecord) : crow := zip ch_cols (ch_values e).




Section Driver.
Context (sent : Z -> Z).

(** ** Selection *)












(** *** The columns *)
















Definition ch_extra (flow : option FlowID) : option (string * carg) :=
  option_map (fun id : FlowID => ("flow_id", idBytes id)) flow.


(** ** Order and cursors *)

Definition ch_key (e : EventRecord) : key := (er_Timestamp e, er_ID e).





(** ** The statement *)







(** ** Pages *)











(** A client that follows the cursors until there is no more. *)
Definition ch_follow (env : ChEnv) (f : EventFilter) (flow : option FlowID) (limit : Z) (desc : bool)
    : nat -> Cursor -> E ChCall (result (list EventRecord)) :=
  follow (fun c => page_steps (listCHEvents env f (mkPageRequest limit c desc) (ch_extra flow))).



(** *** Times that are rounded *)




(** [e] comes after [c] in a descending list, but not after the cursor of [c] as the
    driver sends it: it is of a time the driver's rounding takes from [c]. *)
Definition passed_over (c e : EventRecord) : Prop :=
  follows true (ch_key c) (ch_key e) = true /\ follows true (sent (er_Timestamp c), er_ID c) (ch_key e) = false.

Lemma passed_over_rounded c e : passed_over c e -> sent (er_Timestamp c) <= er_Timestamp e <= er_Timestamp c.
Proof.
  intros [H1 H2]. unfold follows, key_compare in *. cbn [fst snd ch_key] in *.
  destruct (Z.compare_spec (er_Timestamp e) (sent (er_Timestamp c))), (Z.compare_spec (er_Timestamp e) (er_Timestamp c)); try done; lia.
Qed.


End Driver.

(** ** A connection that is the reference semantics *)

Definition ctext_of (a : carg) : string := match a with CText s => s | _ => "" end.
Definition cint_of (a : carg) : Z := match a with CInt z => z | CTime t => t | _ => 0 end.
Definition ctexts_of (a : carg) : list string := match a with CTexts l => l | _ => [] end.
Definition cnums_of (a : carg) : list Z := match a with CNums l => l | _ => [] end.

Definition row_of_cargs (v : list carg) : ChEventRow :=
  let at_ n := nth n v (CInt 0) in
  let t n := ctext_of (at_ n) in let z n := cint_of (at_ n) in let l n := ctexts_of (at_ n) in
  mkChEventRow (z 0%nat) (t 1%nat) (t 2%nat) (t 3%nat) (z 4%nat) (t 5%nat) (z 6%nat) (z 7%nat) (z 8%nat) (t 9%nat) (t 10%nat)
    (t 11%nat) (t 12%nat) (t 13%nat) (t 14%nat) (t 15%nat) (t 16%nat) (t 17%nat) (z 18%nat) (t 19%nat) (t 20%nat) (t 21%nat)
    (t 22%nat) (t 23%nat) (t 24%nat) (t 25%nat) (t 26%nat) (t 27%nat) (t 28%nat) (z 29%nat) (l 30%nat) (l 31%nat) (l 32%nat)
    (cnums_of (at_ 33%nat)) (t 34%nat) (t 35%nat) (t 36%nat) (t 37%nat) (z 38%nat) (z 39%nat) (z 40%nat) (z 41%nat) (z 42%nat)
    (t 43%nat) (t 44%nat) (t 45%nat).


Definition ch_reference (sent : Z -> Z) (t : list crow) : ChEnv :=
  mkChEnv
    (fun s _ q args =>
       match s as s return Rows (cdests s) with
       | CEvent => match ch_select sent t q args with
                   | Some values => mkRows None ((fun v => (row_of_cargs v, None)) <$> values) None
                   | None => no_rows
                   end
       | _ => no_rows
       end)
    (ch_row flaky_env) (fun _ _ _ => None) (fun _ _ => None) (fun _ _ _ => None) (fun _ _ => None) (fun _ => 0).



(** A driver that sends whole seconds. *)
Definition whole_seconds (t : Z) : Z := t / 1000000000 * 1000000000.
Definition half_second (e : EventRecord) : EventRecord := e <| er_Timestamp := er_Timestamp e + 500000000 |>.

Definition found_ids (found : result (list EventRecord)) : result (list string) :=
  match found with Ok l => Ok (map (fun e => String_ (er_ID e)) l) | Fail e => Fail e | Panic msg => Panic msg end.

(** Within a second its cursors, followed downwards, stand before the records of that
    second that are still to come, and they are lost. *)
Example ch_seconds_lose_records :
  let env := ch_reference whole_seconds (ch_stored <$> (half_second <$> demo_table)) in
  found_ids (ch_follow env demo_filter None 2 true 5 Cursor_zero []).2 = found_ids (Ok [demo_event 4 "a"; demo_event 3 "a"]).
Proof. vm_compute. reflexivity. Qed.

