(* ===== verification/ChRetention.v ===== *)
(** * Retention in ClickHouse (src/storage/clickhouse/retention.go)

    The store side of a retention run over a database without transactions: the
    catalogue is checked before anything is written, payload candidates and the
    summaries to rebuild are staged before the events are deleted, and the staged
    rebuilds are removed only after they were done. *)

From S2P Require Import Prelude Ids Events GoLib GoText Json JsonText GoTime Wire Payload Storage LinkJson Archive ArchiveJson Query Trace Retention PgQuery ChQuery ChWrite.

(** ** Cursors and rows *)

Definition chRetentionCursor (t : Z) (id : bytes) : string := Itoa (UnixNano t) +:+ String ":" (hex_Encode id).

Definition cursor_error : error := errors_New "invalid retention cursor".
Definition number_error : error := errors_New "strconv.ParseInt: parsing failed".

Definition parseCHRetentionCursor (v : string) : result (Z * bytes) :=
  match cut_byte ":" v with
  | None => Fail cursor_error
  | Some (a, b) =>
      let '(n, ok) := Atoi a in
      if negb ok then Fail number_error else id ← hex_DecodeString b; Ok (n, id)
  end.

Definition chRetentionLevel (v : string) : Level :=
  if str_eqb v "debug" then LevelDebug
  else if str_eqb v "warn" then LevelWarn
  else if str_eqb v "error" then LevelError
  else LevelInfo.

(** The text of the first key of the class, when there is a text at its place. *)
Fixpoint class_of (keys texts : list string) : string :=
  match keys, texts with
  | k :: keys, text :: texts => if str_eqb k FieldRetentionClass then text else class_of keys texts
  | _, _ => ""
  end.

Definition hex_text (s : string) : string := hex_Encode (string_bytes s).

Definition retention_event (r : ChScanRow) (links : list PayloadLink) : REvent :=
  mkREvent (hex_text (cs_id r)) (chRetentionCursor (cs_time r) (string_bytes (cs_id r))) (hex_text (cs_flow r)) (hex_text (cs_execution r))
    (cs_time r) (cs_kind r) (cs_service r) (cs_environment r) (chRetentionLevel (cs_level r)) (cs_flow_status r)
    (cs_execution_status r) (class_of (cs_keys r) (cs_texts r)) (cs_status r) (negb (cs_success r =? 0))
    ((fun p => mkRPayload (pl_Role p) (pl_Ref p)) <$> links).

(** The body of the row loop. *)
Definition scan_row (row : ChScanRow * option error) : REvent * option error :=
  let '(r, e) := row in
  match e with
  | Some e => (retention_event r [], Some e)
  | None =>
      match unmarshal_Links (string_bytes (cs_payloads r)) with
      | Ok links => (retention_event r links, None)
      | Fail e => (retention_event r [], Some e)
      | Panic _ => (retention_event r [], Some type_error)
      end
  end.

Definition scan_query (cursor : option (Z * bytes)) (limit : Z) : string * list carg :=
  let q := "SELECT event_time,event_id,flow_id,execution_id,kind,toString(level),service,environment,flow_status,execution_status,http_status_code,http_success,field_keys,field_types,field_text,field_num,payload_refs_json FROM trail_events FINAL" in
  let '(q, args) :=
    match cursor with
    | Some (ts, id) => (q +:+ " WHERE (event_time,event_id)>(?,?)", [CTime ts; CText (bytes_string id)])
    | None => (q, [])
    end in
  (q +:+ " ORDER BY event_time,event_id LIMIT ?", args ++ [CInt (i64 (limit + 1))]).

Definition EventPage_zero : EventPage := mkEventPage [] "" false.
Definition finish_page (events : list REvent) (limit : Z) : EventPage :=
  let more := limit <? Z.of_nat (length events) in
  let events := if more then take (Z.to_nat limit) events else events in
  mkEventPage events (match last events with Some e => re_Cursor e | None => "" end) more.

(** ** Statements *)

Definition covered_sql : string := "SELECT count() FROM trail_event_archives FINAL WHERE archive_id=? AND event_id IN ?".
Definition staged_sql : string :=
  "SELECT count(),max(eligible_at),min(candidate_at) FROM trail_payload_gc_candidates FINAL WHERE store=? AND object_key=?".
Definition candidates_insert : string :=
  "INSERT INTO trail_payload_gc_candidates (store,object_key,ref_json,eligible_at,candidate_at,retry_after,attempts,last_error,archive_id,version)".
Definition delete_sql : string := "ALTER TABLE trail_events DELETE WHERE event_id IN ? SETTINGS mutations_sync=2".
Definition load_sql : string := eventRows +:+ " FINAL WHERE event_id IN ? ORDER BY event_time,event_id".
Definition archive_insert : string := "INSERT INTO trail_archives VALUES(?,?,?,?,?)".
Definition event_archives_insert : string := "INSERT INTO trail_event_archives".
Definition archives_sql : string :=
  "SELECT manifest_json,manifest_ref_json FROM trail_archives FINAL ORDER BY created_at DESC,archive_id LIMIT ? OFFSET ?".
Definition get_archive_sql : string :=
  "SELECT count(),any(manifest_json),any(manifest_ref_json) FROM trail_archives FINAL WHERE archive_id=?".
Definition rebuilds_insert : string := "INSERT INTO trail_retention_summary_rebuilds".
Definition rebuilds_sql : string := "SELECT kind,identity FROM trail_retention_summary_rebuilds FINAL ORDER BY kind,identity LIMIT 1000".
Definition rebuilds_done : string := "ALTER TABLE trail_retention_summary_rebuilds DELETE WHERE identity IN ? SETTINGS mutations_sync=2".
Definition flow_summaries_delete : string := "ALTER TABLE trail_flow_summaries DELETE WHERE flow_id IN ? SETTINGS mutations_sync=2".
Definition flow_summaries_insert : string :=
  "INSERT INTO trail_flow_summaries SELECT flow_id,service,environment,minState(event_time),maxState(event_time),uniqExactState(event_id),argMaxState(entity_type,tuple(event_time,event_id)),argMaxState(entity_id,tuple(event_time,event_id)),argMaxState(execution_id,tuple(event_time,event_id)),argMaxIfState(flow_status,tuple(event_time,event_id),notEmpty(flow_status)),argMinState(kind,tuple(event_time,event_id)),argMaxState(kind,tuple(event_time,event_id)) FROM trail_events WHERE flow_id IN ? GROUP BY flow_id,service,environment".
Definition flow_terminals_delete : string := "ALTER TABLE trail_flow_terminals DELETE WHERE flow_id IN ? SETTINGS mutations_sync=2".
Definition flow_terminals_insert : string :=
  "INSERT INTO trail_flow_terminals SELECT flow_id,event_time,service,environment,entity_type,entity_id,execution_id,flow_status FROM trail_events WHERE flow_id IN ? AND flow_status IN ('succeeded','failed','cancelled')".
Definition execution_summaries_delete : string :=
  "ALTER TABLE trail_execution_summaries DELETE WHERE execution_id IN ? SETTINGS mutations_sync=2".
Definition execution_summaries_insert : string :=
  "INSERT INTO trail_execution_summaries SELECT execution_id,service,environment,minState(event_time),maxState(event_time),uniqExactState(event_id),uniqExactStateIf(flow_id,flow_id!=unhex('00000000000000000000000000000000')),argMaxIfState(execution_kind,tuple(event_time,event_id),notEmpty(execution_kind)),argMaxIfState(execution_source,tuple(event_time,event_id),notEmpty(execution_source)),argMaxIfState(execution_status,tuple(event_time,event_id),notEmpty(execution_status)),maxState(execution_attempt),argMaxState(parent_execution_id,tuple(event_time,event_id)),argMaxState(retry_of_execution_id,tuple(event_time,event_id)) FROM trail_events WHERE execution_id IN ? GROUP BY execution_id,service,environment".
Definition candidates_sql : string :=
  "SELECT ref_json,archive_id,eligible_at,candidate_at,attempts,last_error FROM trail_payload_gc_candidates FINAL WHERE archive_id!='' AND eligible_at<=now64(9) AND candidate_at<=? AND retry_after<=now64(9) ORDER BY candidate_at,store,object_key LIMIT ?".
Definition links_sql : string := "SELECT payload_refs_json FROM trail_events WHERE position(payload_refs_json,?)>0".
Definition forget_sql : string := "ALTER TABLE trail_payload_gc_candidates DELETE WHERE store=? AND object_key=? SETTINGS mutations_sync=2".
Definition state_sql : string :=
  "SELECT ref_json,archive_id,eligible_at,candidate_at,attempts FROM trail_payload_gc_candidates FINAL WHERE store=? AND object_key=?".
Definition retry_sql : string := candidates_insert +:+ " VALUES(?,?,?,?,?,?,?,?,?,?)".

Definition receipt_error : error := errors_New "trail/clickhouse: archive receipt is required".
Definition coverage_error : error := errors_New "trail/clickhouse: archive receipt does not cover deletion batch".
Definition archive_id_error : error := errors_New "trail/clickhouse: invalid archive ID".

Definition decode_ids (events : list REvent) : result (list string) :=
  go_range (fun _ e => b ← hex_DecodeString (re_ID e); Ok (bytes_string b)) events.

Definition marshal_Ref (r : Ref) : result bytes := j ← enc_Ref r; Ok (json_print j).
Definition unmarshal_Ref (data : string) : result Ref := j ← json_parse (string_bytes data); dec_struct assign_Ref j Ref_zero.

(** The receipt of a catalogue row, and the error; a part whose decoding fails is left
    at its zero value. *)
Definition decode_receipt (manifest ref : string) : Receipt * option error :=
  match unmarshal_manifest (string_bytes manifest) with
  | Ok m =>
      match unmarshal_Ref ref with
      | Ok r => (mkReceipt m r, None)
      | Fail e => (mkReceipt m Ref_zero, Some e)
      | Panic _ => (mkReceipt m Ref_zero, Some type_error)
      end
  | Fail e => (mkReceipt Manifest_zero Ref_zero, Some e)
  | Panic _ => (mkReceipt Manifest_zero Ref_zero, Some type_error)
  end.
Definition scan_archive (row : (string * string) * option error) : Receipt * option error :=
  match row with
  | (_, Some e) => (mkReceipt Manifest_zero Ref_zero, Some e)
  | ((manifest, ref), None) => decode_receipt manifest ref
  end.

Definition scan_candidate (row : ChCandidateRow * option error) : Candidate * option error :=
  let '(r, e) := row in
  let c ref := mkCandidate ref (cc_archive r) (cc_eligible r) (cc_candidate r) (cc_attempts r) (cc_error r) in
  match e with
  | Some e => (c Ref_zero, Some e)
  | None =>
      match unmarshal_Ref (cc_ref r) with
      | Ok ref => (c ref, None)
      | Fail e => (c Ref_zero, Some e)
      | Panic _ => (c Ref_zero, Some type_error)
      end
  end.

(** A payload that becomes a candidate: its reference and times. *)
Record staged := mkStaged { st_ref : Ref; st_eligible : Z; st_candidate : Z }.

Definition zeros : string := bytes_string (replicate 32 "0"%char).

(** ** Operations

    [order] is the order in which Go ranges over a map used as a set. *)

Section Store.
Context (sha256 : bytes -> array 32) (order : gset string -> list string) (env : ChEnv).
#[local] Abbreviation S := (E ChCall).
#[local] Abbreviation Query := (Query env).
#[local] Abbreviation QueryRow := (QueryRow env).
#[local] Abbreviation Exec := (Exec env).
#[local] Abbreviation Now := (Now env).

(** *** Scanning *)

Definition scan_from (cursor : option (Z * bytes)) (limit : Z) : S (EventPage * option error) :=
  let '(q, args) := scan_query cursor limit in
  rows ← Query CScan q args;
  mret (match rs_err rows with
        | Some e => (EventPage_zero, Some e)
        | None =>
            match collect_some scan_row (rs_rows rows) [] with
            | (out, Some e) => (mkEventPage out "" false, Some e)
            | (out, None) =>
                match rs_end rows with
                | Some e => (mkEventPage out "" false, Some e)
                | None => (finish_page out limit, None)
                end
            end
        end).

Definition ScanRetentionEvents (req : ScanRequest) : S (EventPage * option error) :=
  if sr_Limit req <=? 0 then mret (EventPage_zero, None)
  else if str_eqb (sr_Cursor req) "" then scan_from None (sr_Limit req)
  else match parseCHRetentionCursor (sr_Cursor req) with
  | Ok cursor => scan_from (Some cursor) (sr_Limit req)
  | Fail e => mret (EventPage_zero, Some e)
  | Panic _ => mret (EventPage_zero, Some type_error)
  end.

(** *** Summaries to rebuild *)

(** The summaries of the events, each kind with its identifier. *)
Definition summary_keys (events : list REvent) : list (string * string) :=
  concat ((fun e => [("flow", re_FlowID e); ("execution", re_ExecutionID e)]) <$> events).

(** The double loop: the error and how many rebuilds were appended. *)
Fixpoint stage_rebuilds (keys : list (string * string)) (now : Z) (seen : gset string) (count : nat) : S (nat * option error) :=
  match keys with
  | [] => mret (count, None)
  | (kind, id) :: keys =>
      if str_eqb id "" || str_eqb id zeros || bool_decide (kind +:+ id ∈ seen)
      then stage_rebuilds keys now seen count
      else match hex_DecodeString id with
      | Ok b =>
          er ← Append env rebuilds_insert [CText kind; CText (bytes_string b); CTime now];
          match er with
          | Some er => _ ← Abort rebuilds_insert; mret (count, Some er)
          | None => stage_rebuilds keys now ({[kind +:+ id]} ∪ seen) (Datatypes.S count)
          end
      | Fail er => _ ← Abort rebuilds_insert; mret (count, Some er)
      | Panic _ => mret (count, Some type_error)
      end
  end.

Definition stageRetentionSummaryRebuilds (events : list REvent) : S (option error) :=
  now ← Now;
  err ← Prepare env rebuilds_insert "";
  match err with
  | Some err => mret (Some err)
  | None =>
      '(count, err) ← stage_rebuilds (summary_keys events) now ∅ 0;
      match err with
      | Some err => mret (Some err)
      | None =>
          if Nat.eqb count 0 then _ ← Abort rebuilds_insert; mret None
          else Send env rebuilds_insert
      end
  end.

(** An identifier joins its set unless it stands for none. *)
Definition join_set (id : string) (set : gset string) : result (gset string) :=
  if str_eqb id "" || str_eqb id zeros then Ok set
  else b ← hex_DecodeString id; Ok ({[bytes_string b]} ∪ set).
Fixpoint identity_sets (events : list REvent) (flowSet executionSet : gset string) : result (gset string * gset string) :=
  match events with
  | [] => Ok (flowSet, executionSet)
  | e :: events =>
      flowSet ← join_set (re_FlowID e) flowSet;
      executionSet ← join_set (re_ExecutionID e) executionSet;
      identity_sets events flowSet executionSet
  end.

(** Statements in sequence, up to the first that fails. *)
Fixpoint exec_all (statements : list string) (args : list carg) : S (option error) :=
  match statements with
  | [] => mret None
  | q :: statements =>
      err ← Exec q args;
      match err with Some err => mret (Some err) | None => exec_all statements args end
  end.

Definition flow_rebuild : list string := [flow_summaries_delete; flow_summaries_insert; flow_terminals_delete; flow_terminals_insert].
Definition execution_rebuild : list string := [execution_summaries_delete; execution_summaries_insert].

Definition rebuildRetentionSummaries (events : list REvent) : S (option error) :=
  match identity_sets events ∅ ∅ with
  | Ok (flowSet, executionSet) =>
      let flows := order flowSet in
      let executions := order executionSet in
      err ← (if Nat.eqb (length flows) 0 then mret None else exec_all flow_rebuild [CTexts flows]);
      match err with
      | Some err => mret (Some err)
      | None => if Nat.eqb (length executions) 0 then mret None else exec_all execution_rebuild [CTexts executions]
      end
  | Fail err => mret (Some err)
  | Panic _ => mret (Some type_error)
  end.

Definition task_event (task : string * string) : REvent :=
  let hexID := hex_text task.2 in
  let '(flow, execution) := if str_eqb task.1 "flow" then (hexID, "") else ("", hexID) in
  mkREvent "" "" flow execution time_zero "" "" "" 0 "" "" "" 0 false [].

(** The rest of [ReconcileRetention] over the listed tasks. *)
Definition reconcile_tasks (rows : Rows (string * string)) : S (option error) :=
  match rs_err rows with
  | Some err => mret (Some err)
  | None =>
      match collectCH (scanned id) (rs_rows rows) with
      | Ok tasks =>
          match rs_end rows with
          | Some err => mret (Some err)
          | None =>
              match tasks with
              | [] => mret None
              | _ =>
                  err ← rebuildRetentionSummaries (task_event <$> tasks);
                  match err with
                  | Some err => mret (Some err)
                  | None => Exec rebuilds_done [CTexts tasks.*2]
                  end
              end
          end
      | Fail err => mret (Some err)
      | Panic _ => mret (Some type_error)
      end
  end.

Definition ReconcileRetention : S (option error) := rows ← Query CTask rebuilds_sql []; reconcile_tasks rows.

(** *** Deleting *)

(** The payloads that become candidates, with the times of an entry that exists. *)
Fixpoint stage_payloads (times : gmap string Z) (now : Z) (payloads : list RPayload) (seen : gset string) (items : list staged)
    : S (list staged * option error) :=
  match payloads with
  | [] => mret (items, None)
  | p :: payloads =>
      let ref := rp_Ref p in
      let k := payloadKey ref in
      match times !! k with
      | Some at_ =>
          if bool_decide (k ∈ seen) || str_eqb (ref_Store ref) "" || str_eqb (ref_Key ref) ""
          then stage_payloads times now payloads seen items
          else
            '(row, er) ← QueryRow CTimes staged_sql [CText (ref_Store ref); CText (ref_Key ref)];
            match er with
            | Some er => mret (items, Some er)
            | None =>
                let '(count, oldEligible, oldCandidate) := row in
                let '(eligible, candidate) :=
                  if 0 <? count
                  then (if at_ <? oldEligible then oldEligible else at_, if oldCandidate <? now then oldCandidate else now)
                  else (at_, now) in
                stage_payloads times now payloads ({[k]} ∪ seen) (items ++ [mkStaged ref eligible candidate])
            end
      | None => stage_payloads times now payloads seen items
      end
  end.

(** The rows of the staged candidates: how many were appended, and the error. *)
Fixpoint append_candidates (items : list staged) (now : Z) (archiveID : string) (n : Z) : S (Z * option error) :=
  match items with
  | [] => mret (n, None)
  | item :: items =>
      match marshal_Ref (st_ref item) with
      | Ok raw =>
          er ← Append env candidates_insert
                 [CText (ref_Store (st_ref item)); CText (ref_Key (st_ref item)); CText (bytes_string raw); CTime (st_eligible item);
                  CTime (st_candidate item); CTime now; CInt 0; CText ""; CText archiveID; CTime now];
          match er with
          | Some er => _ ← Abort candidates_insert; mret (n, Some er)
          | None => append_candidates items now archiveID (u64 (n + 1))
          end
      | Fail er => _ ← Abort candidates_insert; mret (n, Some er)
      | Panic _ => mret (n, Some type_error)
      end
  end.

(** From the staged candidates on: what is returned with an error is what was counted. *)
Definition delete_staged (req : DeleteRequest) (ids : list string) (now : Z) (items : list staged) : S (DeleteResult * option error) :=
  err ← Prepare env candidates_insert "";
  match err with
  | Some err => mret (mkDeleteResult 0 0, Some err)
  | None =>
      '(n, err) ← append_candidates items now (dq_ArchiveID req) 0;
      match err with
      | Some err => mret (mkDeleteResult 0 n, Some err)
      | None =>
          err ← (if 0 <? n then Send env candidates_insert else _ ← Abort candidates_insert; mret None);
          match err with
          | Some err => mret (mkDeleteResult 0 0, Some err)
          | None =>
              err ← stageRetentionSummaryRebuilds (dq_Events req);
              match err with
              | Some err => mret (mkDeleteResult 0 n, Some err)
              | None =>
                  err ← Exec delete_sql [CTexts ids];
                  match err with
                  | Some err => mret (mkDeleteResult 0 n, Some err)
                  | None =>
                      err ← ReconcileRetention;
                      mret (mkDeleteResult (Z.of_nat (length ids)) n, err)
                  end
              end
          end
      end
  end.

Definition DeleteRetentionEvents (req : DeleteRequest) : S (DeleteResult * option error) :=
  let out := mkDeleteResult 0 0 in
  if Nat.eqb (length (dq_Events req)) 0 then mret (out, None)
  else if dq_DryRun req then mret (out, None)
  else if str_eqb (dq_ArchiveID req) "" then mret (out, Some receipt_error)
  else match decode_ids (dq_Events req) with
  | Ok ids =>
      '(archived, err) ← QueryRow CNumber covered_sql [CText (dq_ArchiveID req); CTexts ids];
      match err with
      | Some err => mret (out, Some err)
      | None =>
          if negb (archived =? Z.of_nat (length ids)) then mret (out, Some coverage_error)
          else
            now ← Now;
            '(items, err) ← stage_payloads (dq_PayloadEligibleAt req) now (concat (re_Payloads <$> dq_Events req)) ∅ [];
            match err with
            | Some err => mret (out, Some err)
            | None => delete_staged req ids now items
            end
      end
  | Fail er => mret (out, Some er)
  | Panic _ => mret (out, Some type_error)
  end.

(** *** Archives *)

(** What was read beside an error is left out. *)
Definition LoadArchiveEvents (events : list REvent) : S (result (list EventRecord)) :=
  match decode_ids events with
  | Ok ids =>
      rows ← Query CEvent load_sql [CTexts ids];
      mret (match rs_err rows with
            | Some e => Fail e
            | None =>
                out ← collectCH scanCHEvent (rs_rows rows);
                match rs_end rows with Some e => Fail e | None => Ok out end
            end)
  | Fail e => mret (Fail e)
  | Panic m => mret (Panic m)
  end.

Fixpoint append_archived (archiveID : string) (now : Z) (ids : list string) : S (option error) :=
  match ids with
  | [] => mret None
  | id :: ids =>
      match ParseEventID id with
      | Ok parsed =>
          er ← Append env event_archives_insert [idBytes parsed; CText archiveID; CTime now; CTime now];
          match er with
          | Some er => _ ← Abort event_archives_insert; mret (Some er)
          | None => append_archived archiveID now ids
          end
      | Fail er => _ ← Abort event_archives_insert; mret (Some er)
      | Panic _ => mret (Some type_error)
      end
  end.

Definition RecordArchive (receipt : Receipt) : S (option error) :=
  let m := rc_Manifest receipt in
  match marshal_manifest m with
  | Ok manifest =>
      match marshal_Ref (rc_ManifestRef receipt) with
      | Ok ref =>
          now ← Now;
          err ← Exec archive_insert
                  [CText (mf_ID m); CText (bytes_string manifest); CText (bytes_string ref); CTime (mf_CreatedAt m); CTime now];
          match err with
          | Some err => mret (Some err)
          | None =>
              err ← Prepare env event_archives_insert "";
              match err with
              | Some err => mret (Some err)
              | None =>
                  err ← append_archived (mf_ID m) now (mf_EventIDs m);
                  match err with Some err => mret (Some err) | None => Send env event_archives_insert end
              end
          end
      | Fail e => mret (Some e)
      | Panic _ => mret (Some type_error)
      end
  | Fail e => mret (Some e)
  | Panic _ => mret (Some type_error)
  end.

Definition ListArchives (offset limit : Z) : S (list Receipt * bool * option error) :=
  if (offset <? 0) || (limit <? 1) || (500 <? limit) then mret ([], false, Some ErrInvalidCursor)
  else
    rows ← Query CArchive archives_sql [CInt (i64 (limit + 1)); CInt offset];
    mret (match rs_err rows with
          | Some e => ([], false, Some e)
          | None =>
              match collect_some scan_archive (rs_rows rows) [] with
              | (out, Some e) => (out, false, Some e)
              | (out, None) =>
                  let more := limit <? Z.of_nat (length out) in
                  (if more then take (Z.to_nat limit) out else out, more, rs_end rows)
              end
          end).

Definition GetArchive (id : string) : S (Receipt * option error) :=
  '(row, err) ← QueryRow CFoundArchive get_archive_sql [CText id];
  let '(count, manifest, ref) := row in
  mret (match err with
        | Some err => (mkReceipt Manifest_zero Ref_zero, Some err)
        | None =>
            if count =? 0 then (mkReceipt Manifest_zero Ref_zero, Some ErrNotFound) else decode_receipt manifest ref
        end).

Definition restore_stream : string := "trail-archive-restore".

(** The events are rewritten in the caller's slice; [None] when they are left alone. *)
Definition RestoreArchiveEvents (archiveID : string) (events : list EventRecord)
    : S (option (list EventRecord) * Z * option error) :=
  match events with
  | [] => mret (None, 0, None)
  | _ =>
      match hex_DecodeString archiveID with
      | Ok raw =>
          if (length raw <? 16)%nat then mret (None, 0, Some archive_id_error)
          else
            let batchID := copy16 (take 16 raw) in
            let events := (fun e => e <| er_BatchID := batchID |>
                                      <| er_Delivery := (er_Delivery e) <| d_Stream := restore_stream |> |>) <$> events in
            err ← WriteBatches sha256 env
                    [mkStorageBatch batchID Metadata_zero (Delivery_zero <| d_Stream := restore_stream |>) events];
            mret (Some events, match err with Some _ => 0 | None => Z.of_nat (length events) end, err)
      | _ => mret (None, 0, Some archive_id_error)
      end
  end.

(** *** Payloads *)

Definition ListPayloadCandidates (before limit : Z) : S (list Candidate * option error) :=
  rows ← Query CCandidate candidates_sql [CTime before; CInt limit];
  mret (match rs_err rows with
        | Some e => ([], Some e)
        | None =>
            match collect_some scan_candidate (rs_rows rows) [] with
            | (out, Some e) => (out, Some e)
            | (out, None) => (out, rs_end rows)
            end
        end).

(** Whether a row links [ref]; a row that does not decode does not. *)
Definition links_ref (ref : Ref) (raw : string) : bool :=
  match unmarshal_Links (string_bytes raw) with
  | Ok links => existsb (fun p => str_eqb (ref_Store (pl_Ref p)) (ref_Store ref) && str_eqb (ref_Key (pl_Ref p)) (ref_Key ref)) links
  | _ => false
  end.

(** The row loop; the error of the iteration itself is not looked at. *)
Fixpoint find_link (ref : Ref) (rows : list (string * option error)) : result bool :=
  match rows with
  | [] => Ok false
  | (_, Some e) :: _ => Fail e
  | (raw, None) :: rows => if links_ref ref raw then Ok true else find_link ref rows
  end.

Fixpoint referenced_loop (refs : list Ref) (out : gmap string bool) : S (gmap string bool * option error) :=
  match refs with
  | [] => mret (out, None)
  | ref :: refs =>
      rows ← Query CLinks links_sql [CText (ref_Key ref)];
      match rs_err rows with
      | Some err => mret (∅, Some err)
      | None =>
          match find_link ref (rs_rows rows) with
          | Ok found => referenced_loop refs (<[payloadKey ref := found]> out)
          | Fail err => mret (∅, Some err)
          | Panic _ => mret (∅, Some type_error)
          end
      end
  end.
Definition ReferencedPayloads (refs : list Ref) : S (gmap string bool * option error) := referenced_loop refs ∅.

Definition hour : Z := 3600000000000.

Definition CompletePayloadCandidate (ref : Ref) (failure : string) : S (option error) :=
  if str_eqb failure "" || str_eqb failure "referenced"
  then Exec forget_sql [CText (ref_Store ref); CText (ref_Key ref)]
  else
    '(row, err) ← QueryRow CState state_sql [CText (ref_Store ref); CText (ref_Key ref)];
    match err with
    | Some err => mret (Some err)
    | None =>
        let '(raw, archiveID, eligible, candidate, attempts) := row in
        now ← Now;
        Exec retry_sql [CText (ref_Store ref); CText (ref_Key ref); CText raw; CTime eligible; CTime candidate; CTime (now + hour);
                        CInt (u32 (attempts + 1)); CText failure; CText archiveID; CTime now]
    end.
End Store.
