(* ===== verification/ChRetentionProofs.v ===== *)
(** * Deleting from ClickHouse

    Without transactions, safety is in the order of the calls: the catalogue is
    checked first, payload candidates and rebuild tasks are stored before the events
    go, and tasks are forgotten only after their summaries were rebuilt. *)

From S2P Require Import Prelude Ids Events GoLib GoText Json JsonText GoTime Wire Payload Storage LinkJson Archive ArchiveJson Query Trace Retention PgQuery PgRetentionProofs Catalogue ChQuery ChWrite ChWriteProofs ChRetention.

(** ** Candidates *)

(** The row of a payload that becomes a candidate no earlier than at [t]. *)
Definition staged_call (key : string) (t : Z) (c : ChCall) : Prop :=
  exists ref raw eligible rest, c = CAppend candidates_insert (CText (ref_Store ref) :: CText (ref_Key ref) :: CText raw :: CTime eligible :: rest) None /\
    payloadKey ref = key /\ t <= eligible.

Lemma stage_payloads_emits env times now payloads seen items :
  emits (stage_payloads env times now payloads seen items) (fun '(items', err) new =>
    Forall (fun c => exists q args, c = CQueryRow q args) new /\
    (err = None -> exists more, items' = items ++ more /\ (length more <= length payloads)%nat /\
       forall p t, p ∈ payloads -> collectable_from times (rp_Ref p, t) ->
         payloadKey (rp_Ref p) ∈ seen \/ exists it, it ∈ more /\ payloadKey (st_ref it) = payloadKey (rp_Ref p) /\ t <= st_eligible it)).
Proof.
  revert seen items. induction payloads as [|p payloads IH]; intros seen items; cbn [stage_payloads].
  { apply emits_ret. split; [done|]. intros _. exists []. rewrite app_nil_r. split_and!; [done|done|]. by intros p t ?%elem_of_nil. }
  assert (forall seen items, (forall t, collectable_from times (rp_Ref p, t) -> payloadKey (rp_Ref p) ∈ seen) ->
    emits (stage_payloads env times now payloads seen items) (fun '(items', err) new =>
    Forall (fun c => exists q args, c = CQueryRow q args) new /\
    (err = None -> exists more, items' = items ++ more /\ (length more <= length (p :: payloads))%nat /\
       forall p' t, p' ∈ p :: payloads -> collectable_from times (rp_Ref p', t) ->
         payloadKey (rp_Ref p') ∈ seen \/ exists it, it ∈ more /\ payloadKey (st_ref it) = payloadKey (rp_Ref p') /\ t <= st_eligible it))) as Hskip.
  { intros seen' items' Hp. eapply emits_mono; [apply IH|]. intros [items1 err] new [HF H]. split; [done|]. intros Herr.
    destruct (H Herr) as (more & Hm & Hlen & Hall). exists more. split_and!; [done|cbn; lia|].
    intros p' t [->|Hp']%elem_of_cons Ht; [left; by eapply Hp|by eapply Hall]. }
  destruct (times !! payloadKey (rp_Ref p)) as [t0|] eqn:Et; [|apply Hskip; intros t [Ht _]; cbn in Ht; congruence].
  destruct (bool_decide (payloadKey (rp_Ref p) ∈ seen) || str_eqb (ref_Store (rp_Ref p)) "" || str_eqb (ref_Key (rp_Ref p)) "") eqn:Eskip.
  { apply Hskip. intros t (_ & Hs & Hk). cbn in Hs, Hk.
    apply orb_true_iff in Eskip as [[Hin|Hs']%orb_true_iff|Hk']; [by apply bool_decide_eq_true in Hin| |];
      unfold str_eqb in *; exfalso; [apply bool_decide_eq_true in Hs'|apply bool_decide_eq_true in Hk']; done. }
  apply emits_ask_seq. intros [[[count oldE] oldC] [er|]].
  { apply emits_ret. split; [|done]. constructor; [by do 2 eexists|constructor]. }
  set (it := mkStaged (rp_Ref p) (if 0 <? count then if t0 <? oldE then oldE else t0 else t0) (if 0 <? count then if oldC <? now then oldC else now else now)).
  replace (let '(eligible, candidate) := _ in _) with
    (stage_payloads env times now payloads ({[payloadKey (rp_Ref p)]} ∪ seen) (items ++ [it])) by (unfold it; by destruct (0 <? count)).
  eapply emits_mono; [apply IH|]. intros [items1 err] new [HF H]. split; [constructor; [by do 2 eexists|done]|]. intros Herr.
  destruct (H Herr) as (more & -> & Hlen & Hall). exists (it :: more). rewrite <- app_assoc. split_and!; [done|cbn; lia|].
  intros p' t [->|Hp']%elem_of_cons Ht.
  - right. exists it. split_and!; [by left|done|]. destruct Ht as [Ht _]. cbn in Ht. rewrite Et in Ht. injection Ht as <-.
    unfold it. cbn [st_eligible]. destruct (0 <? count); [|lia]. destruct (Z.ltb_spec t0 oldE); lia.
  - destruct (Hall p' t Hp' Ht) as [Hin|(it' & H1 & H2 & H3)]; [|right; exists it'; split_and!; [by right|done|done]].
    apply elem_of_union in Hin as [Hin%elem_of_singleton|Hin]; [|by left]. right. exists it. split_and!; [by left|by rewrite Hin|].
    destruct Ht as [Ht _]. cbn in Ht. rewrite Hin, Et in Ht. injection Ht as <-.
    unfold it. cbn [st_eligible]. destruct (0 <? count); [|lia]. destruct (Z.ltb_spec t0 oldE); lia.
Qed.

(** Calls on a batch of its own. *)
Definition batch_call (q : string) (c : ChCall) : Prop :=
  (exists token err, c = CPrepare q token err) \/ (exists values err, c = CAppend q values err) \/ (exists err, c = CSend q err) \/ c = CAbort q.

Lemma append_candidates_emits env items now archiveID n : in_u 64 n ->
  emits (append_candidates env items now archiveID n) (fun '(n', err) new =>
    Forall (batch_call candidates_insert) new /\
    (err = None -> n' = u64 (n + Z.of_nat (length items)) /\
       forall it, it ∈ items -> exists c, c ∈ new /\ staged_call (payloadKey (st_ref it)) (st_eligible it) c)).
Proof.
  revert n. induction items as [|it items IH]; intros n Hn; cbn [append_candidates].
  { apply emits_ret. split; [done|]. intros _. split; [by rewrite Z.add_0_r, wrapu_id|]. by intros it ?%elem_of_nil. }
  destruct (marshal_Ref (st_ref it)) as [raw|er|m].
  - apply emits_ask_seq. intros [er|].
    + apply emits_ask_seq. intros _. apply emits_ret. split; [|done]. constructor; [right; left; by do 2 eexists|].
      constructor; [by do 3 right|constructor].
    + eapply emits_mono; [apply IH, wrapu_in; lia|]. intros [n' err] new [HF H]. split; [constructor; [right; left; by do 2 eexists|done]|].
      intros Herr. destruct (H Herr) as [-> Hall]. split; [cbn [length]; unfold wrapu; rewrite Zplus_mod_idemp_l; f_equal; lia|].
      intros it' [->|Hit]%elem_of_cons.
      * eexists. split; [by left|]. do 4 eexists. split; [reflexivity|]. split; [done|lia].
      * destruct (Hall it' Hit) as (c & Hc & Hs). exists c. split; [by right|done].
  - apply emits_ask_seq. intros _. apply emits_ret. split; [|done]. constructor; [by do 3 right|constructor].
  - by apply emits_ret.
Qed.

(** ** Rebuild tasks *)

(** [c] was appended to the batch [q], which was then sent. *)
Definition sent_in (q : string) (c : ChCall) (pre : list ChCall) : Prop :=
  exists p1 p2, pre = p1 ++ CSend q None :: p2 /\ c ∈ p1.

Definition task_call (kind : string) (id : bytes) (now : Z) : ChCall :=
  CAppend rebuilds_insert [CText kind; CText (bytes_string id); CTime now] None.
Definition is_kind (kind : string) : Prop := kind = "flow" \/ kind = "execution".
Definition has_summary (id : string) : Prop := id <> "" /\ id <> zeros.

Lemma kind_app_inj kind kind' id id' : is_kind kind -> is_kind kind' -> kind +:+ id = kind' +:+ id' -> kind = kind' /\ id = id'.
Proof. intros [-> | ->] [-> | ->] H; try discriminate H; split; try done; by eapply (inj (String.append _)). Qed.

Lemma stage_rebuilds_emits env keys now seen count : Forall (fun k => is_kind k.1) keys ->
  emits (stage_rebuilds env keys now seen count) (fun '(count', err) new =>
    Forall (batch_call rebuilds_insert) new /\
    (err = None -> (count <= count')%nat /\ forall kind id, (kind, id) ∈ keys -> has_summary id ->
       kind +:+ id ∈ seen \/ ((count < count')%nat /\ exists b, hex_DecodeString id = Ok b /\ task_call kind b now ∈ new))).
Proof.
  intros HF. revert seen count. induction HF as [|[kind id] keys Hkind HF IH]; intros seen count; cbn [stage_rebuilds].
  { apply emits_ret. split; [done|]. intros _. split; [done|]. by intros kind id ?%elem_of_nil. }
  destruct (str_eqb id "" || str_eqb id zeros || bool_decide (kind +:+ id ∈ seen)) eqn:Eskip.
  { eapply emits_mono; [apply IH|]. intros [count' err] new [Hb H]. split; [done|]. intros Herr. destruct (H Herr) as [Hc Hall].
    split; [done|]. intros kind' id' [[= -> ->]|Hin]%elem_of_cons [H1 H2]; [left|by apply Hall].
    apply orb_true_iff in Eskip as [[E|E]%orb_true_iff|E]; [by apply bool_decide_eq_true in E..|by apply bool_decide_eq_true in E]. }
  destruct (hex_DecodeString id) as [b|er|m] eqn:Eb.
  - apply emits_ask_seq. intros [er|].
    + apply emits_ask_seq. intros _. apply emits_ret. split; [|done].
      constructor; [right; left; by do 2 eexists|]. constructor; [by do 3 right|constructor].
    + eapply emits_mono; [apply IH|]. intros [count' err] new [Hb H]. split; [constructor; [right; left; by do 2 eexists|done]|].
      intros Herr. destruct (H Herr) as [Hc Hall]. split; [lia|]. intros kind' id' Hin Hs.
      assert ((kind', id') = (kind, id) \/ ((kind', id') ∈ keys /\ (kind', id') <> (kind, id))) as [[= -> ->]|[Hin' Hne]].
      { apply elem_of_cons in Hin as [->|Hin]; [by left|]. destruct (decide ((kind', id') = (kind, id))); auto. }
      * right. split; [lia|]. exists b. split; [done|by left].
      * destruct (Hall kind' id' Hin' Hs) as [Hseen|(Hlt & b' & H1 & H2)].
        -- apply elem_of_union in Hseen as [Heq%elem_of_singleton|Hseen]; [|by left]. destruct Hne.
           rewrite Forall_forall in HF. destruct (kind_app_inj kind' kind id' id (HF _ Hin') Hkind Heq) as [-> ->]. done.
        -- right. split; [lia|]. exists b'. split; [done|by right].
  - apply emits_ask_seq. intros _. apply emits_ret. split; [|done]. constructor; [by do 3 right|constructor].
  - by apply emits_ret.
Qed.

(** Every summary of the events has a task that was sent. *)
Definition rebuilds_staged (events : list REvent) (pre : list ChCall) : Prop :=
  forall kind id, (kind, id) ∈ summary_keys events -> has_summary id ->
    exists b now, hex_DecodeString id = Ok b /\ sent_in rebuilds_insert (task_call kind b now) pre.

Lemma summary_kinds events : Forall (fun k => is_kind k.1) (summary_keys events).
Proof.
  apply Forall_concat, Forall_fmap, Forall_true. intros e. cbn. constructor; [by left|]. constructor; [by right|constructor].
Qed.

Definition clock_or_batch (q : string) (c : ChCall) : Prop := (exists t, c = CNow t) \/ batch_call q c.

Lemma stageRetentionSummaryRebuilds_emits env events : emits (stageRetentionSummaryRebuilds env events) (fun err new =>
  Forall (clock_or_batch rebuilds_insert) new /\ (err = None -> rebuilds_staged events new)).
Proof.
  unfold stageRetentionSummaryRebuilds. apply emits_ask_seq. intros now. apply emits_ask_seq. intros [e|].
  { apply emits_ret. split; [|done]. constructor; [left; by eexists|]. constructor; [right; left; by do 2 eexists|constructor]. }
  eapply emits_seq; [apply stage_rebuilds_emits, summary_kinds|]. intros [count err] new [Hb H].
  assert (Forall (clock_or_batch rebuilds_insert) (CNow now :: CPrepare rebuilds_insert "" None :: new)) as HF.
  { constructor; [left; by eexists|]. constructor; [right; left; by do 2 eexists|]. eapply Forall_impl; [exact Hb|]. by right. }
  destruct err as [e|]; [apply emits_ret; by rewrite app_nil_r|]. destruct (H eq_refl) as [_ Hall].
  destruct (Nat.eqb_spec count 0) as [->|Hne].
  - apply emits_ask_seq. intros _. apply emits_ret. split.
    + rewrite !app_comm_cons. apply Forall_app. split; [done|]. constructor; [by right; do 3 right|constructor].
    + intros _ kind id Hin Hs. destruct (Hall kind id Hin Hs) as [?|[? _]]; [set_solver|lia].
  - apply emits_ask. intros err. split.
    + rewrite !app_comm_cons. apply Forall_app. split; [done|]. constructor; [by right; right; right; left; eexists|constructor].
    + intros -> kind id Hin Hs. destruct (Hall kind id Hin Hs) as [?|(_ & b & Hb' & Hc)]; [set_solver|].
      exists b, now. split; [done|]. exists (CNow now :: CPrepare rebuilds_insert "" None :: new), []. split; [done|]. by do 2 right.
Qed.

(** ** Rebuilding *)

Definition exec_call (statements : list string) (args : list carg) (c : ChCall) : Prop :=
  exists q err, q ∈ statements /\ c = CExec q args err.

Lemma exec_all_emits env statements args : emits (exec_all env statements args) (fun err new =>
  Forall (exec_call statements args) new /\ (err = None -> new = (fun q => CExec q args None) <$> statements)).
Proof.
  induction statements as [|q statements IH]; cbn [exec_all]; [by apply emits_ret|].
  apply emits_ask_seq. intros [e|].
  - apply emits_ret. split; [|done]. constructor; [|constructor]. exists q, (Some e). split; [by left|done].
  - eapply emits_mono; [exact IH|]. intros err new [HF H]. split; [|by intros ->%H]. constructor; [exists q, None; split; [by left|done]|].
    eapply Forall_impl; [exact HF|]. intros c (q' & e & Hq & ->). exists q', e. split; [by right|done].
Qed.

(** The statements that rebuild the summaries of [ids], all carried out. *)
Definition rebuilt (statements : list string) (ids : list string) (pre : list ChCall) : Prop :=
  ids <> [] -> exists p1 p2, pre = p1 ++ ((fun q => CExec q [CTexts ids] None) <$> statements) ++ p2.

Definition rebuild_call (c : ChCall) : Prop := exists ids, exec_call (flow_rebuild ++ execution_rebuild) [CTexts ids] c.

Lemma exec_call_sub statements statements' args c : statements ⊆ statements' -> exec_call statements args c -> exec_call statements' args c.
Proof. intros Hs (q & err & Hq & ->). exists q, err. auto. Qed.

Lemma rebuild_emits order env events : emits (rebuildRetentionSummaries order env events) (fun err new =>
  Forall rebuild_call new /\
  (err = None -> exists F X, identity_sets events ∅ ∅ = Ok (F, X) /\ rebuilt flow_rebuild (order F) new /\ rebuilt execution_rebuild (order X) new)).
Proof.
  unfold rebuildRetentionSummaries. destruct (identity_sets events ∅ ∅) as [[F X]|e|m]; [|by apply emits_ret..].
  assert (forall statements ids, statements ⊆ flow_rebuild ++ execution_rebuild ->
    emits (if Nat.eqb (length ids) 0 then mret None else exec_all env statements [CTexts ids]) (fun err new =>
      Forall rebuild_call new /\ (err = None -> ids <> [] -> new = (fun q => CExec q [CTexts ids] None) <$> statements))) as Hpart.
  { intros statements ids Hsub. destruct (Nat.eqb_spec (length ids) 0) as [H0|_]; [apply emits_ret; split; [done|]; by destruct ids|].
    eapply emits_mono; [apply exec_all_emits|]. intros err new [HF H]. split; [|auto]. eapply Forall_impl; [exact HF|].
    intros c Hc. exists ids. by eapply exec_call_sub. }
  eapply emits_seq; [apply (Hpart flow_rebuild); intros q; rewrite elem_of_app; by left|]. intros [e|] n1 [HF1 H1].
  { apply emits_ret. by rewrite app_nil_r. }
  eapply emits_mono; [apply (Hpart execution_rebuild); intros q; rewrite elem_of_app; by right|]. intros err n2 [HF2 H2].
  split; [by apply Forall_app|]. intros Herr. exists F, X. split_and!; [done| |].
  - intros Hne. exists [], n2. cbn [app]. by rewrite (H1 eq_refl Hne).
  - intros Hne. exists n1, []. by rewrite app_nil_r, (H2 Herr Hne).
Qed.

Definition reconcile_call (c : ChCall) : Prop :=
  c = CQuery rebuilds_sql [] \/ rebuild_call c \/ exists args err, c = CExec rebuilds_done args err.

(** Tasks are forgotten last, when everything they ask for was done. *)
Lemma ReconcileRetention_emits order env : emits (ReconcileRetention order env) (fun err new =>
  Forall reconcile_call new /\
  forall pre args e post, new = pre ++ CExec rebuilds_done args e :: post ->
    post = [] /\ exists h0 tasks F X, collectCH (scanned id) (rs_rows (ch_query env CTask h0 rebuilds_sql [])) = Ok tasks /\
      args = [CTexts tasks.*2] /\ identity_sets (task_event <$> tasks) ∅ ∅ = Ok (F, X) /\
      rebuilt flow_rebuild (order F) pre /\ rebuilt execution_rebuild (order X) pre).
Proof.
  assert (forall new, Forall rebuild_call new -> forall args e, CExec rebuilds_done args e ∉ CQuery rebuilds_sql [] :: new) as Hnot.
  { intros new HF args e [?|Hin]%elem_of_cons; [done|]. rewrite Forall_forall in HF. destruct (HF _ Hin) as (ids & q & err & Hq & [= <- _ _]).
    revert Hq. by apply (bool_decide_unpack _). }
  assert (forall new args e pre post, Forall rebuild_call new -> CQuery rebuilds_sql [] :: new = pre ++ CExec rebuilds_done args e :: post -> False) as Habs.
  { intros new args e pre post HF Heq. apply (Hnot new HF args e). rewrite Heq. apply elem_of_app. right. by left. }
  unfold ReconcileRetention. apply emits_ask_seq_at. intros h0. set (rows := ch_query env CTask h0 rebuilds_sql [] : Rows (string * string)).
  unfold reconcile_tasks.
  assert (forall err : option error, emits (mret err : E ChCall (option error)) (fun err n => Forall reconcile_call (CQuery rebuilds_sql [] :: n) /\
    forall pre args e post, CQuery rebuilds_sql [] :: n = pre ++ CExec rebuilds_done args e :: post ->
    post = [] /\ exists h0 tasks F X, collectCH (scanned id) (rs_rows (ch_query env CTask h0 rebuilds_sql [])) = Ok tasks /\
      args = [CTexts tasks.*2] /\ identity_sets (task_event <$> tasks) ∅ ∅ = Ok (F, X) /\
      rebuilt flow_rebuild (order F) pre /\ rebuilt execution_rebuild (order X) pre)) as Hret.
  { intros err. apply emits_ret. split; [constructor; [by left|constructor]|]. intros pre args e post H. by destruct (Habs [] args e pre post ltac:(constructor) H). }
  destruct (rs_err rows) as [e|]; [exact (Hret _)|].
  destruct (collectCH (scanned id) (rs_rows rows)) as [tasks|e|m] eqn:Erows; [|exact (Hret _)..].
  destruct (rs_end rows) as [e|]; [exact (Hret _)|]. destruct tasks as [|task tasks]; [exact (Hret _)|]. set (all := task :: tasks).
  eapply emits_seq; [apply rebuild_emits|]. intros err new [HF H].
  assert (Forall reconcile_call (CQuery rebuilds_sql [] :: new)) as HR.
  { constructor; [by left|]. eapply Forall_impl; [exact HF|]. intros c Hc. by right; left. }
  destruct err as [e|].
  { apply emits_ret. rewrite app_nil_r. split; [done|]. intros pre args e' post Heq. by destruct (Habs new args e' pre post HF Heq). }
  apply emits_ask. intros err. split; [rewrite app_comm_cons; apply Forall_app; split; [done|]; constructor; [by do 2 right; do 2 eexists|constructor]|].
  intros pre args e post Heq. destruct post as [|c post _] using rev_ind.
  - rewrite app_comm_cons in Heq. apply app_inj_tail in Heq as [<- Heq]. simplify_eq. split; [done|]. destruct (H eq_refl) as (F & X & H1 & H2 & H3).
    exists h0, all, F, X. split_and!; [exact Erows|done|done| |].
    + intros Hn. destruct (H2 Hn) as (p1 & p2 & ->). by exists (CQuery rebuilds_sql [] :: p1), p2.
    + intros Hn. destruct (H3 Hn) as (p1 & p2 & ->). by exists (CQuery rebuilds_sql [] :: p1), p2.
  - rewrite !app_comm_cons, app_assoc in Heq. apply app_inj_tail in Heq as [Heq _]. by destruct (Habs new args e pre post HF Heq).
Qed.

(** ** Deletion *)

Definition no_delete (l : list ChCall) : Prop := Forall (fun c => forall args e, c <> CExec delete_sql args e) l.

Lemma batch_no_delete q l : Forall (batch_call q) l -> no_delete l.
Proof.
  intros HF. eapply Forall_impl; [exact HF|].
  by intros c [(? & ? & ->)|[(? & ? & ->)|[(? & ->)| ->]]].
Qed.
Lemma clock_no_delete q l : Forall (clock_or_batch q) l -> no_delete l.
Proof.
  intros HF. eapply Forall_impl; [exact HF|].
  by intros c [(? & ->)|[(? & ? & ->)|[(? & ? & ->)|[(? & ->)| ->]]]].
Qed.
Lemma reconcile_no_delete l : Forall reconcile_call l -> no_delete l.
Proof.
  intros HF. eapply Forall_impl; [exact HF|]. intros c [->|[(ids & q & err & Hq & ->)|(args & err & ->)]] args' e'; [done| |].
  - intros [= -> _ _]. revert Hq. by apply (bool_decide_unpack _).
  - intros [=].
Qed.

(** Every payload of the batch that becomes collectable has a candidate that was sent. *)
Definition payloads_staged (req : DeleteRequest) (pre : list ChCall) : Prop :=
  forall e p t, e ∈ dq_Events req -> p ∈ re_Payloads e -> collectable_from (dq_PayloadEligibleAt req) (rp_Ref p, t) ->
    exists c, staged_call (payloadKey (rp_Ref p)) t c /\ sent_in candidates_insert c pre.

(** What a call did: nothing was deleted, or one deletion with everything staged. *)
Definition deletion (req : DeleteRequest) (ids : list string) (out : DeleteResult) (err : option error) (new : list ChCall) : Prop :=
  (no_delete new /\ dr_EventsDeleted out = 0 /\ err <> None) \/
  exists pre e post, new = pre ++ CExec delete_sql [CTexts ids] e :: post /\ no_delete pre /\ no_delete post /\
    rebuilds_staged (dq_Events req) pre /\ payloads_staged req pre /\
    match e with
    | None => dr_EventsDeleted out = Z.of_nat (length ids)
    | Some _ => dr_EventsDeleted out = 0 /\ err = e
    end.

Lemma sent_in_app q c p1 pre p2 : sent_in q c pre -> sent_in q c (p1 ++ pre ++ p2).
Proof. intros (a & b & -> & Hc). exists (p1 ++ a), (b ++ p2). rewrite <- !app_assoc. split; [done|]. apply elem_of_app. by right. Qed.

Lemma rebuilds_staged_app events p1 pre p2 : rebuilds_staged events pre -> rebuilds_staged events (p1 ++ pre ++ p2).
Proof. intros H kind id Hin Hs. destruct (H kind id Hin Hs) as (b & now & Hb & Hc). exists b, now. split; [done|]. by apply sent_in_app. Qed.

Lemma delete_staged_emits order env req ids now items :
  Z.of_nat (length items) < 2 ^ 64 ->
  (forall e p t, e ∈ dq_Events req -> p ∈ re_Payloads e -> collectable_from (dq_PayloadEligibleAt req) (rp_Ref p, t) ->
     exists it, it ∈ items /\ payloadKey (st_ref it) = payloadKey (rp_Ref p) /\ t <= st_eligible it) ->
  emits (delete_staged order env req ids now items) (fun '(out, err) new => deletion req ids out err new).
Proof.
  intros Hlen Hitems. unfold delete_staged. apply emits_ask_seq. intros [e|]; [apply emits_ret; left; by repeat constructor|].
  eapply emits_seq; [apply append_candidates_emits; by split|]. intros [n er] n1 [HF1 H1]. apply batch_no_delete in HF1.
  destruct er as [e|]; [apply emits_ret; left; rewrite app_nil_r; split; [by constructor|done]|].
  destruct (H1 eq_refl) as [-> Happ]. rewrite Z.add_0_l, (wrapu_id 64) by (unfold in_u; lia).
  set (head := CPrepare candidates_insert "" None :: n1). assert (no_delete head) as Hhead by (by constructor).
  eapply emits_seq with (R1 := fun err n2 => no_delete n2 /\ (err = None -> payloads_staged req (head ++ n2))).
  { destruct (Z.ltb_spec 0 (Z.of_nat (length items))) as [Hpos|Hz].
    - apply emits_ask. intros err. split; [by repeat constructor|]. intros -> e p t He Hp Ht.
      destruct (Hitems e p t He Hp Ht) as (it & Hit & Hk & Hle). destruct (Happ it Hit) as (c & Hc & ref & raw & el & rest & Heq & Hr & Hel).
      exists c. split; [|exists head, []; split; [done|by right]]. exists ref, raw, el, rest. split_and!; [done|congruence|lia].
    - apply emits_ask_seq. intros _. apply emits_ret. split; [by repeat constructor|]. intros _ e p t He Hp Ht.
      destruct (Hitems e p t He Hp Ht) as (it & Hit & _). destruct items; [by apply elem_of_nil in Hit|cbn in Hz; lia]. }
  intros err n2 [HF2 H2].
  destruct err as [e|]; [apply emits_ret; left; rewrite app_nil_r; split; [by apply (Forall_app _ head n2)|done]|]. specialize (H2 eq_refl).
  eapply emits_seq; [apply stageRetentionSummaryRebuilds_emits|]. intros err n3 [HF3%clock_no_delete H3].
  assert (no_delete (head ++ n2 ++ n3)) as Hpre by (unfold no_delete; rewrite !Forall_app; auto).
  destruct err as [e|]; [apply emits_ret; left; rewrite app_nil_r; split; [done|done]|]. specialize (H3 eq_refl).
  assert (rebuilds_staged (dq_Events req) (head ++ n2 ++ n3) /\ payloads_staged req (head ++ n2 ++ n3)) as [Hs1 Hs2].
  { split.
    - rewrite app_assoc. rewrite <- (app_nil_r n3). by apply rebuilds_staged_app.
    - intros e p t He Hp Ht. destruct (H2 e p t He Hp Ht) as (c & Hc & Hin). exists c. split; [done|].
      rewrite app_assoc. by apply (sent_in_app _ _ [] _ n3). }
  apply emits_ask_seq. intros [e|].
  - apply emits_ret. right. exists (head ++ n2 ++ n3), (Some e), []. split; [by rewrite <- !app_assoc|]. split_and!; try done. constructor.
  - eapply emits_seq; [apply ReconcileRetention_emits|]. intros err n4 [HF4%reconcile_no_delete _]. apply emits_ret.
    right. exists (head ++ n2 ++ n3), None, n4. split; [by rewrite app_nil_r, <- !app_assoc|]. by split_and!.
Qed.

(** The place of the only call with a property. *)
Lemma split_unique {A} (P : A -> Prop) a a' c c' b b' : a ++ c :: b = a' ++ c' :: b' -> P c' ->
  Forall (fun x => ~ P x) a -> Forall (fun x => ~ P x) b -> a = a' /\ c = c' /\ b = b'.
Proof.
  intros Heq Hc Ha Hb. revert a' Heq. induction Ha as [|x a Hx Ha IH]; intros [|x' a'] Heq; cbn [app] in Heq; injection Heq as -> Heq.
  - by subst.
  - subst b. apply Forall_app in Hb as [_ Hb]. by apply Forall_cons in Hb as [Hb _].
  - done.
  - by destruct (IH a' Heq) as (-> & -> & ->).
Qed.

Definition ch_proceeds (req : DeleteRequest) : bool :=
  negb (Nat.eqb (length (dq_Events req)) 0) && negb (dq_DryRun req) && negb (str_eqb (dq_ArchiveID req) "").

(** [catalogue] is what the catalogue holds after a history; the count is its count. *)
Definition counts_ch (env : ChEnv) (catalogue : list ChCall -> gmap string string) : Prop :=
  forall h archiveID ids n, ch_row env CNumber h covered_sql [CText archiveID; CTexts ids] = (n, None) ->
    n = Z.of_nat (count_rows (catalogue h) archiveID ids).

Lemma DeleteRetentionEvents_emits order env catalogue req h : counts_ch env catalogue ->
  Z.of_nat (length (concat (re_Payloads <$> dq_Events req))) < 2 ^ 64 ->
  emits_from h (DeleteRetentionEvents order env req) (fun '(out, err) new =>
    if ch_proceeds req
    then (no_delete new /\ dr_EventsDeleted out = 0 /\ err <> None) \/
         exists ids, decode_ids (dq_Events req) = Ok ids /\ NoDup ids /\
           Forall (fun id => catalogue h !! id = Some (dq_ArchiveID req)) ids /\ deletion req ids out err new
    else new = [] /\ out = mkDeleteResult 0 0 /\
         err = if negb (Nat.eqb (length (dq_Events req)) 0) && negb (dq_DryRun req) then Some receipt_error else None).
Proof.
  intros Hcount Hlen. unfold DeleteRetentionEvents, ch_proceeds.
  destruct (Nat.eqb (length (dq_Events req)) 0); [by apply emits_from_ret|]. destruct (dq_DryRun req); [by apply emits_from_ret|].
  destruct (str_eqb (dq_ArchiveID req) ""); [by apply emits_from_ret|]. cbn [negb andb].
  destruct (decode_ids (dq_Events req)) as [ids|e|m]; [|apply emits_from_ret; left; by repeat constructor..].
  apply emits_from_ask. destruct (ch_row env CNumber h covered_sql _) as [archived [e|]] eqn:Ec.
  { apply emits_from_ret. left. by repeat constructor. }
  apply Hcount in Ec. destruct (Z.eqb_spec archived (Z.of_nat (length ids))) as [Heq|Hne]; cbn [negb].
  2: { apply emits_from_ret. left. by repeat constructor. }
  destruct (count_rows_covers (catalogue h) (dq_ArchiveID req) ids) as [Hnd Hall]; [lia|].
  apply emits_at, emits_ask_seq. intros now. eapply emits_seq; [apply stage_payloads_emits|]. intros [items er] n1 [HF1 H1].
  set (q := CQueryRow covered_sql _). assert (no_delete (q :: CNow now :: n1)) as Hpre.
  { do 2 (constructor; [done|]). eapply Forall_impl; [exact HF1|]. by intros c (? & ? & ->). }
  destruct er as [e|]; [apply emits_ret; left; by rewrite app_nil_r|]. destruct (H1 eq_refl) as (more & -> & Hm & Hitems). cbn [app] in *.
  eapply emits_mono; [apply delete_staged_emits; [lia|]|].
  - intros e p t He Hp Ht. destruct (Hitems p t) as [?|?]; [|done|set_solver|done].
    apply list_elem_of_In, in_concat. exists (re_Payloads e). split; apply list_elem_of_In; [by apply list_elem_of_fmap_2|done].
  - intros [out err] n2 Hd. right. exists ids. split_and!; try done. destruct Hd as [(Hn & H)|(pre & e & post & -> & Hn1 & Hn2 & Hr & Hp & H)].
    + left. split; [|done]. by apply (Forall_app _ (q :: CNow now :: n1) n2).
    + right. exists ((q :: CNow now :: n1) ++ pre), e, post. split; [by rewrite <- !app_assoc|]. split_and!; try done.
      * by apply Forall_app.
      * rewrite <- (app_nil_r pre). by apply rebuilds_staged_app.
      * intros e' p t He Hp' Ht. destruct (Hp e' p t He Hp' Ht) as (c & Hc & Hs). exists c. split; [done|].
        rewrite <- (app_nil_r pre). by apply sent_in_app.
Qed.

(** C22.  ClickHouse deletes only archived events, and only with everything staged.
    Whatever the connection does, provided its count is that of the catalogue: an
    empty batch, a dry run and a request without a receipt make no call (the last is
    an error); when a deletion is sent, the identifiers of the whole batch decoded,
    none occurs twice, the catalogue held every one of them under the archive of the
    request when the call began, and before it a rebuild task for every flow and
    execution of the batch and a candidate, no earlier than asked for, for every
    payload that becomes collectable were appended and sent; the reported number of
    deleted events is the size of the batch when the deletion was carried out and
    zero otherwise. *)
Theorem ch_delete_archived order env catalogue req h : counts_ch env catalogue ->
  Z.of_nat (length (concat (re_Payloads <$> dq_Events req))) < 2 ^ 64 ->
  let '(h', (out, err)) := DeleteRetentionEvents order env req h in
  exists new, h' = h ++ new /\
    (ch_proceeds req = false -> new = [] /\ out = mkDeleteResult 0 0 /\
      err = if negb (Nat.eqb (length (dq_Events req)) 0) && negb (dq_DryRun req) then Some receipt_error else None) /\
    (forall pre args e post, new = pre ++ CExec delete_sql args e :: post ->
      exists ids, args = [CTexts ids] /\ decode_ids (dq_Events req) = Ok ids /\ NoDup ids /\
        Forall (fun id => catalogue h !! id = Some (dq_ArchiveID req)) ids /\
        rebuilds_staged (dq_Events req) pre /\ payloads_staged req pre /\
        dr_EventsDeleted out = match e with None => Z.of_nat (length ids) | Some _ => 0 end) /\
    ((forall args e, CExec delete_sql args e ∉ new) -> dr_EventsDeleted out = 0 /\ (ch_proceeds req = true -> err <> None)).
Proof.
  intros Hcount Hlen. destruct (DeleteRetentionEvents_emits order env catalogue req h Hcount Hlen) as (new & H1 & H).
  destruct (DeleteRetentionEvents order env req h) as [h' [out err]]. cbn [fst snd] in *. exists new. split; [done|].
  assert (forall l, no_delete l -> forall args e, CExec delete_sql args e ∉ l) as Hnot.
  { intros l Hl args e Hin. unfold no_delete in Hl. rewrite Forall_forall in Hl. by apply (Hl _ Hin args e). }
  destruct (ch_proceeds req).
  2: { destruct H as (-> & -> & ->). split_and!; [done| |done]. intros pre args e post Heq. by destruct pre. }
  assert (forall pre args e post, no_delete new -> new = pre ++ CExec delete_sql args e :: post -> False) as Habs.
  { intros pre args e post Hn Heq. apply (Hnot new Hn args e). rewrite Heq. apply elem_of_app. right. by left. }
  split; [done|]. destruct H as [(Hn & Ho & He)|(ids & Hids & Hnd & Hall & [(Hn & Ho & He)|(pre & e & post & -> & Hn1 & Hn2 & Hr & Hp & Ho)])].
  - split; [|done]. intros pre args e post Heq. by destruct (Habs pre args e post).
  - split; [|done]. intros pre args e post Heq. by destruct (Habs pre args e post).
  - split; [|intros Hno; destruct (Hno [CTexts ids] e); apply elem_of_app; right; by left].
    intros pre' args e' post' Heq. assert (forall l, no_delete l -> Forall (fun c => ~ exists args e, c = CExec delete_sql args e) l) as Hnd'.
    { intros l Hl. eapply Forall_impl; [exact Hl|]. intros c Hc (a & e1 & ->). by apply (Hc a e1). }
    destruct (split_unique (fun c => exists args e, c = CExec delete_sql args e) _ _ _ _ _ _ Heq) as (<- & Hc & _);
      [by do 2 eexists|by apply Hnd'..|]. injection Hc as <- <-. exists ids. split_and!; try done. destruct e; [apply Ho|done].
Qed.

(** ** Tasks *)

Lemma join_set_spec id S S' : join_set id S = Ok S' ->
  S ⊆ S' /\ (has_summary id -> exists b, hex_DecodeString id = Ok b /\ bytes_string b ∈ S').
Proof.
  unfold join_set. destruct (str_eqb id "" || str_eqb id zeros) eqn:E.
  - intros [= <-]. split; [done|]. intros [H1 H2]. apply orb_true_iff in E as [E|E]; by apply bool_decide_eq_true in E.
  - destruct (hex_DecodeString id) as [b|e|m]; cbn [mbind result_bind]; intros [= <-]. split; [set_solver|]. intros _. exists b. set_solver.
Qed.

Lemma identity_sets_spec events F X F' X' : identity_sets events F X = Ok (F', X') -> F ⊆ F' /\ X ⊆ X' /\
  forall e, e ∈ events -> (has_summary (re_FlowID e) -> exists b, hex_DecodeString (re_FlowID e) = Ok b /\ bytes_string b ∈ F') /\
    (has_summary (re_ExecutionID e) -> exists b, hex_DecodeString (re_ExecutionID e) = Ok b /\ bytes_string b ∈ X').
Proof.
  revert F X. induction events as [|e events IH]; intros F X; cbn [identity_sets].
  { intros [= <- <-]. split_and!; [done|done|]. by intros e ?%elem_of_nil. }
  destruct (join_set (re_FlowID e) F) as [F1| |] eqn:EF; cbn [mbind result_bind]; try done.
  destruct (join_set (re_ExecutionID e) X) as [X1| |] eqn:EX; cbn [mbind result_bind]; try done.
  intros H. apply IH in H as (HF & HX & Hall). apply join_set_spec in EF as [HF1 Hf], EX as [HX1 Hx].
  split_and!; [by transitivity F1|by transitivity X1|]. intros e' [->|He]%elem_of_cons; [|by apply Hall].
  split; intros Hs; [destruct (Hf Hs) as (b & H1 & H2)|destruct (Hx Hs) as (b & H1 & H2)]; exists b; auto.
Qed.

(** A rebuild task is forgotten only when it was done.  Whatever the connection
    does, the statement that forgets tasks is the last of its run and names exactly
    the tasks that were listed in this run, and before it every statement that
    deletes and rebuilds summaries was carried out, in order, over all flows and all
    executions these tasks name (the identifier of zeros stands for none).  So a run
    that fails anywhere leaves its tasks for the next one. *)
Lemma ch_tasks_kept order env h : (forall X, order X ≡ₚ elements X) ->
  let '(h', err) := ReconcileRetention order env h in
  exists new, h' = h ++ new /\
    forall pre args e post, new = pre ++ CExec rebuilds_done args e :: post ->
      post = [] /\ exists h0 tasks flows executions,
        collectCH (scanned id) (rs_rows (ch_query env CTask h0 rebuilds_sql [])) = Ok tasks /\ args = [CTexts tasks.*2] /\
        rebuilt flow_rebuild flows pre /\ rebuilt execution_rebuild executions pre /\
        forall kind id, (kind, id) ∈ tasks -> has_summary (hex_text id) -> id ∈ (if str_eqb kind "flow" then flows else executions).
Proof.
  intros Horder. destruct (ReconcileRetention_emits order env h) as (new & H1 & _ & H).
  destruct (ReconcileRetention order env h) as [h' err]. cbn [fst snd] in *. exists new. split; [done|].
  intros pre args e post Heq. destruct (H pre args e post Heq) as (-> & h0 & tasks & F & X & Hq & -> & Hsets & HF & HX). split; [done|].
  exists h0, tasks, (order F), (order X). split_and!; try done. intros kind id Hin Hs.
  apply identity_sets_spec in Hsets as (_ & _ & Hall). destruct (Hall (task_event (kind, id))) as [Hf Hx]; [by apply list_elem_of_fmap_2|].
  unfold task_event in Hf, Hx. cbn [fst snd] in Hf, Hx. unfold hex_text in *.
  destruct (str_eqb kind "flow"); cbn [re_FlowID re_ExecutionID] in Hf, Hx; rewrite Horder; apply elem_of_elements.
  - destruct (Hf Hs) as (b & Hb & Hin'). rewrite hex_decode_encode in Hb. injection Hb as <-. by rewrite String.string_of_list_ascii_of_string in Hin'.
  - destruct (Hx Hs) as (b & Hb & Hin'). rewrite hex_decode_encode in Hb. injection Hb as <-. by rewrite String.string_of_list_ascii_of_string in Hin'.
Qed.

(** ** References *)

(** The rows of a query all scanned: a payload is reported as referenced exactly when
    one of them links it. *)
Lemma find_link_complete ref raws : find_link ref ((fun raw => (raw, None)) <$> raws) = Ok (existsb (links_ref ref) raws).
Proof. induction raws as [|raw raws IH]; [done|]. csimpl. destruct (links_ref ref raw); [done|]. by rewrite IH. Qed.

(** ** Examples *)

(** A connection over a fixed catalogue, whose task list is [tasks]; reading linked
    payloads breaks before the first row. *)
Definition fixed_env (catalogue : gmap string string) (tasks : list (string * string)) : ChEnv :=
  mkChEnv
    (fun s _ _ _ => match s as s return Rows (cdests s) with
                    | CTask => mkRows None ((fun t => (t, None)) <$> tasks) None
                    | CLinks => mkRows None [] (Some (errors_New "connection reset"))
                    | _ => mkRows None [] None
                    end)
    (fun s h q args =>
       match s as s return cdests s * option error with
       | CNumber => match args with [CText a; CTexts ids] => (Z.of_nat (count_rows catalogue a ids), None) | _ => (0, None) end
       | CTimes => ((0, 0, 0), None)
       | s => ch_row flaky_env s h q args
       end)
    (fun _ _ _ => None) (fun _ _ => None) (fun _ _ _ => None) (fun _ _ => None) (fun _ => 5).

Definition demo_event_text : string := bytes_string (replicate 16 "a"%char).
Definition demo_flow_text : string := bytes_string (replicate 16 "b"%char).
Definition demo_catalogue : gmap string string := {[demo_event_text := "a1"]}.
Definition ch_delete_request : DeleteRequest :=
  mkDeleteRequest
    [mkREvent (hex_text demo_event_text) "" (hex_text demo_flow_text) "" 5 "log" "svc" "prod" 1 "" "" "" 0 false
       [mkRPayload "body" (mkRef "s3" "k" "" 0 0 (zero_array 32) "" time_zero "")]]
    {["s3" +:+ String zero_byte "k" := 9]} "a1" false.

Definition demo_env : ChEnv := fixed_env demo_catalogue [("flow", demo_flow_text)].

Lemma fixed_env_counts catalogue tasks : counts_ch (fixed_env catalogue tasks) (fun _ => catalogue).
Proof. by intros h archiveID ids n [= <-]. Qed.

Lemma ch_delete_archived_witness :
  let res := DeleteRetentionEvents elements demo_env ch_delete_request [] in
  res.2 = (mkDeleteResult 1 1, None) /\
  forall pre args e post, res.1 = pre ++ CExec delete_sql args e :: post ->
    exists ids, args = [CTexts ids] /\ Forall (fun id => demo_catalogue !! id = Some "a1") ids /\ payloads_staged ch_delete_request pre.
Proof.
  assert ((DeleteRetentionEvents elements demo_env ch_delete_request []).2 = (mkDeleteResult 1 1, None)) as Hok by (vm_compute; reflexivity).
  split; [exact Hok|].
  pose proof (ch_delete_archived elements demo_env (fun _ => demo_catalogue) ch_delete_request [] (fixed_env_counts _ _) ltac:(cbn; lia)) as H.
  destruct (DeleteRetentionEvents elements demo_env ch_delete_request []) as [h' [out err]]. cbn [fst snd] in *.
  destruct H as (new & -> & _ & H & _). intros pre args e post Heq. destruct (H pre args e post Heq) as (ids & -> & _ & _ & Hall & _ & Hp & _).
  exists ids. by split_and!.
Defined.

Lemma ch_tasks_kept_witness :
  let res := ReconcileRetention elements demo_env [] in
  res.2 = None /\
  forall pre args e post, res.1 = pre ++ CExec rebuilds_done args e :: post -> args = [CTexts [demo_flow_text]] /\ post = [].
Proof.
  assert ((ReconcileRetention elements demo_env []).2 = None) as Hok by (vm_compute; reflexivity). split; [exact Hok|].
  pose proof (ch_tasks_kept elements demo_env [] (fun X => reflexivity (elements X))) as H.
  destruct (ReconcileRetention elements demo_env []) as [h' err]. destruct H as (new & -> & H). cbn [fst app].
  intros pre args e post Heq. destruct (H pre args e post Heq) as (-> & h0 & tasks & F & X & Hq & -> & _).
  split; [|done]. change (Ok [("flow", demo_flow_text)] = Ok tasks) in Hq. apply Ok_inj in Hq as <-. done.
Defined.

(** The loop ignores an iteration that broke off: a payload is reported as not
    referenced although no row was read. *)
Lemma ch_referenced_ignores_errors ref :
  (ReferencedPayloads demo_env [ref] []).2 = ({[payloadKey ref := false]}, None).
Proof. reflexivity. Qed.
