(* ===== verification/GoRand.v ===== *)
(** * Random numbers: what the generator uses of Go's math/rand/v2

    [RandSource] is a generator with [Uint64N] and the one fact its documentation
    gives: the value lies in the half-open interval [[0, n)].  The event generator
    is modelled over any such source.  [PCG] is the source the program builds with
    [rand.New(rand.NewPCG(seed1, seed2))]: the 128-bit permuted congruential
    generator with the DXSM output function and the rejection loops of
    [uint32n] and [uint64n]. *)

From S2P Require Import Prelude.

Class RandSource (R : Type) := {
  rng_Uint64N : R -> Z -> R * Z;
  rng_Uint64N_range r n : 0 < n -> 0 <= (rng_Uint64N r n).2 < n
}.

(** ** PCG *)

Record PCG := mkPCG { pcg_hi : Z; pcg_lo : Z }.

Definition NewPCG (seed1 seed2 : Z) : PCG := mkPCG seed1 seed2.

Definition pcg_mul : Z := 2549297995355413924 * 2 ^ 64 + 4865540595714422341.
Definition pcg_inc : Z := 6364136223846793005 * 2 ^ 64 + 1442695040888963407.

Definition pcg_next (p : PCG) : PCG :=
  let state := ((pcg_hi p * 2 ^ 64 + pcg_lo p) * pcg_mul + pcg_inc) mod 2 ^ 128 in
  mkPCG (state / 2 ^ 64) (state mod 2 ^ 64).

Definition pcg_Uint64 (p : PCG) : PCG * Z :=
  let p := pcg_next p in
  let hi := Z.lxor (pcg_hi p) (Z.shiftr (pcg_hi p) 32) in
  let hi := u64 (hi * 0xda942042e4dd58b5) in
  let hi := Z.lxor hi (Z.shiftr hi 48) in
  (p, u64 (hi * Z.lor (pcg_lo p) 1)).

(** [rand.uint64n] and [rand.uint32n]: Lemire's method on [w]-bit words, redrawing
    while the low word of the product is below [2^w mod n].  A draw is rejected with
    a probability below [n / 2^w]; [fuel] bounds the redraws. *)
Fixpoint lemire (draw : PCG -> PCG * Z) (w n : Z) (fuel : nat) (p : PCG) : PCG * Z :=
  let '(p, x) := draw p in
  let prod := x * n in
  match fuel with
  | S fuel => if prod mod 2 ^ w <? 2 ^ w mod n then lemire draw w n fuel p else (p, prod / 2 ^ w)
  | O => (p, prod / 2 ^ w)
  end.

Definition pcg_Uint64N (p : PCG) (n : Z) : PCG * Z :=
  if Z.land n (n - 1) =? 0 then let '(p, x) := pcg_Uint64 p in (p, x mod n)
  else if n <? 2 ^ 32
  then lemire (fun p => let '(p, x) := pcg_Uint64 p in (p, Z.shiftr x 32)) 32 n 64 p
  else lemire pcg_Uint64 64 n 64 p.

Lemma lemire_range draw w n fuel p :
  (forall p, in_u w (draw p).2) -> 0 < w -> 0 < n -> 0 <= (lemire draw w n fuel p).2 < n.
Proof.
  intros Hdraw Hw Hn. pose proof (Z.pow_pos_nonneg 2 w ltac:(lia) ltac:(lia)).
  assert (forall x, in_u w x -> 0 <= x * n / 2 ^ w < n) as Hhigh.
  { intros x [H0 H1]. split; [apply Z.div_pos; nia|apply Z.div_lt_upper_bound; nia]. }
  revert p. induction fuel as [|fuel IH]; intros p; simpl; pose proof (Hdraw p) as Hp;
    destruct (draw p) as [p' x]; [by apply Hhigh|].
  destruct (_ <? _); [apply IH|by apply Hhigh].
Qed.

Lemma pcg_Uint64_range p : in_u 64 (pcg_Uint64 p).2.
Proof. apply wrapu_in. lia. Qed.

Lemma pcg_Uint64N_range p n : 0 < n -> 0 <= (pcg_Uint64N p n).2 < n.
Proof.
  intros Hn. unfold pcg_Uint64N. destruct (_ =? 0).
  - destruct (pcg_Uint64 p). apply Z.mod_pos_bound; lia.
  - destruct (n <? _); apply lemire_range; try lia; [|apply pcg_Uint64_range].
    intros q. pose proof (pcg_Uint64_range q) as [H0 H1]. destruct (pcg_Uint64 q) as [q' x].
    simpl in *. rewrite Z.shiftr_div_pow2 by lia.
    split; [apply Z.div_pos; lia|apply Z.div_lt_upper_bound; lia].
Qed.

#[global] Instance PCG_RandSource : RandSource PCG :=
  { rng_Uint64N := pcg_Uint64N; rng_Uint64N_range := pcg_Uint64N_range }.

(** The first words of the package's own reference test for seeds 1 and 2. *)
Example pcg_reference :
  let '(p1, x1) := pcg_Uint64 (NewPCG 1 2) in
  let '(_, x2) := pcg_Uint64 p1 in (x1, x2) = (0xc4f5a58656eef510, 0x9dcec3ad077dec6c).
Proof. vm_compute. reflexivity. Qed.
