(* ===== verification/Generator.v ===== *)
(** * The event generator's stories (src/generator/generator.go)

    [buildStory] makes the events of one execution from the seed and the story's
    index, [attachPayload] links a stored body to it, and the helpers make
    identifiers, fields and demo bodies.  SHA-256 is a parameter; the random numbers
    come from any [RandSource].  [GeneratorSystem] models [Generate] itself. *)

From S2P Require Import Prelude Ids Events GoLib Json JsonText GoText Wire Payload GoRand.

(** ** Data *)

Record generator_Config := mkGeneratorConfig {
  gc_Events : Z;
  gc_Seed : Z;
  gc_Start : Z;
  gc_BatchSize : Z;
  gc_PublishConcurrency : Z;
  (* whether PayloadStore is not nil *)
  gc_PayloadStore : bool;
  gc_PayloadEvery : Z
}.

#[global] Instance eta_generator_Config : Eta generator_Config :=
  fun r => mkGeneratorConfig (gc_Events r) (gc_Seed r) (gc_Start r) (gc_BatchSize r)
    (gc_PublishConcurrency r) (gc_PayloadStore r) (gc_PayloadEvery r).

Record generator_Manifest := mkGeneratorManifest {
  gm_Version : Z;
  gm_Events : Z;
  gm_Batches : Z;
  gm_Stories : Z;
  gm_Seed : Z;
  gm_Start : Z
}.

#[global] Instance eta_generator_Manifest : Eta generator_Manifest :=
  fun r => mkGeneratorManifest (gm_Version r) (gm_Events r) (gm_Batches r) (gm_Stories r)
    (gm_Seed r) (gm_Start r).

Record story := mkStory { story_service : string; story_events : list wire_Event }.

Definition ValidateManifest (manifest : generator_Manifest) : result unit :=
  if negb (gm_Version manifest =? 1)
  then Fail (errors_New ("trail/generator: unsupported manifest version " +:+ Itoa (gm_Version manifest)))
  else Ok tt.

(** ** Fields *)

Definition textField (key value : string) : wire_Field := mkWireField key "string" value 0.
Definition numField (key kind : string) (value : Z) : wire_Field := mkWireField key kind "" value.
Definition boolField (key : string) (value : bool) : wire_Field :=
  let number := if value then 1 else 0 in mkWireField key "bool" "" number.

Definition payloadFields (role : string) (ref : Ref) : list wire_Field :=
  let prefix := "payload." +:+ role +:+ "." in
  [textField (prefix +:+ "store") (ref_Store ref); textField (prefix +:+ "key") (ref_Key ref);
   textField (prefix +:+ "content_type") (ref_ContentType ref);
   numField (prefix +:+ "size") "int64" (u64 (ref_Size ref));
   numField (prefix +:+ "stored_size") "int64" (u64 (ref_StoredSize ref));
   textField (prefix +:+ "sha256") (hex_Encode (ref_SHA256 ref));
   textField (prefix +:+ "compression") (ref_Compression ref);
   textField (prefix +:+ "retention_class") (ref_RetentionClass ref);
   numField (prefix +:+ "original_size") "int64" (u64 (ref_Size ref));
   numField (prefix +:+ "captured_size") "int64" (u64 (ref_Size ref));
   boolField (prefix +:+ "truncated") false].

(** The ellipsis of [preview], in UTF-8. *)
Definition ellipsis : string := bytes_string [Z_byte 0xe2; Z_byte 0x80; Z_byte 0xa6].

Definition preview (value : string) (limit : nat) : string :=
  if Nat.leb (slen value) limit then value else String.substring 0 limit value +:+ ellipsis.

(** ** Demo bodies *)

(** [fmt]'s [%0<width>d] of a number that is not negative. *)
Definition zero_padded (width : nat) (z : Z) : string :=
  let digits := Itoa z in bytes_string (replicate (width - slen digits) "0"%char) +:+ digits.

Definition quote : string := String "034"%char "".

(** The body of the item loop of [demoPayload]. *)
Definition demo_item (index i : Z) : string :=
  "<Item sku=" +:+ quote +:+ "SKU-" +:+ Itoa index +:+ "-" +:+ zero_padded 4 i +:+ quote +:+
  "><UpdatedAt>2026-01-" +:+ zero_padded 2 (i mod 28 + 1) +:+ "T" +:+ zero_padded 2 (i mod 24) +:+ ":" +:+
  zero_padded 2 (i mod 60) +:+ ":00Z</UpdatedAt><Reference>TRAIL-DEMO-" +:+ Itoa index +:+ "-" +:+
  zero_padded 4 i +:+
  "</Reference><Description>Generic catalog inventory record</Description><AvailableUnits>" +:+
  Itoa (i mod 900 + 1) +:+ "</AvailableUnits><State>" +:+
  (if i mod 2 =? 0 then "available" else "reserved") +:+ "</State></Item>".

Fixpoint demo_items (n : nat) (index i : Z) : string :=
  match n with
  | O => ""
  | S n => demo_item index i +:+ demo_items n index (i + 1)
  end.

Definition demoPayload (seed index : Z) : string * string :=
  if negb (index mod 10 =? 0)
  then ("{" +:+ quote +:+ "generator_seed" +:+ quote +:+ ":" +:+ Itoa seed +:+ "," +:+ quote +:+ "story" +:+
        quote +:+ ":" +:+ Itoa index +:+ "," +:+ quote +:+ "provider_response" +:+ quote +:+ ":{" +:+ quote +:+
        "reference" +:+ quote +:+ ":" +:+ quote +:+ "demo-" +:+ Itoa index +:+ quote +:+ "," +:+ quote +:+
        "matched" +:+ quote +:+ ":true}}", "application/json")
  else ("<?xml version=" +:+ quote +:+ "1.0" +:+ quote +:+ " encoding=" +:+ quote +:+ "UTF-8" +:+ quote +:+
        "?><CatalogResponse seed=" +:+ quote +:+ Itoa seed +:+ quote +:+ " story=" +:+ quote +:+ Itoa index +:+
        quote +:+ "><Warehouse id=" +:+ quote +:+ "warehouse-a" +:+ quote +:+ ">" +:+
        demo_items 1800 index 0 +:+ "</Warehouse></CatalogResponse>", "application/xml").

(** ** Stories *)

Definition services : list string := ["order-api"; "order-worker"; "catalog"; "webhooks"; "notifications"].

Definition sourceFor (index : Z) : string :=
  nth (Z.to_nat (index mod 5)) [SourceCron; SourceAPI; SourceQueue; SourceWebhook; SourceManual] "".

Definition warehouseFor (index : Z) : string :=
  nth (Z.to_nat (index mod 4)) ["warehouse-a"; "warehouse-b"; "warehouse-c"; "warehouse-d"] "".

Section Stories.
Context (sha256 : bytes -> array 32) {R : Type} `{!RandSource R}.

(** [copy(id[:], sum[:16])] *)
Definition first16 (sum : array 32) : id16 := default (zero_array 16) (to_array 16 (take 16 sum)).

(** What [deterministicID] hashes. *)
Definition id_input (seed : Z) (namespace : string) (sequence : Z) : bytes :=
  string_bytes ("trail-generator-v1:" +:+ namespace +:+ ":") ++ be_bytes 8 seed [] ++ be_bytes 8 sequence [].

Definition deterministicID (seed : Z) (namespace : string) (sequence : Z) : string :=
  String_ (first16 (sha256 (id_input seed namespace sequence))).

(** [time.Duration] arithmetic wraps at 64 bits. *)
Definition Millisecond : Z := 1000000.
Definition Second : Z := 1000000000.

(** The closure [newEvent] of [buildStory]; [sequence] is the value of the captured
    counter, which the callers below advance. *)
Definition newEvent (cfg : generator_Config) (index sequence : Z) (kind : string) (at_ : Z)
    (flowID parentID : string) (fields : list wire_Field) : wire_Event :=
  {| we_EventID := deterministicID (gc_Seed cfg) "event" (Z.lor (u64 (Z.shiftl index 16)) sequence);
     we_TimestampUnixNano := UnixNano at_; we_Kind := kind; we_Level := "info"; we_FlowID := flowID;
     we_ExecutionID := deterministicID (gc_Seed cfg) "execution" index;
     we_ParentExecutionID := ""; we_RetryOfExecutionID := "";
     we_ExecutionAttempt := u32 (index mod 3 + 1); we_ExecutionSource := sourceFor index;
     we_ScopeType := ""; we_ScopeID := ""; we_EntityType := "order";
     we_EntityID := "order_" +:+ Itoa (index / 3); we_ParentID := parentID; we_Fields := fields |}.

(** The body of the flow loop of [buildStory], entered with counter [sequence]; it
    makes four events. *)
Definition build_flow (cfg : generator_Config) (index base : Z) (failure : bool) (startID : string)
    (flowNumber sequence : Z) (rng : R) : R * list wire_Event :=
  let flowID := deterministicID (gc_Seed cfg) "flow" (Z.lor (u64 (Z.shiftl index 8)) flowNumber) in
  let at_ := base + i64 (i64 (i64 (u64 (flowNumber + 1)) * 10) * Millisecond) in
  let flowStart := newEvent cfg index sequence "order.fulfillment.started" at_ flowID startID
    [textField FieldFlowStatus StatusRunning] in
  let '(rng, units) := rng_Uint64N rng 30 in
  let candidate := newEvent cfg index (sequence + 1) "order.fulfillment.inventory_reserved"
    (at_ + 2 * Millisecond) flowID (we_EventID flowStart)
    [textField "warehouse" (warehouseFor (u64 (index + flowNumber)));
     numField "available_units" "int" (u64 (70 + units))] in
  let flowFailed := failure && (flowNumber =? 0) in
  let statusCode := if flowFailed then (if index mod 2 =? 0 then 503 else 408) else 200 in
  let '(rng, delay) := rng_Uint64N rng 40 in
  let '(rng, took) := rng_Uint64N rng 200 in
  let httpEvent := newEvent cfg index (sequence + 2) "provider.http"
    (at_ + i64 (i64 (u64 (5 + delay)) * Millisecond)) flowID (we_EventID candidate)
    [textField "http.method" "POST"; textField "http.scheme" "https"; textField "http.host" "api.example";
     textField "http.path" "/inventory/reservations"; numField "http.status_code" "int" statusCode;
     numField "http.duration" "duration" (u64 (i64 (i64 (20 + i64 took) * Millisecond)));
     boolField "http.success" ((200 <=? statusCode) && (statusCode <? 400))] in
  let '(terminalKind, flowStatus, httpEvent) :=
    if flowFailed
    then ("order.fulfillment.rejected", StatusFailed, httpEvent <| we_Level := "warn" |>)
    else ("order.fulfillment.completed", StatusSucceeded, httpEvent) in
  let terminal := newEvent cfg index (sequence + 3) terminalKind (at_ + 250 * Millisecond) flowID
    (we_EventID httpEvent) [textField FieldFlowStatus flowStatus] in
  let terminal := if flowFailed then terminal <| we_Level := "error" |> else terminal in
  (rng, [flowStart; candidate; httpEvent; terminal]).

(** The flow loop: [n] iterations from [flowNumber]. *)
Fixpoint build_flows (n : nat) (cfg : generator_Config) (index base : Z) (failure : bool) (startID : string)
    (flowNumber sequence : Z) (rng : R) : R * list wire_Event :=
  match n with
  | O => (rng, [])
  | S n =>
      let '(rng, events) := build_flow cfg index base failure startID flowNumber sequence rng in
      let '(rng, more) := build_flows n cfg index base failure startID (flowNumber + 1) (sequence + 4) rng in
      (rng, events ++ more)
  end.

Definition buildStory (cfg : generator_Config) (index : Z) (rng : R) : R * story :=
  let service := nth (Z.to_nat (index mod 5)) services "" in
  let attempt := u32 (index mod 3 + 1) in
  let '(rng, jitter) := rng_Uint64N rng Second in
  let base := gc_Start cfg + i64 (i64 (i64 (i64 index * 3) * Second) + i64 jitter) in
  let failure := (index mod 7 =? 0) || (index mod 11 =? 0) in
  let executionStatus := if failure then StatusFailed else StatusSucceeded in
  let start := newEvent cfg index 0 "catalog.sync.started" base "" ""
    [textField FieldExecutionKind "catalog.sync"; textField FieldExecutionStatus StatusRunning] in
  let start :=
    if 1 <? attempt
    then start <| we_RetryOfExecutionID := deterministicID (gc_Seed cfg) "execution" (u64 (index - 1)) |>
    else start in
  let start :=
    if (index mod 9 =? 0) && (0 <? index)
    then start <| we_ParentExecutionID := deterministicID (gc_Seed cfg) "execution" (u64 (index - 1)) |>
    else start in
  let flows := 2 + index mod 4 in
  let '(rng, flow_events) :=
    build_flows (Z.to_nat flows) cfg index base failure (we_EventID start) 0 1 rng in
  let events := start :: flow_events in
  let finished := newEvent cfg index (1 + 4 * flows) "catalog.sync.completed" (base + 2 * Second) ""
    (we_EventID (List.last events start)) [textField FieldExecutionStatus executionStatus] in
  let finished :=
    if failure then finished <| we_Kind := "catalog.sync.failed" |> <| we_Level := "error" |> else finished in
  (rng, mkStory service (events ++ [finished])).

(** ** Payload links *)

(** The event loop of [attachPayload]: only the first [provider.http] event changes. *)
Fixpoint attach_fields (fields : list wire_Field) (events : list wire_Event) : list wire_Event :=
  match events with
  | [] => []
  | event :: events =>
      if str_eqb (we_Kind event) "provider.http"
      then event <| we_Fields := we_Fields event ++ fields |> :: events
      else event :: attach_fields fields events
  end.

(** The options [attachPayload] passes to [Put]. *)
Definition attach_options (contentType : string) : PutOptions :=
  mkPutOptions contentType CompressionGZIP time_zero "demo".

(** [attachPayload], [put] being the answer of the store's [Put]. *)
Definition attachPayload (cfg : generator_Config) (index : Z) (put : result Ref) (s : story) : result story :=
  let '(content, _) := demoPayload (gc_Seed cfg) index in
  ref ← put;
  let fields := payloadFields "response" ref ++
    [numField "http.response_size" "int64" (u64 (Z.of_nat (slen content)));
     textField "http.response_preview" (preview content 320)] in
  Ok (mkStory (story_service s) (attach_fields fields (story_events s))).

End Stories.
