(* ===== verification/GeneratorSystem.v ===== *)
(** * The event generator's pipeline ([Generate] of src/generator/generator.go)

    The calling goroutine builds stories, buffers their events per service and
    sends full batches to a channel; [PublishConcurrency] workers publish them.  The
    first failing worker reports its error and cancels the shared context, which
    makes the caller give up.  A state holds the caller's position, the channels,
    the context and every worker; each channel operation, each [publish] and each
    payload [Put] is one action, so that any interleaving is a schedule of actions.
    The fields marked as history record what happened and are read by no action. *)

From S2P Require Import Prelude Ids Events GoLib Wire Payload GoRand Generator.

Definition context_Canceled : error := sentinel "context canceled".

(** A worker: waiting for a job; in [publish]; at the [select] on the error channel;
    about to call [cancel]; returned. *)
Inductive worker := WIdle | WPublish (envelope : Envelope) | WFail (err : error) | WCancel | WDone.

(** Where the caller goes after a successful [emit]. *)
Inductive after_emit := ThenFill | ThenRest (rest : list string).

(** What [Generate] returns once [finish] has run: its result; its result or else
    an error; the error of an earlier return, [finish] being deferred. *)
Inductive after_finish := ReturnFinish | ReturnFinishOr (err : option error) | ReturnDeferred (err : error).

Inductive gpc :=
| GLoop
| GPut (s : story)
| GFill (service : string)
| GEmit (service : string) (events : list wire_Event) (k : after_emit)
| GRest (rest : list string)
| GFinish (k : after_finish)
| GDone (err : option error)
| GPanic (message : string).

Record gstate (R : Type) := mkGstate {
  g_pc : gpc;
  g_manifest : generator_Manifest;
  g_rng : R;
  g_buffers : gmap string (list wire_Event);
  g_jobs : list Envelope;
  g_closed : bool;
  g_errCh : option error;
  (* publishCtx.Err() *)
  g_ctx : option error;
  g_workers : list worker;
  (* history: envelopes sent to the channel, published, refused by publish *)
  g_sent : list Envelope;
  g_published : list Envelope;
  g_failed : list Envelope;
  (* history: the reference attached to each story, and the events accounted *)
  g_refs : list (option Ref);
  g_made : list (string * wire_Event)
}.
Arguments mkGstate {R}. Arguments g_pc {R}. Arguments g_manifest {R}. Arguments g_rng {R}.
Arguments g_buffers {R}. Arguments g_jobs {R}. Arguments g_closed {R}. Arguments g_errCh {R}.
Arguments g_ctx {R}. Arguments g_workers {R}. Arguments g_sent {R}. Arguments g_published {R}.
Arguments g_failed {R}. Arguments g_refs {R}. Arguments g_made {R}.

#[global] Instance eta_gstate {R} : Eta (gstate R) :=
  fun s => mkGstate (g_pc s) (g_manifest s) (g_rng s) (g_buffers s) (g_jobs s) (g_closed s) (g_errCh s)
    (g_ctx s) (g_workers s) (g_sent s) (g_published s) (g_failed s) (g_refs s) (g_made s).

Inductive gaction :=
| AMain                                      (* the caller's own step *)
| APut (put : result Ref)                    (* Put answers *)
| ASend                                      (* case jobs <- envelope *)
| AGiveUp                                    (* case <-publishCtx.Done() *)
| AFinished                                  (* workers.Wait() returns *)
| ATake (i : nat)                            (* a worker receives a job *)
| AExit (i : nat)                            (* a worker sees the closed channel *)
| APublish (i : nat) (err : option error)    (* publish returns *)
| AReport (i : nat)                          (* the select on errCh *)
| ACancel (i : nat)                          (* cancel() *)
| AParent (err : error).                     (* the caller's context ends *)

(** [cancel()], and the end of the parent context: the first cause stays. *)
Definition end_ctx {R} (err : error) (s : gstate R) : gstate R :=
  s <| g_ctx := Some (default err (g_ctx s)) |>.

Definition buffer {R} (s : gstate R) (service : string) : list wire_Event := default [] (g_buffers s !! service).

(** [finish]: closes the channel, then waits in [GFinish]. *)
Definition call_finish {R} (k : after_finish) (s : gstate R) : gstate R :=
  s <| g_closed := true |> <| g_pc := GFinish k |>.

(** The body of [finish] after [workers.Wait()], the return and the deferred
    [cancel]. *)
Definition finished {R} (k : after_finish) (s : gstate R) : gstate R :=
  let finishErr := g_errCh s in
  let err :=
    match k with
    | ReturnFinish => finishErr
    | ReturnFinishOr err => match finishErr with Some e => Some e | None => err end
    | ReturnDeferred err => Some err
    end in
  end_ctx context_Canceled (s <| g_errCh := None |> <| g_pc := GDone err |>).

(** The envelope [emit] builds; [copyEvents[0]] panics on an empty slice. *)
Definition emit_envelope (service : string) (events : list wire_Event) : option Envelope :=
  match events with
  | [] => None
  | first :: _ => Some (mkEnvelope Version (we_EventID first) (mkMetadata service "demo" "generator-v1") events)
  end.

Section System.
Context (sha256 : bytes -> array 32) {R : Type} `{!RandSource R} (cfg : generator_Config) (cap : nat).

(** The main loop after the payload: the story is counted, clipped to what remains
    and buffered. *)
Definition account (ref : option Ref) (st : story) (s : gstate R) : gstate R :=
  let m := g_manifest s in
  let m := m <| gm_Stories := u64 (gm_Stories m + 1) |> in
  let remaining := u64 (gc_Events cfg - gm_Events m) in
  let events :=
    if remaining <? Z.of_nat (length (story_events st))
    then take (Z.to_nat remaining) (story_events st) else story_events st in
  let m := m <| gm_Events := u64 (gm_Events m + Z.of_nat (length events)) |> in
  s <| g_manifest := m |>
    <| g_buffers := <[story_service st := buffer s (story_service st) ++ events]> (g_buffers s) |>
    <| g_refs := g_refs s ++ [ref] |>
    <| g_made := g_made s ++ (pair (story_service st) <$> events) |>
    <| g_pc := GFill (story_service st) |>.

(** Whether story [index] gets a payload. *)
Definition wants_payload (index : Z) : bool :=
  gc_PayloadStore cfg && (0 <? gc_PayloadEvery cfg) && (index mod gc_PayloadEvery cfg =? 0).

(** One step of the caller that waits for nobody. *)
Definition main_step (s : gstate R) : option (gstate R) :=
  match g_pc s with
  | GLoop =>
      if gm_Events (g_manifest s) <? gc_Events cfg then
        match g_ctx s with
        | Some err => Some (call_finish (ReturnFinishOr (Some err)) s)
        | None =>
            let '(rng, st) := buildStory sha256 cfg (gm_Stories (g_manifest s)) (g_rng s) in
            let s := s <| g_rng := rng |> in
            if wants_payload (gm_Stories (g_manifest s)) then Some (s <| g_pc := GPut st |>)
            else Some (account None st s)
        end
      else Some (s <| g_pc := GRest services |>)
  | GFill service =>
      if gc_BatchSize cfg <=? Z.of_nat (length (buffer s service))
      then Some (s <| g_pc := GEmit service (take (Z.to_nat (gc_BatchSize cfg)) (buffer s service)) ThenFill |>)
      else Some (s <| g_pc := GLoop |>)
  | GRest [] => Some (call_finish ReturnFinish s)
  | GRest (service :: rest) =>
      if Nat.ltb 0 (length (buffer s service))
      then Some (s <| g_pc := GEmit service (buffer s service) (ThenRest rest) |>)
      else Some (s <| g_pc := GRest rest |>)
  | _ => None
  end.

(** [jobs <- envelope] succeeds; sending on a closed channel panics. *)
Definition send_step (service : string) (events : list wire_Event) (k : after_emit) (s : gstate R)
    : option (gstate R) :=
  match emit_envelope service events with
  | None => Some (s <| g_pc := GPanic "index out of range" |>)
  | Some envelope =>
      if g_closed s then Some (s <| g_pc := GPanic "send on closed channel" |>)
      else if Nat.ltb (length (g_jobs s)) cap then
        let m := g_manifest s in
        let s := s <| g_jobs := g_jobs s ++ [envelope] |> <| g_sent := g_sent s ++ [envelope] |>
                   <| g_manifest := m <| gm_Batches := u64 (gm_Batches m + 1) |> |> in
        match k with
        | ThenFill =>
            Some (s <| g_buffers := <[service := drop (Z.to_nat (gc_BatchSize cfg)) (buffer s service)]> (g_buffers s) |>
                    <| g_pc := GFill service |>)
        | ThenRest rest => Some (s <| g_pc := GRest rest |>)
        end
      else None
  end.

Definition set_worker (i : nat) (w : worker) (s : gstate R) : gstate R :=
  s <| g_workers := <[i := w]> (g_workers s) |>.

(** One action of worker [i]. *)
Definition worker_step (a : gaction) (w : worker) (i : nat) (s : gstate R) : option (gstate R) :=
  match a, w with
  | ATake _, WIdle =>
      match g_jobs s with
      | envelope :: jobs => Some (set_worker i (WPublish envelope) (s <| g_jobs := jobs |>))
      | [] => None
      end
  | AExit _, WIdle =>
      if g_closed s && Nat.eqb (length (g_jobs s)) 0 then Some (set_worker i WDone s) else None
  | APublish _ None, WPublish envelope =>
      Some (set_worker i WIdle (s <| g_published := g_published s ++ [envelope] |>))
  | APublish _ (Some err), WPublish envelope =>
      Some (set_worker i (WFail err) (s <| g_failed := g_failed s ++ [envelope] |>))
  | AReport _, WFail err =>
      match g_errCh s with
      | None => Some (set_worker i WCancel (s <| g_errCh := Some err |>))
      | Some _ => Some (set_worker i WDone s)
      end
  | ACancel _, WCancel => Some (set_worker i WDone (end_ctx context_Canceled s))
  | _, _ => None
  end.

Definition is_done (w : worker) : bool := match w with WDone => true | _ => false end.

Definition gstep (a : gaction) (s : gstate R) : option (gstate R) :=
  match a with
  | AMain => main_step s
  | APut put =>
      match g_pc s with
      | GPut st =>
          match attachPayload cfg (gm_Stories (g_manifest s)) put st with
          | Ok st' => Some (account (match put with Ok ref => Some ref | _ => None end) st' s)
          | Fail err => Some (call_finish (ReturnDeferred err) s)
          | Panic _ => None
          end
      | _ => None
      end
  | ASend => match g_pc s with GEmit service events k => send_step service events k s | _ => None end
  | AGiveUp =>
      match g_pc s, g_ctx s with
      | GEmit _ _ _, Some err => Some (call_finish (ReturnFinishOr (Some err)) s)
      | _, _ => None
      end
  | AFinished =>
      match g_pc s with
      | GFinish k => if forallb is_done (g_workers s) then Some (finished k s) else None
      | _ => None
      end
  | ATake i | AExit i | APublish i _ | AReport i | ACancel i =>
      w ← g_workers s !! i; worker_step a w i s
  | AParent err => match g_ctx s with None => Some (end_ctx err s) | Some _ => None end
  end.

Definition step (s s' : gstate R) : Prop := exists a, gstep a s = Some s'.

(** The actions of [Generate] itself: the caller's, the workers', and the returns of
    the [publish] and [Put] calls they are in.  The end of the caller's context is
    the one action left out: it is the environment's. *)
Definition own_action (a : gaction) : bool :=
  match a with AParent _ => false | _ => true end.

Fixpoint grun (actions : list gaction) (s : gstate R) : option (gstate R) :=
  match actions with
  | [] => Some s
  | a :: actions => s' ← gstep a s; grun actions s'
  end.

End System.

(** ** The start of [Generate] *)

Definition generator_defaults (cfg : generator_Config) : generator_Config :=
  let cfg := if time_IsZero (gc_Start cfg) then cfg <| gc_Start := 1767225600 * Second |> else cfg in
  let cfg := if gc_BatchSize cfg <=? 0 then cfg <| gc_BatchSize := 64 |> else cfg in
  if gc_PublishConcurrency cfg <=? 0 then cfg <| gc_PublishConcurrency := 1 |> else cfg.

(** The prologue of [Generate]: the normalised configuration, the channel's capacity
    and the first state.  [publisher] says whether [publish] is not nil; [rng] is the
    source built from the seed. *)
Definition Generate_start {R} (publisher : bool) (rng : R) (cfg : generator_Config)
    : result (generator_Config * nat * gstate R) :=
  if (gc_Events cfg =? 0) || negb publisher
  then Fail (errors_New "trail/generator: events and publisher are required")
  else
    let cfg := generator_defaults cfg in
    if 1024 <? gc_BatchSize cfg then Fail (errors_New "trail/generator: batch size exceeds 1024")
    else
      let cap := i64 (gc_PublishConcurrency cfg * 2) in
      if cap <? 0 then Panic "makechan: size out of range"
      else Ok (cfg, Z.to_nat cap,
        mkGstate GLoop (mkGeneratorManifest 1 0 0 0 (gc_Seed cfg) (gc_Start cfg)) rng ∅ [] false None None
          (replicate (Z.to_nat (gc_PublishConcurrency cfg)) WIdle) [] [] [] [] []).

(** [rand.New(rand.NewPCG(cfg.Seed, cfg.Seed^0x9e3779b97f4a7c15))] *)
Definition generator_rng (seed : Z) : PCG := NewPCG seed (Z.lxor seed 0x9e3779b97f4a7c15).
