(* ===== verification/GeneratorStories.v ===== *)
(** * Facts on the generator's stories

    What [buildStory] and [attachPayload] make: their size, the identifiers of the
    events, and that every event satisfies the wire contract. *)

From S2P Require Import Prelude Ids Events GoLib Wire Payload GoRand Generator.

Create HintDb generator.

Section Stories.
Context (sha256 : bytes -> array 32) {R : Type} `{!RandSource R} (cfg : generator_Config).

Abbreviation event_id index k := (deterministicID sha256 (gc_Seed cfg) "event" (Z.lor (u64 (Z.shiftl index 16)) k)).

(** ** Identifiers: event [k] of story [index] *)

Lemma build_flow_ids index base failure startID flowNumber sequence (rng : R) :
  we_EventID <$> (build_flow sha256 cfg index base failure startID flowNumber sequence rng).2 =
  [event_id index sequence; event_id index (sequence + 1); event_id index (sequence + 2); event_id index (sequence + 3)].
Proof.
  unfold build_flow. destruct (rng_Uint64N rng 30) as [r1 ?], (rng_Uint64N r1 40) as [r2 ?], (rng_Uint64N r2 200).
  by destruct (failure && _).
Qed.

Lemma seqZ_4 m n : seqZ m (4 + Z.of_nat n) = m :: (m + 1) :: (m + 2) :: (m + 3) :: seqZ (m + 4) (Z.of_nat n).
Proof.
  do 4 (rewrite seqZ_cons by lia). repeat (f_equal; try lia).
Qed.

Lemma build_flows_ids n index base failure startID flowNumber sequence (rng : R) :
  we_EventID <$> (build_flows sha256 n cfg index base failure startID flowNumber sequence rng).2 =
  (fun k => event_id index k) <$> seqZ sequence (4 * Z.of_nat n).
Proof.
  revert flowNumber sequence rng. induction n as [|n IH]; intros flowNumber sequence rng; [done|].
  cbn [build_flows]. pose proof (build_flow_ids index base failure startID flowNumber sequence rng) as Hflow.
  destruct (build_flow _ _ _ _ _ _ _ _ _) as [rng' events].
  specialize (IH (flowNumber + 1) (sequence + 4) rng'). destruct (build_flows _ _ _ _ _ _ _ _ _ _) as [rng2 more].
  cbn [snd] in *. rewrite fmap_app, Hflow, IH.
  replace (4 * Z.of_nat (S n)) with (4 + Z.of_nat (4 * n)) by lia. rewrite seqZ_4.
  replace (4 * Z.of_nat n) with (Z.of_nat (4 * n)) by lia. done.
Qed.

(** The number of events of a story. *)
Definition story_size (index : Z) : Z := 2 + 4 * (2 + index mod 4).

Lemma buildStory_ids index (rng : R) :
  we_EventID <$> story_events (buildStory sha256 cfg index rng).2 =
  (fun k => event_id index k) <$> seqZ 0 (story_size index).
Proof.
  unfold buildStory, story_size. destruct (rng_Uint64N rng Second) as [rng1 jitter].
  match goal with |- context [build_flows ?a ?b ?c ?d ?e ?f ?g ?h ?i ?j] =>
    pose proof (build_flows_ids b d e f g h i j) as Hflows; destruct (build_flows a b c d e f g h i j) as [rng2 events] end.
  cbn [snd story_events] in *. pose proof (Z.mod_pos_bound index 4).
  rewrite Z2Nat.id in Hflows by lia.
  replace (2 + 4 * (2 + index mod 4)) with (1 + (4 * (2 + index mod 4) + 1)) by lia.
  rewrite seqZ_app, fmap_app by lia. rewrite seqZ_app, fmap_app by lia.
  rewrite fmap_app. cbn [fmap list_fmap]. rewrite Hflows. cbn [app].
  apply (f_equal2 cons); [by destruct (1 <? _), (_ && _)|]. apply (f_equal2 app); [done|].
  replace (seqZ (0 + 1 + _) 1) with [1 + 4 * (2 + index mod 4)] by done.
  by destruct (_ || _).
Qed.

Lemma length_buildStory index (rng : R) :
  Z.of_nat (length (story_events (buildStory sha256 cfg index rng).2)) = story_size index.
Proof.
  rewrite <- (length_fmap we_EventID), buildStory_ids, length_fmap, length_seqZ. unfold story_size.
  pose proof (Z.mod_pos_bound index 4). lia.
Qed.

Lemma buildStory_service index (rng : R) : 0 <= index -> story_service (buildStory sha256 cfg index rng).2 ∈ services.
Proof.
  intros Hi. unfold buildStory. destruct (rng_Uint64N rng Second) as [rng1 jitter].
  destruct (build_flows _ _ _ _ _ _ _ _ _ _). cbn [snd story_service].
  apply list_elem_of_In, nth_In. cbn. pose proof (Z.mod_pos_bound index 5). lia.
Qed.

Lemma attach_fields_ids fields events : we_EventID <$> attach_fields fields events = we_EventID <$> events.
Proof. induction events as [|e events IH]; [done|]. simpl. destruct (str_eqb _ _); [done|]. simpl. by f_equal. Qed.

Lemma attachPayload_Ok index ref st st' :
  attachPayload cfg index (Ok ref) st = Ok st' ->
  story_service st' = story_service st /\ we_EventID <$> story_events st' = we_EventID <$> story_events st.
Proof.
  unfold attachPayload. destruct (demoPayload _ _) as [content ty]. cbn [mbind result_bind].
  intros [= <-]. split; [done|]. apply attach_fields_ids.
Qed.

(** ** Every event satisfies the wire contract *)

Definition event_good (e : wire_Event) : Prop := validateEvent e = Ok tt /\ event_fits e.

Definition field_good (f : wire_Field) : Prop :=
  wf_Key f <> "" /\ known_type (wf_Type f) = true /\ field_fits f.

Lemma validate_fields_good fs : Forall field_good fs -> validate_fields fs = Ok tt.
Proof.
  induction 1 as [|f fs [Hk [Ht Hf]] _ IH]; [done|]. cbn [validate_fields].
  unfold str_eqb. rewrite bool_decide_false by done. by rewrite Ht.
Qed.

Lemma check_deterministic seed ns k parse text : parse = decodeID ->
  check_optional_id parse (deterministicID sha256 seed ns k) text = Ok tt.
Proof.
  intros ->. unfold check_optional_id, deterministicID. rewrite String_nonempty.
  unfold String_. by rewrite decode_encode.
Qed.

Lemma deterministic_parses seed ns k : is_ok (ParseEventID (deterministicID sha256 seed ns k)) = true.
Proof. unfold ParseEventID, deterministicID, String_. by rewrite decode_encode. Qed.

(** Either no identifier or one made by [deterministicID]. *)
Definition id_good (s : string) : Prop := s = "" \/ exists ns k, s = deterministicID sha256 (gc_Seed cfg) ns k.

Lemma check_id_good s parse text : id_good s -> parse = decodeID -> check_optional_id parse s text = Ok tt.
Proof. intros [->|(ns & k & ->)] Hp; [done|by apply check_deterministic]. Qed.

Lemma event_goodI e :
  (exists ns k, we_EventID e = deterministicID sha256 (gc_Seed cfg) ns k) ->
  in_s 64 (we_TimestampUnixNano e) -> we_TimestampUnixNano e <> 0 -> we_Kind e <> "" ->
  known_level (we_Level e) = true -> id_good (we_FlowID e) -> id_good (we_ExecutionID e) ->
  id_good (we_ParentExecutionID e) -> id_good (we_RetryOfExecutionID e) -> id_good (we_ParentID e) ->
  we_ScopeType e = "" -> we_ScopeID e = "" -> in_u 32 (we_ExecutionAttempt e) -> Forall field_good (we_Fields e) ->
  event_good e.
Proof.
  intros (ns & k & Hid) Hts Hts0 Hkind Hlevel Hf He Hp Hr Hpa Hst Hsi Hat Hfields. split.
  - unfold validateEvent. rewrite Hid. unfold deterministicID at 1. rewrite String_nonempty.
    apply Z.eqb_neq in Hts0. rewrite Hts0. unfold str_eqb at 1. rewrite bool_decide_false by done. cbn [orb].
    rewrite deterministic_parses. cbn [negb].
    rewrite !check_id_good by done. cbn [mbind result_bind]. rewrite Hst, Hsi, Hlevel.
    cbn. by apply validate_fields_good.
  - split; [done|]. split; [done|]. eapply Forall_impl; [exact Hfields|]. by intros f [_ [_ ?]].
Qed.
(** ** The events of a story *)

(** The story's timestamps are positive and representable in nanoseconds. *)
Definition story_in_range (index : Z) : Prop :=
  0 <= index /\ 0 < gc_Start cfg /\ gc_Start cfg + 3 * index * Second + 4 * Second < 2 ^ 63.

Lemma textField_good key value : key <> "" -> field_good (textField key value).
Proof. intros Hk. split; [done|]. split; [done|]. unfold textField, field_fits, in_u. cbn. lia. Qed.
Lemma numField_good key kind v : key <> "" -> known_type kind = true -> in_u 64 v -> field_good (numField key kind v).
Proof. done. Qed.
Lemma boolField_good key b : key <> "" -> field_good (boolField key b).
Proof. intros Hk. split; [done|]. split; [done|]. unfold boolField, field_fits, in_u. destruct b; cbn; lia. Qed.

Lemma id_good_det ns k : id_good (deterministicID sha256 (gc_Seed cfg) ns k).
Proof. right. eauto. Qed.
Lemma id_good_empty : id_good "".
Proof. by left. Qed.

Lemma timestamp_good t : 0 < t < 2 ^ 63 -> in_s 64 (UnixNano t) /\ UnixNano t <> 0.
Proof. intros Ht. unfold UnixNano. rewrite i64_id; unfold in_s; lia. Qed.

Lemma attempt_good index : in_u 32 (u32 (index mod 3 + 1)).
Proof. apply wrapu_in. lia. Qed.

Hint Resolve textField_good boolField_good numField_good id_good_det id_good_empty attempt_good : generator.

Ltac good_fields :=
  repeat apply Forall_cons_2; try apply Forall_nil_2;
  first [apply textField_good; discriminate | apply boolField_good; discriminate
        | apply numField_good; [discriminate|reflexivity|]].

(** An event made by [newEvent], with some of its texts replaced. *)
Ltac good_event :=
  apply event_goodI; unfold newEvent;
  cbn [we_EventID we_TimestampUnixNano we_Kind we_Level we_FlowID we_ExecutionID we_ParentExecutionID
       we_RetryOfExecutionID we_ExecutionAttempt we_ScopeType we_ScopeID we_ParentID we_Fields
       set_field];
  eauto with generator; try discriminate;
  try (apply timestamp_good; lia); try solve [good_fields; auto with generator].

(** Durations of a story do not overflow. *)
Lemma flow_delay n : 0 <= n < 6 -> i64 (i64 (i64 (u64 (n + 1)) * 10) * Millisecond) = (n + 1) * 10 * Millisecond.
Proof.
  intros Hn. unfold Millisecond. rewrite wrapu_id by (unfold in_u; lia).
  rewrite (i64_id (n + 1)), (i64_id ((n + 1) * 10)), i64_id by (unfold in_s; lia). done.
Qed.

Lemma http_delay d : 0 <= d < 40 -> i64 (i64 (u64 (5 + d)) * Millisecond) = (5 + d) * Millisecond.
Proof.
  intros Hd. unfold Millisecond. rewrite wrapu_id by (unfold in_u; lia).
  rewrite (i64_id (5 + d)), i64_id by (unfold in_s; lia). done.
Qed.

Lemma story_delay index jitter : story_in_range index -> 0 <= jitter < Second ->
  i64 (i64 (i64 (i64 index * 3) * Second) + i64 jitter) = 3 * index * Second + jitter.
Proof.
  intros (H0 & H1 & H2). unfold Second in *. intros Hj. rewrite (i64_id index), (i64_id (index * 3)) by (unfold in_s; lia).
  rewrite (i64_id (index * 3 * _)), (i64_id jitter), i64_id by (unfold in_s; lia). lia.
Qed.

Lemma build_flow_good index base failure startID flowNumber sequence (rng : R) :
  0 <= flowNumber < 6 -> 0 < base < 2 ^ 63 - Second -> id_good startID ->
  Forall event_good (build_flow sha256 cfg index base failure startID flowNumber sequence rng).2.
Proof.
  intros Hn Hb Hs. unfold build_flow. rewrite (flow_delay _ Hn).
  pose proof (rng_Uint64N_range rng 30 ltac:(lia)) as L1. destruct (rng_Uint64N rng 30) as [r1 units].
  pose proof (rng_Uint64N_range r1 40 ltac:(lia)) as L2. destruct (rng_Uint64N r1 40) as [r2 delay].
  pose proof (rng_Uint64N_range r2 200 ltac:(lia)) as L3. destruct (rng_Uint64N r2 200) as [r3 took].
  cbn [snd] in L1, L2, L3. rewrite (http_delay _ L2).
  assert (forall z, in_u 64 (u64 z)) as Hu by (intros z; apply wrapu_in; lia).
  assert (in_u 64 503 /\ in_u 64 408 /\ in_u 64 200) as (? & ? & ?) by (unfold in_u; lia).
  unfold Second, Millisecond in *.
  destruct (failure && (flowNumber =? 0)); [destruct (index mod 2 =? 0)|]; cbn [snd];
    (do 4 (apply Forall_cons_2; [good_event|])); apply Forall_nil_2.
Qed.
Lemma build_flows_good n index base failure startID flowNumber sequence (rng : R) :
  0 <= flowNumber -> flowNumber + Z.of_nat n <= 6 -> 0 < base < 2 ^ 63 - Second -> id_good startID ->
  Forall event_good (build_flows sha256 n cfg index base failure startID flowNumber sequence rng).2.
Proof.
  revert flowNumber sequence rng. induction n as [|n IH]; intros flowNumber sequence rng H0 Hn Hb Hs; [by apply Forall_nil_2|].
  cbn [build_flows]. pose proof (build_flow_good index base failure startID flowNumber sequence rng) as Hflow.
  destruct (build_flow _ _ _ _ _ _ _ _ _) as [rng' events].
  specialize (IH (flowNumber + 1) (sequence + 4) rng'). destruct (build_flows _ _ _ _ _ _ _ _ _ _) as [rng2 more].
  apply Forall_app_2; [apply Hflow; by try lia|apply IH; by try lia].
Qed.

Lemma last_id_good (e : wire_Event) events :
  id_good (we_EventID e) -> Forall (fun e => id_good (we_EventID e)) events -> id_good (we_EventID (List.last (e :: events) e)).
Proof.
  intros He Hevents. assert (List.last (e :: events) e ∈ e :: events) as Hin.
  { apply list_elem_of_In. destruct (@exists_last _ (e :: events)) as (l & x & Heq); [done|].
    rewrite Heq, last_last. apply in_or_app. right. by left. }
  apply elem_of_cons in Hin as [->|Hin]; [done|]. by apply (proj1 (Forall_forall _ _) Hevents).
Qed.

Lemma build_flows_id_good n index base failure startID flowNumber sequence (rng : R) :
  Forall (fun e => id_good (we_EventID e)) (build_flows sha256 n cfg index base failure startID flowNumber sequence rng).2.
Proof.
  apply (Forall_fmap we_EventID id_good). rewrite build_flows_ids.
  apply Forall_fmap, Forall_forall. intros k _. change (id_good (event_id index k)). apply id_good_det.
Qed.

Lemma buildStory_good index (rng : R) :
  story_in_range index -> Forall event_good (story_events (buildStory sha256 cfg index rng).2).
Proof.
  intros Hr. unfold buildStory. pose proof (rng_Uint64N_range rng Second ltac:(unfold Second; lia)) as Hj.
  destruct (rng_Uint64N rng Second) as [rng1 jitter]. cbn [snd] in Hj. rewrite (story_delay _ _ Hr Hj).
  destruct Hr as (H0 & H1 & H2). set (base := gc_Start cfg + (3 * index * Second + jitter)).
  assert (0 < base < 2 ^ 63 - 3 * Second) as Hb by (subst base; unfold Second in *; lia). clearbody base.
  pose proof (Z.mod_pos_bound index 4).
  match goal with |- context [build_flows ?a ?b ?c ?d ?e ?f ?g ?h ?i ?j] =>
    pose proof (build_flows_good b d e f g h i j) as Hflows; pose proof (build_flows_id_good b d e f g h i j) as Hids;
    destruct (build_flows a b c d e f g h i j) as [rng2 events] end.
  cbn [snd story_events] in *. unfold Second in *.
  match goal with |- context [List.last (?s :: events) _] => set (start := s) in * end.
  assert (exists ns k, we_EventID start = deterministicID sha256 (gc_Seed cfg) ns k) as Hid.
  { do 2 eexists. unfold start. destruct (1 <? _), (_ && _); reflexivity. }
  destruct Hid as (ns & k & Hid).
  assert (id_good (we_EventID start)) as Hstart by (rewrite Hid; apply id_good_det).
  apply Forall_app_2; [apply Forall_cons_2|].
  - unfold start. destruct (1 <? _), (_ && _); good_event.
  - apply Hflows; [lia|lia|lia|done].
  - apply Forall_cons_2; [|apply Forall_nil_2]. pose proof (last_id_good start events Hstart Hids).
    destruct (_ || _); good_event.
Qed.

Lemma payloadFields_good role ref : Forall field_good (payloadFields role ref).
Proof.
  assert (forall z, in_u 64 (u64 z)) by (intros z; apply wrapu_in; lia).
  unfold payloadFields. good_fields; auto.
Qed.

Lemma attach_fields_good fields events :
  Forall field_good fields -> Forall event_good events -> Forall event_good (attach_fields fields events).
Proof.
  intros Hf. induction 1 as [|e events [Hv (Ht & Ha & Hfits)] He IH]; [by apply Forall_nil_2|]. cbn [attach_fields].
  destruct (str_eqb _ _); [|by apply Forall_cons_2]. apply Forall_cons_2; [|done]. split.
  - revert Hv. unfold validateEvent. cbn [we_EventID we_TimestampUnixNano we_Kind we_Level we_FlowID we_ExecutionID
      we_ParentExecutionID we_RetryOfExecutionID we_ExecutionAttempt we_ScopeType we_ScopeID we_ParentID we_Fields set_field].
    destruct (_ || _); [done|]. destruct (negb (is_ok _)); [done|].
    do 5 (destruct (check_optional_id _ _ _) as [[]| |]; cbn [mbind result_bind]; [|done|done]).
    destruct (xorb _ _); [done|]. destruct (negb _); [done|]. intros Hv.
    assert (forall l, validate_fields l = Ok tt -> validate_fields (l ++ fields) = Ok tt) as Happ; [|by apply Happ].
    induction l as [|f l IHl]; [intros _; by apply validate_fields_good|]. cbn [validate_fields app].
    destruct (str_eqb _ _); [done|]. by destruct (known_type _).
  - split; [done|]. split; [done|]. apply Forall_app_2; [done|]. eapply Forall_impl; [exact Hf|]. by intros f (_ & _ & ?).
Qed.

Lemma attachPayload_good index ref st st' :
  attachPayload cfg index (Ok ref) st = Ok st' ->
  Forall event_good (story_events st) -> Forall event_good (story_events st').
Proof.
  unfold attachPayload. destruct (demoPayload _ _) as [content ty]. cbn [mbind result_bind fst].
  intros H Hst. apply Ok_inj in H as <-. apply attach_fields_good; [|done]. apply Forall_app_2; [apply payloadFields_good|].
  assert (forall z, in_u 64 (u64 z)) by (intros z; apply wrapu_in; lia). good_fields; auto.
Qed.
End Stories.
