(* ===== verification/GeneratorProofs.v ===== *)
(** * What [Generate] delivers

    Invariants of the generator's pipeline, for every interleaving of the caller
    and its workers: a successful run has published exactly the batches of a
    sequence of events that the seed determines; no state is stuck and every run
    ends. *)

From S2P Require Import Prelude Ids Events GoLib Wire Payload GoRand Generator GeneratorSystem GeneratorStories.

(** ** The reference sequence *)

Section Reference.
Context (sha256 : bytes -> array 32) {R : Type} `{!RandSource R} (cfg : generator_Config) (rng0 : R).

(** A story with the payload reference it got, if it got one. *)
Definition link_story (index : Z) (ref : option Ref) (st : story) : story :=
  match ref with
  | None => st
  | Some r => match attachPayload cfg index (Ok r) st with Ok st' => st' | _ => st end
  end.

(** The stories from [index] on, one for each entry of [refs]. *)
Fixpoint story_stream (index : Z) (rng : R) (refs : list (option Ref)) : R * list story :=
  match refs with
  | [] => (rng, [])
  | ref :: refs =>
      let '(rng, st) := buildStory sha256 cfg index rng in
      let '(rng, more) := story_stream (index + 1) rng refs in
      (rng, link_story index ref st :: more)
  end.

Definition tagged (st : story) : list (string * wire_Event) := pair (story_service st) <$> story_events st.

(** The events of the stories in order, each with its service. *)
Definition event_stream (refs : list (option Ref)) : list (string * wire_Event) :=
  concat (tagged <$> (story_stream 0 rng0 refs).2).

Lemma story_stream_snoc index rng refs ref :
  story_stream index rng (refs ++ [ref]) =
  (let '(rng1, l) := story_stream index rng refs in
   let '(rng2, st) := buildStory sha256 cfg (index + Z.of_nat (length refs)) rng1 in
   (rng2, l ++ [link_story (index + Z.of_nat (length refs)) ref st])).
Proof.
  revert index rng. induction refs as [|r refs IH]; intros index rng; cbn [story_stream app length].
  - rewrite Z.add_0_r. by destruct (buildStory _ _ _ _).
  - destruct (buildStory sha256 cfg index rng) as [rng1 st]. rewrite IH.
    replace (index + 1 + Z.of_nat (length refs)) with (index + Z.of_nat (S (length refs))) by lia.
    destruct (story_stream (index + 1) rng1 refs) as [rng2 l]. by destruct (buildStory _ _ _ rng2).
Qed.

Lemma event_stream_snoc refs ref rng2 st :
  buildStory sha256 cfg (Z.of_nat (length refs)) (story_stream 0 rng0 refs).1 = (rng2, st) ->
  event_stream (refs ++ [ref]) = event_stream refs ++ tagged (link_story (Z.of_nat (length refs)) ref st) /\
  (story_stream 0 rng0 (refs ++ [ref])).1 = rng2.
Proof.
  intros Hb. unfold event_stream. rewrite story_stream_snoc. destruct (story_stream 0 rng0 refs) as [rng1 l].
  cbn [fst snd] in *. rewrite Z.add_0_l, Hb. cbn [fst snd].
  rewrite fmap_app, concat_app. cbn. by rewrite app_nil_r.
Qed.

Lemma link_story_service index ref st : story_service (link_story index ref st) = story_service st.
Proof.
  destruct ref as [r|]; [|done]. cbn [link_story]. destruct (attachPayload _ _ _ _) as [st'| |] eqn:H; [|done|done].
  by apply attachPayload_Ok in H as [-> _].
Qed.

Lemma link_story_ids index ref st : we_EventID <$> story_events (link_story index ref st) = we_EventID <$> story_events st.
Proof.
  destruct ref as [r|]; [|done]. cbn [link_story]. destruct (attachPayload _ _ _ _) as [st'| |] eqn:H; [|done|done].
  by apply attachPayload_Ok in H as [_ ->].
Qed.

Lemma link_story_length index ref st : length (story_events (link_story index ref st)) = length (story_events st).
Proof. rewrite <- (length_fmap we_EventID), link_story_ids. apply length_fmap. Qed.

End Reference.

(** ** Lists of batches *)

(** The events a service has in a list of envelopes, and in a tagged sequence. *)
Definition sent_of (service : string) (l : list Envelope) : list wire_Event :=
  concat (en_Events <$> filter (fun e => md_Service (en_Metadata e) = service) l).
Definition made_of (service : string) (l : list (string * wire_Event)) : list wire_Event :=
  (filter (fun p => p.1 = service) l).*2.

Lemma sent_of_snoc service l e :
  sent_of service (l ++ [e]) = sent_of service l ++ (if decide (md_Service (en_Metadata e) = service) then en_Events e else []).
Proof.
  unfold sent_of. rewrite filter_app, fmap_app, concat_app. f_equal. rewrite filter_cons, filter_nil.
  destruct (decide _); [|done]. cbn. by rewrite app_nil_r.
Qed.

Lemma made_of_app service l l' : made_of service (l ++ l') = made_of service l ++ made_of service l'.
Proof. unfold made_of. by rewrite filter_app, fmap_app. Qed.

Lemma made_of_tagged service s events :
  made_of service (pair s <$> events) = if decide (s = service) then events else [].
Proof.
  unfold made_of. induction events as [|e events IH]; [by destruct (decide _)|]. cbn [fmap list_fmap].
  rewrite filter_cons. cbn [fst]. destruct (decide (s = service)); [|done]. cbn. by f_equal.
Qed.

Lemma made_of_none service (names : list string) l : Forall (fun p => p.1 ∈ names) l -> service ∉ names -> made_of service l = [].
Proof.
  intros Hl Hn. induction Hl as [|[s e] l Hs _ IH]; [done|]. unfold made_of. rewrite filter_cons.
  rewrite decide_False; [exact IH|]. cbn. by intros <-.
Qed.

Lemma made_of_elem service l e : e ∈ made_of service l -> e ∈ l.*2.
Proof.
  unfold made_of. intros ([s x] & -> & Hin)%list_elem_of_fmap. apply list_elem_of_filter in Hin as [_ Hin].
  apply list_elem_of_fmap. by exists (s, x).
Qed.

(** Splitting by service loses nothing when the services are known. *)
Lemma sumZ_pick (x : string) (names : list string) (n : Z) :
  NoDup names -> x ∈ names -> sumZ (fun s => if decide (x = s) then n else 0) names = n.
Proof.
  induction 1 as [|y names Hy Hnd IH]; [by intros []%not_elem_of_nil|]. cbn.
  intros [->|Hx]%elem_of_cons.
  - rewrite decide_True by done. change (n + sumZ (fun s => if decide (y = s) then n else 0) names = n).
    rewrite sumZ_zero; [lia|]. intros s Hs. rewrite decide_False; [done|]. by intros ->.
  - rewrite decide_False by (by intros ->). change (0 + sumZ (fun s => if decide (x = s) then n else 0) names = n).
    rewrite IH by done. lia.
Qed.

Lemma sent_total (names : list string) l :
  NoDup names -> Forall (fun e => md_Service (en_Metadata e) ∈ names) l ->
  sumZ (fun s => Z.of_nat (length (sent_of s l))) names = sumZ (fun e => Z.of_nat (length (en_Events e))) l.
Proof.
  intros Hnd. induction l as [|e l IH] using rev_ind; intros Hl.
  - by apply sumZ_zero.
  - apply Forall_app in Hl as [Hl He]. apply Forall_cons in He as [He _]. rewrite sumZ_app, <- IH by done.
    rewrite (sumZ_ext _ (fun s => Z.of_nat (length (sent_of s l)) +
      (if decide (md_Service (en_Metadata e) = s) then Z.of_nat (length (en_Events e)) else 0))).
    + rewrite sumZ_plus, sumZ_pick by done. cbn. lia.
    + intros s _. rewrite sent_of_snoc, length_app. destruct (decide _); cbn; lia.
Qed.

Lemma made_total (names : list string) l :
  NoDup names -> Forall (fun p => p.1 ∈ names) l ->
  sumZ (fun s => Z.of_nat (length (made_of s l))) names = Z.of_nat (length l).
Proof.
  intros Hnd. induction l as [|[x e] l IH]; intros Hl; [by apply sumZ_zero|].
  apply Forall_cons in Hl as [Hx Hl]. cbn [length]. rewrite Nat2Z.inj_succ, <- IH by done.
  rewrite (sumZ_ext _ (fun s => Z.of_nat (length (made_of s l)) + (if decide (x = s) then 1 else 0))).
  - rewrite sumZ_plus, sumZ_pick by done. lia.
  - intros s _. unfold made_of. rewrite filter_cons. cbn [fst]. destruct (decide (x = s)); cbn; lia.
Qed.

Lemma sumZ_le {A} (f g : A -> Z) l : (forall a, a ∈ l -> f a <= g a) -> sumZ f l <= sumZ g l.
Proof.
  induction l as [|a l IH]; [done|]. intros H. cbn. pose proof (H a ltac:(by left)).
  specialize (IH (fun x Hx => H x ltac:(by right))). unfold sumZ in *. lia.
Qed.

Definition in_flight (workers : list worker) : list Envelope :=
  omap (fun w => match w with WPublish e => Some e | _ => None end) workers.

Definition carries (w : worker) : list Envelope := match w with WPublish e => [e] | _ => [] end.

Lemma in_flight_app l l' : in_flight (l ++ l') = in_flight l ++ in_flight l'.
Proof. apply omap_app. Qed.

Lemma in_flight_insert workers i w w' :
  workers !! i = Some w -> exists rest, in_flight workers ≡ₚ carries w ++ rest /\
    in_flight (<[i := w']> workers) ≡ₚ carries w' ++ rest.
Proof.
  intros Hi. pose proof (lookup_lt_Some _ _ _ Hi) as Hlt.
  exists (in_flight (take i workers) ++ in_flight (drop (S i) workers)). split.
  - rewrite <- (take_drop_middle workers i w Hi) at 1. rewrite in_flight_app.
    change (w :: drop (S i) workers) with ([w] ++ drop (S i) workers). rewrite in_flight_app.
    destruct w; cbn; solve_Permutation.
  - rewrite insert_take_drop by done. rewrite in_flight_app.
    change (w' :: drop (S i) workers) with ([w'] ++ drop (S i) workers). rewrite in_flight_app.
    destruct w'; cbn; solve_Permutation.
Qed.

(** Projections of an updated state. *)
Ltac gproj :=
  cbn [g_pc g_manifest g_rng g_buffers g_jobs g_closed g_errCh g_ctx g_workers g_sent g_published g_failed
       g_refs g_made set_field set_worker end_ctx call_finish finished].

(** ** Invariants *)

Section Invariant.
Context (sha256 : bytes -> array 32) {R : Type} `{!RandSource R} (cfg : generator_Config) (cap : nat) (rng0 : R).

(** What the prologue of [Generate] establishes of the configuration. *)
Record config_ready : Prop := {
  cr_events : 0 < gc_Events cfg < 2 ^ 64;
  cr_batch : 1 <= gc_BatchSize cfg <= 1024;
  cr_workers : 1 <= gc_PublishConcurrency cfg;
  cr_cap : (0 < cap)%nat
}.

Abbreviation stream := (event_stream sha256 cfg rng0).
Abbreviation stream_rng refs := (story_stream sha256 cfg 0 rng0 refs).1.
Abbreviation limit := (Z.to_nat (gc_Events cfg)).
Abbreviation buf b service := (default [] (b !! service)).

Definition small (b : gmap string (list wire_Event)) (except : string -> Prop) : Prop :=
  forall service, except service \/ Z.of_nat (length (buf b service)) < gc_BatchSize cfg.

(** The facts of the caller's position. *)
Definition pc_ok (pc : gpc) (m : generator_Manifest) (rng : R) (b : gmap string (list wire_Event))
    (refs : list (option Ref)) : Prop :=
  match pc with
  | GLoop => small b (fun _ => False) /\ rng = stream_rng refs
  | GPut st => small b (fun _ => False) /\ gm_Events m < gc_Events cfg /\
      buildStory sha256 cfg (gm_Stories m) (stream_rng refs) = (rng, st)
  | GFill service => small b (fun s => s = service) /\ service ∈ services /\ rng = stream_rng refs
  | GEmit service events ThenFill =>
      small b (fun s => s = service) /\ service ∈ services /\ rng = stream_rng refs /\
      gc_BatchSize cfg <= Z.of_nat (length (buf b service)) /\
      events = take (Z.to_nat (gc_BatchSize cfg)) (buf b service)
  | GEmit service events (ThenRest rest) =>
      small b (fun _ => False) /\ NoDup (service :: rest) /\ Forall (fun s => s ∈ services) (service :: rest) /\
      gm_Events m = gc_Events cfg /\ events = buf b service /\ events <> []
  | GRest rest =>
      small b (fun _ => False) /\ NoDup rest /\ Forall (fun s => s ∈ services) rest /\ gm_Events m = gc_Events cfg
  | GFinish ReturnFinish => gm_Events m = gc_Events cfg
  | GFinish (ReturnFinishOr None) => False
  | GFinish _ => True
  | GDone None => gm_Events m = gc_Events cfg
  | GDone (Some _) => True
  | GPanic _ => False
  end.

(** The run was given up: an error will be returned. *)
Definition aborted (pc : gpc) : Prop :=
  match pc with
  | GFinish ReturnFinish | GDone None => False
  | GFinish _ | GDone _ => True
  | _ => False
  end.

(** The events of a service that are buffered and still to be sent. *)
Definition pending (pc : gpc) (b : gmap string (list wire_Event)) (service : string) : list wire_Event :=
  match pc with
  | GRest rest => if decide (service ∈ rest) then buf b service else []
  | GEmit s _ (ThenRest rest) => if decide (service ∈ s :: rest) then buf b service else []
  | GFinish _ | GDone _ | GPanic _ => []
  | _ => buf b service
  end.

(** A batch [emit] can have made. *)
Definition batch_ok (e : Envelope) : Prop :=
  exists service events, service ∈ services /\ Z.of_nat (length events) <= gc_BatchSize cfg /\
    emit_envelope service events = Some e.

Record caller_ok (pc : gpc) (m : generator_Manifest) (rng : R) (b : gmap string (list wire_Event))
    (sent : list Envelope) (refs : list (option Ref)) (made : list (string * wire_Event)) : Prop := {
  co_pc : pc_ok pc m rng b refs;
  co_stories : gm_Stories m = Z.of_nat (length refs);
  co_short : Z.of_nat (length refs) <= gm_Events m;
  co_made : made = take limit (stream refs);
  co_events : gm_Events m = Z.of_nat (length made);
  co_batches : gm_Batches m = u64 (Z.of_nat (length sent));
  co_flow : aborted pc \/ forall service, sent_of service sent ++ pending pc b service = made_of service made;
  co_prefix : forall service, sent_of service sent `prefix_of` made_of service made;
  co_tags : Forall (fun p => p.1 ∈ services) made;
  co_sent : Forall batch_ok sent
}.

Definition caller_inv (s : gstate R) : Prop :=
  caller_ok (g_pc s) (g_manifest s) (g_rng s) (g_buffers s) (g_sent s) (g_refs s) (g_made s).

(** The worker's [publish] failed. *)
Definition troubled (w : worker) : bool := match w with WFail _ | WCancel => true | _ => false end.

Record workers_ok (pc : gpc) (jobs : list Envelope) (closed : bool) (errCh ctx : option error)
    (workers : list worker) (sent published failed : list Envelope) : Prop := {
  wo_closed : closed = true <-> match pc with GFinish _ | GDone _ => True | _ => False end;
  wo_perm : sent ≡ₚ jobs ++ in_flight workers ++ published ++ failed;
  wo_failed : failed = [] \/ is_Some errCh \/ (exists i err, workers !! i = Some (WFail err)) \/
              match pc with GDone _ => True | _ => False end;
  wo_done : failed = [] -> forall i, workers !! i = Some WDone -> closed = true /\ jobs = [];
  wo_ctx : is_Some errCh -> is_Some ctx \/ exists i, workers !! i = Some WCancel;
  wo_some : (0 < length workers)%nat;
  wo_trouble : forall i w, workers !! i = Some w -> troubled w = true -> failed <> [];
  wo_quiet : match pc with GDone _ => Forall (fun w => w = WDone) workers | _ => True end;
  wo_final : pc = GDone None -> failed = [] /\ jobs = []
}.

Definition workers_inv (s : gstate R) : Prop :=
  workers_ok (g_pc s) (g_jobs s) (g_closed s) (g_errCh s) (g_ctx s) (g_workers s) (g_sent s) (g_published s) (g_failed s).

(** *** The caller *)

Lemma small_all b service : small b (fun _ => False) -> Z.of_nat (length (buf b service)) < gc_BatchSize cfg.
Proof. intros H. by destruct (H service). Qed.

Lemma call_finish_ok k s :
  caller_inv s -> pc_ok (GFinish k) (g_manifest s) (g_rng s) (g_buffers s) (g_refs s) ->
  (aborted (GFinish k) \/ forall service, pending (g_pc s) (g_buffers s) service = []) -> ~ aborted (g_pc s) ->
  caller_inv (call_finish k s).
Proof.
  intros [] Hpc Hk Hna. split; try done. cbn. destruct Hk as [Hk|Hk]; [by left|]. right. intros service.
  destruct co_flow0 as [|Hf]; [done|]. specialize (Hf service). rewrite Hk in Hf. exact Hf.
Qed.

Lemma buf_insert (b : gmap string (list wire_Event)) s s' (l : list wire_Event) : buf (<[s := l]> b) s' = if decide (s = s') then l else buf b s'.
Proof. rewrite lookup_insert. by destruct (decide (s = s')). Qed.

Lemma account_spec ref st s (s' := account cfg ref (link_story cfg (gm_Stories (g_manifest s)) ref st) s) :
  config_ready -> caller_inv s -> g_pc s = GPut st ->
  caller_inv s' /\ gm_Events (g_manifest s) < gm_Events (g_manifest s').
Proof.
  intros [] [] Hpc. rewrite Hpc in *. destruct co_pc0 as (Hsmall & Hlt & Hb). destruct co_flow0 as [|Hflow]; [done|].
  set (rng := g_rng s) in *. rewrite co_stories0 in Hb. destruct (event_stream_snoc sha256 cfg rng0 (g_refs s) ref rng st Hb) as [Hstream Hrng'].
  set (st1 := link_story cfg (gm_Stories (g_manifest s)) ref st).
  assert (length (g_made s) < limit)%nat as Hroom by lia.
  assert (g_made s = stream (g_refs s)) as Hall.
  { rewrite co_made0 in Hroom |- *. rewrite length_take in Hroom. apply take_ge. lia. }
  pose proof (length_buildStory sha256 cfg (Z.of_nat (length (g_refs s))) (stream_rng (g_refs s))) as Hlen.
  pose proof (buildStory_service sha256 cfg (Z.of_nat (length (g_refs s))) (stream_rng (g_refs s)) ltac:(lia)) as Hsvc.
  rewrite Hb in Hlen, Hsvc. cbn [snd] in Hlen, Hsvc. unfold story_size in Hlen.
  pose proof (Z.mod_pos_bound (Z.of_nat (length (g_refs s))) 4).
  assert (length (story_events st1) = length (story_events st)) as Hlen1 by apply link_story_length.
  assert (story_service st1 = story_service st) as Hsvc1 by apply link_story_service.
  subst s'. unfold account. fold st1. cbn [gm_Events gm_Stories set_field].
  rewrite (wrapu_id 64 (gc_Events cfg - _)) by (unfold in_u; lia).
  set (remaining := gc_Events cfg - gm_Events (g_manifest s)).
  set (events := if remaining <? _ then _ else _).
  assert (events = take (limit - length (g_made s)) (story_events st1)) as Hevents.
  { unfold events. destruct (Z.ltb_spec remaining (Z.of_nat (length (story_events st1)))) as [|Hge].
    - f_equal. unfold remaining. lia.
    - rewrite take_ge; [done|]. unfold remaining in *. lia. }
  clearbody events. assert (0 < length events)%nat as Hpos by (rewrite Hevents, length_take; lia).
  assert (length events <= limit - length (g_made s))%nat as Hfit by (rewrite Hevents, length_take; lia).
  assert (gm_Events (g_manifest s) + Z.of_nat (length events) <= gc_Events cfg) as Htotal by lia.
  unfold caller_inv. cbn [g_pc g_manifest g_rng g_buffers g_sent g_refs g_made set_field gm_Events].
  split; [|rewrite wrapu_id by (unfold in_u; lia); lia].
  assert (sent_flow : forall service, sent_of service (g_sent s) ++ buf (<[story_service st1 := buffer s (story_service st1) ++ events]> (g_buffers s)) service =
    made_of service (g_made s ++ (pair (story_service st1) <$> events))).
  { intros service. rewrite buf_insert, made_of_app, made_of_tagged, <- Hflow, <- app_assoc.
    destruct (decide (story_service st1 = service)) as [->|]; [done|]. by rewrite app_nil_r. }
  split; cbn [gm_Events gm_Stories gm_Batches set_field].
  - cbn. rewrite Hrng', Hsvc1. split; [|done]. intros service. rewrite buf_insert.
    destruct (decide (story_service st = service)) as [->|]; [by left|]. right. by apply small_all.
  - rewrite co_stories0, length_app, wrapu_id by (unfold in_u; lia). cbn. lia.
  - rewrite length_app, wrapu_id by (unfold in_u; lia). cbn. lia.
  - rewrite Hstream, <- Hall, take_app, (take_ge (g_made s)) by lia. f_equal. unfold tagged.
    rewrite <- fmap_take, Hevents. unfold st1. by rewrite co_stories0.
  - rewrite length_app, length_fmap, wrapu_id by (unfold in_u; lia). lia.
  - done.
  - right. intros service. apply sent_flow.
  - intros service. rewrite <- sent_flow. by apply prefix_app_r.
  - apply Forall_app. split; [done|]. apply Forall_fmap, Forall_forall. intros e _. cbn. by rewrite Hsvc1.
  - done.
Qed.
Lemma emit_envelope_ok service events e :
  emit_envelope service events = Some e -> en_Events e = events /\ md_Service (en_Metadata e) = service /\ events <> [].
Proof. destruct events; [done|]. by intros [= <-]. Qed.

(** The batch the caller is about to send. *)
Lemma emit_facts service events k m rng b refs :
  config_ready -> pc_ok (GEmit service events k) m rng b refs ->
  events <> [] /\ service ∈ services /\ Z.of_nat (length events) <= gc_BatchSize cfg /\
  buf b service = events ++ (match k with ThenFill => drop (Z.to_nat (gc_BatchSize cfg)) (buf b service) | _ => [] end).
Proof.
  intros []. destruct k as [|rest]; cbn.
  - intros (_ & Hs & _ & Hlen & ->). rewrite take_drop, length_take. repeat split; [|done|lia].
    intros H%(f_equal length). rewrite length_take in H. simpl in H. lia.
  - intros (Hsmall & _ & Hs & _ & -> & Hne). apply Forall_cons in Hs as [Hs _]. rewrite app_nil_r.
    apply (small_all _ service) in Hsmall. repeat split; [done|done|lia].
Qed.

Lemma send_ok service events k s s' :
  config_ready -> caller_inv s -> g_closed s = false -> g_pc s = GEmit service events k ->
  send_step cfg cap service events k s = Some s' -> caller_inv s'.
Proof.
  intros Hr [] Hcl Hpc. unfold send_step. rewrite Hpc in *.
  destruct (emit_facts _ _ _ _ _ _ _ Hr co_pc0) as (Hne & Hs & Hlen & Hbuf).
  destruct co_flow0 as [|Hflow]; [done|].
  destruct (emit_envelope service events) as [e|] eqn:He; [|by destruct events].
  pose proof (emit_envelope_ok _ _ _ He) as (Hev & Hsv & _). rewrite Hcl.
  destruct (Nat.ltb _ cap); [|done].
  assert (Forall batch_ok (g_sent s ++ [e])) as Hsent.
  { apply Forall_app. split; [done|]. apply Forall_cons_2; [|apply Forall_nil_2]. by exists service, events. }
  assert (u64 (gm_Batches (g_manifest s) + 1) = u64 (Z.of_nat (length (g_sent s ++ [e])))) as Hbatches.
  { rewrite co_batches0, wrapu_add_l, length_app. cbn. f_equal. lia. }
  (* what the new state must satisfy of its pending events *)
  assert (forall pc b', (forall x, pending (GEmit service events k) (g_buffers s) x =
            (if decide (service = x) then events else []) ++ pending pc b' x) ->
          forall x, sent_of x (g_sent s ++ [e]) ++ pending pc b' x = made_of x (g_made s)) as Hnext.
  { intros pc b' Hp x. rewrite sent_of_snoc, Hev, Hsv, <- app_assoc, <- Hp. apply Hflow. }
  destruct k as [|rest]; intros [= <-]; unfold caller_inv;
    cbn [g_pc g_manifest g_rng g_buffers g_sent g_refs g_made set_field gm_Stories gm_Events gm_Batches].
  - cbn in co_pc0. destruct co_pc0 as (Hsmall & _ & Hrng & Hge & Htake).
    assert (forall x, sent_of x (g_sent s ++ [e]) ++ pending (GFill service) (<[service:=drop (Z.to_nat (gc_BatchSize cfg)) (buf (g_buffers s) service)]> (g_buffers s)) x = made_of x (g_made s)) as Hfl.
    { apply Hnext. intros x. cbn [pending]. rewrite buf_insert. destruct (decide (service = x)) as [<-|]; [done|]. done. }
    split; try done.
    + cbn. split; [|done]. intros x. rewrite buf_insert. destruct (decide (service = x)) as [->|]; [by left|].
      destruct (Hsmall x) as [->|]; [done|]. by right.
    + by right.
    + intros x. rewrite <- Hfl. by apply prefix_app_r.
  - destruct co_pc0 as (Hsmall & Hnd & Hin & Hall & Hev' & _).
    assert (forall x, sent_of x (g_sent s ++ [e]) ++ pending (GRest rest) (g_buffers s) x = made_of x (g_made s)) as Hfl.
    { apply Hnext. intros x. cbn [pending]. apply NoDup_cons in Hnd as [Hnot _].
      destruct (decide (service = x)) as [<-|Hneq].
      - rewrite decide_True by (by left). rewrite decide_False by done. by rewrite app_nil_r.
      - cbn [app]. destruct (decide (x ∈ rest)) as [|Hn]; [rewrite decide_True by (by right); done|].
        rewrite decide_False; [done|]. by intros [->|]%elem_of_cons. }
    split; try done.
    + cbn. apply NoDup_cons in Hnd as [_ ?]. apply Forall_cons in Hin as [_ ?]. done.
    + by right.
    + intros x. rewrite <- Hfl. by apply prefix_app_r.
Qed.

(** A change of position only. *)
Lemma move_ok pc s :
  caller_inv s -> ~ aborted (g_pc s) -> pc_ok pc (g_manifest s) (g_rng s) (g_buffers s) (g_refs s) ->
  (forall x, pending pc (g_buffers s) x = pending (g_pc s) (g_buffers s) x) -> caller_inv (s <| g_pc := pc |>).
Proof.
  intros [] Hna Hpc Hp. split; try done. destruct co_flow0 as [|Hf]; [done|]. right. intros x.
  cbn [g_pc g_buffers g_sent g_made set_field]. rewrite Hp. apply Hf.
Qed.

Lemma services_NoDup : NoDup services.
Proof. apply (bool_decide_unpack _). vm_compute. exact I. Qed.

(** Nothing is buffered for a name that is no service. *)
Lemma buffered_service s x : caller_inv s -> g_pc s = GLoop -> x ∉ services -> buffer s x = [].
Proof.
  intros [] Hpc Hx. rewrite Hpc in *. destruct co_flow0 as [|Hf]; [done|]. specialize (Hf x). cbn [pending] in Hf.
  rewrite (made_of_none x services) in Hf by done. by apply app_eq_nil in Hf as [_ ?].
Qed.
Lemma main_ok s s' : config_ready -> caller_inv s -> main_step sha256 cfg s = Some s' -> caller_inv s'.
Proof.
  intros Hr Hinv. pose proof Hinv as []. unfold main_step.
  destruct (g_pc s) as [|st|service|service events k|rest|k|err|msg] eqn:Hpc; try done.
  - destruct co_pc0 as [Hsmall Hrng]. destruct (Z.ltb_spec (gm_Events (g_manifest s)) (gc_Events cfg)) as [Hlt|Hge].
    + destruct (g_ctx s) as [err|].
      { intros [= <-]. apply call_finish_ok; rewrite ?Hpc; [done|exact I|by left|tauto]. }
      destruct (buildStory sha256 cfg (gm_Stories (g_manifest s)) (g_rng s)) as [rng st] eqn:Hb. rewrite Hrng in Hb.
      set (s1 := s <| g_rng := rng |> <| g_pc := GPut st |>).
      assert (caller_inv s1) as H1 by (by split).
      destruct (wants_payload _ _); intros [= <-]; [exact H1|]. exact (proj1 (account_spec None st s1 Hr H1 eq_refl)).
    + intros [= <-]. apply move_ok; rewrite ?Hpc; [done|tauto| |].
      * split; [done|]. split; [apply services_NoDup|]. split; [by apply Forall_forall|].
        destruct Hr. rewrite co_events0, co_made0 in *. rewrite length_take in *. lia.
      * intros x. cbn [pending]. destruct (decide (x ∈ services)); [done|]. symmetry. by apply (buffered_service s).
  - destruct co_pc0 as (Hsmall & Hs & Hrng).
    destruct (Z.leb_spec (gc_BatchSize cfg) (Z.of_nat (length (buffer s service)))); intros [= <-];
      (apply move_ok; rewrite ?Hpc; [done|tauto| |done]).
    + done.
    + split; [|done]. intros x. right. by destruct (Hsmall x) as [->|].
  - destruct co_pc0 as (Hsmall & Hnd & Hin & Hall). destruct rest as [|service rest].
    + intros [= <-]. apply call_finish_ok; rewrite ?Hpc; [done|exact Hall| |tauto]. by right.
    + apply NoDup_cons in Hnd as [Hnot Hnd'].
      destruct (Nat.ltb_spec 0 (length (buffer s service))) as [Hpos|Hz]; intros [= <-];
        (apply move_ok; rewrite ?Hpc; [done|tauto| |]).
      * split; [done|]. split; [by apply NoDup_cons|]. do 2 (split; [done|]). split; [done|].
        intros Hn. rewrite Hn in Hpos. simpl in Hpos. lia.
      * done.
      * apply Forall_cons in Hin as [_ ?]. done.
      * intros x. cbn [pending]. destruct (decide (x ∈ rest)); [rewrite decide_True by (by right); done|].
        destruct (decide (x ∈ service :: rest)) as [Hx|]; [|done]. apply elem_of_cons in Hx as [->|]; [|done].
        symmetry. apply nil_length_inv. unfold buffer in Hz. lia.
Qed.

Lemma worker_frame a w i s s' : worker_step a w i s = Some s' -> caller_inv s -> caller_inv s'.
Proof.
  intros Hw Hinv. destruct a as [| | | | | i'|i'|i' [err|]|i'|i'|err], w; cbn in Hw; try done.
  - destruct (g_jobs s); [done|]. injection Hw as <-. exact Hinv.
  - destruct (g_closed s && _); [|done]. injection Hw as <-. exact Hinv.
  - injection Hw as <-. exact Hinv.
  - injection Hw as <-. exact Hinv.
  - destruct (g_errCh s); injection Hw as <-; exact Hinv.
  - injection Hw as <-. exact Hinv.
Qed.

(** Every action of the caller or its environment keeps its invariant; the actions
    of workers do not touch what it is about. *)
Lemma caller_step s s' :
  config_ready -> workers_inv s -> caller_inv s -> step sha256 cfg cap s s' -> caller_inv s'.
Proof.
  intros Hr [] Hinv [a Ha]. destruct a; cbn [gstep] in Ha.
  - by eapply main_ok.
  - destruct (g_pc s) eqn:Hpc; try done. destruct put as [ref|err|m].
    + destruct (attachPayload cfg _ (Ok ref) s0) as [st'|e|m] eqn:Hat; [|..].
      * injection Ha as <-. replace st' with (link_story cfg (gm_Stories (g_manifest s)) (Some ref) s0);
          [by apply account_spec|]. cbn [link_story]. by rewrite Hat.
      * injection Ha as <-. apply call_finish_ok; rewrite ?Hpc; [done|exact I|by left|tauto].
      * done.
    + unfold attachPayload in Ha. destruct (demoPayload _ _). injection Ha as <-.
      apply call_finish_ok; rewrite ?Hpc; [done|exact I|by left|tauto].
    + unfold attachPayload in Ha. by destruct (demoPayload _ _).
  - destruct (g_pc s) eqn:Hpc; try done. eapply send_ok; try done.
    destruct (g_closed s); [|done]. by destruct (proj1 wo_closed0 eq_refl).
  - destruct (g_pc s) eqn:Hpc; try done. destruct (g_ctx s); [|done]. injection Ha as <-.
    apply call_finish_ok; rewrite ?Hpc; [done|exact I|by left|tauto].
  - destruct (g_pc s) eqn:Hpc; try done. destruct (forallb _ _); [|done]. injection Ha as <-.
    destruct Hinv. rewrite Hpc in *.
    split; cbn [g_pc g_manifest g_rng g_buffers g_sent g_refs g_made set_field finished end_ctx]; try done.
    + destruct k as [|[err|]|err]; cbn in *; [by destruct (g_errCh s)|by destruct (g_errCh s)|done|done].
    + destruct k as [|[err|]|err]; [|left; cbn; by destruct (g_errCh s)|done|by left].
      destruct (g_errCh s); [by left|]. destruct co_flow0 as [[]|Hf]. right. exact Hf.
  - destruct (g_workers s !! i); [|done]. exact (worker_frame _ _ _ _ _ Ha Hinv).
  - destruct (g_workers s !! i); [|done]. exact (worker_frame _ _ _ _ _ Ha Hinv).
  - destruct (g_workers s !! i); [|done]. exact (worker_frame _ _ _ _ _ Ha Hinv).
  - destruct (g_workers s !! i); [|done]. exact (worker_frame _ _ _ _ _ Ha Hinv).
  - destruct (g_workers s !! i); [|done]. exact (worker_frame _ _ _ _ _ Ha Hinv).
  - destruct (g_ctx s); [done|]. injection Ha as <-. exact Hinv.
Qed.

(** *** The workers *)

Lemma set_worker_done (workers : list worker) i w w' :
  workers !! i = Some w -> (w' = WDone -> False) ->
  forall j, <[i := w']> workers !! j = Some WDone -> workers !! j = Some WDone.
Proof.
  intros Hi Hw j. destruct (decide (i = j)) as [<-|].
  - rewrite list_lookup_insert_eq by (by eapply lookup_lt_Some). intros [= ->]. by destruct Hw.
  - by rewrite list_lookup_insert_ne.
Qed.

(** A worker other than [i] keeps its state, and so does [i] when it is not in the
    state looked for. *)
Lemma set_worker_other (workers : list worker) i w w' j x :
  workers !! i = Some w -> w <> x -> workers !! j = Some x -> <[i := w']> workers !! j = Some x.
Proof. intros Hi Hw Hj. rewrite list_lookup_insert_ne; [done|]. intros <-. congruence. Qed.

Lemma failing_kept (workers : list worker) i w w' :
  workers !! i = Some w -> (forall err, w <> WFail err) ->
  (exists j err, workers !! j = Some (WFail err)) -> exists j err, <[i := w']> workers !! j = Some (WFail err).
Proof. intros Hi Hw (j & err & Hj). exists j, err. by eapply set_worker_other. Qed.

Lemma cancelling_kept (workers : list worker) i w w' :
  workers !! i = Some w -> w <> WCancel ->
  (exists j, workers !! j = Some WCancel) -> exists j, <[i := w']> workers !! j = Some WCancel.
Proof. intros Hi Hw (j & Hj). exists j. by eapply set_worker_other. Qed.

Lemma trouble_kept (workers : list worker) i w w' (P : Prop) :
  workers !! i = Some w -> (troubled w' = true -> P) ->
  (forall j x, workers !! j = Some x -> troubled x = true -> P) ->
  forall j x, <[i := w']> workers !! j = Some x -> troubled x = true -> P.
Proof.
  intros Hi Hw' Hall j x. destruct (decide (i = j)) as [<-|].
  - rewrite list_lookup_insert_eq by (by eapply lookup_lt_Some). intros [= <-]. done.
  - rewrite list_lookup_insert_ne by done. apply Hall.
Qed.

Lemma worker_perm (workers : list worker) i w w' (sent jobs jobs' published published' failed failed' : list Envelope) :
  workers !! i = Some w -> sent ≡ₚ jobs ++ in_flight workers ++ published ++ failed ->
  jobs ++ carries w ++ published ++ failed ≡ₚ jobs' ++ carries w' ++ published' ++ failed' ->
  sent ≡ₚ jobs' ++ in_flight (<[i := w']> workers) ++ published' ++ failed'.
Proof.
  intros Hi -> H. destruct (in_flight_insert workers i w w' Hi) as (rest & -> & ->).
  transitivity (rest ++ (jobs ++ carries w ++ published ++ failed)); [solve_Permutation|].
  rewrite H. solve_Permutation.
Qed.

(** What remains to be shown of an action that takes worker [i] from [w] to [w']. *)
Lemma worker_frame_ok s i w w' jobs' published' failed' errCh' ctx' :
  g_workers s !! i = Some w -> w <> WDone -> workers_inv s ->
  g_jobs s ++ carries w ++ g_published s ++ g_failed s ≡ₚ jobs' ++ carries w' ++ published' ++ failed' ->
  (failed' = [] \/ is_Some errCh' \/ exists j err, <[i := w']> (g_workers s) !! j = Some (WFail err)) ->
  (failed' = [] -> forall j, <[i := w']> (g_workers s) !! j = Some WDone -> g_closed s = true /\ jobs' = []) ->
  (is_Some errCh' -> is_Some ctx' \/ exists j, <[i := w']> (g_workers s) !! j = Some WCancel) ->
  (forall j x, <[i := w']> (g_workers s) !! j = Some x -> troubled x = true -> failed' <> []) ->
  workers_ok (g_pc s) jobs' (g_closed s) errCh' ctx' (<[i := w']> (g_workers s)) (g_sent s) published' failed'.
Proof.
  intros Hi Hne [] Hperm Hf Hd Hc Ht.
  assert (match g_pc s with GDone _ => False | _ => True end) as Hlive.
  { destruct (g_pc s); try done. destruct Hne. apply (proj1 (Forall_forall _ _) wo_quiet0). by eapply list_elem_of_lookup_2. }
  split; try done.
  - by eapply worker_perm.
  - destruct Hf as [?|[?|?]]; [by left|by right; left|by right; right; left].
  - by rewrite length_insert.
  - by destruct (g_pc s).
  - intros Hpc. by rewrite Hpc in Hlive.
Qed.

(** The failure is still being reported or has been. *)
Lemma failed_kept s i w w' :
  workers_inv s -> g_workers s !! i = Some w -> w <> WDone -> (forall err, w <> WFail err) ->
  g_failed s = [] \/ is_Some (g_errCh s) \/ exists j err, <[i := w']> (g_workers s) !! j = Some (WFail err).
Proof.
  intros [] Hi Hne Hw. destruct wo_failed0 as [?|[?|[H|H]]]; [by left|by right; left|right; right; by eapply failing_kept|].
  destruct (g_pc s); try done. destruct Hne. apply (proj1 (Forall_forall _ _) wo_quiet0). by eapply list_elem_of_lookup_2.
Qed.

Lemma ctx_kept s i w w' :
  workers_inv s -> g_workers s !! i = Some w -> w <> WCancel ->
  is_Some (g_errCh s) -> is_Some (g_ctx s) \/ exists j, <[i := w']> (g_workers s) !! j = Some WCancel.
Proof. intros [] Hi Hw [H|H]%wo_ctx0; [by left|]. right. by eapply cancelling_kept. Qed.

Lemma worker_inv a w i s s' :
  g_workers s !! i = Some w -> worker_step a w i s = Some s' -> workers_inv s -> workers_inv s'.
Proof.
  intros Hi Hw Hinv. pose proof Hinv as [].
  destruct a as [| | | | | i'|i'|i' [err|]|i'|i'|err], w as [|e|err'| |]; cbn in Hw; try done.
  - destruct (g_jobs s) as [|e jobs] eqn:Hj; [done|]. injection Hw as <-.
    unfold workers_inv; gproj; eapply (worker_frame_ok s); try done.
    + rewrite Hj. cbn. solve_Permutation.
    + by eapply failed_kept.
    + intros Hf j Hd. eapply set_worker_done in Hd; [|done|done]. by destruct (wo_done0 Hf j Hd).
    + by eapply ctx_kept.
    + by eapply trouble_kept.
  - destruct (g_closed s) eqn:Hcl; [|done]. destruct (Nat.eqb_spec (length (g_jobs s)) 0) as [Hj%nil_length_inv|]; [|done].
    injection Hw as <-. unfold workers_inv; gproj; eapply (worker_frame_ok s); try done.
    + by eapply failed_kept.
    + by eapply ctx_kept.
    + by eapply trouble_kept.
  - injection Hw as <-. unfold workers_inv; gproj; eapply (worker_frame_ok s); try done.
    + cbn. solve_Permutation.
    + right. right. exists i, err. by rewrite list_lookup_insert_eq by (by eapply lookup_lt_Some).
    + by destruct (g_failed s).
    + by eapply ctx_kept.
    + by destruct (g_failed s).
  - injection Hw as <-. unfold workers_inv; gproj; eapply (worker_frame_ok s); try done.
    + cbn. solve_Permutation.
    + by eapply failed_kept.
    + intros Hf j Hd. eapply set_worker_done in Hd; [|done|done]. by destruct (wo_done0 Hf j Hd).
    + by eapply ctx_kept.
    + by eapply trouble_kept.
  - assert (g_failed s <> []) as Hf by (by eapply wo_trouble0).
    destruct (g_errCh s) as [first|] eqn:He; injection Hw as <-; unfold workers_inv; gproj; eapply (worker_frame_ok s); try done.
    + rewrite He. right. by left.
    + rewrite He. intros _. rewrite <- He in *. by eapply ctx_kept; rewrite ?He.
    + right. left. done.
    + intros _. right. exists i. by rewrite list_lookup_insert_eq by (by eapply lookup_lt_Some).
  - assert (g_failed s <> []) as Hf by (by eapply wo_trouble0). injection Hw as <-. unfold workers_inv; gproj; eapply (worker_frame_ok s); try done.
    + by eapply failed_kept.
    + intros _. left. by eexists.
Qed.
Definition running (pc : gpc) : Prop := match pc with GFinish _ | GDone _ => False | _ => True end.

Lemma workers_move pc pc' jobs closed errCh ctx workers sent published failed :
  workers_ok pc jobs closed errCh ctx workers sent published failed -> running pc -> running pc' ->
  workers_ok pc' jobs closed errCh ctx workers sent published failed.
Proof.
  intros [] Hr Hr'. assert (closed = false) as -> by (destruct closed; [|done]; destruct pc; try done; by destruct (proj1 wo_closed0 eq_refl)).
  split; try done.
  - split; [done|]. by destruct pc'.
  - destruct wo_failed0 as [?|[?|[?|?]]]; [by left|by right; left|by right; right; left|by destruct pc].
  - by destruct pc'.
  - by intros ->.
Qed.

Lemma workers_close k pc jobs closed errCh ctx workers sent published failed :
  workers_ok pc jobs closed errCh ctx workers sent published failed -> running pc ->
  workers_ok (GFinish k) jobs true errCh ctx workers sent published failed.
Proof.
  intros [] Hr. assert (closed = false) as -> by (destruct closed; [|done]; destruct pc; try done; by destruct (proj1 wo_closed0 eq_refl)).
  split; try done.
  - destruct wo_failed0 as [?|[?|[?|?]]]; [by left|by right; left|by right; right; left|by destruct pc].
  - intros Hf j Hd. by destruct (wo_done0 Hf j Hd).
Qed.

Lemma workers_send e pc pc' jobs closed errCh ctx workers sent published failed :
  workers_ok pc jobs closed errCh ctx workers sent published failed -> running pc -> running pc' ->
  workers_ok pc' (jobs ++ [e]) closed errCh ctx workers (sent ++ [e]) published failed.
Proof.
  intros H Hr Hr'. apply (workers_move _ pc') in H as []; try done.
  assert (closed = false) as -> by (destruct closed; [|done]; destruct pc'; try done; by destruct (proj1 wo_closed0 eq_refl)).
  split; try done.
  - rewrite wo_perm0. solve_Permutation.
  - intros Hf j Hd. by destruct (wo_done0 Hf j Hd).
  - by intros ->.
Qed.

Lemma main_workers s s' : workers_inv s -> main_step sha256 cfg s = Some s' -> workers_inv s'.
Proof.
  intros Hinv. unfold main_step. destruct (g_pc s) as [|st|service|service events k|rest|k|err|msg] eqn:Hpc; try done;
    assert (running (g_pc s)) as Hrun by (by rewrite Hpc).
  - destruct (_ <? _); [|intros [= <-]; by eapply workers_move].
    destruct (g_ctx s) as [err|] eqn:Hctx.
    + intros [= <-]. rewrite <- Hctx in *. by eapply workers_close.
    + destruct (buildStory _ _ _ _). destruct (wants_payload _ _); intros [= <-]; by eapply workers_move.
  - destruct (_ <=? _); intros [= <-]; by eapply workers_move.
  - destruct rest as [|service rest]; [intros [= <-]; by eapply workers_close|].
    destruct (Nat.ltb _ _); intros [= <-]; by eapply workers_move.
Qed.

Lemma finished_workers k s :
  workers_inv s -> forallb is_done (g_workers s) = true -> g_pc s = GFinish k -> workers_inv (finished k s).
Proof.
  intros [] Hall Hpc. assert (Forall (fun w => w = WDone) (g_workers s)) as Hdone.
  { apply Forall_forall. intros w Hw%list_elem_of_In. eapply forallb_forall in Hw; [|exact Hall]. by destruct w. }
  assert (forall i w, g_workers s !! i = Some w -> w = WDone) as Hlook.
  { intros i w Hi. apply (proj1 (Forall_forall _ _) Hdone). by eapply list_elem_of_lookup_2. }
  assert (g_errCh s = None -> g_failed s = [] /\ g_jobs s = []) as Hnone.
  { intros He. rewrite Hpc, He in *. assert (g_failed s = []) as Hf.
    { destruct wo_failed0 as [?|[[? ?]|[(i & err & Hi)|?]]]; [done|done|by apply Hlook in Hi|done]. }
    split; [done|]. destruct (lookup_lt_is_Some_2 _ _ wo_some0) as [w Hw]. pose proof (Hlook _ _ Hw) as ->.
    by eapply wo_done0. }
  unfold workers_inv, finished. gproj. rewrite Hpc in *. split; try done.
  - by do 3 right.
  - destruct k as [|err|err]; [intros [= H]; by apply Hnone| |done].
    destruct (g_errCh s); [done|]. intros _. by apply Hnone.
Qed.

Lemma workers_step s s' : workers_inv s -> step sha256 cfg cap s s' -> workers_inv s'.
Proof.
  intros Hinv [a Ha]. destruct a; cbn [gstep] in Ha.
  - by eapply main_workers.
  - destruct (g_pc s) eqn:Hpc; try done. assert (running (g_pc s)) as Hrun by (by rewrite Hpc).
    destruct (attachPayload _ _ _ _); [|..|done]; injection Ha as <-; [by eapply workers_move|by eapply workers_close].
  - destruct (g_pc s) eqn:Hpc; try done. assert (running (g_pc s)) as Hrun by (by rewrite Hpc). unfold send_step in Ha.
    destruct (emit_envelope _ _); [|injection Ha as <-; by eapply workers_move].
    destruct (g_closed s) eqn:Hcl; [injection Ha as <-; rewrite <- Hcl; by eapply workers_move|].
    destruct (Nat.ltb _ _); [|done]. destruct k; injection Ha as <-; by eapply workers_send.
  - destruct (g_pc s) eqn:Hpc; try done. assert (running (g_pc s)) as Hrun by (by rewrite Hpc).
    destruct (g_ctx s) eqn:Hctx; [|done]. injection Ha as <-. by eapply workers_close.
  - destruct (g_pc s) eqn:Hpc; try done. destruct (forallb _ _) eqn:Hall; [|done]. injection Ha as <-.
    by apply finished_workers.
  - destruct (g_workers s !! i) eqn:Hi; [|done]. exact (worker_inv _ _ _ _ _ Hi Ha Hinv).
  - destruct (g_workers s !! i) eqn:Hi; [|done]. exact (worker_inv _ _ _ _ _ Hi Ha Hinv).
  - destruct (g_workers s !! i) eqn:Hi; [|done]. exact (worker_inv _ _ _ _ _ Hi Ha Hinv).
  - destruct (g_workers s !! i) eqn:Hi; [|done]. exact (worker_inv _ _ _ _ _ Hi Ha Hinv).
  - destruct (g_workers s !! i) eqn:Hi; [|done]. exact (worker_inv _ _ _ _ _ Hi Ha Hinv).
  - destruct (g_ctx s) eqn:Hctx; [done|]. injection Ha as <-. destruct Hinv. split; try done.
    intros _. left. by eexists.
Qed.
(** *** Progress and termination *)

Lemma worker_acts s i w :
  g_workers s !! i = Some w -> w <> WDone -> g_closed s = true \/ g_jobs s <> [] ->
  exists a s', own_action a = true /\ gstep sha256 cfg cap a s = Some s'.
Proof.
  intros Hi Hne Hc. destruct w as [|e|err| |]; try done.
  - destruct (g_jobs s) as [|e jobs] eqn:Hj.
    + destruct Hc as [Hc|]; [|done]. exists (AExit i). cbn. rewrite Hi. cbn. rewrite Hc, Hj. cbn. eauto.
    + exists (ATake i). cbn. rewrite Hi. cbn. rewrite Hj. eauto.
  - exists (APublish i None). cbn. rewrite Hi. cbn. eauto.
  - exists (AReport i). cbn. rewrite Hi. cbn. destruct (g_errCh s); eauto.
  - exists (ACancel i). cbn. rewrite Hi. cbn. eauto.
Qed.

Lemma not_all_done (workers : list worker) :
  forallb is_done workers = false -> exists i w, workers !! i = Some w /\ w <> WDone.
Proof.
  induction workers as [|w workers IH]; [done|]. cbn. destruct (is_done w) eqn:Hw; cbn.
  - intros (i & x & Hi & Hx)%IH. by exists (S i), x.
  - intros _. exists 0%nat, w. split; [done|]. by intros ->.
Qed.

Lemma progress s :
  config_ready -> caller_inv s -> workers_inv s -> (forall err, g_pc s <> GDone err) ->
  exists a s', own_action a = true /\ gstep sha256 cfg cap a s = Some s'.
Proof.
  intros Hr [] [] Hnd. destruct (g_pc s) as [|st|service|service events k|rest|k|err|msg] eqn:Hpc.
  - exists AMain. cbn. unfold main_step. rewrite Hpc. destruct (_ <? _); [|eauto]. destruct (g_ctx s); [eauto|].
    destruct (buildStory _ _ _ _). destruct (wants_payload _ _); eauto.
  - exists (APut (Fail context_Canceled)). cbn. rewrite Hpc. unfold attachPayload. destruct (demoPayload _ _). cbn. eauto.
  - exists AMain. cbn. unfold main_step. rewrite Hpc. destruct (_ <=? _); eauto.
  - destruct (emit_facts _ _ _ _ _ _ _ Hr co_pc0) as (Hne & _). destruct Hr.
    destruct (Nat.ltb_spec (length (g_jobs s)) cap) as [Hlt|Hge].
    + exists ASend. cbn [gstep]. rewrite Hpc. unfold send_step. destruct events as [|e events]; [done|]. cbn [emit_envelope].
      destruct (g_closed s); [eauto|]. apply Nat.ltb_lt in Hlt. rewrite Hlt. destruct k; eauto.
    + assert (g_jobs s <> []) as Hjobs by (intros H; rewrite H in Hge; simpl in Hge; lia).
      destruct (forallb is_done (g_workers s)) eqn:Hall.
      * assert (forall i w, g_workers s !! i = Some w -> w = WDone) as Hlook.
        { intros i w Hi. eapply forallb_forall in Hall; [|apply list_elem_of_In; by eapply list_elem_of_lookup_2]. by destruct w. }
        destruct (lookup_lt_is_Some_2 _ _ wo_some0) as [w Hw]. pose proof (Hlook _ _ Hw) as ->.
        assert (is_Some (g_ctx s)) as [err Hctx].
        { destruct wo_failed0 as [Hf|[He|[(i & err & Hi)|?]]]; [by destruct (wo_done0 Hf _ Hw)| |by apply Hlook in Hi|done].
          destruct (wo_ctx0 He) as [|[i Hi]]; [done|]. by apply Hlook in Hi. }
        exists AGiveUp. cbn. rewrite Hpc, Hctx. eauto.
      * destruct (not_all_done _ Hall) as (i & w & Hi & Hne'). eapply worker_acts; eauto.
  - exists AMain. cbn. unfold main_step. rewrite Hpc. destruct rest; [eauto|]. destruct (Nat.ltb _ _); eauto.
  - destruct (forallb is_done (g_workers s)) eqn:Hall.
    + exists AFinished. cbn. rewrite Hpc, Hall. eauto.
    + destruct (not_all_done _ Hall) as (i & w & Hi & Hne'). eapply worker_acts; [done|done|]. left. by apply wo_closed0.
  - by destruct (Hnd err).
  - done.
Qed.
(** The number of events sent. *)
Definition sent_events (l : list Envelope) : Z := sumZ (fun e => Z.of_nat (length (en_Events e))) l.

Lemma batch_ok_service e : batch_ok e -> md_Service (en_Metadata e) ∈ services.
Proof. intros (service & events & Hs & _ & He). by apply emit_envelope_ok in He as (_ & -> & _). Qed.

Lemma sent_bound s : caller_inv s -> 0 <= sent_events (g_sent s) <= gm_Events (g_manifest s).
Proof.
  intros []. split; [apply sumZ_nonneg; lia|]. unfold sent_events. rewrite co_events0.
  rewrite <- (sent_total services), <- (made_total services) by
    (done || apply services_NoDup || (eapply Forall_impl; [exact co_sent0|apply batch_ok_service])).
  apply sumZ_le. intros x _. apply Nat2Z.inj_le, prefix_length, co_prefix0.
Qed.

Definition pc_weight (pc : gpc) : Z :=
  match pc with
  | GLoop => 20
  | GPut _ => 19
  | GFill _ => 21
  | GEmit _ _ ThenFill => 20
  | GEmit _ _ (ThenRest rest) => 2 * Z.of_nat (length rest) + 4
  | GRest rest => 2 * Z.of_nat (length rest) + 3
  | GFinish _ => 2
  | GDone _ | GPanic _ => 0
  end.

Definition worker_weight (w : worker) : Z :=
  match w with WIdle => 1 | WPublish _ => 4 | WFail _ => 3 | WCancel => 2 | WDone => 0 end.

(** The work left: it falls with every action. *)
Definition work (s : gstate R) : Z :=
  9 * gc_Events cfg - 3 * gm_Events (g_manifest s) - 6 * sent_events (g_sent s) + pc_weight (g_pc s) +
  4 * Z.of_nat (length (g_jobs s)) + sumZ worker_weight (g_workers s) + (match g_ctx s with Some _ => 0 | None => 1 end).

Lemma events_bound s : config_ready -> caller_inv s -> gm_Events (g_manifest s) <= gc_Events cfg.
Proof. intros [] []. rewrite co_events0, co_made0, length_take. lia. Qed.

Lemma gwork_nonneg s : config_ready -> caller_inv s -> 0 <= work s.
Proof.
  intros Hr Hinv. pose proof (sent_bound s Hinv). pose proof (events_bound s Hr Hinv). unfold work.
  assert (0 <= sumZ worker_weight (g_workers s)) by (apply sumZ_nonneg; intros [] _; cbn; lia).
  assert (0 <= pc_weight (g_pc s)) by (destruct (g_pc s) as [| | |? ? []| | | |]; cbn; lia).
  destruct (g_ctx s); lia.
Qed.

Lemma account_work ref st s :
  config_ready -> caller_inv s -> g_pc s = GPut st ->
  work (account cfg ref (link_story cfg (gm_Stories (g_manifest s)) ref st) s) < work s.
Proof.
  intros Hr Hinv Hpc. destruct (account_spec ref st s Hr Hinv Hpc) as [_ Hlt]. revert Hlt.
  unfold work. rewrite Hpc. generalize (link_story cfg (gm_Stories (g_manifest s)) ref st). intros st' Hlt.
  change (g_sent (account cfg ref st' s)) with (g_sent s). change (g_jobs (account cfg ref st' s)) with (g_jobs s).
  change (g_workers (account cfg ref st' s)) with (g_workers s). change (g_ctx (account cfg ref st' s)) with (g_ctx s).
  change (g_pc (account cfg ref st' s)) with (GFill (story_service st')). cbn [pc_weight]. lia.
Qed.

Lemma main_work s s' : config_ready -> caller_inv s -> main_step sha256 cfg s = Some s' -> work s' < work s.
Proof.
  intros Hr Hinv. pose proof Hinv as []. unfold main_step.
  destruct (g_pc s) as [|st|service|service events k|rest|k|err|msg] eqn:Hpc; try done.
  - destruct co_pc0 as [Hsmall Hrng]. destruct (Z.ltb_spec (gm_Events (g_manifest s)) (gc_Events cfg)) as [Hlt|Hge].
    + destruct (g_ctx s) as [err|] eqn:Hctx.
      { intros [= <-]. unfold work. gproj. rewrite Hpc, Hctx. cbn [pc_weight]. lia. }
      destruct (buildStory sha256 cfg (gm_Stories (g_manifest s)) (g_rng s)) as [rng st] eqn:Hb. rewrite Hrng in Hb.
      set (s1 := s <| g_rng := rng |> <| g_pc := GPut st |>).
      assert (caller_inv s1) as H1 by (by split).
      assert (work s1 < work s) as Hw by (unfold work, s1; gproj; rewrite Hpc; cbn [pc_weight]; lia).
      destruct (wants_payload _ _); intros [= <-]; [exact Hw|].
      pose proof (account_work None st s1 Hr H1 eq_refl) as Ha. etransitivity; [exact Ha|exact Hw].
    + intros [= <-]. unfold work. gproj. rewrite Hpc. cbn [pc_weight services length]. lia.
  - destruct (_ <=? _); intros [= <-]; unfold work; gproj; rewrite Hpc; cbn [pc_weight]; lia.
  - destruct rest as [|service rest]; [|destruct (Nat.ltb _ _)]; intros [= <-]; unfold work; gproj; rewrite Hpc;
      cbn [pc_weight length]; lia.
Qed.

Lemma worker_work a w i s s' : g_workers s !! i = Some w -> worker_step a w i s = Some s' -> work s' < work s.
Proof.
  intros Hi Hw. destruct a as [| | | | | i'|i'|i' [err|]|i'|i'|err], w as [|e|err'| |]; cbn in Hw; try done.
  - destruct (g_jobs s) as [|e jobs] eqn:Hj; [done|]. injection Hw as <-. unfold work. gproj.
    rewrite (sumZ_insert _ _ _ _ _ Hi), Hj. cbn [worker_weight length]. lia.
  - destruct (g_closed s && _); [|done]. injection Hw as <-. unfold work. gproj.
    rewrite (sumZ_insert _ _ _ _ _ Hi). cbn [worker_weight]. lia.
  - injection Hw as <-. unfold work. gproj. rewrite (sumZ_insert _ _ _ _ _ Hi). cbn [worker_weight]. lia.
  - injection Hw as <-. unfold work. gproj. rewrite (sumZ_insert _ _ _ _ _ Hi). cbn [worker_weight]. lia.
  - destruct (g_errCh s); injection Hw as <-; unfold work; gproj; rewrite (sumZ_insert _ _ _ _ _ Hi); cbn [worker_weight]; lia.
  - injection Hw as <-. unfold work. gproj. rewrite (sumZ_insert _ _ _ _ _ Hi). cbn [worker_weight].
    destruct (g_ctx s); lia.
Qed.

Lemma send_work service events k s s' :
  config_ready -> caller_inv s -> g_closed s = false -> g_pc s = GEmit service events k ->
  send_step cfg cap service events k s = Some s' -> work s' < work s.
Proof.
  intros Hr [] Hcl Hpc. unfold send_step. rewrite Hpc in co_pc0.
  destruct (emit_facts _ _ _ _ _ _ _ Hr co_pc0) as (Hne & _).
  destruct events as [|e events]; [done|]. cbn [emit_envelope]. rewrite Hcl. destruct (Nat.ltb _ cap); [|done].
  destruct k as [|rest]; intros [= <-]; unfold work, sent_events; gproj; rewrite Hpc, sumZ_app, length_app;
    cbn [sumZ fold_right en_Events length pc_weight gm_Events set_field]; lia.
Qed.

(** Every action brings [Generate] nearer to its return. *)
Lemma step_work s s' :
  config_ready -> caller_inv s -> workers_inv s -> step sha256 cfg cap s s' -> work s' < work s.
Proof.
  intros Hr Hinv [] [a Ha]. destruct a; cbn [gstep] in Ha.
  - by eapply main_work.
  - destruct (g_pc s) as [|st| | | | | |] eqn:Hpc; try done.
    assert (forall k, work (call_finish k s) < work s) as Hfin
      by (intros k; unfold work; gproj; rewrite Hpc; cbn [pc_weight]; lia).
    destruct put as [ref|err|m].
    + destruct (attachPayload cfg _ (Ok ref) st) as [st'|e|m] eqn:Hat; [|injection Ha as <-; apply Hfin|done].
      injection Ha as <-. replace st' with (link_story cfg (gm_Stories (g_manifest s)) (Some ref) st);
        [by apply account_work|]. cbn [link_story]. by rewrite Hat.
    + unfold attachPayload in Ha. destruct (demoPayload _ _). injection Ha as <-. apply Hfin.
    + unfold attachPayload in Ha. by destruct (demoPayload _ _).
  - destruct (g_pc s) eqn:Hpc; try done. eapply send_work; try done.
    destruct (g_closed s); [|done]. by destruct (proj1 wo_closed0 eq_refl).
  - destruct (g_pc s) as [| | |? ? []| | | |] eqn:Hpc; try done; (destruct (g_ctx s); [|done]); injection Ha as <-;
      unfold work; gproj; rewrite Hpc; cbn [pc_weight]; lia.
  - destruct (g_pc s) eqn:Hpc; try done. destruct (forallb _ _); [|done]. injection Ha as <-.
    unfold work, finished. gproj. rewrite Hpc. cbn [pc_weight]. destruct (g_ctx s); lia.
  - destruct (g_workers s !! i) eqn:Hi; [|done]. exact (worker_work _ _ _ _ _ Hi Ha).
  - destruct (g_workers s !! i) eqn:Hi; [|done]. exact (worker_work _ _ _ _ _ Hi Ha).
  - destruct (g_workers s !! i) eqn:Hi; [|done]. exact (worker_work _ _ _ _ _ Hi Ha).
  - destruct (g_workers s !! i) eqn:Hi; [|done]. exact (worker_work _ _ _ _ _ Hi Ha).
  - destruct (g_workers s !! i) eqn:Hi; [|done]. exact (worker_work _ _ _ _ _ Hi Ha).
  - destruct (g_ctx s) eqn:Hctx; [done|]. injection Ha as <-. unfold work. gproj. rewrite Hctx. cbn. lia.
Qed.

(** *** Runs *)

Lemma run_inv actions s s' :
  config_ready -> caller_inv s -> workers_inv s -> grun sha256 cfg cap actions s = Some s' ->
  caller_inv s' /\ workers_inv s' /\ work s' + Z.of_nat (length actions) <= work s.
Proof.
  intros Hr. revert s. induction actions as [|a actions IH]; intros s Hc Hw; cbn [grun].
  - intros [= <-]. cbn [length]. split; [done|]. split; [done|]. lia.
  - destruct (gstep sha256 cfg cap a s) as [s1|] eqn:Ha; [|done]. cbn [mbind option_bind]. intros Hrun.
    assert (step sha256 cfg cap s s1) as Hstep by (by exists a).
    pose proof (step_work s s1 Hr Hc Hw Hstep).
    destruct (IH s1 (caller_step s s1 Hr Hw Hc Hstep) (workers_step s s1 Hw Hstep) Hrun) as (H1 & H2 & H3).
    cbn [length]. split; [done|]. split; [done|]. lia.
Qed.
(** *** Payload references *)

(** A story has a reference exactly when it asked for one. *)
Definition refs_ok (pc : gpc) (m : generator_Manifest) (refs : list (option Ref)) : Prop :=
  (forall i ref, refs !! i = Some ref -> (is_Some ref <-> wants_payload cfg (Z.of_nat i) = true)) /\
  match pc with GPut _ => wants_payload cfg (gm_Stories m) = true | _ => True end.

Definition refs_inv (s : gstate R) : Prop := refs_ok (g_pc s) (g_manifest s) (g_refs s).

Lemma refs_snoc (ref : option Ref) (refs : list (option Ref)) index :
  (forall i r, refs !! i = Some r -> (is_Some r <-> wants_payload cfg (Z.of_nat i) = true)) ->
  index = Z.of_nat (length refs) -> (is_Some ref <-> wants_payload cfg index = true) ->
  forall i r, (refs ++ [ref]) !! i = Some r -> (is_Some r <-> wants_payload cfg (Z.of_nat i) = true).
Proof.
  intros Hall -> Href i r. rewrite lookup_app. destruct (refs !! i) as [x|] eqn:Hi; [intros [= <-]; by apply Hall|].
  intros Hr. apply list_lookup_singleton_Some in Hr as [Hi0 <-]. apply lookup_ge_None in Hi.
  by replace i with (length refs) by lia.
Qed.

Lemma refs_step s s' : caller_inv s -> refs_inv s -> step sha256 cfg cap s s' -> refs_inv s'.
Proof.
  intros [] [Hrefs Hput] [a Ha]. destruct a; cbn [gstep] in Ha.
  - unfold main_step in Ha. destruct (g_pc s) as [|st|service|service events k|[|service rest]|k|err|msg]; try done.
    + destruct (_ <? _); [|by injection Ha as <-]. destruct (g_ctx s); [by injection Ha as <-|].
      destruct (buildStory _ _ _ _) as [rng st]. destruct (wants_payload cfg _) eqn:Hw; injection Ha as <-; [done|].
      split; [|done]. eapply refs_snoc; [done|exact co_stories0|]. cbn in Hw. rewrite Hw. split; [by intros []|done].
    + by destruct (_ <=? _); injection Ha as <-.
    + by injection Ha as <-.
    + by destruct (Nat.ltb _ _); injection Ha as <-.
  - destruct (g_pc s) as [|st| | | | | |]; try done.
    destruct (attachPayload cfg _ put st) as [st'|e|m] eqn:Hat; [|by injection Ha as <-|done].
    unfold attachPayload in Hat. destruct (demoPayload _ _). destruct put as [ref|e|m]; [|done|done].
    injection Ha as <-. split; [|done]. eapply refs_snoc; [done|exact co_stories0|]. by rewrite Hput.
  - destruct (g_pc s); try done. unfold send_step in Ha. destruct (emit_envelope _ _); [|by injection Ha as <-].
    destruct (g_closed s); [by injection Ha as <-|]. destruct (Nat.ltb _ _); [|done].
    by destruct k; injection Ha as <-.
  - destruct (g_pc s), (g_ctx s); try done. by injection Ha as <-.
  - destruct (g_pc s); try done. destruct (forallb _ _); [|done]. by injection Ha as <-.
  - destruct (g_workers s !! i) as [[]|]; try done. cbn in Ha. destruct (g_jobs s); [done|]. by injection Ha as <-.
  - destruct (g_workers s !! i) as [[]|]; try done. cbn in Ha. destruct (_ && _); [|done]. by injection Ha as <-.
  - destruct (g_workers s !! i) as [[]|], err; try done; cbn in Ha; by injection Ha as <-.
  - destruct (g_workers s !! i) as [[]|]; try done. cbn in Ha. by destruct (g_errCh s); injection Ha as <-.
  - destruct (g_workers s !! i) as [[]|]; try done. cbn in Ha. by injection Ha as <-.
  - destruct (g_ctx s); [done|]. by injection Ha as <-.
Qed.

Lemma run_refs actions s s' :
  config_ready -> caller_inv s -> workers_inv s -> refs_inv s -> grun sha256 cfg cap actions s = Some s' -> refs_inv s'.
Proof.
  intros Hr. revert s. induction actions as [|a actions IH]; intros s Hc Hw Hi; cbn [grun]; [by intros [= <-]|].
  destruct (gstep sha256 cfg cap a s) as [s1|] eqn:Ha; [|done]. cbn [mbind option_bind].
  assert (step sha256 cfg cap s s1) as Hstep by (by exists a).
  eapply IH; [by eapply caller_step|by eapply workers_step|by eapply refs_step].
Qed.
End Invariant.

(** ** From the call of [Generate] *)

Lemma generator_defaults_spec cfg :
  gc_Events (generator_defaults cfg) = gc_Events cfg /\ gc_Seed (generator_defaults cfg) = gc_Seed cfg /\
  1 <= gc_BatchSize (generator_defaults cfg) /\
  gc_PublishConcurrency (generator_defaults cfg) = Z.max 1 (gc_PublishConcurrency cfg).
Proof.
  unfold generator_defaults. destruct (time_IsZero _); cbn; destruct (Z.leb_spec (gc_BatchSize cfg) 0); cbn;
    destruct (Z.leb_spec (gc_PublishConcurrency cfg) 0); cbn; repeat split; lia.
Qed.

Lemma in_flight_idle n : in_flight (replicate n WIdle) = [].
Proof. by induction n. Qed.

Lemma sum_idle n : sumZ worker_weight (replicate n WIdle) = Z.of_nat n.
Proof. induction n as [|n IH]; [done|]. cbn [replicate sumZ fold_right]. unfold sumZ in IH. rewrite IH. cbn. lia. Qed.

Lemma Generate_start_ok (sha256 : bytes -> array 32) {R : Type} `{!RandSource R} publisher (rng : R) cfg cfg' cap s0 :
  Generate_start publisher rng cfg = Ok (cfg', cap, s0) ->
  in_u 64 (gc_Events cfg) -> in_s 64 (gc_PublishConcurrency cfg) ->
  config_ready cfg' cap /\ caller_inv sha256 cfg' rng s0 /\ workers_inv s0 /\ refs_inv cfg' s0 /\
  cfg' = generator_defaults cfg /\ work cfg' s0 = 9 * gc_Events cfg + Z.max 1 (gc_PublishConcurrency cfg) + 21.
Proof.
  unfold Generate_start. intros Hs He Hc. destruct (Z.eqb_spec (gc_Events cfg) 0) as [|Hne]; [done|].
  destruct publisher; [|done]. cbn [orb negb] in Hs. destruct (generator_defaults_spec cfg) as (Hev & _ & Hb & Hp).
  destruct (Z.ltb_spec 1024 (gc_BatchSize (generator_defaults cfg))); [done|].
  destruct (Z.ltb_spec (i64 (gc_PublishConcurrency (generator_defaults cfg) * 2)) 0) as [|Hcap]; [done|].
  apply Ok_inj in Hs. injection Hs as <- <- <-. set (c := generator_defaults cfg) in *.
  assert (0 < i64 (gc_PublishConcurrency c * 2)) as Hcap'.
  { unfold in_s in Hc. destruct (Z_lt_ge_dec (gc_PublishConcurrency c) (2 ^ 62)) as [Hlt|Hge].
    - rewrite i64_id by (unfold in_s; lia). lia.
    - unfold wraps in *. replace (gc_PublishConcurrency c * 2 + 2 ^ (64 - 1)) with
        (gc_PublishConcurrency c * 2 - 2 ^ 63 + 1 * 2 ^ 64) in Hcap by lia.
      rewrite Z_mod_plus_full, Z.mod_small in Hcap by lia. lia. }
  assert (config_ready c (Z.to_nat (i64 (gc_PublishConcurrency c * 2)))) as Hready
    by (unfold in_u in He; split; lia).
  split; [done|]. split; [|split; [|split; [|split; [done|]]]].
  - split; try done.
    + split; [|done]. intros x. right. gproj. rewrite lookup_empty. cbn. lia.
    + cbn. by rewrite take_nil.
    + right. intros x. gproj. cbn [pending]. by rewrite lookup_empty.
  - split; cbn; try done.
    + by rewrite in_flight_idle.
    + by left.
    + intros _ i Hi. apply lookup_replicate in Hi as [Hi _]. done.
    + rewrite length_replicate. lia.
    + intros i w Hi Ht. apply lookup_replicate in Hi as [-> _]. done.
  - split; [|done]. by intros i r Hi.
  - unfold work, sent_events. gproj. rewrite sum_idle, Hev. cbn [gm_Events pc_weight length sumZ fold_right]. lia.
Qed.

(** Story and position side by side in one number. *)
Lemma sequence_number index k :
  0 <= index < 2 ^ 48 -> 0 <= k < 65536 -> Z.lor (u64 (Z.shiftl index 16)) k = index * 65536 + k.
Proof.
  intros Hi Hk. rewrite wrapu_id.
  - rewrite lor_shiftl by lia. lia.
  - rewrite Z.shiftl_mul_pow2 by lia. unfold in_u. lia.
Qed.

Section Theorems.
Context (sha256 : bytes -> array 32) {R : Type} `{!RandSource R}.

(** The batches number no more than the events in them. *)
Lemma sent_count cfg l : Forall (batch_ok cfg) l -> Z.of_nat (length l) <= sent_events l.
Proof.
  induction 1 as [|e l He _ IH]; [done|]. destruct He as (service & events & _ & _ & He).
  apply emit_envelope_ok in He as (Hev & _ & Hne). unfold sent_events in *. cbn [sumZ fold_right length].
  rewrite Hev. destruct events; [done|]. cbn [length]. unfold sumZ in IH. lia.
Qed.

(** What a [Generate] that returned without error has done for the configuration
    [cfg] it was called with: [reference] is the first [Events] events of the story
    sequence of [cfg], its defaults filled in. *)
Definition delivered (rng : R) (cfg : generator_Config) (s : gstate R) : Prop :=
  let cfg' := generator_defaults cfg in
  let reference := take (Z.to_nat (gc_Events cfg)) (event_stream sha256 cfg' rng (g_refs s)) in
  Z.of_nat (length reference) = gc_Events cfg /\ gm_Events (g_manifest s) = gc_Events cfg /\
  gm_Stories (g_manifest s) = Z.of_nat (length (g_refs s)) /\
  (forall i ref, g_refs s !! i = Some ref -> (is_Some ref <-> wants_payload cfg' (Z.of_nat i) = true)) /\
  g_published s ≡ₚ g_sent s /\ gm_Batches (g_manifest s) = Z.of_nat (length (g_published s)) /\
  Forall (fun e => 1 <= Z.of_nat (length (en_Events e)) <= gc_BatchSize cfg') (g_published s) /\
  forall service, sent_of service (g_sent s) = made_of service reference.

(** A successful [Generate] delivers.  When it returns no error, whatever the
    schedule of the caller and its workers, it has generated exactly the requested
    number of events: the first [Events] events of the story sequence that seed,
    start time and the store's references determine.  Every batch put on the channel
    was published once and successfully, batches hold between one and [BatchSize]
    events, the manifest counts them, and the batches of each service, in the order
    they were sent, hold that service's events in order, none lost or repeated. *)
Lemma generate_delivers (publisher : bool) (rng : R) (cfg cfg' : generator_Config) cap s0 actions s :
  Generate_start publisher rng cfg = Ok (cfg', cap, s0) ->
  in_u 64 (gc_Events cfg) -> in_s 64 (gc_PublishConcurrency cfg) ->
  grun sha256 cfg' cap actions s0 = Some s -> g_pc s = GDone None -> delivered rng cfg s.
Proof.
  intros Hstart He Hc Hrun Hpc. unfold delivered. cbv zeta. set (reference := take _ _).
  destruct (Generate_start_ok sha256 _ _ _ _ _ _ Hstart He Hc) as (Hr & Hci & Hwi & Hri & -> & _).
  destruct (run_inv _ _ _ _ _ _ _ Hr Hci Hwi Hrun) as (Hc' & Hw' & _).
  pose proof (run_refs _ _ _ _ _ _ _ Hr Hci Hwi Hri Hrun) as [Hrefs _].
  pose proof (sent_bound _ _ _ _ Hc') as Hsent. destruct Hc', Hw'. rewrite Hpc in *. cbn in co_pc0.
  pose proof (sent_count _ _ co_sent0) as Hcount. destruct wo_final0 as [Hf Hj]; [done|].
  assert (in_flight (g_workers s) = []) as Hfl.
  { clear -wo_quiet0. induction wo_quiet0 as [|w l -> _ IH]; done. }
  rewrite Hf, Hj, Hfl in wo_perm0. cbn [app] in wo_perm0. rewrite app_nil_r in wo_perm0.
  destruct (generator_defaults_spec cfg) as (Hev & _). rewrite Hev in *. unfold in_u in He.
  unfold reference. rewrite <- co_made0. split; [lia|]. split; [done|]. split; [done|]. split; [done|].
  split; [done|]. rewrite <- wo_perm0. split; [rewrite co_batches0, wrapu_id by (unfold in_u; lia); done|].
  split.
  - eapply Forall_impl; [exact co_sent0|]. intros e (service & events & _ & Hlen & Heq).
    apply emit_envelope_ok in Heq as (-> & _ & Hne). destruct events; [done|]. cbn [length] in *. lia.
  - intros service. destruct co_flow0 as [[]|Hflow]. specialize (Hflow service). cbn [pending] in Hflow.
    by rewrite app_nil_r in Hflow.
Qed.

(** C31.  [Generate] always returns: no schedule of the caller, its workers, the
    publisher and the contexts is longer than a bound linear in the number of
    events, and as long as [Generate] has not returned one of its own actions is
    possible - a step of the caller or of a worker, or the return of a [publish] or
    [Put] call one of them is in.  The end of the caller's context does not count:
    without it, too, neither a full channel, nor failed workers, nor a cancelled
    context leave [Generate] waiting for ever. *)
Theorem generate_returns (publisher : bool) (rng : R) (cfg cfg' : generator_Config) cap s0 actions s :
  Generate_start publisher rng cfg = Ok (cfg', cap, s0) ->
  in_u 64 (gc_Events cfg) -> in_s 64 (gc_PublishConcurrency cfg) ->
  grun sha256 cfg' cap actions s0 = Some s ->
  Z.of_nat (length actions) <= 9 * gc_Events cfg + Z.max 1 (gc_PublishConcurrency cfg) + 21 /\
  ((exists err, g_pc s = GDone err) \/
   exists a s', own_action a = true /\ gstep sha256 cfg' cap a s = Some s').
Proof.
  intros Hstart He Hc Hrun.
  destruct (Generate_start_ok sha256 _ _ _ _ _ _ Hstart He Hc) as (Hr & Hci & Hwi & Hri & _ & Hwork).
  destruct (run_inv _ _ _ _ _ _ _ Hr Hci Hwi Hrun) as (Hc' & Hw' & Hle).
  pose proof (gwork_nonneg _ _ _ _ _ Hr Hc'). split; [lia|].
  destruct (g_pc s) eqn:Hpc; [right|right|right|right|right|right|left; by eexists|right];
    (eapply progress; [exact Hr|exact Hc'|exact Hw'|]; intros err; by rewrite Hpc).
Qed.
(** Every event of the reference sequence comes from a story of the sequence. *)
Lemma story_stream_elem cfg index (rng : R) refs st :
  st ∈ (story_stream sha256 cfg index rng refs).2 ->
  exists i ref rng', (i < length refs)%nat /\
    st = link_story cfg (index + Z.of_nat i) ref (buildStory sha256 cfg (index + Z.of_nat i) rng').2.
Proof.
  revert index rng. induction refs as [|r refs IH]; intros index rng; [by intros []%not_elem_of_nil|].
  cbn [story_stream]. destruct (buildStory sha256 cfg index rng) as [rng1 st1] eqn:Hb.
  specialize (IH (index + 1) rng1). destruct (story_stream sha256 cfg (index + 1) rng1 refs) as [rng2 more].
  cbn [snd] in *. intros [->|Hin]%elem_of_cons.
  - exists 0%nat, r, rng. rewrite Z.add_0_r, Hb. cbn. split; [lia|done].
  - destruct (IH Hin) as (i & ref & rng' & Hi & ->). exists (S i), ref, rng'. cbn [length]. split; [lia|].
    by replace (index + Z.of_nat (S i)) with (index + 1 + Z.of_nat i) by lia.
Qed.

Lemma stream_event cfg (rng : R) refs e :
  e ∈ (event_stream sha256 cfg rng refs).*2 ->
  exists i ref rng', (i < length refs)%nat /\
    e ∈ story_events (link_story cfg (Z.of_nat i) ref (buildStory sha256 cfg (Z.of_nat i) rng').2).
Proof.
  intros ([x e'] & -> & Hin)%list_elem_of_fmap. unfold event_stream in Hin. apply list_elem_of_In, in_concat in Hin as (l & Hl & Hin).
  apply list_elem_of_In, list_elem_of_fmap in Hl as (st & -> & Hst). apply list_elem_of_In in Hin.
  unfold tagged in Hin. apply list_elem_of_fmap in Hin as (e & [= -> ->] & He).
  apply story_stream_elem in Hst as (i & ref & rng' & Hi & ->). exists i, ref, rng'. by rewrite Z.add_0_l in He.
Qed.

Lemma link_story_good cfg index ref st :
  Forall event_good (story_events st) -> Forall event_good (story_events (link_story cfg index ref st)).
Proof.
  intros Hst. destruct ref as [r|]; [|done]. cbn [link_story].
  destruct (attachPayload cfg index (Ok r) st) as [st'| |] eqn:Hat; [|done|done]. by eapply attachPayload_good.
Qed.

(** What [Generate] hands to the publisher is always well formed: every batch,
    published or not, satisfies the envelope contract of the wire format and its
    numbers fit their types, so that [wire.Marshal] accepts it, provided the start
    time leaves the stories' timestamps positive and representable. *)
Lemma generated_valid (publisher : bool) (rng : R) (cfg cfg' : generator_Config) cap s0 actions s :
  Generate_start publisher rng cfg = Ok (cfg', cap, s0) ->
  in_u 64 (gc_Events cfg) -> in_s 64 (gc_PublishConcurrency cfg) ->
  0 < gc_Start cfg' -> gc_Start cfg' + 3 * gc_Events cfg * Second + 4 * Second < 2 ^ 63 ->
  grun sha256 cfg' cap actions s0 = Some s ->
  Forall (fun e => Validate e = Ok tt /\ Forall event_fits (en_Events e)) (g_sent s).
Proof.
  intros Hstart He Hc Hpos Hmax Hrun.
  destruct (Generate_start_ok sha256 _ _ _ _ _ _ Hstart He Hc) as (Hr & Hci & Hwi & Hri & -> & _).
  destruct (run_inv _ _ _ _ _ _ _ Hr Hci Hwi Hrun) as (Hc' & Hw' & _).
  destruct (generator_defaults_spec cfg) as (Hev & _).
  pose proof (events_bound _ _ _ _ _ Hr Hc') as Hbound. destruct Hc'.
  assert (forall e, e ∈ g_sent s -> Forall event_good (en_Events e)) as Hgood.
  { intros env Henv. apply Forall_forall. intros e Hin.
    assert (e ∈ sent_of (md_Service (en_Metadata env)) (g_sent s)) as Hsent.
    { unfold sent_of. apply list_elem_of_In, in_concat. exists (en_Events env). split; [|by apply list_elem_of_In].
      apply list_elem_of_In, list_elem_of_fmap. exists env. split; [done|]. by apply list_elem_of_filter. }
    destruct (co_prefix0 (md_Service (en_Metadata env))) as [tail Htail].
    assert (e ∈ (g_made s).*2) as Hmade by (eapply made_of_elem; rewrite Htail; apply elem_of_app; by left).
    rewrite co_made0, fmap_take in Hmade. apply elem_of_take in Hmade as (n & Hn & _).
    apply list_elem_of_lookup_2 in Hn. apply stream_event in Hn as (i & ref & rng' & Hi & He').
    eapply (proj1 (Forall_forall _ _)); [|exact He']. apply link_story_good, buildStory_good.
    unfold story_in_range, Second in *. lia. }
  apply Forall_forall. intros env Henv. specialize (Hgood env Henv).
  pose proof (proj1 (Forall_forall _ _) co_sent0 env Henv) as (service & events & Hs & _ & Heq).
  split; [|eapply Forall_impl; [exact Hgood|]; by intros e [_ ?]].
  destruct events as [|first events]; [done|]. injection Heq as <-. cbn [en_Events] in Hgood.
  pose proof (proj1 (proj1 (Forall_cons _ _ _) Hgood)) as [Hfirst _].
  unfold Validate. cbn [en_SchemaVersion en_BatchID en_Events en_Metadata md_Service length Nat.eqb].
  assert (str_eqb (we_EventID first) "" = false /\ is_ok (ParseEventID (we_EventID first)) = true) as [-> ->].
  { revert Hfirst. unfold validateEvent. destruct (str_eqb (we_EventID first) ""); [done|].
    destruct (_ || _); [done|]. by destruct (is_ok _). }
  assert (str_eqb service "" = false) as ->.
  { unfold str_eqb. apply bool_decide_false. intros ->. revert Hs. apply (bool_decide_unpack _). vm_compute. exact I. }
  cbn [orb negb]. generalize 0%nat. clear -Hgood. induction Hgood as [|e l [He _] _ IH]; intros i; [done|].
  cbn [validate_events]. by rewrite He.
Qed.
(** The numbers hashed into the identifiers of [n] stories from [index] on. *)
Definition story_sequences (index : Z) : list Z := (fun k => Z.lor (u64 (Z.shiftl index 16)) k) <$> seqZ 0 (story_size index).
Definition stream_sequences (index : Z) (n : nat) : list Z := concat (story_sequences <$> seqZ index (Z.of_nat n)).

Lemma stream_ids cfg index (rng : R) refs :
  we_EventID <$> (concat (tagged <$> (story_stream sha256 cfg index rng refs).2)).*2 =
  (fun k => deterministicID sha256 (gc_Seed cfg) "event" k) <$> stream_sequences index (length refs).
Proof.
  unfold stream_sequences. revert index rng. induction refs as [|r refs IH]; intros index rng; [done|].
  cbn [story_stream length]. pose proof (buildStory_ids sha256 cfg index rng) as Hids.
  destruct (buildStory sha256 cfg index rng) as [rng1 st].
  specialize (IH (index + 1) rng1). destruct (story_stream sha256 cfg (index + 1) rng1 refs) as [rng2 more].
  cbn [snd] in *. rewrite seqZ_cons by lia. cbn [fmap list_fmap concat]. rewrite !fmap_app.
  replace (Z.pred (Z.of_nat (S (length refs)))) with (Z.of_nat (length refs)) by lia.
  replace (Z.succ index) with (index + 1) by lia. rewrite <- IH. f_equal.
  unfold tagged, story_sequences. rewrite <- !list_fmap_compose. cbn. etransitivity; [|exact Hids].
  etransitivity; [|apply (link_story_ids cfg index r)]. by apply list_fmap_ext.
Qed.

Lemma story_sequence_range index k :
  0 <= index < 2 ^ 48 -> k ∈ story_sequences index -> index * 65536 <= k < (index + 1) * 65536.
Proof.
  intros Hi (j & -> & Hj)%list_elem_of_fmap. apply elem_of_seqZ in Hj. unfold story_size in Hj.
  pose proof (Z.mod_pos_bound index 4). rewrite sequence_number by lia. lia.
Qed.

Lemma stream_sequences_NoDup index n :
  0 <= index -> index + Z.of_nat n <= 2 ^ 48 ->
  NoDup (stream_sequences index n) /\ forall k, k ∈ stream_sequences index n -> index * 65536 <= k < 2 ^ 64.
Proof.
  unfold stream_sequences. revert index. induction n as [|n IH]; intros index H0 Hn.
  - split; [apply NoDup_nil_2|]. by intros k []%not_elem_of_nil.
  - rewrite seqZ_cons by lia. cbn [fmap list_fmap concat].
    replace (Z.pred (Z.of_nat (S n))) with (Z.of_nat n) by lia. replace (Z.succ index) with (index + 1) by lia.
    destruct (IH (index + 1) ltac:(lia) ltac:(lia)) as [Hnd Hin].
    assert (forall k, k ∈ story_sequences index -> index * 65536 <= k < (index + 1) * 65536) as Hhere
      by (intros k; apply story_sequence_range; lia).
    split.
    + apply NoDup_app. split; [|split; [|exact Hnd]].
      * unfold story_sequences. apply NoDup_fmap_2_strong; [|apply NoDup_seqZ].
        unfold story_size. pose proof (Z.mod_pos_bound index 4).
        intros j k Hj%elem_of_seqZ Hk%elem_of_seqZ. rewrite !sequence_number by lia. lia.
      * intros k Hk%Hhere Hk'%Hin. lia.
    + intros k [Hk%Hhere|Hk%Hin]%elem_of_app; lia.
Qed.

(** No two generated events share an identifier, as long as the truncated hash does
    not collide on the numbers of events; 2^48 stories are more than a run of less
    than 2^51 events has. *)
Lemma generated_ids_unique cfg (rng : R) refs :
  Z.of_nat (length refs) <= 2 ^ 48 ->
  (forall j k, in_u 64 j -> in_u 64 k ->
     first16 (sha256 (id_input (gc_Seed cfg) "event" j)) = first16 (sha256 (id_input (gc_Seed cfg) "event" k)) -> j = k) ->
  NoDup (we_EventID <$> (event_stream sha256 cfg rng refs).*2).
Proof.
  intros Hlen Hinj. unfold event_stream. rewrite stream_ids.
  destruct (stream_sequences_NoDup 0 (length refs) ltac:(lia) ltac:(lia)) as [Hnd Hin].
  apply NoDup_fmap_2_strong; [|exact Hnd]. intros j k Hj%Hin Hk%Hin Heq.
  apply Hinj; [unfold in_u; lia|unfold in_u; lia|]. apply (f_equal decodeID) in Heq. unfold deterministicID, String_ in Heq.
  rewrite !decode_encode in Heq. by apply Ok_inj in Heq.
Qed.
End Theorems.
