(* ===== verification/GeneratorExamples.v ===== *)
(** * Runs of the event generator

    A scheduler that takes the first action possible, and the theorems on
    [Generate] applied to a run of two workers over three batches. *)

From S2P Require Import Prelude Ids Events GoLib Wire Payload GoRand Generator GeneratorSystem GeneratorStories GeneratorProofs.

(** A stand-in for SHA-256: the last eight bytes, padded. *)
Definition demo_sha256 (b : bytes) : array 32 :=
  default (zero_array 32) (to_array 32 (drop (length b - 8) b ++ replicate 24 zero_byte)).

Definition demo_cfg : generator_Config := mkGeneratorConfig 12 7 time_zero 5 2 false 0.

Definition demo_start : generator_Config * nat * gstate PCG :=
  match Generate_start true (generator_rng 7) demo_cfg with
  | Ok r => r
  | _ => (demo_cfg, 0%nat, mkGstate (GPanic "") (mkGeneratorManifest 0 0 0 0 0 0) (generator_rng 7) ∅ [] false None None [] [] [] [] [] [])
  end.

Definition candidates : list gaction :=
  [AMain; APublish 0 None; APublish 1 None; ATake 0; ATake 1; ASend; AExit 0; AExit 1; AFinished].

(** The actions of the run that always takes the first possible candidate. *)
Fixpoint schedule (fuel : nat) (s : gstate PCG) : list gaction :=
  match fuel with
  | O => []
  | S fuel =>
      let '(cfg, cap, _) := demo_start in
      match List.find (fun a => match gstep demo_sha256 cfg cap a s with Some _ => true | None => false end) candidates with
      | Some a => a :: match gstep demo_sha256 cfg cap a s with Some s' => schedule fuel s' | None => [] end
      | None => []
      end
  end.

Definition demo_actions : list gaction := schedule 100 demo_start.2.
Definition demo_final : gstate PCG :=
  default demo_start.2 (grun demo_sha256 demo_start.1.1 demo_start.1.2 demo_actions demo_start.2).

Definition demo_facts : bool :=
  bool_decide (is_Some (grun demo_sha256 demo_start.1.1 demo_start.1.2 demo_actions demo_start.2)) &&
  match g_pc demo_final with GDone None => true | _ => false end &&
  Nat.eqb (length (g_published demo_final)) 3 && Nat.eqb (length (g_refs demo_final)) 2.

Lemma demo_run_facts : demo_facts = true.
Proof. vm_compute. reflexivity. Qed.

Lemma demo_run : grun demo_sha256 demo_start.1.1 demo_start.1.2 demo_actions demo_start.2 = Some demo_final.
Proof.
  assert (is_Some (grun demo_sha256 demo_start.1.1 demo_start.1.2 demo_actions demo_start.2)) as [s Hs].
  { apply (bool_decide_unpack _). vm_compute. exact I. }
  unfold demo_final. by rewrite Hs.
Qed.

Lemma demo_started : Generate_start true (generator_rng 7) demo_cfg = Ok (demo_start.1.1, demo_start.1.2, demo_start.2).
Proof. vm_compute. reflexivity. Qed.

Lemma demo_done : g_pc demo_final = GDone None.
Proof. vm_compute. reflexivity. Qed.

Example generate_delivers_example :
  g_pc demo_final = GDone None /\ g_published demo_final ≡ₚ g_sent demo_final /\
  gm_Batches (g_manifest demo_final) = Z.of_nat (length (g_published demo_final)).
Proof.
  split; [exact demo_done|].
  pose proof (generate_delivers demo_sha256 true (generator_rng 7) demo_cfg demo_start.1.1 demo_start.1.2 demo_start.2
    demo_actions demo_final demo_started ltac:(split; vm_compute; congruence) ltac:(split; vm_compute; congruence)
    demo_run demo_done) as (_ & _ & _ & _ & H1 & H2 & _).
  exact (conj H1 H2).
Defined.

Example generate_returns_witness : Z.of_nat (length demo_actions) <= 131.
Proof.
  exact (proj1 (generate_returns demo_sha256 true (generator_rng 7) demo_cfg demo_start.1.1 demo_start.1.2 demo_start.2
    demo_actions demo_final demo_started ltac:(split; vm_compute; congruence) ltac:(split; vm_compute; congruence)
    demo_run)).
Defined.

Example generated_valid_example :
  Forall (fun e => Validate e = Ok tt /\ Forall event_fits (en_Events e)) (g_sent demo_final).
Proof.
  exact (generated_valid demo_sha256 true (generator_rng 7) demo_cfg demo_start.1.1 demo_start.1.2 demo_start.2
    demo_actions demo_final demo_started ltac:(split; vm_compute; congruence) ltac:(split; vm_compute; congruence)
    ltac:(vm_compute; congruence) ltac:(vm_compute; congruence) demo_run).
Defined.

(** The stand-in does not collide on numbers of events. *)
Lemma demo_sha256_first16 seed namespace k :
  array_bytes (first16 (demo_sha256 (id_input seed namespace k))) = be_bytes 8 k [] ++ replicate 8 zero_byte.
Proof.
  unfold demo_sha256, id_input. rewrite app_assoc.
  set (p := _ ++ be_bytes 8 seed []). rewrite length_app, length_be_bytes.
  replace (length p + 8 - 8)%nat with (length p) by lia. rewrite drop_app_length.
  destruct (to_array_length 32 (be_bytes 8 k [] ++ replicate 24 zero_byte)) as [a Ha];
    [by rewrite length_app, length_be_bytes|]. rewrite Ha. change (default (zero_array 32) (Some a)) with a.
  unfold first16. rewrite (to_array_Some _ _ _ Ha).
  assert (take 16 (be_bytes 8 k [] ++ replicate 24 zero_byte) = be_bytes 8 k [] ++ replicate 8 zero_byte) as ->.
  { rewrite take_app, length_be_bytes, take_ge by (rewrite length_be_bytes; lia). done. }
  destruct (to_array_length 16 (be_bytes 8 k [] ++ replicate 8 zero_byte)) as [b Hb];
    [by rewrite length_app, length_be_bytes|]. rewrite Hb. by apply to_array_Some.
Qed.

Lemma be_bytes_8_inj j k : in_u 64 j -> in_u 64 k -> be_bytes 8 j [] = be_bytes 8 k [] -> j = k.
Proof.
  intros Hj Hk H. rewrite <- (SetBytes_be_bytes 8 j), <- (SetBytes_be_bytes 8 k), H by (cbn; unfold in_u in *; lia). done.
Qed.

Example generated_ids_unique_witness :
  NoDup (we_EventID <$> (event_stream demo_sha256 demo_cfg (generator_rng 7) [None; None]).*2).
Proof.
  apply generated_ids_unique; [vm_compute; congruence|]. intros j k Hj Hk H. apply be_bytes_8_inj; [done|done|].
  apply (f_equal array_bytes) in H. rewrite !demo_sha256_first16 in H. by apply app_inv_tail in H.
Defined.
