(* ===== verification/S3Store.v ===== *)
(** * The S3 payload store (src/payload/s3/s3.go)

    A content-addressed store on an S3-compatible service: [Put] copies its reader
    through a hash into a temporary file, uploads that file under the prefix and the
    hexadecimal checksum, and removes it; [Open] and [Delete] check that a reference
    belongs to the store first.  The client library (minio-go) is the class
    [S3Client]: its calls on an unknown world, and what the service documents of
    them.  The temporary file lives in the file system of [FileStore]; SHA-256 and
    gzip are parameters. *)

From S2P Require Import Prelude Ids Events GoLib GoText Payload FileStore FileStoreProofs Retention.

(** ** The client library *)

Record PutObjectOptions := mkPutObjectOptions {
  poo_ContentType : string;
  poo_UserMetadata : list (string * string)
}.

Abbreviation s3_objects := (gmap (string * string) (bytes * PutObjectOptions)).

(** The client's calls on a service whose buckets hold [stored w].  An upload and a
    removal are atomic; when the call reports an error the service may or may not
    have carried it out. *)
Class S3Client (W : Type) := {
  stored : W -> s3_objects;
  BucketExists : string -> M W bool;
  MakeBucket : string -> M W unit;
  PutObject : string -> string -> bytes -> Z -> PutObjectOptions -> M W unit;
  GetObject : string -> string -> M W unit;
  (* [object.Stat()]: fetches the object; its content is what the object then reads *)
  StatObject : string -> string -> M W bytes;
  CloseObject : string -> string -> M W unit;
  RemoveObject : string -> string -> M W unit;
  (* the status and code of [minio.ToErrorResponse] *)
  ToErrorResponse : error -> Z * string;

  PutObject_law bucket key body options w :
    let '(w', r) := PutObject bucket key body (Z.of_nat (length body)) options w in
    match r with
    | Ok _ => stored w' = <[(bucket, key) := (body, options)]> (stored w)
    | Fail _ => stored w' = stored w \/ stored w' = <[(bucket, key) := (body, options)]> (stored w)
    | Panic _ => False
    end;
  GetObject_law bucket key w :
    let '(w', r) := GetObject bucket key w in stored w' = stored w /\ match r with Panic _ => False | _ => True end;
  StatObject_law bucket key w :
    let '(w', r) := StatObject bucket key w in
    stored w' = stored w /\
    match r with
    | Ok body => exists options, stored w !! (bucket, key) = Some (body, options)
    | Fail _ => True
    | Panic _ => False
    end;
  CloseObject_law bucket key w :
    let '(w', r) := CloseObject bucket key w in stored w' = stored w /\ match r with Panic _ => False | _ => True end;
  RemoveObject_law bucket key w :
    let '(w', r) := RemoveObject bucket key w in
    match r with
    | Ok _ => stored w' = delete (bucket, key) (stored w)
    | Fail _ => stored w' = stored w \/ stored w' = delete (bucket, key) (stored w)
    | Panic _ => False
    end;
  BucketExists_law bucket w :
    let '(w', r) := BucketExists bucket w in stored w' = stored w /\ match r with Panic _ => False | _ => True end;
  MakeBucket_law bucket w :
    let '(w', r) := MakeBucket bucket w in stored w' = stored w /\ match r with Panic _ => False | _ => True end
}.

(** ** Texts *)

(** [strings.Trim(s, "/")] *)
Fixpoint trim_slashes (l : bytes) : bytes :=
  match l with "/"%char :: l => trim_slashes l | _ => l end.
Definition Trim_slash (s : string) : string :=
  bytes_string (rev (trim_slashes (rev (trim_slashes (string_bytes s))))).

(** ** The store *)

Record s3_Config := mkS3Config {
  s3c_Endpoint : string;
  s3c_AccessKey : string;
  s3c_SecretKey : string;
  s3c_SessionToken : string;
  s3c_Bucket : string;
  s3c_Region : string;
  s3c_Prefix : string;
  s3c_Name : string;
  s3c_Secure : bool;
  s3c_PathStyle : bool;
  (* whether TLS is not nil *)
  s3c_TLS : bool
}.

Record S3Store := mkS3Store { s3_bucket : string; s3_prefix : string; s3_name : string }.

Inductive BucketLookupType := BucketLookupAuto | BucketLookupPath.

Definition bucketLookup (path : bool) : BucketLookupType := if path then BucketLookupPath else BucketLookupAuto.

(** What [Open] passes to [minio.New]: the credentials, the transport's TLS choice
    and the addressing style. *)
Record minio_Options := mkMinioOptions {
  mo_Creds : string * string * string;
  mo_Secure : bool;
  mo_Region : string;
  mo_TLS : bool;
  mo_BucketLookup : BucketLookupType
}.

(** [New]; [client] says whether the client is not nil. *)
Definition New_S3Store (client : bool) (bucket prefix name : string) : result S3Store :=
  if negb client || str_eqb bucket "" then Fail (errors_New "trail/payload/s3: client and bucket are required")
  else
    let prefix := Trim_slash (TrimSpace prefix) in
    let prefix := if str_eqb prefix "" then prefix else prefix +:+ "/" in
    let name := if str_eqb name "" then "s3" else name in
    Ok (mkS3Store bucket prefix name).

(** [Open]; [transport] and [minio_New] are the answers of the client library's
    constructors. *)
Definition Open_S3Store (transport : option error) (minio_New : string -> minio_Options -> option error)
    (cfg : s3_Config) : result S3Store :=
  if str_eqb (s3c_Endpoint cfg) "" || str_eqb (s3c_Bucket cfg) ""
  then Fail (errors_New "trail/payload/s3: endpoint and bucket are required")
  else
    match transport with
    | Some err => Fail err
    | None =>
        let options := mkMinioOptions (s3c_AccessKey cfg, s3c_SecretKey cfg, s3c_SessionToken cfg)
          (s3c_Secure cfg) (s3c_Region cfg) (s3c_TLS cfg) (bucketLookup (s3c_PathStyle cfg)) in
        match minio_New (s3c_Endpoint cfg) options with
        | Some err => Fail err
        | None => New_S3Store true (s3c_Bucket cfg) (s3c_Prefix cfg) (s3c_Name cfg)
        end
    end.

(** [s.validate(ref)] *)
Definition s3_validate (s : S3Store) (ref : Ref) : result unit :=
  if negb (str_eqb (ref_Store ref) (s3_name s)) || str_eqb (ref_Key ref) "" ||
     negb (HasPrefix (ref_Key ref) (s3_prefix s)) || Contains (ref_Key ref) ".." ||
     ContainsByte (TrimPrefix (ref_Key ref) (s3_prefix s)) "092"%char
  then Fail ErrInvalidRef
  else Ok tt.

(** The pattern of the temporary file, with its random part. *)
Definition s3_temp_path (dir : list string) (suffix : string) : list string := dir ++ ["trail-s3-payload-" +:+ suffix].

(** What the upload reads from the temporary file after [Seek(0, io.SeekStart)]. *)
Definition file_content (p : list string) : M fsw bytes :=
  reads (fun w => Ok match fs_nodes w !! p with Some (File data) => data | _ => [] end).

Section S3.
Context {W : Type} `{!S3Client W} (sha256 : bytes -> array 32) (gzip : bytes -> bytes).

(** The two halves of the world: the local file system and the service. *)
Definition on_files {A} (m : M fsw A) : M (fsw * W) A := fun w => let '(f, r) := m w.1 in ((f, w.2), r).
Definition on_service {A} (m : M W A) : M (fsw * W) A := fun w => let '(v, r) := m w.2 in ((w.1, v), r).

Definition EnsureBucket (s : S3Store) : M W unit :=
  exists_ ← BucketExists (s3_bucket s);
  if exists_ : bool then mret tt else MakeBucket (s3_bucket s).

(** [Put] from the creation of the temporary file to the returned reference. *)
Definition s3_put_body (s : S3Store) (ctx : nat -> option error) (temporary : list string) (r : reader)
    (opt : PutOptions) : M (fsw * W) Ref :=
  let gz := str_eqb (po_Compression opt) CompressionGZIP in
  data ← on_files (copy_in gzip ctx temporary r gz);
  stored_size ← on_files (file_size temporary);     (* Seek(0, io.SeekEnd) *)
  _ ← on_files syscall;                             (* Seek(0, io.SeekStart) *)
  let size := Z.of_nat (length data) in
  let sum := sha256 data in
  let key := s3_prefix s +:+ hex_Encode sum in
  let key := if gz then key +:+ ".gz" else key in
  body ← on_files (file_content temporary);
  _ ← on_service (PutObject (s3_bucket s) key body stored_size
        (mkPutObjectOptions (po_ContentType opt)
           [("trail-sha256", hex_Encode sum); ("trail-size", Itoa size);
            ("trail-compression", po_Compression opt)]));
  mret (mkRef (s3_name s) key (po_ContentType opt) size stored_size sum (po_Compression opt)
          (po_RetainUntil opt) (po_RetentionClass opt)).

(** [Put]: the deferred function closes and removes the temporary file in any case.
    [dir] is the system's directory for temporary files. *)
Definition s3_Put (s : S3Store) (ctx : nat -> option error) (dir : list string) (suffix : string)
    (r : option reader) (opt : PutOptions) : M (fsw * W) Ref :=
  match r with
  | None => fail (errors_New "trail/payload/s3: nil reader")
  | Some r =>
      if negb (str_eqb (po_Compression opt) CompressionNone) && negb (str_eqb (po_Compression opt) CompressionGZIP)
      then fail (errors_New ("trail/payload/s3: unsupported compression " +:+
                   String "034"%char (po_Compression opt +:+ String "034"%char EmptyString)))
      else
        temporary ← on_files (create_temp dir (s3_temp_path dir suffix));
        outcome ← attempt (s3_put_body s ctx temporary r opt);
        _ ← on_files (attempt syscall);                  (* tmp.Close() *)
        _ ← on_files (attempt (os_Remove temporary));
        lift outcome
  end.

Definition mapError (err : option error) : option error :=
  match err with
  | None => None
  | Some err =>
      let '(status, code) := ToErrorResponse err in
      if (status =? 404) || str_eqb code "NoSuchKey" || str_eqb code "NoSuchBucket" then Some ErrPayloadNotFound
      else Some err
  end.

(** A call whose error is mapped. *)
Definition with_mapError {A} (m : M W A) : M W A :=
  r ← attempt m;
  match r with
  | Fail e => match mapError (Some e) with Some e => fail e | None => lift r end
  | other => lift other
  end.

(** [Open]: the content the returned object reads. *)
Definition s3_Open (s : S3Store) (ref : Ref) : M W bytes :=
  _ ← lift (s3_validate s ref);
  _ ← with_mapError (GetObject (s3_bucket s) (ref_Key ref));
  r ← attempt (StatObject (s3_bucket s) (ref_Key ref));
  match r with
  | Fail e =>
      _ ← attempt (CloseObject (s3_bucket s) (ref_Key ref));
      with_mapError (fail e)
  | other => lift other
  end.

Definition s3_Delete (s : S3Store) (ref : Ref) : M W unit :=
  _ ← lift (s3_validate s ref);
  with_mapError (RemoveObject (s3_bucket s) (ref_Key ref)).

End S3.
