(* ===== verification/S3StoreProofs.v ===== *)
(** * Guarantees of the S3 payload store (src/payload/s3/s3.go)

    What an upload leaves in the bucket and on the local disk whichever call fails,
    that the store finds what it stored unless its prefix makes it refuse it, and which
    keys it can reach. *)

From S2P Require Import Prelude Ids Events GoLib GoText Payload FileStore FileStoreProofs Retention S3Store.

(** The reference and the metadata of an upload. *)
Section Put.
Context {W : Type} `{!S3Client W} (sha256 : bytes -> array 32) (gzip : bytes -> bytes) (s : S3Store).

Definition s3_key (gz : bool) (data : bytes) : string :=
  if gz then (s3_prefix s +:+ hex_Encode (sha256 data)) +:+ ".gz" else s3_prefix s +:+ hex_Encode (sha256 data).

Definition s3_ref (opt : PutOptions) (data : bytes) : Ref :=
  let gz := str_eqb (po_Compression opt) CompressionGZIP in
  mkRef (s3_name s) (s3_key gz data) (po_ContentType opt) (Z.of_nat (length data))
    (Z.of_nat (length (stored_form gzip gz data))) (sha256 data) (po_Compression opt)
    (po_RetainUntil opt) (po_RetentionClass opt).

Definition s3_meta (opt : PutOptions) (data : bytes) : PutObjectOptions :=
  mkPutObjectOptions (po_ContentType opt)
    [("trail-sha256", hex_Encode (sha256 data)); ("trail-size", Itoa (Z.of_nat (length data)));
     ("trail-compression", po_Compression opt)].

(** The bucket after the upload of [data]. *)
Definition uploaded (opt : PutOptions) (data : bytes) (objects : s3_objects) : s3_objects :=
  let gz := str_eqb (po_Compression opt) CompressionGZIP in
  <[(s3_bucket s, s3_key gz data) := (stored_form gzip gz data, s3_meta opt data)]> objects.

Lemma on_files_spec {A} (P : fsw -> Prop) (m : M fsw A) Q (S : W -> Prop) :
  mspec P m Q -> mspec (fun w => P w.1 /\ S w.2) (on_files m) (fun r w => Q r w.1 /\ S w.2).
Proof. intros H [f v] [Hf Hv]. specialize (H f Hf). unfold on_files. cbn in *. by destruct (m f). Qed.

Context (temporary : list string) (N : gmap (list string) node) (O : s3_objects).

Lemma put_body_spec ctx r opt :
  let data := concat (rd_chunks r) in
  mspec (fun w => owns temporary N [] w.1 /\ stored w.2 = O) (s3_put_body sha256 gzip s ctx temporary r opt)
    (fun res w => owned temporary N w.1 /\
       match res with
       | Ok ref => ref = s3_ref opt data /\ stored w.2 = uploaded opt data O
       | Fail _ => stored w.2 = O \/ stored w.2 = uploaded opt data O
       | Panic _ => False
       end).
Proof.
  intros data. set (gz := str_eqb (po_Compression opt) CompressionGZIP).
  set (x := stored_form gzip gz data). unfold s3_put_body. fold gz.
  assert (forall y w, owns temporary N y w -> owned temporary N w) as Howned by (intros y w H; by exists y).
  eapply mspec_bind with (R := fun d w => d = data /\ owns temporary N x w.1 /\ stored w.2 = O).
  { eapply mspec_post; [eapply (on_files_spec _ _ _ (fun v => stored v = O)); apply copy_in_owns|].
    intros [d|e|m] w [H HO]; [|by auto|done]. destruct H as [-> H]. done. }
  intros d. eapply mspec_bind with (R := fun n w => d = data /\ n = Z.of_nat (length x) /\ owns temporary N x w.1 /\ stored w.2 = O).
  { apply mspec_pre with (P' := fun w => owns temporary N x w.1 /\ stored w.2 = O /\ d = data); [|tauto].
    eapply mspec_post; [eapply (on_files_spec _ _ _ (fun v => stored v = O /\ d = data)); apply file_size_owns|].
    intros [n|e|m] w [H [HO Hd]]; [|by auto|done]. destruct H as [-> H]. done. }
  intros n. eapply mspec_bind with (R := fun _ w => d = data /\ n = Z.of_nat (length x) /\ owns temporary N x w.1 /\ stored w.2 = O).
  { apply mspec_pre with (P' := fun w => owns temporary N x w.1 /\ stored w.2 = O /\ d = data /\ n = Z.of_nat (length x)); [|tauto].
    eapply mspec_post; [eapply (on_files_spec _ _ _ (fun v => stored v = O /\ d = data /\ n = Z.of_nat (length x))); apply syscall_owns|].
    intros [u|e|m] w [H [HO [Hd Hn]]]; [|by auto|done]. done. }
  intros _ [f v] (-> & -> & Hf & HO). cbn [fst snd] in Hf, HO. cbn zeta.
  assert (on_files (file_content temporary) (f, v) = ((f, v), Ok x)) as Hread.
  { unfold on_files, file_content, reads. cbn [fst snd]. by rewrite Hf, lookup_insert_eq. }
  rewrite (M_bind_run _ _ _ _ _ Hread). unfold mbind, M_bind, on_service. cbn [fst snd].
  pose proof (PutObject_law (s3_bucket s) (s3_key gz data) x (s3_meta opt data) v) as Hlaw.
  change (if gz then (s3_prefix s +:+ hex_Encode (sha256 data)) +:+ ".gz" else s3_prefix s +:+ hex_Encode (sha256 data))
    with (s3_key gz data).
  fold (s3_meta opt data). rewrite HO in Hlaw.
  destruct (PutObject _ _ _ _ _ v) as [v' [u|e|m]]; cbn; [|split; [by eapply Howned|exact Hlaw]|done].
  split; [by eapply Howned|]. split; [done|exact Hlaw].
Qed.
End Put.

(** ** Keys *)

(** Two dots at the head of a text. *)
Lemma HasPrefix_dots d t :
  HasPrefix (String d t) ".." = Ascii.eqb d "." && match t with String e _ => Ascii.eqb e "." | EmptyString => false end.
Proof.
  unfold HasPrefix. cbn [String.prefix]. destruct (ascii_dec "."%char d) as [<-|Hd].
  - destruct t as [|e t]; [done|]. cbn [String.prefix]. destruct (ascii_dec "."%char e) as [<-|He]; [by destruct t|].
    destruct (Ascii.eqb_spec e "."%char); [congruence|done].
  - destruct (Ascii.eqb_spec d "."%char); [congruence|done].
Qed.

Lemma Contains_app_sep a c b :
  c <> "."%char -> Contains (a +:+ String c b) ".." = Contains a ".." || Contains (String c b) "..".
Proof.
  intros Hc. induction a as [|d a IH]; [by rewrite string_app_nil_l|]. rewrite string_app_cons.
  change (HasPrefix (String d (a +:+ String c b)) ".." || Contains (a +:+ String c b) ".." =
    (HasPrefix (String d a) ".." || Contains a "..") || Contains (String c b) "..").
  rewrite IH, orb_assoc, !HasPrefix_dots. do 2 (apply (f_equal2 orb); [|done]). apply (f_equal2 andb); [done|].
  destruct a as [|e a]; [rewrite string_app_nil_l|by rewrite string_app_cons].
  by destruct (Ascii.eqb_spec c "."%char).
Qed.

Lemma Contains_no_dot a b : no_byte "."%char a -> Contains (a +:+ b) ".." = Contains b "..".
Proof.
  induction a as [|d a IH]; [by rewrite string_app_nil_l|]. intros [Hd Ha]%no_byte_cons. rewrite string_app_cons.
  cbn [Contains]. rewrite IH, HasPrefix_dots by done. by destruct (Ascii.eqb_spec d "."%char).
Qed.

Lemma HasSuffix_app a b : HasSuffix (a +:+ b) b = true.
Proof.
  unfold HasSuffix.
  assert (slen (a +:+ b) = slen a + slen b)%nat as Hlen
    by (by rewrite <- !length_string_bytes, string_bytes_app, length_app).
  rewrite Hlen. apply andb_true_iff. split; [apply Nat.leb_le; lia|].
  replace (slen a + slen b - slen b)%nat with (slen a) by lia.
  replace (slen b) with (slen (a +:+ b) - slen a)%nat by lia. rewrite substring_drop by done.
  unfold str_eqb. by apply bool_decide_true.
Qed.

Section Keys.
Context (sha256 : bytes -> array 32) (gzip : bytes -> bytes) (s : S3Store).

(** The part of a key behind the prefix. *)
Definition s3_name_of (gz : bool) (data : bytes) : string := hex_Encode (sha256 data) +:+ (if gz then ".gz" else "").

Lemma s3_key_split gz data : s3_key sha256 s gz data = s3_prefix s +:+ s3_name_of gz data.
Proof.
  unfold s3_key, s3_name_of. destruct gz; [by rewrite string_app_assoc|]. f_equal.
  induction (hex_Encode (sha256 data)) as [|c t IH]; [done|]. rewrite string_app_cons. by f_equal.
Qed.

Lemma s3_name_shape gz data :
  exists c t, s3_name_of gz data = String c t /\ c <> "."%char /\ Contains (String c t) ".." = false /\
    no_byte "092"%char (String c t).
Proof.
  unfold s3_name_of. pose proof (no_byte_hex "."%char (sha256 data) eq_refl) as Hd.
  pose proof (no_byte_hex "092"%char (sha256 data) eq_refl) as Hb.
  pose proof (slen_hex_Encode (sha256 data)) as Hl. rewrite length_array in Hl.
  assert (Contains (hex_Encode (sha256 data) +:+ (if gz then ".gz" else "")) ".." = false) as Hc
    by (rewrite Contains_no_dot by done; by destruct gz).
  assert (no_byte "092"%char (hex_Encode (sha256 data) +:+ (if gz then ".gz" else ""))) as Hn
    by (apply no_byte_app; [done|by destruct gz]).
  destruct (hex_Encode (sha256 data)) as [|c t]; [by cbn in Hl|]. rewrite string_app_cons in *.
  apply no_byte_cons in Hd as [Hd _]. by exists c, (t +:+ (if gz then ".gz" else "")).
Qed.

(** The store accepts its own references exactly when its prefix has no [..]. *)
Lemma s3_ref_validated opt data :
  s3_validate s (s3_ref sha256 gzip s opt data) = if Contains (s3_prefix s) ".." then Fail ErrInvalidRef else Ok tt.
Proof.
  unfold s3_validate, s3_ref. cbn [ref_Store ref_Key]. rewrite s3_key_split.
  destruct (s3_name_shape (str_eqb (po_Compression opt) CompressionGZIP) data) as (c & t & -> & Hc & Hdots & Hback).
  rewrite HasPrefix_app, TrimPrefix_app, Contains_app_sep, Hdots, Hback by done.
  unfold str_eqb. rewrite bool_decide_true by done. cbn [negb orb]. rewrite bool_decide_false.
  - cbn [orb]. by destruct (Contains (s3_prefix s) "..").
  - destruct (s3_prefix s); [done|]. by rewrite string_app_cons.
Qed.

Lemma s3_ref_valid opt data :
  Contains (s3_prefix s) ".." = false -> s3_validate s (s3_ref sha256 gzip s opt data) = Ok tt.
Proof. intros Hp. by rewrite s3_ref_validated, Hp. Qed.

(** What it stored is recognised as content-addressed by the retention engine. *)
Lemma s3_ref_content_addressed opt data :
  s3_name s <> "" -> sha256 data <> zero_array 32 -> validContentAddressedRef (s3_ref sha256 gzip s opt data) = true.
Proof.
  intros Hn Hz. unfold validContentAddressedRef, s3_ref. cbn [ref_Store ref_Key ref_SHA256].
  unfold str_eqb at 1. rewrite bool_decide_false by done. rewrite (bool_decide_false (sha256 data = _)) by done.
  rewrite s3_key_split. destruct (s3_name_shape (str_eqb (po_Compression opt) CompressionGZIP) data) as (c & t & Hs & _).
  assert (str_eqb (s3_prefix s +:+ s3_name_of (str_eqb (po_Compression opt) CompressionGZIP) data) "" = false) as ->.
  { unfold str_eqb at 1. apply bool_decide_false. rewrite Hs. destruct (s3_prefix s); [done|]. by rewrite string_app_cons. }
  cbn [orb]. unfold s3_name_of. destruct (str_eqb _ _).
  - rewrite HasSuffix_app. apply orb_true_r.
  - assert (forall t, t +:+ "" = t) as Hnil
      by (intros u; induction u as [|d u IH]; [done|]; rewrite string_app_cons; by f_equal).
    rewrite Hnil. by rewrite HasSuffix_app.
Qed.
End Keys.

(** ** What a [Put] leaves behind *)

Section Theorems.
Context {W : Type} `{!S3Client W} (sha256 : bytes -> array 32) (gzip : bytes -> bytes) (s : S3Store).

(** The temporary file is gone, or only its removal failed. *)
Definition cleaned (temporary : list string) (before after : fsw) : Prop :=
  fs_nodes after = fs_nodes before \/ exists x, fs_nodes after = <[temporary := File x]> (fs_nodes before).

(** An upload is complete or absent.  Whichever local or remote call fails,
    and wherever the reader or the context fails, [Put] changes nothing in the
    service but the object named by the prefix and the checksum of the whole input,
    and that object only ever holds the complete stored form of that input; when
    [Put] returns a reference the object is there, and the reference carries its
    checksum and both sizes.  Locally nothing remains but a temporary file whose
    removal failed. *)
Lemma s3_put_atomic (ctx : nat -> option error) (dir : list string) (suffix : string) (r : option reader)
    (opt : PutOptions) (f : fsw) (v : W) :
  let '((f', v'), res) := s3_Put sha256 gzip s ctx dir suffix r opt (f, v) in
  cleaned (s3_temp_path dir suffix) f f' /\
  match res with
  | Ok ref => exists rd, r = Some rd /\ ref = s3_ref sha256 gzip s opt (concat (rd_chunks rd)) /\
      stored v' = uploaded sha256 gzip s opt (concat (rd_chunks rd)) (stored v)
  | Fail _ => stored v' = stored v \/
      exists rd, r = Some rd /\ stored v' = uploaded sha256 gzip s opt (concat (rd_chunks rd)) (stored v)
  | Panic _ => False
  end.
Proof.
  unfold s3_Put. destruct r as [rd|]; [|by split; left]. destruct (_ && _); [by split; left|].
  unfold mbind at 1, M_bind at 1, on_files at 1. cbn [fst snd].
  set (temporary := s3_temp_path dir suffix). pose proof (create_temp_spec dir temporary f) as Hc.
  destruct (create_temp dir temporary f) as [f1 [t|e|m]]; [|by split; left|done].
  destruct Hc as (-> & Hfresh & Hown).
  unfold mbind at 1, M_bind at 1, attempt at 1.
  pose proof (put_body_spec sha256 gzip s temporary (fs_nodes f) (stored v) ctx rd opt (f1, v) (conj Hown eq_refl)) as Hb.
  cbn [fst snd] in Hb. destruct (s3_put_body sha256 gzip s ctx temporary rd opt (f1, v)) as [[f2 v2] res].
  cbn [fst snd] in Hb. destruct Hb as [Howned Hres].
  (* the deferred close and removal *)
  assert (forall w, owned temporary (fs_nodes f) w -> owned temporary (fs_nodes f) (syscall w).1) as Hclose.
  { intros w [x Hx]. pose proof (syscall_owns temporary (fs_nodes f) x w Hx) as H.
    destruct (syscall w) as [w' [u|e|m]]; cbn in H; [by exists x|done|done]. }
  unfold mbind at 1, M_bind at 1, on_files at 1, attempt at 1. cbn [fst snd].
  specialize (Hclose f2 Howned). destruct (syscall f2) as [f3 rclose]. cbn [fst] in Hclose.
  unfold mbind at 1, M_bind at 1, on_files at 1, attempt at 1. cbn [fst snd].
  pose proof (os_Remove_owned temporary (fs_nodes f) Hfresh f3 Hclose) as Hrm.
  destruct (os_Remove temporary f3) as [f4 rm]. cbn [fst snd] in Hrm.
  assert (cleaned temporary f f4) as Hcleaned by (destruct rm; [by left|by right|done]).
  unfold lift. split; [done|]. destruct res as [ref|e|m]; [| |done].
  - destruct Hres as [-> Hst]. by exists rd.
  - destruct Hres as [Hst|Hst]; [by left|]. right. by exists rd.
Qed.

(** Reading never changes what is stored, and an object read is the one stored. *)
Lemma s3_Open_spec (ref : Ref) (v : W) :
  let '(v', r) := s3_Open s ref v in
  stored v' = stored v /\
  match r with
  | Ok body => s3_validate s ref = Ok tt /\ exists options, stored v !! (s3_bucket s, ref_Key ref) = Some (body, options)
  | Fail _ => True
  | Panic _ => False
  end.
Proof.
  unfold s3_Open, lift, mbind, M_bind. destruct (s3_validate s ref) as [[]|e|m] eqn:Hval; [|done|].
  - unfold with_mapError, attempt, mbind, M_bind. pose proof (GetObject_law (s3_bucket s) (ref_Key ref) v) as Hg.
    destruct (GetObject _ _ v) as [v1 [u|e|m]]; destruct Hg as [Hg Hg']; [| |done].
    + cbn. pose proof (StatObject_law (s3_bucket s) (ref_Key ref) v1) as Hs.
      destruct (StatObject _ _ v1) as [v2 [body|e|m]]; destruct Hs as [Hs Hs']; [| |done].
      * cbn. rewrite <- Hg in *. by split.
      * pose proof (CloseObject_law (s3_bucket s) (ref_Key ref) v2) as Hc.
        destruct (CloseObject _ _ v2) as [v3 rc]; destruct Hc as [Hc _]. unfold mapError, fail, lift.
        destruct (ToErrorResponse e) as [status code]. destruct (_ || _); cbn; split; (congruence || done).
    + unfold mapError, fail, lift. destruct (ToErrorResponse e) as [status code]. by destruct (_ || _).
  - unfold s3_validate in Hval. by destruct (_ || _).
Qed.

(** A refused reference reaches neither [Open] nor [Delete]. *)
Lemma s3_refused (ref : Ref) (v : W) : s3_validate s ref = Fail ErrInvalidRef ->
  s3_Open s ref v = (v, Fail ErrInvalidRef) /\ s3_Delete s ref v = (v, Fail ErrInvalidRef).
Proof. intros H. unfold s3_Open, s3_Delete, lift, mbind, M_bind. by rewrite H. Qed.

(** A removal that succeeds removes the object of the reference. *)
Lemma s3_Delete_removes (ref : Ref) (v w : W) : s3_validate s ref = Ok tt -> s3_Delete s ref v = (w, Ok tt) ->
  stored w = delete (s3_bucket s, ref_Key ref) (stored v).
Proof.
  intros Hval Hd. unfold s3_Delete in Hd. rewrite (M_bind_run _ _ v v tt) in Hd by (unfold lift; by rewrite Hval).
  unfold with_mapError, attempt, mbind, M_bind in Hd.
  pose proof (RemoveObject_law (s3_bucket s) (ref_Key ref) v) as Hr.
  destruct (RemoveObject _ _ v) as [w1 [u|e|m]]; [|cbn in Hd|done].
  - cbn in Hd. injection Hd as -> _. exact Hr.
  - unfold mapError, fail, lift in Hd. destruct (ToErrorResponse e) as [status code]. by destruct (_ || _).
Qed.

(** A name [New] gives is never empty. *)
Lemma New_S3Store_name client bucket prefix name : New_S3Store client bucket prefix name = Ok s -> s3_name s <> "".
Proof.
  unfold New_S3Store. destruct (_ || _); [done|]. cbv zeta. intros <-%Ok_inj. cbn [s3_name].
  unfold str_eqb. by destruct (bool_decide_reflect (name = "")) as [->|Hne].
Qed.

(** C33.  What was put is what is read, with any store [New] makes.  A successful
    [Put] returns a reference with the checksum of the input which the retention
    engine recognises as content-addressed (for an input whose checksum is not all
    zeros).  When the store's prefix does not contain two dots, the store accepts the
    reference, and whatever was uploaded since under other keys, [Open] can only yield
    the stored form of the input; after a successful [Delete] nothing is read under
    the reference any more, and every other object is untouched.  When the prefix
    does contain them, which [New] does not check, the store refuses its own
    reference: [Open] and [Delete] fail without a request, and the object stays. *)
Theorem s3_roundtrip (client : bool) (bucket prefix name : string)
    (ctx : nat -> option error) (dir : list string) (suffix : string) (rd : reader)
    (opt : PutOptions) (f f' : fsw) (v v' later : W) (ref : Ref) :
  let data := concat (rd_chunks rd) in
  let id := (s3_bucket s, ref_Key ref) in
  New_S3Store client bucket prefix name = Ok s -> sha256 data <> zero_array 32 ->
  s3_Put sha256 gzip s ctx dir suffix (Some rd) opt (f, v) = ((f', v'), Ok ref) ->
  stored later !! id = stored v' !! id ->
  validContentAddressedRef ref = true /\ ref_SHA256 ref = sha256 data /\
  if Contains (s3_prefix s) ".."
  then s3_Open s ref later = (later, Fail ErrInvalidRef) /\ s3_Delete s ref later = (later, Fail ErrInvalidRef) /\
       is_Some (stored later !! id)
  else s3_validate s ref = Ok tt /\
       (forall w body, s3_Open s ref later = (w, Ok body) ->
          body = stored_form gzip (str_eqb (po_Compression opt) CompressionGZIP) data /\
          ref_StoredSize ref = Z.of_nat (length body)) /\
       (forall w, s3_Delete s ref later = (w, Ok tt) ->
          stored w = delete id (stored later) /\ forall w' body, s3_Open s ref w <> (w', Ok body)).
Proof.
  intros data id Hs%New_S3Store_name Hz Hput Hlater. pose proof (s3_put_atomic ctx dir suffix (Some rd) opt f v) as Hspec.
  rewrite Hput in Hspec. destruct Hspec as [_ (rd' & [= <-] & -> & Hst)]. fold data in Hst, id, Hlater |- *.
  assert (stored later !! id = Some (stored_form gzip (str_eqb (po_Compression opt) CompressionGZIP) data, s3_meta sha256 opt data)) as Hobj.
  { rewrite Hlater, Hst. apply lookup_insert_eq. }
  split; [by apply s3_ref_content_addressed|]. split; [done|].
  pose proof (s3_ref_validated sha256 gzip s opt data) as Hval. destruct (Contains (s3_prefix s) "..").
  { destruct (s3_refused _ later Hval). by rewrite Hobj. }
  split; [done|]. split.
  - intros w body Ho. pose proof (s3_Open_spec (s3_ref sha256 gzip s opt data) later) as Hopen. rewrite Ho in Hopen.
    destruct Hopen as [_ [_ [options Hl]]]. change (stored later !! id = Some (body, options)) in Hl. rewrite Hobj in Hl. injection Hl as <- _. done.
  - intros w Hd%s3_Delete_removes; [|done]. split; [done|]. intros w' body Ho.
    pose proof (s3_Open_spec (s3_ref sha256 gzip s opt data) w) as Hopen.
    rewrite Ho in Hopen. destruct Hopen as [_ [_ [options Hl]]]. rewrite Hd in Hl. by rewrite lookup_delete_eq in Hl.
Qed.
End Theorems.

(** ** Who can reach which key *)

(** A reference the store accepts names a key under its prefix. *)
Lemma s3_validate_prefix s ref : s3_validate s ref = Ok tt -> HasPrefix (ref_Key ref) (s3_prefix s) = true /\ ref_Store ref = s3_name s.
Proof.
  unfold s3_validate, str_eqb. destruct (bool_decide_reflect (ref_Store ref = s3_name s)); [|done].
  destruct (bool_decide _); [done|]. destruct (HasPrefix _ _); [|done]. done.
Qed.

Lemma HasPrefix_spec t p : HasPrefix t p = true -> exists u, t = p +:+ u.
Proof.
  unfold HasPrefix. revert t. induction p as [|c p IH]; intros t H; [by exists t|].
  destruct t as [|d t]; [done|]. cbn [String.prefix] in H. destruct (ascii_dec c d) as [<-|]; [|done].
  destruct (IH t H) as [u ->]. by exists u.
Qed.

Lemma HasPrefix_comparable t p q :
  HasPrefix t p = true -> HasPrefix t q = true -> HasPrefix p q = true \/ HasPrefix q p = true.
Proof.
  unfold HasPrefix. revert p q. induction t as [|c t IH]; intros [|d p] [|e q]; cbn [String.prefix]; try (by auto).
  destruct (ascii_dec d c) as [->|]; [|done]. destruct (ascii_dec e c) as [->|]; [|done].
  destruct (ascii_dec c c); [|done]. apply IH.
Qed.

(** ** A service in memory *)

Record mem_service := mkMemService { ms_objects : s3_objects; ms_faults : list (option error) }.

(** A request: it fails with the next injected fault, if that is one. *)
Definition mem_request {A} (answer : s3_objects -> s3_objects * result A) : M mem_service A := fun w =>
  match ms_faults w with
  | Some e :: faults => (mkMemService (ms_objects w) faults, Fail e)
  | faults => let '(objects, r) := answer (ms_objects w) in (mkMemService objects (tail faults), r)
  end.

Definition NoSuchKey : error := sentinel "The specified key does not exist.".

Definition mem_get (o : s3_objects) (id : string * string) : result bytes :=
  match o !! id with Some (body, _) => Ok body | None => Fail NoSuchKey end.

#[global] Program Instance mem_client : S3Client mem_service := {
  stored := ms_objects;
  BucketExists _ := mem_request (fun o : s3_objects => (o, Ok true));
  MakeBucket _ := mem_request (fun o : s3_objects => (o, Ok tt));
  PutObject bucket key body _ options := mem_request (fun o : s3_objects => (<[(bucket, key) := (body, options)]> o, Ok tt));
  GetObject _ _ := mem_request (fun o : s3_objects => (o, Ok tt));
  StatObject bucket key := mem_request (fun o : s3_objects => (o, mem_get o (bucket, key)));
  CloseObject _ _ := mem_request (fun o : s3_objects => (o, Ok tt));
  RemoveObject bucket key := mem_request (fun o : s3_objects => (delete (bucket, key) o, Ok tt));
  ToErrorResponse e := if errors_Is e NoSuchKey then (404, "NoSuchKey") else (500, "InternalError")
}.
Next Obligation. intros. unfold mem_request. destruct (ms_faults w) as [|[e|] faults]; cbn; auto. Qed.
Next Obligation. intros. unfold mem_request. destruct (ms_faults w) as [|[e|] faults]; cbn; auto. Qed.
Next Obligation.
  intros. unfold mem_request. destruct (ms_faults w) as [|[e|] faults]; cbn; auto;
    unfold mem_get; destruct (ms_objects w !! (bucket, key)) as [[body options]|]; eauto.
Qed.
Next Obligation. intros. unfold mem_request. destruct (ms_faults w) as [|[e|] faults]; cbn; auto. Qed.
Next Obligation. intros. unfold mem_request. destruct (ms_faults w) as [|[e|] faults]; cbn; auto. Qed.
Next Obligation. intros. unfold mem_request. destruct (ms_faults w) as [|[e|] faults]; cbn; auto. Qed.
Next Obligation. intros. unfold mem_request. destruct (ms_faults w) as [|[e|] faults]; cbn; auto. Qed.

(** ** Concrete runs *)

Definition s3_demo : S3Store := match New_S3Store true "trail" " /payloads/ " "" with Ok s => s | _ => mkS3Store "" "" "" end.

Example s3_demo_store : s3_demo = mkS3Store "trail" "payloads/" "s3".
Proof. vm_compute. reflexivity. Qed.

(** A checksum that is not zero. *)
Definition demo_sum (data : bytes) : array 32 :=
  default (zero_array 32) (to_array 32 (take 32 (("001"%char :: data) ++ replicate 32 zero_byte))).

Definition tmp_only : fsw := mkFsw (<[["tmp"] := Dir]> ∅) [].
Definition s3_demo_options : PutOptions := mkPutOptions "text/plain" CompressionNone time_zero "".
Definition s3_demo_put : (fsw * mem_service) * result Ref :=
  s3_Put demo_sum id s3_demo (fun _ => None) ["tmp"] "1" (Some (mkReader [string_bytes "hel"; string_bytes "lo"] None))
    s3_demo_options (tmp_only, mkMemService ∅ []).
Definition s3_demo_ref : Ref := match s3_demo_put.2 with Ok ref => ref | _ => Ref_zero end.

Lemma s3_demo_put_ok : s3_demo_put = ((s3_demo_put.1.1, s3_demo_put.1.2), Ok s3_demo_ref).
Proof. vm_cast_no_check (eq_refl s3_demo_put). Qed.
Lemma s3_demo_opens : s3_Open s3_demo s3_demo_ref s3_demo_put.1.2 = (s3_demo_put.1.2, Ok (string_bytes "hello")).
Proof. vm_cast_no_check (eq_refl (s3_demo_put.1.2, Ok (string_bytes "hello") : result bytes)). Qed.
Lemma s3_demo_sum : demo_sum (string_bytes "hello") <> zero_array 32.
Proof. intros H. apply (f_equal array_bytes) in H. vm_compute in H. discriminate H. Qed.

Example s3_roundtrip_witness :
  s3_Open s3_demo s3_demo_ref s3_demo_put.1.2 = (s3_demo_put.1.2, Ok (string_bytes "hello")) /\
  validContentAddressedRef s3_demo_ref = true /\
  forall w body, s3_Open s3_demo s3_demo_ref s3_demo_put.1.2 = (w, Ok body) ->
    body = string_bytes "hello" /\ ref_StoredSize s3_demo_ref = Z.of_nat (length body).
Proof.
  split; [exact s3_demo_opens|].
  destruct (s3_roundtrip demo_sum id s3_demo true "trail" " /payloads/ " "" (fun _ => None) ["tmp"] "1"
    (mkReader [string_bytes "hel"; string_bytes "lo"] None) s3_demo_options tmp_only s3_demo_put.1.1
    (mkMemService ∅ []) s3_demo_put.1.2 s3_demo_put.1.2 s3_demo_ref) as (H2 & _ & H4).
  - vm_compute. reflexivity.
  - exact s3_demo_sum.
  - exact s3_demo_put_ok.
  - reflexivity.
  - change (Contains (s3_prefix s3_demo) "..") with false in H4. split; [exact H2|exact (proj1 (proj2 H4))].
Defined.

(** A store whose prefix contains two dots stores objects it then refuses. *)
Example s3_dotted_prefix_refuses_its_own :
  let s := mkS3Store "trail" "a..b/" "s3" in
  New_S3Store true "trail" "a..b" "" = Ok s /\
  forall (data : bytes) (v : mem_service),
    s3_Open s (s3_ref demo_sum id s s3_demo_options data) v = (v, Fail ErrInvalidRef).
Proof.
  cbn zeta. split; [vm_compute; reflexivity|]. intros data v. unfold s3_Open, lift, mbind, M_bind.
  assert (s3_validate (mkS3Store "trail" "a..b/" "s3") (s3_ref demo_sum id (mkS3Store "trail" "a..b/" "s3") s3_demo_options data)
          = Fail ErrInvalidRef) as ->; [|done].
  unfold s3_validate, s3_ref. cbn [ref_Store ref_Key s3_name s3_prefix]. rewrite s3_key_split. cbn [s3_prefix].
  destruct (s3_name_shape demo_sum (str_eqb (po_Compression s3_demo_options) CompressionGZIP) data) as (c & t & -> & Hc & _).
  rewrite Contains_app_sep by done. rewrite HasPrefix_app.
  change (Contains "a..b/" "..") with true. cbn [orb]. by rewrite orb_true_r.
Qed.
