(* ===== verification/PayloadStores.v ===== *)
(** * The filesystem payload store keeps the archive's contract

    [Archive] relies on [StoreContract]; here the filesystem store discharges it, for
    every failure of the calls below it, and [Restore] is followed from the files of
    an archive back into the files of the active stores. *)

From S2P Require Import Prelude Ids Events GoLib GoText Wire Payload Storage Archive Retention FileStore FileStoreProofs Json JsonText GoTime LinkJson ArchiveJson ArchiveRestore S3Store S3StoreProofs.

(** ** Object names *)

(** The name both stores give to content with the checksum [sum]. *)
Definition object_key (gz : bool) (sum : array 32) : string := hex_Encode sum +:+ (if gz then ".gz" else "").

(** Whether a reference is to compressed content. *)
Definition is_gz (ref : Ref) : bool := str_eqb (ref_Compression ref) CompressionGZIP.

Lemma no_byte_in b s : no_byte b s -> ~ In b (string_bytes s).
Proof. induction s as [|c s IH]; [by intros _ []|]. intros [Hc Hs]%no_byte_cons [H|H]; [done|by apply IH]. Qed.

Lemma object_key_suffix pre pre' gz gz' sum sum' :
  pre +:+ object_key gz sum = pre' +:+ object_key gz' sum' -> gz = gz' /\ sum = sum'.
Proof.
  intros H%(f_equal (fun s => rev (string_bytes s))). unfold object_key in H.
  rewrite !string_bytes_app, !rev_app_distr, <- !app_assoc in H.
  assert (forall sum : array 32, exists c l, rev (string_bytes (hex_Encode sum)) = c :: l /\ fromHexChar c <> None) as Hlast.
  { intros x. pose proof (slen_hex_Encode x) as Hl. rewrite length_array, <- length_string_bytes in Hl.
    destruct (rev (string_bytes (hex_Encode x))) as [|c l] eqn:E.
    { apply (f_equal length) in E. rewrite length_rev in E. simpl in E. lia. }
    exists c, l. split; [done|]. intros Hc. apply (no_byte_in c (hex_Encode x) (no_byte_hex c x Hc)).
    apply in_rev. rewrite E. by left. }
  assert (gz = gz') as ->.
  { destruct (Hlast sum) as (c & l & E & Hc), (Hlast sum') as (c' & l' & E' & Hc'). rewrite E, E' in H.
    destruct gz, gz'; try done; simpl in H; injection H as Hz _; [subst c'; by destruct Hc'|subst c; by destruct Hc]. }
  split; [done|]. apply app_inv_head in H. apply app_inj_1 in H as [H _].
  - apply array_eq, hex_Encode_inj. apply (f_equal (@rev _)) in H. rewrite !rev_involutive in H.
    by apply string_bytes_inj.
  - rewrite !length_rev, !length_string_bytes, !slen_hex_Encode, !length_array. done.
Qed.

(** A temporary file is never named like an object. *)
Lemma object_key_not_dot gz sum suffix : object_key gz sum <> String "."%char suffix.
Proof.
  unfold object_key. pose proof (no_byte_hex "."%char sum eq_refl) as Hd. pose proof (slen_hex_Encode sum) as Hl.
  rewrite length_array in Hl. destruct (hex_Encode sum) as [|c h]; [done|]. apply no_byte_cons in Hd as [Hd _].
  rewrite string_app_cons. by intros [= ->].
Qed.

Lemma object_key_plain b gz sum : fromHexChar b = None -> no_byte b ".gz" -> no_byte b (object_key gz sum).
Proof. intros H1 H2. apply no_byte_app; [by apply no_byte_hex|by destruct gz]. Qed.

(** ** The filesystem store *)

Definition EISDIR : error := sentinel "is a directory".

Section Files.
Context (sha256 : bytes -> array 32) (gzip : bytes -> bytes) (gunzip : bytes -> result bytes).
Context (Hgzip : forall data, gunzip (gzip data) = Ok data).
(* what the context answers, how a reader cuts its data, the random part of a name *)
Context (ctx : nat -> option error) (chunks : bytes -> list bytes) (suffix : fsw -> string).
Context (Hchunks : forall data, concat (chunks data) = data).

(** The store behind [payload.Store]; a directory cannot be read. *)
Definition file_payload_store (s : FileStore) : PayloadStore fsw :=
  mkPayloadStore _
    (fun data opts w => Put sha256 gzip s ctx (suffix w) (Some (mkReader (chunks data) None)) opts w)
    (fun ref => n ← Open s (ctx 0%nat) ref; match n with File content => mret content | Dir => fail EISDIR end)
    (fun ref => Delete s (ctx 0%nat) ref).

(** No directory is named like an object, and renaming reports no existing file. *)
Definition files_ok (w : fsw) : Prop :=
  faults_ok w /\ forall dir gz sum, fs_nodes w !! (dir ++ [object_key gz sum]) <> Some Dir.

Definition file_issued (s : FileStore) (ref : Ref) : Prop :=
  ref_Store ref = fst_name s /\ ref_Key ref = object_key (is_gz ref) (ref_SHA256 ref).

(** The file of a reference holds content of its checksum. *)
Definition file_present (s : FileStore) (ref : Ref) (w : fsw) : Prop :=
  exists data, fs_nodes w !! (fst_root s ++ [ref_Key ref]) = Some (File (stored_form gzip (is_gz ref) data)) /\
    sha256 data = ref_SHA256 ref.

(** What the calls of a store can do to the files: nothing, leave a temporary file,
    or put an object into its place. *)
Inductive file_effect (N : gmap (list string) node) : gmap (list string) node -> Prop :=
| effect_none : file_effect N N
| effect_temp dir name x : file_effect N (<[dir ++ [String "."%char name] := File x]> N)
| effect_object dir gz data : file_effect N (<[dir ++ [object_key gz (sha256 data)] := File (stored_form gzip gz data)]> N).

Lemma effect_no_dir N N' dir gz sum :
  file_effect N N' -> N !! (dir ++ [object_key gz sum]) <> Some Dir -> N' !! (dir ++ [object_key gz sum]) <> Some Dir.
Proof.
  intros [|dir' name x|dir' gz' data] H; [done|..];
    rewrite lookup_insert; by case_decide.
Qed.

Lemma effect_present N N' faults faults' s ref :
  file_effect N N' -> file_issued s ref -> file_present s ref (mkFsw N faults) -> file_present s ref (mkFsw N' faults').
Proof.
  intros [|dir name x|dir gz data] [_ Hkey] (d & Hd & Hs); cbn [fs_nodes] in Hd; [by exists d|..]; rewrite Hkey in Hd.
  - exists d. split; [|done]. cbn [fs_nodes]. rewrite Hkey, lookup_insert_ne; [done|].
    intros [_ [= E]]%app_inj_2; [|done]. by apply (object_key_not_dot (is_gz ref) (ref_SHA256 ref) name).
  - unfold file_present. cbn [fs_nodes]. rewrite Hkey.
    destruct (decide (dir ++ [object_key gz (sha256 data)] = fst_root s ++ [object_key (is_gz ref) (ref_SHA256 ref)])) as [E|E].
    + exists data. rewrite E, lookup_insert_eq. apply app_inj_2 in E as [_ [= E]]; [|done].
      destruct (object_key_suffix "" "" gz (is_gz ref) (sha256 data) (ref_SHA256 ref)) as [-> ->]; [by rewrite E|done].
    + exists d. by rewrite lookup_insert_ne.
Qed.

(** An effect of any store spares every store. *)
Lemma effect_spares {A} (m : M fsw A) (s : FileStore) :
  keeps_faults m -> (forall w, files_ok w -> file_effect (fs_nodes w) (fs_nodes (m w).1)) ->
  undisturbed files_ok (fun ref w => file_issued s ref /\ file_present s ref w) m.
Proof.
  intros Hk He [N faults] [N' faults'] r Hok H. pose proof (He _ Hok) as E. pose proof (Hk _ (proj1 Hok)) as F.
  rewrite H in E, F. cbn [fs_nodes fst] in E. split.
  - split; [exact F|]. intros dir gz sum. eapply effect_no_dir; [exact E|apply Hok].
  - intros ref [Hi Hp]. split; [done|]. by eapply effect_present.
Qed.

Lemma put_ref_key s opts data :
  ref_Key (put_ref sha256 gzip s opts data) = object_key (str_eqb (po_Compression opts) CompressionGZIP) (sha256 data).
Proof. done. Qed.

Lemma Put_effect s data opts w : files_ok w -> file_effect (fs_nodes w) (fs_nodes (ps_Put (file_payload_store s) data opts w).1).
Proof.
  intros Hok. cbn [ps_Put file_payload_store].
  pose proof (Put_atomic sha256 gzip s ctx (suffix w) (Some (mkReader (chunks data) None)) opts w) as H.
  destruct (Put _ _ _ _ _ _ _ w) as [w' [ref|e|p]] eqn:E; cbn [fst]; [| |done].
  - apply Put_inserts in E; [|apply Hok|rewrite put_ref_key; apply Hok]. rewrite E, put_ref_key. constructor.
  - destruct H as [-> |[x ->]]; [constructor|]. unfold temp_path. rewrite string_app_cons. constructor.
Qed.

Lemma Open_world s ref w : fs_nodes (ps_Open (file_payload_store s) ref w).1 = fs_nodes w.
Proof.
  cbn [ps_Open file_payload_store]. unfold Open, lift, mbind, M_bind. destruct (store_path s ref); [|done|done].
  destruct (ctx 0%nat); [done|]. unfold map_not_exist, attempt, os_Open, node_at, reads, mbind, M_bind.
  pose proof (syscall_spec (fun w' => fs_nodes w' = fs_nodes w) (fun _ _ H => H) w eq_refl) as [H _].
  destruct (syscall w) as [w1 [u|e|p]]; cbn in *; [|done|done].
  destruct (fs_nodes w1 !! _) as [[|]|]; cbn; [done|done|]. done.
Qed.

Lemma issued_path s ref : file_issued s ref -> store_path s ref = Ok (fst_root s ++ [ref_Key ref]).
Proof.
  intros [Hst Hkey]. pose proof (filestore_path s ref) as H. destruct (store_path s ref) as [p|e|p]; [| |done].
  - destruct H as (_ & _ & _ & [(_ & _ & _ & ->)|[[H _]|[H _]]]); [done|..];
      rewrite Hkey in H; exfalso; by eapply object_key_not_dot.
  - exfalso. destruct H as (_ & [H|[H|[H|H]]]); [done|..]; rewrite Hkey in H.
    + unfold object_key in H. pose proof (slen_hex_Encode (ref_SHA256 ref)) as Hl. rewrite length_array in Hl.
      destruct (hex_Encode (ref_SHA256 ref)); [done|]. by rewrite string_app_cons in H.
    + by rewrite (object_key_plain "/"%char) in H.
    + by rewrite (object_key_plain "092"%char) in H.
Qed.

(** What an opened reference of the store reads. *)
Lemma Open_reads s ref w w' stored :
  file_issued s ref -> ps_Open (file_payload_store s) ref w = (w', Ok stored) ->
  fs_nodes w !! (fst_root s ++ [ref_Key ref]) = Some (File stored).
Proof.
  intros Hi. cbn [ps_Open file_payload_store]. unfold Open, lift, mbind, M_bind. rewrite (issued_path s ref Hi).
  destruct (ctx 0%nat); [done|]. unfold map_not_exist, attempt, os_Open, node_at, reads, mbind, M_bind.
  pose proof (syscall_spec (fun w' => fs_nodes w' = fs_nodes w) (fun _ _ H => H) w eq_refl) as [H _].
  destruct (syscall w) as [w1 [u|e|p]]; cbn in *; [|done|done]. rewrite H.
  destruct (fs_nodes w !! _) as [[content|]|]; cbn; [by intros [= _ ->]|done|done].
Qed.

Lemma Put_spares s s' data opts :
  undisturbed files_ok (fun ref w => file_issued s ref /\ file_present s ref w) (ps_Put (file_payload_store s') data opts).
Proof. apply effect_spares; [intros w; apply kf_Put|apply Put_effect]. Qed.

Lemma Open_spares s s' ref :
  undisturbed files_ok (fun ref w => file_issued s ref /\ file_present s ref w) (ps_Open (file_payload_store s') ref).
Proof.
  apply effect_spares; [|intros w _; rewrite Open_world; constructor].
  cbn [ps_Open file_payload_store]. apply kf_bind; [apply kf_Open|]. intros [content|]; [apply kf_ret|apply kf_fail].
Qed.

(** The filesystem store keeps the contract, whatever system calls fail. *)
#[global] Instance file_store_contract (s : FileStore) : StoreContract sha256 gunzip (file_payload_store s).
Proof using Hgzip Hchunks.
  refine {| sc_ok := files_ok; sc_issued := file_issued s; sc_present := file_present s |}.
  - intros data opts w w' ref Hok H. cbn [ps_Put file_payload_store] in H.
    pose proof (Put_atomic sha256 gzip s ctx (suffix w) (Some (mkReader (chunks data) None)) opts w) as Ha. rewrite H in Ha.
    destruct Ha as (rd & [= <-] & -> & _). cbn [rd_chunks]. rewrite Hchunks. done.
  - intros data opts w w' ref ref0 Hok H [_ Hkey] Hsha Hcomp. cbn [ps_Put file_payload_store] in H.
    apply Put_inserts in H; [|apply Hok|rewrite put_ref_key; apply Hok]. cbn [rd_chunks] in H. rewrite Hchunks in H.
    exists data. split; [|done]. rewrite H, put_ref_key, Hkey. unfold is_gz. rewrite Hcomp, Hsha. apply lookup_insert_eq.
  - intros data opts. apply Put_spares.
  - intros ref0. apply Open_spares.
  - intros ref w w' stored Hok Hi (data & Hd & Hs) H. apply Open_reads in H; [|done]. rewrite Hd in H. injection H as <-.
    exists data. split; [|done]. unfold logical, stored_form, is_gz. by destruct (str_eqb _ _).
  - intros ref [_ ->]. by apply object_key_plain.
  - intros ref ref0 w [_ Hk] [_ Hk0] E (data & Hd & Hs). exists data.
    destruct (object_key_suffix "" "" (is_gz ref) (is_gz ref0) (ref_SHA256 ref) (ref_SHA256 ref0)) as [Hg Hsum].
    { by rewrite <- Hk, <- Hk0, E. }
    by rewrite <- E, <- Hg, <- Hsum.
Defined.

(** *** Deletions elsewhere *)

Lemma Delete_world s ref w :
  let nodes := fs_nodes (ps_Delete (file_payload_store s) ref w).1 in
  nodes = fs_nodes w \/ exists p, store_path s ref = Ok p /\ nodes = delete p (fs_nodes w).
Proof.
  cbn [ps_Delete file_payload_store]. unfold Delete, lift, mbind, M_bind. destruct (store_path s ref) as [p|e|m]; [|by left|by left].
  destruct (ctx 0%nat); [by left|]. unfold map_not_exist, attempt, os_Remove, node_at, reads, drop_node, mbind, M_bind.
  pose proof (syscall_spec (fun w' => fs_nodes w' = fs_nodes w) (fun _ _ H => H) w eq_refl) as [H _].
  destruct (syscall w) as [w1 [u|e|m]]; cbn in *; [|by left|by left].
  destruct (fs_nodes w1 !! p) as [[content|]|]; cbn; [|destruct (has_children _ _); cbn; [by left|]|by left];
    right; exists p; by rewrite H.
Qed.

(** A store outside the archive's directory cannot delete from it. *)
Lemma Delete_spares a s ref : ~ fst_root a `prefix_of` fst_root s ->
  undisturbed files_ok (fun ref w => file_issued a ref /\ file_present a ref w) (ps_Delete (file_payload_store s) ref).
Proof.
  intros Hout w w' r Hok H. pose proof (Delete_world s ref w) as Hw. pose proof (kf_Delete s (ctx 0%nat) ref w (proj1 Hok)) as Hf.
  cbn [ps_Delete file_payload_store] in H, Hw. rewrite H in Hw, Hf. cbn [fst] in Hw, Hf.
  assert (forall p, store_path s ref = Ok p -> forall k, p <> fst_root a ++ [k]) as Hp.
  { intros p Hp k ->. pose proof (filestore_path s ref) as Hpath. rewrite Hp in Hpath. apply Hout.
    destruct Hpath as (_ & _ & _ & [(_ & _ & _ & E)|[[_ E]|[_ E]]]).
    - apply app_inj_2 in E as [-> _]; done.
    - rewrite <- E. by apply prefix_app_r.
    - destruct (fst_root s) as [|c root] using rev_ind; [by destruct (fst_root a)|]. rewrite removelast_last in E.
      rewrite <- E, <- app_assoc. by apply prefix_app_r. }
  split.
  - split; [done|]. intros dir gz sum. destruct Hw as [-> |(p & _ & ->)]; [apply Hok|].
    rewrite lookup_delete. case_decide; [done|apply Hok].
  - intros ref0 [Hi (data & Hd & Hs)]. split; [done|]. exists data. split; [|done].
    destruct Hw as [-> |(p & Hpath & ->)]; [done|]. rewrite lookup_delete_ne; [done|]. by apply Hp.
Qed.

(** ** From the archive's files back into the active stores *)

Context (a : FileStore) (files : string -> FileStore) (sources active : gmap string (PayloadStore fsw)).
Abbreviation store name := (file_payload_store (files name)).

(** The services at work on the active stores: uploads, reads and deletions, of which
    any may fail. *)
Inductive service_step (w w' : fsw) : Prop :=
| step_put name data opts r : ps_Put (store name) data opts w = (w', r) -> service_step w w'
| step_open name ref r : ps_Open (store name) ref w = (w', r) -> service_step w w'
| step_delete name ref r : ps_Delete (store name) ref w = (w', r) -> service_step w w'.

Lemma services_later w w' :
  (forall name, ~ fst_root a `prefix_of` fst_root (files name)) -> files_ok w -> rtc service_step w w' ->
  later (file_payload_store a) w w'.
Proof.
  intros Hout Hok H. induction H as [w|w w1 w' Hstep _ IH]; [by split|].
  assert (later (file_payload_store a) w w1) as Hl.
  { destruct Hstep as [name data opts r Hs|name ref r Hs|name ref r Hs].
    - exact (Put_spares a (files name) data opts _ _ _ Hok Hs).
    - exact (Open_spares a (files name) ref _ _ _ Hok Hs).
    - exact (Delete_spares a (files name) ref (Hout name) _ _ _ Hok Hs). }
  eapply later_trans; [exact Hl|apply IH, Hl].
Qed.

(** C14.  Archived events come back with their payloads.  The archive's files and those
    of the active stores lie in one file system of which any system call may fail; the
    archive's directory contains no active store.  After a successful [Write], and
    after whatever the services did to the active stores, deletions included, a
    [Restore] that succeeds has handed exactly the requested slice of the archived
    events, every field of them and in order, to the event store under the archive's
    identifier, and reports that store's count and whether and where the slice ends.
    Before that call every payload the events link to was again a file of its own
    store, under the very key of the link and with content of its checksum.  SHA-256
    and gzip are parameters: decompression undoes compression, and no other text has
    the checksum of the manifest or of the events. *)
Theorem files_restored (now : Z) (events : list EventRecord) (w w1 w2 w3 : fsw) (receipt : Receipt)
    (restore_events : string -> list EventRecord -> M fsw Z) (offset limit : Z) (rr : RestoreResult) :
  (forall name, ~ fst_root a `prefix_of` fst_root (files name)) ->
  (forall name dest, sources !! name = Some dest -> dest = store name) ->
  (forall name dest, active !! name = Some dest -> dest = store name) ->
  files_ok w ->
  Write sha256 gunzip marshal_record marshal_manifest (file_payload_store a) sources now events w = (w1, Ok receipt) ->
  (forall e link, e ∈ events -> link ∈ er_Payloads e -> file_issued (files (ref_Store (pl_Ref link))) (pl_Ref link)) ->
  rtc service_step w1 w2 ->
  readable (rc_Manifest receipt) events -> texts_only sha256 (rc_Manifest receipt) events ->
  Restore sha256 gunzip unmarshal_record unmarshal_manifest (fun _ => None) (file_payload_store a) active restore_events
    receipt offset limit w2 = (w3, Ok rr) ->
  let chunk := take (Z.to_nat limit) (drop (Z.to_nat offset) events) in
  let complete := Z.of_nat (length events) <=? offset + Z.of_nat (length chunk) in
  exists w', restore_events (mf_ID (rc_Manifest receipt)) chunk w' = (w3, Ok (rr_Restored rr)) /\
    rr_Complete rr = complete /\ rr_Next rr = (if complete then 0 else offset + Z.of_nat (length chunk)) /\
    forall e link, e ∈ chunk -> link ∈ er_Payloads e ->
      let ref := pl_Ref link in
      exists data, sha256 data = ref_SHA256 ref /\
        fs_nodes w' !! (fst_root (files (ref_Store ref)) ++ [ref_Key ref]) =
          Some (File (stored_form gzip (is_gz ref) data)).
Proof.
  intros Hout Hsources Hactive Hok Hwrite Hissued Hsteps Hread Htexts Hrun chunk complete.
  assert (forall name source ref, sources !! name = Some source -> spares (file_payload_store a) (ps_Open source ref)) as Hsp
    by (intros name source ref ->%Hsources; apply Open_spares).
  destruct (Write_stored sha256 gunzip marshal_record marshal_manifest (file_payload_store a) sources Hsp _ _ _ _ _ Hok Hwrite)
    as [[Hok1 _] _].
  pose proof (services_later w1 w2 Hout Hok1 Hsteps) as Hl.
  destruct (restore_written sha256 gunzip (file_payload_store a) sources Hsp (fun name => store name)
    (contracts := fun name => file_store_contract (files name)) active Hactive
    (fun name data opts => Put_spares a (files name) data opts) (fun name ref => Open_spares (files name) a ref)
    (fun name name' data opts => Put_spares (files name) (files name') data opts)
    (fun _ => None) now events w w1 w2 w3 receipt restore_events offset limit rr)
    as (w' & Hrestore & _ & Hcomplete & Hnext & Hback); try done; [intros name; apply Hl|].
  exists w'. split_and!; [done|done|done|]. intros e link He Hlink ref. destruct (Hback e link He Hlink) as [_ [_ Hp]].
  destruct Hp as (data & Hd & Hs). by exists data.
Qed.
End Files.

(** ** A concrete round trip *)

(** Runs in which nothing fails: data is read in one piece, compression does nothing. *)
Section Calm_runs.
Context (sum : bytes -> array 32) (s : FileStore).

Definition demo_files : PayloadStore fsw :=
  file_payload_store sum id (fun _ => None) (fun data => [data]) (fun _ => "1") s.

Lemma put_calm N data opts :
  po_Compression opts = CompressionNone \/ po_Compression opts = CompressionGZIP ->
  N !! fst_root s = Some Dir -> N !! temp_path (fst_root s) "1" = None ->
  N !! (fst_root s ++ [ref_Key (put_ref sum id s opts data)]) <> Some Dir ->
  ps_Put demo_files data opts (mkFsw N []) =
    (mkFsw (<[fst_root s ++ [ref_Key (put_ref sum id s opts data)] := File data]> N) [], Ok (put_ref sum id s opts data)).
Proof.
  intros Hc H1 H2 H3. cbn [ps_Put demo_files file_payload_store].
  destruct (filestore_roundtrip sum id s "1" [data] opts N) as [H _]; rewrite ?app_nil_r in *; cbn [concat] in *;
    rewrite ?app_nil_r in *; [done..|].
  rewrite H. unfold stored_form. by destruct (str_eqb _ _).
Qed.

Lemma open_calm N ref content :
  store_path s ref = Ok (fst_root s ++ [ref_Key ref]) -> N !! (fst_root s ++ [ref_Key ref]) = Some (File content) ->
  ps_Open demo_files ref (mkFsw N []) = (mkFsw N [], Ok content).
Proof.
  intros Hp HN. cbn [ps_Open demo_files file_payload_store].
  rewrite (M_bind_run _ _ _ (mkFsw N []) (File content)); [done|].
  rewrite <- (insert_id N _ _ HN). by apply Open_at.
Qed.
End Calm_runs.

Definition files_link : PayloadLink :=
  mkPayloadLink "request" (mkRef "filesystem" (object_key false (sum_of 1)) "" 2 2 (sum_of 1) "" time_zero "") 0 0 false "".
Definition files_events : list EventRecord := [demo_record 1 [files_link]; demo_record 2 []].
Definition archive_files : FileStore := mkFileStore ["archive"] "filesystem".
Definition active_files (_ : string) : FileStore := mkFileStore ["payloads"] "filesystem".
Definition demo_map (sum : bytes -> array 32) : gmap string (PayloadStore fsw) :=
  {["filesystem" := demo_files sum (active_files "")]}.

(** The archived files, the events' and the manifest's texts. *)
Definition files_data : bytes := Eval vm_compute in text_of (event_data marshal_record files_events).
Definition files_manifest : Manifest :=
  mkManifest ArchiveVersion (hex_Encode (sum_of 2)) 7 2 ((fun e => String_ (er_ID e)) <$> files_events)
    (mkRef "filesystem" (object_key true (sum_of 2)) "application/x-ndjson" (Z.of_nat (length files_data))
       (Z.of_nat (length files_data)) (sum_of 2) CompressionGZIP time_zero "")
    [mkPayloadEntry (pl_Ref files_link) (pl_Ref files_link)].
Definition files_mdata : bytes := Eval vm_compute in text_of (marshal_manifest files_manifest).
Definition files_sum : bytes -> array 32 := known_sum [files_mdata; files_data; string_bytes "{}"].
Definition files_receipt : Receipt := mkReceipt files_manifest
  (mkRef "filesystem" (object_key false (sum_of 3)) "application/vnd.trail.archive-manifest+json" (Z.of_nat (length files_mdata))
     (Z.of_nat (length files_mdata)) (sum_of 3) CompressionNone time_zero "").

Abbreviation nodes := (gmap (list string) node).
Definition payload_path : list string := ["payloads"; object_key false (sum_of 1)].
Definition dirs : nodes := <[["payloads"] := Dir]> (<[["archive"] := Dir]> ∅).
Definition before : nodes := <[payload_path := File (string_bytes "{}")]> dirs.
Definition archived (N : nodes) : nodes :=
  <[["archive"; object_key false (sum_of 3)] := File files_mdata]>
    (<[["archive"; object_key false (sum_of 1)] := File (string_bytes "{}")]>
       (<[["archive"; object_key true (sum_of 2)] := File files_data]> N)).

Lemma sum_data : files_sum files_data = sum_of 2.
Proof. vm_compute. reflexivity. Qed.
Lemma sum_mdata : files_sum files_mdata = sum_of 3.
Proof. vm_compute. reflexivity. Qed.
Lemma sum_payload : files_sum (string_bytes "{}") = sum_of 1.
Proof. vm_compute. reflexivity. Qed.
Lemma data_text : event_data marshal_record files_events = Ok files_data.
Proof. vm_compute. reflexivity. Qed.
Lemma mdata_text : marshal_manifest files_manifest = Ok files_mdata.
Proof. vm_compute. reflexivity. Qed.
Lemma mdata_read : unmarshal_manifest files_mdata = Ok files_manifest.
Proof. vm_compute. reflexivity. Qed.

(** Looks a path up in a known file system. *)
Ltac find_path :=
  cbn [fst_root archive_files active_files app ref_Key];
  repeat first [ rewrite lookup_insert_eq | rewrite lookup_insert_ne by (vm_compute; discriminate)
               | rewrite lookup_delete_ne by (vm_compute; discriminate) ];
  try reflexivity.

Lemma put_files s data opts sum N :
  files_sum data = sum -> po_Compression opts = CompressionNone \/ po_Compression opts = CompressionGZIP ->
  fst_name s = "filesystem" ->
  let key := object_key (str_eqb (po_Compression opts) CompressionGZIP) sum in
  N !! fst_root s = Some Dir -> N !! (fst_root s ++ [".trail-payload-1"]) = None -> N !! (fst_root s ++ [key]) <> Some Dir ->
  ps_Put (demo_files files_sum s) data opts (mkFsw N []) =
    (mkFsw (<[fst_root s ++ [key] := File data]> N) [],
     Ok (mkRef "filesystem" key (po_ContentType opts) (Z.of_nat (length data)) (Z.of_nat (length data)) sum
           (po_Compression opts) (po_RetainUntil opts) (po_RetentionClass opts))).
Proof.
  intros Hs Hc Hn key H1 H2 H3. assert (ref_Key (put_ref files_sum id s opts data) = key) as Hk
    by (rewrite put_ref_key, Hs; reflexivity).
  rewrite put_calm; rewrite ?Hk; [|done..]. f_equal. f_equal. unfold put_ref. rewrite Hs, Hn. unfold stored_form.
  by destruct (str_eqb _ _).
Qed.


Lemma open_files s ref content N :
  file_issued s ref -> N !! (fst_root s ++ [ref_Key ref]) = Some (File content) ->
  ps_Open (demo_files files_sum s) ref (mkFsw N []) = (mkFsw N [], Ok content).
Proof. intros Hi HN. apply open_calm; [by apply issued_path|done]. Qed.

Lemma link_issued : file_issued (active_files "") (pl_Ref files_link).
Proof. by split. Qed.

(** The payload goes from the active store into the archive, and back. *)
Lemma files_copied (N : nodes) :
  N !! payload_path = Some (File (string_bytes "{}")) -> N !! ["archive"] = Some Dir ->
  N !! ["archive"; ".trail-payload-1"] = None -> N !! ["archive"; object_key false (sum_of 1)] <> Some Dir ->
  archive_payload Ok (demo_files files_sum archive_files) (demo_map files_sum) files_link (mkFsw N []) =
    (mkFsw (<[["archive"; object_key false (sum_of 1)] := File (string_bytes "{}")]> N) [],
     Ok (mkPayloadEntry (pl_Ref files_link) (pl_Ref files_link))).
Proof.
  intros H1 H2 H3 H4. unfold archive_payload. change (ref_Store (pl_Ref files_link)) with "filesystem". unfold demo_map.
  rewrite lookup_singleton_eq.
  rewrite (M_bind_run _ _ _ _ _ (open_files (active_files "") _ _ N link_issued H1)).
  rewrite (M_bind_run _ _ _ (mkFsw N []) (string_bytes "{}")) by done.
  erewrite M_bind_run by (apply (put_files archive_files _ _ (sum_of 1) N sum_payload); [by left|done|done|done|done]).
  cbn [ref_SHA256 ref_Size]. rewrite bool_decide_eq_true_2 by done. done.
Qed.

Lemma files_written :
  Write files_sum Ok marshal_record marshal_manifest (demo_files files_sum archive_files) (demo_map files_sum) 7 files_events
    (mkFsw before []) = (mkFsw (archived before) [], Ok files_receipt).
Proof.
  unfold Write. cbn [Nat.eqb length files_events].
  rewrite (M_bind_run _ _ _ (mkFsw before []) files_data) by (unfold lift; fold files_events; by rewrite data_text).
  erewrite M_bind_run by (apply (put_files archive_files files_data _ (sum_of 2) _ sum_data); [by right|done|by find_path..]).
  cbn [fst_root archive_files app po_Compression po_ContentType po_RetainUntil po_RetentionClass].
  erewrite (M_bind_run _ _ _ _ ({[payloadKey (pl_Ref files_link)]} ∪ ∅, [mkPayloadEntry (pl_Ref files_link) (pl_Ref files_link)])).
  2: { replace (concat _) with [files_link] by reflexivity. cbn [foldM].
       erewrite M_bind_run; [reflexivity|]. unfold archive_step. rewrite decide_False by set_solver.
       erewrite M_bind_run by (apply files_copied; by find_path). reflexivity. }
  rewrite sum_data.
  match goal with |- context [mkManifest ?a ?b ?c ?d ?e ?f ?g] => change (mkManifest a b c d e f g) with files_manifest end.
  erewrite M_bind_run by (unfold lift; by rewrite mdata_text).
  erewrite M_bind_run by (apply (put_files archive_files files_mdata _ (sum_of 3) _ sum_mdata); [by left|done|by find_path..]).
  erewrite M_bind_run by (apply (open_files archive_files _ files_mdata); [by split|by find_path]).
  rewrite take_ge by lia. rewrite bool_decide_eq_true_2 by done. reflexivity.
Qed.

(** The active store deletes the payload. *)
Definition deleted : nodes := delete payload_path (archived before).

Lemma files_deleted :
  ps_Delete (demo_files files_sum (active_files "")) (pl_Ref files_link) (mkFsw (archived before) []) = (mkFsw deleted [], Ok tt).
Proof.
  assert (archived before !! payload_path = Some (File (string_bytes "{}"))) as Hin by (unfold archived; by find_path).
  unfold deleted. rewrite <- (insert_id _ _ _ Hin) at 1.
  apply (Delete_at (active_files "") (pl_Ref files_link) payload_path (issued_path _ _ link_issued)).
Qed.

Lemma deleted_none : deleted !! payload_path = None.
Proof. apply lookup_delete_eq. Qed.

Definition files_result : RestoreResult := mkRestoreResult (hex_Encode (sum_of 2)) 2 0 true.
Definition count_events (_ : string) (events : list EventRecord) : M fsw Z := mret (Z.of_nat (length events)).

Lemma files_readable : readable files_manifest files_events.
Proof. apply readable_texts; [by_evaluation|by_evaluation|vm_compute; reflexivity|vm_compute; reflexivity]. Qed.

Lemma events_read : read_loop unmarshal_record (fun _ => None) 0 10 (scan_lines files_data) 0 [] = Ok (2%nat, files_events).
Proof.
  destruct (readable_lines _ _ files_readable) as [lines Hl].
  pose proof (event_data_lines _ _ _ _ Hl) as Hd. rewrite data_text in Hd. apply Ok_inj in Hd as ->.
  rewrite scan_lines_data by (clear -Hl; induction Hl as [|e l es ls (_ & H & _) _ IH]; by constructor).
  rewrite (read_loop_data unmarshal_record (fun _ => None) (fun _ => eq_refl) 0 10 files_events lines);
    [reflexivity| |lia|lia|simpl; lia].
  eapply Forall2_impl; [exact Hl|]. by intros e l (_ & _ & ? & ?).
Qed.

Lemma files_restore_run :
  Restore files_sum Ok unmarshal_record unmarshal_manifest (fun _ => None) (demo_files files_sum archive_files) (demo_map files_sum)
    count_events files_receipt 0 10 (mkFsw deleted []) =
  (mkFsw (<[payload_path := File (string_bytes "{}")]> deleted) [], Ok files_result).
Proof.
  unfold Restore.
  rewrite (M_bind_run _ _ _ (mkFsw deleted []) files_manifest).
  2: { unfold ReadManifest. erewrite M_bind_run by (apply (open_files archive_files _ files_mdata); [by split|by find_path]).
       rewrite take_ge by (apply Nat2Z.inj_le; rewrite Z2Nat.id by done; vm_compute; discriminate).
       rewrite bool_decide_eq_true_2 by apply sum_mdata. cbn [negb].
       rewrite (M_bind_run _ _ _ (mkFsw deleted []) files_manifest) by (unfold lift; by rewrite mdata_read).
       replace (_ || _) with false by (vm_compute; reflexivity). reflexivity. }
  replace (negb (str_eqb (mf_ID files_manifest) _)) with false by (vm_compute; reflexivity).
  rewrite (M_bind_run _ _ _ (mkFsw deleted []) (files_events, true)).
  2: { unfold ReadEvents. replace (_ || _) with false by reflexivity.
       erewrite M_bind_run by (apply (open_files archive_files _ files_data); [by split|by find_path]).
       rewrite (M_bind_run _ _ _ (mkFsw deleted []) files_data) by (vm_compute; reflexivity).
       erewrite M_bind_run by (unfold lift; by rewrite events_read).
       rewrite bool_decide_eq_true_2 by apply sum_data. reflexivity. }
  erewrite (M_bind_run _ (foldM _ _ _)).
  2: { cbn [mf_Payloads files_manifest foldM]. erewrite M_bind_run; [reflexivity|]. unfold restore_payload.
       rewrite bool_decide_eq_true_2 by (replace (concat _) with [files_link] by reflexivity; set_solver). cbn [negb].
       change (ref_Store _) with "filesystem". unfold demo_map. rewrite lookup_singleton_eq.
       erewrite M_bind_run by (apply (open_files archive_files _ (string_bytes "{}")); [by split|by find_path]).
       rewrite (M_bind_run _ _ _ (mkFsw deleted []) (string_bytes "{}")) by done.
       erewrite M_bind_run by (apply (put_files (active_files "") _ _ (sum_of 1) _ sum_payload); [by left|done|by find_path|by find_path|change (deleted !! payload_path <> Some Dir); by rewrite deleted_none]).
       cbn [ref_SHA256 ref_Size pl_Ref files_link pe_Source]. rewrite bool_decide_eq_true_2 by done. reflexivity. }
  reflexivity.
Qed.

Lemma object_name_not_dir gz sum : object_key gz sum <> "payloads" /\ object_key gz sum <> "archive".
Proof.
  pose proof (object_key_plain "p"%char gz sum eq_refl eq_refl) as Hp. pose proof (object_key_plain "h"%char gz sum eq_refl eq_refl) as Hh.
  by split; intros E; rewrite E in *.
Qed.

Lemma before_ok : files_ok (mkFsw before []).
Proof.
  split; [constructor|]. intros dir gz sum. destruct (object_name_not_dir gz sum) as [H1 H2].
  unfold before, dirs. cbn [fs_nodes]. rewrite !lookup_insert.
  repeat case_decide; try done; intros _; (destruct dir as [|d dir]; [|by destruct dir]); naive_solver.
Qed.

Example files_restored_witness :
  deleted !! payload_path = None /\
  exists data w', files_sum data = sum_of 1 /\ fs_nodes w' !! payload_path = Some (File data).
Proof.
  split; [exact deleted_none|].
  destruct (files_restored files_sum id Ok (fun _ => eq_refl) (fun _ => None) (fun data => [data]) (fun _ => "1")
    (fun data => app_nil_r data) archive_files active_files (demo_map files_sum) (demo_map files_sum) 7 files_events
    (mkFsw before []) (mkFsw (archived before) []) (mkFsw deleted []) (mkFsw (<[payload_path := File (string_bytes "{}")]> deleted) [])
    files_receipt count_events 0 10 files_result) as (w' & _ & _ & _ & Hback).
  - intros name [l Hl]. discriminate Hl.
  - intros name dest Hl. unfold demo_map in Hl. apply lookup_singleton_Some in Hl as [_ <-]. reflexivity.
  - intros name dest Hl. unfold demo_map in Hl. apply lookup_singleton_Some in Hl as [_ <-]. reflexivity.
  - exact before_ok.
  - exact files_written.
  - intros e link He Hlink. unfold files_events in He. apply elem_of_cons in He as [->|He].
    + cbn in Hlink. apply list_elem_of_singleton in Hlink as ->. exact link_issued.
    + apply list_elem_of_singleton in He as ->. by apply elem_of_nil in Hlink.
  - eapply rtc_once, (step_delete _ _ _ _ _ _ _ _ "" (pl_Ref files_link)). exact files_deleted.
  - exact files_readable.
  - apply texts_only_known; [exact mdata_text|exact data_text|cbn; lia|vm_compute; reflexivity].
  - exact files_restore_run.
  - destruct (Hback (demo_record 1 [files_link]) files_link) as (data & Hs & Hf); [apply list_elem_of_here|apply list_elem_of_here|].
    exists data, w'. split; [exact Hs|exact Hf].
Defined.
