(* ===== verification/S3Contract.v ===== *)
(** * The S3 payload store keeps the archive's contract

    The laws of the client library are enough for the contract of [Archive], so that
    archives on S3 are read back and restored like those in files; a store apart from
    the archive's prefix cannot delete from it. *)

From S2P Require Import Prelude Ids Events GoLib GoText Wire Payload Storage Archive Retention FileStore FileStoreProofs Json JsonText GoTime LinkJson ArchiveJson ArchiveRestore S3Store S3StoreProofs PayloadStores.

Section Service.
Context {W : Type} `{!S3Client W} (sha256 : bytes -> array 32) (gzip : bytes -> bytes) (gunzip : bytes -> result bytes).
Context (Hgzip : forall data, gunzip (gzip data) = Ok data).
(* as for files; [dir] is the directory of temporary files *)
Context (ctx : nat -> option error) (chunks : bytes -> list bytes) (dir : list string) (suffix : fsw * W -> string).
Context (Hchunks : forall data, concat (chunks data) = data).

(** The store behind [payload.Store]. *)
Definition s3_payload_store (s : S3Store) : PayloadStore (fsw * W) :=
  mkPayloadStore _
    (fun data opts w => s3_Put sha256 gzip s ctx dir (suffix w) (Some (mkReader (chunks data) None)) opts w)
    (fun ref => on_service (s3_Open s ref))
    (fun ref => on_service (s3_Delete s ref)).

Definition s3_issued (s : S3Store) (ref : Ref) : Prop :=
  ref_Store ref = s3_name s /\ ref_Key ref = s3_prefix s +:+ object_key (is_gz ref) (ref_SHA256 ref).

Definition s3_present (s : S3Store) (ref : Ref) (w : fsw * W) : Prop :=
  exists data options, stored w.2 !! (s3_bucket s, ref_Key ref) = Some (stored_form gzip (is_gz ref) data, options) /\
    sha256 data = ref_SHA256 ref.

Definition s3_ok (_ : fsw * W) : Prop := True.

(** What [Put] does to the objects. *)
Lemma s3_Put_objects s data opts w :
  let '(w', r) := ps_Put (s3_payload_store s) data opts w in
  match r with
  | Ok ref => ref = s3_ref sha256 gzip s opts data /\ stored w'.2 = uploaded sha256 gzip s opts data (stored w.2)
  | _ => stored w'.2 = stored w.2 \/ stored w'.2 = uploaded sha256 gzip s opts data (stored w.2)
  end.
Proof.
  destruct w as [f v]. cbn [ps_Put s3_payload_store].
  pose proof (s3_put_atomic sha256 gzip s ctx dir (suffix (f, v)) (Some (mkReader (chunks data) None)) opts f v) as H.
  destruct (s3_Put _ _ _ _ _ _ _ _ (f, v)) as [[f' v'] [ref|e|m]]; cbn [fst snd] in *; [| |by destruct H].
  - destruct H as (_ & rd & [= <-] & -> & Hst). cbn [rd_chunks] in *. by rewrite Hchunks in *.
  - destruct H as (_ & [Hst|(rd & [= <-] & Hst)]); [by left|]. right. cbn [rd_chunks] in Hst. by rewrite Hchunks in Hst.
Qed.

Lemma s3_ref_key s opts data :
  ref_Key (s3_ref sha256 gzip s opts data) =
    s3_prefix s +:+ object_key (str_eqb (po_Compression opts) CompressionGZIP) (sha256 data).
Proof. apply s3_key_split. Qed.

Lemma uploaded_present s s' ref opts data w w' :
  s3_issued s ref -> s3_present s ref w -> stored w'.2 = uploaded sha256 gzip s' opts data (stored w.2) -> s3_present s ref w'.
Proof.
  intros [_ Hk] (d & options & Hd & Hs) Hst. unfold s3_present. rewrite Hst, Hk in *. unfold uploaded.
  rewrite s3_key_split. rewrite lookup_insert. case_decide as E; [|by exists d, options].
  injection E as _ E. destruct (object_key_suffix _ _ _ _ _ _ E) as [Hg Hsum].
  exists data, (s3_meta sha256 opts data). by rewrite Hg, Hsum.
Qed.

(** An upload of any store leaves the objects of every store in place. *)
Lemma s3_Put_spares s s' data opts :
  undisturbed s3_ok (fun ref w => s3_issued s ref /\ s3_present s ref w) (ps_Put (s3_payload_store s') data opts).
Proof.
  intros w w' r _ H. split; [done|]. intros ref [Hi Hp]. split; [done|].
  pose proof (s3_Put_objects s' data opts w) as Ho. rewrite H in Ho.
  assert (stored w'.2 = stored w.2 \/ stored w'.2 = uploaded sha256 gzip s' opts data (stored w.2)) as [E|E]
    by (destruct r; [right; apply Ho|exact Ho|exact Ho]).
  - unfold s3_present. by rewrite E.
  - by eapply uploaded_present.
Qed.

Lemma s3_Open_spares s s' ref0 :
  undisturbed s3_ok (fun ref w => s3_issued s ref /\ s3_present s ref w) (ps_Open (s3_payload_store s') ref0).
Proof.
  intros [f v] w' r _ H. split; [done|]. intros ref [Hi Hp]. split; [done|].
  cbn [ps_Open s3_payload_store] in H. unfold on_service in H. cbn [fst snd] in H.
  pose proof (s3_Open_spec s' ref0 v) as Ho. destruct (s3_Open s' ref0 v) as [v' r']. injection H as <- <-.
  unfold s3_present in *. cbn [snd] in *. by rewrite (proj1 Ho).
Qed.

#[global] Instance s3_store_contract (s : S3Store) (Hplain : no_byte zero_byte (s3_prefix s)) :
  StoreContract sha256 gunzip (s3_payload_store s).
Proof using Hgzip Hchunks.
  refine {| sc_ok := s3_ok; sc_issued := s3_issued s; sc_present := s3_present s |}.
  - intros data opts w w' ref _ H. pose proof (s3_Put_objects s data opts w) as Ho. rewrite H in Ho. destruct Ho as [-> _].
    split_and!; [done..|]. split; [done|]. apply s3_ref_key.
  - intros data opts w w' ref ref0 _ H [_ Hkey] Hsha Hcomp. pose proof (s3_Put_objects s data opts w) as Ho. rewrite H in Ho.
    destruct Ho as [_ Hst]. exists data, (s3_meta sha256 opts data). split; [|done].
    rewrite Hst, Hkey. unfold uploaded, is_gz. rewrite s3_key_split, Hcomp, Hsha. apply lookup_insert_eq.
  - intros data opts. apply s3_Put_spares.
  - intros ref0. apply s3_Open_spares.
  - intros ref [f v] w' body _ Hi (data & options & Hd & Hs) H. cbn [ps_Open s3_payload_store] in H. unfold on_service in H.
    cbn [fst snd] in *. pose proof (s3_Open_spec s ref v) as Ho. destruct (s3_Open s ref v) as [v' r']. injection H as <- ->.
    destruct Ho as (_ & _ & options' & Hb). rewrite Hd in Hb. injection Hb as <- _.
    exists data. split; [|done]. unfold logical, stored_form, is_gz. by destruct (str_eqb _ _).
  - intros ref [_ ->]. apply no_byte_app; [done|by apply object_key_plain].
  - intros ref ref0 w [_ Hk] [_ Hk0] E (data & options & Hd & Hs). exists data, options.
    rewrite Hk, Hk0 in E. destruct (object_key_suffix _ _ _ _ _ _ E) as [Hg Hsum].
    rewrite <- Hg, <- Hsum. split; [|done]. rewrite Hk0, <- E, <- Hk. done.
Defined.

(** ** Deletions elsewhere *)

(** Another bucket, or prefixes of which none extends the other. *)
Definition s3_apart (a s : S3Store) : Prop :=
  s3_bucket a <> s3_bucket s \/
  (HasPrefix (s3_prefix a) (s3_prefix s) = false /\ HasPrefix (s3_prefix s) (s3_prefix a) = false).

Lemma s3_Delete_objects s ref v :
  let v' := (s3_Delete s ref v).1 in
  stored v' = stored v \/
  (HasPrefix (ref_Key ref) (s3_prefix s) = true /\ stored v' = delete (s3_bucket s, ref_Key ref) (stored v)).
Proof.
  unfold s3_Delete, lift, mbind, M_bind. destruct (s3_validate s ref) as [[]|e|m] eqn:Hval; [|by left|by left].
  unfold with_mapError, attempt, mbind, M_bind. pose proof (RemoveObject_law (s3_bucket s) (ref_Key ref) v) as Hr.
  pose proof (proj1 (s3_validate_prefix s ref Hval)) as Hp.
  destruct (RemoveObject _ _ v) as [v1 [u|e|m]]; [by right| |done]. unfold mapError, fail, lift.
  destruct (ToErrorResponse e) as [status code]. destruct (_ || _); cbn; destruct Hr as [-> | ->]; auto.
Qed.

Lemma s3_Delete_spares a s ref0 : s3_apart a s ->
  undisturbed s3_ok (fun ref w => s3_issued a ref /\ s3_present a ref w) (ps_Delete (s3_payload_store s) ref0).
Proof.
  intros Hapart [f v] w' r _ H. split; [done|]. intros ref [Hi Hp]. split; [done|].
  cbn [ps_Delete s3_payload_store] in H. unfold on_service in H. cbn [fst snd] in H.
  pose proof (s3_Delete_objects s ref0 v) as Ho. destruct (s3_Delete s ref0 v) as [v' r']. injection H as <- <-.
  unfold s3_present in *. cbn [fst snd] in *. destruct Ho as [-> |[Hpre ->]]; [done|].
  rewrite lookup_delete_ne; [done|]. intros [= Hb Hk]. destruct Hapart as [Hb'|[H1 H2]]; [congruence|].
  destruct Hi as [_ Hkey]. rewrite Hk, Hkey in Hpre.
  destruct (HasPrefix_comparable _ _ _ (HasPrefix_app (s3_prefix a) (object_key (is_gz ref) (ref_SHA256 ref))) Hpre); congruence.
Qed.

(** ** From an archive on S3 back into the active stores *)

Context (a : S3Store) (objects : string -> S3Store) (sources active : gmap string (PayloadStore (fsw * W))).
Context (Ha : no_byte zero_byte (s3_prefix a)) (Hobjects : forall name, no_byte zero_byte (s3_prefix (objects name))).
Abbreviation s3 name := (s3_payload_store (objects name)).

Inductive s3_step (w w' : fsw * W) : Prop :=
| s3_step_put name data opts r : ps_Put (s3 name) data opts w = (w', r) -> s3_step w w'
| s3_step_open name ref r : ps_Open (s3 name) ref w = (w', r) -> s3_step w w'
| s3_step_delete name ref r : ps_Delete (s3 name) ref w = (w', r) -> s3_step w w'.

Lemma s3_services_later w w' :
  (forall name, s3_apart a (objects name)) -> rtc s3_step w w' ->
  later (StoreContract0 := s3_store_contract a Ha) (s3_payload_store a) w w'.
Proof.
  intros Hapart H. induction H as [w|w w1 w' Hstep _ IH]; [by split|].
  eapply later_trans; [|exact IH]. destruct Hstep as [name data opts r Hs|name ref r Hs|name ref r Hs].
  - exact (s3_Put_spares a (objects name) data opts _ _ _ I Hs).
  - exact (s3_Open_spares a (objects name) ref _ _ _ I Hs).
  - exact (s3_Delete_spares a (objects name) ref (Hapart name) _ _ _ I Hs).
Qed.

(** The same round trip as in files: whatever the services did to the active stores
    of a shared service, a successful [Restore] finds the archived events and has put
    every payload of theirs back under its own key. *)
Lemma s3_restored (now : Z) (events : list EventRecord) (w w1 w2 w3 : fsw * W) (receipt : Receipt)
    (restore_events : string -> list EventRecord -> M (fsw * W) Z) (offset limit : Z) (rr : RestoreResult) :
  (forall name, s3_apart a (objects name)) ->
  (forall name dest, sources !! name = Some dest -> dest = s3 name) ->
  (forall name dest, active !! name = Some dest -> dest = s3 name) ->
  Write sha256 gunzip marshal_record marshal_manifest (s3_payload_store a) sources now events w = (w1, Ok receipt) ->
  (forall e link, e ∈ events -> link ∈ er_Payloads e -> s3_issued (objects (ref_Store (pl_Ref link))) (pl_Ref link)) ->
  rtc s3_step w1 w2 ->
  readable (rc_Manifest receipt) events -> texts_only sha256 (rc_Manifest receipt) events ->
  Restore sha256 gunzip unmarshal_record unmarshal_manifest (fun _ => None) (s3_payload_store a) active restore_events
    receipt offset limit w2 = (w3, Ok rr) ->
  let chunk := take (Z.to_nat limit) (drop (Z.to_nat offset) events) in
  exists w', restore_events (mf_ID (rc_Manifest receipt)) chunk w' = (w3, Ok (rr_Restored rr)) /\
    rr_Complete rr = (Z.of_nat (length events) <=? offset + Z.of_nat (length chunk)) /\
    forall e link, e ∈ chunk -> link ∈ er_Payloads e -> s3_present (objects (ref_Store (pl_Ref link))) (pl_Ref link) w'.
Proof.
  intros Hapart Hsources Hactive Hwrite Hissued Hsteps Hread Htexts Hrun chunk.
  assert (forall name source ref, sources !! name = Some source ->
    undisturbed s3_ok (fun ref w => s3_issued a ref /\ s3_present a ref w) (ps_Open source ref)) as Hsp
    by (intros name source ref ->%Hsources; apply s3_Open_spares).
  destruct (restore_written sha256 gunzip (s3_payload_store a) sources (StoreContract0 := s3_store_contract a Ha) Hsp (fun name => s3 name)
    (contracts := fun name => s3_store_contract (objects name) (Hobjects name)) active Hactive
    (fun name data opts => s3_Put_spares a (objects name) data opts) (fun name ref => s3_Open_spares (objects name) a ref)
    (fun name name' data opts => s3_Put_spares (objects name) (objects name') data opts)
    (fun _ => None) now events w w1 w2 w3 receipt restore_events offset limit rr)
    as (w' & Hrestore & _ & Hcomplete & _ & Hback); try done; [by apply s3_services_later|].
  exists w'. split_and!; [done|done|]. intros e link He Hlink. by destruct (Hback e link He Hlink) as [_ [_ Hp]].
Qed.
End Service.
