(* ===== verification/Schema.v ===== *)
(** * Schema statements

    What the stores' migrations mean: the statements of the two SQL dialects are cut
    into words, read as schema changes and carried out on a catalogue of tables,
    indexes, projections and views.  Only the forms the migrations use are read;
    anything else is refused. *)

From S2P Require Import Prelude Events GoLib.

(** ** Words *)

Definition is_word (c : byte) : bool :=
  let z := byte_Z c in
  ((48 <=? z) && (z <=? 57)) || ((65 <=? z) && (z <=? 90)) || ((97 <=? z) && (z <=? 122)) || (z =? 95).
Definition is_blank (c : byte) : bool := byte_Z c <=? 32.

Definition word (cur : bytes) (rest : list string) : list string :=
  match cur with [] => rest | _ => bytes_string (rev cur) :: rest end.

(** Words of letters, digits and underscores; a quoted text is one word, any other
    visible character is a word of its own. *)
Fixpoint lex (quoted : bool) (cur : bytes) (l : bytes) : list string :=
  match l with
  | [] => word cur []
  | c :: l =>
      if quoted then
        if Ascii.eqb c "'" then word (c :: cur) (lex false [] l) else lex true (c :: cur) l
      else if Ascii.eqb c "'" then word cur (lex true [c] l)
      else if is_word c then lex false (c :: cur) l
      else if is_blank c then word cur (lex false [] l)
      else word cur (bytes_string [c] :: lex false [] l)
  end.

Definition words (s : string) : list string := lex false [] (string_bytes s).

(** ** Statements *)

(** The words up to the matching closing parenthesis, and what follows it. *)
Fixpoint group_from (depth : nat) (l : list string) : option (list string * list string) :=
  match l with
  | [] => None
  | w :: l =>
      if str_eqb w ")" then
        match depth with
        | O => Some ([], l)
        | S depth => '(inside, rest) ← group_from depth l; Some (w :: inside, rest)
        end
      else
        '(inside, rest) ← group_from (if str_eqb w "(" then S depth else depth) l; Some (w :: inside, rest)
  end.

(** Cut at the commas outside parentheses. *)
Fixpoint items_from (depth : nat) (cur : list string) (l : list string) : list (list string) :=
  match l with
  | [] => [rev cur]
  | w :: l =>
      if str_eqb w "(" then items_from (S depth) (w :: cur) l
      else if str_eqb w ")" then items_from (pred depth) (w :: cur) l
      else if str_eqb w "," && Nat.eqb depth 0 then rev cur :: items_from depth [] l
      else items_from depth (w :: cur) l
  end.
Definition items (l : list string) : list (list string) := items_from 0 [] l.

Record column := mkColumn { col_name : string; col_type : list string }.

#[global] Instance column_eq_dec : EqDecision column.
Proof. solve_decision. Defined.

Inductive ddl :=
| CreateTable (table : string) (columns : list column) (projections : list string)
| AddColumn (table : string) (c : column)
| AddProjection (table name : string) (over : list string)
| ModifySetting (table : string)
| CreateIndex (name table : string) (over : list string)
| CreateView (name target source : string) (selects : list string).

Definition is_clause (item : list string) : bool :=
  match item with w :: _ => str_eqb w "PRIMARY" || str_eqb w "PROJECTION" | [] => true end.

Definition columns_of (l : list (list string)) : list column :=
  omap (fun item => if is_clause item then None
                    else match item with name :: type => Some (mkColumn name type) | [] => None end) l.

Definition projections_of (l : list (list string)) : list string :=
  omap (fun item => match item with
                    | "PROJECTION"%string :: name :: _ => Some name
                    | _ => None
                    end) l.

(** The names in the keys of an index, without [DESC]. *)
Definition names_of (l : list (list string)) : list string := omap (fun item => head item) l.

(** The words after [FROM]. *)
Fixpoint after_from (l : list string) : option string :=
  match l with
  | "FROM"%string :: source :: _ => Some source
  | _ :: l => after_from l
  | [] => None
  end.

(** The name a view's column gets: the last word, behind [AS] or alone. *)
Definition output_names (l : list (list string)) : list string := omap last l.

Fixpoint before_from (l : list string) : list string :=
  match l with
  | "FROM"%string :: _ | [] => []
  | w :: l => w :: before_from l
  end.

(** The keys of [ORDER BY ( ... )]. *)
Fixpoint order_by (l : list string) : list string :=
  match l with
  | "ORDER"%string :: "BY"%string :: "("%string :: l =>
      match group_from 0 l with Some (keys, _) => names_of (items keys) | None => [] end
  | _ :: l => order_by l
  | [] => []
  end.

Definition parse_ddl (s : string) : option ddl :=
  match words s with
  | "CREATE"%string :: "TABLE"%string :: "IF"%string :: "NOT"%string :: "EXISTS"%string :: table :: "("%string :: l =>
      '(inside, _) ← group_from 0 l;
      Some (CreateTable table (columns_of (items inside)) (projections_of (items inside)))
  | "ALTER"%string :: "TABLE"%string :: table :: "ADD"%string :: "COLUMN"%string :: "IF"%string :: "NOT"%string ::
      "EXISTS"%string :: name :: type => Some (AddColumn table (mkColumn name type))
  | "ALTER"%string :: "TABLE"%string :: table :: "ADD"%string :: "PROJECTION"%string :: "IF"%string :: "NOT"%string ::
      "EXISTS"%string :: name :: l => Some (AddProjection table name (order_by l))
  | "ALTER"%string :: "TABLE"%string :: table :: "MODIFY"%string :: "SETTING"%string :: _ => Some (ModifySetting table)
  | "CREATE"%string :: "INDEX"%string :: "IF"%string :: "NOT"%string :: "EXISTS"%string :: name :: "ON"%string :: table ::
      "("%string :: l => '(inside, _) ← group_from 0 l; Some (CreateIndex name table (names_of (items inside)))
  | "CREATE"%string :: "MATERIALIZED"%string :: "VIEW"%string :: "IF"%string :: "NOT"%string :: "EXISTS"%string :: name ::
      "TO"%string :: target :: "AS"%string :: "SELECT"%string :: l =>
      source ← after_from l; Some (CreateView name target source (output_names (items (before_from l))))
  | _ => None
  end.

(** The columns an INSERT names, in order. *)
Definition insert_columns (sql : string) : list string :=
  match words sql with
  | "INSERT"%string :: "INTO"%string :: _ :: "("%string :: l =>
      match group_from 0 l with Some (names, _) => names_of (items names) | None => [] end
  | _ => []
  end.

(** The table it writes. *)
Definition insert_table (sql : string) : option string :=
  match words sql with
  | "INSERT"%string :: "INTO"%string :: table :: _ => Some table
  | _ => None
  end.

(** Machine integers, decidably. *)
Definition in_ub (w z : Z) : bool := (0 <=? z) && (z <? 2 ^ w).
Definition in_sb (w z : Z) : bool := (- 2 ^ (w - 1) <=? z) && (z <? 2 ^ (w - 1)).

(** ** Catalogues *)

(** Tables with their columns, projections by table, indexes and views, each in the
    order of creation. *)
Record catalogue := mkCatalogue {
  ct_tables : list (string * list column);
  ct_projections : list (string * string);
  ct_indexes : list string;
  ct_views : list string
}.

Definition empty_catalogue : catalogue := mkCatalogue [] [] [] [].

Fixpoint find_table (table : string) (l : list (string * list column)) : option (list column) :=
  match l with
  | [] => None
  | (t, columns) :: l => if str_eqb t table then Some columns else find_table table l
  end.

Fixpoint find_column (name : string) (l : list column) : option (list string) :=
  match l with
  | [] => None
  | col :: l => if str_eqb (col_name col) name then Some (col_type col) else find_column name l
  end.

Definition has_column (columns : list column) (name : string) : bool :=
  match find_column name columns with Some _ => true | None => false end.

(** Every name is a column of the table. *)
Definition has_columns (columns : list column) (names : list string) : bool := forallb (has_column columns) names.

Definition mem (name : string) (l : list string) : bool := existsb (str_eqb name) l.
Definition mem_projection (table name : string) (l : list (string * string)) : bool :=
  existsb (fun p => str_eqb table p.1 && str_eqb name p.2) l.

#[local] Arguments mem : simpl never.
#[local] Arguments mem_projection : simpl never.

(** The columns of a table an INSERT of these columns leaves to their defaults. *)
Definition unnamed (c : catalogue) (table : string) (names : list string) : option (list column) :=
  columns ← find_table table (ct_tables c);
  Some (List.filter (fun col => negb (mem (col_name col) names)) columns).

(** A name is recorded once. *)
Definition add_name (name : string) (l : list string) : list string := if mem name l then l else l ++ [name].
#[local] Arguments add_name : simpl never.

Fixpoint add_column (table : string) (col : column) (l : list (string * list column)) : list (string * list column) :=
  match l with
  | [] => []
  | (t, columns) :: l => if str_eqb t table then (t, columns ++ [col]) :: l else (t, columns) :: add_column table col l
  end.

(** Carrying out a change; [None] is an error of the server.  [IF NOT EXISTS] leaves
    what exists as it is. *)
Definition exec_ddl (c : catalogue) (d : ddl) : option catalogue :=
  match d with
  | CreateTable table columns projections =>
      match find_table table (ct_tables c) with
      | Some _ => Some c
      | None => Some (mkCatalogue (ct_tables c ++ [(table, columns)])
                        (ct_projections c ++ map (pair table) projections) (ct_indexes c) (ct_views c))
      end
  | AddColumn table col =>
      columns ← find_table table (ct_tables c);
      if has_column columns (col_name col) then Some c
      else Some (mkCatalogue (add_column table col (ct_tables c)) (ct_projections c) (ct_indexes c) (ct_views c))
  | AddProjection table name over =>
      columns ← find_table table (ct_tables c);
      if mem_projection table name (ct_projections c) then Some c
      else if has_columns columns over
      then Some (mkCatalogue (ct_tables c) (ct_projections c ++ [(table, name)]) (ct_indexes c) (ct_views c))
      else None
  | ModifySetting table => _ ← find_table table (ct_tables c); Some c
  | CreateIndex name table over =>
      columns ← find_table table (ct_tables c);
      if has_columns columns over
      then Some (mkCatalogue (ct_tables c) (ct_projections c) (add_name name (ct_indexes c)) (ct_views c))
      else None
  | CreateView name target source selects =>
      columns ← find_table target (ct_tables c);
      _ ← find_table source (ct_tables c);
      if has_columns columns selects
      then Some (mkCatalogue (ct_tables c) (ct_projections c) (ct_indexes c) (add_name name (ct_views c)))
      else None
  end.

(** A statement on a server whose catalogue is [c]. *)
Definition exec_sql (c : catalogue) (statement : string) : option catalogue := d ← parse_ddl statement; exec_ddl c d.

Fixpoint exec_all (c : catalogue) (statements : list string) : option catalogue :=
  match statements with
  | [] => Some c
  | s :: statements => c' ← exec_sql c s; exec_all c' statements
  end.

Lemma exec_all_app c l1 l2 : exec_all c (l1 ++ l2) = c' ← exec_all c l1; exec_all c' l2.
Proof. revert c. induction l1 as [|s l1 IH]; intros c; [done|]. cbn. destruct (exec_sql c s); [apply IH|done]. Qed.

Definition isSome {A} (o : option A) : bool := match o with Some _ => true | None => false end.

Lemma isSome_true {A} (o : option A) : isSome o = true -> is_Some o.
Proof. by destruct o. Qed.

(** ** Growth

    No statement removes anything, so what a statement asked for stays. *)

Definition table_has (c : catalogue) (table name : string) : bool :=
  match find_table table (ct_tables c) with Some columns => has_column columns name | None => false end.

Record grows (c c' : catalogue) : Prop := mkGrows {
  grows_tables : forall table, is_Some (find_table table (ct_tables c)) -> is_Some (find_table table (ct_tables c'));
  grows_columns : forall table name, table_has c table name = true -> table_has c' table name = true;
  grows_projections : forall table name,
    mem_projection table name (ct_projections c) = true -> mem_projection table name (ct_projections c') = true;
  grows_indexes : forall name, mem name (ct_indexes c) = true -> mem name (ct_indexes c') = true;
  grows_views : forall name, mem name (ct_views c) = true -> mem name (ct_views c') = true
}.

#[global] Instance grows_refl : Reflexive grows.
Proof. by split. Qed.

#[global] Instance grows_trans : Transitive grows.
Proof. intros c1 c2 c3 [] []. split; eauto. Qed.

Lemma find_table_app table l1 l2 :
  find_table table (l1 ++ l2) = match find_table table l1 with Some columns => Some columns | None => find_table table l2 end.
Proof. induction l1 as [|[t columns] l1 IH]; [done|]. cbn. by destruct (str_eqb t table). Qed.

Lemma find_column_app name l1 l2 :
  find_column name (l1 ++ l2) = match find_column name l1 with Some type => Some type | None => find_column name l2 end.
Proof. induction l1 as [|col l1 IH]; [done|]. cbn. by destruct (str_eqb (col_name col) name). Qed.

Lemma find_add_column table col t l :
  find_table t (add_column table col l) =
  (fun columns => if str_eqb t table then columns ++ [col] else columns) <$> find_table t l.
Proof.
  induction l as [|[t' columns] l IH]; [done|]. cbn.
  destruct (str_eqb t' table) eqn:E; cbn; destruct (str_eqb t' t) eqn:E'; cbn; try apply IH; try done.
  - apply str_eqb_true in E as ->, E' as ->. by rewrite str_eqb_refl.
  - destruct (str_eqb t table) eqn:E2; [|by destruct (find_table t l)].
    apply str_eqb_true in E as ->, E2 as ->. by rewrite str_eqb_refl in E'.
  - apply str_eqb_true in E' as ->. by rewrite E.
Qed.

Lemma has_column_app name l1 l2 : has_column l1 name = true -> has_column (l1 ++ l2) name = true.
Proof. unfold has_column. rewrite find_column_app. by destruct (find_column name l1). Qed.

Lemma mem_add name other l : mem name l = true -> mem name (add_name other l) = true.
Proof. unfold add_name. destruct (mem other l); [done|]. unfold mem. rewrite existsb_app. by intros ->. Qed.

Lemma mem_added name l : mem name (add_name name l) = true.
Proof.
  unfold add_name. destruct (mem name l) eqn:E; [done|]. unfold mem. rewrite existsb_app. cbn.
  rewrite str_eqb_refl. by rewrite orb_true_r.
Qed.

Lemma exec_grows c d c' : exec_ddl c d = Some c' -> grows c c'.
Proof.
  destruct d as [table columns projections|table col|table name over|table|name table over|name target source selects];
    cbn [exec_ddl]; intros H.
  - destruct (find_table table (ct_tables c)) eqn:E; injection H as <-; [done|].
    split; cbn; try done; unfold table_has; cbn; intros t.
    + rewrite find_table_app. by destruct (find_table t (ct_tables c)).
    + intros name. rewrite find_table_app. by destruct (find_table t (ct_tables c)).
    + intros name Hp. unfold mem_projection in *. rewrite existsb_app. by rewrite Hp.
  - destruct (find_table table (ct_tables c)) as [columns|] eqn:E; [|done]. cbn in H.
    destruct (has_column columns (col_name col)); injection H as <-; [done|].
    split; cbn; try done; unfold table_has; cbn; intros t.
    + rewrite find_add_column. destruct (find_table t (ct_tables c)); [done|]. by intros [? ?].
    + intros name. rewrite find_add_column. destruct (find_table t (ct_tables c)); [|done]. cbn.
      destruct (str_eqb t table); [apply has_column_app|done].
  - destruct (find_table table (ct_tables c)) as [columns|]; [|done]. cbn in H.
    destruct (mem_projection table name (ct_projections c)); [by injection H as <-|].
    destruct (has_columns columns over); [|done]. injection H as <-. split; cbn; try done.
    intros t n Hp. unfold mem_projection in *. rewrite existsb_app. by rewrite Hp.
  - destruct (find_table table (ct_tables c)); [|done]. by injection H as <-.
  - destruct (find_table table (ct_tables c)) as [columns|]; [|done]. cbn in H.
    destruct (has_columns columns over); [|done]. injection H as <-. split; cbn; try done. intros n. apply mem_add.
  - destruct (find_table target (ct_tables c)) as [columns|]; [|done]. cbn in H.
    destruct (find_table source (ct_tables c)); [|done]. cbn in H.
    destruct (has_columns columns selects); [|done]. injection H as <-. split; cbn; try done. intros n. apply mem_add.
Qed.

(** What a statement asks for is there. *)
Definition satisfied (c : catalogue) (d : ddl) : Prop :=
  match d with
  | CreateTable table _ _ | ModifySetting table => is_Some (find_table table (ct_tables c))
  | AddColumn table col => table_has c table (col_name col) = true
  | AddProjection table name _ =>
      is_Some (find_table table (ct_tables c)) /\ mem_projection table name (ct_projections c) = true
  | CreateIndex name table over =>
      is_Some (find_table table (ct_tables c)) /\ forallb (table_has c table) over = true /\ mem name (ct_indexes c) = true
  | CreateView name target source selects =>
      is_Some (find_table target (ct_tables c)) /\ is_Some (find_table source (ct_tables c)) /\
      forallb (table_has c target) selects = true /\ mem name (ct_views c) = true
  end.

Lemma satisfied_grows c c' d : grows c c' -> satisfied c d -> satisfied c' d.
Proof.
  intros [Ht Hc Hp Hi Hv].
  assert (forall table names, forallb (table_has c table) names = true -> forallb (table_has c' table) names = true) as Hall
    by (intros table names; rewrite !forallb_forall; eauto).
  destruct d; cbn; naive_solver.
Qed.

Lemma exec_satisfies c d c' : exec_ddl c d = Some c' -> satisfied c' d.
Proof.
  intros H. pose proof (exec_grows c d c' H) as Hgrows. revert H.
  destruct d as [table columns projections|table col|table name over|table|name table over|name target source selects];
    cbn [exec_ddl satisfied].
  - destruct (find_table table (ct_tables c)) eqn:E; intros [= <-]; [by rewrite E|]. cbn.
    rewrite find_table_app, E. cbn. by rewrite str_eqb_refl.
  - destruct (find_table table (ct_tables c)) as [columns|] eqn:E; [|done]. cbn.
    destruct (has_column columns (col_name col)) eqn:Ec; intros [= <-]; unfold table_has; [by rewrite E|]. cbn.
    rewrite find_add_column, E. cbn. rewrite str_eqb_refl. unfold has_column in *. rewrite find_column_app.
    destruct (find_column (col_name col) columns); [done|]. cbn. by rewrite str_eqb_refl.
  - destruct (find_table table (ct_tables c)) as [columns|] eqn:E; [|done]. cbn.
    destruct (mem_projection table name (ct_projections c)) eqn:Ep; [intros [= <-]; by rewrite E|].
    destruct (has_columns columns over); [|done]. intros [= <-]. cbn. rewrite E. split; [done|].
    unfold mem_projection. rewrite existsb_app. cbn. by rewrite !str_eqb_refl, orb_true_r.
  - destruct (find_table table (ct_tables c)) eqn:E; [|done]. cbn. intros [= <-]. by rewrite E.
  - destruct (find_table table (ct_tables c)) as [columns|] eqn:E; [|done]. cbn.
    destruct (has_columns columns over) eqn:Ec; [|done]. intros [= <-]. cbn. rewrite E, mem_added. split_and!; [done| |done].
    unfold table_has. cbn. by rewrite E.
  - destruct (find_table target (ct_tables c)) as [columns|] eqn:E; [|done]. cbn.
    destruct (find_table source (ct_tables c)) eqn:E'; [|done]. cbn.
    destruct (has_columns columns selects) eqn:Ec; [|done]. intros [= <-]. cbn. rewrite E, E', mem_added.
    split_and!; [done|done| |done]. unfold table_has. cbn. by rewrite E.
Qed.

(** A statement whose work is there changes nothing. *)
Lemma exec_satisfied c d : satisfied c d -> exec_ddl c d = Some c.
Proof.
  assert (forall name l, mem name l = true -> add_name name l = l) as Hadd by (intros name l Hm; unfold add_name; by rewrite Hm).
  assert (forall table columns names, find_table table (ct_tables c) = Some columns ->
          forallb (table_has c table) names = true -> has_columns columns names = true) as Hall.
  { intros table columns names E H. unfold has_columns, table_has in *. by rewrite E in H. }
  destruct c as [tables projections indexes views].
  destruct d as [table columns ps|table col|table name over|table|name table over|name target source selects];
    cbn [exec_ddl satisfied].
  - intros [? Ht]. by rewrite Ht.
  - unfold table_has. destruct (find_table _ _) as [columns|] eqn:E; [|done]. cbn. by intros ->.
  - intros [[? ->] Hm]. cbn in *. by rewrite Hm.
  - intros [? ->]. done.
  - intros ([columns E] & Hc & Hm). rewrite E. cbn. rewrite (Hall _ _ _ E Hc). cbn in *. by rewrite Hadd.
  - intros ([columns E] & [? E'] & Hc & Hm). rewrite E, E'. cbn. rewrite (Hall _ _ _ E Hc). cbn in *. by rewrite Hadd.
Qed.

Lemma exec_all_grows c l c' : exec_all c l = Some c' -> grows c c'.
Proof.
  revert c. induction l as [|s l IH]; intros c; cbn; [by intros [= <-]|].
  unfold exec_sql. destruct (parse_ddl s) as [d|]; [|done]. cbn. destruct (exec_ddl c d) as [c1|] eqn:E; [|done]. cbn.
  intros H. etrans; [by eapply exec_grows|by apply IH].
Qed.

(** A statement already carried out changes nothing later on. *)
Lemma exec_again c l c' s : exec_all c l = Some c' -> s ∈ l -> exec_sql c' s = Some c'.
Proof.
  intros H Hs. apply list_elem_of_split in Hs as (l1 & l2 & ->). rewrite exec_all_app in H.
  destruct (exec_all c l1) as [c1|]; [|done]. cbn in H. unfold exec_sql in *.
  destruct (parse_ddl s) as [d|]; [|done]. cbn in *. destruct (exec_ddl c1 d) as [c2|] eqn:E; [|done]. cbn in H.
  apply exec_satisfied. eapply satisfied_grows; [by eapply exec_all_grows|by eapply exec_satisfies].
Qed.

(** ** Migrating

    A server that carries out statements and may fail any of them. *)

Record server := mkServer { sv_catalogue : catalogue; sv_faults : list (option error) }.

(** The error of a statement the server refuses. *)
Definition sql_error : error := sentinel "ERROR: statement refused".

Definition server_Exec (statement : string) : M server unit := fun w =>
  match sv_faults w with
  | Some e :: faults => (mkServer (sv_catalogue w) faults, Fail e)
  | faults =>
      match exec_sql (sv_catalogue w) statement with
      | Some c => (mkServer c (tail faults), Ok tt)
      | None => (mkServer (sv_catalogue w) (tail faults), Fail sql_error)
      end
  end.

Section Restart.
Context (statements : list string) (what : string).

(** The loop of [Migrate], at index [i]. *)
Fixpoint migrate_loop (i : nat) (todo : list string) : M server unit := fun w =>
  match todo with
  | [] => (w, Ok tt)
  | statement :: todo =>
      match server_Exec statement w with
      | (w', Fail err) => (w', Fail (Err (err_chain err) (what +:+ " migration " +:+ pretty (S i) +:+ ": " +:+ err_text err)))
      | (w', Ok _) => migrate_loop (S i) todo w'
      | (w', Panic m) => (w', Panic m)
      end
  end.

(** Any number of migrations, whatever fails in them. *)
Fixpoint migrations (n : nat) (w : server) : server :=
  match n with O => w | S n => (migrate_loop 0 statements (migrations n w)).1 end.

Context (c0 : catalogue).

(** The server has carried out a prefix of the statements, at least [low] of them. *)
Definition at_state (low : nat) (w : server) : Prop :=
  exists j, (low <= j <= length statements)%nat /\ exec_all c0 (take j statements) = Some (sv_catalogue w).

Lemma at_state_le low low' w : (low' <= low)%nat -> at_state low w -> at_state low' w.
Proof. intros Hle (j & Hj & Hc). exists j. split; [lia|done]. Qed.

(** Statement [i] on a server that has carried out those before it. *)
Lemma exec_state i s low w c :
  statements !! i = Some s -> at_state low w -> (i <= low)%nat -> exec_sql (sv_catalogue w) s = Some c ->
  forall faults, at_state (Nat.max (S i) low) (mkServer c faults).
Proof.
  intros Hi (j & Hj & Hst) Hlow Hex faults. pose proof (lookup_lt_Some _ _ _ Hi) as Hlt.
  destruct (decide (i = j)) as [<- |Hne].
  - exists (S i). split; [lia|]. rewrite (take_S_r _ _ _ Hi), exec_all_app, Hst. cbn. by rewrite Hex.
  - assert (s ∈ take j statements) as Hin by (eapply list_elem_of_lookup_2; rewrite lookup_take_lt; [exact Hi|lia]).
    rewrite (exec_again _ _ _ _ Hst Hin) in Hex. injection Hex as <-. exists j. split; [lia|done].
Qed.

Lemma server_Exec_state i s low w :
  statements !! i = Some s -> at_state low w -> (i <= low)%nat ->
  let '(w', r) := server_Exec s w in
  match r with Ok _ => at_state (Nat.max (S i) low) w' | Fail _ => at_state low w' | Panic _ => False end.
Proof.
  intros Hi Hst Hlow. pose proof (exec_state i s low w) as Hex. unfold server_Exec.
  destruct (sv_faults w) as [|[e|] faults]; [|exact Hst|];
    destruct (exec_sql (sv_catalogue w) s) as [c|]; cbn; eauto.
Qed.

Lemma drop_cons_lookup i (s : string) todo :
  drop i statements = s :: todo -> statements !! i = Some s /\ drop (S i) statements = todo.
Proof.
  intros Hdrop. split; [by rewrite <- (Nat.add_0_r i), <- lookup_drop, Hdrop|].
  by rewrite <- Nat.add_1_r, <- drop_drop, Hdrop.
Qed.

Lemma migrate_loop_state i todo low w :
  drop i statements = todo -> at_state low w -> (i <= low)%nat ->
  let '(w', r) := migrate_loop i todo w in
  match r with
  | Ok _ => at_state (length statements) w'
  | Fail _ => at_state low w'
  | Panic _ => False
  end.
Proof.
  revert i low w. induction todo as [|s todo IH]; intros i low w Hdrop Hst Hlow; cbn [migrate_loop].
  - assert (length statements <= i)%nat by (apply (f_equal length) in Hdrop; rewrite length_drop in Hdrop; simpl in Hdrop; lia).
    eapply at_state_le, Hst. lia.
  - apply drop_cons_lookup in Hdrop as [Hi Hdrop].
    pose proof (server_Exec_state i s low w Hi Hst Hlow) as Hex. destruct (server_Exec s w) as [w1 [u|e|m]]; [|done|done].
    specialize (IH (S i) (Nat.max (S i) low) w1 Hdrop Hex ltac:(lia)).
    destruct (migrate_loop (S i) todo w1) as [w2 [u2|e|m]]; [done| |done]. eapply at_state_le, IH. lia.
Qed.

Lemma migrations_state n w : sv_catalogue w = c0 -> at_state 0 (migrations n w).
Proof.
  intros Hw. induction n as [|n IH]; [exists 0%nat; cbn; split; [lia|by rewrite Hw]|]. cbn [migrations].
  pose proof (migrate_loop_state 0 statements 0 (migrations n w) eq_refl IH ltac:(lia)) as H.
  destruct (migrate_loop 0 statements (migrations n w)) as [w' [u|e|m]]; cbn; [|done|done].
  eapply at_state_le, H. lia.
Qed.

(** After however many interrupted attempts, an attempt that reports no error ends
    with the complete schema. *)
Lemma migrate_reaches n w w' :
  sv_catalogue w = c0 -> migrate_loop 0 statements (migrations n w) = (w', Ok tt) ->
  exec_all c0 statements = Some (sv_catalogue w').
Proof.
  intros H0 Hrun.
  pose proof (migrate_loop_state 0 statements 0 _ eq_refl (migrations_state n w H0) ltac:(lia)) as H.
  rewrite Hrun in H. destruct H as (j & Hj & Hc). by rewrite take_ge in Hc by lia.
Qed.

(** The statements that follow a prefix all succeed when the whole list does. *)
Lemma exec_next i s low w :
  is_Some (exec_all c0 statements) -> statements !! i = Some s -> at_state low w -> (i <= low)%nat ->
  is_Some (exec_sql (sv_catalogue w) s).
Proof.
  intros [c Hall] Hi (j & Hj & Hst) Hlow. destruct (decide (i = j)) as [<- |Hne].
  - rewrite <- (take_drop_middle _ _ _ Hi), exec_all_app, Hst in Hall. cbn in Hall.
    by destruct (exec_sql (sv_catalogue w) s).
  - assert (s ∈ take j statements) as Hin by (eapply list_elem_of_lookup_2; rewrite lookup_take_lt; [exact Hi|lia]).
    by rewrite (exec_again _ _ _ _ Hst Hin).
Qed.

Lemma migrate_loop_completes i todo low w :
  is_Some (exec_all c0 statements) -> drop i statements = todo -> at_state low w -> (i <= low)%nat -> sv_faults w = [] ->
  (migrate_loop i todo w).2 = Ok tt.
Proof.
  intros Hall. revert i low w. induction todo as [|s todo IH]; intros i low w Hdrop Hst Hlow Hf; [done|]. cbn [migrate_loop].
  apply drop_cons_lookup in Hdrop as [Hi Hdrop]. destruct (exec_next i s low w Hall Hi Hst Hlow) as [c Hc].
  unfold server_Exec. rewrite Hf, Hc. eapply IH; [exact Hdrop|by eapply exec_state|lia|done].
Qed.

(** An attempt the server fails nothing of completes, wherever the earlier ones
    stopped. *)
Lemma migrate_completes n w :
  is_Some (exec_all c0 statements) -> sv_catalogue w = c0 -> sv_faults (migrations n w) = [] ->
  (migrate_loop 0 statements (migrations n w)).2 = Ok tt.
Proof. intros Hall Hw Hf. by eapply migrate_loop_completes; [|done|apply migrations_state, Hw|lia|]. Qed.
End Restart.
