(* ===== verification/PgSchema.v ===== *)
(** * The PostgreSQL schema (src/storage/postgres/migrations.go and the opening and
    migration of src/storage/postgres/store.go)

    The statements as they are in the source, what they build, and that the rows
    the store writes fit it. *)

From S2P Require Import Prelude Ids Events GoLib Json JsonText Wire Storage Query PgQuery PgWrite Schema.

(** ** Statements *)

Definition createEventsTable : string := "
CREATE TABLE IF NOT EXISTS trail_events (
    event_time timestamptz NOT NULL,
    event_id bytea PRIMARY KEY CHECK (octet_length(event_id) = 16),
    batch_id bytea NOT NULL CHECK (octet_length(batch_id) = 16),
    jetstream_stream text NOT NULL DEFAULT '',
    jetstream_stream_seq bigint NOT NULL DEFAULT 0,
    jetstream_consumer text NOT NULL DEFAULT '',
    jetstream_consumer_seq bigint NOT NULL DEFAULT 0,
    jetstream_delivered bigint NOT NULL DEFAULT 0,
    received_at timestamptz NOT NULL,
    ingested_at timestamptz NOT NULL DEFAULT now(),
    service text NOT NULL,
    environment text NOT NULL,
    version text NOT NULL DEFAULT '',
    kind text NOT NULL,
    level text NOT NULL,
    flow_id bytea CHECK (flow_id IS NULL OR octet_length(flow_id) = 16),
    execution_id bytea CHECK (execution_id IS NULL OR octet_length(execution_id) = 16),
    parent_execution_id bytea CHECK (parent_execution_id IS NULL OR octet_length(parent_execution_id) = 16),
    retry_of_execution_id bytea CHECK (retry_of_execution_id IS NULL OR octet_length(retry_of_execution_id) = 16),
    execution_attempt integer NOT NULL DEFAULT 0,
    execution_source text NOT NULL DEFAULT '',
    scope_type text NOT NULL DEFAULT '',
    scope_id text NOT NULL DEFAULT '',
    entity_type text NOT NULL DEFAULT '',
    entity_id text NOT NULL DEFAULT '',
    parent_event_id bytea CHECK (parent_event_id IS NULL OR octet_length(parent_event_id) = 16),
    flow_status text NOT NULL DEFAULT '',
    execution_status text NOT NULL DEFAULT '',
    execution_kind text NOT NULL DEFAULT '',
    provider text NOT NULL DEFAULT '',
    has_error boolean NOT NULL DEFAULT false,
    fields jsonb NOT NULL DEFAULT '[]'::jsonb,
    http_method text NOT NULL DEFAULT '',
    http_scheme text NOT NULL DEFAULT '',
    http_host text NOT NULL DEFAULT '',
    http_path text NOT NULL DEFAULT '',
    http_status_code integer NOT NULL DEFAULT 0,
    http_duration_ns bigint NOT NULL DEFAULT 0,
    http_success boolean NOT NULL DEFAULT false,
    http_request_size bigint NOT NULL DEFAULT 0,
    http_response_size bigint NOT NULL DEFAULT 0,
    http_request_preview text NOT NULL DEFAULT '',
    http_response_preview text NOT NULL DEFAULT '',
    payload_refs jsonb NOT NULL DEFAULT '[]'::jsonb
)".

Definition migrationStatements : list string :=
  [createEventsTable;
   "ALTER TABLE trail_events ADD COLUMN IF NOT EXISTS scope_type text NOT NULL DEFAULT ''";
   "ALTER TABLE trail_events ADD COLUMN IF NOT EXISTS scope_id text NOT NULL DEFAULT ''";
   "ALTER TABLE trail_events ADD COLUMN IF NOT EXISTS provider text NOT NULL DEFAULT ''";
   "ALTER TABLE trail_events ADD COLUMN IF NOT EXISTS has_error boolean NOT NULL DEFAULT false";
   "CREATE TABLE IF NOT EXISTS trail_payload_gc_candidates (
		store text NOT NULL, object_key text NOT NULL, ref jsonb NOT NULL,
		eligible_at timestamptz NOT NULL, candidate_at timestamptz NOT NULL DEFAULT now(),
		retry_after timestamptz NOT NULL DEFAULT now(), attempts integer NOT NULL DEFAULT 0,
		last_error text NOT NULL DEFAULT '', archive_id text NOT NULL DEFAULT '', PRIMARY KEY (store, object_key)
	)";
   "ALTER TABLE trail_payload_gc_candidates ADD COLUMN IF NOT EXISTS archive_id text NOT NULL DEFAULT ''";
   "CREATE INDEX IF NOT EXISTS trail_payload_gc_ready_idx ON trail_payload_gc_candidates (eligible_at, candidate_at, retry_after)";
   "CREATE TABLE IF NOT EXISTS trail_archives (archive_id text PRIMARY KEY, manifest jsonb NOT NULL, manifest_ref jsonb NOT NULL, created_at timestamptz NOT NULL)";
   "CREATE TABLE IF NOT EXISTS trail_event_archives (event_id bytea PRIMARY KEY, archive_id text NOT NULL REFERENCES trail_archives(archive_id), archived_at timestamptz NOT NULL DEFAULT now())";
   "CREATE INDEX IF NOT EXISTS trail_event_archives_archive_idx ON trail_event_archives(archive_id)";
   "CREATE INDEX IF NOT EXISTS trail_events_time_idx ON trail_events (event_time DESC, event_id DESC)";
   "CREATE INDEX IF NOT EXISTS trail_events_scope_time_idx ON trail_events (scope_type, scope_id, event_time DESC, event_id DESC) WHERE scope_type <> '' AND scope_id <> ''";
   "CREATE INDEX IF NOT EXISTS trail_events_flow_idx ON trail_events (flow_id, event_time, event_id) WHERE flow_id IS NOT NULL";
   "CREATE INDEX IF NOT EXISTS trail_events_execution_idx ON trail_events (execution_id, event_time, event_id) WHERE execution_id IS NOT NULL";
   "CREATE INDEX IF NOT EXISTS trail_events_entity_idx ON trail_events (entity_type, entity_id, event_time DESC) WHERE entity_type <> '' AND entity_id <> ''";
   "CREATE INDEX IF NOT EXISTS trail_events_kind_time_idx ON trail_events (kind, event_time DESC)";
   "CREATE INDEX IF NOT EXISTS trail_events_provider_time_idx ON trail_events (provider, event_time DESC) WHERE provider <> ''";
   "CREATE INDEX IF NOT EXISTS trail_events_failed_execution_idx ON trail_events (event_time DESC, execution_id) WHERE execution_status = 'failed'";
   "CREATE INDEX IF NOT EXISTS trail_events_http_5xx_idx ON trail_events (event_time DESC, http_status_code) WHERE http_status_code >= 500";
   "CREATE INDEX IF NOT EXISTS trail_events_retry_idx ON trail_events (retry_of_execution_id, execution_id) WHERE retry_of_execution_id IS NOT NULL"].


(** ** Opening and migrating *)

Record pg_Config := mkPgConfig {
  pgc_URL : string;
  (* whether TLS is not nil *)
  pgc_TLS : bool;
  pgc_MaxConnections : Z;
  pgc_ConnectTimeout : Z
}.

(** The parts of the parsed pool configuration [Open] sets. *)
Record pool_config := mkPoolConfig { pl_TLS : bool; pl_MaxConns : Z; pl_ConnectTimeout : Z }.

(** [Open]; [ParseConfig] and [NewWithConfig] are the pool library's. *)
Definition pg_Open {pool} (ParseConfig : string -> result pool_config) (NewWithConfig : pool_config -> result pool)
    (cfg : pg_Config) : result pool :=
  if str_eqb (pgc_URL cfg) "" then Fail (errors_New "trail/postgres: URL is required")
  else
    match ParseConfig (pgc_URL cfg) with
    | Fail err => Fail (Err (err_chain err) ("trail/postgres: parse config: " +:+ err_text err))
    | Panic m => Panic m
    | Ok parsed =>
        NewWithConfig (mkPoolConfig (pgc_TLS cfg || pl_TLS parsed)
          (if 0 <? pgc_MaxConnections cfg then pgc_MaxConnections cfg else pl_MaxConns parsed)
          (if 0 <? pgc_ConnectTimeout cfg then pgc_ConnectTimeout cfg else pl_ConnectTimeout parsed))
    end.

(** [Migrate] on a server that carries out schema statements. *)
Definition pg_Migrate : M server unit := migrate_loop "postgres" 0 migrationStatements.

(** ** The schema *)

(** What a complete migration leaves. *)
Definition pg_schema : catalogue := default empty_catalogue (exec_all empty_catalogue migrationStatements).

Lemma pg_complete : is_Some (exec_all empty_catalogue migrationStatements).
Proof. apply isSome_true. vm_cast_no_check (eq_refl true). Qed.

(** ** Rows *)

Inductive pg_type := TimestampTZ | Bytea | TextT | BigInt | IntegerT | BooleanT | JsonB.

(** A declared column: its type, whether NULL is allowed, whether a CHECK demands 16
    bytes. *)
Record pg_column := mkPgColumn { pgc_type : pg_type; pgc_null : bool; pgc_check16 : bool }.

Definition pg_type_of (w : string) : option pg_type :=
  if str_eqb w "timestamptz" then Some TimestampTZ
  else if str_eqb w "bytea" then Some Bytea
  else if str_eqb w "text" then Some TextT
  else if str_eqb w "bigint" then Some BigInt
  else if str_eqb w "integer" then Some IntegerT
  else if str_eqb w "boolean" then Some BooleanT
  else if str_eqb w "jsonb" then Some JsonB
  else None.

Definition pg_column_of (decl : list string) : option pg_column :=
  match decl with
  | [] => None
  | w :: rest =>
      t ← pg_type_of w;
      Some (mkPgColumn t
        (match rest with "NOT"%string :: _ | "PRIMARY"%string :: _ => false | _ => true end)
        (existsb (fun w => str_eqb w "octet_length") rest))
  end.

(** Their declarations in a table of the schema. *)
Definition declared (table : string) (names : list string) : option (list pg_column) :=
  columns ← find_table table (ct_tables pg_schema); mapM (fun name => find_column name columns ≫= pg_column_of) names.

(** What the server accepts for a column: text is UTF-8 without NUL, jsonb a JSON
    document without NUL in its texts, integers of the declared width. *)
Definition text_ok (s : string) : bool :=
  utf8_valid (string_bytes s) && forallb (fun c => negb (Ascii.eqb c zero_byte)) (string_bytes s).
Fixpoint json_no_nul (j : json) : bool :=
  match j with
  | JString s => text_ok s
  | JArray l => forallb json_no_nul l
  | JObject l => forallb (fun '(k, v) => text_ok k && json_no_nul v) l
  | _ => true
  end.
Definition jsonb_ok (b : bytes) : bool := match json_parse b with Ok j => json_no_nul j | _ => false end.

Definition arg_fits (c : pg_column) (a : arg) : bool :=
  match a, pgc_type c with
  | ANull, _ => pgc_null c
  | ATime _, TimestampTZ => true
  | AText s, TextT => text_ok s
  | ABytes b, Bytea => negb (pgc_check16 c) || Nat.eqb (length b) 16
  | ABytes b, JsonB => jsonb_ok b
  | AInt z, BigInt => in_sb 64 z
  | AInt z, IntegerT => in_sb 32 z
  | ABool _, BooleanT => true
  | _, _ => false
  end.

Fixpoint row_fits (columns : list pg_column) (row : list arg) : bool :=
  match columns, row with
  | [], [] => true
  | c :: columns, a :: row => arg_fits c a && row_fits columns row
  | _, _ => false
  end.

(** The rows of [trail_events] the INSERT writes. *)
Definition event_row_fits (row : list arg) : bool :=
  match declared "trail_events" (insert_columns insertEventSQL) with
  | Some columns => row_fits columns row
  | None => false
  end.

(** What an event must satisfy beyond the Go types of its fields. *)
Definition pg_storable (e : EventRecord) (fields payloads : bytes) : bool :=
  forallb text_ok
    [d_Stream (er_Delivery e); d_Consumer (er_Delivery e); md_Service (er_Metadata e);
     md_Environment (er_Metadata e); md_Version (er_Metadata e); er_Kind e; er_ExecutionSource e;
     sc_Type (er_Scope e); sc_ID (er_Scope e); er_EntityType e; er_EntityID e; er_FlowStatus e;
     er_ExecutionStatus e; er_ExecutionKind e; er_Provider e; h_Method (er_HTTP e); h_Scheme (er_HTTP e);
     h_Host (er_HTTP e); h_Path (er_HTTP e); h_RequestPreview (er_HTTP e); h_ResponsePreview (er_HTTP e)] &&
  forallb (in_sb 64)
    [d_StreamSequence (er_Delivery e); d_ConsumerSequence (er_Delivery e); d_Delivered (er_Delivery e);
     h_Duration (er_HTTP e); h_RequestSize (er_HTTP e); h_ResponseSize (er_HTTP e)] &&
  forallb (in_sb 32) [er_ExecutionAttempt e; h_StatusCode (er_HTTP e)] && jsonb_ok fields && jsonb_ok payloads.

(** The declarations of the columns the INSERT names. *)
Definition event_declarations : list pg_column :=
  Eval vm_compute in default [] (declared "trail_events" (insert_columns insertEventSQL)).

Lemma event_declared : declared "trail_events" (insert_columns insertEventSQL) = Some event_declarations.
Proof. vm_cast_no_check (eq_refl (Some event_declarations)). Qed.

Lemma level_text l : text_ok (Level_String l) = true.
Proof. unfold Level_String. by repeat destruct (_ =? _). Qed.

Lemma id_fits null (id : id16) : arg_fits (mkPgColumn Bytea null true) (idBytes id) = true.
Proof. cbn. by rewrite length_array. Qed.

Lemma nullable_fits (id : id16) : arg_fits (mkPgColumn Bytea true true) (nullableID id) = true.
Proof. unfold nullableID. destruct (IsZero id); [done|]. apply id_fits. Qed.

Lemma andb_cons (a b c : bool) : (a = true -> b = c) -> a && b = a && c.
Proof. destruct a; [by intros ->|done]. Qed.

(** The one column the INSERT does not name: the server's clock fills it. *)
Definition clock_column : column := mkColumn "ingested_at" ["timestamptz"; "NOT"; "NULL"; "DEFAULT"; "now"; "("; ")"].

Lemma pg_columns_distinct : NoDup (insert_columns insertEventSQL).
Proof. apply (bool_decide_unpack _). vm_cast_no_check I. Qed.

(** C24.  The INSERT fits the schema.  It writes [trail_events], names each of that
    table's columns once, except [ingested_at], which by its declaration defaults to
    the server's clock, and every value it binds has the type of its column, NULL only
    where the column allows it and identifiers 16 bytes long as the CHECKs demand; the
    server accepts the row exactly when the texts are UTF-8 without NUL, the JSON
    documents are well formed and the integers fit the declared widths. *)
Theorem pg_row_typed (e : EventRecord) (fields payloads : bytes) :
  insert_table insertEventSQL = Some "trail_events" /\ NoDup (insert_columns insertEventSQL) /\
  unnamed pg_schema "trail_events" (insert_columns insertEventSQL) = Some [clock_column] /\
  event_row_fits (eventValues e fields payloads) = pg_storable e fields payloads.
Proof.
  split; [vm_cast_no_check (eq_refl (Some "trail_events"))|]. split; [exact pg_columns_distinct|].
  split; [vm_cast_no_check (eq_refl (Some [clock_column]))|].
  unfold event_row_fits. rewrite event_declared.
  unfold event_declarations, eventValues, pg_storable. cbn [row_fits]. rewrite !id_fits, !nullable_fits.
  cbn [arg_fits pgc_type pgc_null pgc_check16 forallb]. rewrite level_text. cbn [andb].
  apply eq_bool_prop_intro. rewrite !andb_True. tauto.
Qed.

(** C39.  Migration can be interrupted anywhere and repeated: starting from an empty
    database, after any number of attempts that failed at any statement, an attempt
    that reports no error leaves exactly the schema a single clean run builds, and an
    attempt in which the server fails no statement does report no error. *)
Theorem pg_migrate_restarts (n : nat) (w : server) :
  sv_catalogue w = empty_catalogue ->
  let w1 := migrations migrationStatements "postgres" n w in
  (forall w', pg_Migrate w1 = (w', Ok tt) -> sv_catalogue w' = pg_schema) /\
  (sv_faults w1 = [] -> exists w', pg_Migrate w1 = (w', Ok tt)).
Proof.
  intros H0 w1. split.
  - intros w' Hrun. unfold pg_schema. by rewrite (migrate_reaches _ _ _ _ _ _ H0 Hrun).
  - intros Hf. exists (pg_Migrate w1).1. rewrite (surjective_pairing (pg_Migrate w1)) at 1. f_equal.
    by apply (migrate_completes _ _ empty_catalogue _ _ pg_complete).
Qed.

(** The third statement fails once; the second attempt completes the schema. *)
Definition interrupted : server := mkServer empty_catalogue [None; None; Some sql_error].

Example pg_migrate_restarts_witness :
  exists w', pg_Migrate (migrations migrationStatements "postgres" 1 interrupted) = (w', Ok tt) /\ sv_catalogue w' = pg_schema.
Proof.
  destruct (pg_migrate_restarts 1 interrupted eq_refl) as [Hsound Hlive].
  destruct Hlive as [w' Hrun]; [vm_cast_no_check (@eq_refl (list (option error)) [])|].
  exists w'. split; [exact Hrun|exact (Hsound w' Hrun)].
Defined.

(** ** Events the wire accepts and the table does not *)

Definition poison (attempt : Z) (kind : string) : Envelope :=
  mkEnvelope Version (String_ (zero_array 16)) (mkMetadata "billing" "prod" "1")
    [mkWireEvent (String_ (zero_array 16)) 1700000000000000000 kind "info" "" "" "" "" attempt "" "" "" "" "" "" []].

(** Whether every row of the envelope's batch fits the table. *)
Definition stored_ok (v : Envelope) : option bool :=
  match Normalize v Delivery_zero with
  | Ok batch => Some (forallb (fun e => pg_storable e (string_bytes "[]") (string_bytes "[]")) (sb_Events batch))
  | _ => None
  end.

(** An attempt of 2^31, or a NUL in a text, passes the wire contract and
    normalisation, but PostgreSQL refuses the row, and with it the whole group of
    batches written in the same transaction. *)
Example poison_events :
  stored_ok (poison 1 "order.paid") = Some true /\
  stored_ok (poison (2 ^ 31) "order.paid") = Some false /\
  stored_ok (poison 1 (String zero_byte "order.paid")) = Some false.
Proof. vm_compute. auto. Qed.
