(* ===== verification/ChSchema.v ===== *)
(** * The ClickHouse schema (src/storage/clickhouse/migrations.go)

    The statements as they are in the source, what they build, and that the rows
    the store appends fit it. *)

From S2P Require Import Prelude Ids Events GoLib Wire Storage Query ChQuery ChWrite Schema.

(** ** Statements *)

Definition createEventsTable : string := "
CREATE TABLE IF NOT EXISTS trail_events
(
    event_time DateTime64(9, 'UTC'),
    event_id FixedString(16),
    batch_id FixedString(16),
    jetstream_stream LowCardinality(String),
    jetstream_stream_seq UInt64,
    jetstream_consumer LowCardinality(String),
    jetstream_consumer_seq UInt64,
    jetstream_delivered UInt64,
    received_at DateTime64(6, 'UTC'),
    ingested_at DateTime64(6, 'UTC') DEFAULT now64(6),
    service LowCardinality(String),
    environment LowCardinality(String),
    version LowCardinality(String),
    kind LowCardinality(String),
    level Enum8('debug' = 1, 'info' = 2, 'warn' = 3, 'error' = 4),
    flow_id FixedString(16),
    execution_id FixedString(16),
    parent_execution_id FixedString(16),
    retry_of_execution_id FixedString(16),
    execution_attempt UInt32,
    execution_source LowCardinality(String),
    scope_type LowCardinality(String),
    scope_id String,
    entity_type LowCardinality(String),
    entity_id String,
    parent_event_id FixedString(16),
    flow_status LowCardinality(String),
    execution_status LowCardinality(String),
    execution_kind LowCardinality(String),
    provider LowCardinality(String),
    has_error UInt8,
    field_keys Array(String),
    field_types Array(String),
    field_text Array(String),
    field_num Array(UInt64),
    http_method LowCardinality(String),
    http_scheme LowCardinality(String),
    http_host LowCardinality(String),
    http_path String,
    http_status_code UInt16,
    http_duration_ns UInt64,
    http_success UInt8,
    http_request_size Int64,
    http_response_size Int64,
    http_request_preview String,
    http_response_preview String,
    payload_refs_json String,
    PROJECTION by_time (SELECT _part_offset ORDER BY (service, event_time, event_id)),
    PROJECTION by_global_time (SELECT _part_offset ORDER BY (event_time, event_id)),
    PROJECTION by_flow (SELECT _part_offset ORDER BY (flow_id, event_time, event_id)),
    PROJECTION by_execution (SELECT _part_offset ORDER BY (execution_id, event_time, event_id)),
	PROJECTION by_scope (SELECT _part_offset ORDER BY (scope_type, scope_id, event_time, event_id)),
    PROJECTION by_entity (SELECT _part_offset ORDER BY (entity_type, entity_id, event_time, event_id)),
    PROJECTION by_kind (SELECT _part_offset ORDER BY (kind, event_time, event_id)),
    PROJECTION by_http_status (SELECT _part_offset ORDER BY (http_status_code, event_time, event_id))
)
ENGINE = ReplacingMergeTree(ingested_at)
PARTITION BY toYYYYMM(event_time)
ORDER BY event_id
SETTINGS deduplicate_merge_projection_mode = 'rebuild'
".

Definition createFlowSummaries : string := "
CREATE TABLE IF NOT EXISTS trail_flow_summaries
(
    flow_id FixedString(16),
    service LowCardinality(String),
    environment LowCardinality(String),
    started_at AggregateFunction(min, DateTime64(9, 'UTC')),
    finished_at AggregateFunction(max, DateTime64(9, 'UTC')),
    event_count AggregateFunction(uniqExact, FixedString(16)),
    entity_type AggregateFunction(argMax, String, Tuple(DateTime64(9, 'UTC'), FixedString(16))),
    entity_id AggregateFunction(argMax, String, Tuple(DateTime64(9, 'UTC'), FixedString(16))),
    execution_id AggregateFunction(argMax, FixedString(16), Tuple(DateTime64(9, 'UTC'), FixedString(16))),
    status AggregateFunction(argMaxIf, String, Tuple(DateTime64(9, 'UTC'), FixedString(16)), UInt8),
    first_kind AggregateFunction(argMin, String, Tuple(DateTime64(9, 'UTC'), FixedString(16))),
    last_kind AggregateFunction(argMax, String, Tuple(DateTime64(9, 'UTC'), FixedString(16)))
)
ENGINE = AggregatingMergeTree
ORDER BY (flow_id, service, environment)
".

Definition createFlowSummaryView : string := "
CREATE MATERIALIZED VIEW IF NOT EXISTS trail_flow_summaries_mv TO trail_flow_summaries AS
SELECT
    flow_id,
    service,
    environment,
    minState(event_time) AS started_at,
    maxState(event_time) AS finished_at,
    uniqExactState(event_id) AS event_count,
    argMaxState(entity_type, tuple(event_time, event_id)) AS entity_type,
    argMaxState(entity_id, tuple(event_time, event_id)) AS entity_id,
    argMaxState(execution_id, tuple(event_time, event_id)) AS execution_id,
    argMaxIfState(flow_status, tuple(event_time, event_id), notEmpty(flow_status)) AS status,
    argMinState(kind, tuple(event_time, event_id)) AS first_kind,
    argMaxState(kind, tuple(event_time, event_id)) AS last_kind
FROM trail_events
WHERE flow_id != unhex('00000000000000000000000000000000')
GROUP BY flow_id, service, environment
".

Definition createExecutionSummaries : string := "
CREATE TABLE IF NOT EXISTS trail_execution_summaries
(
    execution_id FixedString(16),
    service LowCardinality(String),
    environment LowCardinality(String),
    started_at AggregateFunction(min, DateTime64(9, 'UTC')),
    finished_at AggregateFunction(max, DateTime64(9, 'UTC')),
    event_count AggregateFunction(uniqExact, FixedString(16)),
    flow_count AggregateFunction(uniqExact, FixedString(16)),
    kind AggregateFunction(argMaxIf, String, Tuple(DateTime64(9, 'UTC'), FixedString(16)), UInt8),
    source AggregateFunction(argMaxIf, String, Tuple(DateTime64(9, 'UTC'), FixedString(16)), UInt8),
    status AggregateFunction(argMaxIf, String, Tuple(DateTime64(9, 'UTC'), FixedString(16)), UInt8),
    attempt AggregateFunction(max, UInt32),
    parent_execution_id AggregateFunction(argMax, FixedString(16), Tuple(DateTime64(9, 'UTC'), FixedString(16))),
    retry_of_execution_id AggregateFunction(argMax, FixedString(16), Tuple(DateTime64(9, 'UTC'), FixedString(16)))
)
ENGINE = AggregatingMergeTree
ORDER BY (execution_id, service, environment)
".

Definition createExecutionSummaryView : string := "
CREATE MATERIALIZED VIEW IF NOT EXISTS trail_execution_summaries_mv TO trail_execution_summaries AS
SELECT
    execution_id,
    service,
    environment,
    minState(event_time) AS started_at,
    maxState(event_time) AS finished_at,
    uniqExactState(event_id) AS event_count,
    uniqExactStateIf(flow_id, flow_id != unhex('00000000000000000000000000000000')) AS flow_count,
    argMaxIfState(execution_kind, tuple(event_time, event_id), notEmpty(execution_kind)) AS kind,
    argMaxIfState(execution_source, tuple(event_time, event_id), notEmpty(execution_source)) AS source,
    argMaxIfState(execution_status, tuple(event_time, event_id), notEmpty(execution_status)) AS status,
    maxState(execution_attempt) AS attempt,
    argMaxState(parent_execution_id, tuple(event_time, event_id)) AS parent_execution_id,
    argMaxState(retry_of_execution_id, tuple(event_time, event_id)) AS retry_of_execution_id
FROM trail_events
WHERE execution_id != unhex('00000000000000000000000000000000')
GROUP BY execution_id, service, environment
".

Definition createFlowTerminals : string := "
CREATE TABLE IF NOT EXISTS trail_flow_terminals
(
    flow_id FixedString(16), event_time DateTime64(9, 'UTC'),
    service LowCardinality(String), environment LowCardinality(String),
    entity_type LowCardinality(String), entity_id String,
    execution_id FixedString(16), status LowCardinality(String),
    PROJECTION by_recent (SELECT _part_offset ORDER BY (service, environment, event_time, flow_id)),
    PROJECTION by_entity (SELECT _part_offset ORDER BY (entity_type, entity_id, event_time, flow_id)),
    PROJECTION by_execution (SELECT _part_offset ORDER BY (execution_id, event_time, flow_id))
)
ENGINE = ReplacingMergeTree(event_time)
ORDER BY flow_id
SETTINGS deduplicate_merge_projection_mode = 'rebuild'
".

Definition createFlowTerminalsView : string := "
CREATE MATERIALIZED VIEW IF NOT EXISTS trail_flow_terminals_mv TO trail_flow_terminals AS
SELECT flow_id,event_time,service,environment,entity_type,entity_id,execution_id,flow_status AS status
FROM trail_events
WHERE flow_id != unhex('00000000000000000000000000000000')
  AND flow_status IN ('succeeded','failed','cancelled')
".

Definition migrationStatements : list string :=
  [createEventsTable;
   "ALTER TABLE trail_events ADD COLUMN IF NOT EXISTS scope_type LowCardinality(String) AFTER execution_source";
   "ALTER TABLE trail_events ADD COLUMN IF NOT EXISTS scope_id String AFTER scope_type";
   "ALTER TABLE trail_events ADD COLUMN IF NOT EXISTS provider LowCardinality(String) AFTER execution_kind";
   "ALTER TABLE trail_events ADD COLUMN IF NOT EXISTS has_error UInt8 AFTER provider";
   "CREATE TABLE IF NOT EXISTS trail_payload_gc_candidates (
		store LowCardinality(String), object_key String, ref_json String,
		eligible_at DateTime64(9, 'UTC'), candidate_at DateTime64(9, 'UTC'),
		retry_after DateTime64(9, 'UTC'), attempts UInt32, last_error String, archive_id String DEFAULT '',
		version DateTime64(9, 'UTC')
	) ENGINE=ReplacingMergeTree(version) ORDER BY (store,object_key)";
   "ALTER TABLE trail_payload_gc_candidates ADD COLUMN IF NOT EXISTS archive_id String DEFAULT ''";
   "CREATE TABLE IF NOT EXISTS trail_retention_summary_rebuilds (
		kind Enum8('flow'=1,'execution'=2), identity FixedString(16), version DateTime64(9,'UTC')
	) ENGINE=ReplacingMergeTree(version) ORDER BY (kind,identity)";
   "CREATE TABLE IF NOT EXISTS trail_archives (archive_id String, manifest_json String, manifest_ref_json String, created_at DateTime64(9,'UTC'), version DateTime64(9,'UTC')) ENGINE=ReplacingMergeTree(version) ORDER BY archive_id";
   "CREATE TABLE IF NOT EXISTS trail_event_archives (event_id FixedString(16), archive_id String, archived_at DateTime64(9,'UTC'), version DateTime64(9,'UTC')) ENGINE=ReplacingMergeTree(version) ORDER BY event_id SETTINGS deduplicate_merge_projection_mode='rebuild'";
   "ALTER TABLE trail_event_archives MODIFY SETTING deduplicate_merge_projection_mode='rebuild'";
   "ALTER TABLE trail_event_archives ADD PROJECTION IF NOT EXISTS by_archive (SELECT _part_offset ORDER BY (archive_id,event_id))";
   createFlowSummaries;
   createFlowSummaryView;
   createExecutionSummaries;
   createExecutionSummaryView;
   createFlowTerminals;
   createFlowTerminalsView;
   "ALTER TABLE trail_events ADD PROJECTION IF NOT EXISTS by_global_time (SELECT _part_offset ORDER BY (event_time, event_id))";
   "ALTER TABLE trail_events ADD PROJECTION IF NOT EXISTS by_scope (SELECT _part_offset ORDER BY (scope_type, scope_id, event_time, event_id))";
   "ALTER TABLE trail_events ADD PROJECTION IF NOT EXISTS by_kind (SELECT _part_offset ORDER BY (kind, event_time, event_id))";
   "ALTER TABLE trail_events ADD PROJECTION IF NOT EXISTS by_http_status (SELECT _part_offset ORDER BY (http_status_code, event_time, event_id))"].


(** ** Migrating *)

(** [Migrate] on a server that carries out schema statements. *)
Definition ch_Migrate : M server unit := migrate_loop "clickhouse" 0 migrationStatements.

(** What a complete migration leaves. *)
Definition ch_schema : catalogue := default empty_catalogue (exec_all empty_catalogue migrationStatements).

Lemma ch_complete : is_Some (exec_all empty_catalogue migrationStatements).
Proof. apply isSome_true. vm_cast_no_check (eq_refl true). Qed.

(** Tables, projections and materialised views alike: after any number of
    interrupted attempts a migration without error has built the whole schema, and
    one in which nothing fails has no error. *)
Lemma ch_migrate_restarts (n : nat) (w : server) :
  sv_catalogue w = empty_catalogue ->
  let w1 := migrations migrationStatements "clickhouse" n w in
  (forall w', ch_Migrate w1 = (w', Ok tt) -> sv_catalogue w' = ch_schema) /\
  (sv_faults w1 = [] -> exists w', ch_Migrate w1 = (w', Ok tt)).
Proof.
  intros H0 w1. split.
  - intros w' Hrun. unfold ch_schema. by rewrite (migrate_reaches _ _ _ _ _ _ H0 Hrun).
  - intros Hf. exists (ch_Migrate w1).1. rewrite (surjective_pairing (ch_Migrate w1)) at 1. f_equal.
    by apply (migrate_completes _ _ empty_catalogue _ _ ch_complete).
Qed.

(** ** Rows *)

Inductive ch_type :=
| DateTime64 (precision : Z)
| FixedString (n : nat)
| StringT
| UIntT (w : Z)
| IntT (w : Z)
| EnumT (names : list string)
| ArrayT (t : ch_type).

(** The names of an enumeration: its quoted words. *)
Definition unquote (w : string) : option string :=
  match string_bytes w with
  | "'"%char :: l => Some (bytes_string (removelast l))
  | _ => None
  end.

Definition ch_scalar (w : string) : option ch_type :=
  if str_eqb w "String" then Some StringT
  else if str_eqb w "UInt8" then Some (UIntT 8)
  else if str_eqb w "UInt16" then Some (UIntT 16)
  else if str_eqb w "UInt32" then Some (UIntT 32)
  else if str_eqb w "UInt64" then Some (UIntT 64)
  else if str_eqb w "Int64" then Some (IntT 64)
  else None.

Definition ch_type_of (decl : list string) : option ch_type :=
  match decl with
  | "DateTime64"%string :: "("%string :: p :: _ =>
      if str_eqb p "9" then Some (DateTime64 9) else if str_eqb p "6" then Some (DateTime64 6) else None
  | "FixedString"%string :: "("%string :: n :: ")"%string :: _ => if str_eqb n "16" then Some (FixedString 16) else None
  | "LowCardinality"%string :: "("%string :: w :: ")"%string :: _ => ch_scalar w
  | "Array"%string :: "("%string :: w :: ")"%string :: _ => ArrayT <$> ch_scalar w
  | "Enum8"%string :: rest => Some (EnumT (omap unquote rest))
  | w :: _ => ch_scalar w
  | [] => None
  end.

Definition declared (table : string) (names : list string) : option (list ch_type) :=
  columns ← find_table table (ct_tables ch_schema); mapM (fun name => find_column name columns ≫= ch_type_of) names.

(** From the year 1900 on, with ticks of a 64-bit counter. *)
Definition time_ok (precision t : Z) : bool :=
  (-2208988800 * 1000000000 <=? t) && (t / 10 ^ (9 - precision) <? 2 ^ 63).

Definition value_fits (t : ch_type) (a : carg) : bool :=
  match a, t with
  | CTime z, DateTime64 p => time_ok p z
  | CText s, FixedString n => Nat.eqb (slen s) n
  | CText _, StringT => true
  | CText s, EnumT names => bool_decide (s ∈ names)
  | CInt z, UIntT w => in_ub w z
  | CInt z, IntT w => in_sb w z
  | CTexts _, ArrayT StringT => true
  | CNums l, ArrayT (UIntT w) => forallb (in_ub w) l
  | _, _ => false
  end.

Fixpoint row_fits (types : list ch_type) (row : list carg) : bool :=
  match types, row with
  | [], [] => true
  | t :: types, a :: row => value_fits t a && row_fits types row
  | _, _ => false
  end.

Definition event_row_fits (row : list carg) : bool :=
  match declared "trail_events" (insert_columns insertEvents) with
  | Some types => row_fits types row
  | None => false
  end.

(** What an event must satisfy: times in range, a level of the enumeration, numbers
    in the ranges of their Go types. *)
Definition ch_storable (e : EventRecord) : bool :=
  time_ok 9 (er_Timestamp e) && time_ok 6 (d_ReceivedAt (er_Delivery e)) &&
  bool_decide (Level_String (er_Level e) ∈ ["debug"; "info"; "warn"; "error"]) &&
  forallb (in_ub 64)
    [d_StreamSequence (er_Delivery e); d_ConsumerSequence (er_Delivery e); d_Delivered (er_Delivery e)] &&
  in_ub 32 (er_ExecutionAttempt e) && forallb (in_ub 64) (wf_Num <$> er_Fields e) &&
  in_sb 64 (h_RequestSize (er_HTTP e)) && in_sb 64 (h_ResponseSize (er_HTTP e)).

(** The types of the columns the INSERT names. *)
Definition event_types : list ch_type :=
  Eval vm_compute in default [] (declared "trail_events" (insert_columns insertEvents)).

Lemma event_types_declared : declared "trail_events" (insert_columns insertEvents) = Some event_types.
Proof. vm_cast_no_check (eq_refl (Some event_types)). Qed.

Lemma id_value_fits (id : id16) : value_fits (FixedString 16) (idBytes id) = true.
Proof.
  cbn. unfold id_text. rewrite <- length_string_bytes, String.list_ascii_of_string_of_list_ascii, length_array. done.
Qed.

Lemma wrapped_fits w z : 0 < w -> in_ub w (wrapu w z) = true.
Proof. intros Hw. destruct (wrapu_in w z ltac:(lia)) as [H1 H2]. unfold in_ub. lia. Qed.

Lemma boolByte_fits b : in_ub 8 (boolByte b) = true.
Proof. by destruct b. Qed.

(** The one column the INSERT does not name: the server's clock fills it. *)
Definition clock_column : column :=
  mkColumn "ingested_at" ["DateTime64"; "("; "6"; ","; "'UTC'"; ")"; "DEFAULT"; "now64"; "("; "6"; ")"].

Lemma ch_columns_distinct : NoDup (insert_columns insertEvents).
Proof. apply (bool_decide_unpack _). vm_cast_no_check I. Qed.

(** C25.  The appended rows fit the schema.  The INSERT writes [trail_events] and
    names each of its columns once, except [ingested_at], which by its declaration
    defaults to the server's clock; every appended value has the type of its column,
    and the row is accepted exactly when its times are in range, its level is one of
    the enumeration and its numbers are in the ranges of their Go types: status codes
    and durations are cut to their columns' width beforehand. *)
Theorem ch_row_typed (e : EventRecord) (payloadJSON : bytes) :
  insert_table insertEvents = Some "trail_events" /\ NoDup (insert_columns insertEvents) /\
  unnamed ch_schema "trail_events" (insert_columns insertEvents) = Some [clock_column] /\
  event_row_fits (event_values e payloadJSON) = ch_storable e.
Proof.
  split; [vm_cast_no_check (eq_refl (Some "trail_events"))|]. split; [exact ch_columns_distinct|].
  split; [vm_cast_no_check (eq_refl (Some [clock_column]))|].
  unfold event_row_fits. rewrite event_types_declared.
  unfold event_types, event_values, ch_storable. cbn [row_fits]. rewrite !id_value_fits.
  cbn [value_fits forallb]. rewrite !boolByte_fits, !wrapped_fits by lia. cbn [andb].
  apply eq_bool_prop_intro. rewrite !andb_True. tauto.
Qed.
