(* ===== verification/GoDuration.v ===== *)
(** * Durations as text: [time.ParseDuration] and [Duration.String]

    A duration is a 64-bit count of nanoseconds.  Fractions of a unit go through
    float64 in [ParseDuration]; the roundings are written out on dyadic numbers. *)

From S2P Require Import Prelude Events GoLib JsonText GoText GoTime.

(** ** Parsing *)

(** The double nearest to the positive rational [n / d], ties to even, as
    [(m, e)] for [m * 2^e]. *)
Definition round53 (n d : Z) : Z * Z :=
  let e0 := Z.log2 n - Z.log2 d - 53 in
  let scaled e := if e <? 0 then (n * 2 ^ (- e), d) else (n, d * 2 ^ e) in
  let '(n0, d0) := scaled e0 in
  let e := if n0 <? d0 * 2 ^ 53 then e0 else e0 + 1 in
  let '(n1, d1) := scaled e in
  let q := n1 / d1 in
  let r := n1 mod d1 in
  (if (d1 <? 2 * r) || ((2 * r =? d1) && Z.odd q) then q + 1 else q, e).

(** [uint64(x)] of the double [m * 2^e], [x] not negative. *)
Definition float_trunc (x : Z * Z) : Z := let '(m, e) := x in if e <? 0 then m / 2 ^ (- e) else m * 2 ^ e.

(** [float64(f) * (float64(unit) / scale)], cut to an integer; [scale] is [10^k]. *)
Definition fraction_of (f unit k : Z) : Z :=
  let '(mq, eq) := round53 unit (10 ^ k) in
  let '(mf, ef) := round53 f 1 in
  let e := eq + ef in
  float_trunc (if e <? 0 then round53 (mq * mf) (2 ^ (- e)) else round53 (mq * mf * 2 ^ e) 1).

(** [leadingInt]: the digits at the head; [None] is its overflow error. *)
Fixpoint leadingInt (x : Z) (s : bytes) : option (Z * bytes) :=
  match s with
  | c :: s' =>
      if is_digit c then
        if 2 ^ 63 / 10 <? x then None
        else let x := x * 10 + digit_value c in
             if 2 ^ 63 <? x then None else leadingInt x s'
      else Some (x, s)
  | [] => Some (x, s)
  end.

(** [leadingFraction]: digits that would overflow are consumed but not counted. *)
Fixpoint leadingFraction (x k : Z) (overflow : bool) (s : bytes) : Z * Z * bytes :=
  match s with
  | c :: s' =>
      if is_digit c then
        if overflow then leadingFraction x k true s'
        else if (2 ^ 63 - 1) / 10 <? x then leadingFraction x k true s'
        else let y := x * 10 + digit_value c in
             if 2 ^ 63 <? y then leadingFraction x k true s' else leadingFraction y (k + 1) false s'
      else (x, k, s)
  | [] => (x, k, s)
  end.

Definition micro_sign : string := bytes_string [Z_byte 0xc2; Z_byte 0xb5; "s"%char].
Definition micro_mu : string := bytes_string [Z_byte 0xce; Z_byte 0xbc; "s"%char].

Definition unit_ns (u : string) : option Z :=
  if str_eqb u "ns" then Some 1
  else if str_eqb u "us" || str_eqb u micro_sign || str_eqb u micro_mu then Some 1000
  else if str_eqb u "ms" then Some 1000000
  else if str_eqb u "s" then Some 1000000000
  else if str_eqb u "m" then Some (60 * 1000000000)
  else if str_eqb u "h" then Some (3600 * 1000000000)
  else None.

Definition unit_end (c : byte) : bool := negb (Ascii.eqb c "." || is_digit c).

(** One pass of the loop of [ParseDuration]: a number and its unit. *)
Definition duration_part (s : bytes) : option (Z * bytes) :=
  match s with
  | [] => None
  | c :: _ =>
      if negb (Ascii.eqb c "." || is_digit c) then None
      else
        '(v, s1) ← leadingInt 0 s;
        let pre := negb (Nat.eqb (length s1) (length s)) in
        let '(f, k, post, s2) :=
          match s1 with
          | "."%char :: s' => let '(f, k, s2) := leadingFraction 0 0 false s' in (f, k, negb (Nat.eqb (length s2) (length s')), s2)
          | _ => (0, 0, false, s1)
          end in
        if negb pre && negb post then None
        else
          let '(u, s3) := take_while unit_end s2 in
          if bool_decide (u = []) then None
          else
            unit ← unit_ns (bytes_string u);
            if 2 ^ 63 / unit <? v then None
            else
              let v := v * unit in
              let v := if 0 <? f then v + fraction_of f unit k else v in
              if 2 ^ 63 <? v then None else Some (v, s3)
  end.

Fixpoint duration_parts (fuel : nat) (d : Z) (s : bytes) : option Z :=
  match s, fuel with
  | [], _ => Some d
  | _, O => None
  | _, S fuel =>
      '(v, s') ← duration_part s;
      let d := d + v in
      if 2 ^ 63 <? d then None else duration_parts fuel d s'
  end.

(** [time.ParseDuration]; every pass consumes a byte, so the length is fuel enough.
    The errors differ in their text only. *)
Definition ParseDuration (text : string) : result Z :=
  let invalid := Fail (errors_New "time: invalid duration") in
  let '(neg, s) :=
    match string_bytes text with
    | "-"%char :: s => (true, s)
    | "+"%char :: s => (false, s)
    | s => (false, s)
    end in
  if bool_decide (s = ["0"%char]) then Ok 0
  else if bool_decide (s = []) then invalid
  else
    match duration_parts (length s) 0 s with
    | None => invalid
    | Some d =>
        if neg then Ok (- d)
        else if 2 ^ 63 - 1 <? d then invalid else Ok d
    end.

(** ** Printing *)

(** [fmtFrac]: the low [prec] digits of [v] behind a point, without trailing zeros. *)
Definition fmtFrac (v prec : Z) : bytes :=
  let digits := trim_zeros (padn (Z.to_nat prec) (v mod 10 ^ prec)) in
  match digits with [] => [] | _ => "."%char :: digits end.

Definition Duration_String (d : Z) : string :=
  let u := Z.abs d in
  let text :=
    if u =? 0 then string_bytes "0s"
    else if u <? 1000 then print_nat u ++ string_bytes "ns"
    else if u <? 1000000 then print_nat (u / 1000) ++ fmtFrac u 3 ++ string_bytes micro_sign
    else if u <? 1000000000 then print_nat (u / 1000000) ++ fmtFrac u 6 ++ string_bytes "ms"
    else
      let s := u / 1000000000 in
      let seconds := print_nat (s mod 60) ++ fmtFrac u 9 ++ ["s"%char] in
      let m := s / 60 in
      if m =? 0 then seconds
      else
        let minutes := print_nat (m mod 60) ++ "m"%char :: seconds in
        let h := m / 60 in
        if h =? 0 then minutes else print_nat h ++ "h"%char :: minutes in
  bytes_string (if d <? 0 then "-"%char :: text else text).

Example durations :
  ParseDuration "168h" = Ok (168 * 3600 * second) /\ ParseDuration "1h15m30.918273645s" = Ok 4530918273645 /\
  ParseDuration "-1.5h" = Ok (- 5400 * second) /\ ParseDuration "0.3333333333333333333h" = Ok 1200000000000 /\
  is_ok (ParseDuration "1") = false /\ is_ok (ParseDuration "3000000h") = false /\
  ParseDuration "2562047h47m16.854775807s" = Ok (2 ^ 63 - 1) /\
  Duration_String 4530918273645 = "1h15m30.918273645s" /\ Duration_String (-1500000) = "-1.5ms" /\
  Duration_String (- 2 ^ 63) = "-2562047h47m16.854775808s" /\ Duration_String (60 * second) = "1m0s".
Proof. vm_compute. auto 20. Qed.

Lemma leadingInt_bound x s v rest : 0 <= x <= 2 ^ 63 -> leadingInt x s = Some (v, rest) -> 0 <= v <= 2 ^ 63.
Proof.
  revert x. induction s as [|c s IH]; intros x Hx; cbn [leadingInt]; [by intros [= <- _]|].
  destruct (is_digit c) eqn:Hd; [|by intros [= <- _]]. destruct (_ <? x); [done|].
  destruct (Z.ltb_spec (2 ^ 63) (x * 10 + digit_value c)) as [|Hle]; [done|]. apply IH.
  unfold is_digit, between in Hd. unfold digit_value in *. lia.
Qed.

Lemma duration_parts_bound fuel d s v : d <= 2 ^ 63 -> duration_parts fuel d s = Some v -> v <= 2 ^ 63.
Proof.
  revert d s. induction fuel as [|fuel IH]; intros d s Hd; (destruct s as [|c s]; [by intros [= <-]|]); [done|].
  cbn [duration_parts]. destruct (duration_part (c :: s)) as [[x s']|]; [|done]. cbn [mbind option_bind].
  destruct (Z.ltb_spec (2 ^ 63) (d + x)); [done|]. by apply IH.
Qed.
