(* ===== verification/GoFloat.v ===== *)
(** * The text of a float64 in JSON: [strconv.AppendFloat] with the shortest precision

    A double is its IEEE-754 bit pattern.  [shortest] finds the decimal with the
    fewest digits that lies in the double's rounding interval, the nearest one where
    two do; [json_float] lays it out the way [encoding/json] does. *)

From S2P Require Import Prelude GoLib JsonText.

Definition float_sign (bits : Z) : bool := Z.testbit bits 63.
Definition float_exp (bits : Z) : Z := Z.land (Z.shiftr bits 52) 2047.
Definition float_frac (bits : Z) : Z := Z.land bits (2 ^ 52 - 1).

Definition IsFinite (bits : Z) : bool := negb (float_exp bits =? 2047).

(** [(m, e)]: a finite double is [m * 2^e]. *)
Definition float_parts (bits : Z) : Z * Z :=
  if float_exp bits =? 0 then (float_frac bits, -1074)
  else (float_frac bits + 2 ^ 52, float_exp bits - 1075).

(** [n / d] for [x * 2^e]. *)
Definition rational (x e : Z) : Z * Z := if e <? 0 then (x, 2 ^ (- e)) else (x * 2 ^ e, 1).

(** The exponent of the first decimal digit: [10^E <= n/d < 10^(E+1)], from an
    estimate by the binary logarithm that is at most a few too small. *)
Fixpoint decimal_exponent (fuel : nat) (n d E : Z) : Z :=
  match fuel with
  | O => E
  | S fuel =>
      if (if E + 1 <? 0 then d <=? n * 10 ^ (- (E + 1)) else d * 10 ^ (E + 1) <=? n)
      then decimal_exponent fuel n d (E + 1) else E
  end.

(** The least number [k] of digits for which one of the two [k]-digit neighbours of
    the value lies between [lo] and [hi]: the digits and their count. *)
Fixpoint shortest_digits (fuel : nat) (k : Z) (n lo hi d E : Z) (inclusive : bool) : Z * Z :=
  let s := k - 1 - E in
  let '(up, down) := if s <? 0 then (1, 10 ^ (- s)) else (10 ^ s, 1) in
  let '(n', lo', hi', d') := (n * up, lo * up, hi * up, d * down) in
  let q := n' / d' in
  let r := n' mod d' in
  let okdown := (r =? 0) || (lo' <? q * d') || (inclusive && (q * d' =? lo')) in
  let okup := ((q + 1) * d' <? hi') || (inclusive && ((q + 1) * d' =? hi')) in
  let nearest := if (d' <? 2 * r) || ((2 * r =? d') && Z.odd q) then q + 1 else q in
  match fuel with
  | O => (nearest, k)
  | S fuel =>
      if okdown && okup then (nearest, k)
      else if okdown then (q, k)
      else if okup then (q + 1, k)
      else shortest_digits fuel (k + 1) n lo hi d E inclusive
  end.

(** The shortest decimal of a positive double: its digits, without trailing zeros,
    and the position [dp] of the decimal point, [0.digits * 10^dp]. *)
Definition shortest (bits : Z) : bytes * Z :=
  let '(m, e) := float_parts bits in
  let lower := if (m =? 2 ^ 52) && (1 <? float_exp bits) then 4 * m - 1 else 4 * m - 2 in
  let '(n, d) := rational (4 * m) (e - 2) in
  let '(lo, _) := rational lower (e - 2) in
  let '(hi, _) := rational (4 * m + 2) (e - 2) in
  let E := decimal_exponent 4 n d ((Z.log2 n - Z.log2 d - 1) * 30103 / 100000 - 1) in
  let '(digits, k) := shortest_digits 17 1 n lo hi d E (Z.even m) in
  let text := print_nat digits in
  let dp := E + 1 + (Z.of_nat (length text) - k) in
  (rev (snd (take_while (fun c => Ascii.eqb c "0"%char) (rev text))), dp).

Definition zeros (n : Z) : bytes := replicate (Z.to_nat n) "0"%char.

(** The fraction with its point, where there is one. *)
Definition with_point (frac : bytes) : bytes := match frac with [] => [] | _ => "."%char :: frac end.

(** [%f]: digits around the decimal point. *)
Definition format_f (digits : bytes) (dp : Z) : bytes :=
  let n := Z.of_nat (length digits) in
  let int := if dp <=? 0 then ["0"%char] else take (Z.to_nat dp) digits ++ zeros (dp - n) in
  let frac := if n <=? dp then [] else zeros (- dp) ++ drop (Z.to_nat dp) digits in
  int ++ with_point frac.

(** [%e], with the exponent's leading zero dropped where [encoding/json] drops it. *)
Definition format_e (digits : bytes) (dp : Z) : bytes :=
  let x := dp - 1 in
  take 1 digits ++ with_point (drop 1 digits) ++
  "e"%char :: (if x <? 0 then "-"%char else "+"%char) ::
  (if (Z.abs x <? 10) && negb (x <? 0) then "0"%char :: print_nat (Z.abs x) else print_nat (Z.abs x)).

(** The patterns of [1e-6] and [1e21], the bounds between the two layouts. *)
Definition float_1em6 : Z := 0x3eb0c6f7a0b5ed8d.
Definition float_1e21 : Z := 0x444b1ae4d6e2ef50.

(** The number [encoding/json] prints for a finite double. *)
Definition json_float (bits : Z) : bytes :=
  let abs := Z.land bits (2 ^ 63 - 1) in
  let sign := if float_sign bits then ["-"%char] else [] in
  if abs =? 0 then sign ++ ["0"%char]
  else
    let '(digits, dp) := shortest bits in
    sign ++ if (abs <? float_1em6) || (float_1e21 <=? abs) then format_e digits dp else format_f digits dp.

Example float_texts :
  bytes_string <$> (json_float <$> [0x3fb999999999999a; 1; 0x7fefffffffffffff; 0xbff8000000000000; 2 ^ 63;
    float_1em6 - 1; float_1e21 - 1; float_1e21; 0x43e0000000000000])
  = ["0.1"; "5e-324"; "1.7976931348623157e+308"; "-1.5"; "-0"; "9.999999999999997e-7"; "999999999999999900000";
     "1e+21"; "9223372036854776000"].
Proof. vm_compute. reflexivity. Qed.

(** ** The bytes of a number *)

Definition number_byte (c : byte) : bool :=
  is_digit c || Ascii.eqb c "."%char || Ascii.eqb c "e"%char || Ascii.eqb c "-"%char || Ascii.eqb c "+"%char.
Abbreviation number_bytes := (Forall (fun c => number_byte c = true)).

Lemma digits_fuel_bytes fuel n acc : number_bytes acc -> number_bytes (digits_fuel fuel n acc).
Proof.
  revert n acc. induction fuel as [|fuel IH]; intros n acc Hacc; [done|]. cbn [digits_fuel].
  assert (number_bytes (Z_byte (48 + n mod 10) :: acc)).
  { apply Forall_cons_2; [|done]. unfold number_byte.
    by rewrite (proj1 (is_digit_digit (n mod 10) (Z.mod_pos_bound n 10 eq_refl))). }
  destruct (n <? 10); [done|]. by apply IH.
Qed.

Lemma print_nat_bytes n : number_bytes (print_nat n).
Proof. apply digits_fuel_bytes, Forall_nil_2. Qed.

Lemma print_int_bytes z : number_bytes (print_int z).
Proof. unfold print_int. destruct (z <? 0); [apply Forall_cons_2; [done|]|]; apply print_nat_bytes. Qed.

Lemma take_while_suffix f l : exists front, l = front ++ (take_while f l).2.
Proof.
  induction l as [|c l [front IH]]; [by exists []|]. cbn [take_while]. destruct (f c); [|by exists []].
  destruct (take_while f l) as [ds r]. exists (c :: front). simpl in *. by rewrite <- IH.
Qed.

Lemma shortest_bytes bits : number_bytes (shortest bits).1.
Proof.
  unfold shortest. destruct (float_parts bits) as [m e]. destruct (rational (4 * m) _) as [n d].
  destruct (rational _ _) as [lo ?]. destruct (rational _ _) as [hi ?]. destruct (shortest_digits _ _ _ _ _ _ _ _) as [q k].
  cbn [fst]. apply Forall_rev. pose proof (print_nat_bytes q) as Hq. apply Forall_rev in Hq.
  destruct (take_while_suffix (fun c => Ascii.eqb c "0"%char) (rev (print_nat q))) as [front Hf].
  rewrite Hf in Hq. by apply Forall_app in Hq as [_ Hq].
Qed.

Lemma zeros_bytes n : number_bytes (zeros n).
Proof. unfold zeros. by apply Forall_replicate. Qed.

Lemma point_bytes frac : number_bytes frac ->
  number_bytes (with_point frac).
Proof. unfold with_point. destruct frac; [done|]. intros H. by apply Forall_cons_2. Qed.

Lemma format_f_bytes digits dp : number_bytes digits -> number_bytes (format_f digits dp).
Proof.
  intros H. unfold format_f. apply Forall_app_2.
  - destruct (dp <=? 0); [by repeat constructor|]. apply Forall_app_2; [by apply Forall_take|apply zeros_bytes].
  - apply point_bytes. destruct (_ <=? dp); [done|]. apply Forall_app_2; [apply zeros_bytes|by apply Forall_drop].
Qed.

Lemma format_e_bytes digits dp : number_bytes digits -> number_bytes (format_e digits dp).
Proof.
  intros H. unfold format_e. apply Forall_app_2; [by apply Forall_take|].
  apply Forall_app_2; [by apply point_bytes, Forall_drop|]. apply Forall_cons_2; [done|].
  apply Forall_cons_2; [by destruct (_ <? 0)|]. destruct (_ && _); [apply Forall_cons_2; [done|]|]; apply print_nat_bytes.
Qed.

Lemma json_float_bytes bits : number_bytes (json_float bits).
Proof.
  unfold json_float. set (sign := if float_sign bits then _ else _).
  assert (number_bytes sign) by (subst sign; destruct (float_sign bits); by repeat constructor).
  destruct (_ =? 0); [by apply Forall_app_2; [|repeat constructor]|].
  pose proof (shortest_bytes bits). destruct (shortest bits) as [digits dp]. apply Forall_app_2; [done|].
  destruct (_ || _); [by apply format_e_bytes|by apply format_f_bytes].
Qed.
