(* ===== verification/StdoutSink.v ===== *)
(** * The stdout sink (src/sink/stdout/stdout.go)

    A sink that prints every event as one line of JSON to a writer it does not own.
    The writer is the class [io_Writer]: what the interface [io.Writer] documents. *)

From S2P Require Import Prelude Ids Events GoLib Json JsonText GoText GoTime Wire Payload Storage LinkJson Archive ArchiveJson GoDuration GoFloat.

(** ** The writer *)

(** [Write] either takes all of its data or reports an error after a part of it. *)
Class io_Writer (W : Type) := {
  written : W -> bytes;
  Write_ : bytes -> M W unit;
  Write_law data w :
    let '(w', r) := Write_ data w in
    match r with
    | Ok _ => written w' = written w ++ data
    | Fail _ => exists part, part `prefix_of` data /\ written w' = written w ++ part
    | Panic _ => False
    end
}.

(** ** The sink *)

Definition stdout_ErrClosed : error := sentinel "trail/stdout: sink closed".
Definition ErrNilWriter : error := sentinel "trail/stdout: nil writer".

(** [has_writer] says that the writer is not nil. *)
Record StdoutSink := mkStdoutSink { so_writer : bool; so_closed : bool }.
#[global] Instance eta_StdoutSink : Eta StdoutSink := fun r => mkStdoutSink (so_writer r) (so_closed r).

Definition New_stdout (has_writer : bool) : StdoutSink := mkStdoutSink has_writer false.

(** The error of [encoding/json] for a NaN or an infinity. *)
Definition unsupported_value : error := errors_New "json: unsupported value".

(** [fieldValue], as the value [encoding/json] prints for it. *)
Definition fieldValue (field : Field) : result json :=
  let kind := Kind field in
  if (kind =? FieldString) || (kind =? FieldError) then Ok (JString (Text field))
  else if (kind =? FieldInt) || (kind =? FieldInt64) then Ok (JInt (Int64_ field))
  else if kind =? FieldBool then Ok (JBool (Bool_ field))
  else if kind =? FieldFloat64 then
    let bits := Float64_ field in
    if IsFinite bits then Ok (JOther (bytes_string (json_float bits))) else Fail unsupported_value
  else if kind =? FieldDuration then Ok (JString (Duration_String (Duration_ field)))
  else Ok JNull.

(** A [map[string]any] in the order [encoding/json] prints it, that of its keys. *)
Abbreviation object := (list (string * result json)).
Fixpoint map_assign (m : object) (key : string) (value : result json) : object :=
  match m with
  | [] => [(key, value)]
  | (k, v) :: rest =>
      match String.compare key k with
      | Eq => (key, value) :: rest
      | Lt => (key, value) :: m
      | Gt => (k, v) :: map_assign rest key value
      end
  end.

(** The loop that fills [encoded.Fields]. *)
Definition encoded_fields (fields : list Field) : object :=
  fold_left (fun m field => map_assign m (Key field) (fieldValue field)) fields [].

Fixpoint enc_members (m : object) : result (list (string * json)) :=
  match m with
  | [] => Ok []
  | (k, v) :: rest => j ← v; js ← enc_members rest; Ok ((k, j) :: js)
  end.

(** [encodedEvent] of an event, as JSON. *)
Definition encodedEvent (md : Metadata) (event : Event) : result json :=
  fields ← enc_members (encoded_fields (ev_Fields event));
  Ok (JObject (
    [("event_id", JString (String_ (ev_ID event)));
     ("timestamp", JString (bytes_string (format_RFC3339Nano (ev_Timestamp event))));
     ("kind", JString (ev_Kind event)); ("level", JString (Level_String (ev_Level event)))] ++
    omit_string "flow_id" (id_text (ev_FlowID event)) ++
    omit_string "execution_id" (id_text (ev_ExecutionID event)) ++
    omit_string "parent_execution_id" (id_text (ev_ParentExecutionID event)) ++
    omit_string "retry_of_execution_id" (id_text (ev_RetryOfExecutionID event)) ++
    omit_int "execution_attempt" (ev_ExecutionAttempt event) ++
    omit_string "execution_source" (ev_ExecutionSource event) ++
    omit_string "entity_type" (ev_EntityType event) ++
    omit_string "entity_id" (ev_EntityID event) ++
    omit_string "parent_id" (id_text (ev_ParentID event)) ++
    [("service", JString (md_Service md))] ++
    omit_string "environment" (md_Environment md) ++
    omit_string "version" (md_Version md) ++
    omit (bool_decide (fields = [])) "fields" (JObject fields))).

Section Stdout.
Context `{io_Writer W}.

(** [encoder.Encode]: the value and a newline, in one write. *)
Definition stdout_line (md : Metadata) (event : Event) : result bytes :=
  j ← encodedEvent md event; Ok (json_print j ++ [newline]).

Fixpoint encode_all (md : Metadata) (events : list Event) : M W unit :=
  match events with
  | [] => mret tt
  | event :: rest => line ← lift (stdout_line md event); _ ← Write_ line; encode_all md rest
  end.

Definition stdout_WriteBatch (s : StdoutSink) (batch : Batch) : M W unit :=
  if so_closed s then fail stdout_ErrClosed
  else if negb (so_writer s) then fail ErrNilWriter
  else encode_all (b_Metadata batch) (b_Events batch).

(** [Close] leaves the writer to its owner. *)
Definition stdout_Close (s : StdoutSink) : StdoutSink * option error := (s <| so_closed := true |>, None).
End Stdout.

(** ** The fields of a line *)

Fixpoint object_get {V} (m : list (string * V)) (key : string) : option V :=
  match m with
  | [] => None
  | (k, v) :: rest => if str_eqb key k then Some v else object_get rest key
  end.

Definition key_lt (a b : string) : Prop := String.compare a b = Lt.

Lemma compare_trans a b c : key_lt a b -> key_lt b c -> key_lt a c.
Proof.
  unfold key_lt. revert b c. induction a as [|x a IH]; intros [|y b] [|z c]; try done. cbn [String.compare].
  unfold Ascii.compare.
  destruct (N.compare_spec (Ascii.N_of_ascii x) (Ascii.N_of_ascii y)) as [Hxy|Hxy|Hxy]; [| |done];
  destruct (N.compare_spec (Ascii.N_of_ascii y) (Ascii.N_of_ascii z)) as [Hyz|Hyz|Hyz]; try done; intros H1 H2.
  - rewrite Hxy, Hyz, N.compare_refl. by eapply IH.
  - by rewrite Hxy, (proj2 (N.compare_lt_iff _ _) Hyz).
  - by rewrite <- Hyz, (proj2 (N.compare_lt_iff _ _) Hxy).
  - rewrite (proj2 (N.compare_lt_iff _ _)); [done|]. by transitivity (Ascii.N_of_ascii y).
Qed.

(** The members are in the strict order of their keys. *)
Definition object_sorted (m : object) : Prop := StronglySorted key_lt m.*1.

Lemma compare_same a : String.compare a a = Eq.
Proof. induction a as [|c a IH]; [done|]. cbn [String.compare]. unfold Ascii.compare. by rewrite N.compare_refl. Qed.

Lemma compare_gt a b : String.compare a b = Gt -> key_lt b a.
Proof. unfold key_lt. rewrite String.compare_antisym. by destruct (String.compare b a). Qed.

Lemma map_assign_keys m key v k : k ∈ (map_assign m key v).*1 -> k = key \/ k ∈ m.*1.
Proof.
  induction m as [|[k' v'] m IH]; cbn [map_assign]; [set_solver|].
  destruct (String.compare key k') eqn:E; cbn [fmap list_fmap fst]; rewrite ?elem_of_cons; [tauto|tauto|].
  intros [->|Hk]; [tauto|]. apply IH in Hk. tauto.
Qed.

Lemma map_assign_sorted m key v : object_sorted m -> object_sorted (map_assign m key v).
Proof.
  unfold object_sorted. induction m as [|[k' v'] m IH]; cbn [map_assign]; [by repeat constructor|].
  intros Hs. apply StronglySorted_inv in Hs as [Hs Hk].
  destruct (String.compare key k') eqn:E; cbn [fmap list_fmap fst].
  - apply String.compare_eq_iff in E as <-. by constructor.
  - constructor; [by constructor|]. constructor; [done|]. eapply Forall_impl; [exact Hk|]. intros x. by apply compare_trans.
  - constructor; [by apply IH|]. apply Forall_forall. intros x Hx. apply map_assign_keys in Hx as [->|Hx].
    + by apply compare_gt.
    + rewrite Forall_forall in Hk. by apply Hk.
Qed.

Lemma map_assign_get m key v k : object_sorted m ->
  object_get (map_assign m key v) k = if str_eqb k key then Some v else object_get m k.
Proof.
  unfold object_sorted. induction m as [|[k' v'] m IH]; cbn [map_assign object_get]; [done|].
  intros Hs. apply StronglySorted_inv in Hs as [Hs Hk].
  destruct (String.compare key k') eqn:E; cbn [object_get]; unfold str_eqb in *.
  - apply String.compare_eq_iff in E as <-. by case_bool_decide.
  - done.
  - rewrite IH by done. case_bool_decide as H1; case_bool_decide as H2; try done. subst k'. subst k.
    by rewrite compare_same in E.
Qed.

(** The object printed for the fields of an event has every key once, in order, with
    the value of the last field of that key. *)
Lemma encoded_fields_spec (fields : list Field) :
  object_sorted (encoded_fields fields) /\
  forall key, object_get (encoded_fields fields) key =
    fieldValue <$> last (filter (fun f => Key f = key) fields).
Proof.
  induction fields as [|f fields [Hs IH]] using rev_ind; [by split; [constructor|]|].
  unfold encoded_fields in *. rewrite fold_left_app. cbn [fold_left]. split; [by apply map_assign_sorted|].
  intros key. rewrite map_assign_get by done. rewrite filter_app. unfold str_eqb. case_bool_decide as Hk.
  - subst key. rewrite filter_cons_True by done. by rewrite filter_nil, last_snoc.
  - rewrite filter_cons_False by (intros Heq; by apply Hk). by rewrite filter_nil, app_nil_r.
Qed.

(** What a line says: the members that name the event and its place, and every
    field under its key. *)
Definition line_fields (ms : list (string * json)) : list (string * json) :=
  match object_get ms "fields" with Some (JObject fs) => fs | _ => [] end.

Definition optional_id (id : id16) : option json := if IsZero id then None else Some (JString (String_ id)).
Definition optional_text (s : string) : option json := if str_eqb s "" then None else Some (JString s).

Definition describes (md : Metadata) (e : Event) (j : json) : Prop := exists ms, j = JObject ms /\
  (object_get ms <$> ["event_id"; "timestamp"; "kind"; "level"; "service"]) =
    Some <$> [JString (String_ (ev_ID e)); JString (bytes_string (format_RFC3339Nano (ev_Timestamp e)));
              JString (ev_Kind e); JString (Level_String (ev_Level e)); JString (md_Service md)] /\
  (object_get ms <$> ["flow_id"; "execution_id"; "parent_execution_id"; "retry_of_execution_id"; "parent_id"]) =
    optional_id <$> [ev_FlowID e; ev_ExecutionID e; ev_ParentExecutionID e; ev_RetryOfExecutionID e; ev_ParentID e] /\
  (object_get ms <$> ["execution_source"; "entity_type"; "entity_id"; "environment"; "version"]) =
    optional_text <$> [ev_ExecutionSource e; ev_EntityType e; ev_EntityID e; md_Environment md; md_Version md] /\
  object_get ms "execution_attempt" = (if ev_ExecutionAttempt e =? 0 then None else Some (JInt (ev_ExecutionAttempt e))) /\
  forall key, Ok <$> object_get (line_fields ms) key = fieldValue <$> last (filter (fun f => Key f = key) (ev_Fields e)).

Lemma object_get_omit key k empty v rest :
  object_get (omit empty k v ++ rest) key =
  if str_eqb key k && negb empty then Some v else object_get rest key.
Proof. destruct empty; cbn [omit app object_get negb]; [by rewrite andb_false_r|]. by rewrite andb_true_r. Qed.

Lemma object_get_omit1 key k empty (v : json) :
  object_get (omit empty k v) key = if str_eqb key k && negb empty then Some v else None.
Proof. rewrite <- (app_nil_r (omit _ _ _)). apply object_get_omit. Qed.

Lemma enc_members_get m js key : enc_members m = Ok js -> object_get m key = Ok <$> object_get js key.
Proof.
  revert js. induction m as [|[k v] m IH]; intros js; cbn [enc_members]; [by intros E; apply Ok_inj in E as <-|].
  destruct v as [j|e|e]; [|done|done]. cbn [mbind result_bind]. destruct (enc_members m) as [js'|e|e]; [|done|done].
  cbn. intros E. apply Ok_inj in E as <-. cbn [object_get]. destruct (str_eqb key k); [done|]. by apply IH.
Qed.

Lemma id_text_optional id :
  (if negb (bool_decide (id_text id = "")) then Some (JString (id_text id)) else None) = optional_id id.
Proof.
  unfold id_text, optional_id. destruct (IsZero id); [done|]. rewrite bool_decide_eq_false_2; [done|].
  unfold String_. intros E. pose proof (slen_encodeID id) as Hl. by rewrite E in Hl.
Qed.

Lemma negb_option {A} (b : bool) (x : A) : (if negb b then Some x else None) = if b then None else Some x.
Proof. by destruct b. Qed.

(** [read_line] looks a literal key up among literal members. *)
Ltac read_line :=
  unfold omit_string, omit_int; cbn [app object_get]; rewrite ?object_get_omit; cbn [app object_get];
  rewrite ?object_get_omit, ?object_get_omit1;
  repeat match goal with
  | |- context [str_eqb ?a ?b] =>
      is_ground a; is_ground b; let v := eval vm_compute in (str_eqb a b) in change (str_eqb a b) with v
  end;
  cbn [andb].

Lemma encodedEvent_describes md e j : encodedEvent md e = Ok j -> describes md e j.
Proof.
  unfold encodedEvent. destruct (enc_members _) as [fs|err|err] eqn:E; [|done|done]. cbn [mbind result_bind].
  intros H. apply Ok_inj in H as <-. eexists. split; [reflexivity|].
  split; [|split; [|split; [|split]]]; cbn [fmap list_fmap]; unfold line_fields; read_line; rewrite ?id_text_optional.
  - done.
  - done.
  - by rewrite !negb_option.
  - by rewrite negb_option.
  - intros key. rewrite <- (proj2 (encoded_fields_spec _)), (enc_members_get _ _ key E). by case_bool_decide; subst.
Qed.

(** ** Lines *)

Definition frame (l : bytes) : bytes := l ++ [newline].

Lemma number_graphic l : number_bytes l -> forallb graphic l = true.
Proof.
  assert (forall c, implb (number_byte c) (graphic c) = true) as Hall by (apply byte_forall; vm_compute; reflexivity).
  intros H. apply forallb_forall. intros c Hc. rewrite Forall_forall in H. apply list_elem_of_In, H in Hc.
  specialize (Hall c). by rewrite Hc in Hall.
Qed.

Lemma fieldValue_literals f j : fieldValue f = Ok j -> literals_ok j = true.
Proof.
  unfold fieldValue. intros H.
  repeat match type of H with (if ?c then _ else _) = _ => destruct c end; try done; apply Ok_inj in H as <-; try done.
  cbn [literals_ok].
  rewrite String.list_ascii_of_string_of_list_ascii. apply number_graphic, json_float_bytes.
Qed.

Lemma map_assign_forall (P : result json -> Prop) m key v :
  Forall (fun kv => P kv.2) m -> P v -> Forall (fun kv => P kv.2) (map_assign m key v).
Proof.
  intros H Hv. induction H as [|[k' v'] m Hv' Hm IH]; cbn [map_assign]; [by repeat constructor|].
  destruct (String.compare key k'); by repeat constructor.
Qed.

(** What holds of every field's value holds of the members of the object. *)
Lemma encoded_fields_forall (P : result json -> Prop) fields :
  (forall f, P (fieldValue f)) -> Forall (fun kv => P kv.2) (encoded_fields fields).
Proof.
  intros HP. unfold encoded_fields. induction fields as [|f fields IH] using rev_ind; [by constructor|].
  rewrite fold_left_app. by apply map_assign_forall.
Qed.

Lemma enc_members_literals m js : Forall (fun kv => forall j, kv.2 = Ok j -> literals_ok j = true) m ->
  enc_members m = Ok js -> literals_ok (JObject js) = true.
Proof.
  intros H. revert js. induction H as [|[k v] m Hv Hm IH]; intros js; cbn [enc_members]; [by intros E; apply Ok_inj in E as <-|].
  destruct v as [j|e|e]; [|done|done]. cbn [mbind result_bind]. destruct (enc_members m) as [js'|e|e]; [|done|done].
  cbn. intros E. apply Ok_inj in E as <-. cbn [literals_ok forallb]. apply andb_true_iff. split; [by apply Hv|].
  by apply IH.
Qed.

Lemma omit_literals empty key v : literals_ok v = true ->
  forallb (fun '(_, v) => literals_ok v) (omit empty key v) = true.
Proof. intros H. destruct empty; [done|]. cbn [omit forallb]. by rewrite H. Qed.

Lemma encodedEvent_literals md e j : encodedEvent md e = Ok j -> literals_ok j = true.
Proof.
  unfold encodedEvent. destruct (enc_members _) as [fields|err|err] eqn:E; [|done|done]. cbn [mbind result_bind].
  intros H. apply Ok_inj in H as <-. cbn [literals_ok].
  assert (literals_ok (JObject fields) = true) as Hf.
  { apply (enc_members_literals _ _ (encoded_fields_forall (fun v => forall j, v = Ok j -> literals_ok j = true) _ fieldValue_literals) E). }
  rewrite !forallb_app. repeat (apply andb_true_iff; split); try reflexivity; by apply omit_literals.
Qed.

Lemma encodedEvent_returns md e m : encodedEvent md e <> Panic m.
Proof.
  assert (Forall (fun kv : string * result json => match kv.2 with Panic _ => False | _ => True end) (encoded_fields (ev_Fields e))) as Hf.
  { apply (encoded_fields_forall (fun v => match v with Panic _ => False | _ => True end)). intros f. unfold fieldValue.
    repeat case_match; try done. }
  unfold encodedEvent. destruct (enc_members _) as [js|err|err] eqn:E; [done|done|]. exfalso.
  induction Hf as [|[k v] l Hv _ IH]; [done|]. cbn [enc_members] in E. destruct v; [|done|done].
  cbn [mbind result_bind] in E. destruct (enc_members l); [done|done|]. by apply IH.
Qed.

Lemma encoded_newline md e j : encodedEvent md e = Ok j -> newline ∉ json_print j.
Proof.
  intros H. apply encodedEvent_literals, literals_print_line in H. intros Hn. unfold one_line in H.
  rewrite Forall_forall in H. by apply H in Hn.
Qed.

Section Lines.
Context `{io_Writer W}.
Context (md : Metadata).

(** The lines of the events printed so far, and what a failed write left of the next. *)
Definition printed (events : list Event) (texts : list bytes) (part : bytes) (w w' : W) : Prop :=
  written w' = written w ++ concat (frame <$> texts) ++ part /\
  Forall2 (fun e text => exists j, encodedEvent md e = Ok j /\ text = json_print j) (take (length texts) events) texts.

Lemma encode_all_printed events w w' r : encode_all md events w = (w', r) ->
  exists texts part, printed events texts part w w' /\
    match r with
    | Ok _ => length texts = length events /\ part = []
    | Fail _ => exists e, events !! length texts = Some e /\
        (part = [] \/ exists line, stdout_line md e = Ok line /\ part `prefix_of` line)
    | Panic _ => False
    end.
Proof.
  revert w w' r. induction events as [|e events IH]; intros w w' r; cbn [encode_all].
  - intros [= <- <-]. exists [], []. by repeat split; [rewrite app_nil_r|constructor].
  - unfold mbind, M_bind, lift. unfold stdout_line at 1. destruct (encodedEvent md e) as [j|err|m] eqn:Ej; cbn [mbind result_bind].
    2: { intros [= <- <-]. exists [], []. split; [by split; [by rewrite app_nil_r|constructor]|]. exists e. by split; [|left]. }
    2: { by apply encodedEvent_returns in Ej. }
    pose proof (Write_law (frame (json_print j)) w) as Hw. unfold frame in Hw at 1.
    destruct (Write_ (json_print j ++ [newline]) w) as [w1 [[]|err|m]]; [| |done].
    + intros Hrun. destruct (IH _ _ _ Hrun) as (texts & part & [Hout Htexts] & Hr). exists (json_print j :: texts), part.
      split; [|destruct r; [split; [simpl; lia|apply Hr]|exact Hr|done]]. split; [|by constructor; [eauto|]].
      rewrite Hout, Hw. csimpl. by rewrite <- !app_assoc.
    + intros [= <- <-]. destruct Hw as (part & Hp & Hw). exists [], part. split; [by split; [|constructor]|].
      exists e. split; [done|]. right. eexists. split; [|exact Hp]. unfold stdout_line. by rewrite Ej.
Qed.
End Lines.

(** On an open sink [WriteBatch] prints one line of JSON per event, in order: the
    output grows by whole lines, each the JSON of the next event's identifiers,
    metadata and fields (the last value of a repeated key) that a JSON reader gives
    back; success means a line for every event, failure stops at the event that could
    not be encoded or written with at most a part of its line behind the whole
    lines.  A closed sink, or one without a writer, writes nothing. *)
Lemma stdout_lines `{io_Writer W} (s : StdoutSink) (batch : Batch) (w : W) :
  let '(w', r) := stdout_WriteBatch s batch w in
  if so_closed s then w' = w /\ r = Fail stdout_ErrClosed
  else if negb (so_writer s) then w' = w /\ r = Fail ErrNilWriter
  else exists texts part,
    written w' = written w ++ concat (frame <$> texts) ++ part /\
    split_lines (concat (frame <$> texts)) = texts ++ [[]] /\
    Forall2 (fun e text => exists j, encodedEvent (b_Metadata batch) e = Ok j /\ text = json_print j /\
        describes (b_Metadata batch) e j /\ (json_ok j = true -> json_parse text = Ok j))
      (take (length texts) (b_Events batch)) texts /\
    match r with
    | Ok _ => length texts = length (b_Events batch) /\ part = []
    | Fail _ => exists e, b_Events batch !! length texts = Some e /\
        (part = [] \/ exists line, stdout_line (b_Metadata batch) e = Ok line /\ part `prefix_of` line)
    | Panic _ => False
    end.
Proof.
  destruct (stdout_WriteBatch s batch w) as [w' r] eqn:Hrun. unfold stdout_WriteBatch in Hrun.
  destruct (so_closed s); [by injection Hrun as <- <-|]. destruct (negb (so_writer s)); [by injection Hrun as <- <-|].
  apply encode_all_printed in Hrun as (texts & part & [Hout Htexts] & Hr). exists texts, part.
  split; [done|]. split; [|split; [|done]].
  - apply split_lines_data. clear -Htexts. induction Htexts as [|e text es texts (j & Hj & ->) _ IH]; [by constructor|].
    constructor; [by eapply encoded_newline|done].
  - eapply Forall2_impl; [exact Htexts|]. intros e text (j & Hj & ->). exists j. split; [done|]. split; [done|].
    split; [by apply encodedEvent_describes|]. apply json_parse_print.
Qed.

(** ** A bounded writer *)

(** A writer with room for [cap] bytes. *)
Record bounded := mkBounded { bw_data : bytes; bw_cap : nat }.
Definition ENOSPC : error := sentinel "no space left on device".
Definition bounded_Write (data : bytes) : M bounded unit := fun w =>
  let room := (bw_cap w - length (bw_data w))%nat in
  (mkBounded (bw_data w ++ take room data) (bw_cap w),
   if Nat.leb (length data) room then Ok tt else Fail ENOSPC).

#[export] Instance bounded_Writer : io_Writer bounded.
Proof.
  refine {| written := bw_data; Write_ := bounded_Write |}.
  intros data w. unfold bounded_Write. destruct (Nat.leb_spec (length data) (bw_cap w - length (bw_data w))); simpl.
  - by rewrite take_ge.
  - eexists. split; [|done]. apply prefix_take.
Defined.

Definition demo_output : bounded * result unit := stdout_WriteBatch (New_stdout true) demo_batch (mkBounded [] 4096).

Lemma stdout_lines_example : demo_output.2 = Ok tt /\
  exists texts part, bw_data demo_output.1 = concat (frame <$> texts) ++ part /\
    split_lines (concat (frame <$> texts)) = texts ++ [[]].
Proof.
  split; [vm_compute; reflexivity|].
  pose proof (stdout_lines (New_stdout true) demo_batch (mkBounded [] 4096)) as H.
  unfold demo_output. destruct (stdout_WriteBatch _ _ _) as [w' r]. destruct H as (texts & part & Hout & Hsplit & _).
  exists texts, part. split; [exact Hout|exact Hsplit].
Defined.

(** A float field that is not a number stops the batch before the event's line. *)
Example stdout_refuses_nan :
  (stdout_WriteBatch (New_stdout true)
    (mkBatch (mkMetadata "s" "" "")
      [new_event (zero_array 16) 0 "a"; build_event (zero_array 16) 0 "b" [Float64_opt "x" (0x7ff8000000000001)]])
    (mkBounded [] 4096)).2 = Fail unsupported_value.
Proof. vm_compute. reflexivity. Qed.
