(* ===== verification/Programs.v ===== *)
(** * A program that logs to its standard output
      (src/examples/basic/main.go, src/examples/flow/main.go)

    The writer with the stdout sink behind it: what a program has logged when [Close]
    returns is on its output, line by line.  The two example programs are run. *)

From S2P Require Import Prelude Ids Events GoLib Json JsonText Writer WriterSystem WriterLiveness WriterExamples StdoutSink.

(** ** The sink's calls carried out by the stdout sink *)

(** The answer the writer saw of a [WriteBatch]. *)
Definition answer_of (r : result unit) : option (option error) :=
  match r with Ok _ => Some None | Fail e => Some (Some e) | Panic _ => None end.

Section Printing.
Context `{io_Writer W}.

(** The calls of a writer on the sink, one after the other; [None] when the sink
    answers otherwise than the writer saw. *)
Fixpoint stdout_calls (sink : StdoutSink) (calls : list sinkCall) (w : W) : option W :=
  match calls with
  | [] => Some w
  | SinkWrite batch err :: calls =>
      let '(w', r) := stdout_WriteBatch sink batch w in
      if bool_decide (answer_of r = Some err) then stdout_calls sink calls w' else None
  | SinkClose err :: calls =>
      let '(sink', e) := stdout_Close sink in
      if bool_decide (e = err) then stdout_calls sink' calls w else None
  end.

(** Each event's line: the JSON of the event. *)
Definition line_of (md : Metadata) (e : Event) (text : bytes) : Prop :=
  exists j, encodedEvent md e = Ok j /\ text = json_print j /\ describes md e j.

Lemma WriteBatch_prints md events (w w' : W) :
  stdout_WriteBatch (New_stdout true) (mkBatch md events) w = (w', Ok tt) ->
  exists texts, written w' = written w ++ concat (frame <$> texts) /\ Forall2 (line_of md) events texts.
Proof.
  unfold stdout_WriteBatch. cbn [New_stdout so_closed so_writer negb b_Metadata b_Events]. intros Hrun.
  apply encode_all_printed in Hrun as (texts & part & [Hout Htexts] & Hlen & ->). exists texts.
  rewrite app_nil_r in Hout. split; [done|]. rewrite take_ge in Htexts by lia.
  eapply Forall2_impl; [exact Htexts|]. intros e text (j & Hj & ->). exists j. split_and!; [done|done|by apply encodedEvent_describes].
Qed.

Definition write_ok (md : Metadata) (call : sinkCall) : Prop :=
  match call with SinkWrite b err => b_Metadata b = md /\ err = None | SinkClose _ => False end.

Lemma stdout_calls_print md writes closeErr (w w' : W) : Forall (write_ok md) writes ->
  stdout_calls (New_stdout true) (writes ++ [SinkClose closeErr]) w = Some w' ->
  exists texts, written w' = written w ++ concat (frame <$> texts) /\ Forall2 (line_of md) (published writes) texts.
Proof.
  intros HF. revert w. induction HF as [|call writes Hc HF IH]; intros w; cbn [app stdout_calls].
  - cbn [stdout_Close]. case_bool_decide; [|done]. intros [= <-]. exists []. by rewrite app_nil_r.
  - destruct call as [[md' events] err|]; [|done]. destruct Hc as [<- ->]. cbn [b_Metadata] in *.
    destruct (stdout_WriteBatch _ _ w) as [w1 [[]|e|m]] eqn:Hw; cbn [answer_of]; case_bool_decide as Ha; try done.
    intros Hrest. destruct (WriteBatch_prints _ _ _ _ Hw) as (t1 & Ho1 & Ht1). destruct (IH _ Hrest) as (t2 & Ho2 & Ht2).
    exists (t1 ++ t2). rewrite fmap_app, concat_app, Ho2, Ho1, <- app_assoc. split; [done|]. by apply Forall2_app.
Qed.

Lemma first_error_writes calls : first_error calls = None ->
  Forall (fun call => match call with SinkWrite _ err => err = None | SinkClose _ => True end) calls.
Proof.
  induction calls as [|call calls IH] using rev_ind; [by constructor|]. rewrite first_error_app.
  destruct (first_error calls); [done|]. intros Hc. apply Forall_app_2; [by apply IH|]. constructor; [by destruct call|constructor].
Qed.

Lemma published_close writes closeErr : published (writes ++ [SinkClose closeErr]) = published writes.
Proof. unfold published. rewrite fmap_app, concat_app. apply app_nil_r. Qed.

(** C15.  What a program logs is on its standard output.  Under any schedule of the
    program's goroutines and the writer, with the stdout sink behind the writer: when
    [Close] returns no error, the output has grown by exactly one line for every event
    that was queued, in the order the events entered the queue, each line the JSON of
    its event with the program's metadata. *)
Theorem logged_is_printed (s s' : world) (i k : nat) (choice : thread_choice) (w : writer) (out out' : W) :
  reach s -> few_calls s' -> g_threads s !! i = Some (CloseWaiting k) -> step_fn (AThread i choice) s = Some s' ->
  g_writers s' !! k = Some w -> g_threads s' !! i = Some (CloseReturned None) ->
  stdout_calls (New_stdout true) (w_calls w) out = Some out' ->
  exists texts, written out' = written out ++ concat (frame <$> texts) /\ Forall2 (line_of (w_metadata w)) (w_sent w) texts.
Proof.
  intros Hr Hlen Hi Hstep Hk Hret Hout.
  destruct (close_drained s s' s' i k choice Hr Hlen Hi Hstep ltac:(by apply rtc_refl))
    as (w1 & writes & closeErr & Hk1 & Hpub & Hcalls & Hws & Hret1 & _).
  rewrite Hk in Hk1. injection Hk1 as <-. rewrite Hret in Hret1. injection Hret1 as Hjoin.
  assert (first_error (w_calls w) = None) as Hnone by (by destruct (first_error (w_calls w)), closeErr).
  assert (reach s') as Hr' by (eapply reachable_step; [done|by exists (AThread i choice)]).
  pose proof (gi_writers s' (reach_ginv s' Hr' Hlen) k w Hk) as Hw.
  rewrite <- Hpub, Hcalls, published_close. rewrite Hcalls in Hout. eapply stdout_calls_print; [|exact Hout].
  apply first_error_writes in Hnone. pose proof (wi_calls _ _ _ Hw) as Hok. rewrite Hcalls in Hnone, Hok.
  apply Forall_app in Hnone as [Hnone _]. apply Forall_app in Hok as [Hok _].
  rewrite Forall_forall in Hws, Hnone, Hok |- *. intros call Hin. specialize (Hws _ Hin). specialize (Hnone _ Hin). specialize (Hok _ Hin).
  destruct call; [|done]. cbn in *. by split; [apply Hok|].
Qed.
End Printing.

(** ** The example programs *)

(** The calls of [main], in order; [defer trail.Close()] comes last. *)
Definition basic_main : list thread :=
  [ InitCall (mkConfig "order-worker" "development" "" true 0 0 0 Drop);
    LogCall "service.started" [String_opt "component" "matcher"];
    CloseCall ].

(** The two identifiers are what [NewExecution] and [NewFlow] returned. *)
Definition flow_main (executionID : ExecutionID) (flowID : FlowID) : list thread :=
  [ InitCall (mkConfig "order-worker" "" "" true 0 0 0 Drop);
    LogCall "catalog.sync.started" [Execution executionID];
    LogCall "order.fulfillment.started" [Execution executionID; Flow flowID; Entity "order" "order_123"];
    LogCall "order.fulfillment.inventory_reserved"
      [Execution executionID; Flow flowID; String_opt "warehouse" "warehouse-a"; Int_opt "available_units" 97];
    CloseCall ].

(** The event a call logs. *)
Definition event_of (id : EventID) (now : Z) (t : thread) : option Event :=
  match t with LogCall kind options => Some (build_event id now kind options) | _ => None end.

(** Every event of the second program belongs to its execution, and all but the first
    to its flow. *)
Lemma flow_correlated executionID flowID id now :
  let events := omap (event_of id now) (flow_main executionID flowID) in
  Forall (fun e => ev_ExecutionID e = executionID) events /\ Forall (fun e => ev_FlowID e = flowID) (tail events).
Proof. by repeat constructor. Qed.

(** The first program, each call running until it returns or waits, and then the writer. *)
Definition basic_schedule : list action :=
  [ASpawn (InitCall (mkConfig "order-worker" "development" "" true 0 0 0 Drop)); go 0;
   ASpawn (LogCall "service.started" [String_opt "component" "matcher"])] ++ replicate 9 (go 1) ++
  [ASpawn CloseCall; go 2; go 2; go 2] ++ replicate 6 (ARun 0 CaseStop None).

Example basic_schedule_calls :
  omap (fun a => match a with ASpawn t => Some t | _ => None end) basic_schedule = basic_main.
Proof. reflexivity. Qed.

Definition basic_closed : world := run_sched (basic_schedule ++ [go 2]).
Definition basic_writer : writer := default (newWriter demo_config) (g_writers basic_closed !! 0%nat).
Definition basic_output : bounded := default (mkBounded [] 0) (stdout_calls (New_stdout true) (w_calls basic_writer) (mkBounded [] 4096)).

Lemma logged_is_printed_witness :
  length (w_sent basic_writer) = 1%nat /\
  exists texts, bw_data basic_output = concat (frame <$> texts) /\ Forall2 (line_of (w_metadata basic_writer)) (w_sent basic_writer) texts.
Proof.
  split; [vm_compute; reflexivity|].
  destruct (logged_is_printed (run_sched basic_schedule) basic_closed 2 0 (any_choice true) basic_writer (mkBounded [] 4096) basic_output)
    as (texts & H1 & H2).
  - apply run_sched_reach.
  - vm_compute. reflexivity.
  - vm_compute. reflexivity.
  - vm_compute. reflexivity.
  - vm_compute. reflexivity.
  - vm_compute. reflexivity.
  - vm_compute. reflexivity.
  - exists texts. split; [exact H1|exact H2].
Defined.
