(* ===== verification/GoFlag.v ===== *)
(** * Command lines: the package [flag]

    What the commands use of it: a set of named flags with their defaults, and
    [FlagSet.Parse], which reads them off the front of the arguments.  Integers are
    read by [strconv] with base 0, so base prefixes and underscores are allowed. *)

From S2P Require Import Prelude Events GoLib JsonText GoText GoTime GoDuration.

(** ** Integers with base 0 *)

Definition lower_Z (c : byte) : Z := byte_Z (lower_ascii c).

(** The value of a digit or letter. *)
Definition digit36 (c : byte) : option Z :=
  let z := lower_Z c in
  if is_digit c then Some (digit_value c)
  else if (97 <=? z) && (z <=? 122) then Some (z - 97 + 10)
  else None.

Definition underscore (c : byte) : bool := Ascii.eqb c "_"%char.

(** The base that the prefix of a text chooses, and the digits after it. *)
Definition base_prefix (s : bytes) : Z * bytes :=
  match s with
  | "0"%char :: c :: (_ :: _) as digits =>
      if lower_Z c =? 98 then (2, drop 2 s) else if lower_Z c =? 111 then (8, drop 2 s)
      else if lower_Z c =? 120 then (16, drop 2 s) else (8, drop 1 s)
  | "0"%char :: digits => (8, digits)
  | _ => (10, s)
  end.

Fixpoint base_digits (base n : Z) (s : bytes) : option Z :=
  match s with
  | [] => Some n
  | c :: s =>
      if underscore c then base_digits base n s
      else match digit36 c with
           | Some d => if base <=? d then None else base_digits base (n * base + d) s
           | None => None
           end
  end.

(** [underscoreOK]: the state is 0 after a digit, 1 after an underscore, 2 elsewhere. *)
Fixpoint underscores_ok (hex : bool) (saw : Z) (s : bytes) : bool :=
  match s with
  | [] => negb (saw =? 1)
  | c :: s =>
      if is_digit c || (hex && (97 <=? lower_Z c) && (lower_Z c <=? 102)) then underscores_ok hex 0 s
      else if underscore c then (saw =? 0) && underscores_ok hex 1 s
      else negb (saw =? 1) && underscores_ok hex 2 s
  end.
Definition underscoreOK (s : bytes) : bool :=
  match s with
  | "0"%char :: c :: rest =>
      if (lower_Z c =? 98) || (lower_Z c =? 111) || (lower_Z c =? 120)
      then underscores_ok (lower_Z c =? 120) 0 rest else underscores_ok false 2 s
  | _ => underscores_ok false 2 s
  end.

(** The digits of an unsigned number without its range. *)
Definition parse_base0 (s : bytes) : option Z :=
  match s with
  | [] => None
  | _ =>
      let '(base, digits) := base_prefix s in
      n ← base_digits base 0 digits;
      if existsb underscore digits && negb (underscoreOK s) then None else Some n
  end.

(** [strconv.ParseUint(s, 0, 64)] and [strconv.ParseInt(s, 0, 64)]; [None] is an error. *)
Definition ParseUint0 (s : string) : option Z :=
  n ← parse_base0 (string_bytes s); if n <? 2 ^ 64 then Some n else None.
Definition ParseInt0 (s : string) : option Z :=
  let '(neg, digits) :=
    match string_bytes s with
    | "+"%char :: rest => (false, rest)
    | "-"%char :: rest => (true, rest)
    | rest => (false, rest)
    end in
  n ← parse_base0 digits;
  if neg then (if n <=? 2 ^ 63 then Some (- n) else None) else (if n <? 2 ^ 63 then Some n else None).

(** ** Flags *)

Inductive flag_value :=
| FString (s : string)
| FBool (b : bool)
| FInt (z : Z)
| FUint64 (z : Z)
| FDuration (z : Z).

(** The flags of a set with their current values. *)
Abbreviation FlagSet := (list (string * flag_value)).

Definition flag_error (what name : string) : error := errors_New (what +:+ ": -" +:+ name).

(** [flag.Value.Set]; [None] is its error. *)
Definition flag_Set (old : flag_value) (text : string) : option flag_value :=
  match old with
  | FString _ => Some (FString text)
  | FBool _ => FBool <$> ParseBool text
  | FInt _ => FInt <$> ParseInt0 text
  | FUint64 _ => FUint64 <$> ParseUint0 text
  | FDuration _ => match ParseDuration text with Ok d => Some (FDuration d) | _ => None end
  end.

Fixpoint flag_lookup (fs : FlagSet) (name : string) : option flag_value :=
  match fs with [] => None | (n, v) :: fs => if str_eqb name n then Some v else flag_lookup fs name end.
Fixpoint flag_store (fs : FlagSet) (name : string) (v : flag_value) : FlagSet :=
  match fs with
  | [] => []
  | (n, old) :: fs => if str_eqb name n then (n, v) :: fs else (n, old) :: flag_store fs name v
  end.

(** A flag's name and the value after its equals sign, which cannot come first. *)
Definition flag_split (name : string) : string * option string :=
  match name with
  | String c rest =>
      match cut_byte "="%char rest with
      | Some (before, after) => (String c before, Some after)
      | None => (name, None)
      end
  | EmptyString => (name, None)
  end.

Definition ErrHelp : error := sentinel "flag: help requested".

(** The name of the flag an argument holds: [None] is an argument that is no flag,
    [Some None] one with bad syntax. *)
Definition flag_name (arg : string) : option (option string) :=
  match arg with
  | String "-" (String "-" name) =>
      match name with
      | EmptyString => None
      | String c _ => if Ascii.eqb c "-"%char || Ascii.eqb c "="%char then Some None else Some (Some name)
      end
  | String "-" (String c rest) => if Ascii.eqb c "="%char then Some None else Some (Some (String c rest))
  | _ => None
  end.

Definition flag_assign (fs : FlagSet) (name : string) (old : flag_value) (text : string) : result FlagSet :=
  match flag_Set old text with
  | Some v => Ok (flag_store fs name v)
  | None => Fail (flag_error "invalid value" name)
  end.

(** [FlagSet.Parse] with [ContinueOnError]: one pass over the arguments, each flag
    taking one or two of them; what follows the flags is ignored by the commands. *)
Fixpoint flag_Parse (fs : FlagSet) (args : list string) : result FlagSet :=
  match args with
  | [] => Ok fs
  | arg :: rest =>
      match flag_name arg with
      | None => Ok fs
      | Some None => Fail (flag_error "bad flag syntax" arg)
      | Some (Some whole) =>
          let '(name, value) := flag_split whole in
          match flag_lookup fs name with
          | None =>
              if str_eqb name "help" || str_eqb name "h" then Fail ErrHelp
              else Fail (flag_error "flag provided but not defined" name)
          | Some (FBool b) =>
              fs' ← flag_assign fs name (FBool b) (default "true" value); flag_Parse fs' rest
          | Some old =>
              match value, rest with
              | Some text, _ => fs' ← flag_assign fs name old text; flag_Parse fs' rest
              | None, text :: rest' => fs' ← flag_assign fs name old text; flag_Parse fs' rest'
              | None, [] => Fail (flag_error "flag needs an argument" name)
              end
          end
      end
  end.

Definition flag_string (fs : FlagSet) (name : string) : string :=
  match flag_lookup fs name with Some (FString s) => s | _ => "" end.
Definition flag_bool (fs : FlagSet) (name : string) : bool :=
  match flag_lookup fs name with Some (FBool b) => b | _ => false end.
Definition flag_number (fs : FlagSet) (name : string) : Z :=
  match flag_lookup fs name with Some (FInt z | FUint64 z | FDuration z) => z | _ => 0 end.

(** ** Parsed values keep their kind and width *)

Definition flag_like (old new : flag_value) : Prop :=
  match old, new with
  | FString _, FString _ | FBool _, FBool _ | FDuration _, FDuration _ => True
  | FInt _, FInt z => in_s 64 z
  | FUint64 _, FUint64 z => in_u 64 z
  | _, _ => False
  end.

Lemma base_digits_bound base n s m : 0 <= base -> 0 <= n -> base_digits base n s = Some m -> 0 <= m.
Proof.
  intros Hb. revert n. induction s as [|c s IH]; intros n Hn; cbn [base_digits]; [by intros [= <-]|].
  destruct (underscore c); [by apply IH|]. destruct (digit36 c) as [d|] eqn:Ed; [|done]. destruct (base <=? d); [done|].
  apply IH. assert (0 <= d); [|nia]. unfold digit36, is_digit, between, digit_value in Ed. repeat case_match; try done; injection Ed as <-; bool_cases; lia.
Qed.

Lemma parse_base0_bound s n : parse_base0 s = Some n -> 0 <= n.
Proof.
  unfold parse_base0. destruct s as [|c s]; [done|]. destruct (base_prefix (c :: s)) as [base digits] eqn:Eb.
  destruct (base_digits base 0 digits) as [m|] eqn:E; [|done]. cbn [mbind option_bind]. destruct (_ && _); [done|]. intros [= <-].
  eapply (base_digits_bound base 0); [|lia|exact E]. unfold base_prefix in Eb. repeat case_match; injection Eb as <- _; lia.
Qed.

Lemma flag_Set_like old text new : flag_Set old text = Some new -> flag_like old new.
Proof.
  destruct old; cbn [flag_Set].
  - by intros [= <-].
  - intros (b2 & _ & ->)%fmap_Some. done.
  - intros (n & H & ->)%fmap_Some. cbn. unfold ParseInt0 in H.
    lazymatch type of H with (let '(_, _) := ?x in _) = _ => destruct x as [neg digits] end.
    destruct (parse_base0 digits) as [m|] eqn:E; [|done]. apply parse_base0_bound in E. cbn [mbind option_bind] in H. unfold in_s.
    destruct neg; [destruct (Z.leb_spec m (2 ^ 63))|destruct (Z.ltb_spec m (2 ^ 63))]; try done; injection H as <-; lia.
  - intros (n & H & ->)%fmap_Some. cbn. unfold ParseUint0 in H. destruct (parse_base0 _) as [m|] eqn:E; [|done].
    apply parse_base0_bound in E. cbn [mbind option_bind] in H. unfold in_u. destruct (Z.ltb_spec m (2 ^ 64)); [|done]. injection H as <-. lia.
  - destruct (ParseDuration text); [|done..]. by intros [= <-].
Qed.

(** Every flag of [fs] is in [fs'], unchanged or with a value that was set. *)
Definition flags_like (fs fs' : FlagSet) : Prop :=
  forall name old, flag_lookup fs name = Some old -> exists new, flag_lookup fs' name = Some new /\ (new = old \/ flag_like old new).

Lemma flag_like_trans a b c : flag_like a b -> flag_like b c -> flag_like a c.
Proof. by destruct a, b, c. Qed.

#[global] Instance flags_like_preorder : PreOrder flags_like.
Proof.
  split; [intros fs name old H; exists old; split; [done|by left]|]. intros fs1 fs2 fs3 H1 H2 name old H.
  destruct (H1 _ _ H) as (b & Hb & Hob). destruct (H2 _ _ Hb) as (c & Hc & Hbc). exists c. split; [done|].
  destruct Hob as [-> |Hob], Hbc as [-> |Hbc]; [by left|by right|by right|right; by eapply flag_like_trans].
Qed.

Lemma flag_store_like fs name old v : flag_lookup fs name = Some old -> flag_like old v -> flags_like fs (flag_store fs name v).
Proof.
  induction fs as [|[n w] fs IH]; [done|]. cbn [flag_lookup flag_store]. unfold str_eqb. intros Hl Hv name' old'.
  case_bool_decide as E; cbn [flag_lookup]; unfold str_eqb.
  - injection Hl as ->. case_bool_decide; [intros [= <-]; exists v; split; [done|by right]|]. intros Hn. exists old'. split; [done|by left].
  - case_bool_decide; [intros [= <-]; exists w; split; [done|by left]|]. by apply IH.
Qed.

Lemma flag_assign_like fs name old text fs' : flag_lookup fs name = Some old -> flag_assign fs name old text = Ok fs' -> flags_like fs fs'.
Proof.
  intros Hl. unfold flag_assign. destruct (flag_Set old text) as [v|] eqn:E; [|done]. intros <-%Ok_inj.
  eapply flag_store_like; [done|by eapply flag_Set_like].
Qed.

(** A successful parse keeps the kind of every flag; integers that were set fit their
    width. *)
Lemma flag_Parse_like fs args fs' : flag_Parse fs args = Ok fs' -> flags_like fs fs'.
Proof.
  assert (forall n args fs, (length args <= n)%nat -> flag_Parse fs args = Ok fs' -> flags_like fs fs') as Hn.
  2: { intros H. by apply (Hn (length args) args). }
  clear fs args. induction n as [|n IH]; intros args fs Hl; (destruct args as [|arg rest]; [by intros <-%Ok_inj|]); simpl in Hl; [lia|].
  cbn [flag_Parse]. destruct (flag_name arg) as [[whole|]|]; [|done|by intros <-%Ok_inj].
  destruct (flag_split whole) as [name value]. destruct (flag_lookup fs name) as [old|] eqn:El; [|by destruct (_ || _)].
  assert (forall text rest', (length rest' <= n)%nat ->
    (fs2 ← flag_assign fs name old text; flag_Parse fs2 rest') = Ok fs' -> flags_like fs fs') as Hnext.
  { intros text rest' Hr H. destruct (flag_assign fs name old text) as [fs2|e|m] eqn:Ea; [|done|done].
    transitivity fs2; [by eapply flag_assign_like|]. by eapply IH. }
  destruct old, value as [text|]; try (apply Hnext; lia);
    (destruct rest as [|text rest]; [done|apply Hnext; simpl in *; lia]).
Qed.

Definition demo_flags : FlagSet := [("config", FString ""); ("dry-run", FBool false); ("max-events", FInt 0); ("max-runtime", FDuration 0)].

Example flag_examples :
  flag_Parse demo_flags ["-config=a=b"; "--dry-run"; "-max-events"; "0x1_0"; "-max-runtime=1m"; "rest"; "-config"] =
    Ok [("config", FString "a=b"); ("dry-run", FBool true); ("max-events", FInt 16); ("max-runtime", FDuration 60000000000)] /\
  is_ok (flag_Parse demo_flags ["-max-events=1__0"]) = false /\ is_ok (flag_Parse demo_flags ["-config"]) = false /\
  is_ok (flag_Parse demo_flags ["--unknown"]) = false /\ flag_Parse demo_flags ["-dry-run=0"; "--"; "-x"] = Ok demo_flags /\
  ParseInt0 "-0b101" = Some (-5) /\ ParseInt0 "017" = Some 15 /\ ParseInt0 "0" = Some 0 /\ ParseInt0 "_1" = None /\
  ParseUint0 "18446744073709551615" = Some (2 ^ 64 - 1) /\ ParseInt0 "0x_8" = Some 8 /\ ParseInt0 "08" = None.
Proof. vm_compute. repeat split. Qed.
