(* ===== verification/CmdRetention.v ===== *)
(** * The command trail-retention (src/cmd/trail-retention/main.go)

    [run] reads a policy file, opens the event store, the payload stores and the
    archive store and runs the retention engine; the other subcommands list, inspect
    and restore archives.  The services are the environment: each interaction is an
    entry of the history, the calls of the engine among them.  Flags are parsed by
    [GoFlag], the policy file by [JsonText]. *)

From S2P Require Import Prelude Ids Events GoLib GoText GoTime Json JsonText Trace Payload FileStore Storage Archive Retention S3Store GoDuration GoFlag PgSchema ChWrite CmdStores RetentionProofs.

(** ** The policy file *)

Definition duration_error : error := errors_New "durations must be strings such as '168h'".

(** [duration.UnmarshalJSON]: [null] leaves the text empty, which is no duration. *)
Definition dec_duration (j : json) (old : Z) : result Z :=
  match j with
  | JString s => ParseDuration s
  | JNull => ParseDuration ""
  | _ => Fail duration_error
  end.

Record matchFile := mkMatchFile {
  mtf_Kind : string;
  mtf_Service : string;
  mtf_Environment : string;
  mtf_Level : string;
  mtf_FlowStatus : string;
  mtf_ExecutionStatus : string;
  mtf_HTTPStatusClass : Z;
  mtf_HTTPSuccess : option bool
}.
#[global] Instance eta_matchFile : Eta matchFile :=
  fun r => mkMatchFile (mtf_Kind r) (mtf_Service r) (mtf_Environment r) (mtf_Level r) (mtf_FlowStatus r)
    (mtf_ExecutionStatus r) (mtf_HTTPStatusClass r) (mtf_HTTPSuccess r).

Record eventPolicyFile := mkEventPolicyFile { epf_Name : string; epf_Match : matchFile; epf_TTL : Z }.
#[global] Instance eta_eventPolicyFile : Eta eventPolicyFile :=
  fun r => mkEventPolicyFile (epf_Name r) (epf_Match r) (epf_TTL r).

Record payloadMatchFile := mkPayloadMatchFile {
  pmf_matchFile : matchFile;
  pmf_Role : string;
  pmf_ContentType : string;
  pmf_RetentionClass : string
}.
#[global] Instance eta_payloadMatchFile : Eta payloadMatchFile :=
  fun r => mkPayloadMatchFile (pmf_matchFile r) (pmf_Role r) (pmf_ContentType r) (pmf_RetentionClass r).

Record payloadPolicyFile := mkPayloadPolicyFile { ppf_Name : string; ppf_Match : payloadMatchFile; ppf_TTL : Z }.
#[global] Instance eta_payloadPolicyFile : Eta payloadPolicyFile :=
  fun r => mkPayloadPolicyFile (ppf_Name r) (ppf_Match r) (ppf_TTL r).

Record configFile := mkConfigFile {
  cf_EventPolicies : list eventPolicyFile;
  cf_EventClasses : gmap string Z;
  cf_DefaultEventTTL : Z;
  cf_PayloadPolicies : list payloadPolicyFile;
  cf_PayloadClasses : gmap string Z;
  cf_DefaultPayloadTTL : Z;
  cf_EventBatchSize : Z;
  cf_PayloadBatchSize : Z;
  cf_PayloadConcurrency : Z;
  cf_MaxEvents : Z;
  cf_MaxPayloads : Z;
  cf_MaxRuntime : Z;
  cf_PayloadGracePeriod : Z
}.
#[global] Instance eta_configFile : Eta configFile :=
  fun r => mkConfigFile (cf_EventPolicies r) (cf_EventClasses r) (cf_DefaultEventTTL r) (cf_PayloadPolicies r)
    (cf_PayloadClasses r) (cf_DefaultPayloadTTL r) (cf_EventBatchSize r) (cf_PayloadBatchSize r)
    (cf_PayloadConcurrency r) (cf_MaxEvents r) (cf_MaxPayloads r) (cf_MaxRuntime r) (cf_PayloadGracePeriod r).

Definition matchFile_zero : matchFile := mkMatchFile "" "" "" "" "" "" 0 None.
Definition eventPolicyFile_zero : eventPolicyFile := mkEventPolicyFile "" matchFile_zero 0.
Definition payloadMatchFile_zero : payloadMatchFile := mkPayloadMatchFile matchFile_zero "" "" "".
Definition payloadPolicyFile_zero : payloadPolicyFile := mkPayloadPolicyFile "" payloadMatchFile_zero 0.
Definition configFile_zero : configFile := mkConfigFile [] ∅ 0 [] ∅ 0 0 0 0 0 0 0 0.

(** A [*bool]: [null] is nil. *)
Definition dec_bool_ptr (j : json) (old : option bool) : result (option bool) :=
  match j with JNull => Ok None | JBool b => Ok (Some b) | _ => Fail type_error end.

(** A [map[string]duration]. *)
Fixpoint dec_classes (members : list (string * json)) (m : gmap string Z) : result (gmap string Z) :=
  match members with
  | [] => Ok m
  | (key, value) :: members => d ← dec_duration value 0; dec_classes members (<[key := d]> m)
  end.
Definition dec_duration_map (j : json) (old : gmap string Z) : result (gmap string Z) :=
  match j with
  | JNull => Ok ∅
  | JObject members => dec_classes members old
  | _ => Fail type_error
  end.

Definition assign_match (key : string) (v : json) (m : matchFile) : result matchFile :=
  if tagged key "kind" then x ← dec_string v (mtf_Kind m); Ok (m <| mtf_Kind := x |>)
  else if tagged key "service" then x ← dec_string v (mtf_Service m); Ok (m <| mtf_Service := x |>)
  else if tagged key "environment" then x ← dec_string v (mtf_Environment m); Ok (m <| mtf_Environment := x |>)
  else if tagged key "level" then x ← dec_string v (mtf_Level m); Ok (m <| mtf_Level := x |>)
  else if tagged key "flow_status" then x ← dec_string v (mtf_FlowStatus m); Ok (m <| mtf_FlowStatus := x |>)
  else if tagged key "execution_status" then x ← dec_string v (mtf_ExecutionStatus m); Ok (m <| mtf_ExecutionStatus := x |>)
  else if tagged key "http_status_class" then x ← dec_i64 v (mtf_HTTPStatusClass m); Ok (m <| mtf_HTTPStatusClass := x |>)
  else if tagged key "http_success" then x ← dec_bool_ptr v (mtf_HTTPSuccess m); Ok (m <| mtf_HTTPSuccess := x |>)
  else Ok m.

Definition assign_event_policy (key : string) (v : json) (p : eventPolicyFile) : result eventPolicyFile :=
  if tagged key "name" then x ← dec_string v (epf_Name p); Ok (p <| epf_Name := x |>)
  else if tagged key "match" then x ← dec_struct assign_match v (epf_Match p); Ok (p <| epf_Match := x |>)
  else if tagged key "ttl" then x ← dec_duration v (epf_TTL p); Ok (p <| epf_TTL := x |>)
  else Ok p.

(** The members of the embedded [matchFile] are members of the struct. *)
Definition assign_payload_match (key : string) (v : json) (m : payloadMatchFile) : result payloadMatchFile :=
  if tagged key "role" then x ← dec_string v (pmf_Role m); Ok (m <| pmf_Role := x |>)
  else if tagged key "content_type" then x ← dec_string v (pmf_ContentType m); Ok (m <| pmf_ContentType := x |>)
  else if tagged key "retention_class" then x ← dec_string v (pmf_RetentionClass m); Ok (m <| pmf_RetentionClass := x |>)
  else x ← assign_match key v (pmf_matchFile m); Ok (m <| pmf_matchFile := x |>).

Definition assign_payload_policy (key : string) (v : json) (p : payloadPolicyFile) : result payloadPolicyFile :=
  if tagged key "name" then x ← dec_string v (ppf_Name p); Ok (p <| ppf_Name := x |>)
  else if tagged key "match" then x ← dec_struct assign_payload_match v (ppf_Match p); Ok (p <| ppf_Match := x |>)
  else if tagged key "ttl" then x ← dec_duration v (ppf_TTL p); Ok (p <| ppf_TTL := x |>)
  else Ok p.

Definition assign_config (key : string) (v : json) (c : configFile) : result configFile :=
  if tagged key "event_policies" then
    x ← dec_slice (dec_struct assign_event_policy) eventPolicyFile_zero v (cf_EventPolicies c); Ok (c <| cf_EventPolicies := x |>)
  else if tagged key "event_classes" then x ← dec_duration_map v (cf_EventClasses c); Ok (c <| cf_EventClasses := x |>)
  else if tagged key "default_event_ttl" then x ← dec_duration v (cf_DefaultEventTTL c); Ok (c <| cf_DefaultEventTTL := x |>)
  else if tagged key "payload_policies" then
    x ← dec_slice (dec_struct assign_payload_policy) payloadPolicyFile_zero v (cf_PayloadPolicies c); Ok (c <| cf_PayloadPolicies := x |>)
  else if tagged key "payload_classes" then x ← dec_duration_map v (cf_PayloadClasses c); Ok (c <| cf_PayloadClasses := x |>)
  else if tagged key "default_payload_ttl" then x ← dec_duration v (cf_DefaultPayloadTTL c); Ok (c <| cf_DefaultPayloadTTL := x |>)
  else if tagged key "event_batch_size" then x ← dec_i64 v (cf_EventBatchSize c); Ok (c <| cf_EventBatchSize := x |>)
  else if tagged key "payload_batch_size" then x ← dec_i64 v (cf_PayloadBatchSize c); Ok (c <| cf_PayloadBatchSize := x |>)
  else if tagged key "payload_concurrency" then x ← dec_i64 v (cf_PayloadConcurrency c); Ok (c <| cf_PayloadConcurrency := x |>)
  else if tagged key "max_events" then x ← dec_i64 v (cf_MaxEvents c); Ok (c <| cf_MaxEvents := x |>)
  else if tagged key "max_payloads" then x ← dec_i64 v (cf_MaxPayloads c); Ok (c <| cf_MaxPayloads := x |>)
  else if tagged key "max_runtime" then x ← dec_duration v (cf_MaxRuntime c); Ok (c <| cf_MaxRuntime := x |>)
  else if tagged key "payload_grace_period" then x ← dec_duration v (cf_PayloadGracePeriod c); Ok (c <| cf_PayloadGracePeriod := x |>)
  else Ok c.

(** [eventMatch]. *)
Definition level_named (level : string) : option Level :=
  if str_eqb level "debug" then Some LevelDebug else if str_eqb level "info" then Some LevelInfo
  else if str_eqb level "warn" then Some LevelWarn else if str_eqb level "error" then Some LevelError
  else None.
Definition eventMatch (f : matchFile) : result EventMatch :=
  let m level := mkEventMatch (mtf_Kind f) (mtf_Service f) (mtf_Environment f) level (mtf_FlowStatus f)
    (mtf_ExecutionStatus f) (mtf_HTTPStatusClass f) (mtf_HTTPSuccess f) in
  if str_eqb (mtf_Level f) "" then Ok (m None)
  else match level_named (mtf_Level f) with
       | Some l => Ok (m (Some l))
       | None => Fail (errors_New ("invalid level " +:+ String quote (mtf_Level f +:+ String quote EmptyString)))
       end.

Definition event_policy (p : eventPolicyFile) : result EventPolicy :=
  m ← eventMatch (epf_Match p); Ok (mkEventPolicy (epf_Name p) m (epf_TTL p)).
Definition payload_policy (p : payloadPolicyFile) : result PayloadPolicy :=
  m ← eventMatch (pmf_matchFile (ppf_Match p));
  Ok (mkPayloadPolicy (ppf_Name p) (mkPayloadMatch m (pmf_Role (ppf_Match p)) (pmf_ContentType (ppf_Match p))
        (pmf_RetentionClass (ppf_Match p))) (ppf_TTL p)).

(** [loadConfig]; [file] is the outcome of [os.ReadFile]. *)
Definition loadConfig (file : result bytes) : result RetentionConfig :=
  data ← file;
  j ← json_parse data;
  f ← dec_struct assign_config j configFile_zero;
  events ← go_range (fun _ p => event_policy p) (cf_EventPolicies f);
  payloads ← go_range (fun _ p => payload_policy p) (cf_PayloadPolicies f);
  let c := mkRetentionConfig events (cf_EventClasses f) (cf_DefaultEventTTL f) payloads (cf_PayloadClasses f)
    (cf_DefaultPayloadTTL f) (cf_EventBatchSize f) (cf_PayloadBatchSize f) (cf_PayloadConcurrency f)
    (cf_MaxEvents f) (cf_MaxPayloads f) (cf_MaxRuntime f) (cf_PayloadGracePeriod f) false in
  if Nat.eqb (length events) 0 && bool_decide (cf_EventClasses f = ∅) && (cf_DefaultEventTTL f =? 0)
  then Fail (errors_New "at least one event retention policy, class, or default TTL is required")
  else Ok c.

(** ** The services *)

Inductive printed_value :=
| PrintResult (r : Result)
| PrintArchives (receipts : list Receipt) (more : bool)
| PrintReceipt (receipt : Receipt)
| PrintRestored (r : RestoreResult).

Inductive rcall :=
| RReadFile (path : string) (file : result bytes)
| ROpen (cfg : store_config) (err : option error)
| RMigrate (err : option error)
| RClose
| RPayloads (stores : result (gmap string payload_store))
| RArchiveStore (store : result payload_store)
| REngine (c : call)
| RList (offset limit : Z) (receipts : list Receipt * bool) (err : option error)
| RGet (id : string) (receipt : Receipt) (err : option error)
| RRestore (receipt : Receipt) (offset limit : Z) (r : RestoreResult) (err : option error)
| RPrint (v : printed_value) (err : option error).

(** The answers of the services.  [rv_engine] answers the engine's calls by what the
    engine has done so far, [rv_files] is the file system when a store is opened,
    [rv_restore] stands for [archive.Restore] between the opened stores. *)
Record REnv := mkREnv {
  rv_getenv : string -> string;
  rv_wd : result string;
  rv_transport : option error;
  rv_minio : string -> minio_Options -> option error;
  rv_file : list rcall -> string -> result bytes;
  rv_open : list rcall -> store_config -> option error;
  rv_migrate : list rcall -> option error;
  rv_files : list rcall -> fsw;
  rv_engine : Env;
  rv_list : list rcall -> Z -> Z -> (list Receipt * bool) * option error;
  rv_get : list rcall -> string -> Receipt * option error;
  rv_restore : list rcall -> payload_store -> gmap string payload_store -> Receipt -> Z -> Z -> RestoreResult * option error;
  rv_print : list rcall -> option error
}.

Definition engine_call (c : rcall) : option call := match c with REngine c => Some c | _ => None end.

(** Run the engine on its own part of the history. *)
Definition with_engine {A} (m : E call A) : E rcall A := fun h =>
  let own := omap engine_call h in
  let '(own', a) := m own in
  (h ++ (REngine <$> drop (length own) own'), a).

(** The engine of these payload stores. *)
Definition engine_env (env : Env) (stores : gset string) : Env :=
  mkEnv (env_now env) (env_ctx env) (env_reconcile env) (env_scan env) (env_load env) (env_archive env)
    (env_record env) (env_delete env) (env_candidates env) (env_referenced env) (env_complete env) stores
    (env_payload_delete env) (env_schedule env).

Section Command.
Context (e : REnv).

Definition r_print (v : printed_value) : E rcall (option error) := ask (rv_print e) (RPrint v).

(** [openStore]: the store is returned beside the error of [Migrate]. *)
Definition retention_openStore : E rcall (result unit) :=
  match store_choice (rv_getenv e) "unknown TRAIL_STORE" 4 with
  | Ok cfg =>
      err ← ask (fun h => rv_open e h cfg) (ROpen cfg);
      match err with
      | Some err => mret (Fail err)
      | None =>
          err ← ask (rv_migrate e) RMigrate;
          mret match err with Some err => Fail err | None => Ok tt end
      end
  | Fail err => mret (Fail err)
  | Panic m => mret (Panic m)
  end.

(** What follows [openStore]: an error returns at once, [Close] is deferred. *)
Definition with_store (body : E rcall (option (option error))) : E rcall (option (option error)) :=
  opened ← retention_openStore;
  match opened with
  | Ok _ => r ← body; _ ← ask (fun _ => tt) (fun _ => RClose); mret r
  | Fail err => mret (Some (Some err))
  | Panic _ => mret None
  end.

Definition open_payloads : E rcall (result (gmap string payload_store)) :=
  ask (fun h => (openPayloads (rv_getenv e) (rv_wd e) (rv_transport e) (rv_minio e) (rv_files e h)).2) RPayloads.
Definition open_archive : E rcall (result payload_store) :=
  ask (fun h => (openArchiveStore (rv_getenv e) (rv_wd e) (rv_transport e) (rv_minio e) (rv_files e h)).2) RArchiveStore.

(** Go on with a value, return its error. *)
Definition returning {A} (r : result A) (k : A -> E rcall (option (option error))) : E rcall (option (option error)) :=
  match r with
  | Ok a => k a
  | Fail err => mret (Some (Some err))
  | Panic _ => mret None
  end.

Definition usage_error : error := errors_New "usage: trail-retention <run|archives|inspect|restore>".
Definition archive_id_error : error := errors_New "--archive-id is required".

Definition run_flags : FlagSet :=
  [("config", FString (env (rv_getenv e) "TRAIL_RETENTION_CONFIG" "")); ("dry-run", FBool false); ("max-events", FInt 0);
   ("max-payloads", FInt 0); ("max-runtime", FDuration 0)].

(** The overrides of the command line. *)
Definition override (fs : FlagSet) (cfg : RetentionConfig) : RetentionConfig :=
  let cfg := if 0 <? flag_number fs "max-events" then cfg <| rcf_MaxEvents := flag_number fs "max-events" |> else cfg in
  let cfg := if 0 <? flag_number fs "max-payloads" then cfg <| rcf_MaxPayloads := flag_number fs "max-payloads" |> else cfg in
  if 0 <? flag_number fs "max-runtime" then cfg <| rcf_MaxRuntime := flag_number fs "max-runtime" |> else cfg.

(** [run] once the engine's configuration is settled: open the stores, run, print. *)
Definition run_engine (fs : FlagSet) (cfg : RetentionConfig) : E rcall (option (option error)) :=
  payloads ← open_payloads;
  returning payloads (fun payloads =>
  archiveStore ← open_archive;
  returning archiveStore (fun _ =>
  returning (New (cfg <| rcf_Archiver := true |>) true) (fun cfg =>
  outcome ← with_engine (Run (engine_env (rv_engine e) (dom payloads)) cfg (flag_bool fs "dry-run"));
  match outcome with
  | None => mret None
  | Some (result, err) => _ ← r_print (PrintResult result); mret (Some err)
  end))).

Definition run_retention (args : list string) : E rcall (option (option error)) :=
  returning (flag_Parse run_flags args) (fun fs =>
  let path := flag_string fs "config" in
  if str_eqb path "" then mret (Some (Some (errors_New "--config or TRAIL_RETENTION_CONFIG is required")))
  else
    file ← ask (fun h => rv_file e h path) (RReadFile path);
    returning (loadConfig file) (fun cfg => with_store (run_engine fs (override fs cfg)))).

Definition archive_flags : FlagSet := [("archive-id", FString ""); ("offset", FInt 0); ("limit", FInt 100)].

(** The subcommands on an open store. *)
Definition list_archives (offset limit : Z) : E rcall (option (option error)) :=
  '(page, err) ← ask2 (fun h => rv_list e h offset (Z.min limit 500)) (RList offset (Z.min limit 500));
  match err with
  | Some err => mret (Some (Some err))
  | None => err ← r_print (PrintArchives page.1 page.2); mret (Some err)
  end.

Definition inspect_archive (id : string) : E rcall (option (option error)) :=
  if str_eqb id "" then mret (Some (Some archive_id_error))
  else
    '(receipt, err) ← ask2 (fun h => rv_get e h id) (RGet id);
    match err with
    | Some err => mret (Some (Some err))
    | None => err ← r_print (PrintReceipt receipt); mret (Some err)
    end.

Definition restore_archive (id : string) (offset limit : Z) : E rcall (option (option error)) :=
  if str_eqb id "" then mret (Some (Some archive_id_error))
  else
    archiveStore ← open_archive;
    returning archiveStore (fun archiveStore =>
    payloads ← open_payloads;
    returning payloads (fun payloads =>
    '(receipt, err) ← ask2 (fun h => rv_get e h id) (RGet id);
    match err with
    | Some err => mret (Some (Some err))
    | None =>
        '(result, err) ← ask2 (fun h => rv_restore e h archiveStore payloads receipt offset limit) (RRestore receipt offset limit);
        _ ← r_print (PrintRestored result);
        mret (Some err)
    end)).

Definition runArchiveCommand (command : string) (args : list string) : E rcall (option (option error)) :=
  returning (flag_Parse archive_flags args) (fun fs =>
  let id := flag_string fs "archive-id" in
  let offset := flag_number fs "offset" in
  let limit := flag_number fs "limit" in
  with_store (
    if str_eqb command "archives" then list_archives offset limit
    else if str_eqb command "inspect" then inspect_archive id
    else if str_eqb command "restore" then restore_archive id offset limit
    else mret (Some (Some usage_error)))).

(** [run(ctx, args)]: the error it returns; [None] would be a run that does not end. *)
Definition retention_main (args : list string) : E rcall (option (option error)) :=
  match args with
  | [] => mret (Some (Some usage_error))
  | command :: rest => if str_eqb command "run" then run_retention rest else runArchiveCommand command rest
  end.
End Command.

(** ** What a run does *)

Definition count_calls (f : rcall -> bool) (n : list rcall) : nat := length (List.filter f n).
Definition is_opened (c : rcall) : bool := match c with ROpen _ None => true | _ => false end.
Definition is_closed (c : rcall) : bool := match c with RClose => true | _ => false end.
Definition is_unmigrated (c : rcall) : bool := match c with RMigrate (Some _) => true | _ => false end.

(** Every store that was opened and migrated is closed. *)
Definition released (n : list rcall) : Prop :=
  count_calls is_opened n = (count_calls is_closed n + count_calls is_unmigrated n)%nat.

(** No call that opens or closes the event store. *)
Definition store_free (n : list rcall) : Prop :=
  Forall (fun c => is_opened c = false /\ is_closed c = false /\ is_unmigrated c = false) n.

Lemma count_calls_app f n m : count_calls f (n ++ m) = (count_calls f n + count_calls f m)%nat.
Proof. unfold count_calls. by rewrite List.filter_app, length_app. Qed.

Lemma released_around n : store_free n -> forall front back, released (front ++ back) -> released (front ++ n ++ back).
Proof.
  intros Hn. assert (count_calls is_opened n = 0%nat /\ count_calls is_closed n = 0%nat /\ count_calls is_unmigrated n = 0%nat) as (H1 & H2 & H3).
  { unfold count_calls. induction Hn as [|c n (H1 & H2 & H3) _ (I1 & I2 & I3)]; [done|]. cbn [List.filter]. by rewrite H1, H2, H3. }
  intros front back. unfold released. rewrite !count_calls_app. lia.
Qed.

Definition engine_calls (n : list rcall) : list call := omap engine_call n.

Lemma engine_calls_app n m : engine_calls (n ++ m) = engine_calls n ++ engine_calls m.
Proof. apply omap_app. Qed.

Lemma engine_calls_engine l : engine_calls (REngine <$> l) = l.
Proof. induction l as [|c l IH]; [done|]. cbn. f_equal. exact IH. Qed.

Section Runs.
Context (e : REnv).

(** The part of a run that has the store: it neither opens nor closes it, and its
    engine calls satisfy [Q]. *)
Definition inner (Q : list call -> Prop) (body : E rcall (option (option error))) : Prop :=
  forall h, engine_calls h = [] -> emits_from h body (fun _ n => store_free n /\ Q (engine_calls n)).
Definition outer (Q : list call -> Prop) (body : E rcall (option (option error))) : Prop :=
  forall h, engine_calls h = [] -> emits_from h body (fun _ n => released n /\ Q (engine_calls n)).

Lemma inner_ret Q r : Q [] -> inner Q (mret r).
Proof. intros HQ h' _. apply emits_from_ret. split; [constructor|done]. Qed.

Lemma outer_ret Q r : Q [] -> outer Q (mret r).
Proof. intros HQ h' _. by apply emits_from_ret. Qed.

(** A call that is not of the store and not of the engine. *)
Lemma inner_ask {A} Q (f : list rcall -> A) log k :
  (forall a, is_opened (log a) = false /\ is_closed (log a) = false /\ is_unmigrated (log a) = false /\ engine_call (log a) = None) ->
  (forall h, inner Q (k (f h))) -> inner Q (ask f log ≫= k).
Proof.
  intros Hlog Hk h' Hh. apply emits_from_ask. destruct (Hlog (f h')) as (H1 & H2 & H3 & H4).
  eapply emits_from_mono; [apply Hk|].
  - rewrite engine_calls_app, Hh. unfold engine_calls. cbn [omap list_omap]. by rewrite H4.
  - intros r n [Hn HQ]. split; [by apply Forall_cons_2|]. unfold engine_calls in *. cbn [omap list_omap]. by rewrite H4.
Qed.

Lemma inner_ask2 {A} Q (f : list rcall -> A * option error) log k :
  (forall a err, is_opened (log a err) = false /\ is_closed (log a err) = false /\ is_unmigrated (log a err) = false /\ engine_call (log a err) = None) ->
  (forall a err, inner Q (k (a, err))) -> inner Q (ask2 f log ≫= k).
Proof.
  intros Hlog Hk. apply inner_ask; [intros [a err]; apply Hlog|]. intros h'. destruct (f h') as [a err]. apply Hk.
Qed.

Lemma inner_returning {A} Q (r : result A) k : Q [] -> (forall a, r = Ok a -> inner Q (k a)) -> inner Q (returning r k).
Proof. intros HQ Hk. destruct r as [a|err|m]; cbn [returning]; [by apply Hk|by apply inner_ret|by apply inner_ret]. Qed.

Lemma outer_returning {A} Q (r : result A) k : Q [] -> (forall a, r = Ok a -> outer Q (k a)) -> outer Q (returning r k).
Proof. intros HQ Hk. destruct r as [a|err|m]; cbn [returning]; [by apply Hk|by apply outer_ret|by apply outer_ret]. Qed.

Lemma inner_engine {A} (Q : list call -> Prop) (m : E call A) k : Q (m []).1 ->
  (forall a, emits (k a) (fun _ n => store_free n /\ engine_calls n = [])) -> inner Q (with_engine m ≫= k).
Proof.
  intros HQ Hk h' Hh. apply emits_from_seq with (R1 := fun _ n => n = REngine <$> (m []).1).
  - unfold emits_from, with_engine. unfold engine_calls in Hh. rewrite Hh. destruct (m []) as [own a].
    exists (REngine <$> own). by rewrite drop_0.
  - intros a n1 ->. eapply emits_from_mono; [apply emits_at, Hk|]. intros r n [Hn Hc]. split.
    + apply Forall_app_2; [|done]. apply Forall_fmap, Forall_forall. by intros c _.
    + by rewrite engine_calls_app, engine_calls_engine, Hc, app_nil_r.
Qed.

Lemma openStore_emits : emits (retention_openStore e) (fun r n =>
  match r with
  | Ok _ => exists cfg, n = [ROpen cfg None; RMigrate None]
  | _ => released n /\ engine_calls n = []
  end).
Proof.
  unfold retention_openStore. destruct (store_choice _ _ _) as [cfg|err|m]; [|by apply emits_ret|by apply emits_ret].
  apply emits_ask_seq. intros [err|]; [by apply emits_ret|]. apply emits_ask_seq. intros [err|]; apply emits_ret; [done|].
  by exists cfg.
Qed.

Lemma outer_store Q body : Q [] -> inner Q body -> outer Q (with_store e body).
Proof.
  intros HQ Hbody h' Hh. eapply emits_from_seq; [apply emits_at, openStore_emits|].
  intros [[]|err|m] n1; [|by intros [? Hn]; apply emits_from_ret; rewrite app_nil_r, Hn..].
  intros [cfg ->]. eapply emits_from_seq; [apply Hbody; by rewrite engine_calls_app, Hh|].
  intros r n [Hn HQn]. apply emits_from_ask, emits_from_ret. split.
  - exact (released_around n Hn [ROpen cfg None; RMigrate None] [RClose] eq_refl).
  - cbn. unfold engine_calls in HQn. rewrite omap_app. cbn. by rewrite app_nil_r.
Qed.

Ltac plain := try (by split_and!); try done.

Lemma list_inner offset limit : inner (fun n => n = []) (list_archives e offset limit).
Proof.
  apply inner_ask2; [plain|]. intros page [err|]; [by apply inner_ret|].
  apply inner_ask; [plain|]. intros ?. by apply inner_ret.
Qed.

Lemma inspect_inner id : inner (fun n => n = []) (inspect_archive e id).
Proof.
  unfold inspect_archive. destruct (str_eqb id ""); [by apply inner_ret|]. apply inner_ask2; [plain|].
  intros receipt [err|]; [by apply inner_ret|]. apply inner_ask; [plain|]. intros ?. by apply inner_ret.
Qed.

Lemma restore_inner id offset limit : inner (fun n => n = []) (restore_archive e id offset limit).
Proof.
  unfold restore_archive. destruct (str_eqb id ""); [by apply inner_ret|].
  apply inner_ask; [plain|]. intros ?. apply inner_returning; [done|]. intros archive _.
  apply inner_ask; [plain|]. intros ?. apply inner_returning; [done|]. intros payloads _.
  apply inner_ask2; [plain|]. intros receipt [err|]; [by apply inner_ret|].
  apply inner_ask2; [plain|]. intros result err. apply inner_ask; [plain|]. intros ?. by apply inner_ret.
Qed.

(** The engine's calls, when there are any, are those of one run of the engine with
    the loaded, overridden and checked configuration on the opened stores. *)
Definition engine_run (args : list string) (n : list call) : Prop :=
  exists fs h0 cfg cfg' h1 h2 payloads archive,
    flag_Parse (run_flags e) args = Ok fs /\
    loadConfig (rv_file e h0 (flag_string fs "config")) = Ok cfg /\
    New ((override fs cfg) <| rcf_Archiver := true |>) true = Ok cfg' /\
    (openPayloads (rv_getenv e) (rv_wd e) (rv_transport e) (rv_minio e) (rv_files e h1)).2 = Ok payloads /\
    (openArchiveStore (rv_getenv e) (rv_wd e) (rv_transport e) (rv_minio e) (rv_files e h2)).2 = Ok archive /\
    n = (Run (engine_env (rv_engine e) (dom payloads)) cfg' (flag_bool fs "dry-run") []).1.

Lemma run_outer args : outer (fun n => n = [] \/ engine_run args n) (run_retention e args).
Proof.
  unfold run_retention. apply outer_returning; [by left|]. intros fs Hfs. destruct (str_eqb _ "") eqn:Hp; [apply outer_ret; by left|].
  intros h0 Hh0. apply emits_from_ask. set (file := rv_file e h0 _).
  eapply emits_from_mono; [apply (outer_returning (fun n => n = [] \/ engine_run args n)); [by left| |by rewrite engine_calls_app, Hh0]|].
  - intros cfg Hcfg. apply outer_store; [by left|]. unfold run_engine. apply inner_ask; [plain|]. intros h1.
    apply inner_returning; [by left|]. intros payloads Hpay. apply inner_ask; [plain|]. intros h2.
    apply inner_returning; [by left|]. intros archive Harch. apply inner_returning; [by left|]. intros cfg' Hnew.
    apply inner_engine; [right; by exists fs, h0, cfg, cfg', h1, h2, payloads, archive|].
    intros [[result err]|]; [apply emits_ask_seq; intros ?|]; apply emits_ret; by repeat constructor.
  - intros r n [Hn HQ]. split; [exact (released_around [RReadFile _ file] ltac:(by repeat constructor) [] n Hn)|done].
Qed.

Lemma main_outer args :
  outer (fun n => n = [] \/ exists rest, args = "run" :: rest /\ engine_run rest n) (retention_main e args).
Proof.
  destruct args as [|command rest]; [apply outer_ret; by left|]. cbn [retention_main].
  unfold str_eqb at 1. case_bool_decide as Hc.
  - intros h0 Hh0. eapply emits_from_mono; [by apply run_outer|]. intros r n [Hn [HQ|HQ]]; (split; [done|]); [by left|right].
    exists rest. by subst command.
  - apply outer_returning; [by left|]. intros fs _.
    apply outer_store; [by left|]. assert (forall body, inner (fun n => n = []) body ->
      inner (fun n => n = [] \/ exists rest', command :: rest = "run" :: rest' /\ engine_run rest' n) body) as Hw.
    { intros body Hb h0 Hh0. eapply emits_from_mono; [by apply Hb|]. intros r n [? ?]. split; [done|by left]. }
    apply Hw. destruct (str_eqb command "archives"); [apply list_inner|].
    destruct (str_eqb command "inspect"); [apply inspect_inner|].
    destruct (str_eqb command "restore"); [apply restore_inner|]. by apply inner_ret.
Qed.
End Runs.

(** ** The rules of an accepted configuration *)

(** There is a rule for events, and every rule keeps what it matches for a positive
    time. *)
Definition rules_ok (c : RetentionConfig) : Prop :=
  (rcf_EventPolicies c <> [] \/ rcf_EventClasses c <> ∅ \/ rcf_DefaultEventTTL c > 0) /\
  Forall (fun p => 0 < ep_TTL p) (rcf_EventPolicies c) /\ Forall (fun p => 0 < pp_TTL p) (rcf_PayloadPolicies c) /\
  map_Forall (fun _ ttl => 0 < ttl) (rcf_EventClasses c) /\ map_Forall (fun _ ttl => 0 < ttl) (rcf_PayloadClasses c) /\
  0 <= rcf_DefaultPayloadTTL c.

Lemma validate_policies_ttl what l : validate_policies what l = Ok tt -> Forall (fun p => 0 < p.2) l.
Proof.
  induction l as [|[[name m] ttl] l IH]; [constructor|]. cbn [validate_policies]. destruct (Z.leb_spec ttl 0); [done|].
  destruct (_ || _); [done|]. intros H'. apply Forall_cons_2; [done|by apply IH].
Qed.

Lemma good_classes m : bad_classes m = false -> map_Forall (fun _ ttl => 0 < ttl) m.
Proof.
  intros H k ttl Hk. apply elem_of_map_to_list, list_elem_of_In in Hk. unfold bad_classes in H.
  destruct (Z.ltb_spec 0 ttl); [done|]. assert (existsb (fun '(n, t) => blank n || (t <=? 0)) (map_to_list m) = true); [|congruence].
  apply existsb_exists. exists (k, ttl). split; [done|]. apply orb_true_iff. right. by apply Z.leb_le.
Qed.

Lemma validate_rules c : validate c = Ok tt ->
  Forall (fun p => 0 < ep_TTL p) (rcf_EventPolicies c) /\ Forall (fun p => 0 < pp_TTL p) (rcf_PayloadPolicies c) /\
  map_Forall (fun _ ttl => 0 < ttl) (rcf_EventClasses c) /\ map_Forall (fun _ ttl => 0 < ttl) (rcf_PayloadClasses c) /\
  0 <= rcf_DefaultEventTTL c /\ 0 <= rcf_DefaultPayloadTTL c.
Proof.
  intros H. unfold validate in H. apply bind_Ok in H as ([] & H1 & H). apply bind_Ok in H as ([] & H2 & H).
  apply validate_policies_ttl in H1, H2. rewrite Forall_fmap in H1. rewrite Forall_fmap in H2.
  destruct (bad_classes (rcf_EventClasses c)) eqn:H3; [done|]. destruct (bad_classes (rcf_PayloadClasses c)) eqn:H4; [done|].
  destruct (_ || _) eqn:H5; [done|]. apply orb_false_iff in H5 as [H5 H6]. rewrite Z.ltb_ge in H5, H6.
  split_and!; try done; by apply good_classes.
Qed.

Lemma loadConfig_rule file c : loadConfig file = Ok c ->
  rcf_EventPolicies c <> [] \/ rcf_EventClasses c <> ∅ \/ rcf_DefaultEventTTL c <> 0.
Proof.
  intros H. unfold loadConfig in H. apply bind_Ok in H as (data & _ & H). apply bind_Ok in H as (j & _ & H).
  apply bind_Ok in H as (f & _ & H). apply bind_Ok in H as (events & _ & H). apply bind_Ok in H as (payloads & _ & H).
  destruct (_ && _) eqn:E; [done|]. apply Ok_inj in H as <-. cbn.
  apply andb_false_iff in E as [[E|E]%andb_false_iff|E].
  - left. by destruct events.
  - right; left. by apply bool_decide_eq_false_1 in E.
  - right; right. by apply Z.eqb_neq.
Qed.

Lemma override_rules fs c : let c' := override fs c in
  rcf_EventPolicies c' = rcf_EventPolicies c /\ rcf_EventClasses c' = rcf_EventClasses c /\
  rcf_DefaultEventTTL c' = rcf_DefaultEventTTL c.
Proof. unfold override. by repeat destruct (_ <? _). Qed.

Lemma accepted_rules fs file cfg cfg' : loadConfig file = Ok cfg ->
  New ((override fs cfg) <| rcf_Archiver := true |>) true = Ok cfg' -> rules_ok cfg'.
Proof.
  intros Hload Hnew. apply loadConfig_rule in Hload. apply New_Ok in Hnew as (-> & _ & _ & _ & _ & Hv).
  apply validate_rules in Hv as (H1 & H2 & H3 & H4 & H5 & H6). destruct (override_rules fs cfg) as (O1 & O2 & O3).
  unfold rules_ok. cbn in *. rewrite O1, O2, O3 in *. split_and!; try done. destruct Hload as [|[|]]; [by left|by right; left|].
  right; right. lia.
Qed.

(** C10. Whatever the services, the settings and the arguments: the engine runs only for
    the subcommand [run] whose flags parse, on a policy file that loads and passes
    the engine's checks, so with at least one event rule and positive retention times
    only, and on the payload stores and the archive store that [openPayloads] and
    [openArchiveStore] opened from the settings, no object of which lies in both the
    archive store and a payload store (file roots and S3 endpoints being compared as
    texts, as the command does); its calls are then those of one run of the engine
    with that configuration, a dry run under [--dry-run], which deletes nothing.
    Every event store that was opened is closed, those whose migration failed
    excepted. *)
Theorem retention_command (e : REnv) (args : list string) :
  let h := (retention_main e args []).1 in
  released h /\
  (engine_calls h = [] \/
   exists rest fs h0 h1 h2 cfg (payloads : gmap string payload_store) archive,
     args = "run" :: rest /\ flag_Parse (run_flags e) rest = Ok fs /\
     New ((override fs cfg) <| rcf_Archiver := true |>) true = Ok (with_defaults ((override fs cfg) <| rcf_Archiver := true |>)) /\
     loadConfig (rv_file e h0 (flag_string fs "config")) = Ok cfg /\
     let cfg' := with_defaults ((override fs cfg) <| rcf_Archiver := true |>) in
     rules_ok cfg' /\
     (openPayloads (rv_getenv e) (rv_wd e) (rv_transport e) (rv_minio e) (rv_files e h1)).2 = Ok payloads /\
     (openArchiveStore (rv_getenv e) (rv_wd e) (rv_transport e) (rv_minio e) (rv_files e h2)).2 = Ok archive /\
     (forall name active r1 r2 l1 l2, payloads !! name = Some active ->
        location_of archive r1 = Some l1 -> location_of active r2 = Some l2 -> l1 <> l2) /\
     engine_calls h = (Run (engine_env (rv_engine e) (dom payloads)) cfg' (flag_bool fs "dry-run") []).1 /\
     (flag_bool fs "dry-run" = true -> Forall dry_call (engine_calls h))).
Proof.
  destruct (main_outer e args [] eq_refl) as (n & Hn & Hrel & Hq). cbn zeta. rewrite Hn, app_nil_l. split; [done|].
  destruct Hq as [Hq|(rest & -> & Hrun)]; [by left|right].
  destruct Hrun as (fs & h0 & cfg & cfg' & h1 & h2 & payloads & archive & Hfs & Hload & Hnew & Hpay & Harch & Hcalls).
  pose proof (accepted_rules _ _ _ _ Hload Hnew) as Hrules. pose proof (New_Ok _ _ _ Hnew) as (-> & _).
  exists rest, fs, h0, h1, h2, cfg, payloads, archive. split_and!; try done.
  - intros name active r1 r2 l1 l2 Hname Hl1 Hl2.
    destruct (openArchiveStore _ _ _ _ (rv_files e h2)) as [w2 a] eqn:Ea. destruct (openPayloads _ _ _ _ (rv_files e h1)) as [w1 p] eqn:Ep.
    cbn in Harch, Hpay. subst a p. exact (archive_stores_apart _ _ _ _ _ _ _ _ _ _ _ _ _ _ _ _ Ea Ep Hname Hl1 Hl2).
  - rewrite Hcalls. intros ->. apply retention_dry_run.
Qed.

(** ** Policy files *)

(** Texts are written here with single quotes. *)
Definition quoted (s : string) : bytes :=
  (fun c => if Ascii.eqb c "'"%char then quote else c) <$> string_bytes s.

Definition test_policy : bytes := quoted
  "{'event_policies':[{'name':'http','match':{'kind':'provider.http','level':'warn','http_status_class':5},'ttl':'24h'}],'payload_policies':[{'name':'xml','match':{'role':'response','content_type':'application/xml'},'ttl':'48h'}],'payload_grace_period':'2h','payload_concurrency':2}".

(** The configurations of main_test.go. *)
Example loadConfig_examples :
  loadConfig (Ok test_policy) = Ok (mkRetentionConfig
    [mkEventPolicy "http" (mkEventMatch "provider.http" "" "" (Some LevelWarn) "" "" 5 None) (24 * hour)] ∅ 0
    [mkPayloadPolicy "xml" (mkPayloadMatch (mkEventMatch "" "" "" None "" "" 0 None) "response" "application/xml" "") (48 * hour)]
    ∅ 0 0 0 2 0 0 0 (2 * hour) false) /\
  is_ok (loadConfig (Ok (quoted "{'payload_classes':{'short':'24h'}}"))) = false /\
  is_ok (loadConfig (Ok (quoted "{'default_event_ttl':3600}"))) = false /\
  is_ok (loadConfig (Ok (quoted "{'default_event_ttl':'1h','event_policies':[{'match':{'level':'fatal'},'ttl':'1h'}]}"))) = false.
Proof. split_and!; vm_compute; reflexivity. Qed.

(** ** A run *)

(** The store of [run_env], without payload candidates. *)
Definition demo_engine : Env :=
  mkEnv (env_now run_env) (env_ctx run_env) (env_reconcile run_env) (env_scan run_env) (env_load run_env)
    (env_archive run_env) (env_record run_env) (env_delete run_env) (fun _ _ _ => ([], None)) (env_referenced run_env)
    (env_complete run_env) ∅ (env_payload_delete run_env) (env_schedule run_env).

(** The settings of [demo_settings]; the file keeps events for ten nanoseconds. *)
Definition demo_renv : REnv :=
  mkREnv demo_settings (Ok "/srv") None (fun _ _ => None)
    (fun _ _ => Ok (quoted "{'default_event_ttl':'10ns','payload_grace_period':'5ns'}"))
    (fun _ _ => None) (fun _ => None) (fun _ => demo_files) demo_engine
    (fun _ _ _ => (([], false), None)) (fun _ _ => (run_receipt, None))
    (fun _ _ _ _ _ _ => (mkRestoreResult "" 0 0 true, None)) (fun _ => None).

Definition demo_args (more : list string) : list string :=
  ["run"; "--config"; "policy.json"; "-max-events=5"; "-max-payloads=5"] ++ more.

Definition deletions (h : list rcall) : nat :=
  length (List.filter (fun c => match c with CallDelete req _ _ => negb (dq_DryRun req) | _ => false end) (engine_calls h)).

Example retention_command_runs :
  (retention_main demo_renv (demo_args []) []).2 = Some None /\
  deletions (retention_main demo_renv (demo_args []) []).1 = 1%nat /\
  (retention_main demo_renv (demo_args ["--dry-run"]) []).2 = Some None /\
  deletions (retention_main demo_renv (demo_args ["--dry-run"]) []).1 = 0%nat /\
  (retention_main demo_renv ["restore"] []).2 = Some (Some archive_id_error) /\
  (retention_main demo_renv ["restore"; "-archive-id"; "a1"] []).2 = Some None.
Proof. split_and!; vm_compute; reflexivity. Qed.
