(* ===== verification/CmdIngestor.v ===== *)
(** * The command trail-ingestor (src/cmd/trail-ingestor/main.go)

    [run] opens the event store, connects to NATS, creates the stream and the durable
    consumer where they are missing, and runs the ingestion engine until its context
    ends.  JetStream is the class [JetStreamAPI]: the calls the command makes on an
    unknown world and what the service documents of them.  Other ingestors may start
    at the same time; what they create between two calls is the parameter [others]. *)

From S2P Require Import Prelude Ids Events GoLib GoText Json JsonText Trace Wire Payload Storage FileStore Ingestor PgSchema ChWrite S3Store CmdStores.

(** ** JetStream *)

Inductive StorageType := FileStorage | MemoryStorage.
Inductive RetentionPolicy := LimitsPolicy | InterestPolicy | WorkQueuePolicy.
Inductive DiscardPolicy := DiscardOld | DiscardNew.
Inductive AckPolicy := AckExplicitPolicy | AckAllPolicy | AckNonePolicy.

Record StreamConfig := mkStreamConfig {
  str_Name : string;
  str_Subjects : list string;
  str_Storage : StorageType;
  str_Retention : RetentionPolicy;
  str_Discard : DiscardPolicy;
  str_MaxAge : Z
}.

Record ConsumerConfig := mkConsumerConfig {
  con_Durable : string;
  con_AckPolicy : AckPolicy;
  con_AckWait : Z;
  con_MaxDeliver : Z;
  con_MaxAckPending : Z
}.

Definition ErrStreamNotFound : error := sentinel "nats: API error: stream not found".
Definition ErrConsumerNotFound : error := sentinel "nats: API error: consumer not found".

Abbreviation streams := (gmap string StreamConfig).
Abbreviation consumers := (gmap (string * string) ConsumerConfig).

(** Reads change nothing.  A creation adds what is missing; asked for what exists
    with the same configuration it succeeds, with another it fails, and an error may
    also come after the creation was carried out. *)
Class JetStreamAPI (W : Type) := {
  js_streams : W -> streams;
  js_consumers : W -> consumers;
  js_Stream : string -> M W unit;
  js_CreateStream : StreamConfig -> M W unit;
  js_Consumer : string -> string -> M W unit;
  js_CreateConsumer : string -> ConsumerConfig -> M W unit;

  js_Stream_law name w :
    let '(w', r) := js_Stream name w in
    js_streams w' = js_streams w /\ js_consumers w' = js_consumers w /\
    match r with
    | Ok _ => is_Some (js_streams w !! name)
    | Fail e => errors_Is e ErrStreamNotFound = true -> js_streams w !! name = None
    | Panic _ => False
    end;
  js_CreateStream_law cfg w :
    let '(w', r) := js_CreateStream cfg w in
    let unchanged := js_streams w' = js_streams w in
    let created := js_streams w !! str_Name cfg = None /\ js_streams w' = <[str_Name cfg := cfg]> (js_streams w) in
    js_consumers w' = js_consumers w /\
    match r with
    | Ok _ => created \/ (unchanged /\ js_streams w !! str_Name cfg = Some cfg)
    | Fail _ => created \/ unchanged
    | Panic _ => False
    end;
  js_Consumer_law stream name w :
    let '(w', r) := js_Consumer stream name w in
    js_streams w' = js_streams w /\ js_consumers w' = js_consumers w /\
    match r with
    | Ok _ => is_Some (js_consumers w !! (stream, name))
    | Fail e => errors_Is e ErrConsumerNotFound = true -> js_consumers w !! (stream, name) = None
    | Panic _ => False
    end;
  js_CreateConsumer_law stream cfg w :
    let '(w', r) := js_CreateConsumer stream cfg w in
    let key := (stream, con_Durable cfg) in
    let unchanged := js_consumers w' = js_consumers w in
    let created := js_consumers w !! key = None /\ js_consumers w' = <[key := cfg]> (js_consumers w) in
    js_streams w' = js_streams w /\
    match r with
    | Ok _ => created \/ (unchanged /\ js_consumers w !! key = Some cfg)
    | Fail _ => created \/ unchanged
    | Panic _ => False
    end
}.

(** ** [ensureJetStreamTopology] *)

(** [fmt.Errorf("<what> %q: %w", name, err)] *)
Definition wrap_named (what name : string) (err : error) : error :=
  Err (err_chain err) (what +:+ " " +:+ String "034"%char (name +:+ String "034"%char (": " +:+ err_text err))).

Section Topology.
Context `{JetStreamAPI W} (others : nat -> W -> W).
Context (streamName consumerName subject : string) (maxDeliveries maxMessages : Z).

Definition trail_stream : StreamConfig :=
  mkStreamConfig streamName [subject] FileStorage LimitsPolicy DiscardNew (30 * 24 * 3600 * 1000000000).
Definition trail_consumer : ConsumerConfig :=
  mkConsumerConfig consumerName AckExplicitPolicy (30 * 1000000000) maxDeliveries (i64 (maxMessages * 2)).

(** The [n]-th call of the function, after what the others did; its outcome. *)
Definition js_call {A} (n : nat) (m : M W A) : M W (result A) := fun w => attempt m (others n w).

(** A resource is looked up; when it is missing it is created, and looked up again
    when the creation failed. *)
Definition get_or_create (what name : string) (notFound : error) (get create again : M W (result unit)) : M W unit :=
  r ← get;
  match r with
  | Fail err =>
      if negb (errors_Is err notFound) then fail (wrap_named ("get " +:+ what) name err)
      else
        r ← create;
        match r with
        | Fail err =>
            r ← again;
            match r with
            | Fail _ => fail (wrap_named ("create " +:+ what) name err)
            | other => lift other
            end
        | other => lift other
        end
  | other => lift other
  end.

Definition ensure_stream : M W unit :=
  get_or_create "Trail stream" streamName ErrStreamNotFound (js_call 0 (js_Stream streamName))
    (js_call 1 (js_CreateStream trail_stream)) (js_call 2 (js_Stream streamName)).
Definition ensure_consumer : M W unit :=
  get_or_create "Trail consumer" consumerName ErrConsumerNotFound (js_call 3 (js_Consumer streamName consumerName))
    (js_call 4 (js_CreateConsumer streamName trail_consumer)) (js_call 5 (js_Consumer streamName consumerName)).

Definition ensureJetStreamTopology : M W unit := _ ← ensure_stream; ensure_consumer.
End Topology.

(** ** The command *)

Inductive gcall :=
| GOpen (cfg : store_config) (err : option error)
| GMigrate (err : option error)
| GClose
| GConnect (url : string) (err : option error)
| GConnClose
| GJetStream (err : option error)
| GTopology
| GConsumer (stream name : string) (err : option error)
| GServe (addr : string)
| GShutdown (timeout : Z)
| GListen (addr : string) (outcome : option error)
| GEngine (c : icall).

(** The answers of the services to the calls the command makes itself. *)
Record GEnv := mkGEnv {
  gv_getenv : string -> string;
  gv_open : list gcall -> store_config -> option error;
  gv_migrate : list gcall -> option error;
  gv_connect : list gcall -> string -> option error;
  gv_jetstream : list gcall -> option error;
  gv_consumer : list gcall -> string -> string -> option error;
  gv_engine : IEnv
}.

(** The world: what the command did, and the services that keep a state.  A
    computation returns [None] while it is still running. *)
Section Steps.
Context {W : Type}.
Abbreviation G := (M (list gcall * W)).

Definition gask {A} (f : list gcall -> A) (log : A -> gcall) : G A := fun w =>
  let a := f w.1 in ((w.1 ++ [log a], w.2), Ok a).
Definition gcheck (f : list gcall -> option error) (log : option error -> gcall) : G unit :=
  err ← gask f log; match err with Some err => fail err | None => mret tt end.
(** [defer]: the cleanup runs when the body returns, with or without an error. *)
Definition deferring {A} (cleanup : gcall) (body : G (option A)) : G (option A) := fun w =>
  let '(w', r) := body w in
  match r with
  | Ok None => (w', Ok None)
  | r => ((w'.1 ++ [cleanup], w'.2), r)
  end.

(** [openStore], also that of trail-explorer-api: a store that cannot be migrated is
    closed.  [open_] and [migrate] are the answers of the store's library. *)
Definition openStore (unknown : string) (getenv : string -> string) (open_ : list gcall -> store_config -> option error)
    (migrate : list gcall -> option error) : G unit :=
  cfg ← lift (store_choice getenv unknown 8);
  _ ← gcheck (fun h => open_ h cfg) (GOpen cfg);
  err ← gask migrate GMigrate;
  match err with
  | Some err => _ ← gask (fun _ => tt) (fun _ => GClose); fail err
  | None => mret tt
  end.
End Steps.

Section Ingest.
Context (e : GEnv) `{JetStreamAPI W} (others : nat -> W -> W).
Abbreviation G := (M (list gcall * W)).

Definition on_jetstream {A} (m : M W A) : G A := fun w => let '(v, r) := m w.2 in ((w.1 ++ [GTopology], v), r).

Definition ingest_config : IngestConfig :=
  let getenv := gv_getenv e in
  mkIngestConfig (envInt getenv "TRAIL_INGEST_MAX_MESSAGES" 64) (envInt getenv "TRAIL_INGEST_MAX_EVENTS" 4096)
    (envInt getenv "TRAIL_INGEST_MAX_BYTES" (Z.shiftl 8 20)) 0 0 0
    (u64 (envInt getenv "TRAIL_INGEST_MAX_DELIVERIES" 5)) 0 (env getenv "TRAIL_INGEST_DLQ_SUBJECT" "trail.events.dlq.v1").

Definition ingest_call (c : gcall) : option icall := match c with GEngine c => Some c | _ => None end.

(** The engine on its own part of the history. *)
Definition run_ingest (cfg : IngestConfig) (rounds : nat) : G (option unit) := fun w =>
  let own := omap ingest_call w.1 in
  let '(own', (_, r)) := Engine_Run (gv_engine e) cfg rounds icounters0 own in
  ((w.1 ++ (GEngine <$> drop (length own) own'), w.2),
   match r with None => Ok None | Some None => Ok (Some tt) | Some (Some err) => Fail err end).

(** [run]; the engine makes at most [rounds] fetches in the time observed. *)
Definition run_connected (rounds : nat) : G (option unit) :=
  let getenv := gv_getenv e in
  _ ← gcheck (gv_jetstream e) GJetStream;
  let streamName := env getenv "TRAIL_NATS_STREAM" "TRAIL_EVENTS" in
  let consumerName := env getenv "TRAIL_NATS_CONSUMER" "TRAIL_INGESTOR" in
  let subject := env getenv "TRAIL_NATS_SUBJECT" "trail.events.v1" in
  _ ← (if envBool getenv "TRAIL_MANAGE_STREAM" true
       then on_jetstream (ensureJetStreamTopology others streamName consumerName subject
              (envInt getenv "TRAIL_INGEST_MAX_DELIVERIES" 5) (envInt getenv "TRAIL_INGEST_MAX_MESSAGES" 64))
       else mret tt);
  _ ← gcheck (fun h => gv_consumer e h streamName consumerName) (GConsumer streamName consumerName);
  cfg ← lift (New_ingestor ingest_config true true true);
  _ ← gask (fun _ => tt) (fun _ => GServe (env getenv "TRAIL_INGEST_HTTP_ADDR" ":8081"));
  deferring (GShutdown (3 * 1000000000)) (run_ingest cfg rounds).

Definition ingestor_run (rounds : nat) : G (option unit) :=
  _ ← openStore "trail-ingestor: unknown TRAIL_STORE" (gv_getenv e) (gv_open e) (gv_migrate e);
  deferring GClose (
    let url := env (gv_getenv e) "TRAIL_NATS_URL" "nats://127.0.0.1:4222" in
    _ ← gcheck (fun h => gv_connect e h url) (GConnect url);
    deferring GConnClose (run_connected rounds)).
End Ingest.

(** [dlqPublisher.PublishDLQ]: the message goes to JetStream as it is. *)
Definition dlq_PublishDLQ {Msg Header} (PublishMsg : string -> bytes -> Header -> Msg * option error)
    (subject : string) (data : bytes) (header : Header) : option error :=
  snd (PublishMsg subject data header).

(** [healthHandler]: status, content type and body of a reply.  A pattern for GET also
    serves HEAD. *)
Record http_reply := mkHttpReply { hr_status : Z; hr_type : string; hr_body : bytes }.
Definition text_reply (status : Z) (text : string) : http_reply :=
  mkHttpReply status "text/plain; charset=utf-8" (string_bytes text ++ ["010"%char]).

Definition enc_IngestStatistics (s : IngestStatistics) : json :=
  JObject [("messages_fetched", JInt (st_MessagesFetched s)); ("messages_decoded", JInt (st_MessagesDecoded s));
    ("messages_acked", JInt (st_MessagesAcked s)); ("messages_dlq", JInt (st_MessagesDLQ s));
    ("redeliveries", JInt (st_Redeliveries s)); ("events_written", JInt (st_EventsWritten s));
    ("bytes_fetched", JInt (st_BytesFetched s)); ("decode_errors", JInt (st_DecodeErrors s));
    ("write_errors", JInt (st_WriteErrors s)); ("ack_errors", JInt (st_AckErrors s))].

Definition healthHandler (c : icounters) (method path : string) : http_reply :=
  if negb (str_eqb path "/healthz") && negb (str_eqb path "/stats") then text_reply 404 "404 page not found"
  else if negb (str_eqb method "GET") && negb (str_eqb method "HEAD") then text_reply 405 "Method Not Allowed"
  else if str_eqb path "/healthz"
  then mkHttpReply 200 "application/json" (json_print (JObject [("status", JString "ok")]))
  else mkHttpReply 200 "application/json" (json_print (enc_IngestStatistics (Engine_Stats c)) ++ ["010"%char]).

(** ** What the topology calls leave *)

(** A call that answers, moves the world along [R], and on success leaves it in [P]. *)
Definition answers {W} (R : W -> W -> Prop) (P : W -> Prop) (m : M W (result unit)) : Prop :=
  forall w, exists w' r, m w = (w', Ok r) /\ R w w' /\
    match r with Ok _ => P w' | Fail _ => True | Panic _ => False end.

Lemma get_or_create_answers {W} (R : W -> W -> Prop) `{!PreOrder R} P what name notFound get create again (w : W) :
  answers R P get -> answers R P create -> answers R P again ->
  let '(w', r) := get_or_create what name notFound get create again w in
  R w w' /\ match r with Ok _ => P w' | Fail _ => True | Panic _ => False end.
Proof.
  intros Hg Hc Ha. unfold get_or_create, mbind, M_bind, lift, fail.
  destruct (Hg w) as (w1 & r1 & -> & R1 & P1). destruct r1 as [[]|e1|m]; [done| |done].
  destruct (negb _); [done|]. destruct (Hc w1) as (w2 & r2 & -> & R2 & P2).
  destruct r2 as [[]|e2|m]; [split; [by transitivity w1|done]| |done].
  destruct (Ha w2) as (w3 & r3 & -> & R3 & P3).
  destruct r3 as [[]|e3|m]; [split; [transitivity w1; [done|by transitivity w2]|done]..|done].
Qed.

Section TopologyProofs.
Context `{JetStreamAPI W}.

(** Everything of [w] is in [w'], with its configuration. *)
Definition js_grows (w w' : W) : Prop := js_streams w ⊆ js_streams w' /\ js_consumers w ⊆ js_consumers w'.

#[global] Instance js_grows_preorder : PreOrder js_grows.
Proof. split; [by intros w|]. intros a b c [? ?] [? ?]. split; by etransitivity. Qed.

(** Nothing but [key] was added, with the configuration [cfg]. *)
Definition adds {K V} `{Countable K} (key : K) (cfg : V) (m m' : gmap K V) : Prop :=
  m' = m \/ (m !! key = None /\ m' = <[key := cfg]> m).

#[global] Instance adds_preorder {K V} `{Countable K} (key : K) (cfg : V) : PreOrder (adds key cfg).
Proof.
  split; [by left|]. intros a b c [Hb|[Hn Hb]] [Hc|[Hn' Hc]]; subst.
  - by left.
  - by right.
  - by right.
  - by rewrite lookup_insert_eq in Hn'.
Qed.

Lemma adds_grows {K V} `{Countable K} (key : K) (cfg : V) m m' : adds key cfg m m' -> m ⊆ m'.
Proof. intros [Hm|[Hn Hm]]; subst; [done|by apply insert_subseteq]. Qed.

Context (others : nat -> W -> W).
Context (streamName consumerName subject : string) (maxDeliveries maxMessages : Z).
Abbreviation stream_cfg := (trail_stream streamName subject).
Abbreviation consumer_cfg := (trail_consumer consumerName maxDeliveries maxMessages).

(** Apart from what the others do, a step adds at most the stream, or the consumer. *)
Definition stream_step (w w' : W) : Prop :=
  adds streamName stream_cfg (js_streams w) (js_streams w') /\ js_consumers w' = js_consumers w.
Definition consumer_step (w w' : W) : Prop :=
  adds (streamName, consumerName) consumer_cfg (js_consumers w) (js_consumers w') /\ js_streams w' = js_streams w.

#[global] Instance stream_step_preorder : PreOrder stream_step.
Proof. split; [by split|]. intros a b c [? E1] [? E2]. split; [by etransitivity|by rewrite E2]. Qed.
#[global] Instance consumer_step_preorder : PreOrder consumer_step.
Proof. split; [by split|]. intros a b c [? E1] [? E2]. split; [by etransitivity|by rewrite E2]. Qed.

Definition has_stream (w : W) : Prop := is_Some (js_streams w !! streamName).
Definition has_consumer (w : W) : Prop := is_Some (js_consumers w !! (streamName, consumerName)).

(** A call moves the world along [R] and leaves it in [P] when it succeeds. *)
Definition moves (R : W -> W -> Prop) (P : W -> Prop) (m : M W unit) : Prop :=
  forall w, let '(w', r) := m w in R w w' /\ match r with Ok _ => P w' | Fail _ => True | Panic _ => False end.

Lemma Stream_moves : moves stream_step has_stream (js_Stream streamName).
Proof.
  intros w. pose proof (js_Stream_law streamName w) as L. destruct (js_Stream streamName w) as [w' r].
  destruct L as (L1 & L2 & L3). split; [by split; [left|]|]. unfold has_stream. rewrite L1. by destruct r.
Qed.

Lemma CreateStream_moves : moves stream_step has_stream (js_CreateStream stream_cfg).
Proof.
  intros w. pose proof (js_CreateStream_law stream_cfg w) as L. destruct (js_CreateStream stream_cfg w) as [w' r].
  destruct L as (L1 & L2). destruct r as [[]|e|m]; [|split; [|done]|done].
  - destruct L2 as [[Hn Hv]|[Hv Hs]]; (split; [split; [|done]|]); [by right| |by left|]; unfold has_stream; rewrite Hv; [|by eexists].
    cbn. rewrite lookup_insert_eq. by eexists.
  - split; [|done]. destruct L2 as [[Hn Hv]|Hv]; [by right|by left].
Qed.

Lemma Consumer_moves : moves consumer_step has_consumer (js_Consumer streamName consumerName).
Proof.
  intros w. pose proof (js_Consumer_law streamName consumerName w) as L. destruct (js_Consumer streamName consumerName w) as [w' r].
  destruct L as (L1 & L2 & L3). split; [by split; [left|]|]. unfold has_consumer. rewrite L2. by destruct r.
Qed.

Lemma CreateConsumer_moves : moves consumer_step has_consumer (js_CreateConsumer streamName consumer_cfg).
Proof.
  intros w. pose proof (js_CreateConsumer_law streamName consumer_cfg w) as L.
  destruct (js_CreateConsumer streamName consumer_cfg w) as [w' r].
  destruct L as (L1 & L2). destruct r as [[]|e|m]; [|split; [|done]|done].
  - destruct L2 as [[Hn Hv]|[Hv Hs]]; (split; [split; [|done]|]); [by right| |by left|]; unfold has_consumer; rewrite Hv; [|by eexists].
    cbn. rewrite lookup_insert_eq. by eexists.
  - split; [|done]. destruct L2 as [[Hn Hv]|Hv]; [by right|by left].
Qed.

(** The halves, along any relation that covers a step and what the others do. *)
Lemma js_call_answers R `{!PreOrder R} step P n m : (forall n w, R w (others n w)) -> (forall a b, step a b -> R a b) ->
  moves step P m -> answers R P (js_call others n m).
Proof.
  intros Ho Hs Hm w. unfold js_call, attempt. specialize (Hm (others n w)). destruct (m (others n w)) as [w' r].
  destruct Hm as [HR HP]. exists w', r. split; [done|]. split; [|done]. transitivity (others n w); [apply Ho|by apply Hs].
Qed.

Lemma ensure_stream_moves R `{!PreOrder R} :
  (forall n w, R w (others n w)) -> (forall a b, stream_step a b -> R a b) ->
  moves R has_stream (ensure_stream others streamName subject).
Proof.
  intros Ho Hs w. apply (get_or_create_answers R has_stream); eapply js_call_answers; try done;
    (apply Stream_moves || apply CreateStream_moves).
Qed.

Lemma ensure_consumer_moves R `{!PreOrder R} :
  (forall n w, R w (others n w)) -> (forall a b, consumer_step a b -> R a b) ->
  moves R has_consumer (ensure_consumer others streamName consumerName maxDeliveries maxMessages).
Proof.
  intros Ho Hs w. apply (get_or_create_answers R has_consumer); eapply js_call_answers; try done;
    (apply Consumer_moves || apply CreateConsumer_moves).
Qed.

Lemma stream_step_grows a b : stream_step a b -> js_grows a b.
Proof. intros [Ha Hb]. split; [by eapply adds_grows|by rewrite Hb]. Qed.
Lemma consumer_step_grows a b : consumer_step a b -> js_grows a b.
Proof. intros [Ha Hb]. split; [by rewrite Hb|by eapply adds_grows]. Qed.
End TopologyProofs.

(** C27. [ensureJetStreamTopology] never changes a stream or consumer that exists, whatever
    other ingestors create meanwhile; when it succeeds the stream and the durable
    consumer exist; and alone it adds at most these two, with Trail's configuration. *)
Theorem topology_ensured `{JetStreamAPI W} (others : nat -> W -> W) (streamName consumerName subject : string)
    (maxDeliveries maxMessages : Z) (w w' : W) (r : result unit) :
  (forall n v, js_grows v (others n v)) ->
  ensureJetStreamTopology others streamName consumerName subject maxDeliveries maxMessages w = (w', r) ->
  js_grows w w' /\
  (r = Ok tt -> has_stream streamName w' /\ has_consumer streamName consumerName w') /\
  ((forall n v, others n v = v) ->
   adds streamName (trail_stream streamName subject) (js_streams w) (js_streams w') /\
   adds (streamName, consumerName) (trail_consumer consumerName maxDeliveries maxMessages) (js_consumers w) (js_consumers w')).
Proof.
  intros Ho Hrun. unfold ensureJetStreamTopology, mbind, M_bind in Hrun.
  pose proof (ensure_stream_moves others streamName subject js_grows Ho (stream_step_grows _ _) w) as G1.
  assert ((forall n v, others n v = v) -> stream_step streamName subject w (ensure_stream others streamName subject w).1) as C1.
  { intros Hid. pose proof (ensure_stream_moves others streamName subject (stream_step streamName subject)
      (fun n v => ltac:(rewrite Hid; reflexivity)) (fun _ _ x => x) w) as C. by destruct (ensure_stream _ _ _ w) as [? ?], C. }
  destruct (ensure_stream others streamName subject w) as [w1 r1]. destruct G1 as [G1 P1]. cbn [fst] in C1.
  destruct r1 as [[]|e|m]; [|injection Hrun as <- <-; split; [done|]; split; [done|]; intros Hid; destruct (C1 Hid) as [? ->]; split; [done|by left]|done].
  pose proof (ensure_consumer_moves others streamName consumerName maxDeliveries maxMessages js_grows Ho
    (consumer_step_grows _ _ _ _) w1) as G2.
  assert ((forall n v, others n v = v) -> consumer_step streamName consumerName maxDeliveries maxMessages w1 w') as C2.
  { intros Hid. pose proof (ensure_consumer_moves others streamName consumerName maxDeliveries maxMessages
      (consumer_step streamName consumerName maxDeliveries maxMessages)
      (fun n v => ltac:(rewrite Hid; reflexivity)) (fun _ _ x => x) w1) as C. rewrite Hrun in C. by destruct C. }
  rewrite Hrun in G2. destruct G2 as [G2 P2]. split; [by transitivity w1|]. split.
  - intros ->. split; [|done]. destruct P1 as [cfg P1]. exists cfg. by eapply lookup_weaken, G2.
  - intros Hid. destruct (C1 Hid) as [A1 B1]. destruct (C2 Hid) as [A2 B2]. by rewrite B2, <- B1.
Qed.

(** ** A server in memory *)

Record jserver := mkJServer { jv_streams : streams; jv_consumers : consumers }.
Definition ErrNameInUse : error := sentinel "nats: API error: name already in use".

#[global] Instance StorageType_eq_dec : EqDecision StorageType.
Proof. solve_decision. Defined.
#[global] Instance RetentionPolicy_eq_dec : EqDecision RetentionPolicy.
Proof. solve_decision. Defined.
#[global] Instance DiscardPolicy_eq_dec : EqDecision DiscardPolicy.
Proof. solve_decision. Defined.
#[global] Instance AckPolicy_eq_dec : EqDecision AckPolicy.
Proof. solve_decision. Defined.
#[global] Instance StreamConfig_eq_dec : EqDecision StreamConfig.
Proof. solve_decision. Defined.
#[global] Instance ConsumerConfig_eq_dec : EqDecision ConsumerConfig.
Proof. solve_decision. Defined.

(** Look a key up, or create it unless it is taken. *)
Definition mem_get {K V} `{Countable K} (key : K) (notFound : error) (m : gmap K V) : result unit :=
  match m !! key with Some _ => Ok tt | None => Fail notFound end.
Definition mem_create {K V} `{Countable K, EqDecision V} (key : K) (cfg : V) (m : gmap K V) : gmap K V * result unit :=
  match m !! key with
  | Some old => (m, if decide (old = cfg) then Ok tt else Fail ErrNameInUse)
  | None => (<[key := cfg]> m, Ok tt)
  end.

#[export] Instance jserver_API : JetStreamAPI jserver.
Proof.
  refine {| js_streams := jv_streams; js_consumers := jv_consumers;
    js_Stream name := reads (fun w => mem_get name ErrStreamNotFound (jv_streams w));
    js_CreateStream cfg := fun w => let '(m, r) := mem_create (str_Name cfg) cfg (jv_streams w) in (mkJServer m (jv_consumers w), r);
    js_Consumer stream name := reads (fun w => mem_get (stream, name) ErrConsumerNotFound (jv_consumers w));
    js_CreateConsumer stream cfg := fun w =>
      let '(m, r) := mem_create (stream, con_Durable cfg) cfg (jv_consumers w) in (mkJServer (jv_streams w) m, r) |}.
  - intros name w. unfold reads, mem_get. by destruct (jv_streams w !! name).
  - intros cfg w. unfold mem_create. destruct (jv_streams w !! str_Name cfg) as [old|] eqn:E; [|by split; [|left]].
    split; [done|]. destruct (decide (old = cfg)) as [->|]; [by right|by right].
  - intros stream name w. unfold reads, mem_get. by destruct (jv_consumers w !! (stream, name)).
  - intros stream cfg w. unfold mem_create. destruct (jv_consumers w !! (stream, con_Durable cfg)) as [old|] eqn:E; [|by split; [|left]].
    split; [done|]. destruct (decide (old = cfg)) as [->|]; [by right|by right].
Defined.

(** A second ingestor, with other limits, creates both between the look-ups and the
    creations. *)
Definition rival_stream : StreamConfig := mkStreamConfig "TRAIL_EVENTS" ["trail.events.v1"] FileStorage LimitsPolicy DiscardNew 1.
Definition rival_consumer : ConsumerConfig := mkConsumerConfig "TRAIL_INGESTOR" AckExplicitPolicy 1 9 18.
Definition rival (n : nat) (w : jserver) : jserver :=
  match n with
  | 1%nat => match jv_streams w !! "TRAIL_EVENTS" with
             | None => mkJServer (<["TRAIL_EVENTS" := rival_stream]> (jv_streams w)) (jv_consumers w)
             | Some _ => w
             end
  | 4%nat => match jv_consumers w !! ("TRAIL_EVENTS", "TRAIL_INGESTOR") with
             | None => mkJServer (jv_streams w) (<[("TRAIL_EVENTS", "TRAIL_INGESTOR") := rival_consumer]> (jv_consumers w))
             | Some _ => w
             end
  | _ => w
  end.

Lemma rival_creates n w : js_grows w (rival n w).
Proof.
  destruct n as [|[|[|[|[|n]]]]]; cbn [rival]; try done.
  - destruct (jv_streams w !! "TRAIL_EVENTS") eqn:E; [done|]. split; [by apply insert_subseteq|done].
  - destruct (jv_consumers w !! ("TRAIL_EVENTS", "TRAIL_INGESTOR")) eqn:E; [done|]. split; [done|by apply insert_subseteq].
Qed.

Definition raced : jserver * result unit :=
  ensureJetStreamTopology rival "TRAIL_EVENTS" "TRAIL_INGESTOR" "trail.events.v1" 5 64 (mkJServer ∅ ∅).

Example topology_ensured_witness :
  has_stream "TRAIL_EVENTS" raced.1 /\ has_consumer "TRAIL_EVENTS" "TRAIL_INGESTOR" raced.1.
Proof.
  assert (raced = (raced.1, Ok tt)) as E by (vm_compute; reflexivity).
  exact (proj1 (proj2 (topology_ensured rival "TRAIL_EVENTS" "TRAIL_INGESTOR" "trail.events.v1" 5 64 _ _ _ rival_creates E)) eq_refl).
Defined.

(** The rival's configuration stays; alone, the command creates its own and a second
    start changes nothing. *)
Example topology_examples :
  jv_streams raced.1 !! "TRAIL_EVENTS" = Some rival_stream /\
  let alone := ensureJetStreamTopology (fun _ w => w) "S" "C" "a" 5 64 (mkJServer ∅ ∅) in
  alone.2 = Ok tt /\ jv_streams alone.1 !! "S" = Some (trail_stream "S" "a") /\
  jv_consumers alone.1 !! ("S", "C") = Some (trail_consumer "C" 5 64) /\
  ensureJetStreamTopology (fun _ w => w) "S" "C" "b" 7 1 alone.1 = alone.
Proof. cbn zeta. split_and!; vm_compute; reflexivity. Qed.

(** ** What a run of the command does *)

Definition store_weight (c : gcall) : Z := match c with GOpen _ None => 1 | GClose => -1 | _ => 0 end.
Definition conn_weight (c : gcall) : Z := match c with GConnect _ None => 1 | GConnClose => -1 | _ => 0 end.
Definition http_weight (c : gcall) : Z := match c with GServe _ => 1 | GShutdown _ => -1 | _ => 0 end.

(** Every store opened, connection made and server started is given up again. *)
Definition all_released (n : list gcall) : Prop :=
  sumZ store_weight n = 0 /\ sumZ conn_weight n = 0 /\ sumZ http_weight n = 0.

Definition ingest_calls (n : list gcall) : list icall := omap ingest_call n.

Lemma ingest_calls_app n m : ingest_calls (n ++ m) = ingest_calls n ++ ingest_calls m.
Proof. apply omap_app. Qed.

Section RunProofs.
Context {W : Type} (trace : list icall -> Prop).
Abbreviation G := (M (list gcall * W)).

(** A step that leaves nothing held and does not touch the engine. *)
Definition silent {A} (m : G A) : Prop := forall w, exists n v r, m w = ((w.1 ++ n, v), r) /\ all_released n /\ ingest_calls n = [].

(** From a history without engine calls, a body whose engine calls satisfy [trace] and
    that has given up, when it returns, all but the [held] weights. *)
Definition lawful {A} (held : Z * Z * Z) (m : G (option A)) : Prop := forall w, ingest_calls w.1 = [] ->
  exists n v r, m w = ((w.1 ++ n, v), r) /\ (ingest_calls n = [] \/ trace (ingest_calls n)) /\
    (r <> Ok None -> sumZ store_weight n = held.1.1 /\ sumZ conn_weight n = held.1.2 /\ sumZ http_weight n = held.2).

Lemma silent_lift {A} (r : result A) : silent (lift r).
Proof. intros w. exists [], w.2, r. rewrite app_nil_r. by destruct w. Qed.

Lemma silent_check f log : (forall err, all_released [log err] /\ ingest_call (log err) = None) -> silent (gcheck f log).
Proof.
  intros Hl w. destruct (Hl (f w.1)) as [Hr Hc]. exists [log (f w.1)], w.2.
  unfold gcheck, gask, mbind, M_bind. destruct (f w.1) as [err|]; eexists; split; try done; split; [done| |done|];
    unfold ingest_calls; cbn [omap list_omap]; by rewrite Hc.
Qed.

Lemma lawful_bind {A B} (m : G A) (f : A -> G (option B)) : silent m -> (forall a, lawful (0, 0, 0) (f a)) -> lawful (0, 0, 0) (m ≫= f).
Proof.
  intros Hm Hf w Hw. destruct (Hm w) as (n & v & r & Hrun & (R1 & R2 & R3) & Hn). unfold mbind, M_bind. rewrite Hrun.
  destruct r as [a|err|msg]; [|exists n, v, (Fail err); split; [done|]; split; [by left|done]|exists n, v, (Panic msg); split; [done|]; split; [by left|done]].
  destruct (Hf a (w.1 ++ n, v)) as (n' & v' & r' & Hrun' & Hq & Hb); [cbn [fst]; by rewrite ingest_calls_app, Hw, Hn|].
  cbn [fst] in Hrun'. exists (n ++ n'), v', r'. rewrite Hrun', app_assoc. split; [done|]. rewrite ingest_calls_app, Hn. split; [done|].
  intros Hr. destruct (Hb Hr) as (B1 & B2 & B3). rewrite !sumZ_app. cbn in *. lia.
Qed.

(** What [n] holds is given up by the deferred [cleanup]. *)
Lemma lawful_deferring {A} cleanup (body : G (option A)) : ingest_call cleanup = None ->
  lawful (0, 0, 0) body ->
  lawful (store_weight cleanup, conn_weight cleanup, http_weight cleanup) (deferring cleanup body).
Proof.
  intros Hc Hb w Hw. destruct (Hb w Hw) as (n & v & r & Hrun & Hq & Hw'). unfold deferring. rewrite Hrun.
  assert (ingest_calls (n ++ [cleanup]) = ingest_calls n) as Hn.
  { rewrite ingest_calls_app. unfold ingest_calls at 2. cbn [omap list_omap]. by rewrite Hc, app_nil_r. }
  destruct r as [[a|]|err|msg].
  2: { exists n, v, (Ok None). by split; [|split]. }
  all: eexists (n ++ [cleanup]), v, _; (split; [by rewrite app_assoc|]); rewrite Hn; (split; [done|]);
    intros _; destruct Hw' as (B1 & B2 & B3); [done|]; rewrite !sumZ_app; cbn in *; lia.
Qed.

(** A step that, when it succeeds, holds just what [cleanup] gives up. *)
Lemma lawful_acquire {A} (m : G unit) cleanup (body : G (option A)) :
  (forall w, exists n v r, m w = ((w.1 ++ n, v), r) /\ ingest_calls n = [] /\
     match r with
     | Ok _ => all_released (n ++ [cleanup])
     | _ => all_released n
     end) ->
  lawful (store_weight cleanup, conn_weight cleanup, http_weight cleanup) body -> lawful (0, 0, 0) (_ ← m; body).
Proof.
  intros Hm Hb w Hw. destruct (Hm w) as (n & v & r & Hrun & Hn & Hr). unfold mbind, M_bind. rewrite Hrun.
  destruct r as [[]|err|msg].
  2: { exists n, v, (Fail err). destruct Hr as (? & ? & ?). by split; [|split; [left|]]. }
  2: { exists n, v, (Panic msg). destruct Hr as (? & ? & ?). by split; [|split; [left|]]. }
  destruct (Hb (w.1 ++ n, v)) as (n' & v' & r' & Hrun' & Hq & Hheld); [cbn [fst]; by rewrite ingest_calls_app, Hw, Hn|].
  cbn [fst] in Hrun'. exists (n ++ n'), v', r'. rewrite Hrun', app_assoc. split; [done|]. rewrite ingest_calls_app, Hn. split; [done|].
  intros Hret. destruct (Hheld Hret) as (B1 & B2 & B3). destruct Hr as (R1 & R2 & R3). rewrite !sumZ_app in *. cbn in *. lia.
Qed.

(** What follows a computation that has returned. *)
Lemma lawful_then {A B} held (m : G (option A)) (k : A -> G (option B)) : lawful held m -> (forall a, silent (k a)) ->
  lawful held (x ← m; match x with Some a => k a | None => mret None end).
Proof.
  intros Hm Hk w Hw. destruct (Hm w Hw) as (n & v & r & Hrun & Hq & Hb). unfold mbind, M_bind. rewrite Hrun.
  destruct r as [[a|]|err|msg].
  2: { by exists n, v, (Ok None). }
  2: { exists n, v, (Fail err). split; [done|]. split; [done|]. intros _. by apply Hb. }
  2: { exists n, v, (Panic msg). split; [done|]. split; [done|]. intros _. by apply Hb. }
  destruct (Hk a (w.1 ++ n, v)) as (n' & v' & r' & Hrun' & (R1 & R2 & R3) & Hn). cbn [fst] in Hrun'.
  exists (n ++ n'), v', r'. rewrite Hrun', app_assoc, ingest_calls_app, Hn, app_nil_r. split; [done|]. split; [done|].
  intros _. destruct Hb as (B1 & B2 & B3); [done|]. rewrite !sumZ_app. lia.
Qed.

Lemma openStore_acquires unknown getenv open_ migrate (w : list gcall * W) : exists n v r,
  openStore unknown getenv open_ migrate w = ((w.1 ++ n, v), r) /\ ingest_calls n = [] /\
  match r with Ok _ => all_released (n ++ [GClose]) | _ => all_released n end.
Proof.
  destruct w as [h v]. unfold openStore, gcheck, gask, lift, mbind, M_bind, fail, mret, M_ret. cbn [fst snd].
  destruct (store_choice _ _ _) as [cfg|err|m]; [|by exists [], v, (Fail err); rewrite app_nil_r|by exists [], v, (Panic m); rewrite app_nil_r].
  destruct (open_ h cfg) as [err|] eqn:Ho; [by exists [GOpen cfg (Some err)], v, (Fail err)|].
  destruct (migrate _) as [err|] eqn:Hm; cbn [fst snd]; rewrite <- !app_assoc; by eexists _, v, _.
Qed.
End RunProofs.

Section Run.
Context (e : GEnv) `{JetStreamAPI W} (others : nat -> W -> W) (rounds : nat).

(** The calls of one run of the engine with the settings' configuration. *)
Definition ingest_trace (n : list icall) : Prop := exists cfg,
  New_ingestor (ingest_config e) true true true = Ok cfg /\ n = (Engine_Run (gv_engine e) cfg rounds icounters0 []).1.

Lemma ingest_calls_engine l : ingest_calls (GEngine <$> l) = l.
Proof. induction l as [|c l IH]; [done|]. cbn. f_equal. exact IH. Qed.

Lemma run_ingest_lawful cfg : New_ingestor (ingest_config e) true true true = Ok cfg ->
  lawful (W := W) ingest_trace (0, 0, 0) (run_ingest e cfg rounds).
Proof.
  intros Hcfg w Hw. unfold run_ingest. change (omap ingest_call w.1) with (ingest_calls w.1). rewrite Hw.
  assert (ingest_trace (Engine_Run (gv_engine e) cfg rounds icounters0 []).1) as Ht by (by exists cfg).
  destruct (Engine_Run (gv_engine e) cfg rounds icounters0 []) as [own [c r]]. cbn [length]. rewrite drop_0.
  exists (GEngine <$> own), w.2. eexists. split; [reflexivity|]. rewrite ingest_calls_engine. split; [by right|].
  intros _. cbn. split_and!; apply sumZ_zero; intros g (x & -> & _)%list_elem_of_fmap; done.
Qed.

Lemma connected_lawful : lawful ingest_trace (0, 0, 0) (run_connected e others rounds).
Proof.
  apply lawful_bind; [apply silent_check; by intros []|]. intros _. apply lawful_bind.
  { destruct (envBool _ _ _); [|apply silent_lift]. intros w. unfold on_jetstream.
    destruct (ensureJetStreamTopology _ _ _ _ _ _ w.2) as [v r]. by exists [GTopology], v, r. }
  intros _. apply lawful_bind; [apply silent_check; by intros []|]. intros _.
  destruct (New_ingestor (ingest_config e) true true true) as [cfg|err|msg] eqn:Hcfg; [|done|done].
  unfold mbind at 1, M_bind at 1, lift. apply (lawful_acquire ingest_trace _ (GShutdown (3 * 1000000000))).
  - intros w. by eexists [_], w.2, _.
  - apply lawful_deferring; [done|]. by apply run_ingest_lawful.
Qed.

Lemma run_lawful : lawful ingest_trace (0, 0, 0) (ingestor_run e others rounds).
Proof.
  apply (lawful_acquire ingest_trace _ GClose); [apply openStore_acquires|]. apply lawful_deferring; [done|].
  apply (lawful_acquire ingest_trace _ GConnClose).
  - intros w. unfold gcheck, gask, mbind, M_bind. destruct (gv_connect e w.1 _) as [err|]; by eexists [_], w.2, _.
  - apply lawful_deferring; [done|]. apply connected_lawful.
Qed.
End Run.

Lemma Atoi_range t : - 2 ^ 63 <= (Atoi t).1 < 2 ^ 63.
Proof.
  unfold Atoi. set (p := match string_bytes t with "-"%char :: ds => (true, ds) | "+"%char :: ds => (false, ds) | ds => (false, ds) end).
  destruct p as [neg ds]. destruct (_ || _); [done|]. set (v := if neg then _ else _).
  destruct (Z.ltb_spec v (- 2 ^ 63)); [done|]. destruct (Z.leb_spec (2 ^ 63) v); [done|]. cbn [fst]. lia.
Qed.

Lemma envInt_pos getenv k v : 0 < v < 2 ^ 63 -> 0 < envInt getenv k v < 2 ^ 63.
Proof.
  intros Hv. unfold envInt. pose proof (Atoi_range (getenv k)) as Hb. destruct (Atoi (getenv k)) as [x ok].
  destruct ok; [|done]. cbn [negb orb]. destruct (Z.leb_spec x 0); [done|]. cbn in Hb. lia.
Qed.

Lemma env_nonempty getenv k v : v <> "" -> env getenv k v <> "".
Proof. intros Hv. unfold env, str_eqb. by case_bool_decide. Qed.

(** The engine's limits, whatever the settings say. *)
Definition limits_ok (cfg : IngestConfig) : Prop :=
  0 < ic_MaxMessages cfg < 2 ^ 63 /\ 0 < ic_MaxEvents cfg < 2 ^ 63 /\ 0 < ic_MaxBytes cfg < 2 ^ 63 /\
  0 < ic_MaxDeliveries cfg < 2 ^ 63 /\ ic_DLQSubject cfg <> "".

Lemma ingest_default_pos v d : 0 < v -> ingest_default v d = v.
Proof. intros Hv. unfold ingest_default. by destruct (Z.leb_spec v 0); [lia|]. Qed.

Lemma ingest_limits e cfg : New_ingestor (ingest_config e) true true true = Ok cfg -> limits_ok cfg.
Proof.
  pose proof (envInt_pos (gv_getenv e) "TRAIL_INGEST_MAX_MESSAGES" 64 ltac:(done)) as H1.
  pose proof (envInt_pos (gv_getenv e) "TRAIL_INGEST_MAX_EVENTS" 4096 ltac:(done)) as H2.
  pose proof (envInt_pos (gv_getenv e) "TRAIL_INGEST_MAX_BYTES" (Z.shiftl 8 20) ltac:(done)) as H3.
  pose proof (envInt_pos (gv_getenv e) "TRAIL_INGEST_MAX_DELIVERIES" 5 ltac:(done)) as H4.
  pose proof (env_nonempty (gv_getenv e) "TRAIL_INGEST_DLQ_SUBJECT" "trail.events.dlq.v1" ltac:(done)) as H5.
  unfold New_ingestor. cbn [negb orb]. intros H. apply Ok_inj in H as <-. unfold limits_ok, ingest_config.
  cbn [ic_MaxMessages ic_MaxEvents ic_MaxBytes ic_MaxDeliveries ic_DLQSubject].
  rewrite !ingest_default_pos by lia. split_and!; try lia.
  - unfold u64, wrapu. rewrite Z.mod_small by lia. destruct (Z.eqb_spec (envInt (gv_getenv e) "TRAIL_INGEST_MAX_DELIVERIES" 5) 0); lia.
  - unfold u64, wrapu. rewrite Z.mod_small by lia. destruct (Z.eqb_spec (envInt (gv_getenv e) "TRAIL_INGEST_MAX_DELIVERIES" 5) 0); lia.
  - unfold str_eqb. by rewrite bool_decide_eq_false_2.
Qed.

(** C26. Whatever the services and the settings do: when [run] returns, with or without
    an error, every event store it opened is closed, every connection closed and the
    health server shut down; and the engine's calls, if it got that far, are those of
    one run of the engine whose limits are positive and fit 64 bits and whose
    dead-letter subject is set. *)
Theorem ingestor_command (e : GEnv) `{JetStreamAPI W} (others : nat -> W -> W) (rounds : nat) (w : W) :
  let '((h, _), r) := ingestor_run e others rounds ([], w) in
  (r <> Ok None -> all_released h) /\
  (ingest_calls h = [] \/
   exists cfg, New_ingestor (ingest_config e) true true true = Ok cfg /\ limits_ok cfg /\
     ingest_calls h = (Engine_Run (gv_engine e) cfg rounds icounters0 []).1).
Proof.
  destruct (run_lawful e others rounds ([], w) eq_refl) as (n & v & r & -> & Hq & Hb). cbn [fst app]. split.
  - intros Hr. apply Hb, Hr.
  - destruct Hq as [Hq|(cfg & Hcfg & Hq)]; [by left|right]. exists cfg. split; [done|]. split; [by apply (ingest_limits e)|done].
Qed.

(** A store that opens but cannot be migrated is closed again; a run whose context has
    ended returns nil. *)
Definition demo_genv (migrate : option error) : GEnv :=
  mkGEnv (fun _ => "") (fun _ _ => None) (fun _ => migrate) (fun _ _ => None) (fun _ => None) (fun _ _ _ => None)
    (mkIEnv (fun _ => Some (sentinel "context canceled")) (fun _ _ _ => (mkFetched [] None, None)) (fun _ _ => inr ErrTimeout)
       (fun _ => 0) (fun _ _ => None) (fun _ _ => None) (fun _ _ => None) (fun _ _ _ _ => None) (fun _ _ => None)).

Example ingestor_command_runs :
  (ingestor_run (demo_genv None) (fun _ w => w) 3 ([], mkJServer ∅ ∅)).2 = Ok (Some tt) /\
  length (ingestor_run (demo_genv None) (fun _ w => w) 3 ([], mkJServer ∅ ∅)).1.1 = 11%nat /\
  (ingestor_run (demo_genv (Some ErrTimeout)) (fun _ w => w) 3 ([], mkJServer ∅ ∅)).2 = Fail ErrTimeout /\
  last (ingestor_run (demo_genv (Some ErrTimeout)) (fun _ w => w) 3 ([], mkJServer ∅ ∅)).1.1 = Some GClose.
Proof. split_and!; vm_compute; reflexivity. Qed.
