(* ===== verification/CmdExplorer.v ===== *)
(** * The command trail-explorer-api (src/cmd/trail-explorer-api/main.go)

    The command opens the event store, the payload stores and, when it is configured,
    the archive store, builds the explorer API on them and serves requests until the
    server is shut down.  net/http's [ListenAndServe] returns as soon as [Shutdown] is
    called, and [run] does not wait for [Shutdown]: handlers that are running then go
    on while the event store is closed and until the process ends.  The payload stores
    are those of the components: files of the machine, and objects of the S3 services,
    each at its endpoint. *)

From S2P Require Import Prelude Ids Events GoLib GoText GoTime Trace Wire Payload FileStore FileStoreProofs Storage Archive ArchiveJson Query ExplorerApi ExplorerApiProofs ApiStores S3Store S3StoreProofs PayloadStores S3Contract PgSchema ChWrite Ingestor CmdStores CmdIngestor.

(** ** The services *)

(** The files of the machine, and the S3 services by their endpoints. *)
Definition services (W : Type) : Type := (fsw * (string -> W))%type.

Definition at_endpoint {W A} (endpoint : string) (m : M (fsw * W) A) : M (services W) A := fun w =>
  let '(w', r) := m (w.1, w.2 endpoint) in
  ((w'.1, fun e => if str_eqb e endpoint then w'.2 else w.2 e), r).

(** An opened event store as the API uses it: its lists, its catalogue of archives and
    its way of restoring events. *)
Record event_store (W : Type) := mkEventStore {
  es_explorer : ExplorerStore;
  es_catalog : Catalog;
  es_restore : string -> list EventRecord -> M W Z
}.
Arguments mkEventStore {W} _ _ _.
Arguments es_explorer {W} _.
Arguments es_catalog {W} _.
Arguments es_restore {W} _.

(** What [run] passes to [explorerapi.New], the event store apart. *)
Record explorer_settings := mkExplorerSettings {
  xs_PayloadStores : gmap string payload_store;
  xs_MaxPayloadBytes : Z;
  xs_AllowedOrigins : list string;
  xs_ArchiveStore : option payload_store;
  xs_EnableRestore : bool
}.

(** The answers of the services to the explorer command. *)
Record XEnv (W : Type) := mkXEnv {
  xv_getenv : string -> string;
  xv_wd : result string;
  xv_transport : option error;
  xv_minio : string -> minio_Options -> option error;
  xv_open : list gcall -> store_config -> option error;
  xv_migrate : list gcall -> option error;
  (* the event store while a request is served, by what the command has done, closing
     the store included, and by what was served before *)
  xv_store : list gcall -> list (Api (services W) * bool) -> event_store (services W);
  (* the requests whose handlers return before [ListenAndServe] does *)
  xv_requests : list Request;
  (* those whose handlers are running when it returns, and whether the process lives
     until their response is sent *)
  xv_late : list (Request * bool);
  (* [ListenAndServe], which returns only with an error; [None] is still serving *)
  xv_listen : list gcall -> string -> option error
}.
Arguments mkXEnv {W} _ _ _ _ _ _ _ _ _ _.
Arguments xv_getenv {W} _.
Arguments xv_wd {W} _.
Arguments xv_transport {W} _.
Arguments xv_minio {W} _.
Arguments xv_open {W} _.
Arguments xv_migrate {W} _.
Arguments xv_store {W} _.
Arguments xv_requests {W} _.
Arguments xv_late {W} _.
Arguments xv_listen {W} _.

Definition ErrServerClosed : error := sentinel "http: Server closed".

Section Explorer.
Context (sha256 : bytes -> array 32) (gzip : bytes -> bytes) (gunzip : bytes -> result bytes).
Context (ctx : nat -> option error) (chunks : bytes -> list bytes) (dir : list string) (suffix : fsw -> string).
Context {W : Type} `{!S3Client W} (e : XEnv W).
Abbreviation getenv := (xv_getenv e).
Abbreviation world := (services W).

(** An opened store behind [payload.Store]. *)
Definition attached (st : payload_store) : PayloadStore world :=
  match st with
  | FilePayloads s =>
      let store := file_payload_store sha256 gzip ctx chunks suffix s in
      mkPayloadStore _ (fun data opts => on_files (ps_Put store data opts)) (fun ref => on_files (ps_Open store ref))
        (fun ref => on_files (ps_Delete store ref))
  | S3Payloads endpoint s =>
      let store := s3_payload_store sha256 gzip ctx chunks dir (fun w => suffix w.1) s in
      mkPayloadStore _ (fun data opts => at_endpoint endpoint (ps_Put store data opts))
        (fun ref => at_endpoint endpoint (ps_Open store ref)) (fun ref => at_endpoint endpoint (ps_Delete store ref))
  end.

(** The payload stores of [run].  Unlike trail-retention, the command does not read
    TRAIL_PAYLOAD_S3_PREFIX. *)
Definition explorer_payloads : M world (gmap string payload_store) :=
  let root := getenv "TRAIL_PAYLOAD_FILESYSTEM_ROOT" in
  out ← (if str_eqb root "" then mret ∅
         else s ← on_files (filesystem_New (xv_wd e) root); mret (<["filesystem" := s]> (∅ : gmap string payload_store)));
  let endpoint := getenv "TRAIL_PAYLOAD_S3_ENDPOINT" in
  if str_eqb endpoint "" then mret out
  else
    s3 ← lift (Open_S3Store (xv_transport e) (xv_minio e) (payload_s3 getenv endpoint ""));
    _ ← (if envBool getenv "TRAIL_PAYLOAD_S3_ENSURE_BUCKET" false then at_endpoint endpoint (on_service (EnsureBucket s3))
         else mret tt);
    mret (<["s3" := S3Payloads endpoint s3]> out).

Definition explorer_setup : M world explorer_settings :=
  payloads ← explorer_payloads;
  archiveStore ← (if str_eqb (getenv "TRAIL_ARCHIVE_STORE") "" then mret None
                  else s ← on_files (explorer_openArchiveStore getenv (xv_wd e) (xv_transport e) (xv_minio e)); mret (Some s));
  mret (mkExplorerSettings payloads (envInt getenv "TRAIL_EXPLORER_MAX_PAYLOAD_BYTES" (2 ^ 20))
          (split (getenv "TRAIL_EXPLORER_ALLOWED_ORIGINS")) archiveStore
          (envBool getenv "TRAIL_EXPLORER_ENABLE_ARCHIVE_RESTORE" false)).

(** [explorerapi.New] on the event store, which is store, catalogue and target of
    restored events. *)
Definition explorer_server (settings : explorer_settings) (store : event_store world)
    : result (ApiConfig world * (Request -> M (Api world) unit)) :=
  New sha256 gunzip unmarshal_record unmarshal_manifest ctx
    (mkApiConfig (Some (es_explorer store)) (attached <$> xs_PayloadStores settings) (xs_MaxPayloadBytes settings)
       (xs_AllowedOrigins settings) (Some (es_catalog store)) (attached <$> xs_ArchiveStore settings) (Some (es_restore store))
       (xs_EnableRestore settings)).

(** A reply is what the handler wrote, and whether it reaches the client. *)
Abbreviation reply := (Api world * bool)%type.
Abbreviation R := (M (list gcall * (world * list reply))).

Definition on_stores {A} (m : M world A) : R A := fun w =>
  let '(v, r) := m w.2.1 in ((w.1, (v, w.2.2)), r).

(** The requests in the order they are handled, after the calls [h]; [v.2] are the
    replies before. *)
Fixpoint serve (settings : explorer_settings) (requests : list (Request * bool)) (h : list gcall) (v : world * list reply)
    : world * list reply :=
  match requests with
  | [] => v
  | (r, sent) :: requests =>
      match explorer_server settings (xv_store e h v.2) with
      | Ok server =>
          let reply := (ServeHTTP server v.1 r).1 in serve settings requests h (ap_world reply, v.2 ++ [(reply, sent)])
      | _ => v
      end
  end.

Definition handle (settings : explorer_settings) (requests : list (Request * bool)) : R unit := fun w =>
  ((w.1, serve settings requests w.1 w.2), Ok tt).

(** [openStore], the same as that of trail-ingestor but for its error: ClickHouse or
    PostgreSQL, closed again when it cannot be migrated. *)
Definition explorer_openStore : R unit := openStore "unknown TRAIL_STORE" getenv (xv_open e) (xv_migrate e).

(** [run], from the payload stores to its return: [None] while it listens, then the
    error it returns and the settings its handlers go on with. *)
Definition explorer_body : R (option (explorer_settings * option error)) :=
  settings ← on_stores explorer_setup;
  h ← (fun w => (w, Ok w.1));
  _ ← lift (explorer_server settings (xv_store e h []));
  let addr := env getenv "TRAIL_EXPLORER_ADDR" ":8080" in
  outcome ← gask (fun h => xv_listen e h addr) (GListen addr);
  _ ← handle settings ((fun r => (r, true)) <$> xv_requests e);
  mret (match outcome with
        | None => None
        | Some err => Some (settings, if errors_Is err ErrServerClosed then None else Some err)
        end).

(** The handlers that are still running when [run] returns. *)
Definition explorer_rest (returned : explorer_settings * option error) : R (option unit) :=
  _ ← handle returned.1 (xv_late e);
  match returned.2 with Some err => fail err | None => mret (Some tt) end.

Definition explorer_run : R (option unit) :=
  _ ← explorer_openStore;
  returned ← deferring GClose explorer_body;
  match returned with Some returned => explorer_rest returned | None => mret None end.
End Explorer.

(** ** Reading leaves the content alone *)

(** The same files and the same objects. *)
Definition same_files (w w' : fsw) : Prop :=
  forall p data, fs_nodes w' !! p = Some (File data) <-> fs_nodes w !! p = Some (File data).
Definition same_content {W} `{!S3Client W} (w w' : services W) : Prop :=
  same_files w.1 w'.1 /\ forall endpoint, stored (w'.2 endpoint) = stored (w.2 endpoint).

Lemma same_files_nodes w v v' : fs_nodes v' = fs_nodes v -> same_files w v -> same_files w v'.
Proof. intros E H p data. by rewrite E. Qed.

Lemma syscall_nodes v : fs_nodes (syscall v).1 = fs_nodes v.
Proof. exact (proj1 (syscall_spec (fun v' => fs_nodes v' = fs_nodes v) (fun _ _ H => H) v eq_refl)). Qed.

Lemma bind_kept {V A B} (I : V -> Prop) (m : M V A) (k : A -> M V B) v : I (m v).1 -> (forall a, steady I (k a)) -> I ((m ≫= k) v).1.
Proof. intros Hm Hk. unfold mbind, M_bind. destruct (m v) as [v1 [a|err|msg]]; [by apply Hk|done|done]. Qed.

Lemma node_at_bind {A} p (k : option node -> M fsw A) v : (node_at p ≫= k) v = k (fs_nodes v !! p) v.
Proof. reflexivity. Qed.

(** A directory is only made where nothing is. *)
Lemma mkdir_same w p v : same_files w v ->
  same_files w ((match fs_nodes v !! p with
                 | Some Dir => mret tt
                 | Some (File _) => fail ENOTDIR
                 | None => _ ← syscall; set_node p Dir
                 end : M fsw unit) v).1.
Proof.
  intros Hv. destruct (fs_nodes v !! p) as [[]|] eqn:E; [done|done|]. pose proof (syscall_nodes v) as Hs.
  unfold mbind, M_bind. destruct (syscall v) as [v1 [u|err|msg]]; cbn [fst] in *.
  - unfold set_node. cbn [fst]. intros q data. rewrite <- (Hv q data), <- Hs. cbn. rewrite lookup_insert.
    case_decide as Hq; [|done]. subst q. by rewrite Hs, E.
  - by eapply same_files_nodes.
  - by eapply same_files_nodes.
Qed.

Lemma mkdir_all_same w done todo : steady (same_files w) (mkdir_all done todo).
Proof.
  revert done. induction todo as [|c todo IH]; intros done v Hv; cbn [mkdir_all]; rewrite node_at_bind;
    (apply bind_kept; [by apply mkdir_same|]).
  - intros _. apply steady_ret.
  - intros _. apply IH.
Qed.

Section Content.
Context {W : Type} `{!S3Client W} (w0 : services W).
#[local] Abbreviation kept := (steady (same_content w0)).

Lemma on_files_same {A} (m : M fsw A) : (forall w, steady (same_files w) m) -> kept (on_files m).
Proof.
  intros Hm w [Hf Hs]. unfold on_files. specialize (Hm _ _ Hf). destruct (m w.1) as [f r]. by split.
Qed.

Lemma at_endpoint_same {A} endpoint (m : M W A) : (forall v, stored (m v).1 = stored v) -> kept (at_endpoint endpoint (on_service m)).
Proof.
  intros Hm w [Hf Hs]. unfold at_endpoint, on_service. cbn [fst snd]. specialize (Hm (w.2 endpoint)).
  destruct (m (w.2 endpoint)) as [v r]. cbn [fst snd] in *. split; [done|]. intros e'. cbn [snd fst]. unfold str_eqb.
  case_bool_decide; [subst e'; rewrite Hm|]; apply Hs.
Qed.

Lemma filesystem_New_same w wd root : steady (same_files w) (filesystem_New wd root).
Proof. unfold filesystem_New, New_FileStore. steady_auto. apply mkdir_all_same. Qed.

Lemma EnsureBucket_same s v : stored (EnsureBucket s v).1 = stored v.
Proof.
  unfold EnsureBucket, mbind, M_bind. pose proof (BucketExists_law (s3_bucket s) v) as Hb.
  destruct (BucketExists _ v) as [v1 [[]|err|msg]]; cbn [fst]; try apply Hb. destruct Hb as [<- _].
  pose proof (MakeBucket_law (s3_bucket s) v1) as Hm. destruct (MakeBucket _ v1) as [v2 r]. apply Hm.
Qed.

(** Opening any store's objects changes none. *)
Lemma attached_Open_same sha256 gzip ctx chunks dir suffix st ref :
  kept (ps_Open (attached sha256 gzip ctx chunks dir suffix st) ref).
Proof.
  destruct st as [s|endpoint s]; cbn [attached ps_Open].
  - apply on_files_same. intros w v Hv. eapply same_files_nodes; [apply Open_world|done].
  - apply (at_endpoint_same endpoint (s3_Open s ref)). intros v. pose proof (s3_Open_spec s ref v) as H.
    destruct (s3_Open s ref v). apply H.
Qed.

Lemma explorer_setup_same (e : XEnv W) : kept (explorer_setup e).
Proof.
  unfold explorer_setup, explorer_payloads. cbv zeta.
  assert (forall root, kept (on_files (filesystem_New (xv_wd e) root))) as Hnew.
  { intros root. apply on_files_same. intros w. apply filesystem_New_same. }
  assert (kept (on_files (explorer_openArchiveStore (xv_getenv e) (xv_wd e) (xv_transport e) (xv_minio e)))) as Harchive.
  { apply on_files_same. intros w. unfold explorer_openArchiveStore, trails3_Open. cbv zeta. steady_auto. apply filesystem_New_same. }
  assert (forall endpoint s, kept (at_endpoint endpoint (on_service (EnsureBucket s)))) as Hensure.
  { intros endpoint s. apply at_endpoint_same. intros v. apply EnsureBucket_same. }
  steady_auto.
Qed.
End Content.

(** ** Serving *)

(** A complete response: one status, and one body unless it answers a preflight. *)
Definition complete_reply {V} (s : Api V) : Prop :=
  exists status headers, rw_sent (ap_w s) = Some (status, headers) /\
    ((status = 204 /\ rw_body (ap_w s) = []) \/ exists c, rw_body (ap_w s) = [c]).

Section Serving.
Context (sha256 : bytes -> array 32) (gzip : bytes -> bytes) (gunzip : bytes -> result bytes).
Context (ctx : nat -> option error) (chunks : bytes -> list bytes) (dir : list string) (suffix : fsw -> string).
Context {W : Type} `{!S3Client W} (e : XEnv W).
#[local] Abbreviation serve := (serve sha256 gzip gunzip ctx chunks dir suffix e).
#[local] Abbreviation explorer_server := (explorer_server sha256 gzip gunzip ctx chunks dir suffix).
#[local] Abbreviation explorer_run := (explorer_run sha256 gzip gunzip ctx chunks dir suffix e).

(** The API is always given a store, so [New] succeeds. *)
Lemma explorer_server_Ok settings store : exists server, explorer_server settings store = Ok server.
Proof. by eexists. Qed.

(** What the client gets of a reply that reaches it is complete. *)
Definition answered_fully (a : Api (services W) * bool) : Prop := a.2 = true -> complete_reply a.1.

Lemma serve_replies settings requests h (v : services W * list (Api (services W) * bool)) :
  Forall answered_fully v.2 ->
  Forall answered_fully (serve settings requests h v).2 /\ (serve settings requests h v).2.*2 = v.2.*2 ++ requests.*2.
Proof.
  revert v. induction requests as [|[r sent] requests IH]; intros v Hv; cbn [CmdExplorer.serve]; [split; [done|by rewrite app_nil_r]|].
  destruct (explorer_server_Ok settings (xv_store e h v.2)) as [server Hs]. rewrite Hs.
  destruct (serve_spec _ _ _ _ _ _ server v.1 r Hs) as (s & store & HS & _ & _ & Hp). rewrite HS. cbn [fst].
  edestruct (IH (ap_world s, v.2 ++ [(s, sent)])) as [H1 H2].
  - cbn [snd]. apply Forall_app_2; [done|]. constructor; [|constructor]. intros _. destruct Hp as (_ & status & headers & Hsent & _ & Hb).
    exists status, headers. split; [done|]. destruct Hb as [(c & Hb & _)|Hb]; [right; by exists c|by left].
  - split; [exact H1|]. rewrite H2. cbn [snd]. by rewrite fmap_app, <- app_assoc.
Qed.

Lemma serve_same w0 settings requests h v : xs_EnableRestore settings = false ->
  same_content w0 v.1 -> same_content w0 (serve settings requests h v).1.
Proof.
  intros Hr. revert v. induction requests as [|[r sent] requests IH]; intros v Hv; [done|]. cbn [CmdExplorer.serve].
  destruct (explorer_server_Ok settings (xv_store e h v.2)) as [server Hs]. rewrite Hs. apply IH. cbn [fst].
  eapply serve_steady; [|exact Hs|done]. split_and!; cbn.
  - intros name source ref H. apply lookup_fmap_Some in H as (st & <- & _). apply attached_Open_same.
  - intros archiveStore ref H. destruct (xs_ArchiveStore settings) as [st|]; [|done]. injection H as <-. apply attached_Open_same.
  - by rewrite Hr.
Qed.

(** The settings enable restoring only when the environment does. *)
Lemma explorer_setup_restore w w' settings : explorer_setup e w = (w', Ok settings) ->
  xs_EnableRestore settings = envBool (xv_getenv e) "TRAIL_EXPLORER_ENABLE_ARCHIVE_RESTORE" false.
Proof.
  intros H. unfold explorer_setup in H. apply M_bind_Ok in H as (w1 & payloads & _ & H).
  apply M_bind_Ok in H as (w2 & archiveStore & _ & H). by injection H as _ <-.
Qed.

#[local] Abbreviation state := (list gcall * (services W * list (Api (services W) * bool)))%type.
#[local] Abbreviation explorer_body := (explorer_body sha256 gzip gunzip ctx chunks dir suffix e).

(** Opening the event store does nothing to the payload stores. *)
Lemma openStore_world unknown getenv open_ migrate (v : state) : (openStore unknown getenv open_ migrate v).1.2 = v.2.
Proof.
  unfold openStore, gcheck, gask, lift, mbind, M_bind, fail, mret, M_ret. destruct v as [h v]. cbn [fst snd].
  destruct (store_choice _ _ _) as [cfg|err|m]; [|done|done]. destruct (open_ h cfg) as [err|]; [done|].
  by destruct (migrate _).
Qed.

#[local] Abbreviation restoring := (envBool (xv_getenv e) "TRAIL_EXPLORER_ENABLE_ARCHIVE_RESTORE" false).

(** What the body leaves of the payload stores and of the replies. *)
Lemma explorer_body_serves (v : state) : v.2.2 = [] ->
  let '((_, (w', replies)), r) := explorer_body v in
  Forall answered_fully replies /\ ((exists a, r = Ok a) -> replies.*2 = replicate (length (xv_requests e)) true) /\
  (restoring = false -> same_content v.2.1 w') /\
  match r with Ok (Some returned) => xs_EnableRestore returned.1 = restoring | _ => True end.
Proof.
  destruct v as [h [w replies]]. cbn [fst snd]. intros ->. unfold CmdExplorer.explorer_body, on_stores, handle.
  unfold mbind, M_bind. cbn [fst snd].
  pose proof (explorer_setup_same w e w ltac:(by split)) as Hsame. pose proof (explorer_setup_restore w) as Hrestore.
  destruct (explorer_setup e w) as [w1 [settings|err|msg]]; cbn [fst snd] in *;
    [|split_and!; [constructor|by intros [a Ha]|done|done]..].
  specialize (Hrestore w1 settings eq_refl). destruct (explorer_server_Ok settings (xv_store e h [])) as [server Hs].
  unfold lift, gask. rewrite Hs. cbn [fst snd]. set (requests := (fun r => (r, true)) <$> xv_requests e). set (h1 := h ++ _).
  destruct (serve_replies settings requests h1 (w1, []) ltac:(constructor)) as [Hc Hl].
  pose proof (serve_same w settings requests h1 (w1, [])) as Hw. cbn [fst snd app fmap list_fmap] in *.
  destruct (serve settings requests h1 (w1, [])) as [w2 replies]. cbn [fst snd mret M_ret] in *.
  rewrite Hrestore in Hw. unfold requests in Hl. change (map snd ?l) with (l.*2) in Hl. rewrite <- list_fmap_compose in Hl.
  assert (replies.*2 = replicate (length (xv_requests e)) true) as Hsent.
  { rewrite Hl. clear. by induction (xv_requests e) as [|r l IH]; cbn; [|rewrite IH]. }
  unfold mret, M_ret. destruct (xv_listen e h _) as [err|]; cbn; split_and!; auto.
Qed.

Lemma on_stores_silent {A} (m : M (services W) A) : silent (on_stores m).
Proof.
  intros w. unfold on_stores. destruct (m w.2.1) as [v r]. exists [], (v, w.2.2), r. by rewrite app_nil_r.
Qed.

Lemma explorer_rest_silent returned : silent (explorer_rest sha256 gzip gunzip ctx chunks dir suffix e returned).
Proof.
  intros w. unfold explorer_rest, handle, mbind, M_bind, fail, mret, M_ret. destruct (returned.2) as [err|];
    eexists [], _, _; rewrite app_nil_r; by split.
Qed.

(** When [run] returns, the event store it opened is closed. *)
Lemma explorer_releases (v : services W * list (Api (services W) * bool)) :
  let '((h, _), r) := explorer_run ([], v) in r <> Ok None -> all_released h.
Proof.
  assert (lawful (fun _ => False) (0, 0, 0) explorer_run) as Hl.
  { apply (lawful_acquire _ _ GClose); [apply openStore_acquires|]. apply lawful_then; [|apply explorer_rest_silent].
    apply lawful_deferring; [done|]. apply lawful_bind; [apply on_stores_silent|]. intros settings.
    apply lawful_bind; [intros u; exists [], u.2, (Ok u.1); rewrite app_nil_r; by destruct u|]. intros h0.
    apply lawful_bind; [apply silent_lift|]. intros _.
    apply lawful_bind; [intros u; by eexists [_], u.2, _|]. intros outcome.
    apply lawful_bind; [intros u; eexists [], _, _; rewrite app_nil_r; by split|]. intros _ u _.
    eexists [], u.2, _. rewrite app_nil_r. split; [by destruct u|]. by split; [left|]. }
  destruct (Hl ([], v) eq_refl) as (n & u & r & -> & _ & Hb). exact Hb.
Qed.

(** C16.  The explorer command.  Whatever the services answer and whichever calls fail:
    the event store is closed when [run] returns; a request whose handler returns
    before [ListenAndServe] does gets one complete response, in whatever state earlier
    requests and their stores left; one whose handler is still running then goes on
    with an event store that [run] closes under it, and gets a complete response - of
    whatever that store still answers - or, when the process ends before, none; and
    unless the environment enables restoring, the whole run, opening the stores and
    the late handlers included, changes no file and no object of any S3 service. *)
Theorem explorer_command (w : services W) :
  let '((h, (w', replies)), r) := explorer_run ([], (w, [])) in
  (r <> Ok None -> all_released h) /\
  Forall answered_fully replies /\
  ((exists a, r = Ok a) -> replies.*2 = replicate (length (xv_requests e)) true ++
     match r with Ok None => [] | _ => (xv_late e).*2 end) /\
  (restoring = false -> same_content w w').
Proof.
  pose proof (explorer_releases (w, [])) as Hr. unfold CmdExplorer.explorer_run, explorer_openStore in *.
  pose proof (openStore_world "unknown TRAIL_STORE" (xv_getenv e) (xv_open e) (xv_migrate e) ([], (w, []))) as Ho.
  unfold mbind, M_bind in *. destruct (openStore _ _ _ _ _) as [[h v] [[]|err|msg]]; cbn [fst snd] in Ho; subst v;
    [|split_and!; [exact Hr|constructor|by intros [a Ha]|by split]..].
  unfold deferring in *. pose proof (explorer_body_serves (h, (w, [])) eq_refl) as Hb.
  destruct (explorer_body (h, (w, []))) as [[h' [w' replies]] [[[settings result]|]|err|msg]]; cbn [fst snd] in *;
    destruct Hb as (H1 & H2 & H3 & H4).
  2: { split_and!; [exact Hr|done|intros _; rewrite app_nil_r; apply H2; eauto|done]. }
  2,3: split_and!; [exact Hr|done|by intros [a Ha]|done].
  unfold explorer_rest, handle, mbind, M_bind in *. cbn [fst snd] in *.
  destruct (serve_replies settings (xv_late e) (h' ++ [GClose]) (w', replies) H1) as [Hc Hl].
  pose proof (serve_same w settings (xv_late e) (h' ++ [GClose]) (w', replies)) as Hw. cbn [fst snd] in *.
  destruct (serve settings (xv_late e) _ (w', replies)) as [w2 replies']. cbn [fst snd] in *.
  assert (replies'.*2 = replicate (length (xv_requests e)) true ++ (xv_late e).*2) as Hsent by (rewrite Hl, H2; eauto).
  destruct result as [err|]; cbn [fail mret M_ret] in *; unfold fail, mret, M_ret in *; (split; [exact Hr|]); split_and!;
    [done|by intros [a Ha]|intros Hx; apply Hw; [by rewrite H4|auto]|done|by intros _|intros Hx; apply Hw; [by rewrite H4|auto]].
Qed.
End Serving.

(** ** Runs *)

Definition demo_event_store : event_store (services mem_service) :=
  mkEventStore demo_store (mkCatalog (fun _ _ _ => None) (fun _ _ => None)) (fun _ _ => mret 0).

(** The event store once it is closed: every call fails. *)
Definition closed_error : error := errors_New "closed pool".
Definition closed_store : ExplorerStore :=
  mkExplorerStore (fun _ _ => None) None (fun _ _ _ => None)
    (fun _ _ => Some (demo_flow, Some closed_error))
    (fun _ _ _ _ => None) (fun _ _ _ => None) (fun _ _ => None) (fun _ _ _ _ => None) (fun _ _ => None)
    (fun _ _ _ => None) (fun _ _ => None) (fun _ _ _ _ => None) (fun _ _ _ => None) (fun _ _ => None).

(** Two requests, then a shutdown while a third, for the flow of the first, is in its
    handler. *)
Definition demo_xenv : XEnv mem_service :=
  mkXEnv demo_settings (Ok "/srv") None (fun _ _ => None) (fun _ _ => None) (fun _ => None)
    (fun h _ => if existsb (fun c => match c with GClose => true | _ => false end) h
                then mkEventStore closed_store (es_catalog demo_event_store) (es_restore demo_event_store) else demo_event_store)
    [demo_request "t1" (encodeID (zero_array 16)); demo_request "t1" "not-an-id"]
    [(demo_request "t1" (encodeID (zero_array 16)), true)] (fun _ _ => Some ErrServerClosed).
Definition demo_services : services mem_service := (demo_files, fun _ => mkMemService ∅ []).
Definition demo_explorer :=
  explorer_run (fun _ => zero_array 32) id Ok (fun _ => None) (fun data => [data]) ["tmp"] (fun _ => "1") demo_xenv.

Lemma explorer_command_witness :
  let '((h, (w', replies)), r) := demo_explorer ([], (demo_services, [])) in
  replies.*2 = [true; true; true] /\ Forall answered_fully replies /\ same_content demo_services w'.
Proof.
  pose proof (explorer_command (fun _ => zero_array 32) id Ok (fun _ => None) (fun data => [data]) ["tmp"] (fun _ => "1")
    demo_xenv demo_services) as H.
  fold demo_explorer in H.
  assert ((demo_explorer ([], (demo_services, []))).2 = Ok (Some tt)) as Hok by (vm_compute; reflexivity).
  destruct (demo_explorer ([], (demo_services, []))) as [[h [w' replies]] r]. cbn [snd] in Hok. subst r.
  destruct H as (_ & H1 & H2 & H3). split_and!; [apply H2; eauto|exact H1|]. apply H3. reflexivity.
Defined.

(** The third request finds the store closed, although the command ends without error. *)
Example late_request_loses_store :
  (fun a => rw_body (ap_w a.1)) <$> (demo_explorer ([], (demo_services, []))).1.2.2 =
    [[BJson (VFlow demo_flow)]; [BJson (VError "invalid_request" (err_text ErrInvalidID))];
     [BJson (VError "internal_error" "request failed")]].
Proof. vm_compute. reflexivity. Qed.

(** With one prefix for both commands, trail-retention keeps payloads under it and
    trail-explorer-api writes restored ones outside it. *)
Example explorer_ignores_prefix :
  (fun m => m !! "s3") <$> (openPayloads demo_settings (Ok "/srv") None (fun _ _ => None) demo_files).2 =
    Ok (Some (S3Payloads "minio:9000" (mkS3Store "trail" "payloads/" "s3"))) /\
  (fun m => m !! "s3") <$> (explorer_payloads demo_xenv demo_services).2 =
    Ok (Some (S3Payloads "minio:9000" (mkS3Store "trail" "" "s3"))).
Proof. split; vm_compute; reflexivity. Qed.
