(* ===== verification/CmdGenerator.v ===== *)
(** * The command trail-generator (src/cmd/trail-generator/main.go)

    The command turns its flags into the generator's configuration, opens its output,
    runs [Generate] under whatever schedule its workers have, closes the output and
    reports the manifest. *)

From S2P Require Import Prelude Ids Events GoLib GoText GoTime Trace Wire Payload FileStore FileStoreProofs GoFlag S3Store S3StoreProofs GoRand Generator GeneratorSystem GeneratorStories GeneratorProofs GeneratorExamples CmdStores.

Definition generator_flags : FlagSet :=
  [("events", FUint64 100000); ("seed", FUint64 42); ("batch-size", FInt 64); ("publish-concurrency", FInt 16);
   ("start", FString "2026-01-01T00:00:00Z"); ("output", FString "nats"); ("nats-url", FString "nats://127.0.0.1:4222");
   ("subject", FString "trail.events.v1"); ("payload-every", FUint64 0); ("payload-s3-endpoint", FString "");
   ("payload-s3-bucket", FString "trail-payloads"); ("payload-s3-access-key", FString ""); ("payload-s3-secret-key", FString "")].

Inductive generator_output := OutputNDJSON | OutputNats.

(** What [Generate] returned, with the envelopes it published. *)
Abbreviation generated := (option (result generator_Manifest * list Envelope)).

Inductive mcall :=
| MConnect (url subject : string) (err : option error)
| MGenerate (cfg : generator_Config) (outcome : generated)
| MCloseOutput (err : option error)
| MManifest (manifest : generator_Manifest) (err : option error).

(** The answers of the services; [mv_schedule] is the order in which the caller of
    [Generate], its workers, the publisher and the payload store act. *)
Record MEnv := mkMEnv {
  mv_transport : option error;
  mv_minio : string -> minio_Options -> option error;
  mv_connect : list mcall -> option error;
  mv_schedule : list mcall -> generator_Config -> list gaction;
  mv_close : list mcall -> option error;
  mv_stderr : list mcall -> option error
}.

Section GeneratorCommand.
Context (sha256 : bytes -> array 32) (e : MEnv) {W : Type} `{!S3Client W}.
Abbreviation G := (M (list mcall * W)).

Definition time_error : error := errors_New "parsing time".

(** The configuration the flags give. *)
Definition generator_config (fs : FlagSet) : result generator_Config :=
  match parse_RFC3339Nano (string_bytes (flag_string fs "start")) with
  | None => Fail time_error
  | Some start => Ok (mkGeneratorConfig (flag_number fs "events") (flag_number fs "seed") start (flag_number fs "batch-size")
      (flag_number fs "publish-concurrency") false (flag_number fs "payload-every"))
  end.

(** The payload store, when an endpoint is given. *)
Definition generator_payloads (fs : FlagSet) (cfg : generator_Config) : M W (generator_Config * option S3Store) :=
  let endpoint := flag_string fs "payload-s3-endpoint" in
  if str_eqb endpoint "" then mret (cfg, None)
  else
    store ← lift (Open_S3Store (mv_transport e) (mv_minio e)
      (mkS3Config endpoint (flag_string fs "payload-s3-access-key") (flag_string fs "payload-s3-secret-key") ""
         (flag_string fs "payload-s3-bucket") "" "" "s3" false true false));
    _ ← EnsureBucket store;
    let cfg := cfg <| gc_PayloadStore := true |> in
    mret (if gc_PayloadEvery cfg =? 0 then cfg <| gc_PayloadEvery := 1000 |> else cfg, Some store).

Definition output_mode (fs : FlagSet) : result generator_output :=
  let output := flag_string fs "output" in
  if str_eqb output "ndjson" then Ok OutputNDJSON
  else if str_eqb output "nats" then Ok OutputNats
  else Fail (errors_New ("unknown output " +:+ String "034"%char (output +:+ String "034"%char EmptyString))).

Definition mask {A} (f : list mcall -> A) (log : A -> mcall) : G A := fun w =>
  let a := f w.1 in ((w.1 ++ [log a], w.2), Ok a).

(** [Generate] under a schedule; [None] when it has not returned by its end. *)
Definition Generate (cfg : generator_Config) (actions : list gaction) : generated :=
  match Generate_start true (generator_rng (gc_Seed cfg)) cfg with
  | Ok (cfg', cap, s0) =>
      s ← grun sha256 cfg' cap actions s0;
      match g_pc s with
      | GDone None => Some (Ok (g_manifest s), g_published s)
      | GDone (Some err) => Some (Fail err, g_published s)
      | GPanic msg => Some (Panic msg, g_published s)
      | _ => None
      end
  | Fail err => Some (Fail err, [])
  | Panic msg => Some (Panic msg, [])
  end.

Definition open_output (fs : FlagSet) (mode : generator_output) : G unit :=
  match mode with
  | OutputNDJSON => mret tt
  | OutputNats =>
      err ← mask (mv_connect e) (MConnect (flag_string fs "nats-url") (flag_string fs "subject"));
      match err with Some err => fail err | None => mret tt end
  end.

Definition close_output (mode : generator_output) : G (option error) :=
  match mode with
  | OutputNDJSON => mret None
  | OutputNats => mask (mv_close e) MCloseOutput
  end.

(** [main] after its flags: an error is fatal.  The output is closed before the
    error of [Generate] is looked at.  [None] is still generating. *)
Definition generator_main (fs : FlagSet) : G (option unit) :=
  cfg ← lift (generator_config fs);
  '(cfg, _) ← (fun w => let '(v, r) := generator_payloads fs cfg w.2 in ((w.1, v), r));
  mode ← lift (output_mode fs);
  _ ← open_output fs mode;
  outcome ← mask (fun h => Generate cfg (mv_schedule e h cfg)) (MGenerate cfg);
  match outcome with
  | None => mret None
  | Some (outcome, _) =>
      closeErr ← close_output mode;
      manifest ← lift outcome;
      match closeErr with
      | Some err => fail err
      | None =>
          err ← mask (mv_stderr e) (MManifest manifest);
          match err with Some err => fail err | None => mret (Some tt) end
      end
  end.

(** [main] on its command line. *)
Definition generator_command_line (args : list string) : G (option unit) :=
  fs ← lift (flag_Parse generator_flags args);
  generator_main fs.

End GeneratorCommand.

(** ** What a successful run has done *)

Section GeneratorCommandProofs.
Context (sha256 : bytes -> array 32) (e : MEnv) {W : Type} `{!S3Client W}.

(** The configuration the command line asks for, field by field: payloads are stored
    when a payload endpoint is given, then by default with every thousandth story. *)
Definition requested (fs : FlagSet) (start : Z) : generator_Config :=
  let stored := negb (str_eqb (flag_string fs "payload-s3-endpoint") "") in
  let every := flag_number fs "payload-every" in
  {| gc_Events := flag_number fs "events"; gc_Seed := flag_number fs "seed"; gc_Start := start;
     gc_BatchSize := flag_number fs "batch-size"; gc_PublishConcurrency := flag_number fs "publish-concurrency";
     gc_PayloadStore := stored; gc_PayloadEvery := if stored && (every =? 0) then 1000 else every |}.

(** Reading the flags and opening the payload store give that configuration. *)
Lemma generator_requested fs cfg (w w' : W) cfg' store :
  generator_config fs = Ok cfg -> generator_payloads e fs cfg w = (w', Ok (cfg', store)) ->
  exists start, parse_RFC3339Nano (string_bytes (flag_string fs "start")) = Some start /\ cfg' = requested fs start.
Proof.
  unfold generator_config, generator_payloads, requested. destruct (parse_RFC3339Nano _) as [start|]; [|done].
  intros <-%Ok_inj H. exists start. split; [done|]. revert H.
  destruct (str_eqb (flag_string fs "payload-s3-endpoint") ""); cbn [negb andb].
  - intros H. mret_inv H. done.
  - intros H. apply M_bind_Ok in H as (w1 & s & _ & H).
    apply M_bind_Ok in H as (w2 & u & _ & H). cbn [gc_PayloadEvery] in H.
    mret_inv H. by destruct (flag_number fs "payload-every" =? 0).
Qed.

Lemma mask_Ok {A} (f : list mcall -> A) log (w w' : list mcall * W) a :
  mask f log w = (w', Ok a) -> a = f w.1 /\ w'.1 = w.1 ++ [log a].
Proof. unfold mask. intros H. injection H as <- <-. done. Qed.

(** The integer flags fit their width, given or not. *)
Lemma generator_flags_width args fs : flag_Parse generator_flags args = Ok fs ->
  in_u 64 (flag_number fs "events") /\ in_s 64 (flag_number fs "publish-concurrency").
Proof.
  intros H. apply flag_Parse_like in H. unfold flag_number.
  destruct (H "events" _ eq_refl) as (v1 & -> & H1), (H "publish-concurrency" _ eq_refl) as (v2 & -> & H2).
  split; [destruct H1 as [-> |H1]|destruct H2 as [-> |H2]]; first [done|split; done|idtac].
  - destruct v1; try done; exact H1.
  - destruct v2; try done; exact H2.
Qed.

(** Both ends of the output are in the history, around the rest. *)
Definition output_calls (fs : FlagSet) (mode : generator_output) (rest : mcall) : list mcall :=
  match mode with
  | OutputNDJSON => [rest]
  | OutputNats => [MConnect (flag_string fs "nats-url") (flag_string fs "subject") None; rest; MCloseOutput None]
  end.

Lemma Generate_Ok cfg actions manifest published :
  Generate sha256 cfg actions = Some (Ok manifest, published) ->
  in_u 64 (gc_Events cfg) -> in_s 64 (gc_PublishConcurrency cfg) ->
  exists s, delivered sha256 (generator_rng (gc_Seed cfg)) cfg s /\ manifest = g_manifest s /\ published = g_published s.
Proof.
  intros H He Hc. unfold Generate in H.
  destruct (Generate_start true (generator_rng (gc_Seed cfg)) cfg) as [[[cfg' cap] s0]|err|msg] eqn:Hs; [|done|done].
  destruct (grun sha256 cfg' cap actions s0) as [s|] eqn:Hr; [|done]. cbn [mbind option_bind] in H.
  destruct (g_pc s) as [| | | | | |[err|]|msg] eqn:Hp; try done. injection H as <- <-.
  exists s. split; [by eapply generate_delivers|done].
Qed.

Lemma open_output_Ok fs mode (w w' : list mcall * W) : open_output e fs mode w = (w', Ok tt) ->
  w'.1 = w.1 ++ match mode with
                | OutputNDJSON => []
                | OutputNats => [MConnect (flag_string fs "nats-url") (flag_string fs "subject") None]
                end.
Proof.
  destruct mode; cbn [open_output]; intros H; [mret_inv H; by rewrite app_nil_r|].
  apply M_bind_Ok in H as (w1 & [err|] & H1 & H2); [done|]. mret_inv H2. by apply mask_Ok in H1 as [_ ->].
Qed.

Lemma close_output_Ok mode (w w' : list mcall * W) err : close_output e mode w = (w', Ok err) ->
  w'.1 = w.1 ++ match mode with OutputNDJSON => [] | OutputNats => [MCloseOutput err] end.
Proof.
  destruct mode; cbn [close_output]; intros H; [mret_inv H; by rewrite app_nil_r|]. by apply mask_Ok in H as [-> ->].
Qed.

(** C17.  The generator command delivers what it reports.  When [main] ends normally,
    whatever the schedule of [Generate], its history is exactly: the output is opened
    if it is NATS, the generator runs, the output is closed without error, and a
    manifest is reported.  The generator ran with the configuration [requested] by the
    command line, and the manifest is the one of a [Generate] that delivered
    completely for it: every event of the sequence that seed, start time and payload
    policy of that configuration determine, in order per service, in published
    batches of at most its batch size. *)
Theorem generator_command (args : list string) (w : W) h w' :
  generator_command_line sha256 e args ([], w) = ((h, w'), Ok (Some tt)) ->
  exists fs mode start s,
    flag_Parse generator_flags args = Ok fs /\ output_mode fs = Ok mode /\
    parse_RFC3339Nano (string_bytes (flag_string fs "start")) = Some start /\
    let cfg := requested fs start in
    delivered sha256 (generator_rng (gc_Seed cfg)) cfg s /\
    h = output_calls fs mode (MGenerate cfg (Some (Ok (g_manifest s), g_published s))) ++ [MManifest (g_manifest s) None].
Proof.
  intros H. unfold generator_command_line in H. apply M_bind_Ok in H as (w1 & fs & H1 & H).
  unfold lift in H1. injection H1 as <- Hfs. destruct (generator_flags_width _ _ Hfs) as [He Hc].
  unfold generator_main in H. apply M_bind_Ok in H as (w2 & cfg0 & H2 & H). unfold lift in H2. injection H2 as <- Hcfg.
  apply M_bind_Ok in H as (w3 & [cfg store] & H3 & H). cbn [fst snd] in H3.
  destruct (generator_payloads e fs cfg0 w) as [v r] eqn:Hpay. injection H3 as <- ->.
  destruct (generator_requested _ _ _ _ _ _ Hcfg Hpay) as (start & Hstart & ->).
  apply M_bind_Ok in H as (w4 & mode & H4 & H). unfold lift in H4. injection H4 as <- Hmode.
  apply M_bind_Ok in H as (w5 & [] & H5 & H). apply open_output_Ok in H5. cbn [fst app] in H5.
  apply M_bind_Ok in H as (w6 & outcome & H6 & H). apply mask_Ok in H6 as [Hout H6].
  destruct outcome as [[outcome published]|]; [|by mret_inv H].
  apply M_bind_Ok in H as (w7 & closeErr & H7 & H). apply close_output_Ok in H7.
  apply M_bind_Ok in H as (w8 & manifest & H8 & H). unfold lift in H8. injection H8 as <- ->.
  destruct closeErr as [err|]; [done|]. apply M_bind_Ok in H as (w9 & [err|] & H9 & H); [done|]. mret_inv H.
  apply mask_Ok in H9 as [_ H9]. symmetry in Hout.
  destruct (Generate_Ok _ _ _ _ Hout) as (s & Hd & -> & ->); [done|done|].
  exists fs, mode, start, s. split_and!; [done|done|done|]. split; [done|].
  cbn [fst] in *. rewrite H9, H7, H6, H5. by destruct mode.
Qed.
End GeneratorCommandProofs.

(** ** Runs *)

(** Twelve events, batches of five and two workers, written as JSON lines. *)
Definition demo_args : list string :=
  ["-events=12"; "-seed=7"; "-batch-size"; "5"; "--publish-concurrency"; "2"; "-output=ndjson"; "-start=0001-01-01T00:00:00Z"].
Definition demo_menv (actions : list gaction) : MEnv :=
  mkMEnv None (fun _ _ => None) (fun _ => None) (fun _ _ => actions) (fun _ => None) (fun _ => None).
Abbreviation demo_generator := (generator_command_line (W := mem_service) demo_sha256 (demo_menv demo_actions)).

Lemma generator_command_witness :
  let h := (demo_generator demo_args ([], mkMemService ∅ [])).1.1 in
  exists s : gstate PCG, gm_Events (g_manifest s) = 12 /\ MManifest (g_manifest s) None ∈ h.
Proof.
  destruct (demo_generator demo_args ([], mkMemService ∅ [])) as [[h w'] r] eqn:E. cbn [fst].
  assert (r = Ok (Some tt)) as ->.
  { change r with ((h, w'), r).2. rewrite <- E. vm_compute. reflexivity. }
  destruct (generator_command demo_sha256 (demo_menv demo_actions) demo_args (mkMemService ∅ []) h w' E)
    as (fs & mode & start & s & Hfs & _ & _ & Hd & ->).
  exists s. destruct Hd as (_ & Hm & _). split.
  - rewrite Hm. vm_compute in Hfs. injection Hfs as <-. reflexivity.
  - apply elem_of_app. right. by left.
Defined.

(** The output is closed although [Generate] failed; an unknown mode opens nothing. *)
Example generator_runs {W} `{!S3Client W} (w : W) :
  length (generator_command_line demo_sha256 (demo_menv []) ["-events=0"] ([], w)).1.1 = 3%nat /\
  is_ok (generator_command_line demo_sha256 (demo_menv []) ["-events=0"] ([], w)).2 = false /\
  (generator_command_line demo_sha256 (demo_menv []) ["-output"; "file"; "-events=7"] ([], w)).1.1 = [].
Proof. split_and!; vm_compute; reflexivity. Qed.
